(* ===== verification/_CoqProject ===== *)
-Q . S2P
Prelude.v
Mem.v
Str.v
Fmt.v
Parse.v
Qsort.v
Time.v
Arr.v
Sha.v
ShaSpec.v
Md.v
Aes.v
AesSpec.v
Keywrap.v
Nlusctl.v
Sys.v
Nlsock.v
Netlink.v
State.v
Wsupp.v
WsLink.v
Apsel.v
Eapol.v
Wskeep.v
Handshake.v
Fourway.v
Krack.v
Wlimits.v
Exits.v
Cstr.v
Svchub.v
SvcRing.v
SvcTable.v
Svclimits.v
Lzma.v
LzmaSafe.v
LzmaSpec.v
LzmaCode.v
Util.v
Msh.v
MshMem.v
MshCmd.v
MshEnv.v
MshVar.v
MshParse.v
MshSafe.v
MshCmdSafe.v
MshScript.v
MshLaws.v
MshSpec.v
MshRun.v
Mshlimits.v
Scrypt.v
ScryptSpec.v
