(* ===== verification/Prelude.v ===== *)
(** * Verification of the minibase userspace

    minibase is a set of static Linux programs on a C library of its own
    (src/lib): no libc, no threads, no shared memory between processes, and in
    most programs no allocation beyond a few static arrays and a heap that only
    grows.  This development translates parts of it into functions of Rocq,
    line by line, and proves what the parts are there for.

    ** The parts of the program

    - src/lib/string, src/lib/format, src/lib/util, src/lib/time: blocks,
      strings, numbers, dates, sorting.  Pure code on memory of the caller.
    - src/lib/crypto: hashes, key derivation, AES; used by the supplicant and
      the disk encryption tools.
    - src/lib/nlusctl: the protocol between a service and its control client,
      over a local socket; src/lib/netlink: the protocol between a program and
      the kernel.  Both pack attributes into a buffer, send it in one call, and
      take received messages apart.
    - src/lib/lzma.c: the decoder of compressed packages and modules.
    - src/src/wsupp: the Wi-Fi supplicant.  Its events (netlink messages,
      packets on a raw socket, a timer, the exit of a script, commands of a
      client) drive three state machines: station choice, connection, and the
      EAPOL handshake; it uses lib/netlink, lib/nlusctl and lib/crypto.
    - src/src/svchub: pid 1.  It starts the services, restarts those that die,
      keeps their output, answers the control client, and runs the boot and
      shutdown scripts; it uses lib/nlusctl.
    - src/src/msh: the interpreter of start-up scripts.  A parser that is a state
      machine over characters puts the words of a command on the heap, and calls
      it through a table; the variables are entries below the words.
    - The other programs (src/src/...): see what is not modelled, below.

    ** The files

    Every definition that models code names its source in brackets in the
    comment before it: the path under src/, the function, and lines where the
    definition is a part of a function.  Functions, fields and constants keep
    the names of the code.

    - [Prelude]: integers of C, lists indexed by [Z], tactics.
    - [Mem], [Str], [Fmt], [Parse]: lib/string and lib/format on a memory that
      maps addresses to bytes.  The promise of a formatter to its callers is
      the class [Fmt.Emits]; formatters are composed by its instances.
    - [Qsort]: lib/util/qsort.c on an array of any type; what it asks of a
      comparator is the class [Qsort.ThreeWay].
    - [Time]: lib/time, and the proleptic Gregorian calendar as specification.
    - [Arr]: a buffer that the code owns as the list of its bytes; a pointer
      into it is an offset.  Uninitialised locals are the class [Arr.Locals].
    - [Sha], [ShaSpec], [Md]: lib/crypto/sha*, pbkdf2*; FIPS 180-4, RFC 2104 and
      RFC 2898; and that the code computes them.  What the common part of both
      hashes needs of a block function is the class [ShaSpec.CoreSpec].
    - [Aes], [AesSpec], [Keywrap]: lib/crypto/aes128*; FIPS 197 and RFC 3394.
    - [Scrypt], [ScryptSpec]: lib/crypto/scrypt.c over the same PBKDF2; RFC 7914.
    - [Nlusctl], [Nlsock]: lib/nlusctl, messages and sockets.
    - [Netlink]: lib/netlink.
    - [Sys], [State], [Exits]: programs that call an arbitrary kernel, that have
      global variables, that may exit; weakest preconditions for them.
    - [Wsupp] (state, scan table: wsupp_slots.c, wsupp_bssid.c), [WsLink]
      (wsupp_nlauth.c, wsupp_nlscan.c, wsupp_nlkeys.c, sending in
      wsupp_eapol.c), [Apsel] (wsupp_apsel.c, wsupp_netlink.c, wsupp_script.c,
      timers), [Eapol] (receiving in wsupp_eapol.c): the code of the supplicant.
      [Wskeep]: what its parts leave alone.  [Handshake], [Fourway], [Krack]:
      the theorems.  [Wlimits]: deviations.
    - [Svchub]: the code of the supervisor.  [SvcRing], [SvcTable]: the theorems.
      [Svclimits]: deviations.
    - [Lzma]: lib/lzma.c.  [LzmaSafe]: safety, termination and margins.
      [LzmaSpec]: the format.  [LzmaCode]: the decoder decodes it.
    - [Cstr]: lib/string on strings that the code owns.  [Util]: lib/util and
      lib/sigset.c as msh uses them.
    - [Msh] (msh_common.c, msh_parser.c, msh.c), [MshCmd] (msh_cmd_*.c): the code of
      the interpreter, over the memory of [Mem].  [MshMem]: its heap, and the table of
      variables as a list.  [MshEnv]: walks over variables and environment.
      [MshVar]: the commands on variables as functions.  [MshParse]:
      substitution.  [MshSafe], [MshCmdSafe], [MshScript]: the other commands, the
      parser, and that no run faults.  [MshLaws]: what the commands promise.
      [MshSpec]: scripts as trees of system calls.  [MshRun]: msh follows them.
      [Mshlimits]: deviations.

    ** How code becomes a definition

    - An integer is a [Z].  Where the C type can truncate or wrap, the wrap is
      written ([u8] ... [u64], [s8] ... [s64]); [char] is signed, [int] has 32
      bits, [long] and pointers 64, and the byte order is little-endian
      (x86_64).
    - A fault of the program, an access outside of an object or past the end
      of an array, is [None] of the outermost [option].  A theorem that says
      that a function returns [Some] therefore states its memory safety.
    - A program that calls the kernel extends a trace of calls and replies.  The
      kernel is the class [State.Kern], any function of what happened so far and
      of the call: the theorems hold for every kernel, hence for every timing,
      every failure and every interleaving with other processes, so far as
      these can be seen by the program.  Its state is a record of the global
      variables, changed by explicit record updates.
    - An event loop is a step relation on state and trace ([Krack], [SvcTable]);
      invariants are proved by induction on reachability.
    - Errors are what they are in the code, negative integers, or NULL.

    Loops whose recursion is not structural take fuel, and running out of it is
    the fault [None], so that a theorem must show the fuel to be enough:
    - a walk over a string has one turn per byte of the memory and one more
      ([Str.str_fuel]); a number has less than 64 digits ([Fmt.len_fuel]);
    - [qsortx] has fuel for each level and each step of the partition, and
      [qsortx_sorts] shows the result;
    - a walk over attributes has one turn per byte of the message
      ([uc_get_safe], [nl_attr_k_in_finds]);
    - [lzma_inflate] is given its fuel; [lzma_inflate_terminates] shows that the
      room in the output and one more are enough, for every input;
    - the loops of [svchub] that read from the kernel until it has no more
      ([check_children], [check_signal], [process_sigfd]) are given their fuel:
      a kernel that always has one more child to report is possible, and the
      theorems, about safety, hold for every fuel;
    - so are the loops of [msh] that read a script ([read_loop]) or wait for the kernel
      ([wait_child], [watch_ino_for]): there the run is cut off when the fuel
      ends, as if the process were looked at in the middle of it, and [msh_safe]
      holds for every fuel.  Loops over memory in msh have as much fuel as the
      part of the memory they walk over, and that is shown to be enough.

    ** What the theorems show

    - The supplicant (C1, C2, C3, C7, C8): no packet makes it
      access memory outside of its objects; keys are installed only for packets
      with a valid integrity code and a new replay counter; the pairwise key is
      installed once for each handshake, in every reachable state, so that
      replayed packets do not reset packet numbers; a correct access point is
      answered as IEEE 802.11 says and its keys are installed.
    - The decoder (C4 to C6): it decodes every stream of the format,
      returns for every input, and keeps the promise about margins its header
      makes.
    - The supervisor (C9, C10): the table of processes and the children
      agree until shutdown; a client gets the end of the output of a service.
    - Cryptography (C15 to C22): refinement of the standards, and inverses.
    - Messages (C23 to C28): packing is all or nothing, parsing is safe
      on arbitrary bytes, what was packed is what is read, a cut stream of
      netlink messages is put together again; a live control socket is never
      removed (C29).
    - The library (C30 to C40): sorting, the calendar, strings, and the round
      trips of formatting and parsing.
    - The interpreter (C11 to C14): whatever the script, the arguments,
      the environment and the kernel's replies, it stays inside of its memory; a
      script does what a specification without memory says of its text, call by
      call; an error is reported once and ends it; the table of variables stays
      well-formed.

    What the code does otherwise than its authors mean is proved too, in
    [Wlimits], [Svclimits] and [Mshlimits] and beside the functions concerned
    ([natcmp_cycle], [fmtint_minus_overrun], [fmtpad_overrun],
    [parseipmask_uninitialised], [uc_get_str_overread], [uc_add_str_revives],
    [nl_get_of_len_overread], [nl_get_str_absent], [lzma_create_fresh],
    [peek_back_start]).

    ** Hypotheses

    The kernel and the contents of uninitialised variables are arbitrary, except
    for what the theorems on msh need: the break stays in a window of the address
    space ([MshMem.BrkKern]) and replies are no longer than what was asked for
    ([MshCmdSafe.ReplyKern]).  Build
    time paths of svchub are the class [Svchub.Config].  No hypothesis is made
    about other code: what the modelled functions call is modelled as well,
    except for system calls.  Where a theorem restricts its inputs (a length
    below [2^31], a year, a key of 64 bytes), the code behaves differently
    outside of them, and the comment says so.

    ** What is not modelled

    - System call stubs, start-up assembly and kernel structures (lib/arch,
      lib/bits, lib/sys): the interface of the kernel.
    - Tables of names and debugging output: lib/format/fmterr.c, the dump_*.c
      files of lib/netlink and lib/nlusctl; formatting for 32-bit targets.
    - wsupp: its control protocol, start-up requests and poll loop.  svchub:
      the texts it prints, and what a child does before execve.
    - The other programs, buffered output, option letters, and what is
      not used by the modelled programs in lib/util: most are sequences of system
      calls and printing; those with a core of their own (dhconf, timed, cpio,
      kmod, mpac) would be the next to model.
    - msh: the commands setcaps, setcpus and waitfor are modelled, but left out of
      the table in [msh_safe]: they do leave their objects ([Mshlimits]).  [MshSpec]
      describes 14 commands; of the others only safety is shown. *)
From stdpp Require Export prelude list gmap fin_maps.
From Stdlib Require Export ZArith Lia.
Open Scope Z_scope.

(** ** C integers

    Integer values are [Z]; every place where the C type can truncate is an
    explicit wrap.  [uN] is reduction to an unsigned type, [sN] conversion to
    a two's complement signed type. *)
Definition uwrap (w x : Z) : Z := x mod 2 ^ w.
Definition swrap (w x : Z) : Z := (x + 2 ^ (w - 1)) mod 2 ^ w - 2 ^ (w - 1).

Abbreviation u8 := (uwrap 8).
Abbreviation u16 := (uwrap 16).
Abbreviation u32 := (uwrap 32).
Abbreviation u64 := (uwrap 64).
Abbreviation s8 := (swrap 8).
Abbreviation s16 := (swrap 16).
Abbreviation s32 := (swrap 32).
Abbreviation s64 := (swrap 64).

Lemma uwrap_range w x : 0 <= w -> 0 <= uwrap w x < 2 ^ w.
Proof. intros. apply Z.mod_pos_bound. lia. Qed.

Lemma uwrap_small w x : 0 <= x < 2 ^ w -> uwrap w x = x.
Proof. intros. by apply Z.mod_small. Qed.

Lemma swrap_small w x : 0 < w -> - 2 ^ (w - 1) <= x < 2 ^ (w - 1) -> swrap w x = x.
Proof.
  intros Hw Hx. unfold swrap.
  assert (2 ^ w = 2 * 2 ^ (w - 1)) as Hp.
  { rewrite <- Z.pow_succ_r by lia. f_equal. lia. }
  rewrite Z.mod_small by lia. lia.
Qed.

Lemma uwrap_idemp w x : 0 <= w -> uwrap w (uwrap w x) = uwrap w x.
Proof. intros. apply uwrap_small, uwrap_range. lia. Qed.

Lemma s32_small x : - 2147483648 <= x < 2147483648 -> s32 x = x.
Proof. intros. apply swrap_small; lia. Qed.

Lemma u32_small x : 0 <= x < 4294967296 -> u32 x = x.
Proof. intros. apply uwrap_small; lia. Qed.

Lemma u64_small x : 0 <= x < 2 ^ 64 -> u64 x = x.
Proof. intros. by apply uwrap_small. Qed.

Lemma s64_small x : - 9223372036854775808 <= x < 9223372036854775808 -> s64 x = x.
Proof. intros. apply swrap_small; lia. Qed.

(** Or is a sum where no bit is in both. *)
Lemma lor_disjoint a b k :
  0 <= k -> a mod 2 ^ k = 0 -> 0 <= b < 2 ^ k -> Z.lor a b = a + b.
Proof.
  intros Hk Ha Hb.
  assert (Z.land a b = 0) as Hl.
  { apply Z.bits_inj'. intros i Hi. rewrite Z.land_spec, Z.bits_0.
    destruct (decide (i < k)).
    - rewrite <- (Z.mod_pow2_bits_low a k i) by lia. by rewrite Ha, Z.bits_0.
    - rewrite <- (Z.mod_small b (2 ^ k)) by done.
      rewrite (Z.mod_pow2_bits_high b k i) by lia. by rewrite andb_false_r. }
  by rewrite <- Z.lxor_lor, <- Z.add_nocarry_lxor.
Qed.

Lemma land_byte x : Z.land x 255 = x mod 256.
Proof. change 255 with (Z.ones 8). by rewrite Z.land_ones. Qed.

(** C division and remainder truncate towards zero. *)
Abbreviation cdiv := Z.quot.
Abbreviation crem := Z.rem.

(** ** Small automation *)

(** Split boolean comparisons of [Z] in the goal and the context. *)
Ltac zbool :=
  repeat match goal with
  | H : (_ && _)%bool = true |- _ => apply andb_true_iff in H as [? ?]
  | H : (_ || _)%bool = false |- _ => apply orb_false_iff in H as [? ?]
  | H : (_ <? _) = true |- _ => apply Z.ltb_lt in H
  | H : (_ <? _) = false |- _ => apply Z.ltb_ge in H
  | H : (_ <=? _) = true |- _ => apply Z.leb_le in H
  | H : (_ <=? _) = false |- _ => apply Z.leb_gt in H
  | H : (_ =? _) = true |- _ => apply Z.eqb_eq in H
  | H : (_ =? _) = false |- _ => apply Z.eqb_neq in H
  end.

(** Case analysis on the Boolean comparisons of the goal, discarding by [lia]
    the branches that the context refutes. *)
Ltac zcases :=
  repeat match goal with
  | |- context [?a <? ?b] => destruct (Z.ltb_spec a b); try lia
  | |- context [?a <=? ?b] => destruct (Z.leb_spec a b); try lia
  | |- context [?a =? ?b] => destruct (Z.eqb_spec a b); try lia
  end.

Create HintDb minibase.

(** ** Lists *)

Abbreviation zlen l := (Z.of_nat (length l)).

Lemma take_lookup_lt {A} (l : list A) n i :
  (i < n)%nat -> take n l !! i = l !! i.
Proof. apply lookup_take_lt. Qed.

(** Lookups in a map by a [Z] index into a list. *)
Definition zget {A} (l : list A) (i : Z) : option A :=
  if decide (0 <= i) then l !! Z.to_nat i else None.

Lemma zget_nat {A} (l : list A) (i : nat) : zget l (Z.of_nat i) = l !! i.
Proof. unfold zget. rewrite decide_True by lia. by rewrite Nat2Z.id. Qed.

Lemma zget_Some_lt {A} (l : list A) i x : zget l i = Some x -> 0 <= i < zlen l.
Proof.
  unfold zget. case_decide; [|done]. intros ?%lookup_lt_Some. lia.
Qed.

Lemma zget_lt_is_Some {A} (l : list A) i : 0 <= i < zlen l -> is_Some (zget l i).
Proof.
  intros. unfold zget. rewrite decide_True by lia. apply lookup_lt_is_Some. lia.
Qed.

Lemma zget_ge {A} (l : list A) i : zlen l <= i -> zget l i = None.
Proof.
  intros. unfold zget. case_decide; [|done]. apply lookup_ge_None. lia.
Qed.

Lemma zget_neg {A} (l : list A) i : i < 0 -> zget l i = None.
Proof. intros. unfold zget. by rewrite decide_False by lia. Qed.

Lemma zget_cons_0 {A} (x : A) l : zget (x :: l) 0 = Some x.
Proof. done. Qed.

Lemma zget_cons_pos {A} (x : A) l i : 0 < i -> zget (x :: l) i = zget l (i - 1).
Proof.
  intros. unfold zget. rewrite !decide_True by lia.
  replace (Z.to_nat i) with (S (Z.to_nat (i - 1))) by lia. done.
Qed.

Lemma zget_app_l {A} (l k : list A) i : i < zlen l -> zget (l ++ k) i = zget l i.
Proof.
  intros. unfold zget. case_decide; [|done]. apply lookup_app_l. lia.
Qed.

Lemma zget_app_r {A} (l k : list A) i :
  zlen l <= i -> zget (l ++ k) i = zget k (i - zlen l).
Proof.
  intros. unfold zget. rewrite !decide_True by lia.
  rewrite lookup_app_r by lia. f_equal. lia.
Qed.

Lemma zget_take {A} (l : list A) n i :
  i < Z.of_nat n -> zget (take n l) i = zget l i.
Proof. intros. unfold zget. case_decide; [|done]. apply lookup_take_lt. lia. Qed.

Lemma zget_drop {A} (l : list A) n i :
  0 <= i -> zget (drop n l) i = zget l (Z.of_nat n + i).
Proof.
  intros. unfold zget. rewrite !decide_True by lia. rewrite lookup_drop. f_equal. lia.
Qed.

Lemma list_eq_zget {A} (l k : list A) : (forall i, zget l i = zget k i) -> l = k.
Proof.
  intros H. apply list_eq. intros i. specialize (H (Z.of_nat i)).
  by rewrite !zget_nat in H.
Qed.

(** Reading [n] consecutive cells through a partial reader. *)
Lemma bind_Some_inv {A B} (o : option A) (f : A -> option B) y :
  o ≫= f = Some y -> exists x, o = Some x /\ f x = Some y.
Proof. destruct o; simpl; [eauto|done]. Qed.

Lemma Some_bind {A B} (x : A) (f : A -> option B) : Some x ≫= f = f x.
Proof. done. Qed.

(** ** Finite ranges *)

(** A decidable property of the integers of a finite range, by evaluation. *)
Lemma range_check (P : Z -> Prop) `{!forall x, Decision (P x)} lo n :
  bool_decide (Forall P (seqZ lo n)) = true -> forall x, lo <= x < lo + n -> P x.
Proof.
  intros HF x Hx. apply bool_decide_eq_true_1 in HF. rewrite Forall_forall in HF.
  by apply HF, elem_of_seqZ.
Qed.

(** ** Positional numerals *)

(** The [k] low digits of [n] in base [b], most significant first. *)
Fixpoint digits (b : Z) (k : nat) (n : Z) : list Z :=
  match k with
  | O => []
  | S k => digits b k (n / b) ++ [n mod b]
  end.

(** The number a digit string denotes. *)
Definition value (b : Z) (ds : list Z) : Z := foldl (fun a d => a * b + d) 0 ds.

(** The number of digits of [n] in base [b], without leading zeroes. *)
Fixpoint ndig (fuel : nat) (b n : Z) : nat :=
  match fuel with
  | O => 1
  | S fuel => if n <? b then 1 else S (ndig fuel b (n / b))
  end.
Definition ndigits (b n : Z) : nat := ndig (Z.to_nat (Z.log2 n)) b n.

Lemma length_digits b k n : length (digits b k n) = k.
Proof.
  revert n. induction k as [|k IH]; intros; simpl; [done|].
  rewrite length_app, IH. simpl. lia.
Qed.

Lemma digits_range b k n : 1 < b -> Forall (fun d => 0 <= d < b) (digits b k n).
Proof.
  intros Hb. revert n. induction k as [|k IH]; intros; simpl; [constructor|].
  apply Forall_app. split; [done|]. repeat constructor; apply Z.mod_pos_bound; lia.
Qed.

Lemma value_app b ds d : value b (ds ++ [d]) = value b ds * b + d.
Proof. unfold value. by rewrite foldl_app. Qed.

Lemma value_digits b k n :
  1 < b -> 0 <= n -> value b (digits b k n) = n mod b ^ Z.of_nat k.
Proof.
  intros Hb. revert n. induction k as [|k IH]; intros n Hn.
  { simpl. by rewrite Z.mod_1_r. }
  simpl digits. rewrite value_app, IH by (apply Z.div_pos; lia).
  rewrite Nat2Z.inj_succ, Z.pow_succ_r by lia.
  rewrite Z.rem_mul_r by (try apply Z.pow_pos_nonneg; lia). lia.
Qed.

Lemma value_digits_small b k n :
  1 < b -> 0 <= n < b ^ Z.of_nat k -> value b (digits b k n) = n.
Proof. intros. rewrite value_digits by lia. apply Z.mod_small. lia. Qed.

Lemma ndig_spec fuel b n :
  1 < b -> 0 <= n < b ^ (Z.of_nat fuel + 1) ->
  let k := Z.of_nat (ndig fuel b n) in
  1 <= k <= Z.of_nat fuel + 1 /\ n < b ^ k /\ (k = 1 \/ b ^ (k - 1) <= n).
Proof.
  intros Hb. revert n. induction fuel as [|fuel IH]; intros n Hn; cbv zeta.
  { simpl in *. rewrite Z.pow_1_r in *. lia. }
  cbn [ndig]. destruct (Z.ltb_spec n b).
  { simpl. rewrite Z.pow_1_r. lia. }
  assert (0 <= n / b < b ^ (Z.of_nat fuel + 1)) as Hq.
  { split; [apply Z.div_pos; lia|]. apply Z.div_lt_upper_bound; [lia|].
    rewrite <- Z.pow_succ_r by lia. replace (Z.succ _) with (Z.of_nat (S fuel) + 1) by lia.
    lia. }
  specialize (IH _ Hq). cbv zeta in IH. set (k := ndig fuel b (n / b)) in *.
  destruct IH as (Hk & Hlt & Hge). rewrite Nat2Z.inj_succ.
  split; [lia|]. split.
  - rewrite Z.pow_succ_r by lia.
    pose proof (Z.div_mod n b ltac:(lia)). pose proof (Z.mod_pos_bound n b ltac:(lia)). nia.
  - right. replace (Z.succ (Z.of_nat k) - 1) with (Z.of_nat k) by lia.
    destruct Hge as [->|Hge]; [rewrite Z.pow_1_r; lia|].
    replace (Z.of_nat k) with (Z.succ (Z.of_nat k - 1)) by lia.
    rewrite Z.pow_succ_r by lia.
    pose proof (Z.div_mod n b ltac:(lia)). pose proof (Z.mod_pos_bound n b ltac:(lia)). nia.
Qed.

(** The digit count does not depend on the fuel that is enough for it. *)
Lemma ndig_fuel f g b n :
  1 < b -> 0 <= n < b ^ (Z.of_nat f + 1) -> n < b ^ (Z.of_nat g + 1) ->
  ndig f b n = ndig g b n.
Proof.
  intros Hb Hf Hg. pose proof (ndig_spec f b n Hb Hf) as (? & Hf1 & Hf2).
  pose proof (ndig_spec g b n Hb ltac:(lia)) as (? & Hg1 & Hg2).
  set (k := Z.of_nat (ndig f b n)) in *. set (l := Z.of_nat (ndig g b n)) in *.
  assert (k = l); [|lia]. destruct (Z.lt_trichotomy k l) as [Hl|[?|Hl]]; [|done|].
  - destruct Hg2; [lia|]. pose proof (Z.pow_le_mono_r b k (l - 1)). lia.
  - destruct Hf2; [lia|]. pose proof (Z.pow_le_mono_r b l (k - 1)). lia.
Qed.

Lemma ndigits_spec b n :
  1 < b -> 0 <= n ->
  let k := Z.of_nat (ndigits b n) in
  1 <= k /\ n < b ^ k /\ (k = 1 \/ b ^ (k - 1) <= n).
Proof.
  intros Hb Hn. unfold ndigits.
  assert (n < b ^ (Z.of_nat (Z.to_nat (Z.log2 n)) + 1)) as Hlt.
  { destruct (decide (n = 0)) as [->|]; [apply Z.pow_pos_nonneg; lia|].
    rewrite Z2Nat.id by apply Z.log2_nonneg.
    pose proof (Z.log2_spec n ltac:(lia)) as [_ H].
    eapply Z.lt_le_trans; [exact H|]. apply Z.pow_le_mono_l. lia. }
  destruct (ndig_spec (Z.to_nat (Z.log2 n)) b n Hb (conj Hn Hlt)) as ([? _] & ? & ?).
  done.
Qed.

Lemma ndigits_eq fuel b n :
  1 < b -> 0 <= n < b ^ (Z.of_nat fuel + 1) -> ndigits b n = ndig fuel b n.
Proof.
  intros Hb Hn. unfold ndigits. apply ndig_fuel; [done| |lia]. split; [lia|].
  destruct (decide (n = 0)) as [->|]; [apply Z.pow_pos_nonneg; lia|].
  rewrite Z2Nat.id by apply Z.log2_nonneg.
  pose proof (Z.log2_spec n ltac:(lia)) as [_ H].
  eapply Z.lt_le_trans; [exact H|]. apply Z.pow_le_mono_l. lia.
Qed.

Lemma value_numeral b n :
  1 < b -> 0 <= n -> value b (digits b (ndigits b n) n) = n.
Proof.
  intros. apply value_digits_small; [done|].
  destruct (ndigits_spec b n) as (? & ? & ?); [done..|]. done.
Qed.
