(* ===== verification/Mem.v ===== *)
(** * Byte memory and the [mem*] routines of lib/string

    The address space of a process is a finite map from addresses to bytes.
    An address outside the map is not part of any object: reading or writing
    there is the model's only fault, [None].  Pointers are addresses and
    [NULL] is 0. *)
From S2P Require Import Prelude.

Abbreviation mem := (gmap Z Z).
Abbreviation ptr := Z (only parsing).

Definition ld8 (m : mem) (p : ptr) : option Z := m !! p.

Definition st8 (m : mem) (p : ptr) (v : Z) : option mem :=
  match m !! p with
  | Some _ => Some (<[p := u8 v]> m)
  | None => None
  end.

(** Every cell holds a byte. *)
Definition mem_ok (m : mem) : Prop := map_Forall (fun _ b => 0 <= b < 256) m.

(** [n] bytes starting at [p] belong to the address space. *)
Definition mapped (m : mem) (p : ptr) (n : Z) : Prop :=
  forall a, p <= a < p + n -> is_Some (m !! a).

(** The bytes at [p] are exactly [l]. *)
Definition bytes_at (m : mem) (p : ptr) (l : list Z) : Prop :=
  forall i b, l !! i = Some b -> m !! (p + Z.of_nat i) = Some b.

(** A NUL-terminated string [s] is stored at [p]. *)
Definition cstr_at (m : mem) (p : ptr) (s : list Z) : Prop :=
  bytes_at m p (s ++ [0]) /\ Forall (fun c => 0 < c < 256) s.

(** Storing the bytes [l] at [p], the reference effect of every writer. *)
Fixpoint poke (m : mem) (p : ptr) (l : list Z) : mem :=
  match l with
  | [] => m
  | b :: l => poke (<[p := b]> m) (p + 1) l
  end.

(** The [n] bytes at [p], if they are all mapped. *)
Fixpoint peek (m : mem) (p : ptr) (n : nat) : option (list Z) :=
  match n with
  | O => Some []
  | S n => b ← m !! p; l ← peek m (p + 1) n; Some (b :: l)
  end.

(** ** Laws of the memory *)

Lemma lookup_poke m p l a :
  poke m p l !! a =
  if decide (p <= a < p + zlen l) then zget l (a - p) else m !! a.
Proof.
  revert m p. induction l as [|b l IH]; intros m p; simpl.
  { rewrite decide_False by lia. done. }
  rewrite IH. destruct (decide (a = p)) as [->|].
  - rewrite decide_False by lia. rewrite decide_True by lia.
    rewrite lookup_insert_eq. by rewrite Z.sub_diag.
  - rewrite lookup_insert_ne by done.
    repeat case_decide; try lia; [|done].
    rewrite (zget_cons_pos b l (a - p)) by lia. f_equal. lia.
Qed.

Lemma lookup_poke_in m p l a :
  p <= a < p + zlen l -> poke m p l !! a = zget l (a - p).
Proof. intros. rewrite lookup_poke. by rewrite decide_True. Qed.

Lemma lookup_poke_out m p l a :
  ~ (p <= a < p + zlen l) -> poke m p l !! a = m !! a.
Proof. intros. rewrite lookup_poke. by rewrite decide_False. Qed.

Lemma poke_app m p l k : poke m p (l ++ k) = poke (poke m p l) (p + zlen l) k.
Proof.
  revert m p. induction l as [|b l IH]; intros; simpl; [f_equal; lia|].
  rewrite IH. f_equal. lia.
Qed.

Lemma poke_snoc_below m p l b :
  poke (<[p + zlen l := b]> m) p l = poke m p (l ++ [b]).
Proof.
  rewrite poke_app. simpl. apply map_eq. intros a.
  destruct (decide (a = p + zlen l)) as [->|].
  - rewrite lookup_poke_out, !lookup_insert_eq by lia. done.
  - rewrite lookup_insert_ne by done. rewrite !lookup_poke.
    case_decide; [done|]. by rewrite lookup_insert_ne.
Qed.

Lemma poke_is_Some m p l a : is_Some (m !! a) -> is_Some (poke m p l !! a).
Proof.
  intros. rewrite lookup_poke. case_decide; [|done].
  apply zget_lt_is_Some. lia.
Qed.

Lemma mapped_poke m p l q n : mapped m q n -> mapped (poke m p l) q n.
Proof. intros H a Ha. by apply poke_is_Some, H. Qed.

Lemma mapped_insert m p v q n : mapped m q n -> mapped (<[p := v]> m) q n.
Proof. intros H a Ha. apply (poke_is_Some m p [v]). by apply H. Qed.

Lemma mapped_sub m p n q k :
  mapped m p n -> p <= q -> q + k <= p + n -> mapped m q k.
Proof. intros H ?? a ?. apply H. lia. Qed.

Lemma bytes_at_zget m p l :
  bytes_at m p l <-> forall i b, zget l i = Some b -> m !! (p + i) = Some b.
Proof.
  split; intros H i b Hi.
  - pose proof (zget_Some_lt _ _ _ Hi). specialize (H (Z.to_nat i) b).
    rewrite Z2Nat.id in H by lia. apply H. rewrite <- Hi, <- zget_nat.
    f_equal. lia.
  - apply H. by rewrite zget_nat.
Qed.

Lemma bytes_at_nil m p : bytes_at m p [].
Proof. by intros i b Hi%list_elem_of_lookup_2%not_elem_of_nil. Qed.

Lemma bytes_at_cons m p b l :
  bytes_at m p (b :: l) <-> m !! p = Some b /\ bytes_at m (p + 1) l.
Proof.
  split.
  - intros H. split.
    + specialize (H 0%nat b eq_refl). by rewrite Z.add_0_r in H.
    + intros i c Hi. specialize (H (S i) c Hi). rewrite <- H. f_equal. lia.
  - intros [H0 H] [|i] c Hi; simpl in *.
    + simplify_eq. by rewrite Z.add_0_r.
    + rewrite <- (H i c Hi). f_equal. lia.
Qed.

Lemma bytes_at_app m p l k :
  bytes_at m p (l ++ k) <-> bytes_at m p l /\ bytes_at m (p + zlen l) k.
Proof.
  revert p. induction l as [|b l IH]; intros p; simpl.
  - rewrite Z.add_0_r.
    split; [intros ?; split; [apply bytes_at_nil|done]|intros [_ H]; exact H].
  - rewrite !bytes_at_cons, IH.
    replace (p + 1 + zlen l) with (p + Z.of_nat (S (length l))) by lia. tauto.
Qed.

Lemma bytes_at_mapped m p l : bytes_at m p l -> mapped m p (zlen l).
Proof.
  rewrite bytes_at_zget. intros H a Ha.
  destruct (zget_lt_is_Some l (a - p)) as [b Hb]; [lia|].
  exists b. specialize (H _ _ Hb). rewrite <- H. f_equal. lia.
Qed.

Lemma bytes_at_poke m p l : bytes_at (poke m p l) p l.
Proof.
  rewrite bytes_at_zget. intros i b Hi. pose proof (zget_Some_lt _ _ _ Hi).
  rewrite lookup_poke_in by lia. rewrite <- Hi. f_equal. lia.
Qed.

Lemma bytes_at_poke_disjoint m p l q k :
  q + zlen k <= p \/ p + zlen l <= q -> bytes_at m q k -> bytes_at (poke m p l) q k.
Proof.
  rewrite !bytes_at_zget. intros Hd H i b Hi. pose proof (zget_Some_lt _ _ _ Hi).
  rewrite lookup_poke_out by lia. by apply H.
Qed.

(** Storing one cell before the rest of a block. *)
Lemma poke_cons m p b l : poke m p (b :: l) = poke (<[p := b]> m) (p + 1) l.
Proof. done. Qed.

Lemma is_Some_insert (m : mem) p v q : is_Some (m !! q) -> is_Some ((<[p := v]> m) !! q).
Proof. apply (poke_is_Some m p [v]). Qed.

Lemma bytes_at_insert_apart (m : mem) v b p l :
  v < p \/ p + zlen l <= v -> bytes_at m p l -> bytes_at (<[v := b]> m) p l.
Proof. intros Hd. apply (bytes_at_poke_disjoint m v [b]). simpl. lia. Qed.

Lemma peek_Some m p n l :
  peek m p n = Some l <-> length l = n /\ bytes_at m p l.
Proof.
  revert p l. induction n as [|n IH]; intros p l; simpl.
  - split; [intros [= <-]; split; [done|apply bytes_at_nil]|].
    intros [->%nil_length_inv _]. done.
  - split.
    + intros (b & Hb & (k & Hk & [= <-])%bind_Some_inv)%bind_Some_inv.
      apply IH in Hk as [<- ?]. by rewrite bytes_at_cons.
    + intros [Hl Hb]. destruct l as [|b l]; [done|].
      apply bytes_at_cons in Hb as [-> Hb]. simpl.
      rewrite (proj2 (IH (p + 1) l)); [done|]. split; [by injection Hl|done].
Qed.

Lemma peek_mapped m p n : mapped m p (Z.of_nat n) -> exists l, peek m p n = Some l.
Proof.
  revert p. induction n as [|n IH]; intros p H; simpl; [by eexists|].
  destruct (H p) as [b Hb]; [lia|]. rewrite Hb. simpl.
  destruct (IH (p + 1)) as [l ->]; [|by eexists].
  intros a Ha. apply H. lia.
Qed.

(** The bytes of a string are distinct cells, so a string is no longer than
    the memory it lives in: the number of mapped cells is enough fuel for a
    loop that walks a string. *)
Lemma bytes_at_size m p l : bytes_at m p l -> (length l <= size m)%nat.
Proof.
  intros H.
  set (ks := (fun i => p + Z.of_nat i) <$> seq 0 (length l)).
  assert (list_to_set ks ⊆@{gset Z} dom m) as Hsub.
  { intros a. rewrite elem_of_list_to_set. unfold ks.
    intros (i & -> & Hi)%list_elem_of_fmap. apply elem_of_seq in Hi.
    destruct (lookup_lt_is_Some_2 l i) as [b Hb]; [lia|].
    apply elem_of_dom. exists b. by apply H. }
  apply subseteq_size in Hsub. rewrite size_dom in Hsub.
  rewrite size_list_to_set in Hsub.
  - unfold ks in Hsub. by rewrite length_fmap, length_seq in Hsub.
  - unfold ks. apply NoDup_fmap_2; [|apply NoDup_seq].
    intros i j ?. lia.
Qed.

Lemma st8_mapped m p v : is_Some (m !! p) -> st8 m p v = Some (<[p := u8 v]> m).
Proof. unfold st8. by intros [? ->]. Qed.

(** ** Decision procedures, used to evaluate hypotheses on concrete memories *)

#[export] Instance mem_ok_dec m : Decision (mem_ok m).
Proof. apply map_Forall_dec. intros ? ?. apply _. Defined.

#[export] Instance mapped_dec m p n : Decision (mapped m p n).
Proof.
  refine (cast_if (decide (Forall (fun a => is_Some (m !! a)) (seqZ p n)))).
  - abstract (intros a Ha; rewrite Forall_forall in f; apply f, elem_of_seqZ; lia).
  - abstract (intros Hm; apply n0, Forall_forall; intros a Ha%elem_of_seqZ; apply Hm; lia).
Defined.

#[export] Instance bytes_at_dec m p l : Decision (bytes_at m p l).
Proof.
  refine (cast_if (decide (peek m p (length l) = Some l))).
  - abstract (by apply peek_Some in e as [_ ?]).
  - abstract (intros ?; apply n, peek_Some; done).
Defined.

#[export] Instance cstr_at_dec m p s : Decision (cstr_at m p s).
Proof. unfold cstr_at. apply _. Defined.

(** Close a decidable closed goal by evaluation. *)
Ltac decide_now := apply (bool_decide_eq_true_1 _); vm_compute; reflexivity.

(** ** NUL-terminated strings *)

Lemma cstr_at_nil m p : cstr_at m p [] <-> m !! p = Some 0.
Proof.
  unfold cstr_at. simpl. rewrite bytes_at_cons. split; [tauto|].
  intros H. split; [|by constructor]. split; [done|apply bytes_at_nil].
Qed.

Lemma cstr_at_cons m p c s :
  cstr_at m p (c :: s) <-> m !! p = Some c /\ 0 < c < 256 /\ cstr_at m (p + 1) s.
Proof. unfold cstr_at. simpl. rewrite bytes_at_cons, Forall_cons. tauto. Qed.

Lemma cstr_at_drop m p s i :
  (i <= length s)%nat -> cstr_at m p s -> cstr_at m (p + Z.of_nat i) (drop i s).
Proof.
  revert p s. induction i as [|i IH]; intros p s Hi H; simpl in *.
  { by rewrite drop_0, Z.add_0_r. }
  destruct s as [|c s]; simpl in *; [lia|]. apply cstr_at_cons in H as (_ & _ & H).
  replace (p + Z.of_nat (S i)) with (p + 1 + Z.of_nat i) by lia.
  apply IH; [lia|done].
Qed.

Lemma cstr_at_app m p s t :
  cstr_at m p (s ++ t) <->
  bytes_at m p s /\ Forall (fun c => 0 < c < 256) s /\ cstr_at m (p + zlen s) t.
Proof.
  unfold cstr_at. rewrite <- app_assoc, bytes_at_app, Forall_app. tauto.
Qed.

Lemma cstr_at_size m p s : cstr_at m p s -> (length s < size m)%nat.
Proof.
  intros [H%bytes_at_size _]. rewrite length_app in H. simpl in H. lia.
Qed.

Lemma cstr_at_unique m p s t : cstr_at m p s -> cstr_at m p t -> s = t.
Proof.
  revert p t. induction s as [|c s IH]; intros p [|d t] Hs Ht.
  - done.
  - apply cstr_at_nil in Hs. apply cstr_at_cons in Ht as (? & ? & _). simplify_eq. lia.
  - apply cstr_at_nil in Ht. apply cstr_at_cons in Hs as (? & ? & _). simplify_eq. lia.
  - apply cstr_at_cons in Hs as (? & _ & Hs), Ht as (? & _ & Ht). simplify_eq.
    f_equal. by eapply IH.
Qed.
