(* ===== verification/Str.v ===== *)
(** * lib/string: block and string routines

    One definition per function of lib/string, on the byte memory of [Mem].
    A [while] loop is a [Fixpoint] on a fuel argument that tests the C
    condition at every turn and faults ([None]) if the fuel runs out; the
    specifications below show that the fuel each function starts with is
    enough on valid arguments.  [char] is signed (the x86_64 ABI). *)
From S2P Require Import Prelude Mem.

(** Fuel for loops that walk a string: one turn per mapped cell and one to stop. *)
Definition str_fuel (m : mem) : nat := S (size m).

(** ** Blocks *)

(** [lib/string/memcpy.c: memcpy] the loop *)
Fixpoint memcpy_loop (n : nat) (m : mem) (d s : ptr) : option mem :=
  match n with
  | O => Some m
  | S n => c ← ld8 m s; m ← st8 m d c; memcpy_loop n m (d + 1) (s + 1)
  end.

(** [lib/string/memcpy.c: memcpy] *)
Definition memcpy (m : mem) (dst src : ptr) (n : Z) : option (mem * ptr) :=
  m ← memcpy_loop (Z.to_nat n) m dst src; Some (m, dst).

(** [lib/string/memmove.c: memmove 12-16] the descending copy *)
Fixpoint memmove_loop (n : nat) (m : mem) (d s : ptr) : option mem :=
  match n with
  | O => Some m
  | S n => c ← ld8 m s; m ← st8 m d c; memmove_loop n m (d - 1) (s - 1)
  end.

(** [lib/string/memmove.c: memmove] *)
Definition memmove (m : mem) (dst src : ptr) (n : Z) : option (mem * ptr) :=
  if dst <? src then memcpy m dst src n
  else if dst =? src then Some (m, dst)
  else
    m ← memmove_loop (Z.to_nat n) m (dst + n - 1) (src + n - 1);
    Some (m, dst).

(** [lib/string/memset.c: memset 5-8] the loop [while(p < e) *p++ = c] *)
Fixpoint memset_loop (fuel : nat) (m : mem) (p e : ptr) (c : Z) : option mem :=
  if p <? e then
    match fuel with
    | O => None
    | S fuel => m ← st8 m p c; memset_loop fuel m (p + 1) e c
    end
  else Some m.

(** [lib/string/memset.c: memset] *)
Definition memset (m : mem) (a : ptr) (c n : Z) : option (mem * ptr) :=
  m ← memset_loop (Z.to_nat n) m a (a + n) c; Some (m, a).

(** [lib/string/memzero.c: memzero] *)
Definition memzero (m : mem) (a : ptr) (n : Z) : option mem :=
  memset_loop (Z.to_nat n) m a (a + n) 0.

(** [lib/string/memcmp.c: memcmp 10-12] *)
Fixpoint memcmp_loop (len : nat) (m : mem) (a b : ptr) : option Z :=
  match len with
  | O => Some 0
  | S len =>
      x ← ld8 m a; y ← ld8 m b;
      let d := x - y in
      if negb (d =? 0) then Some d else memcmp_loop len m (a + 1) (b + 1)
  end.

(** [lib/string/memcmp.c: memcmp] *)
Definition memcmp (m : mem) (av bv : ptr) (len : Z) : option Z :=
  memcmp_loop (Z.to_nat len) m av bv.

(** [lib/string/memxcmp.c: memxcmp 10-13] *)
Fixpoint memxcmp_loop (len : nat) (m : mem) (a b : ptr) (ret : Z) : option Z :=
  match len with
  | O => Some ret
  | S len =>
      x ← ld8 m a; y ← ld8 m b;
      memxcmp_loop len m (a + 1) (b + 1) (Z.lor ret (x - y))
  end.

(** [lib/string/memxcmp.c: memxcmp] *)
Definition memxcmp (m : mem) (av bv : ptr) (len : Z) : option Z :=
  memxcmp_loop (Z.to_nat len) m av bv 0.

(** [lib/string/nonzero.c: nonzero 5-9] *)
Fixpoint nonzero_loop (fuel : nat) (m : mem) (p e : ptr) : option Z :=
  if p <? e then
    match fuel with
    | O => None
    | S fuel =>
        c ← ld8 m p;
        if negb (c =? 0) then Some 1 else nonzero_loop fuel m (p + 1) e
    end
  else Some 0.

(** [lib/string/nonzero.c: nonzero] *)
Definition nonzero (m : mem) (a : ptr) (n : Z) : option Z :=
  nonzero_loop (Z.to_nat n) m a (a + n).

(** ** Strings *)

(** [lib/string/strlen.c: strlen 5-7] *)
Fixpoint strlen_loop (fuel : nat) (m : mem) (p : ptr) (len : Z) : option Z :=
  match fuel with
  | O => None
  | S fuel =>
      c ← ld8 m p;
      if negb (c =? 0) then strlen_loop fuel m (p + 1) (len + 1) else Some len
  end.

(** [lib/string/strlen.c: strlen] *)
Definition strlen (m : mem) (p : ptr) : option Z := strlen_loop (str_fuel m) m p 0.

(** [lib/string/strnlen.c: strnlen 7-11] *)
Fixpoint strnlen_loop (fuel : nat) (m : mem) (p e : ptr) (len : Z) : option Z :=
  if p <? e then
    match fuel with
    | O => None
    | S fuel =>
        c ← ld8 m p;
        if negb (c =? 0) then strnlen_loop fuel m (p + 1) e (len + 1) else Some len
    end
  else Some len.

(** [lib/string/strnlen.c: strnlen] *)
Definition strnlen (m : mem) (str : ptr) (max : Z) : option Z :=
  if str =? 0 then Some 0
  else strnlen_loop (Z.to_nat max) m str (str + max) 0.

(** [lib/string/strelen.c: strelen] *)
Definition strelen (p e : ptr) : Z :=
  if (p =? 0) || (e =? 0) || (e <=? p) then 0 else e - p.

(** [lib/string/strpend.c: strpend 10-11] *)
Fixpoint strpend_loop (fuel : nat) (m : mem) (p e : ptr) : option ptr :=
  if p <? e then
    match fuel with
    | O => None
    | S fuel =>
        c ← ld8 m p;
        if c =? 0 then Some p else strpend_loop fuel m (p + 1) e
    end
  else Some 0.

(** [lib/string/strpend.c: strpend] *)
Definition strpend (m : mem) (str : ptr) : option ptr :=
  if str =? 0 then Some 0 else strpend_loop 4096 m str (str + 4096).

(** [lib/string/strcbrk.c: strcbrk] *)
Fixpoint strcbrk_loop (fuel : nat) (m : mem) (p : ptr) (c : Z) : option ptr :=
  match fuel with
  | O => None
  | S fuel =>
      x ← ld8 m p;
      if negb (x =? 0) && negb (s8 x =? s8 c) then strcbrk_loop fuel m (p + 1) c
      else Some p
  end.

(** [lib/string/strcbrk.c: strcbrk] *)
Definition strcbrk (m : mem) (str : ptr) (c : Z) : option ptr :=
  strcbrk_loop (str_fuel m) m str c.

(** [lib/string/strecbrk.c: strecbrk] *)
Fixpoint strecbrk_loop (fuel : nat) (m : mem) (p e : ptr) (k : Z) : option ptr :=
  if p <? e then
    match fuel with
    | O => None
    | S fuel =>
        x ← ld8 m p;
        if s8 x =? s8 k then Some p else strecbrk_loop fuel m (p + 1) e k
    end
  else Some p.

(** [lib/string/strecbrk.c: strecbrk] *)
Definition strecbrk (m : mem) (p e : ptr) (k : Z) : option ptr :=
  strecbrk_loop (Z.to_nat (e - p)) m p e k.

(** [lib/string/strerev.c: strerev] *)
Fixpoint strerev_loop (fuel : nat) (m : mem) (p z : ptr) (c : Z) : option ptr :=
  if p <? z then
    match fuel with
    | O => None
    | S fuel =>
        x ← ld8 m (z - 1);
        if negb (s8 x =? s8 c) then strerev_loop fuel m p (z - 1) c else Some z
    end
  else Some z.

(** [lib/string/strerev.c: strerev] *)
Definition strerev (m : mem) (p e : ptr) (c : Z) : option ptr :=
  strerev_loop (Z.to_nat (e - p)) m p e c.

(** [lib/string/strchr.c: strchr 8-12] *)
Fixpoint strchr_loop (fuel : nat) (m : mem) (p : ptr) (c : Z) : option ptr :=
  match fuel with
  | O => None
  | S fuel =>
      x ← ld8 m p;
      if negb (x =? 0) then
        if s8 x =? c then Some p else strchr_loop fuel m (p + 1) c
      else Some 0
  end.

(** [lib/string/strchr.c: strchr] *)
Definition strchr (m : mem) (str : ptr) (c : Z) : option ptr :=
  strchr_loop (str_fuel m) m str c.

(** [lib/string/strcmp.c: strcmp 12-14] *)
Fixpoint strcmp_loop (fuel : nat) (m : mem) (a b : ptr) : option Z :=
  match fuel with
  | O => None
  | S fuel =>
      x ← ld8 m a;
      if negb (x =? 0) then
        y ← ld8 m b;
        if x =? y then strcmp_loop fuel m (a + 1) (b + 1) else Some (x - y)
      else y ← ld8 m b; Some (x - y)
  end.

(** [lib/string/strcmp.c: strcmp] *)
Definition strcmp (m : mem) (sa sb : ptr) : option Z :=
  if (sa =? 0) && (sb =? 0) then Some 0
  else if sa =? 0 then y ← ld8 m sb; Some (- y)
  else if sb =? 0 then x ← ld8 m sa; Some x
  else strcmp_loop (str_fuel m) m sa sb.

(** [lib/string/strncmp.c: strncmp 6-7] *)
Fixpoint strncmp_loop (fuel : nat) (m : mem) (a b : ptr) (n : Z) : option Z :=
  match fuel with
  | O => None
  | S fuel =>
      x ← ld8 m a;
      if negb (x =? 0) then
        let n := n - 1 in
        y ← ld8 m b;
        if (0 <? n) && (x =? y) then strncmp_loop fuel m (a + 1) (b + 1) n
        else Some (s8 x - s8 y)
      else y ← ld8 m b; Some (s8 x - s8 y)
  end.

(** [lib/string/strncmp.c: strncmp] *)
Definition strncmp (m : mem) (a b : ptr) (n : Z) : option Z :=
  if n =? 0 then Some 0 else strncmp_loop (str_fuel m) m a b n.

(** [lib/string/strcmpn.c: strcmpn 20-36] *)
Fixpoint strcmpn_loop (fuel : nat) (m : mem) (a e b : ptr) : option Z :=
  if a <? e then
    match fuel with
    | O => None
    | S fuel =>
        ac ← ld8 m a; bc ← ld8 m b;
        let d := s8 ac - s8 bc in
        if negb (d =? 0) || (ac =? 0) then Some d
        else strcmpn_loop fuel m (a + 1) e (b + 1)
    end
  else bc ← ld8 m b; Some (- s8 bc).

(** [lib/string/strcmpn.c: strcmpn] *)
Definition strcmpn (m : mem) (a b : ptr) (n : Z) : option Z :=
  strcmpn_loop (Z.to_nat n) m a (a + n) b.

(** [lib/string/strstr.c: strstr 10-11] the inner comparison: does [q] match at [r]? *)
Fixpoint strstr_match (fuel : nat) (m : mem) (r q : ptr) : option bool :=
  match fuel with
  | O => None
  | S fuel =>
      y ← ld8 m q;
      if negb (y =? 0) then
        x ← ld8 m r;
        if y =? x then strstr_match fuel m (r + 1) (q + 1) else Some false
      else Some true
  end.

(** [lib/string/strstr.c: strstr 9-14] *)
Fixpoint strstr_loop (fuel : nat) (m : mem) (p sub : ptr) : option ptr :=
  match fuel with
  | O => None
  | S fuel =>
      x ← ld8 m p;
      if negb (x =? 0) then
        b ← strstr_match (str_fuel m) m p sub;
        if (b : bool) then Some p else strstr_loop fuel m (p + 1) sub
      else Some 0
  end.

(** [lib/string/strstr.c: strstr] *)
Definition strstr (m : mem) (str sub : ptr) : option ptr :=
  strstr_loop (str_fuel m) m str sub.

(** [lib/string/strnstr.c: strnstr 10-20] *)
Fixpoint strnstr_loop (fuel : nat) (m : mem) (pos last sub : ptr) : option ptr :=
  if pos <=? last then
    match fuel with
    | O => None
    | S fuel =>
        b ← strstr_match (str_fuel m) m pos sub;
        if (b : bool) then Some pos else strnstr_loop fuel m (pos + 1) last sub
    end
  else Some 0.

(** [lib/string/strnstr.c: strnstr] *)
Definition strnstr (m : mem) (str sub : ptr) (len : Z) : option ptr :=
  sublen ← strlen m sub;
  strnstr_loop (S (Z.to_nat len)) m str (str + len - sublen) sub.

(** [lib/string/natcmp.c: isnumeric] *)
Definition isnumeric (c : Z) : bool := (48 <=? c) && (c <=? 57).

(** [lib/string/natcmp.c: numrun] *)
Fixpoint numrun_loop (fuel : nat) (m : mem) (q : ptr) : option ptr :=
  match fuel with
  | O => None
  | S fuel =>
      c ← ld8 m q;
      if negb (c =? 0) && isnumeric c then numrun_loop fuel m (q + 1) else Some q
  end.

(** [lib/string/natcmp.c: numrun] *)
Definition numrun (m : mem) (p : ptr) : option Z :=
  q ← numrun_loop (str_fuel m) m p; Some (q - p).

(** [lib/string/natcmp.c: natcmp 22-26] skipping the common prefix *)
Fixpoint natcmp_skip (fuel : nat) (m : mem) (pa pb : ptr) : option (ptr * ptr) :=
  match fuel with
  | O => None
  | S fuel =>
      x ← ld8 m pa;
      if negb (x =? 0) then
        y ← ld8 m pb;
        if negb (y =? 0) then
          if negb (x =? y) then Some (pa, pb)
          else natcmp_skip fuel m (pa + 1) (pb + 1)
        else Some (pa, pb)
      else Some (pa, pb)
  end.

(** [lib/string/natcmp.c: natcmp] *)
Definition natcmp (m : mem) (a b : ptr) : option Z :=
  '(pa, pb) ← natcmp_skip (str_fuel m) m a b;
  na ← numrun m pa;
  nb ← numrun m pb;
  if negb (na =? 0) && negb (nb =? 0) && negb (na =? nb) then Some (s32 (na - nb))
  else x ← ld8 m pa; y ← ld8 m pb; Some (x - y).

(** ** Block routines against their specification *)

Lemma mem_ok_lookup m p b : mem_ok m -> m !! p = Some b -> 0 <= b < 256.
Proof. intros H. apply H. Qed.

Lemma u8_byte b : 0 <= b < 256 -> u8 b = b.
Proof. intros. by apply uwrap_small. Qed.

Lemma mem_ok_insert m p b : mem_ok m -> 0 <= b < 256 -> mem_ok (<[p := b]> m).
Proof. intros. by apply map_Forall_insert_2. Qed.

Abbreviation is_bytes l := (Forall (fun b => 0 <= b < 256) l).

Lemma mem_ok_peek m p n l : mem_ok m -> peek m p n = Some l -> is_bytes l.
Proof.
  intros Hok [_ Hb]%peek_Some. apply Forall_lookup. intros i b Hi.
  eapply mem_ok_lookup; [done|]. by apply Hb.
Qed.

(** The ascending copy is right as long as no cell is overwritten before it is
    read: the destination starts below the source, or past its end. *)
Lemma memcpy_loop_spec n m d s l :
  is_bytes l -> peek m s n = Some l -> mapped m d (Z.of_nat n) ->
  d <= s \/ s + Z.of_nat n <= d ->
  memcpy_loop n m d s = Some (poke m d l).
Proof.
  revert m d s l. induction n as [|n IH]; intros m d s l Hok Hp Hm Hd; simpl in *.
  { by simplify_eq. }
  destruct (m !! s) as [b|] eqn:Hb; simplify_eq/=.
  destruct (peek m (s + 1) n) as [k|] eqn:Hk; simplify_eq/=.
  unfold ld8. rewrite Hb. simpl. apply Forall_cons in Hok as [? Hok].
  rewrite st8_mapped by (apply Hm; lia). simpl. rewrite u8_byte by done.
  apply IH.
  - done.
  - apply peek_Some in Hk as [<- Hk]. apply peek_Some. split; [done|].
    apply (bytes_at_poke_disjoint m d [b]); simpl; [lia|done].
  - apply mapped_insert. intros a ?. apply Hm. lia.
  - lia.
Qed.

(** The descending copy, from the last cells [d], [s] down: right when the
    destination is above the source. *)
Lemma memmove_loop_spec n m d s l :
  mem_ok m -> peek m (s - Z.of_nat n + 1) n = Some l ->
  mapped m (d - Z.of_nat n + 1) (Z.of_nat n) -> s <= d ->
  memmove_loop n m d s = Some (poke m (d - Z.of_nat n + 1) l).
Proof.
  revert m d s l. induction n as [|n IH]; intros m d s l Hok Hp Hm Hd.
  { simpl in *. by simplify_eq. }
  apply peek_Some in Hp as [Hl Hp].
  destruct (exists_last (l := l)) as (k & b & ->); [by destruct l|].
  rewrite length_app in Hl. simpl in Hl.
  apply bytes_at_app in Hp as [Hk Hb]. apply bytes_at_cons in Hb as [Hb _].
  replace (s - Z.of_nat (S n) + 1 + zlen k) with s in Hb by lia.
  simpl. unfold ld8. rewrite Hb. simpl. rewrite st8_mapped by (apply Hm; lia). simpl.
  pose proof (mem_ok_lookup _ _ _ Hok Hb). rewrite u8_byte by done.
  rewrite (IH _ _ _ k).
  - f_equal. replace (d - 1 - Z.of_nat n + 1) with (d - Z.of_nat (S n) + 1) by lia.
    rewrite <- poke_snoc_below. do 2 f_equal. lia.
  - by apply mem_ok_insert.
  - apply peek_Some. split; [lia|].
    replace (s - 1 - Z.of_nat n + 1) with (s - Z.of_nat (S n) + 1) by lia.
    apply (bytes_at_poke_disjoint m d [b]); [lia|done].
  - apply mapped_insert. intros a ?. apply Hm. lia.
  - lia.
Qed.

(** C34. [memmove] copies the [n] bytes that were at [src], whatever the overlap
    between the two ranges: the result is the memory with the original bytes
    stored at [dst], and every access is inside the two ranges. *)
Theorem memmove_snapshot m dst src n l :
  0 <= n -> mem_ok m -> peek m src (Z.to_nat n) = Some l -> mapped m dst n ->
  memmove m dst src n = Some (poke m dst l, dst).
Proof.
  intros Hn Hok Hp Hm. unfold memmove, memcpy.
  destruct (Z.ltb_spec dst src).
  { erewrite memcpy_loop_spec; [done|by eapply mem_ok_peek|done| |lia].
    by rewrite Z2Nat.id by lia. }
  destruct (Z.eqb_spec dst src) as [->|].
  { f_equal. f_equal. apply map_eq. intros a. apply peek_Some in Hp as [Hl Hp].
    rewrite lookup_poke. case_decide; [|done].
    destruct (zget_lt_is_Some l (a - src)) as [b Hb]; [lia|]. rewrite Hb.
    rewrite bytes_at_zget in Hp. specialize (Hp _ _ Hb).
    by replace (src + (a - src)) with a in Hp by lia. }
  replace (dst + n - 1) with (dst + n - 1) by lia.
  erewrite (memmove_loop_spec _ _ _ _ l); [|done| | |lia].
  - simpl. do 3 f_equal. lia.
  - rewrite Z2Nat.id by lia. by replace (src + n - 1 - n + 1) with src by lia.
  - rewrite Z2Nat.id by lia. by replace (dst + n - 1 - n + 1) with dst by lia.
Qed.

(** A concrete overlap: moving three bytes up by one inside "abcd". *)
Lemma memmove_snapshot_witness :
  let m := poke ∅ 16 [97; 98; 99; 100] in
  memmove m 17 16 3 = Some (poke m 17 [97; 98; 99], 17).
Proof.
  apply (memmove_snapshot _ 17 16 3 [97; 98; 99]).
  - lia.
  - decide_now.
  - reflexivity.
  - decide_now.
Defined.

Lemma memset_loop_spec fuel m p e c :
  Z.to_nat (e - p) = fuel -> mapped m p (e - p) ->
  memset_loop fuel m p e c = Some (poke m p (replicate fuel (u8 c))).
Proof.
  revert m p. induction fuel as [|fuel IH]; intros m p Hf Hm; simpl; zcases.
  { done. }
  rewrite st8_mapped by (apply Hm; lia). simpl. apply IH; [lia|].
  apply mapped_insert. intros a ?. apply Hm. lia.
Qed.

Lemma memset_spec m a c n :
  0 <= n -> mapped m a n ->
  memset m a c n = Some (poke m a (replicate (Z.to_nat n) (u8 c)), a).
Proof.
  intros. unfold memset. rewrite memset_loop_spec; [done|lia|].
  by replace (a + n - a) with n by lia.
Qed.

Lemma memcmp_loop_spec n m a b l k :
  peek m a n = Some l -> peek m b n = Some k ->
  exists d, memcmp_loop n m a b = Some d /\ (d = 0 <-> l = k).
Proof.
  revert a b l k. induction n as [|n IH]; intros a b l k; simpl.
  { intros [= <-] [= <-]. by exists 0. }
  intros (x & Hx & (l' & Hl & [= <-])%bind_Some_inv)%bind_Some_inv.
  intros (y & Hy & (k' & Hk & [= <-])%bind_Some_inv)%bind_Some_inv.
  unfold ld8. rewrite Hx, Hy. simpl.
  destruct (Z.eqb_spec (x - y) 0); simpl.
  - destruct (IH _ _ _ _ Hl Hk) as (d & Hd & Hiff). exists d. split; [done|].
    rewrite Hiff. split; [|congruence]. intros ->. f_equal. lia.
  - eexists. split; [done|]. split; [done|]. intros [= -> _]. lia.
Qed.

Lemma memxcmp_loop_spec n m a b l k ret :
  peek m a n = Some l -> peek m b n = Some k ->
  exists d, memxcmp_loop n m a b ret = Some d /\ (d = 0 <-> ret = 0 /\ l = k).
Proof.
  revert a b l k ret. induction n as [|n IH]; intros a b l k ret; simpl.
  { intros [= <-] [= <-]. exists ret. split; [done|]. tauto. }
  intros (x & Hx & (l' & Hl & [= <-])%bind_Some_inv)%bind_Some_inv.
  intros (y & Hy & (k' & Hk & [= <-])%bind_Some_inv)%bind_Some_inv.
  unfold ld8. rewrite Hx, Hy. simpl.
  destruct (IH _ _ _ _ (Z.lor ret (x - y)) Hl Hk) as (d & Hd & Hiff).
  exists d. split; [done|]. rewrite Hiff, Z.lor_eq_0_iff. split.
  - intros [[-> ?] ->]. split; [done|]. f_equal. lia.
  - intros [-> [= -> ->]]. split; [|done]. split; [done|]. lia.
Qed.

(** [memcmp] and its constant-time variant [memxcmp] agree on equality, on
    any two readable ranges: both return, and the result is zero exactly when
    the ranges hold the same bytes. *)
Theorem memcmp_memxcmp_equal m a b n l k :
  peek m a (Z.to_nat n) = Some l -> peek m b (Z.to_nat n) = Some k ->
  exists d x, memcmp m a b n = Some d /\ memxcmp m a b n = Some x /\
    (d = 0 <-> l = k) /\ (x = 0 <-> l = k).
Proof.
  intros Hl Hk. unfold memcmp, memxcmp.
  destruct (memcmp_loop_spec _ _ _ _ _ _ Hl Hk) as (d & Hd & Hdi).
  destruct (memxcmp_loop_spec _ _ _ _ _ _ 0 Hl Hk) as (x & Hx & Hxi).
  exists d, x. rewrite Hxi. tauto.
Qed.

Lemma memcmp_memxcmp_equal_witness :
  let m := poke (poke ∅ 16 [7; 8; 9]) 32 [7; 8; 10] in
  exists d x, memcmp m 16 32 3 = Some d /\ memxcmp m 16 32 3 = Some x /\
    (d = 0 <-> [7; 8; 9] = [7; 8; 10]) /\ (x = 0 <-> [7; 8; 9] = [7; 8; 10]).
Proof. apply memcmp_memxcmp_equal; reflexivity. Defined.

(** ** Strings against their specification *)

(** One step along a string whose characters are known: expose the byte read
    at the current position. *)
Ltac cstr_step H :=
  match type of H with
  | cstr_at _ _ [] => apply cstr_at_nil in H; unfold ld8; rewrite H; simpl
  | cstr_at _ _ (_ :: _) =>
      let Hr := fresh "Hr" in
      apply cstr_at_cons in H as (Hr & ? & H); unfold ld8; rewrite Hr; simpl
  end.

Lemma strlen_loop_spec fuel m p s len :
  cstr_at m p s -> (length s < fuel)%nat ->
  strlen_loop fuel m p len = Some (len + zlen s).
Proof.
  revert m p s len. induction fuel as [|fuel IH]; intros m p [|c s] len H Hf;
    simpl in *; try lia.
  - cstr_step H. f_equal. lia.
  - cstr_step H. destruct (Z.eqb_spec c 0); [lia|]. simpl.
    rewrite (IH m _ s) by (done || lia). f_equal. lia.
Qed.

Lemma strlen_spec m p s : cstr_at m p s -> strlen m p = Some (zlen s).
Proof.
  intros H. unfold strlen. rewrite (strlen_loop_spec _ _ _ s); [f_equal; lia|done|].
  apply cstr_at_size in H. unfold str_fuel. lia.
Qed.

Lemma strnlen_loop_spec fuel m p e s len :
  cstr_at m p s -> Z.to_nat (e - p) = fuel -> p <= e ->
  strnlen_loop fuel m p e len = Some (len + Z.min (zlen s) (e - p)).
Proof.
  revert m p s len. induction fuel as [|fuel IH]; intros m p s len H Hf He;
    simpl; zcases.
  { f_equal. lia. }
  destruct s as [|c s]; cstr_step H.
  - f_equal. lia.
  - destruct (Z.eqb_spec c 0); [lia|]. simpl.
    rewrite (IH m _ s) by (done || lia). f_equal. lia.
Qed.

Lemma strnlen_spec m p s max :
  p <> 0 -> 0 <= max -> cstr_at m p s ->
  strnlen m p max = Some (Z.min (zlen s) max).
Proof.
  intros Hp Hm H. unfold strnlen. destruct (Z.eqb_spec p 0); [done|].
  rewrite (strnlen_loop_spec _ _ _ _ s) by (done || lia). f_equal. lia.
Qed.

Lemma strpend_loop_spec fuel m p e s :
  cstr_at m p s -> Z.to_nat (e - p) = fuel -> p <= e ->
  strpend_loop fuel m p e =
  Some (if bool_decide (zlen s < e - p) then p + zlen s else 0).
Proof.
  revert m p s. induction fuel as [|fuel IH]; intros m p s H Hf He; simpl; zcases.
  { rewrite bool_decide_false by lia. done. }
  destruct s as [|c s]; cstr_step H.
  - rewrite bool_decide_true by lia. f_equal. lia.
  - destruct (Z.eqb_spec c 0); [lia|]. rewrite (IH m _ s) by (done || lia).
    f_equal. repeat case_bool_decide; lia.
Qed.

(** The order that [strcmp] computes, on the strings themselves. *)
Fixpoint lexdiff (s t : list Z) : Z :=
  match s, t with
  | [], [] => 0
  | [], y :: _ => - y
  | x :: _, [] => x
  | x :: s, y :: t => if x =? y then lexdiff s t else x - y
  end.

Lemma strcmp_loop_spec fuel m a b s t :
  cstr_at m a s -> cstr_at m b t -> (length s < fuel)%nat ->
  strcmp_loop fuel m a b = Some (lexdiff s t).
Proof.
  revert a b s t. induction fuel as [|fuel IH]; intros a b s t Hs Ht Hf; [lia|].
  simpl. destruct s as [|x s]; cstr_step Hs.
  - destruct t as [|y t]; cstr_step Ht; f_equal; lia.
  - destruct (Z.eqb_spec x 0); [lia|]. simpl. simpl in Hf.
    destruct t as [|y t]; cstr_step Ht.
    + destruct (Z.eqb_spec x 0); [lia|]. f_equal. lia.
    + destruct (Z.eqb_spec x y); [|done]. apply IH; [done|done|lia].
Qed.

Lemma strcmp_spec m a b s t :
  a <> 0 -> b <> 0 -> cstr_at m a s -> cstr_at m b t ->
  strcmp m a b = Some (lexdiff s t).
Proof.
  intros Ha Hb Hs Ht. unfold strcmp.
  destruct (Z.eqb_spec a 0); [done|]. destruct (Z.eqb_spec b 0); [done|].
  cbn [andb]. apply strcmp_loop_spec; [done|done|]. apply cstr_at_size in Hs. unfold str_fuel. lia.
Qed.

Abbreviation is_str s := (Forall (fun c => 0 < c < 256) s).

Lemma lexdiff_antisym s t : lexdiff t s = - lexdiff s t.
Proof.
  revert t. induction s as [|x s IH]; intros [|y t]; simpl; try lia.
  rewrite (Z.eqb_sym y x). destruct (Z.eqb_spec x y); [apply IH|lia].
Qed.

Lemma lexdiff_zero s t : is_str s -> is_str t -> lexdiff s t = 0 <-> s = t.
Proof.
  intros Hs. revert t. induction Hs as [|x s ? Hs IH]; intros t Ht;
    destruct Ht as [|y t]; simpl; try (split; [lia|done]); [done|].
  destruct (Z.eqb_spec x y) as [->|].
  - rewrite IH by done. split; congruence.
  - split; [lia|congruence].
Qed.

Lemma lexdiff_trans s t u :
  is_str s -> is_str t -> is_str u ->
  lexdiff s t <= 0 -> lexdiff t u <= 0 -> lexdiff s u <= 0.
Proof.
  intros Hs. revert t u. induction Hs as [|x s ? Hs IH]; intros t u Ht Hu;
    destruct Ht as [|y t ? Ht], Hu as [|z u ? Hu]; simpl; try lia.
  destruct (Z.eqb_spec x y), (Z.eqb_spec y z), (Z.eqb_spec x z); subst; try lia.
  by apply IH.
Qed.

(** C36. [strcmp] is a total order on the NUL-terminated strings of the memory:
    it returns on any two of them, is zero exactly on equal strings, negates
    when its arguments are swapped, and is transitive. *)
Theorem strcmp_total_order m a b c s t u :
  a <> 0 -> b <> 0 -> c <> 0 ->
  cstr_at m a s -> cstr_at m b t -> cstr_at m c u ->
  exists ab ba bc ac,
    strcmp m a b = Some ab /\ strcmp m b a = Some ba /\
    strcmp m b c = Some bc /\ strcmp m a c = Some ac /\
    (ab = 0 <-> s = t) /\ ba = - ab /\ (ab <= 0 -> bc <= 0 -> ac <= 0).
Proof.
  intros Ha Hb Hc Hs Ht Hu. do 4 eexists.
  rewrite (strcmp_spec m a b s t), (strcmp_spec m b a t s),
    (strcmp_spec m b c t u), (strcmp_spec m a c s u) by done.
  do 4 (split; [reflexivity|]). destruct Hs as [_ Hs], Ht as [_ Ht], Hu as [_ Hu].
  split; [by apply lexdiff_zero|]. split; [apply lexdiff_antisym|].
  by apply lexdiff_trans.
Qed.

Lemma strcmp_total_order_witness :
  let m := poke (poke (poke ∅ 16 [97; 98; 0]) 32 [97; 0]) 48 [97; 98; 0] in
  exists ab ba bc ac,
    strcmp m 16 32 = Some ab /\ strcmp m 32 16 = Some ba /\
    strcmp m 32 48 = Some bc /\ strcmp m 16 48 = Some ac /\
    (ab = 0 <-> [97; 98] = [97]) /\ ba = - ab /\ (ab <= 0 -> bc <= 0 -> ac <= 0).
Proof.
  apply (strcmp_total_order _ 16 32 48 [97; 98] [97] [97; 98]);
    [lia|lia|lia|decide_now|decide_now|decide_now].
Defined.

Lemma strstr_match_spec fuel m r q s t :
  cstr_at m r s -> cstr_at m q t -> (length t < fuel)%nat ->
  strstr_match fuel m r q = Some (bool_decide (t `prefix_of` s)).
Proof.
  revert r q s t. induction fuel as [|fuel IH]; intros r q s t Hs Ht Hf; [lia|].
  cbn [strstr_match]. destruct t as [|y t].
  { apply cstr_at_nil in Ht. unfold ld8. rewrite Ht.
    by rewrite bool_decide_true by apply prefix_nil. }
  apply cstr_at_cons in Ht as (Hr & ? & Ht). unfold ld8. rewrite Hr.
  cbn [mbind option_bind length] in *.
  destruct (Z.eqb_spec y 0); [lia|]. cbn [negb].
  destruct s as [|x s].
  - apply cstr_at_nil in Hs. rewrite Hs. cbn [mbind option_bind].
    destruct (Z.eqb_spec y 0); [lia|].
    by rewrite bool_decide_false by apply prefix_nil_not.
  - apply cstr_at_cons in Hs as (Hrx & ? & Hs). rewrite Hrx. cbn [mbind option_bind].
    destruct (Z.eqb_spec y x) as [->|].
    + rewrite (IH _ _ s t) by (done || lia). f_equal.
      apply bool_decide_ext. split; [apply prefix_cons|apply prefix_cons_inv_2].
    + rewrite bool_decide_false; [done|]. intros ?%prefix_cons_inv_1. done.
Qed.

(** The least index below [n] at which [t] starts in [s], if there is one. *)
Definition first_at (t s : list Z) (n : nat) (r : option nat) : Prop :=
  match r with
  | Some i => (i < n)%nat /\ t `prefix_of` drop i s /\
              forall j, (j < i)%nat -> ~ t `prefix_of` drop j s
  | None => forall j, (j < n)%nat -> ~ t `prefix_of` drop j s
  end.

Lemma first_at_cons_skip t c s n r :
  ~ t `prefix_of` (c :: s) ->
  first_at t s n r -> first_at t (c :: s) (S n) (S <$> r).
Proof.
  intros Hn. destruct r as [i|]; simpl.
  - intros (? & ? & Hlt). split; [lia|]. split; [done|]. intros [|j] ?; [done|].
    apply Hlt. lia.
  - intros H [|j] ?; [done|]. apply H. lia.
Qed.

Lemma strstr_loop_spec fuel m p q s t :
  cstr_at m p s -> cstr_at m q t -> (length s < fuel)%nat ->
  exists r, first_at t s (length s) r /\
    strstr_loop fuel m p q = Some (from_option (fun i => p + Z.of_nat i) 0 r).
Proof.
  revert p s. induction fuel as [|fuel IH]; intros p s Hs Ht Hf; [lia|].
  destruct s as [|c s].
  { exists None. cbn [strstr_loop]. cstr_step Hs. split; [|done]. simpl. lia. }
  pose proof Hs as Hcs. cbn [strstr_loop]. apply cstr_at_cons in Hs as (Hr & ? & Hs).
  unfold ld8. rewrite Hr. cbn [mbind option_bind].
  destruct (Z.eqb_spec c 0); [lia|]. cbn [negb].
  rewrite (strstr_match_spec _ _ _ _ (c :: s) t); [|done|done|
    apply cstr_at_size in Ht; unfold str_fuel; lia].
  simpl. case_bool_decide as Hb.
  - exists (Some 0%nat). simpl. split; [|f_equal; lia]. split; [lia|].
    split; [done|]. lia.
  - destruct (IH _ _ Hs Ht) as (r & Hr' & ->); [simpl in Hf; lia|].
    exists (S <$> r). split; [by apply first_at_cons_skip|].
    destruct r; simpl; f_equal; lia.
Qed.

(** C35. [strstr] finds the first occurrence: it returns the address of the
    least position of [str] (before the terminator) where [sub] matches, and
    [NULL] exactly when there is none. *)
Theorem strstr_first m p q s t :
  cstr_at m p s -> cstr_at m q t ->
  exists r, first_at t s (length s) r /\
    strstr m p q = Some (from_option (fun i => p + Z.of_nat i) 0 r).
Proof.
  intros Hs Ht. apply (strstr_loop_spec (str_fuel m)); [done|done|].
  apply cstr_at_size in Hs. unfold str_fuel. lia.
Qed.

(** "ell" in "hello". *)
Lemma strstr_first_witness :
  let m := poke (poke ∅ 16 [104; 101; 108; 108; 111; 0]) 32 [101; 108; 0] in
  exists r, first_at [101; 108] [104; 101; 108; 108; 111] 5 r /\
    strstr m 16 32 = Some (from_option (fun i => 16 + Z.of_nat i) 0 r).
Proof.
  apply (strstr_first _ 16 32 [104; 101; 108; 108; 111] [101; 108]);
    [decide_now|decide_now].
Defined.

(** ** Natural comparison *)

(** Length of the leading run of digits. *)
Fixpoint digit_run (s : list Z) : Z :=
  match s with
  | c :: s => if isnumeric c then 1 + digit_run s else 0
  | [] => 0
  end.

(** What [natcmp] computes, on the strings. *)
Fixpoint natdiff (s t : list Z) : Z :=
  match s, t with
  | x :: s', y :: t' =>
      if x =? y then natdiff s' t'
      else
        let na := digit_run s in
        let nb := digit_run t in
        if negb (na =? 0) && negb (nb =? 0) && negb (na =? nb) then s32 (na - nb)
        else x - y
  | [], y :: _ => - y
  | x :: _, [] => x
  | [], [] => 0
  end.

Lemma numrun_loop_spec fuel m q s :
  cstr_at m q s -> (length s < fuel)%nat ->
  numrun_loop fuel m q = Some (q + digit_run s).
Proof.
  revert q s. induction fuel as [|fuel IH]; intros q s Hs Hf; [lia|].
  simpl. destruct s as [|c s]; cstr_step Hs.
  - f_equal. lia.
  - destruct (Z.eqb_spec c 0); [lia|]. simpl. destruct (isnumeric c).
    + rewrite (IH _ s); [f_equal; lia|done|simpl in Hf; lia].
    + f_equal. lia.
Qed.

Lemma numrun_spec m q s : cstr_at m q s -> numrun m q = Some (digit_run s).
Proof.
  intros Hs. unfold numrun. rewrite (numrun_loop_spec _ _ _ s); [|done|].
  - simpl. f_equal. lia.
  - apply cstr_at_size in Hs. unfold str_fuel. lia.
Qed.

(** [natcmp] from the point where the prefixes diverge. *)
Definition natcmp_tail (m : mem) (pa pb : ptr) : option Z :=
  na ← numrun m pa;
  nb ← numrun m pb;
  if negb (na =? 0) && negb (nb =? 0) && negb (na =? nb) then Some (s32 (na - nb))
  else x ← ld8 m pa; y ← ld8 m pb; Some (x - y).

Lemma natcmp_skip_spec fuel m a b s t :
  cstr_at m a s -> cstr_at m b t -> (length s < fuel)%nat ->
  exists pa pb, natcmp_skip fuel m a b = Some (pa, pb) /\
    natcmp_tail m pa pb = Some (natdiff s t).
Proof.
  revert a b s t. induction fuel as [|fuel IH]; intros a b s t Hs Ht Hf; [lia|].
  assert (natcmp_tail m a b =
    let na := digit_run s in let nb := digit_run t in
    if negb (na =? 0) && negb (nb =? 0) && negb (na =? nb) then Some (s32 (na - nb))
    else x ← ld8 m a; y ← ld8 m b; Some (x - y)) as Htail.
  { unfold natcmp_tail. by rewrite (numrun_spec m a s), (numrun_spec m b t). }
  simpl natcmp_skip. destruct s as [|x s]; cstr_step Hs.
  { exists a, b. split; [done|]. rewrite Htail. simpl. unfold ld8. rewrite Hs. simpl.
    destruct t as [|y t]; cstr_step Ht; done. }
  destruct (Z.eqb_spec x 0); [lia|]. cbn [negb].
  destruct t as [|y t]; cstr_step Ht.
  { exists a, b. split; [done|]. rewrite Htail. cbv zeta.
    replace (negb (digit_run [] =? 0)) with false by done.
    rewrite andb_false_r. unfold ld8. rewrite Hr, Ht. simpl. f_equal. lia. }
  destruct (Z.eqb_spec y 0); [lia|]. cbn [negb].
  destruct (Z.eqb_spec x y) as [->|]; cbn [negb].
  - apply IH; [done|done|simpl in Hf; lia].
  - exists a, b. split; [done|]. rewrite Htail. cbv zeta.
    unfold ld8. rewrite Hr, Hr0. simpl.
    destruct (Z.eqb_spec x y); [done|]. by case_match.
Qed.

Lemma natcmp_spec m a b s t :
  cstr_at m a s -> cstr_at m b t -> natcmp m a b = Some (natdiff s t).
Proof.
  intros Hs Ht. pose proof (cstr_at_size _ _ _ Hs).
  destruct (natcmp_skip_spec (str_fuel m) m a b s t) as (pa & pb & Hsk & Htl);
    [done|done|unfold str_fuel; lia|].
  unfold natcmp. rewrite Hsk. exact Htl.
Qed.

Lemma digit_run_bounds s : 0 <= digit_run s <= zlen s.
Proof. induction s as [|c s IH]; simpl; [lia|]. case_match; lia. Qed.

Lemma natdiff_antisym s t :
  zlen s < 2 ^ 31 -> zlen t < 2 ^ 31 -> natdiff t s = - natdiff s t.
Proof.
  revert t. induction s as [|x s IH]; intros [|y t] Hs Ht; cbn [natdiff length] in *;
    try lia.
  rewrite (Z.eqb_sym y x). destruct (Z.eqb_spec x y); [apply IH; lia|].
  pose proof (digit_run_bounds (x :: s)). pose proof (digit_run_bounds (y :: t)).
  cbn [length] in *. rewrite (Z.eqb_sym (digit_run (y :: t)) (digit_run (x :: s))).
  rewrite (andb_comm (negb (digit_run (y :: t) =? 0))).
  change (2 ^ 31) with 2147483648 in *.
  case_match; [|lia]. rewrite !s32_small by lia. lia.
Qed.

Lemma natdiff_zero s t :
  zlen s < 2 ^ 31 -> zlen t < 2 ^ 31 -> is_str s -> is_str t ->
  natdiff s t = 0 <-> s = t.
Proof.
  intros Hs Ht Hss. revert t Ht. induction Hss as [|x s ? Hss IH];
    intros t Ht Hst; destruct Hst as [|y t]; cbn [natdiff length] in *;
    try (split; [lia|done]); [done|].
  destruct (Z.eqb_spec x y) as [->|].
  - rewrite IH by (done || lia). split; congruence.
  - pose proof (digit_run_bounds (x :: s)). pose proof (digit_run_bounds (y :: t)).
    cbn [length] in *. split; [|congruence]. intros Hz. exfalso.
    destruct (Z.eqb_spec (digit_run (x :: s)) (digit_run (y :: t))).
    + rewrite andb_false_r in Hz. lia.
    + set (na := digit_run (x :: s)) in *. set (nb := digit_run (y :: t)) in *.
      change (2 ^ 31) with 2147483648 in *.
      destruct (negb (na =? 0) && negb (nb =? 0)); cbn [andb negb] in Hz; [|lia].
      rewrite s32_small in Hz by lia. lia.
Qed.

(** [natcmp] is antisymmetric and zero exactly on equal strings (of length
    below [2^31], where the run lengths fit the returned [int]). *)
Theorem natcmp_antisym m a b s t :
  cstr_at m a s -> cstr_at m b t -> zlen s < 2 ^ 31 -> zlen t < 2 ^ 31 ->
  exists ab ba, natcmp m a b = Some ab /\ natcmp m b a = Some ba /\
    ba = - ab /\ (ab = 0 <-> s = t).
Proof.
  intros Hs Ht Hls Hlt. do 2 eexists.
  rewrite (natcmp_spec m a b s t), (natcmp_spec m b a t s) by done.
  do 2 (split; [reflexivity|]). split; [by apply natdiff_antisym|].
  destruct Hs as [_ Hs], Ht as [_ Ht]. by apply natdiff_zero.
Qed.

Lemma natcmp_antisym_witness :
  let m := poke (poke ∅ 16 [97; 49; 48; 0]) 32 [97; 50; 0] in
  exists ab ba, natcmp m 16 32 = Some ab /\ natcmp m 32 16 = Some ba /\
    ba = - ab /\ (ab = 0 <-> [97; 49; 48] = [97; 50]).
Proof.
  apply (natcmp_antisym _ 16 32 [97; 49; 48] [97; 50]);
    [decide_now|decide_now|reflexivity|reflexivity].
Defined.

(** [natcmp] is not an order: on the three strings "2", "10" and "1a" it
    puts each one strictly before the next, cyclically, so a sort that uses it
    has no correct output for such names. *)
Theorem natcmp_cycle :
  let m := poke (poke (poke ∅ 16 [50; 0]) 32 [49; 48; 0]) 48 [49; 97; 0] in
  exists d1 d2 d3,
    natcmp m 16 32 = Some d1 /\ natcmp m 32 48 = Some d2 /\ natcmp m 48 16 = Some d3 /\
    d1 < 0 /\ d2 < 0 /\ d3 < 0.
Proof. exists (-1), (-49), (-1). repeat split. Qed.
