(* ===== verification/Fmt.v ===== *)
(** * lib/format, output side: formatting into a bounded buffer

    Every [fmt*] function takes the write position [p] and the end [e] of a
    buffer and returns the new position.  The contract the callers rely on is
    stated once, as the class [Emits]: the function stores a given text,
    truncated to the room left, and returns the position after it.  Functions
    that break the contract at the end of the buffer are specified for the case
    where the text fits, and their overruns are stated as theorems.

    64-bit target (BITS == 64): [fmtint], [fmtlong] and their unsigned variants
    are the 64-bit formatter. *)
From S2P Require Import Prelude Mem Str.

Abbreviation formatter := (mem -> ptr -> ptr -> option (mem * ptr)) (only parsing).

(** ** The functions *)

(** [lib/format/fmtchar.c: fmtchar] *)
Definition fmtchar (m : mem) (p e : ptr) (c : Z) : option (mem * ptr) :=
  if p <? e then m ← st8 m p c; Some (m, p + 1) else Some (m, p).

(** [lib/format/fmtx64.c: digits 6] of the hexadecimal formatters *)
Definition hexdigits : list Z :=
  [48; 49; 50; 51; 52; 53; 54; 55; 56; 57; 65; 66; 67; 68; 69; 70].

(** [lib/format/fmtbyte.c: fmtbyte] *)
Definition fmtbyte (m : mem) (p e : ptr) (c : Z) : option (mem * ptr) :=
  hi ← zget hexdigits (Z.land (Z.shiftr c 4) 15);
  lo ← zget hexdigits (Z.land (Z.shiftr c 0) 15);
  '(m, p) ← (if p <? e then m ← st8 m p hi; Some (m, p + 1) else Some (m, p));
  if p <? e then m ← st8 m p lo; Some (m, p + 1) else Some (m, p).

(** [lib/format/fmtbytes.c: fmtbytes 9-10] *)
Fixpoint fmtbytes_loop (fuel : nat) (m : mem) (p e : ptr) (val fin : ptr)
    : option (mem * ptr) :=
  if val <? fin then
    match fuel with
    | O => None
    | S fuel =>
        c ← ld8 m val;
        '(m, p) ← fmtbyte m p e c;
        fmtbytes_loop fuel m p e (val + 1) fin
    end
  else Some (m, p).

(** [lib/format/fmtbytes.c: fmtbytes] *)
Definition fmtbytes (m : mem) (p e : ptr) (data : ptr) (len : Z) : option (mem * ptr) :=
  fmtbytes_loop (Z.to_nat len) m p e data (data + len).

(** [lib/format/fmtraw.c: fmtraw] *)
Definition fmtraw (m : mem) (p e : ptr) (data : ptr) (len : Z) : option (mem * ptr) :=
  let len := if e - p <? len then s32 (e - p) else len in
  if len <=? 0 then Some (m, p)
  else '(m, _) ← memcpy m p data len; Some (m, p + len).

(** [lib/format/fmtstr.c: fmtstr] *)
Definition fmtstr (m : mem) (p e : ptr) (str : ptr) : option (mem * ptr) :=
  if e <=? p then Some (m, p)
  else
    let n := e - p in
    len ← strnlen m str n;
    fmtraw m p e str (s32 len).

(** [lib/format/fmtstre.c: fmtstre] *)
Definition fmtstre (m : mem) (p e : ptr) (str fin : ptr) : option (mem * ptr) :=
  fmtraw m p e str (s32 (strelen str fin)).

(** [lib/format/fmtstrn.c: fmtstrn] *)
Definition fmtstrn (m : mem) (p e : ptr) (src : ptr) (len : Z) : option (mem * ptr) :=
  n ← strnlen m src len;
  fmtraw m p e src (s32 n).

(** [lib/format/fmtint64.c: fmtint64 11-12] the number of decimal digits *)
Fixpoint dec_len (fuel : nat) (n : Z) (len : Z) : option Z :=
  if 10 <=? n then
    match fuel with
    | O => None
    | S fuel => dec_len fuel (n / 10) (len + 1)
    end
  else Some len.

(** Fuel for the digit counts: a 64-bit number has at most 20 decimal and 16
    hexadecimal digits. *)
Definition len_fuel : nat := 64.

(** [lib/format/fmtint64.c: fmtint64 18-20] writing digits backwards from [p] *)
Fixpoint dec_put (len : nat) (m : mem) (p fin : ptr) (num : Z) : option (mem * ptr) :=
  match len with
  | O => Some (m, p)
  | S len =>
      m ← (if p <? fin then st8 m p (48 + num mod 10) else Some m);
      dec_put len m (p - 1) fin (num / 10)
  end.

(** [lib/format/fmtint64.c: fmtint64] *)
Definition fmtint64 (m : mem) (buf fin : ptr) (minus : bool) (num : Z)
    : option (mem * ptr) :=
  len ← dec_len len_fuel num 1;
  let e := buf + len + Z.b2z minus in
  '(m, p) ← dec_put (Z.to_nat len) m (e - 1) fin num;
  m ← (if minus then st8 m p 45 else Some m);
  Some (m, if fin <? e then fin else e).

(** [lib/format/fmtint64.c: fmti64] *)
Definition fmti64 (m : mem) (buf fin : ptr) (num : Z) : option (mem * ptr) :=
  fmtint64 m buf fin (num <? 0) (u64 (if num <? 0 then s64 (- num) else num)).

(** [lib/format/fmtint64.c: fmtu64] *)
Definition fmtu64 (m : mem) (buf fin : ptr) (num : Z) : option (mem * ptr) :=
  fmtint64 m buf fin false num.

(** [lib/format/fmtint64.c: fmti32] *)
Definition fmti32 (m : mem) (buf fin : ptr) (num : Z) : option (mem * ptr) :=
  fmtint64 m buf fin (num <? 0) (u64 (if num <? 0 then s32 (- num) else num)).

(** [lib/format/fmtint64.c: fmtu32] *)
Definition fmtu32 (m : mem) (buf fin : ptr) (num : Z) : option (mem * ptr) :=
  fmtint64 m buf fin false num.

(** [lib/format/fmtint64.c: fmtlong 48-49] the [alias] declarations *)
Definition fmtlong := fmti64.
(** [lib/format/fmtint64.c: fmtulong 50-51] *)
Definition fmtulong := fmtu64.
(** [lib/format/fmtint64.c: fmtint 53-54] *)
Definition fmtint := fmti32.
(** [lib/format/fmtint64.c: fmtuint 55-56] *)
Definition fmtuint := fmtu32.

(** [lib/format/fmtulp.c: fmtulp] zero-padded unsigned decimal *)
Definition fmtulp (m : mem) (buf fin : ptr) (num pad : Z) : option (mem * ptr) :=
  len ← dec_len len_fuel num 1;
  let len := if len <? pad then pad else len in
  let e := buf + len in
  '(m, _) ← dec_put (Z.to_nat len) m (e - 1) fin num;
  Some (m, e).

(** [lib/format/fmtx64.c: fmtx64 11-12] *)
Fixpoint hex_len (fuel : nat) (n : Z) (len : Z) : option Z :=
  if 16 <=? n then
    match fuel with
    | O => None
    | S fuel => hex_len fuel (Z.shiftr n 4) (len + 1)
    end
  else Some len.

(** [lib/format/fmtx64.c: fmtx64 18-24] *)
Fixpoint hex_put (len : nat) (m : mem) (buf p fin : ptr) (num : Z)
    : option (mem * ptr) :=
  match len with
  | O => Some (m, p)
  | S len =>
      m ← (if p <? fin then
             c ← zget hexdigits (Z.land num 15); st8 m p c
           else Some m);
      let p := if buf <=? p then p - 1 else p in
      hex_put len m buf p fin (Z.shiftr num 4)
  end.

(** [lib/format/fmtx64.c: fmtx64] *)
Definition fmtx64 (m : mem) (buf fin : ptr) (num : Z) : option (mem * ptr) :=
  len ← hex_len len_fuel num 1;
  let e := buf + len in
  '(m, _) ← hex_put (Z.to_nat len) m buf (e - 1) fin num;
  Some (m, if e <? fin then e else fin).

(** [lib/format/fmtx64.c: fmtxint] *)
Definition fmtxint (m : mem) (buf fin : ptr) (num : Z) : option (mem * ptr) :=
  fmtx64 m buf fin num.

(** [lib/format/fmtx32.c: fmtx32] *)
Definition fmtx32 (m : mem) (buf fin : ptr) (num : Z) : option (mem * ptr) :=
  len ← hex_len len_fuel num 1;
  let e := buf + len in
  '(m, _) ← hex_put (Z.to_nat len) m buf (e - 1) fin num;
  Some (m, if e <? fin then e else fin).

(** [lib/format/fmthex.c: fmthex 17-19] *)
Fixpoint fmthex_put (len : nat) (m : mem) (p fin : ptr) (num : Z)
    : option (mem * ptr) :=
  match len with
  | O => Some (m, p)
  | S len =>
      m ← (if p <? fin then
             c ← zget hexdigits (Z.land num 15); st8 m p c
           else Some m);
      fmthex_put len m (p - 1) fin (Z.shiftr num 4)
  end.

(** [lib/format/fmthex.c: fmthex] *)
Definition fmthex (m : mem) (buf fin : ptr) (num : Z) : option (mem * ptr) :=
  len ← hex_len len_fuel num 1;
  let e := buf + len in
  '(m, _) ← fmthex_put (Z.to_nat len) m (e - 1) fin num;
  Some (m, e).

(** [lib/format/fmtip.c: fmtip] *)
Definition fmtip (m : mem) (p e : ptr) (ip : ptr) : option (mem * ptr) :=
  b ← ld8 m ip; '(m, p) ← fmtint m p e b;
  '(m, p) ← fmtchar m p e 46;
  b ← ld8 m (ip + 1); '(m, p) ← fmtint m p e b;
  '(m, p) ← fmtchar m p e 46;
  b ← ld8 m (ip + 2); '(m, p) ← fmtint m p e b;
  '(m, p) ← fmtchar m p e 46;
  b ← ld8 m (ip + 3); fmtint m p e b.

(** [lib/format/fmtmac.c: fmtmac 9-12] *)
Fixpoint fmtmac_loop (fuel : nat) (m : mem) (p e : ptr) (mac : ptr) (i : Z)
    : option (mem * ptr) :=
  if i <? 6 then
    match fuel with
    | O => None
    | S fuel =>
        '(m, p) ← fmtchar m p e 58;
        c ← ld8 m (mac + i);
        '(m, p) ← fmtbyte m p e c;
        fmtmac_loop fuel m p e mac (i + 1)
    end
  else Some (m, p).

(** [lib/format/fmtmac.c: fmtmac] *)
Definition fmtmac (m : mem) (p e : ptr) (mac : ptr) : option (mem * ptr) :=
  c ← ld8 m mac;
  '(m, p) ← fmtbyte m p e c;
  fmtmac_loop 5 m p e mac 1.

(** [lib/format/fmtpad.c: fmtpad 15-17] shifting the text up *)
Fixpoint pad_shift (fuel : nat) (m : mem) (z lo e : ptr) (shift : Z)
    : option (mem * ptr) :=
  if lo <=? z then
    match fuel with
    | O => None
    | S fuel =>
        m ← (if z <? e then c ← ld8 m (z - shift); st8 m z c else Some m);
        pad_shift fuel m (z - 1) lo e shift
    end
  else Some (m, z).

(** [lib/format/fmtpad.c: fmtpad 18-19] filling the gap *)
Fixpoint pad_fill (fuel : nat) (m : mem) (z p : ptr) (c : Z) : option mem :=
  if p <=? z then
    match fuel with
    | O => None
    | S fuel => m ← st8 m z c; pad_fill fuel m (z - 1) p c
    end
  else Some m.

(** [lib/format/fmtpad.c: fmtpad] *)
Definition fmtpad (m : mem) (p e : ptr) (width : Z) (q : ptr) : option (mem * ptr) :=
  if (q <? p) || (e <? q) then Some (m, q)
  else
    let qplen := q - p in
    let shift := width - qplen in
    if shift <? 0 then Some (m, q)
    else
      '(m, z) ← pad_shift (Z.to_nat qplen) m (q + shift - 1) (p + shift) e shift;
      m ← pad_fill (Z.to_nat shift) m z p 32;
      Some (m, q + shift).

(** [lib/format/fmtpad0.c: fmtpad0] *)
Definition fmtpad0 (m : mem) (p e : ptr) (width : Z) (q : ptr) : option (mem * ptr) :=
  let qplen := q - p in
  let shift := width - qplen in
  if shift <=? 0 then Some (m, q)
  else
    '(m, z) ← pad_shift (Z.to_nat qplen) m (q + shift - 1) (p + shift) e shift;
    m ← pad_fill (Z.to_nat shift) m z p 48;
    Some (m, q + shift).

(** [lib/format/fmtpadr.c: fmtpadr 10-11] *)
Fixpoint padr_fill (fuel : nat) (m : mem) (q t e : ptr) : option (mem * ptr) :=
  if (q <? t) && (q <? e) then
    match fuel with
    | O => None
    | S fuel => m ← st8 m q 32; padr_fill fuel m (q + 1) t e
    end
  else Some (m, q).

(** [lib/format/fmtpadr.c: fmtpadr] *)
Definition fmtpadr (m : mem) (p e : ptr) (width : Z) (q : ptr) : option (mem * ptr) :=
  if (q <? p) || (e <? q) then Some (m, q)
  else padr_fill (Z.to_nat (e - q)) m q (p + width) e.

(** [lib/format/fmtsize.c: sfx 7] *)
Definition sfx : list Z := [32; 75; 77; 71; 84; 80].

(** [lib/format/fmtsize.c: fmtsize 13-17] the largest multiplier *)
Fixpoint size_scale (fuel : nat) (n sfi fr : Z) : option (Z * Z * Z) :=
  if (1024 <=? n) && (sfi <? 5) then
    match fuel with
    | O => None
    | S fuel => size_scale fuel (n / 1024) (sfi + 1) (n mod 1024)
    end
  else Some (n, sfi, fr).

(** [lib/format/fmtsize.c: fmtsize] *)
Definition fmtsize (m : mem) (p e : ptr) (n : Z) : option (mem * ptr) :=
  '(n, sfi, fr) ← size_scale 5 n 0 0;
  if sfi <? 1 then fmtu64 m p e n
  else if sfi =? 1 then
    let n := if 512 <=? fr then n + 1 else n in
    '(m, p) ← fmtu64 m p e n;
    c ← zget sfx sfi; fmtchar m p e c
  else if n <? 1024 then
    '(m, p) ← (if 10 <=? n then
        let n := if 512 <=? fr then n + 1 else n in
        fmti64 m p e n
      else
        let fr := ((fr * 100) / 1024 + 5) / 10 in
        let '(n, fr) := if 10 <=? fr then (n + 1, 0) else (n, fr) in
        '(m, p) ← fmti64 m p e n;
        '(m, p) ← fmtchar m p e 46;
        fmtchar m p e (48 + fr));
    c ← zget sfx sfi; fmtchar m p e c
  else
    let n := if 512 <=? fr then n + 1 else n in
    '(m, p) ← fmtu64 m p e n;
    c ← zget sfx 5; fmtchar m p e c.

(** ** The contract: a text stored in the room left *)

(** The effect of writing the text [s] at [p], truncated at [e]. *)
Definition emit (m : mem) (p e : ptr) (s : list Z) : mem * ptr :=
  (poke m p (take (Z.to_nat (e - p)) s), p + Z.min (zlen s) (e - p)).

Lemma emit_nil m p e : p <= e -> emit m p e [] = (m, p).
Proof. intros. unfold emit. rewrite take_nil. simpl. f_equal. lia. Qed.

Lemma emit_full m e s : emit m e e s = (m, e).
Proof. unfold emit. rewrite Z.sub_diag. simpl. f_equal. lia. Qed.

(** Two texts one after the other are the concatenated text. *)
Lemma emit_app m p e s t :
  p <= e ->
  emit (fst (emit m p e s)) (snd (emit m p e s)) e t = emit m p e (s ++ t).
Proof.
  intros He. unfold emit. cbn [fst snd]. f_equal; [|rewrite length_app; lia].
  destruct (decide (zlen s <= e - p)).
  - rewrite Z.min_l by lia. rewrite (take_ge s) by lia.
    rewrite take_app_ge by lia. rewrite poke_app.
    do 2 f_equal. lia.
  - rewrite Z.min_r by lia. replace (e - (p + (e - p))) with 0 by lia. simpl.
    rewrite take_app_le by lia. done.
Qed.

Lemma emit_fits m p e s :
  zlen s <= e - p -> emit m p e s = (poke m p s, p + zlen s).
Proof. intros. unfold emit. rewrite take_ge by lia. f_equal. lia. Qed.

Lemma emit_pos_bounds m p e s : p <= e -> p <= snd (emit m p e s) <= e.
Proof. intros. simpl. lia. Qed.

Lemma mapped_emit m p e s q n : mapped m q n -> mapped (fst (emit m p e s)) q n.
Proof. apply mapped_poke. Qed.

(** A formatter stores a given text when its buffer is mapped and [P] holds of
    the memory it reads; [P] is kept by writes into the buffer. *)
Class Stable (P : mem -> ptr -> ptr -> Prop) : Prop :=
  stable : forall m p e s, p <= e -> P m p e ->
    P (fst (emit m p e s)) (snd (emit m p e s)) e.

Class Emits (P : mem -> ptr -> ptr -> Prop) (f : mem -> ptr -> ptr -> option (mem * ptr))
    (s : list Z) : Prop :=
  emits : forall m p e, p <= e -> mapped m p (e - p) -> P m p e ->
    f m p e = Some (emit m p e s).

(** The bytes [l] sit at [q], outside of the buffer. *)
Definition apart (q : ptr) (l : list Z) (m : mem) (p e : ptr) : Prop :=
  bytes_at m q l /\ (q + zlen l <= p \/ e <= q).

Definition no_data : mem -> ptr -> ptr -> Prop := fun _ _ _ => True.

#[export] Instance stable_no_data : Stable no_data.
Proof. done. Qed.

#[export] Instance stable_apart q l : Stable (apart q l).
Proof.
  intros m p e s He [Hb Hd]. simpl. split; [|lia].
  apply bytes_at_poke_disjoint; [|done]. rewrite length_take. lia.
Qed.

Lemma emits_weaken (P Q : mem -> ptr -> ptr -> Prop) f s :
  (forall m p e, Q m p e -> P m p e) -> Emits P f s -> Emits Q f s.
Proof. intros HPQ H m p e ? ? ?. apply H; auto. Qed.

(** Sequencing two formatters concatenates their texts. *)
Definition then_fmt (f g : mem -> ptr -> ptr -> option (mem * ptr))
    (m : mem) (p e : ptr) : option (mem * ptr) :=
  '(m, p) ← f m p e; g m p e.

#[export] Instance emits_then P f g s t `{!Stable P} :
  Emits P f s -> Emits P g t -> Emits P (then_fmt f g) (s ++ t).
Proof.
  intros Hf Hg m p e He Hm HP. unfold then_fmt. rewrite Hf by done.
  rewrite <- (emit_app m p e s t He).
  destruct (emit m p e s) as [m' p'] eqn:E. simpl.
  pose proof (emit_pos_bounds m p e s He) as Hb. rewrite E in Hb. simpl in Hb.
  apply Hg.
  - lia.
  - pose proof (mapped_emit m p e s p (e - p) Hm) as Hm'. rewrite E in Hm'. simpl in Hm'.
    eapply mapped_sub; [done|lia|lia].
  - pose proof (stable (P := P) m p e s He HP) as Hs. by rewrite E in Hs.
Qed.

(** ** Texts of numbers *)

Definition dec_glyph (d : Z) : Z := 48 + d.
Definition hex_glyph (d : Z) : Z := default 48 (zget hexdigits d).

(** Decimal text, hexadecimal text, and their variants. *)
Definition dec (n : Z) : list Z := dec_glyph <$> digits 10 (ndigits 10 n) n.
Definition hex (n : Z) : list Z := hex_glyph <$> digits 16 (ndigits 16 n) n.
Definition dec_signed (n : Z) : list Z := if n <? 0 then 45 :: dec (- n) else dec n.
Definition hexbyte (c : Z) : list Z := [hex_glyph (c / 16 mod 16); hex_glyph (c mod 16)].

Lemma dec_len_spec fuel n len :
  0 <= n < 10 ^ (Z.of_nat fuel + 1) ->
  dec_len fuel n len = Some (len + Z.of_nat (ndigits 10 n) - 1).
Proof.
  intros Hn. rewrite (ndigits_eq fuel) by (done || lia).
  revert n len Hn. induction fuel as [|fuel IH]; intros n len Hn; simpl.
  - change (Z.of_nat 0 + 1) with 1 in Hn. zcases. f_equal. lia.
  - destruct (Z.leb_spec 10 n), (Z.ltb_spec n 10); try lia.
    + rewrite IH; [f_equal; lia|]. split; [apply Z.div_pos; lia|].
      apply Z.div_lt_upper_bound; [lia|]. rewrite <- Z.pow_succ_r by lia.
      replace (Z.succ (Z.of_nat fuel + 1)) with (Z.of_nat (S fuel) + 1) by lia. lia.
    + f_equal. lia.
Qed.

Lemma hex_len_spec fuel n len :
  0 <= n < 16 ^ (Z.of_nat fuel + 1) ->
  hex_len fuel n len = Some (len + Z.of_nat (ndigits 16 n) - 1).
Proof.
  intros Hn. rewrite (ndigits_eq fuel) by (done || lia).
  revert n len Hn. induction fuel as [|fuel IH]; intros n len Hn; simpl.
  - change (Z.of_nat 0 + 1) with 1 in Hn. zcases. f_equal. lia.
  - rewrite Z.shiftr_div_pow2 by lia. change (2 ^ 4) with 16.
    destruct (Z.leb_spec 16 n), (Z.ltb_spec n 16); try lia.
    + rewrite IH; [f_equal; lia|]. split; [apply Z.div_pos; lia|].
      apply Z.div_lt_upper_bound; [lia|]. rewrite <- Z.pow_succ_r by lia.
      replace (Z.succ (Z.of_nat fuel + 1)) with (Z.of_nat (S fuel) + 1) by lia. lia.
    + f_equal. lia.
Qed.

(** One digit written at the last position of the text, and the rest before
    it: the induction step of every backward digit loop. *)
Lemma emit_snoc m b fin l g p :
  p = b + zlen l -> b <= fin ->
  fst (emit (if p <? fin then <[p := g]> m else m) b fin l) = fst (emit m b fin (l ++ [g])).
Proof.
  intros -> Hb. unfold emit. cbn [fst]. destruct (Z.ltb_spec (b + zlen l) fin).
  - rewrite !take_ge by (rewrite ?length_app; simpl; lia). apply poke_snoc_below.
  - by rewrite take_app_le by lia.
Qed.

(** A guarded store below the end of a mapped buffer. *)
Lemma st8_guarded m b fin p v :
  mapped m b (fin - b) -> b <= p -> 0 <= v < 256 ->
  (if p <? fin then st8 m p v else Some m) = Some (if p <? fin then <[p := v]> m else m).
Proof.
  intros Hm Hp Hv. destruct (Z.ltb_spec p fin); [|done].
  rewrite st8_mapped by (apply Hm; lia). by rewrite u8_byte.
Qed.

Lemma mapped_if (c : bool) m p v b n :
  mapped m b n -> mapped (if c then <[p := v]> m else m) b n.
Proof. destruct c; [apply mapped_insert|done]. Qed.

Lemma dec_put_spec len m p fin num b :
  b = p - Z.of_nat len + 1 -> b <= fin -> mapped m b (fin - b) ->
  dec_put len m p fin num = Some (fst (emit m b fin (dec_glyph <$> digits 10 len num)), b - 1).
Proof.
  revert m p num b. induction len as [|len IH]; intros m p num b Hb Hf Hm.
  { simpl. rewrite take_nil. simpl. do 2 f_equal. lia. }
  cbn [dec_put]. pose proof (Z.mod_pos_bound num 10 ltac:(lia)).
  rewrite (st8_guarded m b) by (done || lia). cbn [mbind option_bind].
  rewrite (IH _ _ _ b) by (lia || by apply mapped_if).
  f_equal. f_equal. simpl digits. rewrite fmap_app. simpl fmap.
  apply emit_snoc; [|done]. rewrite length_fmap, length_digits. lia.
Qed.

Lemma hexdigits_get d : 0 <= d < 16 -> zget hexdigits d = Some (hex_glyph d).
Proof.
  intros Hd. unfold hex_glyph.
  destruct (zget_lt_is_Some hexdigits d) as [x ->]; [done|done].
Qed.

Lemma hex_glyph_byte d : 0 <= hex_glyph d < 256.
Proof.
  unfold hex_glyph. destruct (zget hexdigits d) as [x|] eqn:Hx; simpl; [|lia].
  unfold zget in Hx. case_decide; [|done].
  assert (Forall (fun x => 0 <= x < 256) hexdigits) as HF by decide_now.
  rewrite Forall_lookup in HF. by eapply HF.
Qed.

Lemma nibble_mod n : Z.land n 15 = n mod 16.
Proof. change 15 with (Z.ones 4). by rewrite Z.land_ones. Qed.

Lemma hex_put_spec len m buf p fin num b :
  b = p - Z.of_nat len + 1 -> buf <= b -> b <= fin -> mapped m b (fin - b) ->
  hex_put len m buf p fin num =
  Some (fst (emit m b fin (hex_glyph <$> digits 16 len num)), b - 1).
Proof.
  revert m p num b. induction len as [|len IH]; intros m p num b Hb Hbuf Hf Hm.
  { simpl. rewrite take_nil. simpl. do 2 f_equal. lia. }
  cbn [hex_put]. rewrite nibble_mod. pose proof (Z.mod_pos_bound num 16 ltac:(lia)).
  rewrite hexdigits_get by done. cbn [mbind option_bind].
  rewrite (st8_guarded m b) by (done || lia || apply hex_glyph_byte).
  cbn [mbind option_bind]. destruct (Z.leb_spec buf p); [|lia].
  rewrite (IH _ _ _ b) by (lia || by apply mapped_if).
  rewrite Z.shiftr_div_pow2 by lia. change (2 ^ 4) with 16.
  f_equal. f_equal. simpl digits. rewrite fmap_app. simpl fmap.
  apply emit_snoc; [|done]. rewrite length_fmap, length_digits. lia.
Qed.

Lemma fmthex_put_hex_put len m buf p fin num :
  buf <= p - Z.of_nat len + 1 -> fmthex_put len m p fin num = hex_put len m buf p fin num.
Proof.
  revert m p num. induction len as [|len IH]; intros m p num Hb; [done|].
  cbn [fmthex_put hex_put]. destruct (Z.leb_spec buf p); [|lia].
  destruct (if p <? fin then _ else _); simpl; [|done]. apply IH. lia.
Qed.

Lemma length_dec n : length (dec n) = ndigits 10 n.
Proof. unfold dec. by rewrite length_fmap, length_digits. Qed.

Lemma length_hex n : length (hex n) = ndigits 16 n.
Proof. unfold hex. by rewrite length_fmap, length_digits. Qed.

(** ** Each formatter stores its text *)

#[export] Instance emits_char c : 0 <= c < 256 ->
  Emits no_data (fun m p e => fmtchar m p e c) [c].
Proof.
  intros Hc m p e He Hm _. unfold fmtchar. destruct (Z.ltb_spec p e).
  - rewrite st8_mapped by (apply Hm; lia). rewrite u8_byte by done.
    rewrite emit_fits by (simpl; lia). done.
  - replace p with e by lia. by rewrite emit_full.
Qed.

Lemma two_chars a b : 0 <= a < 256 -> 0 <= b < 256 ->
  Emits no_data (then_fmt (fun m p e => fmtchar m p e a) (fun m p e => fmtchar m p e b)) [a; b].
Proof. intros. apply (emits_then _ _ _ [a] [b]); by apply emits_char. Qed.

#[export] Instance emits_byte c :
  Emits no_data (fun m p e => fmtbyte m p e c) (hexbyte c).
Proof.
  intros m p e He Hm _. unfold fmtbyte.
  rewrite !nibble_mod, Z.shiftr_0_r, Z.shiftr_div_pow2 by lia. change (2 ^ 4) with 16.
  rewrite !hexdigits_get by (apply Z.mod_pos_bound; lia). cbn [mbind option_bind].
  exact (two_chars _ _ (hex_glyph_byte _) (hex_glyph_byte _) m p e He Hm I).
Qed.

(** The unsigned formatter, whatever the room left. *)
Lemma fmtint64_plain m p e n :
  p <= e -> mapped m p (e - p) -> 0 <= n < 2 ^ 64 ->
  fmtint64 m p e false n = Some (emit m p e (dec n)).
Proof.
  intros He Hm Hn. unfold fmtint64, len_fuel.
  rewrite dec_len_spec; [|split; [lia|]; eapply Z.lt_trans; [apply Hn|reflexivity]].
  cbn [mbind option_bind Z.b2z].
  destruct (ndigits_spec 10 n) as (Hk & _ & _); [lia|lia|].
  set (k := ndigits 10 n) in *.
  rewrite (dec_put_spec _ _ _ _ _ p) by (done || lia). cbn [mbind option_bind].
  unfold dec. fold k. replace (Z.to_nat (1 + Z.of_nat k - 1)) with k by lia.
  unfold emit. cbn [fst]. f_equal. f_equal.
  rewrite length_fmap, length_digits. zcases.
Qed.

#[export] Instance emits_u64 n : 0 <= n < 2 ^ 64 ->
  Emits no_data (fun m p e => fmtu64 m p e n) (dec n).
Proof. intros Hn m p e He Hm _. by apply fmtint64_plain. Qed.

(** The signed case stores the sign last and without testing the end of the
    buffer, so it needs room for one character. *)
Lemma fmtint64_minus m p e n :
  p < e -> mapped m p (e - p) -> 0 <= n < 2 ^ 64 ->
  fmtint64 m p e true n = Some (emit m p e (45 :: dec n)).
Proof.
  intros He Hm Hn. unfold fmtint64, len_fuel.
  rewrite dec_len_spec; [|split; [lia|]; eapply Z.lt_trans; [apply Hn|reflexivity]].
  cbn [mbind option_bind Z.b2z].
  destruct (ndigits_spec 10 n) as (Hk & _ & _); [lia|lia|].
  set (k := ndigits 10 n) in *.
  rewrite (dec_put_spec _ _ _ _ _ (p + 1)); [|lia|lia|by eapply mapped_sub; [done|lia|lia]].
  cbn [mbind option_bind]. replace (p + 1 - 1) with p by lia.
  rewrite st8_mapped by (apply poke_is_Some, Hm; lia). cbn [mbind option_bind].
  rewrite u8_byte by lia. unfold dec. fold k.
  replace (Z.to_nat (1 + Z.of_nat k - 1)) with k by lia.
  unfold emit. cbn [fst]. f_equal. f_equal.
  - replace (Z.to_nat (e - p)) with (S (Z.to_nat (e - (p + 1)))) by lia.
    cbn [take poke]. apply map_eq. intros a. destruct (decide (a = p)) as [->|].
    + rewrite lookup_insert_eq, lookup_poke_out, lookup_insert_eq by lia. done.
    + rewrite lookup_insert_ne by done. rewrite !lookup_poke.
      case_decide; [done|]. by rewrite lookup_insert_ne.
  - simpl length. rewrite length_fmap, length_digits. zcases.
Qed.

Lemma fmti64_spec m p e n :
  p <= e -> mapped m p (e - p) -> - 2 ^ 63 < n < 2 ^ 63 -> (p < e \/ 0 <= n) ->
  fmti64 m p e n = Some (emit m p e (dec_signed n)).
Proof.
  intros He Hm Hn Hroom. unfold fmti64, dec_signed. destruct (Z.ltb_spec n 0).
  - rewrite swrap_small by lia. rewrite uwrap_small by lia. by apply fmtint64_minus; lia || done.
  - rewrite uwrap_small by lia. by apply fmtint64_plain; lia || done.
Qed.

Lemma fmti32_spec m p e n :
  p <= e -> mapped m p (e - p) -> - 2 ^ 31 < n < 2 ^ 31 -> (p < e \/ 0 <= n) ->
  fmti32 m p e n = Some (emit m p e (dec_signed n)).
Proof.
  intros He Hm Hn Hroom. unfold fmti32, dec_signed. destruct (Z.ltb_spec n 0).
  - rewrite swrap_small by lia. rewrite uwrap_small by lia. by apply fmtint64_minus; lia || done.
  - rewrite uwrap_small by lia. by apply fmtint64_plain; lia || done.
Qed.

#[export] Instance emits_x64 n : 0 <= n < 2 ^ 64 ->
  Emits no_data (fun m p e => fmtx64 m p e n) (hex n).
Proof.
  intros Hn m p e He Hm _. unfold fmtx64, len_fuel.
  rewrite hex_len_spec; [|split; [lia|]; eapply Z.lt_trans; [apply Hn|reflexivity]].
  cbn [mbind option_bind].
  destruct (ndigits_spec 16 n) as (Hk & _ & _); [lia|lia|].
  set (k := ndigits 16 n) in *.
  rewrite (hex_put_spec _ _ _ _ _ _ p) by (done || lia). cbn [mbind option_bind].
  unfold hex. fold k. replace (Z.to_nat (1 + Z.of_nat k - 1)) with k by lia.
  unfold emit. cbn [fst]. f_equal. f_equal.
  rewrite length_fmap, length_digits. zcases.
Qed.

(** ** Composite formatters *)

(** One formatting step of a longer function: run [f], continue with [K]. *)
Lemma emit_bind P `{!Stable P} f s (K : mem * ptr -> option (mem * ptr)) t m p e :
  Emits P f s -> p <= e -> mapped m p (e - p) -> P m p e ->
  (forall m' p', p' <= e -> mapped m' p' (e - p') -> P m' p' e ->
     K (m', p') = Some (emit m' p' e t)) ->
  f m p e ≫= K = Some (emit m p e (s ++ t)).
Proof.
  intros Hf He Hm HP HK.
  assert (Emits P (then_fmt f (fun m p e' => if decide (e' = e) then K (m, p) else
    Some (emit m p e' t))) (s ++ t)) as H.
  { apply (emits_then P _ _ s t); [done|]. intros m' p' e' ? ? ?.
    case_decide as Heq; [subst e'; by apply HK|done]. }
  rewrite <- (H m p e He Hm HP). unfold then_fmt.
  destruct (f m p e) as [[m' p']|]; simpl; [|done]. by rewrite decide_True.
Qed.

Lemma emits_any P f s : Emits no_data f s -> Emits P f s.
Proof. by apply emits_weaken. Qed.

Lemma emits_fmtint_nat P n : 0 <= n < 2 ^ 31 -> Emits P (fun m p e => fmtint m p e n) (dec n).
Proof.
  intros Hn m p e He Hm _. unfold fmtint. rewrite fmti32_spec by (done || lia).
  unfold dec_signed. by destruct (Z.ltb_spec n 0); [lia|].
Qed.

(** Reading a data byte that sits apart from the buffer. *)
Lemma apart_read q l m p e i b :
  apart q l m p e -> zget l i = Some b -> ld8 m (q + i) = Some b.
Proof. intros [Hb _] Hi. rewrite bytes_at_zget in Hb. by apply Hb. Qed.

Lemma fmtbytes_loop_spec l fuel val fin :
  length l = fuel -> fin = val + zlen l ->
  Emits (apart val l) (fun m p e => fmtbytes_loop fuel m p e val fin) (l ≫= hexbyte).
Proof.
  revert fuel val fin. induction l as [|b l IH]; intros fuel val fin <- -> m p e He Hm HP;
    cbn [length fmtbytes_loop].
  { zcases. by rewrite emit_nil. }
  change ((b :: l) ≫= hexbyte) with (hexbyte b ++ (l ≫= hexbyte)).
  destruct (Z.ltb_spec val (val + Z.of_nat (S (length l)))); [|lia].
  pose proof (apart_read _ _ _ _ _ 0 b HP eq_refl) as Hb.
  rewrite Z.add_0_r in Hb. rewrite Hb. cbn [mbind option_bind].
  apply (emit_bind (apart val (b :: l)) (fun m p e => fmtbyte m p e b) (hexbyte b));
    [refine (emits_any _ _ _ _)|done..|].
  intros m' p' He' Hm' [HP' Hd]. eapply (IH _ (val + 1)); [done|simpl length; lia|done|done|].
  apply bytes_at_cons in HP' as [_ HP']. split; [done|]. simpl in Hd. lia.
Qed.

#[export] Instance emits_bytes q l :
  Emits (apart q l) (fun m p e => fmtbytes m p e q (zlen l)) (l ≫= hexbyte).
Proof. apply fmtbytes_loop_spec; lia. Qed.

(** The text of an address, "a.b.c.d". *)
Definition ip_text (ip : list Z) : list Z :=
  match ip with
  | [a; b; c; d] => dec a ++ [46] ++ dec b ++ [46] ++ dec c ++ [46] ++ dec d
  | _ => []
  end.

Lemma apart_read0 q b l m p e : apart q (b :: l) m p e -> ld8 m q = Some b.
Proof. intros H. rewrite <- (Z.add_0_r q). by apply (apart_read _ _ _ _ _ 0 b H). Qed.

#[export] Instance emits_ip q a b c d :
  Forall (fun x => 0 <= x < 256) [a; b; c; d] ->
  Emits (apart q [a; b; c; d]) (fun m p e => fmtip m p e q) (ip_text [a; b; c; d]).
Proof.
  intros HF. apply Forall_cons in HF as [Ha HF]. apply Forall_cons in HF as [Hb HF].
  apply Forall_cons in HF as [Hc HF]. apply Forall_cons in HF as [Hd _].
  intros m p e He Hm HP. unfold fmtip, ip_text.
  set (P := apart q [a; b; c; d]) in *.
  assert (forall n, 0 <= n < 256 -> Emits P (fun m p e => fmtint m p e n) (dec n)) as Hint.
  { intros n Hn. apply emits_fmtint_nat. lia. }
  assert (Emits P (fun m p e => fmtchar m p e 46) [46]) as Hdot.
  { apply (emits_any P _ [46]), emits_char. lia. }
  rewrite (apart_read0 _ _ _ _ _ _ HP). cbn [mbind option_bind].
  apply (emit_bind P _ _ _ _ _ _ _ (Hint a Ha)); [done..|]. intros m1 p1 He1 Hm1 HP1.
  apply (emit_bind P _ _ _ _ _ _ _ Hdot); [done..|]. clear m1 p1 He1 Hm1 HP1.
  intros m1 p1 He1 Hm1 HP1.
  rewrite (apart_read _ _ _ _ _ 1 b HP1) by done. cbn [mbind option_bind].
  apply (emit_bind P _ _ _ _ _ _ _ (Hint b Hb)); [done..|]. clear m1 p1 He1 Hm1 HP1.
  intros m1 p1 He1 Hm1 HP1.
  apply (emit_bind P _ _ _ _ _ _ _ Hdot); [done..|]. clear m1 p1 He1 Hm1 HP1.
  intros m1 p1 He1 Hm1 HP1.
  rewrite (apart_read _ _ _ _ _ 2 c HP1) by done. cbn [mbind option_bind].
  apply (emit_bind P _ _ _ _ _ _ _ (Hint c Hc)); [done..|]. clear m1 p1 He1 Hm1 HP1.
  intros m1 p1 He1 Hm1 HP1.
  apply (emit_bind P _ _ _ _ _ _ _ Hdot); [done..|]. clear m1 p1 He1 Hm1 HP1.
  intros m1 p1 He1 Hm1 HP1.
  rewrite (apart_read _ _ _ _ _ 3 d HP1) by done. cbn [mbind option_bind].
  by apply Hint.
Qed.

(** The text of a hardware address, "AA:BB:CC:DD:EE:FF". *)
Definition mac_text (mac : list Z) : list Z :=
  match mac with
  | [] => []
  | b :: l => hexbyte b ++ (l ≫= fun b => 58 :: hexbyte b)
  end.

Lemma fmtmac_loop_spec l l0 mac i :
  zlen l0 = i -> i + zlen l = 6 ->
  Emits (apart mac (l0 ++ l)) (fun m p e => fmtmac_loop (length l) m p e mac i)
    (l ≫= fun b => 58 :: hexbyte b).
Proof.
  revert l0 i. induction l as [|b l IH]; intros l0 i Hi Hl m p e He Hm HP;
    cbn [length fmtmac_loop] in *.
  { zcases. by rewrite emit_nil. }
  destruct (Z.ltb_spec i 6); [|lia].
  change ((b :: l) ≫= (fun b => 58 :: hexbyte b)) with
    ([58] ++ (hexbyte b ++ (l ≫= fun b => 58 :: hexbyte b))).
  apply (emit_bind (apart mac (l0 ++ b :: l)) (fun m p e => fmtchar m p e 58));
    [apply emits_any, emits_char; lia|done..|].
  clear m p He Hm HP. intros m p He Hm HP.
  rewrite (apart_read _ _ _ _ _ i b HP).
  2:{ rewrite zget_app_r by lia. by replace (i - zlen l0) with 0 by lia. }
  cbn [mbind option_bind].
  apply (emit_bind (apart mac (l0 ++ b :: l)) (fun m p e => fmtbyte m p e b));
    [apply emits_any; apply _|done..|].
  clear m p He Hm HP. intros m p He Hm HP.
  replace (l0 ++ b :: l) with ((l0 ++ [b]) ++ l) in HP by (by rewrite <- app_assoc).
  refine (IH (l0 ++ [b]) (i + 1) _ _ m p e He Hm HP);
    rewrite ?length_app; simpl; lia.
Qed.

#[export] Instance emits_mac q mac : length mac = 6%nat ->
  Emits (apart q mac) (fun m p e => fmtmac m p e q) (mac_text mac).
Proof.
  intros Hl m p e He Hm HP. destruct mac as [|b l]; [done|].
  unfold fmtmac, mac_text. rewrite (apart_read0 _ _ _ _ _ _ HP). cbn [mbind option_bind].
  apply (emit_bind (apart q (b :: l)) (fun m p e => fmtbyte m p e b));
    [apply emits_any; apply _|done..|].
  clear m p He Hm HP. intros m p He Hm HP.
  injection Hl as Hl. rewrite <- Hl.
  apply (fmtmac_loop_spec l [b]); [done|lia|done|done|done].
Qed.

(** Raw data, and strings cut at the room left. *)
Lemma fmtraw_spec m p e data l :
  p <= e -> e - p < 2 ^ 31 -> mapped m p (e - p) -> is_bytes l -> apart data l m p e ->
  fmtraw m p e data (zlen l) = Some (emit m p e l).
Proof.
  intros He Hs Hm Hl [Hb Hd]. unfold fmtraw, memcpy.
  set (len := if e - p <? zlen l then s32 (e - p) else zlen l).
  assert (len = Z.min (zlen l) (e - p)) as ->.
  { unfold len. destruct (Z.ltb_spec (e - p) (zlen l)); [|lia].
    rewrite swrap_small by lia. lia. }
  unfold emit. destruct (Z.leb_spec (Z.min (zlen l) (e - p)) 0).
  - f_equal. f_equal; [|lia]. destruct (decide (e - p = 0)) as [->|]; [done|].
    destruct l; [by rewrite take_nil|simpl in *; lia].
  - rewrite (memcpy_loop_spec _ _ _ _ (take (Z.to_nat (e - p)) l)).
    + done.
    + by apply Forall_take.
    + apply peek_Some. split; [rewrite length_take; lia|].
      rewrite <- (take_drop (Z.to_nat (e - p)) l) in Hb.
      by apply bytes_at_app in Hb as [? _].
    + eapply mapped_sub; [done|lia|lia].
    + lia.
Qed.

Lemma fmtstr_spec m p e str s :
  p <= e -> e - p < 2 ^ 31 -> mapped m p (e - p) -> str <> 0 ->
  cstr_at m str s -> (str + zlen s <= p \/ e <= str) ->
  fmtstr m p e str = Some (emit m p e s).
Proof.
  intros He Hs Hm H0 Hstr Hd. unfold fmtstr.
  destruct (Z.leb_spec e p).
  { replace e with p by lia. by rewrite emit_full. }
  rewrite (strnlen_spec _ _ s) by (done || lia). cbn [mbind option_bind].
  rewrite swrap_small by lia.
  set (s' := take (Z.to_nat (e - p)) s).
  assert (Z.min (zlen s) (e - p) = zlen s') as -> by (unfold s'; rewrite length_take; lia).
  destruct Hstr as [Hb HF].
  rewrite fmtraw_spec; [|done|done|done| |].
  - f_equal. unfold emit, s'. rewrite take_take, length_take.
    f_equal; [f_equal; f_equal; lia|lia].
  - apply Forall_take. eapply Forall_impl; [exact HF|]. simpl. lia.
  - split; [|unfold s'; rewrite length_take; lia].
    apply bytes_at_app in Hb as [Hb _]. unfold s'.
    rewrite <- (take_drop (Z.to_nat (e - p)) s) in Hb. by apply bytes_at_app in Hb as [? _].
Qed.

(** Zero-padded numbers: right only if the text fits; the returned position is
    not cut at the end of the buffer. *)
Definition dec_pad (n pad : Z) : list Z :=
  dec_glyph <$> digits 10 (Z.to_nat (Z.max (Z.of_nat (ndigits 10 n)) pad)) n.

Lemma fmtulp_spec m p e n pad :
  p <= e -> mapped m p (e - p) -> 0 <= n < 2 ^ 64 ->
  fmtulp m p e n pad =
  Some (fst (emit m p e (dec_pad n pad)), p + zlen (dec_pad n pad)).
Proof.
  intros He Hm Hn. unfold fmtulp, len_fuel.
  rewrite dec_len_spec; [|split; [lia|]; eapply Z.lt_trans; [apply Hn|reflexivity]].
  cbn [mbind option_bind]. set (len := if _ <? pad then pad else _).
  destruct (ndigits_spec 10 n) as (Hk & _ & _); [lia|lia|].
  assert (len = Z.max (Z.of_nat (ndigits 10 n)) pad) as ->
    by (unfold len; destruct (Z.ltb_spec (1 + Z.of_nat (ndigits 10 n) - 1) pad); lia).
  rewrite (dec_put_spec _ _ _ _ _ p) by (done || lia).
  cbn [mbind option_bind]. unfold dec_pad.
  rewrite length_fmap, length_digits. do 2 f_equal. lia.
Qed.

(** ** Padding *)

Lemma pad_shift_memmove n m z lo e shift :
  lo = z - Z.of_nat n + 1 -> z < e ->
  pad_shift n m z lo e shift =
  m' ← memmove_loop n m z (z - shift); Some (m', lo - 1).
Proof.
  revert m z. induction n as [|n IH]; intros m z Hlo Hz; cbn [pad_shift memmove_loop].
  { zcases. simpl. do 2 f_equal. lia. }
  destruct (Z.leb_spec lo z); [|lia]. destruct (Z.ltb_spec z e); [|lia].
  destruct (ld8 m (z - shift)) as [c|]; simpl; [|done].
  destruct (st8 m z c) as [m'|]; simpl; [|done].
  rewrite IH by lia. by replace (z - 1 - shift) with (z - shift - 1) by lia.
Qed.

Lemma pad_fill_spec n m z p c :
  p = z - Z.of_nat n + 1 -> mapped m p (Z.of_nat n) -> 0 <= c < 256 ->
  pad_fill n m z p c = Some (poke m p (replicate n c)).
Proof.
  revert m z. induction n as [|n IH]; intros m z Hp Hm Hc; cbn [pad_fill].
  { zcases. done. }
  destruct (Z.leb_spec p z); [|lia].
  rewrite st8_mapped by (apply Hm; lia). cbn [mbind option_bind].
  rewrite u8_byte by done. rewrite IH; [|lia| |done].
  - replace (replicate (S n) c) with (replicate n c ++ [c]) by (by rewrite <- replicate_cons_app).
    rewrite <- poke_snoc_below, length_replicate. do 3 f_equal. lia.
  - apply mapped_insert. intros a ?. apply Hm. lia.
Qed.

Lemma pad_spec m p e q shift t c :
  p <= q -> 0 <= shift -> q + shift <= e -> mapped m p (q + shift - p) ->
  0 <= c < 256 -> bytes_at m p t -> zlen t = q - p -> mem_ok m ->
  ('(m, z) ← pad_shift (Z.to_nat (q - p)) m (q + shift - 1) (p + shift) e shift;
   m ← pad_fill (Z.to_nat shift) m z p c; Some (m, q + shift)) =
  Some (poke m p (replicate (Z.to_nat shift) c ++ t), q + shift).
Proof.
  intros Hpq Hs He Hm Hc Ht Hl Hok.
  destruct (decide (q = p)) as [->|].
  { assert (t = []) as -> by (destruct t; simpl in *; [done|lia]).
    rewrite Z.sub_diag. change (Z.to_nat 0) with 0%nat. cbn [pad_shift].
    destruct (Z.leb_spec (p + shift) (p + shift - 1)); [lia|]. cbn [mbind option_bind].
    rewrite pad_fill_spec; [|lia| |done].
    - by rewrite app_nil_r.
    - eapply mapped_sub; [done|lia|lia]. }
  rewrite pad_shift_memmove by lia.
  rewrite (memmove_loop_spec _ _ _ _ t); [|done| | |lia].
  2:{ apply peek_Some. split; [lia|].
      by replace (q + shift - 1 - shift - Z.of_nat (Z.to_nat (q - p)) + 1) with p by lia. }
  2:{ eapply mapped_sub; [done|lia|lia]. }
  cbn [mbind option_bind].
  rewrite pad_fill_spec; [|lia|apply mapped_poke; eapply mapped_sub; [done|lia|lia]|done].
  cbn [mbind option_bind]. f_equal. f_equal. apply map_eq. intros a.
  rewrite poke_app, length_replicate. rewrite !lookup_poke, length_replicate.
  replace (q + shift - 1 - Z.of_nat (Z.to_nat (q - p)) + 1) with (p + shift) by lia.
  repeat case_decide; try lia; try done; f_equal; lia.
Qed.

(** A negative number formatted at the very end of a buffer writes the sign past
    it; so does [fmtpad] with any padding that does not fit. *)
Lemma pad_shift_beyond n m z lo e shift :
  e <= lo -> lo = z - Z.of_nat n + 1 -> pad_shift n m z lo e shift = Some (m, lo - 1).
Proof.
  revert z. induction n as [|n IH]; intros z He Hlo; cbn [pad_shift].
  { zcases. do 2 f_equal. lia. }
  destruct (Z.leb_spec lo z); [|lia]. destruct (Z.ltb_spec z e); [lia|].
  simpl. apply IH; lia.
Qed.

(** ** Sizes *)

Lemma ndigits_le b n k : 1 < b -> 0 <= n < b ^ k -> 1 <= k -> Z.of_nat (ndigits b n) <= k.
Proof.
  intros Hb Hn Hk. destruct (ndigits_spec b n Hb) as (? & ? & [Hd|Hd]); [lia|lia|].
  destruct (Z.le_gt_cases (Z.of_nat (ndigits b n)) k); [done|].
  pose proof (Z.pow_le_mono_r b k (Z.of_nat (ndigits b n) - 1)). lia.
Qed.

Lemma size_scale_spec fuel n sfi fr :
  Z.of_nat fuel + sfi = 5 -> 0 <= n < 16384 * 1024 ^ Z.of_nat fuel -> 0 <= fr < 1024 ->
  exists n' sfi' fr', size_scale fuel n sfi fr = Some (n', sfi', fr') /\
    sfi <= sfi' <= 5 /\ 0 <= fr' < 1024 /\ 0 <= n' < (if sfi' =? 5 then 16384 else 1024).
Proof.
  revert n sfi fr. induction fuel as [|fuel IH]; intros n sfi fr Hf Hn Hfr;
    cbn [size_scale].
  { change (1024 ^ Z.of_nat 0) with 1 in Hn.
    destruct (Z.ltb_spec sfi 5); [lia|]. rewrite andb_false_r.
    exists n, sfi, fr. split; [done|]. destruct (Z.eqb_spec sfi 5); lia. }
  destruct (Z.leb_spec 1024 n), (Z.ltb_spec sfi 5); try lia; cbn [andb].
  - destruct (IH (n / 1024) (sfi + 1) (n mod 1024)) as (n' & s' & f' & -> & ?).
    + lia.
    + split; [apply Z.div_pos; lia|]. apply Z.div_lt_upper_bound; [lia|].
      rewrite Nat2Z.inj_succ, Z.pow_succ_r in Hn by lia. lia.
    + apply Z.mod_pos_bound. lia.
    + exists n', s', f'. split; [done|]. lia.
  - exists n, sfi, fr. split; [done|]. destruct (Z.eqb_spec sfi 5); lia.
Qed.

Lemma emits_i64_nat n : 0 <= n < 2 ^ 63 -> Emits no_data (fun m p e => fmti64 m p e n) (dec n).
Proof.
  intros Hn m p e He Hm _. rewrite fmti64_spec by (done || lia).
  unfold dec_signed. by destruct (Z.ltb_spec n 0); [lia|].
Qed.

Lemma length_dec_le n k : 0 <= n < 10 ^ k -> 1 <= k -> zlen (dec n) <= k.
Proof. intros. rewrite length_dec. by apply ndigits_le. Qed.

(** A number and a suffix. *)
Lemma emits_size n (sfi : Z) f :
  Emits no_data f (dec n) -> 0 <= sfi <= 5 ->
  exists c, Emits no_data (fun m p e =>
    '(m, p) ← f m p e; c ← zget sfx sfi; fmtchar m p e c) (dec n ++ [c]).
Proof.
  intros Hf Hs. destruct (zget_lt_is_Some sfx sfi) as [c Hc]; [simpl; lia|].
  exists c. intros m p e He Hm HP.
  apply (emit_bind no_data f); [done..|]. intros m' p' He' Hm' _.
  rewrite Hc. cbn [mbind option_bind]. apply emits_char; [|done..].
  assert (Forall (fun x => 0 <= x < 256) sfx) as HF by decide_now.
  unfold zget in Hc. case_decide; [|done]. rewrite Forall_lookup in HF. by eapply HF.
Qed.

(** ** Properties *)



(** The sign of a negative number is stored without testing the end of the
    buffer: on a full buffer ([p = e]) [fmtint] accesses the byte at [e], which
    is a fault when nothing is mapped there. *)
Theorem fmtint_minus_overrun m e n :
  - 2 ^ 31 < n < 0 -> m !! e = None -> fmtint m e e n = None.
Proof.
  intros Hn He. unfold fmtint, fmti32. destruct (Z.ltb_spec n 0); [|lia].
  rewrite swrap_small by lia. rewrite uwrap_small by lia.
  unfold fmtint64, len_fuel.
  rewrite dec_len_spec; [|split; [lia|]; eapply (Z.lt_trans _ (2 ^ 31)); [lia|reflexivity]].
  cbn [mbind option_bind Z.b2z]. set (k := ndigits 10 (- n)).
  destruct (ndigits_spec 10 (- n)) as (Hk & _ & _); [lia|lia|]. fold k in Hk.
  assert (forall j m q num, e <= q - Z.of_nat j -> dec_put j m q e num = Some (m, q - Z.of_nat j))
    as Hput.
  { induction j as [|j IH]; intros m' q num Hq; cbn [dec_put].
    - do 2 f_equal. lia.
    - destruct (Z.ltb_spec q e); [lia|]. cbn [mbind option_bind].
      rewrite IH by lia. do 2 f_equal. lia. }
  rewrite Hput by lia. cbn [mbind option_bind].
  replace (e + (1 + Z.of_nat k - 1) + 1 - 1 - Z.of_nat (Z.to_nat (1 + Z.of_nat k - 1))) with e
    by lia.
  unfold st8. by rewrite He.
Qed.

Lemma fmtint_minus_overrun_witness : fmtint (poke ∅ 16 [0; 0]) 18 18 (-5) = None.
Proof. apply (fmtint_minus_overrun _ 18 (-5)); [lia|reflexivity]. Defined.

(** [fmtpad] right-aligns a text that fits: the [q - p] bytes already
    formatted at [p] end up preceded by [width - (q - p)] spaces, the position
    returned is [p + width], nothing else changes; a text as wide as the field
    or wider is left alone. *)
Theorem fmtpad_aligns m p e width q t :
  p <= q -> q <= e -> p + Z.max width (q - p) <= e ->
  mapped m p (Z.max width (q - p)) -> bytes_at m p t -> zlen t = q - p -> mem_ok m ->
  fmtpad m p e width q =
  Some (poke m p (replicate (Z.to_nat (width - (q - p))) 32 ++ t), p + Z.max width (q - p)).
Proof.
  intros Hpq Hqe Hw Hm Ht Hl Hok. unfold fmtpad.
  destruct (Z.ltb_spec q p), (Z.ltb_spec e q); try lia. cbn [orb].
  destruct (Z.ltb_spec (width - (q - p)) 0).
  - replace (Z.to_nat (width - (q - p))) with 0%nat by lia. simpl.
    f_equal. f_equal; [|lia]. apply map_eq. intros a. rewrite lookup_poke.
    case_decide; [|done]. rewrite bytes_at_zget in Ht.
    destruct (zget_lt_is_Some t (a - p)) as [b Hb]; [lia|]. rewrite Hb.
    rewrite <- (Ht _ _ Hb). f_equal. lia.
  - rewrite (pad_spec m p e q (width - (q - p)) t 32); try done; try lia.
    + do 2 f_equal. lia.
    + eapply mapped_sub; [done|lia|lia].
Qed.

(** "42" in a field of five. *)
Lemma fmtpad_aligns_witness :
  let m := poke ∅ 16 [52; 50; 0; 0; 0; 0] in
  fmtpad m 16 22 5 18 =
  Some (poke m 16 (replicate (Z.to_nat (5 - (18 - 16))) 32 ++ [52; 50]), 16 + Z.max 5 (18 - 16)).
Proof.
  apply (fmtpad_aligns _ 16 22 5 18 [52; 50]);
    [lia|lia|lia|decide_now|decide_now|reflexivity|decide_now].
Defined.

(** Padding that does not fit is written past the end of the buffer: when
    the field starts its text beyond [e], [fmtpad] stores a space at
    [p + shift - 1], at or after [e], and faults when nothing is mapped there. *)
Theorem fmtpad_overrun m p e width q :
  p <= q <= e -> e < p + (width - (q - p)) -> (forall a, e <= a -> m !! a = None) ->
  fmtpad m p e width q = None.
Proof.
  intros Hq Hs Hm. unfold fmtpad.
  destruct (Z.ltb_spec q p), (Z.ltb_spec e q); try lia. cbn [orb].
  destruct (Z.ltb_spec (width - (q - p)) 0); [lia|].
  rewrite pad_shift_beyond by lia. cbn [mbind option_bind].
  destruct (Z.to_nat (width - (q - p))) as [|n] eqn:Hn; [lia|]. cbn [pad_fill].
  destruct (Z.leb_spec p (p + (width - (q - p)) - 1)); [|lia].
  unfold st8. by rewrite Hm by lia.
Qed.

Lemma fmtpad_overrun_witness : fmtpad (poke ∅ 16 [52; 0; 0; 0]) 16 20 10 17 = None.
Proof.
  apply (fmtpad_overrun _ 16 20 10 17); [lia|lia|]. intros a Ha.
  rewrite lookup_poke_out; [apply lookup_empty|simpl; lia].
Defined.

(** A number below 10^5 takes one to five characters. *)
Lemma length_dec_5 x : 0 <= x < 100000 -> (1 <= length (dec x) <= 5)%nat.
Proof.
  intros Hx. pose proof (length_dec_le x 5 Hx ltac:(lia)).
  destruct (ndigits_spec 10 x) as (? & _ & _); [lia|lia|]. rewrite length_dec in *. lia.
Qed.

(** The branch of [fmtsize] with one decimal, "n.fX". *)
Lemma fmtsize_short n fr sfi :
  0 <= n < 10 -> 0 <= fr < 1024 -> 0 <= sfi <= 5 ->
  exists s, (1 <= length s <= 6)%nat /\
    Emits no_data (fun m p e =>
      '(m, p) ← (let fr := ((fr * 100) / 1024 + 5) / 10 in
        let '(n, fr) := if 10 <=? fr then (n + 1, 0) else (n, fr) in
        '(m, p) ← fmti64 m p e n;
        '(m, p) ← fmtchar m p e 46;
        fmtchar m p e (48 + fr));
      c ← zget sfx sfi; fmtchar m p e c) s.
Proof.
  intros Hn Hf Hs. cbv zeta. set (f := (fr * 100 / 1024 + 5) / 10).
  assert (0 <= fr * 100 / 1024) by (apply Z.div_pos; lia).
  assert (0 <= f) by (apply Z.div_pos; lia).
  destruct (if 10 <=? f then (n + 1, 0) else (n, f)) as [n' f'] eqn:Hnf.
  assert (0 <= n' <= 10 /\ 0 <= f' < 10) as [Hn' Hf'].
  { destruct (Z.leb_spec 10 f); simplify_eq; lia. }
  destruct (zget_lt_is_Some sfx sfi) as [c Hc]; [simpl; lia|].
  assert (0 <= c < 256) as Hcb.
  { assert (Forall (fun x => 0 <= x < 256) sfx) as HF by decide_now.
    unfold zget in Hc. case_decide; [|done]. rewrite Forall_lookup in HF. by eapply HF. }
  exists ((dec n' ++ [46] ++ [48 + f']) ++ [c]). split.
  { rewrite !length_app. simpl. pose proof (length_dec_le n' 2 ltac:(lia) ltac:(lia)).
    lia. }
  intros m p e He Hm HP. rewrite Hc.
  apply (emit_bind no_data (fun m p e => '(m, p) ← fmti64 m p e n';
    '(m, p) ← fmtchar m p e 46; fmtchar m p e (48 + f'))); [|done..|].
  - clear m p e He Hm HP. intros m p e He Hm HP.
    apply (emit_bind no_data (fun m p e => fmti64 m p e n')); [apply emits_i64_nat; lia|done..|].
    clear m p He Hm HP. intros m p He Hm HP.
    apply (emit_bind no_data (fun m p e => fmtchar m p e 46)); [apply emits_char; lia|done..|].
    clear m p He Hm HP. intros m p He Hm HP. apply emits_char; done || lia.
  - clear m p He Hm HP. intros m p He Hm HP. cbn [mbind option_bind].
    by apply emits_char.
Qed.

(** [fmtsize] never overruns: for every 64-bit size it stores a text of at
    most six characters, cut at the end of the buffer. *)
Theorem fmtsize_bounded n :
  0 <= n < 2 ^ 64 ->
  exists s, (1 <= length s <= 6)%nat /\ Emits no_data (fun m p e => fmtsize m p e n) s.
Proof.
  intros Hn. unfold fmtsize.
  destruct (size_scale_spec 5 n 0 0) as (n' & sfi & fr & -> & Hs & Hf & Hn');
    [lia|split; [lia|apply Hn]|lia|].
  cbn [mbind option_bind].
  assert (0 <= n' < 16384) as Hn16 by (case_match; lia).
  set (r := if 512 <=? fr then n' + 1 else n').
  clear Hn'.
  assert (0 <= r < 100000) as Hr by (unfold r; case_match; lia).
  destruct (Z.ltb_spec sfi 1).
  { exists (dec n'). split; [|apply emits_u64; lia].
    pose proof (length_dec_5 n'). lia. }
  assert (forall k f, 0 <= k <= 5 -> Emits no_data f (dec r) -> exists s,
    (1 <= length s <= 6)%nat /\
    Emits no_data (fun m p e => '(m, p) ← f m p e; c ← zget sfx k; fmtchar m p e c) s)
    as Hsize.
  { intros k f Hk Hfm. destruct (emits_size r k f Hfm Hk) as [c Hc].
    eexists. split; [|exact Hc]. rewrite length_app. simpl.
    pose proof (length_dec_5 r Hr). lia. }
  destruct (Z.eqb_spec sfi 1) as [->|]; [apply Hsize; [lia|apply emits_u64; lia]|].
  destruct (Z.ltb_spec n' 1024); [|apply Hsize; [lia|apply emits_u64; lia]].
  destruct (Z.leb_spec 10 n'); [apply Hsize; [lia|apply emits_i64_nat; lia]|].
  apply fmtsize_short; lia.
Qed.

Lemma fmtsize_bounded_witness :
  exists s, (1 <= length s <= 6)%nat /\ Emits no_data (fun m p e => fmtsize m p e 123456789) s.
Proof. apply (fmtsize_bounded 123456789). lia. Defined.
