(* ===== verification/Parse.v ===== *)
(** * lib/format, input side: parsing numbers and addresses

    A parser takes the position of a NUL-terminated string and returns the
    position after what it consumed, or [NULL] (0).  A parser of numbers also
    takes and returns the current value of [*np], which it leaves alone on
    failure.  Arithmetic wraps at the width of the result type. *)
From S2P Require Import Prelude Mem Str Fmt.

(** ** Numbers *)

(** [lib/format/parseint.c: parseint 8-12] the digit loop shared by the decimal
    and octal parsers; [base] is 10 or 8 and [conv] the result type. *)
Fixpoint digits_loop (conv : Z -> Z) (base : Z) (fuel : nat) (m : mem) (p : ptr) (n : Z)
    : option (ptr * Z) :=
  match fuel with
  | O => None
  | S fuel =>
      c ← ld8 m p;
      if negb (c =? 0) then
        let d := s8 c - 48 in
        if (48 <=? s8 c) && (d <? base)
        then digits_loop conv base fuel m (p + 1) (conv (n * base + d))
        else Some (p, n)
      else Some (p, n)
  end.

(** The body common to the parsers of numbers: [loop] from [buf], failing when
    nothing is consumed. *)
Definition parse_with (loop : mem -> ptr -> Z -> option (ptr * Z))
    (m : mem) (buf : ptr) (np : Z) : option (ptr * Z) :=
  '(p, n) ← loop m buf 0;
  if p =? buf then Some (0, np) else Some (p, n).

(** [lib/format/parseint.c: parseint] *)
Definition parseint (m : mem) (buf : ptr) (np : Z) : option (ptr * Z) :=
  parse_with (digits_loop s32 10 (str_fuel m)) m buf np.

(** [lib/format/parseuint.c: parseuint] *)
Definition parseuint (m : mem) (buf : ptr) (np : Z) : option (ptr * Z) :=
  parse_with (digits_loop u32 10 (str_fuel m)) m buf np.

(** [lib/format/parselong.c: parselong] *)
Definition parselong (m : mem) (buf : ptr) (np : Z) : option (ptr * Z) :=
  parse_with (digits_loop s64 10 (str_fuel m)) m buf np.

(** [lib/format/parseulong.c: parseulong] *)
Definition parseulong (m : mem) (buf : ptr) (np : Z) : option (ptr * Z) :=
  parse_with (digits_loop u64 10 (str_fuel m)) m buf np.

(** [lib/format/parseint64.c: parseu64] *)
Definition parseu64 (m : mem) (buf : ptr) (np : Z) : option (ptr * Z) :=
  parse_with (digits_loop u64 10 (str_fuel m)) m buf np.

(** [lib/format/parseoct.c: parseoct] *)
Definition parseoct (m : mem) (buf : ptr) (np : Z) : option (ptr * Z) :=
  parse_with (digits_loop s32 8 (str_fuel m)) m buf np.

(** [lib/format/parsehex.c: parsehex 8-16] *)
Fixpoint hex_loop (conv : Z -> Z) (fuel : nat) (m : mem) (p : ptr) (n : Z)
    : option (ptr * Z) :=
  match fuel with
  | O => None
  | S fuel =>
      c ← ld8 m p;
      if negb (c =? 0) then
        let c := s8 c in
        if (48 <=? c) && (c - 48 <? 10)
        then hex_loop conv fuel m (p + 1) (conv (n * 16 + (c - 48)))
        else if (97 <=? c) && (c - 97 <? 6)
        then hex_loop conv fuel m (p + 1) (conv (n * 16 + 10 + (c - 97)))
        else if (65 <=? c) && (c - 65 <? 6)
        then hex_loop conv fuel m (p + 1) (conv (n * 16 + 10 + (c - 65)))
        else Some (p, n)
      else Some (p, n)
  end.

(** [lib/format/parsehex.c: parsehex] *)
Definition parsehex (m : mem) (buf : ptr) (np : Z) : option (ptr * Z) :=
  parse_with (hex_loop s32 (str_fuel m)) m buf np.

(** [lib/format/parsexlong.c: parsexlong] *)
Definition parsexlong (m : mem) (buf : ptr) (np : Z) : option (ptr * Z) :=
  parse_with (hex_loop u64 (str_fuel m)) m buf np.

(** ** Bytes and addresses *)

(** [lib/format/parsebyte.c: hexdigit] *)
Definition hexdigit (c : Z) : Z :=
  let c := s8 c in
  if (48 <=? c) && (c <=? 57) then c - 48
  else if (97 <=? c) && (c <=? 102) then c - 97 + 10
  else if (65 <=? c) && (c <=? 70) then c - 65 + 10
  else -1.

(** [lib/format/parsebyte.c: parsebyte] *)
Definition parsebyte (m : mem) (p : ptr) (v : ptr) : option (mem * ptr) :=
  c ← ld8 m p;
  let q := hexdigit c in
  if q <? 0 then Some (m, 0)
  else
    let r := Z.shiftl q 4 in
    let p := p + 1 in
    c ← ld8 m p;
    let q := hexdigit c in
    if q <? 0 then Some (m, 0)
    else m ← st8 m v (Z.lor r q); Some (m, p + 1).

(** [lib/format/parsebytes.c: parsebytes 8-9] *)
Fixpoint parsebytes_loop (len : nat) (m : mem) (p q : ptr) : option (mem * ptr) :=
  match len with
  | O => Some (m, p)
  | S len =>
      if p =? 0 then Some (m, p)
      else '(m, p) ← parsebyte m p q; parsebytes_loop len m p (q + 1)
  end.

(** [lib/format/parsebytes.c: parsebytes] *)
Definition parsebytes (m : mem) (p dst : ptr) (len : Z) : option (mem * ptr) :=
  parsebytes_loop (Z.to_nat len) m p dst.

(** [lib/format/parsemac.c: parsemac 8-18] *)
Fixpoint parsemac_loop (fuel : nat) (m : mem) (p mac : ptr) (i : Z) : option (mem * ptr) :=
  if i <? 6 then
    match fuel with
    | O => None
    | S fuel =>
        '(m, p) ← parsebyte m p (mac + i);
        if p =? 0 then Some (m, p)
        else if i =? 5 then Some (m, p)
        else
          c ← ld8 m p;
          if negb (c =? 58) then Some (m, 0)
          else parsemac_loop fuel m (p + 1) mac (i + 1)
    end
  else Some (m, p).

(** [lib/format/parsemac.c: parsemac] *)
Definition parsemac (m : mem) (p mac : ptr) : option (mem * ptr) :=
  parsemac_loop 6 m p mac 0.

(** [lib/format/parseip.c: parseip 8-20] [n] is the local the parser fills *)
Fixpoint parseip_loop (fuel : nat) (m : mem) (p ip : ptr) (i n : Z) : option (mem * ptr) :=
  if i <? 4 then
    match fuel with
    | O => None
    | S fuel =>
        c ← (if negb (i =? 0) then ld8 m p else Some 46);
        if negb (i =? 0) && negb (c =? 46) then Some (m, 0)
        else
          let p := if negb (i =? 0) then p + 1 else p in
          '(p, n) ← parseint m p n;
          if p =? 0 then Some (m, 0)
          else if (n <? 0) || (255 <? n) then Some (m, 0)
          else m ← st8 m (ip + i) n; parseip_loop fuel m p ip (i + 1) n
    end
  else Some (m, p).

(** [lib/format/parseip.c: parseip] *)
Definition parseip (m : mem) (p ip : ptr) : option (mem * ptr) :=
  parseip_loop 4 m p ip 0 0.

(** [lib/format/parseipmask.c: parseipmask]  [n] is not initialised: its value
    is an argument of the model. *)
Definition parseipmask (n : Z) (m : mem) (p ip mask : ptr) : option (mem * ptr) :=
  '(m, p) ← parseip m p ip;
  if p =? 0 then Some (m, p)
  else
    c ← ld8 m p;
    if c =? 47 then
      '(p, n) ← parseint m (p + 1) n;
      if (n <? 0) || (32 <? n) then Some (m, 0)
      else m ← st8 m mask n; Some (m, p)
    else m ← st8 m mask 32; Some (m, p).

(** ** Digit strings *)

(** Characters that end a number. *)
Definition ends_number (base c : Z) : Prop := c = 0 \/ ~ (48 <= s8 c < 48 + base).

Lemma s8_ascii c : 0 <= c < 128 -> s8 c = c.
Proof. intros. apply swrap_small; lia. Qed.

Lemma foldl_digits_ge b ds n :
  1 <= b -> 0 <= n -> Forall (fun d => 0 <= d < b) ds ->
  n <= foldl (fun a d => a * b + d) n ds.
Proof.
  intros Hb Hn HF. revert n Hn. induction HF as [|d ds Hd HF IH]; intros n Hn; simpl; [lia|].
  specialize (IH (n * b + d)). nia.
Qed.

(** The loop reads a digit string, up to the first character that is not a
    digit, and computes its value as long as the value fits the type. *)
Lemma digits_loop_spec conv base lim fuel m p n ds t :
  1 < base <= 10 -> (forall x, 0 <= x < lim -> conv x = x) ->
  Forall (fun d => 0 <= d < base) ds ->
  bytes_at m p ((dec_glyph <$> ds) ++ [t]) -> ends_number base t ->
  0 <= n -> foldl (fun a d => a * base + d) n ds < lim -> (length ds < fuel)%nat ->
  digits_loop conv base fuel m p n =
  Some (p + zlen ds, foldl (fun a d => a * base + d) n ds).
Proof.
  intros Hbase Hconv HF. revert fuel p n.
  induction HF as [|d ds Hd HF IH]; intros fuel p n Hb Ht Hn Hlim Hfuel;
    (destruct fuel as [|fuel]; [simpl in Hfuel; lia|]); cbn [digits_loop].
  - simpl in Hb. apply bytes_at_cons in Hb as [Hc _]. unfold ld8. rewrite Hc.
    cbn [mbind option_bind]. simpl foldl. rewrite Z.add_0_r.
    destruct (Z.eqb_spec t 0); [done|]. cbn [negb].
    destruct Ht as [|Ht]; [done|].
    destruct (Z.leb_spec 48 (s8 t)), (Z.ltb_spec (s8 t - 48) base); try done. lia.
  - rewrite fmap_cons in Hb. cbn [app] in Hb. apply bytes_at_cons in Hb as [Hc Hb].
    unfold ld8. rewrite Hc. cbn [mbind option_bind]. unfold dec_glyph at 1 2 3 4.
    destruct (Z.eqb_spec (48 + d) 0); [lia|]. cbn [negb].
    rewrite s8_ascii by lia. destruct (Z.leb_spec 48 (48 + d)); [|lia].
    replace (48 + d - 48) with d by lia. destruct (Z.ltb_spec d base); [|lia].
    cbn [andb]. simpl foldl in *. simpl length in *.
    pose proof (foldl_digits_ge base ds (n * base + d) ltac:(lia) ltac:(nia) HF).
    rewrite Hconv by nia. rewrite IH; [|done|done|nia|done|lia].
    f_equal. f_equal. lia.
Qed.

(** The loops never run off a terminated string. *)
Lemma bytes_at_fuel m p l t : bytes_at m p (l ++ [t]) -> (length l < str_fuel m)%nat.
Proof.
  intros H%bytes_at_size. rewrite length_app in H. simpl in H. unfold str_fuel. lia.
Qed.

Lemma parse_dec_spec conv lim m p np n t :
  (forall x, 0 <= x < lim -> conv x = x) -> 0 <= n < lim ->
  bytes_at m p (dec n ++ [t]) -> ends_number 10 t ->
  parse_with (digits_loop conv 10 (str_fuel m)) m p np = Some (p + zlen (dec n), n).
Proof.
  intros Hconv Hn Hb Ht. unfold parse_with.
  pose proof (bytes_at_fuel _ _ _ _ Hb) as Hf. rewrite length_dec in *.
  pose proof (value_numeral 10 n ltac:(lia) ltac:(lia)) as Hv. unfold value in Hv.
  rewrite (digits_loop_spec conv 10 lim _ _ _ _ (digits 10 (ndigits 10 n) n) t);
    [|lia|done|by apply digits_range|done|done|lia|lia|by rewrite length_digits].
  cbn [mbind option_bind]. rewrite Hv, length_digits.
  destruct (ndigits_spec 10 n) as (? & _ & _); [lia|lia|].
  destruct (Z.eqb_spec (p + Z.of_nat (ndigits 10 n)) p); [lia|done].
Qed.

(** Hexadecimal digits, as [fmtx64] and [fmtbyte] write them. *)
Lemma hex_glyph_cases d : 0 <= d < 16 ->
  hex_glyph d = if d <? 10 then 48 + d else 65 + (d - 10).
Proof.
  revert d. apply (range_check _ 0 16). vm_compute. reflexivity.
Qed.

Definition ends_hex (c : Z) : Prop :=
  c = 0 \/ ~ (48 <= s8 c < 58 \/ 97 <= s8 c < 103 \/ 65 <= s8 c < 71).

Lemma hex_loop_spec conv lim fuel m p n ds t :
  (forall x, 0 <= x < lim -> conv x = x) -> Forall (fun d => 0 <= d < 16) ds ->
  bytes_at m p ((hex_glyph <$> ds) ++ [t]) -> ends_hex t ->
  0 <= n -> foldl (fun a d => a * 16 + d) n ds < lim -> (length ds < fuel)%nat ->
  hex_loop conv fuel m p n = Some (p + zlen ds, foldl (fun a d => a * 16 + d) n ds).
Proof.
  intros Hconv HF. revert fuel p n.
  induction HF as [|d ds Hd HF IH]; intros fuel p n Hb Ht Hn Hlim Hfuel;
    (destruct fuel as [|fuel]; [simpl in Hfuel; lia|]); cbn [hex_loop].
  - simpl in Hb. apply bytes_at_cons in Hb as [Hc _]. unfold ld8. rewrite Hc.
    cbn [mbind option_bind]. simpl foldl. rewrite Z.add_0_r.
    destruct (Z.eqb_spec t 0); [done|]. cbn [negb].
    destruct Ht as [|Ht]; [done|]. zcases; done.
  - rewrite fmap_cons in Hb. cbn [app] in Hb. apply bytes_at_cons in Hb as [Hc Hb].
    unfold ld8. rewrite Hc, hex_glyph_cases by done. cbn [mbind option_bind].
    simpl foldl in *. simpl length in *.
    pose proof (foldl_digits_ge 16 ds (n * 16 + d) ltac:(lia) ltac:(nia) HF).
    assert (hex_loop conv fuel m (p + 1) (conv (n * 16 + d)) =
      Some (p + Z.of_nat (S (length ds)), foldl (fun a d => a * 16 + d) (n * 16 + d) ds)) as IH'.
    { rewrite Hconv by nia. rewrite IH; [|done|done|nia|done|lia]. f_equal. f_equal. lia. }
    destruct (Z.ltb_spec d 10).
    + destruct (Z.eqb_spec (48 + d) 0); [lia|]. cbn [negb]. rewrite s8_ascii by lia.
      replace (48 + d - 48) with d by lia. zcases. cbn [andb]. done.
    + destruct (Z.eqb_spec (65 + (d - 10)) 0); [lia|]. cbn [negb].
      rewrite s8_ascii by lia. zcases. cbn [andb].
      by replace (n * 16 + 10 + (65 + (d - 10) - 65)) with (n * 16 + d) by lia.
Qed.

Lemma parse_hex_spec conv lim m p np n t :
  (forall x, 0 <= x < lim -> conv x = x) -> 0 <= n < lim ->
  bytes_at m p (hex n ++ [t]) -> ends_hex t ->
  parse_with (hex_loop conv (str_fuel m)) m p np = Some (p + zlen (hex n), n).
Proof.
  intros Hconv Hn Hb Ht. unfold parse_with.
  pose proof (bytes_at_fuel _ _ _ _ Hb) as Hf. rewrite length_hex in *.
  pose proof (value_numeral 16 n ltac:(lia) ltac:(lia)) as Hv. unfold value in Hv.
  rewrite (hex_loop_spec conv lim _ _ _ _ (digits 16 (ndigits 16 n) n) t);
    [|done|by apply digits_range|done|done|lia|lia|by rewrite length_digits].
  cbn [mbind option_bind]. rewrite Hv, length_digits.
  destruct (ndigits_spec 16 n) as (? & _ & _); [lia|lia|].
  destruct (Z.eqb_spec (p + Z.of_nat (ndigits 16 n)) p); [lia|done].
Qed.

(** ** Round trips *)

Lemma hexdigit_glyph d : 0 <= d < 16 -> hexdigit (hex_glyph d) = d.
Proof. revert d. apply (range_check _ 0 16). vm_compute. reflexivity. Qed.

Lemma nibbles_join b : 0 <= b < 256 ->
  Z.lor (Z.shiftl (b / 16 mod 16) 4) (b mod 16) = b.
Proof. revert b. apply (range_check _ 0 256). vm_compute. reflexivity. Qed.

Lemma parsebyte_hexbyte m p v b :
  bytes_at m p (hexbyte b) -> 0 <= b < 256 -> is_Some (m !! v) ->
  parsebyte m p v = Some (<[v := b]> m, p + 2).
Proof.
  intros Hb Hr Hv. unfold hexbyte in Hb.
  apply bytes_at_cons in Hb as [H1 Hb]. apply bytes_at_cons in Hb as [H2 _].
  unfold parsebyte, ld8. rewrite H1. cbn [mbind option_bind].
  pose proof (Z.mod_pos_bound (b / 16) 16 ltac:(lia)).
  pose proof (Z.mod_pos_bound b 16 ltac:(lia)).
  rewrite !hexdigit_glyph by done. destruct (Z.ltb_spec (b / 16 mod 16) 0); [lia|].
  rewrite H2. cbn [mbind option_bind]. rewrite hexdigit_glyph by done.
  destruct (Z.ltb_spec (b mod 16) 0); [lia|].
  rewrite st8_mapped by done. cbn [mbind option_bind].
  rewrite nibbles_join, u8_byte by done. f_equal. f_equal. lia.
Qed.

Lemma length_bytes_text l : zlen (l ≫= hexbyte) = 2 * zlen l.
Proof.
  induction l as [|b l IH]; [done|].
  change ((b :: l) ≫= hexbyte) with (hexbyte b ++ (l ≫= hexbyte)).
  rewrite length_app. simpl length. lia.
Qed.

Lemma parsebytes_loop_spec l m p q :
  0 < p -> is_bytes l -> bytes_at m p (l ≫= hexbyte) -> mapped m q (zlen l) ->
  (q + zlen l <= p \/ p + 2 * zlen l <= q) ->
  parsebytes_loop (length l) m p q = Some (poke m q l, p + 2 * zlen l).
Proof.
  intros Hp HF. revert m p q Hp. induction HF as [|b l Hb HF IH];
    intros m p q Hp Ht Hm Hd; cbn [length parsebytes_loop].
  { simpl. do 2 f_equal. lia. }
  destruct (Z.eqb_spec p 0); [lia|]. simpl length in *.
  change ((b :: l) ≫= hexbyte) with (hexbyte b ++ (l ≫= hexbyte)) in Ht.
  apply bytes_at_app in Ht as [Hbt Ht]. simpl length in Ht.
  rewrite (parsebyte_hexbyte _ _ _ b) by (done || apply Hm; lia).
  cbn [mbind option_bind]. rewrite IH.
  - rewrite poke_cons. do 2 f_equal. lia.
  - lia.
  - apply bytes_at_insert_apart; [|done]. rewrite length_bytes_text. lia.
  - intros a Ha. apply is_Some_insert, Hm. lia.
  - lia.
Qed.

(** A formatted text that fits, and its terminator, are in memory. *)
Lemma emit_terminated m p e s m' q :
  mapped m p (e - p) -> zlen s < e - p -> emit m p e s = (m', q) ->
  exists m'', st8 m' q 0 = Some m'' /\ m'' = poke m p (s ++ [0]) /\
    bytes_at m'' p (s ++ [0]) /\ q = p + zlen s.
Proof.
  intros Hm Hs. rewrite emit_fits by lia. intros [= <- <-].
  exists (poke m p (s ++ [0])). rewrite st8_mapped by (apply poke_is_Some, Hm; lia).
  rewrite u8_byte by lia. rewrite poke_app. simpl.
  split; [done|]. split; [done|]. split; [|done].
  change (<[p + zlen s := 0]> (poke m p s)) with (poke (poke m p s) (p + zlen s) [0]).
  rewrite <- poke_app. apply bytes_at_poke.
Qed.

(** C37. Unsigned numbers survive a round trip: formatting any 64-bit value
    with [fmtulong] into a buffer with room for it, terminating the string and
    parsing it back with [parseulong] gives the same value and the position of
    the terminator; [fmtxlong]/[parsexlong] likewise. *)
Theorem parseulong_fmtulong m p e n np :
  0 < p -> mapped m p (e - p) -> 0 <= n < 2 ^ 64 ->
  zlen (dec n) < e - p -> zlen (hex n) < e - p ->
  (exists m1 q m2, fmtulong m p e n = Some (m1, q) /\ st8 m1 q 0 = Some m2 /\
     parseulong m2 p np = Some (q, n)) /\
  (exists m1 q m2, fmtx64 m p e n = Some (m1, q) /\ st8 m1 q 0 = Some m2 /\
     parsexlong m2 p np = Some (q, n)).
Proof.
  intros Hp Hm Hn Hd Hx.
  assert (forall x, 0 <= x < 2 ^ 64 -> u64 x = x) as Hconv by (intros; by apply uwrap_small).
  split.
  - destruct (emit m p e (dec n)) as [m1 q] eqn:E. exists m1, q.
    destruct (emit_terminated _ _ _ _ _ _ Hm Hd E) as (m2 & Hst & _ & Hb & ->).
    exists m2. unfold fmtulong. rewrite emits_u64 by (done || lia). rewrite E.
    split; [done|]. split; [done|]. unfold parseulong.
    apply (parse_dec_spec u64 (2 ^ 64) _ _ _ _ 0); [done|done|done|by left].
  - destruct (emit m p e (hex n)) as [m1 q] eqn:E. exists m1, q.
    destruct (emit_terminated _ _ _ _ _ _ Hm Hx E) as (m2 & Hst & _ & Hb & ->).
    exists m2. rewrite emits_x64 by (done || lia). rewrite E.
    split; [done|]. split; [done|]. unfold parsexlong.
    apply (parse_hex_spec u64 (2 ^ 64) _ _ _ _ 0); [done|done|done|by left].
Qed.

Lemma parseulong_fmtulong_witness :
  let m := poke ∅ 16 (replicate 8 0) in
  (exists m1 q m2, fmtulong m 16 24 4096 = Some (m1, q) /\ st8 m1 q 0 = Some m2 /\
     parseulong m2 16 7 = Some (q, 4096)) /\
  (exists m1 q m2, fmtx64 m 16 24 4096 = Some (m1, q) /\ st8 m1 q 0 = Some m2 /\
     parsexlong m2 16 7 = Some (q, 4096)).
Proof.
  apply (parseulong_fmtulong _ 16 24 4096 7);
    [lia|decide_now|lia|vm_compute; reflexivity|vm_compute; reflexivity].
Defined.

(** ** Network addresses *)

Definition dotted (l : list Z) : list Z := l ≫= fun b => 46 :: dec b.

Lemma parseint_dec m p np n t :
  0 <= n < 2 ^ 31 -> bytes_at m p (dec n ++ [t]) -> ends_number 10 t ->
  parseint m p np = Some (p + zlen (dec n), n).
Proof.
  intros. apply (parse_dec_spec s32 (2 ^ 31) _ _ _ _ t); [|done..].
  intros x Hx. apply swrap_small; lia.
Qed.

Lemma ends_dot : ends_number 10 46.
Proof. right. vm_compute. intuition congruence. Qed.

Lemma dotted_cons b l : dotted (b :: l) = 46 :: dec b ++ dotted l.
Proof. done. Qed.

(** The text after a number in an address starts with a dot or the terminator. *)
Lemma dotted_next m p n l :
  bytes_at m p (dec n ++ dotted l ++ [0]) ->
  exists t, ends_number 10 t /\ bytes_at m p (dec n ++ [t]).
Proof.
  intros H. apply bytes_at_app in H as [Hd H]. destruct l as [|b l].
  - exists 0. split; [by left|]. by apply bytes_at_app.
  - exists 46. split; [apply ends_dot|]. apply bytes_at_app. split; [done|].
    rewrite dotted_cons in H. cbn [app] in H. apply bytes_at_cons in H as [H _].
    apply bytes_at_cons. split; [done|apply bytes_at_nil].
Qed.

Lemma parseip_loop_spec l m p ip i n0 :
  0 < p -> 0 < i -> i + zlen l = 4 -> is_bytes l -> mapped m (ip + i) (zlen l) ->
  bytes_at m p (dotted l ++ [0]) ->
  (ip + 4 <= p \/ p + zlen (dotted l) < ip) ->
  parseip_loop (length l) m p ip i n0 = Some (poke m (ip + i) l, p + zlen (dotted l)).
Proof.
  intros Hp Hi Hl HF. revert m p i n0 Hp Hi Hl. induction HF as [|b l Hb HF IH];
    intros m p i n0 Hp Hi Hl Hm Ht Hd; cbn [length parseip_loop] in *.
  { destruct (Z.ltb_spec i 4); [lia|]. simpl. do 2 f_equal. lia. }
  destruct (Z.ltb_spec i 4); [|lia]. rewrite dotted_cons in *. cbn [app] in Ht.
  apply bytes_at_cons in Ht as [H46 Ht]. destruct (Z.eqb_spec i 0); [lia|].
  cbn [negb]. unfold ld8. rewrite H46. cbn [mbind option_bind andb negb Z.eqb Pos.eqb].
  rewrite <- app_assoc in Ht. destruct (dotted_next _ _ _ _ Ht) as (t & Hends & Hdec).
  rewrite (parseint_dec _ _ _ b t) by (done || lia). cbn [mbind option_bind].
  destruct (Z.eqb_spec (p + 1 + zlen (dec b)) 0); [lia|].
  destruct (Z.ltb_spec b 0), (Z.ltb_spec 255 b); try lia. cbn [orb].
  rewrite st8_mapped by (apply Hm; lia). cbn [mbind option_bind]. rewrite u8_byte by done.
  simpl length in Hd. rewrite length_app in Hd.
  apply bytes_at_app in Ht as [_ Ht]. rewrite IH.
  - rewrite poke_cons. simpl length. rewrite length_app.
    f_equal. f_equal; [f_equal|]; lia.
  - lia.
  - lia.
  - lia.
  - intros a Ha. apply is_Some_insert, Hm. lia.
  - apply bytes_at_insert_apart; [|done]. rewrite length_app. simpl length. lia.
  - lia.
Qed.

Lemma parseip_text m p ip a b c d :
  0 < p -> is_bytes [a; b; c; d] -> mapped m ip 4 ->
  bytes_at m p (ip_text [a; b; c; d] ++ [0]) ->
  (ip + 4 <= p \/ p + zlen (ip_text [a; b; c; d]) < ip) ->
  parseip m p ip = Some (poke m ip [a; b; c; d], p + zlen (ip_text [a; b; c; d])).
Proof.
  intros Hp HF Hm Ht Hd. apply Forall_cons in HF as [Ha HF].
  assert (ip_text [a; b; c; d] = dec a ++ dotted [b; c; d]) as Heq.
  { simpl. unfold dotted. simpl. by rewrite app_nil_r. }
  rewrite Heq in *. unfold parseip.
  change (parseip_loop 4) with (parseip_loop (S (length [b; c; d]))).
  cbn [parseip_loop Z.ltb Z.compare Z.eqb negb mbind option_bind andb].
  rewrite <- app_assoc in Ht. destruct (dotted_next _ _ _ _ Ht) as (t & Hends & Hdec).
  rewrite (parseint_dec _ _ _ a t) by (done || lia). cbn [mbind option_bind].
  destruct (Z.eqb_spec (p + zlen (dec a)) 0); [lia|].
  destruct (Z.ltb_spec a 0), (Z.ltb_spec 255 a); try lia. cbn [orb].
  rewrite st8_mapped by (apply Hm; lia). cbn [mbind option_bind]. rewrite u8_byte by done.
  apply bytes_at_app in Ht as [_ Ht]. rewrite length_app in Hd |- *.
  rewrite Z.add_0_r. rewrite (parseip_loop_spec [b; c; d]).
  - rewrite poke_cons. f_equal. f_equal. lia.
  - lia.
  - lia.
  - done.
  - done.
  - intros x Hx. apply is_Some_insert, Hm. simpl in Hx. lia.
  - apply bytes_at_insert_apart; [|done]. rewrite length_app. change (length [0]) with 1%nat. lia.
  - lia.
Qed.

(** C38. An IPv4 address survives a round trip: [fmtip] writes the dotted text
    of the four bytes at [src], and [parseip] on the terminated text stores the
    same four bytes at [out] and stops at the terminator. *)
Theorem parseip_fmtip m p e src out a b c d :
  let text := ip_text [a; b; c; d] in
  0 < p -> mapped m p (e - p) -> zlen text < e - p -> is_bytes [a; b; c; d] ->
  apart src [a; b; c; d] m p e -> mapped m out 4 -> out + 4 <= p \/ e <= out ->
  exists m1 q m2 m3,
    fmtip m p e src = Some (m1, q) /\ st8 m1 q 0 = Some m2 /\
    parseip m2 p out = Some (m3, q) /\ peek m3 out 4 = Some [a; b; c; d].
Proof.
  intros text Hp Hm Hfit HF Hsrc Hout Hd.
  destruct (emit m p e text) as [m1 q] eqn:E.
  destruct (emit_terminated _ _ _ _ _ _ Hm Hfit E) as (m2 & Hst & Hm2 & Hb & ->).
  exists m1, (p + zlen text), m2, (poke m2 out [a; b; c; d]).
  rewrite (emits_ip src a b c d HF m p e) by (done || lia). fold text. rewrite E.
  split; [done|]. split; [done|]. split.
  - apply parseip_text; [done|done| |done|].
    + rewrite Hm2. by apply mapped_poke.
    + fold text. lia.
  - apply peek_Some. split; [done|]. apply bytes_at_poke.
Qed.

Lemma parseip_fmtip_witness :
  let m := poke (poke ∅ 16 [192; 168; 0; 1]) 32 (replicate 24 0) in
  exists m1 q m2 m3,
    fmtip m 32 50 16 = Some (m1, q) /\ st8 m1 q 0 = Some m2 /\
    parseip m2 32 50 = Some (m3, q) /\ peek m3 50 4 = Some [192; 168; 0; 1].
Proof.
  apply (parseip_fmtip _ 32 50 16 50 192 168 0 1).
  - lia.
  - decide_now.
  - vm_compute. reflexivity.
  - decide_now.
  - split; [decide_now|]. left. vm_compute. congruence.
  - decide_now.
  - right. lia.
Defined.

Definition coloned (l : list Z) : list Z := l ≫= fun b => 58 :: hexbyte b.

Lemma coloned_cons b l : coloned (b :: l) = 58 :: hexbyte b ++ coloned l.
Proof. done. Qed.

Lemma parsemac_loop_S fuel m p mac i :
  parsemac_loop (S fuel) m p mac i =
  if i <? 6 then
    '(m, p) ← parsebyte m p (mac + i);
    if p =? 0 then Some (m, p)
    else if i =? 5 then Some (m, p)
    else
      c ← ld8 m p;
      if negb (c =? 58) then Some (m, 0)
      else parsemac_loop fuel m (p + 1) mac (i + 1)
  else Some (m, p).
Proof. done. Qed.

(** The loop from a hardware address byte [b], with the bytes [l] to follow. *)
Lemma parsemac_loop_spec l b m p mac i :
  0 < p -> 0 <= i -> i + zlen l = 5 -> is_bytes (b :: l) ->
  mapped m (mac + i) (zlen (b :: l)) -> bytes_at m p (hexbyte b ++ coloned l) ->
  (mac + 6 <= p \/ p + zlen (hexbyte b ++ coloned l) <= mac) ->
  parsemac_loop (length (b :: l)) m p mac i =
  Some (poke m (mac + i) (b :: l), p + zlen (hexbyte b ++ coloned l)).
Proof.
  revert b m p i. induction l as [|b' l IH]; intros b m p i Hp Hi Hl HF Hm Ht Hd;
    apply Forall_cons in HF as [Hb HF]; apply bytes_at_app in Ht as [Hbt Ht];
    rewrite length_app in Hd |- *; change (zlen (hexbyte b)) with 2 in *;
    cbn [length] in *; rewrite parsemac_loop_S; (destruct (Z.ltb_spec i 6); [|lia]).
  - rewrite (parsebyte_hexbyte _ _ _ b) by (done || apply Hm; lia).
    cbn [mbind option_bind]. destruct (Z.eqb_spec (p + 2) 0); [lia|].
    destruct (Z.eqb_spec i 5); [|lia]. simpl. do 2 f_equal.
  - rewrite (parsebyte_hexbyte _ _ _ b) by (done || apply Hm; lia).
    cbn [mbind option_bind]. destruct (Z.eqb_spec (p + 2) 0); [lia|].
    destruct (Z.eqb_spec i 5); [lia|].
    rewrite coloned_cons in *. cbn [length] in Hd. rewrite length_app in Hd.
    change (zlen (hexbyte b')) with 2 in *. change (length (hexbyte b')) with 2%nat in *.
    change (length (hexbyte b)) with 2%nat in *.
    apply bytes_at_cons in Ht as [H58 Ht].
    unfold ld8. rewrite (lookup_insert_ne m) by lia. rewrite H58.
    cbn [mbind option_bind Z.eqb Pos.eqb negb].
    rewrite (IH b').
    + rewrite !length_app. cbn [length]. rewrite length_app.
      change (length (hexbyte b')) with 2%nat. change (length (hexbyte b)) with 2%nat.
      change (poke m (mac + i) (b :: b' :: l)) with
        (poke (<[mac + i := b]> m) (mac + i + 1) (b' :: l)).
      f_equal. f_equal; [f_equal|]; lia.
    + lia.
    + lia.
    + lia.
    + done.
    + intros a Ha. apply is_Some_insert, Hm. cbn [length] in Ha. lia.
    + apply bytes_at_insert_apart; [|done]. rewrite length_app.
      change (length (hexbyte b')) with 2%nat. lia.
    + rewrite length_app. change (length (hexbyte b')) with 2%nat. lia.
Qed.

(** C39. Hardware addresses and byte strings survive a round trip: [parsemac]
    reads back the six bytes [fmtmac] wrote, and [parsebytes] the bytes
    [fmtbytes] wrote, each ending at the position the formatter returned. *)
Theorem parsemac_fmtmac m p e src out l :
  0 < p -> mapped m p (e - p) -> is_bytes l -> apart src l m p e ->
  mapped m out (zlen l) -> out + zlen l <= p \/ e <= out ->
  (length l = 6%nat -> zlen (mac_text l) <= e - p ->
   exists m1 q m2, fmtmac m p e src = Some (m1, q) /\
     parsemac m1 p out = Some (m2, q) /\ peek m2 out 6 = Some l) /\
  (2 * zlen l <= e - p ->
   exists m1 q m2, fmtbytes m p e src (zlen l) = Some (m1, q) /\
     parsebytes m1 p out (zlen l) = Some (m2, q) /\ peek m2 out (length l) = Some l).
Proof.
  intros Hp Hm HF Hsrc Hout Hd. split.
  - intros Hl Hfit. rewrite (emits_mac src l Hl m p e) by (done || lia).
    rewrite emit_fits by done.
    exists (poke m p (mac_text l)), (p + zlen (mac_text l)).
    exists (poke (poke m p (mac_text l)) out l). split; [done|].
    destruct l as [|b l]; [done|]. change (mac_text (b :: l)) with (hexbyte b ++ coloned l) in *.
    split; [|apply peek_Some; split; [done|apply bytes_at_poke]].
    unfold parsemac. injection Hl as Hl. rewrite <- (Z.add_0_r out) at 2.
    change 6%nat with (S 5). rewrite <- Hl at 1. apply (parsemac_loop_spec l b).
    + done.
    + lia.
    + lia.
    + done.
    + rewrite Z.add_0_r. by apply mapped_poke.
    + apply bytes_at_poke.
    + cbn [length] in Hd. lia.
  - intros Hfit. rewrite (emits_bytes src l m p e) by (done || lia).
    rewrite emit_fits by (rewrite length_bytes_text; lia).
    rewrite length_bytes_text.
    exists (poke m p (l ≫= hexbyte)), (p + 2 * zlen l).
    exists (poke (poke m p (l ≫= hexbyte)) out l). split; [done|].
    split; [|apply peek_Some; split; [done|apply bytes_at_poke]].
    unfold parsebytes. rewrite Nat2Z.id. apply parsebytes_loop_spec; [done|done| | |lia].
    + apply bytes_at_poke.
    + by apply mapped_poke.
Qed.

Lemma parsemac_fmtmac_witness :
  let l := [0; 27; 33; 170; 187; 255] in
  let m := poke (poke ∅ 16 l) 32 (replicate 32 0) in
  (length l = 6%nat -> zlen (mac_text l) <= 50 - 32 ->
   exists m1 q m2, fmtmac m 32 50 16 = Some (m1, q) /\
     parsemac m1 32 50 = Some (m2, q) /\ peek m2 50 6 = Some l) /\
  (2 * zlen l <= 50 - 32 ->
   exists m1 q m2, fmtbytes m 32 50 16 (zlen l) = Some (m1, q) /\
     parsebytes m1 32 50 (zlen l) = Some (m2, q) /\ peek m2 50 (length l) = Some l).
Proof.
  apply (parsemac_fmtmac _ 32 50 16 50).
  - lia.
  - decide_now.
  - decide_now.
  - split; [decide_now|]. left. vm_compute. congruence.
  - decide_now.
  - right. lia.
Defined.

(** The prefix length of [parseipmask] comes from an uninitialised local
    when no digit follows the slash: the address parses, the result is [NULL]
    whatever the local holds, and the mask byte is overwritten with it when it
    happens to be between 0 and 32. *)
Theorem parseipmask_uninitialised m p ip mask n m1 q :
  parseip m p ip = Some (m1, q) -> q <> 0 -> m1 !! q = Some 47 -> m1 !! (q + 1) = Some 0 ->
  is_Some (m1 !! mask) ->
  parseipmask n m p ip mask =
  Some (if (n <? 0) || (32 <? n) then m1 else <[mask := n]> m1, 0).
Proof.
  intros Hip Hq H47 H0 Hmask. unfold parseipmask. rewrite Hip. cbn [mbind option_bind].
  destruct (Z.eqb_spec q 0); [done|]. unfold ld8. rewrite H47.
  cbn [mbind option_bind Z.eqb Pos.eqb].
  assert (parseint m1 (q + 1) n = Some (0, n)) as ->.
  { unfold parseint, parse_with, str_fuel. cbn [digits_loop]. unfold ld8. rewrite H0.
    cbn [mbind option_bind Z.eqb negb]. by rewrite Z.eqb_refl. }
  cbn [mbind option_bind]. destruct (Z.ltb_spec n 0), (Z.ltb_spec 32 n); cbn [orb]; try done.
  rewrite st8_mapped by done. cbn [mbind option_bind]. by rewrite u8_byte by lia.
Qed.

(** "1.2.3.4/" with the local holding 9. *)
Lemma parseipmask_uninitialised_witness :
  let m := poke (poke ∅ 16 [49; 46; 50; 46; 51; 46; 52; 47; 0]) 32 (replicate 5 0) in
  parseipmask 9 m 16 32 36 =
  Some (if (9 <? 0) || (32 <? 9) then poke m 32 [1; 2; 3; 4]
        else <[36 := 9]> (poke m 32 [1; 2; 3; 4]), 0).
Proof.
  apply (parseipmask_uninitialised _ 16 32 36 9 _ 23).
  - vm_compute. reflexivity.
  - lia.
  - vm_compute. reflexivity.
  - vm_compute. reflexivity.
  - vm_compute. by eexists.
Defined.
