(* ===== verification/Qsort.v ===== *)
(** * lib/util/qsort.c: three-way quicksort of an array of pointers

    The array is a list, a pointer into it an index ([S], [E], [lp], ... as in
    the code; an index may step one below the array between accesses).  An
    access outside of the array is the fault [None].  Recursion and loops take
    fuel, which the theorem shows to be enough. *)
From Stdlib Require Import Sorted.
From S2P Require Import Prelude.

Definition zset {A} (l : list A) (i : Z) (x : A) : list A :=
  if decide (0 <= i) then <[Z.to_nat i := x]> l else l.

(** ** The program *)

Section qsort.
Context {A : Type} (cmp : A -> A -> Z -> Z) (opts : Z).

(** [lib/util/qsort.c: exch] *)
Definition exch (arr : list A) (a b : Z) : option (list A) :=
  t ← zget arr a;
  u ← zget arr b;
  Some (zset (zset arr a u) b t).

(** [lib/util/qsort.c: pick_pivot] *)
Definition pick_pivot (S E : Z) : Z := S + cdiv (E - S) 2.

(** [cmp( *p, *pv, opts)] *)
Definition cmp_at (arr : list A) (p pv : Z) : option Z :=
  x ← zget arr p; y ← zget arr pv; Some (cmp x y opts).

(** [lib/util/qsort.c: sort 61-65] *)
Fixpoint left_scan (fuel : nat) (arr : list A) (le lp rp pv : Z)
    : option (list A * Z * Z) :=
  if lp <? rp then
    c ← cmp_at arr lp pv;
    if c <=? 0 then
      match fuel with
      | O => None
      | S fuel =>
          '(arr, le) ← (if c =? 0 then arr ← exch arr le lp; Some (arr, le + 1)
                        else Some (arr, le));
          left_scan fuel arr le (lp + 1) rp pv
      end
    else Some (arr, le, lp)
  else Some (arr, le, lp).

(** [lib/util/qsort.c: sort 66-70] *)
Fixpoint right_scan (fuel : nat) (arr : list A) (lp rp re pv : Z)
    : option (list A * Z * Z) :=
  if lp <? rp then
    c ← cmp_at arr rp pv;
    if 0 <=? c then
      match fuel with
      | O => None
      | S fuel =>
          '(arr, re) ← (if c =? 0 then arr ← exch arr re rp; Some (arr, re - 1)
                        else Some (arr, re));
          right_scan fuel arr lp (rp - 1) re pv
      end
    else Some (arr, rp, re)
  else Some (arr, rp, re).

(** [lib/util/qsort.c: sort 60-77] the partition loop *)
Fixpoint part_loop (fuel : nat) (arr : list A) (le lp rp re pv : Z)
    : option (list A * Z * Z * Z * Z) :=
  '(arr, le, lp) ← left_scan (Z.to_nat (rp - lp)) arr le lp rp pv;
  '(arr, rp, re) ← right_scan (Z.to_nat (rp - lp)) arr lp rp re pv;
  if lp =? rp then Some (arr, le, lp, rp, re)
  else
    match fuel with
    | O => None
    | S fuel =>
        arr ← exch arr lp rp;
        let lp := lp + 1 in
        let rp := if lp <? rp then rp - 1 else rp in
        part_loop fuel arr le lp rp re pv
    end.

(** [lib/util/qsort.c: sort 92-93] left equals to the centre *)
Fixpoint left_equals (fuel : nat) (arr : list A) (pv le lp : Z) : option (list A * Z) :=
  if pv <? le then
    match fuel with
    | O => None
    | S fuel => arr ← exch arr pv lp; left_equals fuel arr (pv + 1) le (lp - 1)
    end
  else Some (arr, lp).

(** [lib/util/qsort.c: sort 94-95] right equals to the centre *)
Fixpoint right_equals (fuel : nat) (arr : list A) (pv re rp : Z) : option (list A * Z) :=
  if re <? pv then
    match fuel with
    | O => None
    | S fuel => arr ← exch arr pv rp; right_equals fuel arr (pv - 1) re (rp + 1)
    end
  else Some (arr, rp).

(** [lib/util/qsort.c: sort 40-95] everything before the recursive calls:
    the array and the final [lp], [rp] *)
Definition partition (arr : list A) (S E : Z) : option (list A * Z * Z) :=
  let pv := pick_pivot S E in
  let le := S in
  let re := E - 1 in
  let ll := le in
  let rr := re in
  arr ← exch arr re pv;
  let pv := re in
  let re := re - 1 in
  '(arr, le, lp, rp, re) ← part_loop (Z.to_nat (E - S)) arr le le re re pv;
  c ← cmp_at arr lp pv;
  let lp' := if 0 <? c then lp - 1 else lp in
  c ← cmp_at arr rp pv;
  let rp' := if c <? 0 then rp + 1 else rp in
  '(arr, lp) ← left_equals (Z.to_nat (le - ll)) arr ll le lp';
  '(arr, rp) ← right_equals (Z.to_nat (rr - re)) arr rr re rp';
  Some (arr, lp, rp).

(** [lib/util/qsort.c: sort]  [srec] is the recursive call. *)
Definition sort (srec : list A -> Z -> Z -> option (list A)) (arr : list A) (S E : Z)
    : option (list A) :=
  '(arr, lp, rp) ← partition arr S E;
  let ll := S in
  let rr := E - 1 in
  arr ← (if ll <? lp then srec arr ll (lp + 1) else Some arr);
  if rp <? rr then srec arr rp (rr + 1) else Some arr.

(** [if(cmp( *a, *b, opts) > 0) exch(a, b)] *)
Definition order2 (arr : list A) (a b : Z) : option (list A) :=
  c ← cmp_at arr a b;
  if 0 <? c then exch arr a b else Some arr.

(** [lib/util/qsort.c: sort2] *)
Definition sort2 (arr : list A) (S : Z) : option (list A) := order2 arr (S + 0) (S + 1).

(** [lib/util/qsort.c: sort3] *)
Definition sort3 (arr : list A) (S : Z) : option (list A) :=
  arr ← order2 arr (S + 0) (S + 1);
  arr ← order2 arr (S + 1) (S + 2);
  order2 arr (S + 0) (S + 1).

(** [lib/util/qsort.c: srec] *)
Fixpoint srec (fuel : nat) (arr : list A) (S E : Z) : option (list A) :=
  match fuel with
  | O => None
  | Datatypes.S fuel =>
      let len := E - S in
      if len <=? 1 then Some arr
      else if len =? 2 then sort2 arr S
      else if len =? 3 then sort3 arr S
      else sort (srec fuel) arr S E
  end.

(** [lib/util/qsort.c: qsortx] *)
Definition qsortx (ptrs : list A) (n : Z) : option (list A) :=
  srec (S (Z.to_nat n)) ptrs 0 (0 + n).

End qsort.

(** [lib/util/qsort.c: cmp2to3] *)
Definition cmp2to3 {A} (cmp : A -> A -> Z) (a b : A) (arg : Z) : Z := cmp a b.

(** [lib/util/qsort.c: qsortp]  [arg] is the address of [cmp]. *)
Definition qsortp {A} (base : list A) (n : Z) (cmp : A -> A -> Z) (arg : Z)
    : option (list A) :=
  qsortx (cmp2to3 cmp) arg base n.

Example qsort_ex :
  qsortp [5; 3; 9; 3; 1; 7; 3; 8; 2; 3] 10 (fun a b => a - b) 0 =
  Some [1; 2; 3; 3; 3; 3; 5; 7; 8; 9].
Proof. vm_compute. reflexivity. Qed.

(** ** Arrays and exchanges *)

Lemma length_zset {A} (l : list A) i x : length (zset l i x) = length l.
Proof. unfold zset. case_decide; [apply length_insert|done]. Qed.

Lemma zget_zset {A} (l : list A) i j x :
  zget (zset l i x) j = if decide (i = j /\ 0 <= i < zlen l) then Some x else zget l j.
Proof.
  unfold zset, zget. destruct (decide (0 <= i)).
  - destruct (decide (0 <= j)); [|case_decide; [lia|done]].
    destruct (decide (i = j)) as [->|].
    + case_decide.
      * apply list_lookup_insert_eq. lia.
      * rewrite list_insert_ge by lia. done.
    + rewrite list_lookup_insert_ne by lia. by rewrite decide_False by tauto.
  - by rewrite (decide_False (P := i = j /\ 0 <= i < zlen l)) by lia.
Qed.

Lemma exch_spec {A} (arr : list A) a b x y :
  zget arr a = Some x -> zget arr b = Some y ->
  exists arr', exch arr a b = Some arr' /\ arr' ≡ₚ arr /\
    forall i, zget arr' i =
      if decide (i = a) then Some y else if decide (i = b) then Some x else zget arr i.
Proof.
  intros Ha Hb. unfold exch. rewrite Ha, Hb. simpl. eexists. split; [done|].
  pose proof (zget_Some_lt _ _ _ Ha). pose proof (zget_Some_lt _ _ _ Hb).
  split.
  - unfold zset. rewrite !decide_True by lia. unfold zget in Ha, Hb.
    rewrite decide_True in Ha by lia. rewrite decide_True in Hb by lia.
    by apply Permutation_insert_swap.
  - intros i. rewrite !zget_zset, length_zset.
    destruct (decide (i = a)), (decide (i = b)); subst; repeat case_decide;
      try lia; congruence.
Qed.

(** [arr'] is [arr] after exchanges inside [[lo, hi)]. *)
Inductive swaps {A} (lo hi : Z) : list A -> list A -> Prop :=
  | swaps_refl arr : swaps lo hi arr arr
  | swaps_step arr arr1 arr2 a b :
      lo <= a < hi -> lo <= b < hi -> exch arr a b = Some arr1 ->
      swaps lo hi arr1 arr2 -> swaps lo hi arr arr2.
#[export] Hint Constructors swaps : minibase.

(** A predicate of the elements in the range [[i, j)]. *)
Definition rng {A} (arr : list A) (i j : Z) (P : A -> Prop) : Prop :=
  forall k x, i <= k < j -> zget arr k = Some x -> P x.

Lemma rng_mono {A} (arr : list A) i j i' j' (P Q : A -> Prop) :
  rng arr i j P -> i <= i' -> j' <= j -> (forall x, P x -> Q x) -> rng arr i' j' Q.
Proof. intros H ?? HPQ k x Hk Hx. eapply HPQ, H; [|exact Hx]. lia. Qed.

Section swaps.
Context {A : Type}.
Implicit Types arr : list A.

Lemma exch_inv arr a b arr' :
  exch arr a b = Some arr' -> exists x y, zget arr a = Some x /\ zget arr b = Some y.
Proof.
  unfold exch. intros (x & Hx & (y & Hy & _)%bind_Some_inv)%bind_Some_inv. eauto.
Qed.

Lemma swaps_one lo hi arr arr' a b :
  lo <= a < hi -> lo <= b < hi -> exch arr a b = Some arr' -> swaps lo hi arr arr'.
Proof. eauto with minibase. Qed.

Lemma swaps_trans lo hi arr1 arr2 arr3 :
  swaps lo hi arr1 arr2 -> swaps lo hi arr2 arr3 -> swaps lo hi arr1 arr3.
Proof. induction 1; eauto with minibase. Qed.

Lemma swaps_mono lo hi lo' hi' arr arr' :
  lo' <= lo -> hi <= hi' -> swaps lo hi arr arr' -> swaps lo' hi' arr arr'.
Proof.
  intros ?? H. induction H; [constructor|].
  eapply swaps_step; [..|eassumption|eassumption]; lia.
Qed.

Lemma swaps_perm lo hi arr arr' : swaps lo hi arr arr' -> arr' ≡ₚ arr.
Proof.
  induction 1 as [|arr arr1 arr2 a b Ha Hb He H IH]; [done|].
  destruct (exch_inv _ _ _ _ He) as (x & y & Hx & Hy).
  destruct (exch_spec _ _ _ _ _ Hx Hy) as (? & ? & ? & _). simplify_eq. by rewrite IH.
Qed.

Lemma swaps_length lo hi arr arr' : swaps lo hi arr arr' -> length arr' = length arr.
Proof. intros H%swaps_perm. by rewrite H. Qed.

Lemma swaps_outside lo hi arr arr' i :
  swaps lo hi arr arr' -> ~ (lo <= i < hi) -> zget arr' i = zget arr i.
Proof.
  induction 1 as [|arr arr1 arr2 a b Ha Hb He H IH]; intros Hi; [done|].
  rewrite IH by done. destruct (exch_inv _ _ _ _ He) as (x & y & Hx & Hy).
  destruct (exch_spec _ _ _ _ _ Hx Hy) as (? & ? & _ & Hg). simplify_eq.
  rewrite Hg. by rewrite !decide_False by lia.
Qed.

(** A predicate of the whole exchanged range survives. *)
Lemma swaps_rng lo hi arr arr' P :
  swaps lo hi arr arr' -> rng arr lo hi P -> rng arr' lo hi P.
Proof.
  induction 1 as [|arr arr1 arr2 a b Ha Hb He H IH]; intros HP; [done|].
  apply IH. intros k z Hk. destruct (exch_inv _ _ _ _ He) as (x & y & Hx & Hy).
  destruct (exch_spec _ _ _ _ _ Hx Hy) as (? & ? & _ & Hg). simplify_eq.
  rewrite Hg. repeat case_decide; intros; simplify_eq; (eapply HP; [|eassumption]; done).
Qed.

Lemma swaps_rng_outside lo hi arr arr' i j P :
  swaps lo hi arr arr' -> j <= lo \/ hi <= i -> rng arr i j P -> rng arr' i j P.
Proof.
  intros Hs Hd HP k x Hk. rewrite (swaps_outside _ _ _ _ _ Hs) by lia. by apply HP.
Qed.

End swaps.

(** ** The comparator's contract

    What [qsortx] needs of its callback: a three-way comparison whose sign
    flips when its arguments are swapped, and whose [<= 0] is transitive. *)
Class ThreeWay {A} (c : A -> A -> Z) : Prop := {
  tw_anti x y : c x y < 0 <-> 0 < c y x;
  tw_trans x y z : c x y <= 0 -> c y z <= 0 -> c x z <= 0;
}.

Lemma tw_le {A} (c : A -> A -> Z) `{!ThreeWay c} x y : 0 <= c x y <-> c y x <= 0.
Proof. pose proof (tw_anti x y). pose proof (tw_anti y x). lia. Qed.

Lemma tw_refl {A} (c : A -> A -> Z) `{!ThreeWay c} x : c x x = 0.
Proof. pose proof (tw_anti x x). lia. Qed.

(** Comparison of numbers by subtraction satisfies it. *)
#[export] Instance three_way_sub : ThreeWay Z.sub.
Proof. split; lia. Qed.

(** Any key function into an ordered type satisfies it. *)
#[export] Instance three_way_key {A B} (f : A -> B) (c : B -> B -> Z) :
  ThreeWay c -> ThreeWay (fun x y => c (f x) (f y)).
Proof.
  intros Hc. split; [intros; apply tw_anti|].
  intros x y z. apply tw_trans.
Qed.

(** ** The partition *)

Section partition.
Context {A : Type} (cmp : A -> A -> Z -> Z) (opts : Z).
Abbreviation c x y := (cmp x y opts).
Implicit Types arr : list A.

(** The picture in the comments of [sort]: equal, less, unknown, greater,
    equal, and the pivot [v] parked in the last cell of [[S, E)]. *)
Record part_inv (S E : Z) (v : A) arr (le lp rp re : Z) : Prop := {
  pi_len : 0 <= S /\ E <= zlen arr;
  pi_ord : S <= le <= lp /\ lp <= rp <= re /\ re <= E - 2;
  pi_pv : zget arr (E - 1) = Some v;
  pi_l0 : rng arr S le (fun x => c x v = 0);
  pi_lt : rng arr le lp (fun x => c x v < 0);
  pi_gt : rng arr (rp + 1) (re + 1) (fun x => 0 < c x v);
  pi_r0 : rng arr (re + 1) (E - 1) (fun x => c x v = 0);
}.

Lemma part_inv_get S E v arr le lp rp re i :
  part_inv S E v arr le lp rp re -> S <= i < E -> exists x, zget arr i = Some x.
Proof.
  intros [[? ?] _ _ _ _ _ _] Hi. apply (zget_lt_is_Some arr i). lia.
Qed.

(** Rewrite a lookup in an exchanged array and split on the position. *)
Ltac exch_cases Hg :=
  let k := fresh "k" in let z := fresh "z" in let Hk := fresh "Hk" in
  intros k z Hk; rewrite Hg; repeat case_decide; intros ?; simplify_eq.

(** Close a range goal with one of the ranges of the invariant. *)
Ltac by_range :=
  first
    [ lia
    | match goal with
      | H : rng ?arr _ _ _, Hz : zget ?arr ?i = Some ?z |- _ =>
          let HH := fresh in
          pose proof (fun Hi => H i z Hi Hz) as HH; cbv beta in HH; apply HH; lia
      end ].

Lemma inv_left_lt S E v arr le lp rp re x :
  part_inv S E v arr le lp rp re -> lp < rp -> zget arr lp = Some x -> c x v < 0 ->
  part_inv S E v arr le (lp + 1) rp re.
Proof.
  intros [? ? ? ? ? ? ?] Hlt Hx Hc. split; try done; [lia|].
  intros k z Hk Hz. destruct (decide (k = lp)) as [->|]; [by simplify_eq|by_range].
Qed.

Lemma inv_left_eq S E v arr arr' le lp rp re x :
  part_inv S E v arr le lp rp re -> lp < rp -> zget arr lp = Some x -> c x v = 0 ->
  exch arr le lp = Some arr' ->
  part_inv S E v arr' (le + 1) (lp + 1) rp re.
Proof.
  intros [? ? ? ? ? ? ?] Hlt Hx Hc He.
  destruct (exch_inv _ _ _ _ He) as (y & x' & Hy & Hx'). simplify_eq.
  destruct (exch_spec _ _ _ _ _ Hy Hx) as (? & ? & Hp & Hg). simplify_eq.
  split; try lia.
  - by rewrite Hp.
  - rewrite Hg. by rewrite !decide_False by lia.
  - exch_cases Hg; [done|lia|by_range].
  - exch_cases Hg; [lia| |by_range]. by_range.
  - exch_cases Hg; by_range.
  - exch_cases Hg; by_range.
Qed.

Lemma inv_right_gt S E v arr le lp rp re x :
  part_inv S E v arr le lp rp re -> lp < rp -> zget arr rp = Some x -> 0 < c x v ->
  part_inv S E v arr le lp (rp - 1) re.
Proof.
  intros [? ? ? ? ? ? ?] Hlt Hx Hc. split; try done; [lia|].
  intros k z Hk Hz. destruct (decide (k = rp)) as [->|]; [by simplify_eq|by_range].
Qed.

Lemma inv_right_eq S E v arr arr' le lp rp re x :
  part_inv S E v arr le lp rp re -> lp < rp -> zget arr rp = Some x -> c x v = 0 ->
  exch arr re rp = Some arr' ->
  part_inv S E v arr' le lp (rp - 1) (re - 1).
Proof.
  intros [? ? ? ? ? ? ?] Hlt Hx Hc He.
  destruct (exch_inv _ _ _ _ He) as (y & x' & Hy & Hx'). simplify_eq.
  destruct (exch_spec _ _ _ _ _ Hy Hx) as (? & ? & Hp & Hg). simplify_eq.
  split; try lia.
  - by rewrite Hp.
  - rewrite Hg. by rewrite !decide_False by lia.
  - exch_cases Hg; by_range.
  - exch_cases Hg; by_range.
  - exch_cases Hg; by_range.
  - exch_cases Hg; by_range.
Qed.

(** The exchange of a greater element on the left with a smaller one on the right. *)
Lemma inv_exchange S E v arr arr' le lp rp re x y :
  part_inv S E v arr le lp rp re -> lp < rp ->
  zget arr lp = Some x -> 0 < c x v -> zget arr rp = Some y -> c y v < 0 ->
  exch arr lp rp = Some arr' ->
  part_inv S E v arr' le (lp + 1) (if lp + 1 <? rp then rp - 1 else rp) re.
Proof.
  intros [? ? ? ? ? ? ?] Hlt Hx Hcx Hy Hcy He.
  destruct (exch_spec _ _ _ _ _ Hx Hy) as (? & ? & Hp & Hg). simplify_eq.
  assert (rp - 1 <= (if lp + 1 <? rp then rp - 1 else rp) <= rp) by (case_match; lia).
  assert (lp + 1 <= (if lp + 1 <? rp then rp - 1 else rp)) by
    (destruct (Z.ltb_spec (lp + 1) rp); lia).
  set (rp' := if lp + 1 <? rp then rp - 1 else rp) in *. clearbody rp'.
  split; try lia.
  - by rewrite Hp.
  - rewrite Hg. by rewrite !decide_False by lia.
  - exch_cases Hg; by_range.
  - exch_cases Hg; by_range.
  - exch_cases Hg; by_range.
  - exch_cases Hg; by_range.
Qed.

Lemma cmp_at_Some arr i j x y :
  zget arr i = Some x -> zget arr j = Some y -> cmp_at cmp opts arr i j = Some (c x y).
Proof. intros Hx Hy. unfold cmp_at. by rewrite Hx, Hy. Qed.

Lemma left_scan_spec fuel S E v arr le lp rp re :
  part_inv S E v arr le lp rp re -> Z.to_nat (rp - lp) = fuel ->
  exists arr' le' lp',
    left_scan cmp opts fuel arr le lp rp (E - 1) = Some (arr', le', lp') /\
    part_inv S E v arr' le' lp' rp re /\ swaps S E arr arr' /\ lp <= lp' /\
    (lp' = rp \/ exists x, zget arr' lp' = Some x /\ 0 < c x v).
Proof.
  revert arr le lp. induction fuel as [|fuel IH]; intros arr le lp HI Hf;
    pose proof (pi_ord _ _ _ _ _ _ _ _ HI) as Ho; cbn [left_scan].
  { destruct (Z.ltb_spec lp rp); [lia|]. exists arr, le, lp.
    split; [done|]. split; [done|]. split; [constructor|]. split; [lia|]. left. lia. }
  destruct (Z.ltb_spec lp rp); [|lia].
  destruct (part_inv_get _ _ _ _ _ _ _ _ lp HI) as [x Hx]; [lia|].
  rewrite (cmp_at_Some _ _ _ _ _ Hx (pi_pv _ _ _ _ _ _ _ _ HI)). cbn [mbind option_bind].
  destruct (Z.leb_spec (c x v) 0).
  2:{ exists arr, le, lp. split; [done|]. split; [done|]. split; [constructor|].
      split; [lia|]. right. eauto. }
  destruct (Z.eqb_spec (c x v) 0) as [Hz|].
  - destruct (part_inv_get _ _ _ _ _ _ _ _ le HI) as [y Hy]; [lia|].
    destruct (exch_spec _ _ _ _ _ Hy Hx) as (arr1 & He & _). rewrite He.
    cbn [mbind option_bind].
    destruct (IH arr1 (le + 1) (lp + 1)) as (arr2 & le2 & lp2 & -> & HI2 & Hs & ? & Hr);
      [by eapply inv_left_eq|lia|].
    exists arr2, le2, lp2. split; [done|]. split; [done|]. split; [|split; [lia|done]].
    eapply swaps_step; [| |done|done]; lia.
  - cbn [mbind option_bind].
    destruct (IH arr le (lp + 1)) as (arr2 & le2 & lp2 & -> & HI2 & Hs & ? & Hr);
      [eapply inv_left_lt; (done || lia)|lia|].
    exists arr2, le2, lp2. split; [done|]. split; [done|]. split; [done|]. split; [lia|done].
Qed.

Lemma right_scan_spec fuel S E v arr le lp rp re :
  part_inv S E v arr le lp rp re -> Z.to_nat (rp - lp) = fuel ->
  exists arr' rp' re',
    right_scan cmp opts fuel arr lp rp re (E - 1) = Some (arr', rp', re') /\
    part_inv S E v arr' le lp rp' re' /\ swaps S E arr arr' /\ rp' <= rp /\
    zget arr' lp = zget arr lp /\
    (lp = rp' \/ exists x, zget arr' rp' = Some x /\ c x v < 0).
Proof.
  revert arr rp re. induction fuel as [|fuel IH]; intros arr rp re HI Hf;
    pose proof (pi_ord _ _ _ _ _ _ _ _ HI) as Ho; cbn [right_scan].
  { destruct (Z.ltb_spec lp rp); [lia|]. exists arr, rp, re.
    split; [done|]. split; [done|]. split; [constructor|]. split; [lia|].
    split; [done|]. left. lia. }
  destruct (Z.ltb_spec lp rp); [|lia].
  destruct (part_inv_get _ _ _ _ _ _ _ _ rp HI) as [x Hx]; [lia|].
  rewrite (cmp_at_Some _ _ _ _ _ Hx (pi_pv _ _ _ _ _ _ _ _ HI)). cbn [mbind option_bind].
  destruct (Z.leb_spec 0 (c x v)).
  2:{ exists arr, rp, re. split; [done|]. split; [done|]. split; [constructor|].
      split; [lia|]. split; [done|]. right. eauto. }
  destruct (Z.eqb_spec (c x v) 0) as [Hz|].
  - destruct (part_inv_get _ _ _ _ _ _ _ _ re HI) as [y Hy]; [lia|].
    destruct (exch_spec _ _ _ _ _ Hy Hx) as (arr1 & He & _ & Hg). rewrite He.
    cbn [mbind option_bind].
    destruct (IH arr1 (rp - 1) (re - 1)) as (arr2 & rp2 & re2 & -> & HI2 & Hs & ? & Hl & Hr);
      [by eapply inv_right_eq|lia|].
    exists arr2, rp2, re2. split; [done|]. split; [done|].
    split; [eapply swaps_step; [| |done|done]; lia|]. split; [lia|]. split; [|done].
    rewrite Hl, Hg. by rewrite !decide_False by lia.
  - cbn [mbind option_bind].
    destruct (IH arr (rp - 1) re) as (arr2 & rp2 & re2 & -> & HI2 & Hs & ? & Hl & Hr);
      [eapply inv_right_gt; (done || lia)|lia|].
    exists arr2, rp2, re2. split; [done|]. split; [done|]. split; [done|].
    split; [lia|done].
Qed.

(** The partition loop ends with the scans met. *)
Lemma part_loop_spec fuel S E v arr le lp rp re :
  part_inv S E v arr le lp rp re -> (Z.to_nat (rp - lp) <= fuel)%nat ->
  exists arr' le' lp' re',
    part_loop cmp opts fuel arr le lp rp re (E - 1) = Some (arr', le', lp', lp', re') /\
    part_inv S E v arr' le' lp' lp' re' /\ swaps S E arr arr'.
Proof.
  revert arr le lp rp re. induction fuel as [|fuel IH]; intros arr le lp rp re HI Hf;
    cbn [part_loop];
    destruct (left_scan_spec _ _ _ _ _ _ _ _ _ HI eq_refl)
      as (arr1 & le1 & lp1 & -> & HI1 & Hs1 & Hl1 & Hstop1); cbn [mbind option_bind];
    destruct (right_scan_spec _ _ _ _ _ _ _ _ _ HI1 eq_refl)
      as (arr2 & rp2 & re2 & -> & HI2 & Hs2 & Hr2 & Hkeep & Hstop2); cbn [mbind option_bind];
    pose proof (pi_ord _ _ _ _ _ _ _ _ HI1); pose proof (pi_ord _ _ _ _ _ _ _ _ HI2);
    pose proof (swaps_trans _ _ _ _ _ Hs1 Hs2) as Hs.
  - destruct (Z.eqb_spec lp1 rp2) as [<-|]; [|lia]. by exists arr2, le1, lp1, re2.
  - destruct (Z.eqb_spec lp1 rp2) as [<-|]; [by exists arr2, le1, lp1, re2|].
    destruct Hstop1 as [->|(x & Hx & Hcx)]; [lia|].
    destruct Hstop2 as [->|(y & Hy & Hcy)]; [lia|]. rewrite <- Hkeep in Hx.
    destruct (exch_spec _ _ _ _ _ Hx Hy) as (arr3 & He & _). rewrite He.
    cbn [mbind option_bind].
    destruct (IH arr3 le1 (lp1 + 1) (if lp1 + 1 <? rp2 then rp2 - 1 else rp2) re2)
      as (arr4 & le4 & lp4 & re4 & -> & HI4 & Hs4).
    + eapply (inv_exchange S E v arr2 arr3); (done || lia).
    + destruct (Z.ltb_spec (lp1 + 1) rp2); lia.
    + exists arr4, le4, lp4, re4. split; [done|]. split; [done|].
      eapply swaps_trans; [exact Hs|]. eapply swaps_step; [| |done|done]; lia.
Qed.

(** Exchanging the mirrored cells [lo + t] and [hi - t], [n] of them from
    [t]: where each cell ends up.  When the ranges cross, a cell exchanged
    twice is back in its place. *)
Definition mirrored arr arr' (lo hi n : Z) : Prop :=
  forall i, lo <= i <= hi ->
    zget arr' i =
    if bool_decide (lo <= i < lo + n) then
      if bool_decide (hi - n < i <= hi) then zget arr i else zget arr (lo + hi - i)
    else if bool_decide (hi - n < i <= hi) then zget arr (lo + hi - i) else zget arr i.

Lemma mirrored_refl arr lo hi : mirrored arr arr lo hi 0.
Proof. intros i Hi. by rewrite !bool_decide_false by lia. Qed.

Lemma mirrored_step arr arr1 arr2 lo hi n :
  0 <= n -> lo + n <= hi -> mirrored arr arr1 lo hi n ->
  (exch arr1 (lo + n) (hi - n) = Some arr2 \/ exch arr1 (hi - n) (lo + n) = Some arr2) ->
  mirrored arr arr2 lo hi (n + 1).
Proof.
  intros Hn Hlo H He i Hi.
  assert (forall i, zget arr2 i =
    if decide (i = lo + n) then zget arr1 (hi - n)
    else if decide (i = hi - n) then zget arr1 (lo + n) else zget arr1 i) as Hg.
  { destruct He as [He|He]; destruct (exch_inv _ _ _ _ He) as (x & y & Hx & Hy);
      destruct (exch_spec _ _ _ _ _ Hx Hy) as (? & ? & _ & Hg); simplify_eq;
      intros j; rewrite Hg, Hx, Hy; repeat case_decide; try done; congruence. }
  rewrite Hg. repeat case_decide; subst; rewrite H by lia;
    repeat case_bool_decide; try lia; try done; f_equal; lia.
Qed.

Lemma left_equals_spec fuel arr0 arr lo hi n le lp :
  0 <= lo -> hi < zlen arr -> 0 <= n -> mirrored arr0 arr lo hi n ->
  lp = hi - n -> lo + n <= le -> le <= hi + 1 -> Z.to_nat (le - (lo + n)) = fuel ->
  exists arr', left_equals fuel arr (lo + n) le lp = Some (arr', hi - (le - lo)) /\
    mirrored arr0 arr' lo hi (le - lo) /\ swaps lo (hi + 1) arr arr'.
Proof.
  intros Hlo. revert arr n lp. induction fuel as [|fuel IH];
    intros arr n lp Hhi Hn HM -> Hle Hlh Hf; cbn [left_equals].
  { destruct (Z.ltb_spec (lo + n) le); [lia|]. replace n with (le - lo) in * by lia.
    exists arr. split; [done|]. split; [done|constructor]. }
  destruct (Z.ltb_spec (lo + n) le); [|lia].
  destruct (zget_lt_is_Some arr (lo + n)) as [x Hx]; [lia|].
  destruct (zget_lt_is_Some arr (hi - n)) as [y Hy]; [lia|].
  destruct (exch_spec _ _ _ _ _ Hx Hy) as (arr1 & He & Hp & _). rewrite He.
  cbn [mbind option_bind].
  destruct (IH arr1 (n + 1) (hi - n - 1)) as (arr2 & He2 & HM2 & Hs2).
  - by rewrite Hp.
  - lia.
  - eapply mirrored_step; [done|lia|done|by left].
  - lia.
  - lia.
  - lia.
  - lia.
  - rewrite Z.add_assoc in He2. exists arr2. split; [done|]. split; [done|].
    eapply swaps_step; [| |done|done]; lia.
Qed.

Lemma right_equals_spec fuel arr0 arr lo hi n re rp :
  0 <= lo -> hi < zlen arr -> 0 <= n -> mirrored arr0 arr lo hi n ->
  rp = lo + n -> re <= hi - n -> lo - 1 <= re -> Z.to_nat (hi - n - re) = fuel ->
  exists arr', right_equals fuel arr (hi - n) re rp = Some (arr', lo + (hi - re)) /\
    mirrored arr0 arr' lo hi (hi - re) /\ swaps lo (hi + 1) arr arr'.
Proof.
  intros Hlo. revert arr n rp. induction fuel as [|fuel IH];
    intros arr n rp Hhi Hn HM -> Hre Hlh Hf; cbn [right_equals].
  { destruct (Z.ltb_spec re (hi - n)); [lia|]. replace n with (hi - re) in * by lia.
    exists arr. split; [done|]. split; [done|constructor]. }
  destruct (Z.ltb_spec re (hi - n)); [|lia].
  destruct (zget_lt_is_Some arr (lo + n)) as [x Hx]; [lia|].
  destruct (zget_lt_is_Some arr (hi - n)) as [y Hy]; [lia|].
  destruct (exch_spec _ _ _ _ _ Hy Hx) as (arr1 & He & Hp & _). rewrite He.
  cbn [mbind option_bind].
  destruct (IH arr1 (n + 1) (lo + n + 1)) as (arr2 & He2 & HM2 & Hs2).
  - by rewrite Hp.
  - lia.
  - eapply mirrored_step; [done|lia|done|by right].
  - lia.
  - lia.
  - lia.
  - lia.
  - replace (hi - (n + 1)) with (hi - n - 1) in He2 by lia.
    exists arr2. split; [done|]. split; [done|].
    eapply swaps_step; [| |done|done]; lia.
Qed.

(** What was at one end is at the other. *)
Lemma mirrored_low arr arr' lo hi n (P : A -> Prop) :
  mirrored arr arr' lo hi n -> 0 <= n <= hi - lo + 1 ->
  rng arr lo (lo + n) P -> rng arr' (hi - n + 1) (hi + 1) P.
Proof.
  intros HM Hn HP k x Hk. rewrite HM by lia.
  repeat case_bool_decide; try lia; intros Hx; eapply HP; [|exact Hx| |exact Hx]; lia.
Qed.

Lemma mirrored_high arr arr' lo hi n (P : A -> Prop) :
  mirrored arr arr' lo hi n -> 0 <= n <= hi - lo + 1 ->
  rng arr (hi - n + 1) (hi + 1) P -> rng arr' lo (lo + n) P.
Proof.
  intros HM Hn HP k x Hk. rewrite HM by lia.
  repeat case_bool_decide; try lia; intros Hx; eapply HP; [|exact Hx| |exact Hx]; lia.
Qed.

Lemma rng_split arr i j k (P : A -> Prop) :
  rng arr i j P -> rng arr j k P -> rng arr i k P.
Proof.
  intros H1 H2 l x Hl Hx. destruct (decide (l < j)); [eapply H1|eapply H2];
    try exact Hx; lia.
Qed.

(** A partitioned range: at most the pivot, equal to it, at least the pivot. *)
Record parted (S E : Z) (v : A) arr (lp rp : Z) : Prop := {
  pt_ord : S - 1 <= lp <= E - 2 /\ lp < rp /\ S + 1 <= rp <= E;
  pt_le : rng arr S (lp + 1) (fun x => c x v <= 0);
  pt_eq : rng arr (lp + 1) rp (fun x => c x v = 0);
  pt_ge : rng arr rp E (fun x => 0 <= c x v);
}.

(** The equals moved to the centre. *)
Lemma centre_spec S E v arr le re lp rp :
  0 <= S -> E <= zlen arr -> S <= le <= lp + 1 -> rp - 1 <= re <= E - 2 ->
  lp <= rp <= lp + 1 -> lp <= E - 2 -> S <= rp ->
  rng arr S le (fun x => c x v = 0) ->
  rng arr S (lp + 1) (fun x => c x v <= 0) ->
  rng arr rp E (fun x => 0 <= c x v) ->
  rng arr (re + 1) E (fun x => c x v = 0) ->
  exists arr1 arr2 lp' rp',
    left_equals (Z.to_nat (le - S)) arr S le lp = Some (arr1, lp') /\
    right_equals (Z.to_nat (E - 1 - re)) arr1 (E - 1) re rp = Some (arr2, rp') /\
    swaps S E arr arr2 /\ parted S E v arr2 lp' rp'.
Proof.
  intros HS HE Hle Hre Hmeet Hlp Hrp Hl0 Hl Hr Hr0.
  destruct (left_equals_spec (Z.to_nat (le - S)) arr arr S lp 0 le lp)
    as (arr1 & He1 & HM1 & Hs1); try lia; [apply mirrored_refl|].
  rewrite Z.add_0_r in He1.
  pose proof (swaps_length _ _ _ _ Hs1) as Hlen1.
  assert (rng arr1 (lp - (le - S) + 1) (lp + 1) (fun x => c x v = 0)) as Hc1.
  { apply (mirrored_low arr arr1 S lp (le - S)); [done|lia|].
    by replace (S + (le - S)) with le by lia. }
  assert (rng arr1 rp E (fun x => 0 <= c x v)) as Hr1.
  { intros k x Hk Hx. destruct (decide (k = lp)) as [->|].
    - destruct (decide (le = S)) as [->|].
      + rewrite (HM1 lp) in Hx by lia. rewrite !bool_decide_false in Hx by lia.
        by eapply Hr.
      + rewrite (Hc1 lp x); [done|lia|done].
    - rewrite (swaps_outside _ _ _ _ _ Hs1) in Hx by lia. by eapply Hr. }
  assert (rng arr1 (re + 1) E (fun x => c x v = 0)) as Hr01.
  { intros k x Hk Hx. destruct (decide (k = lp)) as [->|].
    - destruct (decide (le = S)) as [->|]; [|by apply (Hc1 lp); [lia|]].
      rewrite (HM1 lp) in Hx by lia. rewrite !bool_decide_false in Hx by lia.
      by eapply Hr0.
    - rewrite (swaps_outside _ _ _ _ _ Hs1) in Hx by lia. by eapply Hr0. }
  destruct (right_equals_spec (Z.to_nat (E - 1 - re)) arr1 arr1 rp (E - 1) 0 re rp)
    as (arr2 & He2 & HM2 & Hs2); try lia; [apply mirrored_refl|].
  rewrite Z.sub_0_r in He2. replace (E - 1 + 1) with E in Hs2 by lia.
  assert (rng arr2 rp (rp + (E - 1 - re)) (fun x => c x v = 0)) as Hc2.
  { apply (mirrored_high arr1 arr2 rp (E - 1) (E - 1 - re)); [done|lia|].
    replace (E - 1 - (E - 1 - re) + 1) with (re + 1) by lia.
    by replace (E - 1 + 1) with E by lia. }
  exists arr1, arr2, (lp - (le - S)), (rp + (E - 1 - re)).
  split; [done|]. split; [done|]. split.
  { eapply swaps_trans; eapply swaps_mono; [..|exact Hs1| | |exact Hs2]; lia. }
  assert (rng arr1 S (lp + 1) (fun x => c x v <= 0)) as Hl1 by by eapply swaps_rng.
  split.
  - lia.
  - intros k x Hk Hx. destruct (decide (k < rp)).
    + rewrite (swaps_outside _ _ _ _ _ Hs2) in Hx by lia. eapply Hl1; [|done]. lia.
    + rewrite (Hc2 k x); [done|lia|done].
  - intros k x Hk Hx. destruct (decide (k < rp)).
    + rewrite (swaps_outside _ _ _ _ _ Hs2) in Hx by lia. eapply Hc1; [|done]. lia.
    + eapply Hc2; [|done]. lia.
  - eapply rng_mono; [by eapply swaps_rng|lia|lia|done].
Qed.

Context `{!ThreeWay (fun x y => c x y)}.

Lemma partition_spec arr S E :
  0 <= S -> S + 2 <= E -> E <= zlen arr ->
  exists arr' lp rp v, partition cmp opts arr S E = Some (arr', lp, rp) /\
    swaps S E arr arr' /\ parted S E v arr' lp rp.
Proof.
  intros HS HSE HE. unfold partition.
  assert (S <= pick_pivot S E < E) as Hpv.
  { unfold pick_pivot. rewrite Z.quot_div_nonneg by lia.
    pose proof (Z.div_pos (E - S) 2 ltac:(lia) ltac:(lia)).
    pose proof (Z.div_lt (E - S) 2 ltac:(lia) ltac:(lia)). lia. }
  destruct (zget_lt_is_Some arr (E - 1)) as [x Hx]; [lia|].
  destruct (zget_lt_is_Some arr (pick_pivot S E)) as [v Hv]; [lia|].
  destruct (exch_spec _ _ _ _ _ Hx Hv) as (arr0 & He & Hp & Hg). rewrite He.
  cbn [mbind option_bind].
  assert (swaps S E arr arr0) as Hs0 by (eapply swaps_one; [| |exact He]; lia).
  assert (part_inv S E v arr0 S S (E - 1 - 1) (E - 1 - 1)) as HI.
  { split; try (intros k z Hk; lia); [rewrite Hp; lia|lia|].
    rewrite Hg. by rewrite decide_True by lia. }
  destruct (part_loop_spec (Z.to_nat (E - S)) _ _ _ _ _ _ _ _ HI)
    as (arr1 & le & lp & re & Hloop & HI1 & Hs1); [lia|].
  rewrite Hloop. cbn [mbind option_bind].
  pose proof (swaps_trans _ _ _ _ _ Hs0 Hs1) as Hs01.
  pose proof (swaps_length _ _ _ _ Hs01) as Hlen.
  destruct (part_inv_get _ _ _ _ _ _ _ _ lp HI1) as [y Hy].
  { pose proof (pi_ord _ _ _ _ _ _ _ _ HI1). lia. }
  destruct HI1 as [_ Ho Hpv1 Hl0 Hlt Hgt Hr0].
  rewrite (cmp_at_Some _ _ _ _ _ Hy Hpv1). cbn [mbind option_bind].
  set (lp' := if 0 <? c y v then lp - 1 else lp).
  set (rp' := if c y v <? 0 then lp + 1 else lp).
  assert (rng arr1 (E - 1) E (fun x => c x v = 0)) as Hpe.
  { intros k z Hk Hz. replace k with (E - 1) in Hz by lia. simplify_eq.
    apply (tw_refl (fun x y => c x y)). }
  assert (rng arr1 (re + 1) E (fun x => c x v = 0)) as Hr0'.
  { eapply rng_split; [exact Hr0|exact Hpe]. }
  assert (lp - 1 <= lp' /\ lp' <= rp' <= lp' + 1 /\ lp <= rp' <= lp + 1 /\ lp' <= lp) as Hord.
  { unfold lp', rp'. destruct (Z.ltb_spec 0 (c y v)), (Z.ltb_spec (c y v) 0); lia. }
  assert (rng arr1 S (lp' + 1) (fun x => c x v <= 0)) as Hle'.
  { intros k z Hk Hz. destruct (decide (k < le)).
    { rewrite (Hl0 k z); [done|lia|done]. }
    destruct (decide (k < lp)). { specialize (Hlt k z ltac:(lia) Hz). simpl in Hlt. lia. }
    replace k with lp in * by lia. assert (z = y) as -> by congruence. unfold lp' in Hk.
    destruct (Z.ltb_spec 0 (c y v)); lia. }
  assert (rng arr1 rp' E (fun x => 0 <= c x v)) as Hge'.
  { intros k z Hk Hz. destruct (decide (re < k)).
    { rewrite (Hr0' k z); [done|lia|done]. }
    destruct (decide (lp < k)). { specialize (Hgt k z ltac:(lia) Hz). simpl in Hgt. lia. }
    replace k with lp in * by lia. assert (z = y) as -> by congruence. unfold rp' in Hk.
    destruct (Z.ltb_spec (c y v) 0); lia. }
  destruct (centre_spec S E v arr1 le re lp' rp')
    as (arr2 & arr3 & lpF & rpF & He2 & He3 & Hs3 & HP); try (done || lia).
  rewrite He2. cbn [mbind option_bind]. rewrite He3. cbn [mbind option_bind].
  exists arr3, lpF, rpF, v. split; [done|]. split; [by eapply swaps_trans|done].
Qed.

(** ** Sorting *)

Definition sorted_on arr (S E : Z) : Prop :=
  forall i j x y, S <= i <= j -> j < E -> zget arr i = Some x -> zget arr j = Some y ->
    c x y <= 0.

(** What a recursive call does to the range it is given. *)
Definition sorts (f : list A -> Z -> Z -> option (list A)) (n : Z) : Prop :=
  forall arr S E, 0 <= S -> S <= E -> E - S < n -> E <= zlen arr ->
    exists arr', f arr S E = Some arr' /\ swaps S E arr arr' /\ sorted_on arr' S E.

Lemma sorted_on_small arr S E : E - S <= 1 -> sorted_on arr S E.
Proof.
  intros HE i j x y Hi Hj Hx Hy. replace j with i in Hy by lia. simplify_eq.
  rewrite (tw_refl (fun x y => c x y)). done.
Qed.

Lemma sorted_on_swaps_outside arr arr' S E lo hi :
  swaps lo hi arr arr' -> E <= lo \/ hi <= S -> sorted_on arr S E -> sorted_on arr' S E.
Proof.
  intros Hs Hd Ho i j x y Hi Hj. rewrite !(swaps_outside _ _ _ _ _ Hs) by lia.
  by apply Ho.
Qed.

(** Three sorted runs around a pivot make a sorted range. *)
Lemma parted_sorted S E v arr lp rp :
  parted S E v arr lp rp -> sorted_on arr S (lp + 1) -> sorted_on arr rp E ->
  sorted_on arr S E.
Proof.
  intros [Ho Hle Heq Hge] Hl Hr i j x y Hi Hj Hx Hy.
  assert (j < rp -> c y v <= 0) as Hyv.
  { intros ?. destruct (decide (j < lp + 1)); [by eapply (Hle j); [lia|]|].
    rewrite (Heq j y); [done|lia|done]. }
  assert (lp + 1 <= i -> 0 <= c x v) as Hvx.
  { intros ?. destruct (decide (i < rp)); [|eapply (Hge i); [lia|done]].
    rewrite (Heq i x); [done|lia|done]. }
  assert (i < rp -> c x v <= 0) as Hxv.
  { intros ?. destruct (decide (i < lp + 1)); [by eapply (Hle i); [lia|]|].
    rewrite (Heq i x); [done|lia|done]. }
  assert (lp + 1 <= j -> 0 <= c y v) as Hvy.
  { intros ?. destruct (decide (j < rp)); [|eapply (Hge j); [lia|done]].
    rewrite (Heq j y); [done|lia|done]. }
  destruct (decide (j < lp + 1)); [by eapply (Hl i j); try lia|].
  destruct (decide (rp <= i)); [by eapply (Hr i j); try lia|].
  apply (tw_trans (c := fun x y => c x y) x v y); [apply Hxv; lia|].
  apply (tw_le (fun x y => c x y)). apply Hvy. lia.
Qed.

Lemma parted_swaps_left S E v arr arr' lp rp :
  parted S E v arr lp rp -> swaps S (lp + 1) arr arr' -> parted S E v arr' lp rp.
Proof.
  intros [Ho Hle Heq Hge] Hs. split; [done| | |].
  - by eapply swaps_rng.
  - eapply swaps_rng_outside; [done|lia|done].
  - eapply swaps_rng_outside; [done|lia|done].
Qed.

Lemma parted_swaps_right S E v arr arr' lp rp :
  parted S E v arr lp rp -> swaps rp E arr arr' -> parted S E v arr' lp rp.
Proof.
  intros [Ho Hle Heq Hge] Hs. split; [done| | |].
  - eapply swaps_rng_outside; [done|lia|done].
  - eapply swaps_rng_outside; [done|lia|done].
  - by eapply swaps_rng.
Qed.

Lemma sort_spec f n : sorts f n -> sorts (fun arr S E =>
  if bool_decide (S + 2 <= E) then sort cmp opts f arr S E else Some arr) (n + 1).
Proof.
  intros Hf arr S E HS HSE Hn HE. case_bool_decide.
  2:{ exists arr. split; [done|]. split; [constructor|]. apply sorted_on_small. lia. }
  unfold sort.
  destruct (partition_spec arr S E) as (arr1 & lp & rp & v & -> & Hs1 & HP); [done..|].
  cbn [mbind option_bind]. pose proof (pt_ord _ _ _ _ _ _ HP) as Ho.
  pose proof (swaps_length _ _ _ _ Hs1) as Hlen1.
  assert (exists arr2, (if S <? lp then f arr1 S (lp + 1) else Some arr1) = Some arr2 /\
    swaps S (lp + 1) arr1 arr2 /\ sorted_on arr2 S (lp + 1)) as (arr2 & -> & Hs2 & Ho2).
  { destruct (Z.ltb_spec S lp).
    - apply Hf; lia.
    - exists arr1. split; [done|]. split; [constructor|]. apply sorted_on_small. lia. }
  cbn [mbind option_bind]. pose proof (swaps_length _ _ _ _ Hs2) as Hlen2.
  pose proof (parted_swaps_left _ _ _ _ _ _ _ HP Hs2) as HP2.
  assert (exists arr3, (if rp <? E - 1 then f arr2 rp (E - 1 + 1) else Some arr2) = Some arr3 /\
    swaps rp E arr2 arr3 /\ sorted_on arr3 rp E) as (arr3 & -> & Hs3 & Ho3).
  { replace (E - 1 + 1) with E by lia. destruct (Z.ltb_spec rp (E - 1)).
    - apply Hf; lia.
    - exists arr2. split; [done|]. split; [constructor|]. apply sorted_on_small. lia. }
  exists arr3. split; [done|]. split.
  - eapply swaps_trans; [exact Hs1|]. eapply swaps_trans; eapply swaps_mono;
      [..|exact Hs2| | |exact Hs3]; lia.
  - eapply parted_sorted; [by eapply parted_swaps_right| |done].
    eapply sorted_on_swaps_outside; [exact Hs3|lia|done].
Qed.

Lemma order2_spec arr lo hi a b x y :
  lo <= a < hi -> lo <= b < hi -> zget arr a = Some x -> zget arr b = Some y ->
  exists arr' x' y', order2 cmp opts arr a b = Some arr' /\ swaps lo hi arr arr' /\
    c x' y' <= 0 /\ (x' = x /\ y' = y \/ x' = y /\ y' = x) /\
    (c x y <= 0 -> x' = x) /\ (0 < c x y -> x' = y) /\
    forall i, zget arr' i =
      if decide (i = a) then Some x' else if decide (i = b) then Some y' else zget arr i.
Proof.
  intros Ha Hb Hx Hy. unfold order2. rewrite (cmp_at_Some _ _ _ _ _ Hx Hy).
  cbn [mbind option_bind]. destruct (Z.ltb_spec 0 (c x y)).
  - destruct (exch_spec _ _ _ _ _ Hx Hy) as (arr' & He & _ & Hg).
    exists arr', y, x. split; [done|]. split; [exact (swaps_one _ _ _ _ _ _ Ha Hb He)|].
    pose proof (tw_anti (c := fun x y => c x y) y x) as Han. simpl in Han.
    split; [lia|]. split; [by right|]. split; [lia|]. split; [done|]. done.
  - exists arr, x, y. split; [done|]. split; [constructor|]. split; [lia|].
    split; [by left|]. split; [done|]. split; [lia|].
    intros i. repeat case_decide; congruence.
Qed.

Ltac decide_idx := repeat case_decide; first [done | lia].

Lemma sort2_spec arr S :
  0 <= S -> S + 2 <= zlen arr ->
  exists arr', sort2 cmp opts arr S = Some arr' /\ swaps S (S + 2) arr arr' /\
    sorted_on arr' S (S + 2).
Proof.
  intros HS HE. destruct (zget_lt_is_Some arr (S + 0)) as [x Hx]; [lia|].
  destruct (zget_lt_is_Some arr (S + 1)) as [y Hy]; [lia|].
  destruct (order2_spec arr S (S + 2) (S + 0) (S + 1) x y) as (arr' & x' & y' & He & Hs & Hc & _ & _ & _ & Hg);
    [lia|lia|done|done|].
  exists arr'. split; [done|]. split; [done|]. intros i j u w Hi Hj. rewrite !Hg.
  assert (i = S + 0 \/ i = S + 1) as [->| ->] by lia;
    assert (j = S + 0 \/ j = S + 1) as [->| ->] by lia; try lia;
    repeat case_decide; try lia; intros; simplify_eq;
    try done; rewrite (tw_refl (fun x y => c x y)); done.
Qed.

Lemma sort3_spec arr S :
  0 <= S -> S + 3 <= zlen arr ->
  exists arr', sort3 cmp opts arr S = Some arr' /\ swaps S (S + 3) arr arr' /\
    sorted_on arr' S (S + 3).
Proof.
  intros HS HE. unfold sort3.
  destruct (zget_lt_is_Some arr (S + 0)) as [x0 Hx0]; [lia|].
  destruct (zget_lt_is_Some arr (S + 1)) as [x1 Hx1]; [lia|].
  destruct (zget_lt_is_Some arr (S + 2)) as [x2 Hx2]; [lia|].
  destruct (order2_spec arr S (S + 3) (S + 0) (S + 1) _ _ ltac:(lia) ltac:(lia) Hx0 Hx1)
    as (arr1 & a0 & a1 & -> & Hs1 & Hc1 & _ & _ & _ & Hg1). cbn [mbind option_bind].
  assert (zget arr1 (S + 1) = Some a1) as Ha1 by (rewrite Hg1; decide_idx).
  assert (zget arr1 (S + 2) = Some x2) as Ha2 by (rewrite Hg1; decide_idx).
  destruct (order2_spec arr1 S (S + 3) (S + 1) (S + 2) _ _ ltac:(lia) ltac:(lia) Ha1 Ha2)
    as (arr2 & b1 & b2 & -> & Hs2 & Hc2 & Hor2 & Hle2 & Hgt2 & Hg2). cbn [mbind option_bind].
  assert (c a0 b2 <= 0) as Ha0b2.
  { destruct Hor2 as [[-> ->]|[-> ->]]; [|done].
    by apply (tw_trans (c := fun x y => c x y) a0 a1 x2). }
  assert (zget arr2 (S + 0) = Some a0) as Hb0.
  { rewrite Hg2, Hg1. decide_idx. }
  assert (zget arr2 (S + 1) = Some b1) as Hb1 by (rewrite Hg2; decide_idx).
  destruct (order2_spec arr2 S (S + 3) (S + 0) (S + 1) _ _ ltac:(lia) ltac:(lia) Hb0 Hb1)
    as (arr3 & d0 & d1 & -> & Hs3 & Hc3 & Hor3 & _ & _ & Hg3).
  assert (c d1 b2 <= 0) as Hd1 by (destruct Hor3 as [[-> ->]|[-> ->]]; done).
  assert (c d0 b2 <= 0) as Hd0 by (destruct Hor3 as [[-> ->]|[-> ->]]; done).
  exists arr3. split; [done|].
  split; [by eapply swaps_trans; [|eapply swaps_trans]|].
  intros i j u w Hi Hj. rewrite !Hg3, !Hg2.
  assert (i = S + 0 \/ i = S + 1 \/ i = S + 2) as [->|[->| ->]] by lia;
    assert (j = S + 0 \/ j = S + 1 \/ j = S + 2) as [->|[->| ->]] by lia; try lia;
    repeat case_decide; try lia; intros; simplify_eq;
    try done; rewrite (tw_refl (fun x y => c x y)); done.
Qed.

Lemma srec_spec fuel : sorts (srec cmp opts fuel) (Z.of_nat fuel).
Proof.
  induction fuel as [|fuel IH]; intros arr S E HS HSE Hn HE; [lia|]. cbn [srec].
  destruct (Z.leb_spec (E - S) 1).
  { exists arr. split; [done|]. split; [constructor|]. by apply sorted_on_small. }
  destruct (Z.eqb_spec (E - S) 2).
  { replace E with (S + 2) by lia. apply sort2_spec; lia. }
  destruct (Z.eqb_spec (E - S) 3).
  { replace E with (S + 3) by lia. apply sort3_spec; lia. }
  destruct (sort_spec _ _ IH arr S E) as (arr' & He & ?); try lia.
  rewrite bool_decide_true in He by lia. eauto.
Qed.

End partition.

(** C30. [qsortx] sorts: for any comparator that is a three-way order, any
    array and any count within it, it terminates without touching a cell
    outside of the first [n], and leaves there a sorted permutation of what was
    there. *)
Theorem qsortx_sorts {A} (cmp : A -> A -> Z -> Z) (opts : Z) (l rest : list A)
    `{!ThreeWay (fun x y => cmp x y opts)} :
  exists l', qsortx cmp opts (l ++ rest) (zlen l) = Some (l' ++ rest) /\
    l' ≡ₚ l /\ StronglySorted (fun x y => cmp x y opts <= 0) l'.
Proof.
  unfold qsortx. rewrite Nat2Z.id, Z.add_0_l.
  destruct (srec_spec cmp opts (S (length l)) (l ++ rest) 0 (zlen l))
    as (out & -> & Hs & Ho); try lia; [rewrite length_app; lia|].
  pose proof (swaps_length _ _ _ _ Hs) as Hlen. rewrite length_app in Hlen.
  assert (out = take (length l) out ++ rest) as Hout.
  { rewrite <- (take_drop (length l) out) at 1. f_equal. apply list_eq_zget. intros i.
    destruct (decide (0 <= i)); [|by rewrite !zget_neg by lia].
    rewrite zget_drop by lia. rewrite (swaps_outside _ _ _ _ _ Hs) by lia.
    rewrite zget_app_r by lia. f_equal. lia. }
  exists (take (length l) out). split; [by rewrite <- Hout|]. split.
  - apply (Permutation_app_inv_r rest). rewrite <- Hout. by eapply swaps_perm.
  - assert (length (take (length l) out) = length l) as Hl by (rewrite length_take; lia).
    assert (forall i j x y, (i <= j)%nat -> take (length l) out !! i = Some x ->
      take (length l) out !! j = Some y -> cmp x y opts <= 0) as Hsorted.
    { intros i j x y Hij Hx Hy. apply lookup_lt_Some in Hx as Hi. apply lookup_lt_Some in Hy as Hj.
      rewrite lookup_take_lt in Hx by lia. rewrite lookup_take_lt in Hy by lia.
      apply (Ho (Z.of_nat i) (Z.of_nat j)); [lia|lia|by rewrite zget_nat|by rewrite zget_nat]. }
    clear -Hsorted. induction (take (length l) out) as [|x k IH]; constructor.
    + apply IH. intros i j u w Hij Hu Hw. by apply (Hsorted (S i) (S j)); [lia|..].
    + apply Forall_lookup. intros j y Hy. by apply (Hsorted 0%nat (S j)); [lia|..].
Qed.

(** Sorting records by their second component. *)
Lemma qsortx_sorts_witness :
  let cmp (x y : Z * Z) (opts : Z) := snd x - snd y in
  let l := [(1, 7); (2, 3); (3, 9); (4, 3); (5, 1)] in
  exists l', qsortx cmp 0 (l ++ [(6, 0)]) (zlen l) = Some (l' ++ [(6, 0)]) /\
    l' ≡ₚ l /\ StronglySorted (fun x y => cmp x y 0 <= 0) l'.
Proof.
  intros cmp l. apply (qsortx_sorts cmp 0 l [(6, 0)]).
Defined.
