(* ===== verification/Time.v ===== *)
(** * lib/time and [fmttm]: calendar time

    [struct tm] and [struct timeval] are records of integers; [int] fields and
    intermediate results are 32-bit, [time_t] is 64-bit.  The specification is
    the proleptic Gregorian calendar: a date is valid when the month has that
    day, and its day number counts days from 1970-01-01. *)
From S2P Require Import Prelude Mem Str Fmt.

(** ** The program *)

(** [lib/bits/time.h: tm] *)
Record tm := Tm {
  tm_sec : Z; tm_min : Z; tm_hour : Z; tm_mday : Z; tm_mon : Z; tm_year : Z;
  tm_wday : Z; tm_yday : Z; tm_isdst : Z }.

(** [lib/bits/time.h: timeval] *)
Record timeval := Timeval { tv_sec : Z; tv_usec : Z }.

(** [lib/time/tm2tv.c: mdays] *)
Definition mdays : list Z := [31; 28; 31; 30; 31; 30; 31; 31; 30; 31; 30; 31].

(** [lib/time/tm2tv.c: tm2tv 28-29] a month past the table is out of bounds *)
Fixpoint add_mdays (fuel : nat) (i mon ts : Z) : option Z :=
  if i <? mon then
    match fuel with
    | O => None
    | S fuel => d ← zget mdays i; add_mdays fuel (i + 1) mon (s64 (ts + d))
    end
  else Some ts.

(** [lib/time/tm2tv.c: tm2tv] *)
Definition tm2tv (t : tm) : option timeval :=
  let day := tm_mday t in
  let mon := tm_mon t in
  let year := s32 (tm_year t + 1900) in
  let ts := s32 (s32 (year - 1970) * 365) in
  let year := if mon <? 2 then s32 (year - 1) else year in
  let leaps_to_1970 := cdiv 1970 4 - cdiv 1970 100 + cdiv 1970 400 in
  let leaps_to_year := s32 (cdiv year 4 - cdiv year 100 + cdiv year 400) in
  let ts := s64 (ts + s32 (leaps_to_year - leaps_to_1970)) in
  ts ← add_mdays 12 0 mon ts;
  let ts := s64 (ts + s32 (day - 1)) in
  let ts := s64 (ts * 24 + tm_hour t) in
  let ts := s64 (ts * 60 + tm_min t) in
  let ts := s64 (ts * 60 + tm_sec t) in
  Some (Timeval ts 0).

(** [lib/time/tv2tm.c: LEAPOCH] *)
Definition LEAPOCH : Z := 946684800 + 86400 * (31 + 29).
(** [lib/time/tv2tm.c: DAYS_PER_400Y] *)
Definition DAYS_PER_400Y : Z := 365 * 400 + 97.
(** [lib/time/tv2tm.c: DAYS_PER_100Y] *)
Definition DAYS_PER_100Y : Z := 365 * 100 + 24.
(** [lib/time/tv2tm.c: DAYS_PER_4Y] *)
Definition DAYS_PER_4Y : Z := 365 * 4 + 1.

(** [lib/time/tv2tm.c: mdays 47] months from March on *)
Definition mdays_march : list Z := [31; 30; 31; 30; 31; 31; 30; 31; 30; 31; 31; 29].

(** [lib/time/tv2tm.c: tv2tm 78-80] the months left are the fuel: [mon < 12] *)
Fixpoint find_month (rest : list Z) (mon days : Z) : Z * Z :=
  match rest with
  | [] => (mon, days)
  | d :: rest => if d <=? days then find_month rest (mon + 1) (days - d) else (mon, days)
  end.

(** [lib/time/tv2tm.c: tv2tm] *)
Definition tv2tm (tv : timeval) : tm :=
  let ts := s64 (tv_sec tv - LEAPOCH) in
  let days := s32 (cdiv ts 86400) in
  let secs := s32 (crem ts 86400) in
  let '(secs, days) := if secs <? 0 then (secs + 86400, s32 (days - 1)) else (secs, days) in
  let wday := crem (s32 (3 + days)) 7 in
  let wday := if wday <? 0 then wday + 7 else wday in
  let qc := cdiv days DAYS_PER_400Y in
  let days := crem days DAYS_PER_400Y in
  let '(days, qc) := if days <? 0 then (days + DAYS_PER_400Y, qc - 1) else (days, qc) in
  let nc := cdiv days DAYS_PER_100Y in
  let nc := if nc =? 4 then nc - 1 else nc in
  let days := days - nc * DAYS_PER_100Y in
  let nq := cdiv days DAYS_PER_4Y in
  let nq := if nq =? 25 then nq - 1 else nq in
  let days := days - nq * DAYS_PER_4Y in
  let year := cdiv days 365 in
  let year := if year =? 4 then year - 1 else year in
  let days := days - year * 365 in
  let leap := Z.b2z ((year =? 0) && (negb (nq =? 0) || (nc =? 0))) in
  let yday := days + 31 + 28 + leap in
  let yday := if 365 + leap <=? yday then yday - (365 + leap) else yday in
  let year := year + 4 * nq + 100 * nc + 400 * qc in
  let '(mon, days) := find_month mdays_march 0 days in
  let '(mon, year) :=
    if 12 <=? mon + 2 then (mon + 2 - 12, year + 100 + 1) else (mon + 2, year + 100) in
  let mday := days + 1 in
  let sec := crem secs 60 in let secs := cdiv secs 60 in
  let min := crem secs 60 in let secs := cdiv secs 60 in
  let hour := crem secs 24 in
  Tm sec min hour mday mon year wday yday 0.

(** [lib/format/fmttm.c: fmttm] *)
Definition fmttm (m : mem) (p e : ptr) (t : tm) : option (mem * ptr) :=
  '(m, p) ← fmtulp m p e (u64 (s32 (tm_year t + 1900))) 4;
  '(m, p) ← fmtchar m p e 45;
  '(m, p) ← fmtulp m p e (u64 (s32 (tm_mon t + 1))) 2;
  '(m, p) ← fmtchar m p e 45;
  '(m, p) ← fmtulp m p e (u64 (tm_mday t)) 2;
  '(m, p) ← fmtchar m p e 32;
  '(m, p) ← fmtulp m p e (u64 (tm_hour t)) 2;
  '(m, p) ← fmtchar m p e 58;
  '(m, p) ← fmtulp m p e (u64 (tm_min t)) 2;
  '(m, p) ← fmtchar m p e 58;
  fmtulp m p e (u64 (tm_sec t)) 2.

(** ** The Gregorian calendar *)

Definition is_leap (y : Z) : bool :=
  (y mod 4 =? 0) && (negb (y mod 100 =? 0) || (y mod 400 =? 0)).

(** Months are 0-based, as in [struct tm]. *)
Definition month_length (y m : Z) : Z :=
  if m =? 1 then 28 + Z.b2z (is_leap y) else default 0 (zget mdays m).

Definition days_before_month (y m : Z) : Z :=
  foldr Z.add 0 (month_length y <$> seqZ 0 m).

(** Leap days in the years 1..y. *)
Definition leaps (y : Z) : Z := y / 4 - y / 100 + y / 400.

(** Days from 1970-01-01 to the first day of the year. *)
Definition days_before_year (y : Z) : Z := 365 * (y - 1970) + leaps (y - 1) - leaps 1969.

Definition epoch_day (y m d : Z) : Z :=
  days_before_year y + days_before_month y m + (d - 1).

(** A [struct tm] is canonical when its date exists and the derived fields
    agree with it. *)
Record canonical (t : tm) : Prop := {
  can_sec : 0 <= tm_sec t < 60;
  can_min : 0 <= tm_min t < 60;
  can_hour : 0 <= tm_hour t < 24;
  can_mon : 0 <= tm_mon t < 12;
  can_mday : 1 <= tm_mday t <= month_length (tm_year t + 1900) (tm_mon t);
  can_yday : tm_yday t = days_before_month (tm_year t + 1900) (tm_mon t) + tm_mday t - 1;
  can_wday : tm_wday t =
    (4 + epoch_day (tm_year t + 1900) (tm_mon t) (tm_mday t)) mod 7;
  can_isdst : tm_isdst t = 0 }.

(** Seconds since the epoch of the date and time a [struct tm] names. *)
Definition epoch_sec (t : tm) : Z :=
  epoch_day (tm_year t + 1900) (tm_mon t) (tm_mday t) * 86400 +
  tm_hour t * 3600 + tm_min t * 60 + tm_sec t.

Lemma leaps_succ y : leaps y = leaps (y - 1) + Z.b2z (is_leap y).
Proof.
  unfold leaps, is_leap. zcases; simpl; Z.to_euclidean_division_equations; lia.
Qed.

(** ** Lemmas on the calendar *)

Lemma days_before_month_table y m :
  0 <= m < 12 ->
  days_before_month y m =
    default 0 (zget [0; 31; 59; 90; 120; 151; 181; 212; 243; 273; 304; 334] m) +
    (if 2 <=? m then Z.b2z (is_leap y) else 0).
Proof.
  intros Hm. assert (Z.to_nat m < 12)%nat as Hn by lia.
  rewrite <- (Z2Nat.id m) by lia. generalize dependent (Z.to_nat m). intros n Hn.
  do 12 (destruct n as [|n]; [unfold days_before_month, month_length; simpl; lia|]). lia.
Qed.

Lemma days_before_month_next y m :
  0 <= m < 12 -> days_before_month y (m + 1) = days_before_month y m + month_length y m.
Proof.
  intros Hm. unfold days_before_month. rewrite seqZ_app by lia.
  rewrite fmap_app, foldr_app. simpl.
  replace (Z.of_nat 0 + (0 + m)) with m by lia. rewrite Z.add_0_r. generalize (month_length y m). intros d.
  induction (month_length y <$> seqZ 0 m) as [|x l IH]; simpl; lia.
Qed.

Lemma month_length_range y m : 0 <= m < 12 -> 28 <= month_length y m <= 31.
Proof.
  intros Hm. unfold month_length. destruct (Z.eqb_spec m 1).
  { destruct (is_leap y); simpl; lia. }
  revert m Hm n. apply (range_check (fun m => m <> 1 -> 28 <= default 0 (zget mdays m) <= 31) 0 12).
  by vm_compute.
Qed.

(** Months of the year that begins in March. *)
Definition march_before (k : Z) : Z := foldr Z.add 0 (take (Z.to_nat k) mdays_march).

Lemma find_month_spec d :
  0 <= d < 366 ->
  0 <= fst (find_month mdays_march 0 d) < 12 /\
  0 <= snd (find_month mdays_march 0 d) <
    default 0 (zget mdays_march (fst (find_month mdays_march 0 d))) /\
  d = march_before (fst (find_month mdays_march 0 d)) + snd (find_month mdays_march 0 d).
Proof.
  apply (range_check (fun d => 0 <= fst (find_month mdays_march 0 d) < 12 /\
    0 <= snd (find_month mdays_march 0 d) <
      default 0 (zget mdays_march (fst (find_month mdays_march 0 d))) /\
    d = march_before (fst (find_month mdays_march 0 d)) +
      snd (find_month mdays_march 0 d)) 0 366).
  by vm_compute.
Qed.

(** The [k]-th month from March is month [m] of the year that begins in January,
    for a March-year that begins in the year [y0]. *)
Lemma march_month y0 k :
  0 <= k < 12 ->
  if 12 <=? k + 2 then
    days_before_month (y0 + 1) (k + 2 - 12) = march_before k - 306 /\
    (k = 10 -> month_length (y0 + 1) (k + 2 - 12) = 31) /\
    (k = 11 -> month_length (y0 + 1) (k + 2 - 12) = 28 + Z.b2z (is_leap (y0 + 1)))
  else
    days_before_month y0 (k + 2) = march_before k + 59 + Z.b2z (is_leap y0) /\
    month_length y0 (k + 2) = default 0 (zget mdays_march k).
Proof.
  intros Hk. destruct (Z.leb_spec 12 (k + 2)).
  - assert (k = 10 \/ k = 11) as [->| ->] by lia;
      rewrite days_before_month_table by lia; repeat split; lia.
  - rewrite days_before_month_table by lia. rewrite (proj2 (Z.leb_le _ _)) by lia.
    unfold month_length. rewrite (proj2 (Z.eqb_neq _ _)) by lia.
    assert (forall k, 0 <= k < 0 + 10 -> zget mdays (k + 2) = zget mdays_march k /\
      default 0 (zget [0; 31; 59; 90; 120; 151; 181; 212; 243; 273; 304; 334] (k + 2)) =
      march_before k + 59) as Ht.
    { apply (range_check _). by vm_compute. }
    destruct (Ht k) as [-> ->]; [lia|]. split; [lia|done].
Qed.

(** C quotient and remainder, corrected for a negative dividend, are the floor
    division. *)
Lemma floor_fix a b :
  0 < b ->
  (if crem a b <? 0 then (crem a b + b, cdiv a b - 1) else (crem a b, cdiv a b)) =
  (a mod b, a / b).
Proof.
  intros Hb. pose proof (Z.quot_rem a b ltac:(lia)) as Hqr.
  pose proof (Z.rem_bound_abs a b ltac:(lia)).
  destruct (Z.ltb_spec (crem a b) 0).
  - rewrite <- (Z.mod_unique a b (cdiv a b - 1) (crem a b + b)) by lia.
    by rewrite <- (Z.div_unique a b (cdiv a b - 1) (crem a b + b)) by lia.
  - rewrite <- (Z.mod_unique a b (cdiv a b) (crem a b)) by lia.
    by rewrite <- (Z.div_unique a b (cdiv a b) (crem a b)) by lia.
Qed.

(** [tv2tm]: splitting the day of the 400-year cycle, with the caps. *)
Lemma cycle_split r nc d1 nq d2 y d3 :
  0 <= r < 146097 ->
  nc = (if cdiv r 36524 =? 4 then cdiv r 36524 - 1 else cdiv r 36524) ->
  d1 = r - nc * 36524 ->
  nq = (if cdiv d1 1461 =? 25 then cdiv d1 1461 - 1 else cdiv d1 1461) ->
  d2 = d1 - nq * 1461 ->
  y = (if cdiv d2 365 =? 4 then cdiv d2 365 - 1 else cdiv d2 365) ->
  d3 = d2 - y * 365 ->
  0 <= nc <= 3 /\ 0 <= nq <= 24 /\ 0 <= y <= 3 /\ 0 <= d3 < 366 /\
  r = 36524 * nc + 1461 * nq + 365 * y + d3 /\
  (d3 = 365 -> y = 3 /\ (nq = 24 -> nc = 3)).
Proof.
  intros Hr Hnc Hd1 Hnq Hd2 Hy Hd3.
  assert (0 <= nc <= 3 /\ 0 <= d1 <= 36524 /\ (nc < 3 -> d1 < 36524)) as (? & ? & ?).
  { subst nc d1. zcases; Z.to_euclidean_division_equations; lia. }
  assert (0 <= nq <= 24 /\ 0 <= d2 < 1461 /\ (nq = 24 -> nc < 3 -> d2 < 1460)) as (? & ? & ?).
  { subst nq d2. zcases; Z.to_euclidean_division_equations; lia. }
  assert (0 <= y <= 3 /\ 0 <= d3 < 366 /\ (d3 = 365 -> y = 3 /\ d2 = 1460)) as (? & ? & ?).
  { subst y d3. zcases; Z.to_euclidean_division_equations; lia. }
  repeat split; lia.
Qed.

(** The year the split names, and its leap days. *)
Definition march_year (y nq nc qc : Z) : Z := 2000 + (y + 4 * nq + 100 * nc + 400 * qc).

Lemma march_year_divs y nq nc qc :
  0 <= nc <= 3 -> 0 <= nq <= 24 -> 0 <= y <= 3 ->
  march_year y nq nc qc / 4 = 500 + nq + 25 * nc + 100 * qc /\
  march_year y nq nc qc / 100 = 20 + nc + 4 * qc /\
  march_year y nq nc qc / 400 = 5 + qc.
Proof. intros. unfold march_year. Z.to_euclidean_division_equations. lia. Qed.

Lemma march_year_leap y nq nc qc :
  0 <= nc <= 3 -> 0 <= nq <= 24 -> 0 <= y <= 3 ->
  is_leap (march_year y nq nc qc) = (y =? 0) && (negb (nq =? 0) || (nc =? 0)) /\
  (y = 3 -> (nq = 24 -> nc = 3) -> is_leap (march_year y nq nc qc + 1) = true).
Proof.
  intros Hc Hq Hy. destruct (march_year_divs y nq nc qc) as (H4 & H100 & H400); [done..|].
  split.
  - unfold is_leap. rewrite !Z.mod_eq, H4, H100, H400 by lia. unfold march_year.
    zcases; simpl; lia.
  - intros -> Hn. unfold is_leap, march_year.
    replace (2000 + (3 + 4 * nq + 100 * nc + 400 * qc) + 1)
      with (4 * (501 + nq + 25 * nc + 100 * qc)) by lia.
    rewrite (Z.mul_comm 4), Z.mod_mul by lia. simpl.
    destruct (decide (nq = 24)).
    + assert (nc = 3) as -> by auto. subst nq.
      replace ((501 + 24 + 25 * 3 + 100 * qc) * 4) with ((6 + qc) * 400) by lia.
      rewrite Z.mod_mul by lia. by rewrite orb_true_r.
    + destruct (Z.eqb_spec ((501 + nq + 25 * nc + 100 * qc) * 4 mod 100) 0); [|done].
      exfalso. Z.to_euclidean_division_equations. lia.
Qed.

(** [tv2tm]: seconds to days, floored. *)
Lemma day_split ts :
  - 2 ^ 31 * 86400 <= ts < (2 ^ 31 - 3) * 86400 ->
  (if s32 (crem ts 86400) <? 0
   then (s32 (crem ts 86400) + 86400, s32 (s32 (cdiv ts 86400) - 1))
   else (s32 (crem ts 86400), s32 (cdiv ts 86400))) = (ts mod 86400, ts / 86400).
Proof.
  intros Hts. pose proof (Z.rem_bound_abs ts 86400 ltac:(lia)).
  rewrite <- (floor_fix ts 86400) by lia.
  assert (- 2 ^ 31 <= cdiv ts 86400 < 2 ^ 31 - 3 + 1 /\
    (crem ts 86400 < 0 -> - 2 ^ 31 < cdiv ts 86400)) as [? ?].
  { Z.to_euclidean_division_equations. lia. }
  rewrite (s32_small (crem _ _)), (s32_small (cdiv _ _)) by lia.
  destruct (Z.ltb_spec (crem ts 86400) 0); [|done]. by rewrite s32_small by lia.
Qed.

(** The fields of [tv2tm], by the floored day and second counts and the split
    of the day within its 400-year cycle. *)
Lemma tv2tm_fields tv :
  - 2 ^ 31 * 86400 <= tv_sec tv - LEAPOCH < (2 ^ 31 - 3) * 86400 ->
  let D := (tv_sec tv - LEAPOCH) / 86400 in
  let S := (tv_sec tv - LEAPOCH) mod 86400 in
  exists y nq nc qc d k r,
    0 <= nc <= 3 /\ 0 <= nq <= 24 /\ 0 <= y <= 3 /\ 0 <= d < 366 /\
    D = 146097 * qc + (36524 * nc + 1461 * nq + 365 * y + d) /\
    (d = 365 -> y = 3 /\ (nq = 24 -> nc = 3)) /\
    0 <= k < 12 /\ 0 <= r < default 0 (zget mdays_march k) /\ d = march_before k + r /\
    let Y := march_year y nq nc qc in
    let leap := Z.b2z (is_leap Y) in
    let yday := d + 59 + leap in
    tv2tm tv =
      Tm (S mod 60) (S / 60 mod 60) (S / 60 / 60 mod 24) (r + 1)
         (if 12 <=? k + 2 then k + 2 - 12 else k + 2)
         ((if 12 <=? k + 2 then Y + 1 else Y) - 1900) ((3 + D) mod 7)
         (if 365 + leap <=? yday then yday - (365 + leap) else yday) 0.
Proof.
  intros Hts D S.
  unfold tv2tm. rewrite s64_small by lia. rewrite day_split by done.
  fold D S. cbv beta iota zeta.
  assert (0 <= S < 86400) as HS by (apply Z.mod_pos_bound; lia).
  assert (- 2 ^ 31 <= D < 2 ^ 31 - 3) as HD.
  { unfold D. split; [apply Z.div_le_lower_bound|apply Z.div_lt_upper_bound]; lia. }
  rewrite (s32_small (3 + D)) by lia.
  pose proof (floor_fix (3 + D) 7 ltac:(lia)) as Hw.
  assert ((if crem (3 + D) 7 <? 0 then crem (3 + D) 7 + 7 else crem (3 + D) 7) =
    (3 + D) mod 7) as ->.
  { destruct (crem (3 + D) 7 <? 0); congruence. }
  unfold DAYS_PER_400Y, DAYS_PER_100Y, DAYS_PER_4Y.
  change (365 * 400 + 97) with 146097. change (365 * 100 + 24) with 36524.
  change (365 * 4 + 1) with 1461.
  rewrite floor_fix by lia. cbv beta iota zeta.
  assert (D = 146097 * (D / 146097) + D mod 146097) as HDq by (apply Z.div_mod; lia).
  assert (0 <= D mod 146097 < 146097) as HDr by (apply Z.mod_pos_bound; lia).
  revert HDq HDr. generalize (D / 146097) (D mod 146097). intros qc r0 HDq HDr.
  remember (if cdiv r0 36524 =? 4 then cdiv r0 36524 - 1 else cdiv r0 36524) as nc eqn:Hnc.
  remember (r0 - nc * 36524) as d1 eqn:Hd1.
  remember (if cdiv d1 1461 =? 25 then cdiv d1 1461 - 1 else cdiv d1 1461) as nq eqn:Hnq.
  remember (d1 - nq * 1461) as d2 eqn:Hd2.
  remember (if cdiv d2 365 =? 4 then cdiv d2 365 - 1 else cdiv d2 365) as y eqn:Hy.
  remember (d2 - y * 365) as d eqn:Hd.
  destruct (cycle_split r0 nc d1 nq d2 y d HDr Hnc Hd1 Hnq Hd2 Hy Hd)
    as (? & ? & ? & Hd3 & Hr0 & H365).
  destruct (march_year_leap y nq nc qc) as [Hleap _]; [done..|].
  destruct (find_month_spec d Hd3) as (? & ? & Hdk).
  destruct (find_month mdays_march 0 d) as [k r] eqn:Hf. cbn [fst snd] in *.
  exists y, nq, nc, qc, d, k, r. do 4 (split; [done|]). split; [lia|].
  do 4 (split; [done|]). cbv zeta. rewrite Hleap.
  rewrite !Z.quot_div_nonneg, !Z.rem_mod_nonneg by
    (try lia; repeat apply Z.div_pos; lia).
  replace (d + 31 + 28) with (d + 59) by lia. unfold march_year.
  destruct (12 <=? k + 2); f_equal; lia.
Qed.

(** The day number of a month and day of a year that begins in March. *)
Lemma march_epoch_day y nq nc qc k r :
  0 <= nc <= 3 -> 0 <= nq <= 24 -> 0 <= y <= 3 -> 0 <= k < 12 ->
  let Y := march_year y nq nc qc in
  epoch_day (if 12 <=? k + 2 then Y + 1 else Y)
    (if 12 <=? k + 2 then k + 2 - 12 else k + 2) (r + 1) =
  11017 + (146097 * qc + (36524 * nc + 1461 * nq + 365 * y + (march_before k + r))).
Proof.
  intros Hnc Hnq Hy Hk Y. destruct (march_year_divs y nq nc qc) as (H4 & H100 & H400); [done..|].
  pose proof (march_month Y k Hk) as Hm. pose proof (leaps_succ Y) as HL.
  fold Y in H4, H100, H400.
  assert (leaps Y = 485 + nq + 24 * nc + 97 * qc) as HlY by (unfold leaps; lia).
  unfold epoch_day, days_before_year. change (leaps 1969) with 477.
  destruct (12 <=? k + 2).
  - destruct Hm as (-> & _). replace (Y + 1 - 1) with Y by lia.
    rewrite HlY. unfold Y, march_year. lia.
  - destruct Hm as (-> & _). rewrite <- (Z.add_simpl_r (leaps (Y - 1)) (Z.b2z (is_leap Y))), <- HL, HlY.
    unfold Y, march_year. lia.
Qed.

Lemma tv2tm_canonical tv :
  - 2 ^ 31 * 86400 <= tv_sec tv - LEAPOCH < (2 ^ 31 - 3) * 86400 ->
  canonical (tv2tm tv) /\ epoch_sec (tv2tm tv) = tv_sec tv.
Proof.
  intros Hts. destruct (tv2tm_fields tv Hts)
    as (y & nq & nc & qc & d & k & r & Hnc & Hnq & Hy & Hd & HD & H365 & Hk & Hr & Hdk & ->).
  set (S := _ mod 86400) in *. set (D := (tv_sec tv - LEAPOCH) / 86400) in *.
  set (Y := march_year y nq nc qc).
  pose proof (march_epoch_day y nq nc qc k r Hnc Hnq Hy Hk) as He. cbv zeta in He. fold Y in He.
  rewrite <- Hdk, <- HD in He.
  assert (0 <= S < 86400) as HS by (apply Z.mod_pos_bound; lia).
  assert (tv_sec tv = LEAPOCH + 86400 * D + S) as Htv.
  { pose proof (Z.div_mod (tv_sec tv - LEAPOCH) 86400). unfold S, D. lia. }
  pose proof (march_month Y k Hk) as Hm.
  assert (k < 10 -> march_before k + default 0 (zget mdays_march k) <= 306) as Hk10.
  { clear -Hk. intros Hk'. revert k Hk Hk'.
    apply (range_check (fun k => k < 10 ->
      march_before k + default 0 (zget mdays_march k) <= 306) 0 12). by vm_compute. }
  split; [|unfold epoch_sec; simpl].
  2:{ replace ((if 12 <=? k + 2 then Y + 1 else Y) - 1900 + 1900)
        with (if 12 <=? k + 2 then Y + 1 else Y) by lia.
      rewrite He, Htv. unfold LEAPOCH. Z.to_euclidean_division_equations. lia. }
  split; simpl; rewrite ?Z.sub_add.
  - apply Z.mod_pos_bound. lia.
  - apply Z.mod_pos_bound. lia.
  - apply Z.mod_pos_bound. lia.
  - destruct (Z.leb_spec 12 (k + 2)); lia.
  - destruct (Z.leb_spec 12 (k + 2)).
    + destruct Hm as (_ & H10 & H11). assert (k = 10 \/ k = 11) as [->| ->] by lia.
      * rewrite H10 by done. change (0 <= r < 31) in Hr. lia.
      * rewrite H11 by done. change (0 <= r < 29) in Hr. change (march_before 11) with 337 in Hdk.
        destruct (decide (d = 365)) as [->|]; [|destruct (is_leap (Y + 1)); simpl; lia].
        destruct H365 as [? ?]; [done|].
        unfold Y. rewrite (proj2 (march_year_leap _ _ _ _ Hnc Hnq Hy)) by done. simpl. lia.
    + destruct Hm as [_ ->]. lia.
  - destruct (Z.leb_spec 12 (k + 2)).
    + destruct Hm as (-> & _). assert (march_before k >= 306).
      { assert (k = 10 \/ k = 11) as [->| ->] by lia; vm_compute; done. }
      rewrite (proj2 (Z.leb_le _ _)) by lia. lia.
    + destruct Hm as [-> _]. specialize (Hk10 ltac:(lia)).
      rewrite (proj2 (Z.leb_gt _ _)) by lia. lia.
  - rewrite He. replace (4 + (11017 + D)) with (3 + D + 1574 * 7) by lia.
    by rewrite Z.mod_add by lia.
  - done.
Qed.

(** ** [tm2tv] and the uniqueness of canonical times *)

Lemma add_mdays_spec mon ts :
  0 <= mon < 12 -> - 2 ^ 62 <= ts < 2 ^ 62 ->
  add_mdays 12 0 mon ts =
    Some (ts + default 0 (zget [0; 31; 59; 90; 120; 151; 181; 212; 243; 273; 304; 334] mon)).
Proof.
  intros Hm Hts. rewrite <- (Z2Nat.id mon) by lia.
  assert (Z.to_nat mon < 12)%nat as Hn by lia.
  generalize dependent (Z.to_nat mon). intros n Hn. clear Hm mon.
  do 12 (destruct n as [|n]; [simpl; repeat (rewrite (s64_small (ts + _)) by lia; rewrite <- ?Z.add_assoc);
    f_equal; lia|]). lia.
Qed.

Definition int32 (x : Z) : Prop := - 2 ^ 31 <= x < 2 ^ 31.

Lemma tm2tv_spec t :
  1 <= tm_year t + 1900 <= 5000000 -> 0 <= tm_mon t < 12 -> int32 (tm_mday t) ->
  - 2 ^ 31 < tm_mday t -> int32 (tm_hour t) -> int32 (tm_min t) -> int32 (tm_sec t) ->
  tm2tv t = Some (Timeval (epoch_sec t) 0).
Proof.
  unfold int32. intros Hy Hm Hd Hd' Hh Hmi Hs. unfold tm2tv.
  set (y := tm_year t + 1900) in *. rewrite (s32_small y) by lia.
  rewrite (s32_small (y - 1970)), (s32_small ((y - 1970) * 365)) by lia.
  set (y' := if tm_mon t <? 2 then _ else y).
  assert (y' = y - (if tm_mon t <? 2 then 1 else 0)) as Hy'.
  { unfold y'. destruct (tm_mon t <? 2); [rewrite s32_small by lia|]; lia. }
  assert (0 <= y' <= 5000000) as Hy'r by (rewrite Hy'; destruct (tm_mon t <? 2); lia).
  assert (cdiv y' 4 - cdiv y' 100 + cdiv y' 400 = leaps y') as ->
    by (rewrite !Z.quot_div_nonneg by lia; done).
  change (cdiv 1970 4 - cdiv 1970 100 + cdiv 1970 400) with 477.
  assert (0 <= leaps y' <= 1500000) as Hl.
  { unfold leaps. Z.to_euclidean_division_equations. lia. }
  rewrite (s32_small (leaps y')), (s32_small (_ - 477)), (s64_small (_ + (_ - 477))) by lia.
  rewrite add_mdays_spec by lia. cbn [mbind option_bind].
  set (tab := default 0 _). pose proof (days_before_month_table y (tm_mon t) Hm) as Ht.
  fold tab in Ht.
  assert (0 <= tab <= 334) as Htab.
  { unfold tab. clear -Hm. revert Hm. generalize (tm_mon t).
    apply (range_check (fun m => 0 <= default 0 (zget _ m) <= 334) 0 12). by vm_compute. }
  rewrite (s32_small (_ - 1)) by lia.
  rewrite (s64_small (_ + (tm_mday t - 1))), (s64_small (_ + tm_hour t)),
    (s64_small (_ + tm_min t)), (s64_small (_ + tm_sec t)) by lia.
  do 2 f_equal.
  unfold epoch_sec, epoch_day, days_before_year. fold y. rewrite Ht.
  change (leaps 1969) with 477.
  pose proof (leaps_succ y) as Hls.
  rewrite Hy'. destruct (Z.ltb_spec (tm_mon t) 2), (Z.leb_spec 2 (tm_mon t)); try lia.
  rewrite Z.sub_0_r. lia.
Qed.

Lemma days_before_year_next y :
  days_before_year (y + 1) = days_before_year y + 365 + Z.b2z (is_leap y).
Proof.
  unfold days_before_year. pose proof (leaps_succ y).
  replace (y + 1 - 1) with y by lia. lia.
Qed.

Lemma days_before_year_mono y z : y <= z -> days_before_year y <= days_before_year z.
Proof.
  intros H. assert (exists n, z = y + Z.of_nat n) as [n ->] by (exists (Z.to_nat (z - y)); lia).
  clear H. induction n as [|n IH]; [by rewrite Z.add_0_r|].
  replace (y + Z.of_nat (S n)) with (y + Z.of_nat n + 1) by lia.
  rewrite days_before_year_next. destruct (is_leap _); simpl; lia.
Qed.

Lemma days_before_month_mono y m n :
  0 <= m <= n -> n <= 12 -> days_before_month y m <= days_before_month y n.
Proof.
  intros H Hn. assert (exists k, n = m + Z.of_nat k) as [k ->] by (exists (Z.to_nat (n - m)); lia).
  induction k as [|k IH]; [by rewrite Z.add_0_r|].
  replace (m + Z.of_nat (S k)) with (m + Z.of_nat k + 1) by lia.
  rewrite days_before_month_next by lia.
  pose proof (month_length_range y (m + Z.of_nat k)). lia.
Qed.

Lemma days_in_year y : days_before_month y 12 = 365 + Z.b2z (is_leap y).
Proof.
  change 12 with (11 + 1). rewrite days_before_month_next by lia.
  rewrite days_before_month_table by lia. unfold month_length. by destruct (is_leap y).
Qed.

(** A day number names one date. *)
Lemma epoch_day_inj y m d y' m' d' :
  0 <= m < 12 -> 1 <= d <= month_length y m ->
  0 <= m' < 12 -> 1 <= d' <= month_length y' m' ->
  epoch_day y m d = epoch_day y' m' d' -> y = y' /\ m = m' /\ d = d'.
Proof.
  assert (forall y m d y' m' d', 0 <= m < 12 -> 1 <= d <= month_length y m ->
    0 <= m' < 12 -> 1 <= d' <= month_length y' m' -> y < y' ->
    epoch_day y m d < epoch_day y' m' d') as Hyear.
  { clear. intros y m d y' m' d' Hm Hd Hm' Hd' Hy. unfold epoch_day.
    pose proof (days_before_year_mono (y + 1) y' ltac:(lia)) as H.
    rewrite days_before_year_next in H.
    pose proof (days_before_month_mono y (m + 1) 12 ltac:(lia) ltac:(lia)) as H12.
    rewrite days_in_year, days_before_month_next in H12 by lia.
    pose proof (days_before_month_mono y' 0 m' ltac:(lia) ltac:(lia)) as H0.
    change (days_before_month y' 0) with 0 in H0. lia. }
  assert (forall m d m' d', 0 <= m < 12 -> 1 <= d <= month_length y m ->
    0 <= m' < 12 -> 1 <= d' <= month_length y m' -> m < m' ->
    epoch_day y m d < epoch_day y m' d') as Hmonth.
  { clear. intros m d m' d' Hm Hd Hm' Hd' Hlt. unfold epoch_day.
    pose proof (days_before_month_mono y (m + 1) m' ltac:(lia) ltac:(lia)) as H.
    rewrite days_before_month_next in H by lia. lia. }
  intros Hm Hd Hm' Hd' He.
  destruct (Z.lt_trichotomy y y') as [Hlt|[<-|Hlt]];
    [pose proof (Hyear _ _ _ _ _ _ Hm Hd Hm' Hd' Hlt); lia|
    |pose proof (Hyear _ _ _ _ _ _ Hm' Hd' Hm Hd Hlt); lia].
  destruct (Z.lt_trichotomy m m') as [Hlt|[<-|Hlt]];
    [pose proof (Hmonth _ _ _ _ Hm Hd Hm' Hd' Hlt); lia|
    |pose proof (Hmonth _ _ _ _ Hm' Hd' Hm Hd Hlt); lia].
  unfold epoch_day in He. split; [done|]. split; [done|lia].
Qed.

Lemma canonical_inj t t' : canonical t -> canonical t' -> epoch_sec t = epoch_sec t' -> t = t'.
Proof.
  intros Ht Ht' He. destruct Ht as [? ? ? Hm Hd Hyd Hwd ?], Ht' as [? ? ? Hm' Hd' Hyd' Hwd' ?].
  unfold epoch_sec in He.
  destruct (epoch_day_inj _ _ _ _ _ _ Hm Hd Hm' Hd') as (Hy & Hmon & Hmd).
  { Z.to_euclidean_division_equations. lia. }
  rewrite Hy, Hmon, Hmd in *. destruct t, t'; simpl in *. f_equal; lia.
Qed.

(** ** Theorems *)

(** C31. [tv2tm] computes the Gregorian date and time of day of a time stamp,
    for every time stamp whose day number fits an [int]: all fields are in
    range, the date exists, [wday] and [yday] agree with it, and the fields
    denote the time stamp; from the year 1 on, [tm2tv] gives it back. *)
Theorem tv2tm_calendar tv :
  - 2 ^ 31 * 86400 <= tv_sec tv - LEAPOCH < (2 ^ 31 - 3) * 86400 ->
  canonical (tv2tm tv) /\ epoch_sec (tv2tm tv) = tv_sec tv /\
  (1 <= tm_year (tv2tm tv) + 1900 <= 5000000 ->
   tm2tv (tv2tm tv) = Some (Timeval (tv_sec tv) 0)).
Proof.
  intros Hts. destruct (tv2tm_canonical tv Hts) as [Hc He]. split; [done|]. split; [done|].
  intros Hy. rewrite <- He. destruct Hc as [? ? ? Hm Hd _ _ _].
  pose proof (month_length_range (tm_year (tv2tm tv) + 1900) _ Hm).
  apply tm2tv_spec; unfold int32; lia.
Qed.

(** 2024-02-29 12:34:56, a Thursday. *)
Lemma tv2tm_calendar_witness :
  let tv := Timeval 1709210096 7 in
  tv2tm tv = Tm 56 34 12 29 1 124 4 59 0 /\ tm2tv (tv2tm tv) = Some (Timeval 1709210096 0).
Proof.
  intros tv. split; [by vm_compute|].
  apply (tv2tm_calendar tv); vm_compute; done.
Defined.

(** C32. [tm2tv] computes the time stamp of the date and time its fields name:
    for any day, hour, minute and second, in range or not, of any month of the
    years 1 to 5000000.  On a canonical [struct tm] [tv2tm] gives back every
    field. *)
Theorem tm2tv_calendar t :
  1 <= tm_year t + 1900 <= 5000000 -> 0 <= tm_mon t < 12 ->
  - 2 ^ 31 < tm_mday t < 2 ^ 31 -> int32 (tm_hour t) -> int32 (tm_min t) -> int32 (tm_sec t) ->
  tm2tv t = Some (Timeval (epoch_sec t) 0) /\
  (canonical t -> tv2tm (Timeval (epoch_sec t) 0) = t).
Proof.
  intros Hy Hm Hd Hh Hmi Hs. split.
  { apply tm2tv_spec; unfold int32 in *; lia. }
  intros Hc. destruct (tv2tm_canonical (Timeval (epoch_sec t) 0)) as [Hc' He].
  - destruct Hc as [? ? ? _ Hmd Hyd _ _]. unfold epoch_sec, epoch_day. cbn [tv_sec].
    pose proof (days_before_month_mono (tm_year t + 1900) (tm_mon t + 1) 12) as H12.
    pose proof (days_before_month_mono (tm_year t + 1900) 0 (tm_mon t)) as H0.
    rewrite days_before_month_next, days_in_year in H12 by lia.
    change (days_before_month _ 0) with 0 in H0.
    assert (0 <= Z.b2z (is_leap (tm_year t + 1900)) <= 1) by (destruct (is_leap _); simpl; lia).
    unfold days_before_year, leaps, LEAPOCH.
    Z.to_euclidean_division_equations. lia.
  - by apply canonical_inj.
Qed.

(** New Year's Eve 1999, and the 30th hour of the 61st of January. *)
Lemma tm2tv_calendar_witness :
  tm2tv (Tm 59 59 23 31 11 99 0 0 0) = Some (Timeval 946684799 0) /\
  tm2tv (Tm 0 0 30 61 0 99 0 0 0) = Some (Timeval 920440800 0).
Proof.
  split.
  - apply (tm2tv_calendar (Tm 59 59 23 31 11 99 0 0 0)); vm_compute; done.
  - apply (tm2tv_calendar (Tm 0 0 30 61 0 99 0 0 0)); vm_compute; done.
Defined.

(** ** The text of a time *)

(** A formatter stores [s] wherever it fits. *)
Definition fits (f : mem -> ptr -> ptr -> option (mem * ptr)) (s : list Z) : Prop :=
  forall m p e, mapped m p (e - p) -> zlen s <= e - p ->
    f m p e = Some (poke m p s, p + zlen s).

Lemma fits_bind f s (K : mem * ptr -> option (mem * ptr)) t m p e :
  fits f s -> mapped m p (e - p) -> zlen (s ++ t) <= e - p ->
  (forall m' p', mapped m' p' (e - p') -> zlen t <= e - p' ->
     K (m', p') = Some (poke m' p' t, p' + zlen t)) ->
  f m p e ≫= K = Some (poke m p (s ++ t), p + zlen (s ++ t)).
Proof.
  intros Hf Hm Hl HK. rewrite length_app in Hl. rewrite Hf by (done || lia). simpl.
  rewrite HK; [|eapply mapped_sub; [by apply mapped_poke|lia|lia]|lia].
  rewrite poke_app, length_app. do 2 f_equal. lia.
Qed.

Lemma fits_char c : 0 <= c < 256 -> fits (fun m p e => fmtchar m p e c) [c].
Proof.
  intros Hc m p e Hm Hl. simpl in Hl. rewrite (emits_char c Hc m p e) by (done || lia).
  by rewrite emit_fits by done.
Qed.

Lemma fits_ulp n pad : 0 <= n < 2 ^ 64 -> fits (fun m p e => fmtulp m p e n pad) (dec_pad n pad).
Proof.
  intros Hn m p e Hm Hl. rewrite fmtulp_spec by (done || lia). by rewrite emit_fits by done.
Qed.

Definition tm_text (t : tm) : list Z :=
  dec_pad (tm_year t + 1900) 4 ++ [45] ++ dec_pad (tm_mon t + 1) 2 ++ [45] ++
  dec_pad (tm_mday t) 2 ++ [32] ++ dec_pad (tm_hour t) 2 ++ [58] ++
  dec_pad (tm_min t) 2 ++ [58] ++ dec_pad (tm_sec t) 2.

Lemma length_dec_pad n k : 0 <= n < 10 ^ k -> 1 <= k -> zlen (dec_pad n k) = k.
Proof.
  intros Hn Hk. unfold dec_pad. rewrite length_fmap, length_digits.
  pose proof (length_dec_le n k Hn Hk) as H. rewrite length_dec in H. lia.
Qed.

(** C33. [fmttm] prints a canonical time of the years 0 to 9999 as
    [YYYY-MM-DD HH:MM:SS], 19 characters, wherever the buffer has room for
    them. *)
Theorem fmttm_text t m p e :
  canonical t -> 0 <= tm_year t + 1900 <= 9999 ->
  mapped m p (e - p) -> 19 <= e - p ->
  zlen (tm_text t) = 19 /\
  fmttm m p e t = Some (poke m p (tm_text t), p + 19).
Proof.
  intros [Hs Hmi Hh Hm Hd _ _ _] Hy Hmap He.
  pose proof (month_length_range (tm_year t + 1900) _ Hm).
  assert (zlen (tm_text t) = 19) as Hl.
  { unfold tm_text. repeat rewrite ?length_app, ?Nat2Z.inj_add.
    rewrite !length_dec_pad by lia. done. }
  split; [done|]. rewrite <- Hl. unfold fmttm.
  rewrite !s32_small by lia. rewrite !(uwrap_small 64) by lia.
  assert (zlen (tm_text t) <= e - p) as Hr by lia. revert Hr. clear Hl He.
  unfold tm_text. intros Hr.
  eapply (fits_bind (fun m p e => fmtulp m p e _ 4)); [apply fits_ulp; lia|done..|clear Hmap Hr; intros ? ? Hmap Hr].
  repeat first
   [ eapply (fits_bind (fun m p e => fmtchar m p e _)); [apply fits_char; lia|done..|
       clear Hmap Hr; intros ? ? Hmap Hr]
   | eapply (fits_bind (fun m p e => fmtulp m p e _ 2)); [apply fits_ulp; lia|done..|
       clear Hmap Hr; intros ? ? Hmap Hr] ].
  apply fits_ulp; lia || done.
Qed.

Lemma fmttm_text_witness :
  fmttm (poke ∅ 16 (repeat 0 20)) 16 36 (Tm 56 34 12 29 1 124 4 59 0) =
  Some (poke (poke ∅ 16 (repeat 0 20)) 16
    [50; 48; 50; 52; 45; 48; 50; 45; 50; 57; 32; 49; 50; 58; 51; 52; 58; 53; 54], 35).
Proof.
  apply (fmttm_text (Tm 56 34 12 29 1 124 4 59 0) (poke ∅ 16 (repeat 0 20)) 16 36).
  - split; by vm_compute.
  - by vm_compute.
  - decide_now.
  - lia.
Defined.
