(* ===== verification/Arr.v ===== *)
(** * Byte arrays: buffers addressed by offsets

    Where the code owns a whole buffer (a local array, a struct, a message),
    the buffer is the list of its bytes and a pointer into it is an offset.
    Reads and writes check the bounds; outside of the buffer they are the fault
    [None].  Multi-byte accesses are little-endian, as on the target. *)
From S2P Require Import Prelude.

(** [a[i] = x] *)
Definition zput {A} (l : list A) (i : Z) (x : A) : option (list A) :=
  if (0 <=? i) && (i <? zlen l) then Some (<[Z.to_nat i := x]> l) else None.

(** [n] bytes from offset [off]. *)
Definition aread {A} (l : list A) (off n : Z) : option (list A) :=
  if (0 <=? off) && (0 <=? n) && (off + n <=? zlen l)
  then Some (take (Z.to_nat n) (drop (Z.to_nat off) l)) else None.

(** The bytes [s] stored from offset [off] on. *)
Definition awrite {A} (l : list A) (off : Z) (s : list A) : option (list A) :=
  if (0 <=? off) && (off + zlen s <=? zlen l)
  then Some (take (Z.to_nat off) l ++ s ++ drop (Z.to_nat (off + zlen s)) l) else None.

(** Fill with [n] copies of a byte. *)
Definition afill (l : list Z) (off c n : Z) : option (list Z) :=
  if 0 <=? n then awrite l off (repeat c (Z.to_nat n)) else None.

(** Little-endian bytes of a number and back. *)
Fixpoint le_bytes (k : nat) (v : Z) : list Z :=
  match k with
  | O => []
  | S k => v mod 256 :: le_bytes k (v / 256)
  end.
Definition le_value (bs : list Z) : Z := foldr (fun b a => b + 256 * a) 0 bs.

Definition get32 (l : list Z) (off : Z) : option Z := le_value <$> aread l off 4.
Definition put32 (l : list Z) (off v : Z) : option (list Z) := awrite l off (le_bytes 4 v).
Definition get16 (l : list Z) (off : Z) : option Z := le_value <$> aread l off 2.
Definition put16 (l : list Z) (off v : Z) : option (list Z) := awrite l off (le_bytes 2 v).
Definition get64 (l : list Z) (off : Z) : option Z := le_value <$> aread l off 8.
Definition put64 (l : list Z) (off v : Z) : option (list Z) := awrite l off (le_bytes 8 v).

(** [lib/endian.h: htons] on a little-endian target *)
Definition htons (n : Z) : Z := Z.lor (Z.shiftl (Z.land n 255) 8) (Z.land (Z.shiftr n 8) 255).

(** [lib/string/memcmp.c: memcmp] on arrays of the same length *)
Fixpoint memcmp_l (a b : list Z) : Z :=
  match a, b with
  | x :: a, y :: b => let d := x - y in if d =? 0 then memcmp_l a b else d
  | _, _ => 0
  end.

Abbreviation bytes := (Forall (fun b => 0 <= b < 256)).

(** ** Lemmas *)

Lemma zput_Some {A} (l : list A) i x :
  0 <= i < zlen l -> zput l i x = Some (<[Z.to_nat i := x]> l).
Proof. intros. unfold zput. zcases. done. Qed.

Lemma zput_length {A} (l l' : list A) i x : zput l i x = Some l' -> length l' = length l.
Proof. unfold zput. case_match; [|done]. intros [= <-]. apply length_insert. Qed.

Lemma zput_get {A} (l l' : list A) i j x :
  zput l i x = Some l' -> zget l' j = if decide (j = i) then Some x else zget l j.
Proof.
  unfold zput. destruct ((0 <=? i) && (i <? zlen l)) eqn:E; [|done]. intros [= <-]. zbool.
  unfold zget. case_decide.
  - case_decide as Hji.
    + subst. apply list_lookup_insert_eq. lia.
    + apply list_lookup_insert_ne. lia.
  - rewrite decide_False by lia. done.
Qed.

Lemma aread_Some {A} (l : list A) off n :
  0 <= off -> 0 <= n -> off + n <= zlen l ->
  aread l off n = Some (take (Z.to_nat n) (drop (Z.to_nat off) l)).
Proof. intros. unfold aread. zcases. done. Qed.

Lemma aread_inv {A} (l s : list A) off n :
  aread l off n = Some s -> 0 <= off /\ 0 <= n /\ off + n <= zlen l /\ zlen s = n.
Proof.
  unfold aread. destruct (_ && _) eqn:E; [|done]. intros [= <-]. zbool.
  repeat split; try lia. rewrite length_take, length_drop. lia.
Qed.

Lemma aread_Some_inv {A} (l s : list A) off n :
  aread l off n = Some s -> take (Z.to_nat n) (drop (Z.to_nat off) l) = s.
Proof. unfold aread. destruct (_ && _); [|done]. by intros [= <-]. Qed.

Lemma aread_get {A} (l s : list A) off n i :
  aread l off n = Some s -> 0 <= i < n -> zget s i = zget l (off + i).
Proof.
  intros Hr Hi. pose proof (aread_inv _ _ _ _ Hr) as (? & ? & ? & ?).
  rewrite aread_Some in Hr by lia. injection Hr as <-.
  rewrite zget_take by lia. rewrite zget_drop by lia. f_equal. lia.
Qed.

Lemma aread_app_l {A} (l k : list A) off n :
  off + n <= zlen l -> aread (l ++ k) off n = aread l off n.
Proof.
  intros. unfold aread. rewrite length_app. zcases; simpl; try done.
  f_equal. rewrite drop_app_le by lia. rewrite take_app_le; [done|].
  rewrite length_drop. lia.
Qed.

Lemma aread_all {A} (l : list A) n : n = zlen l -> aread l 0 n = Some l.
Proof. intros ->. rewrite aread_Some by lia. simpl. by rewrite Nat2Z.id, firstn_all. Qed.

Lemma awrite_Some {A} (l s : list A) off :
  0 <= off -> off + zlen s <= zlen l ->
  awrite l off s = Some (take (Z.to_nat off) l ++ s ++ drop (Z.to_nat (off + zlen s)) l).
Proof. intros. unfold awrite. zcases. done. Qed.

Lemma awrite_inv {A} (l l' s : list A) off :
  awrite l off s = Some l' -> 0 <= off /\ off + zlen s <= zlen l /\ length l' = length l.
Proof.
  unfold awrite. destruct (_ && _) eqn:E; [|done]. intros [= <-]. zbool.
  repeat split; try lia. rewrite !length_app, length_take, length_drop. lia.
Qed.

(** A write into the middle of three known parts. *)
Lemma awrite_parts {A} (a b s c : list A) off :
  off = zlen a -> length s = length b ->
  awrite (a ++ b ++ c) off s = Some (a ++ s ++ c).
Proof.
  intros -> Hl. rewrite awrite_Some by (rewrite ?length_app; lia).
  f_equal. rewrite Nat2Z.id, take_app_length. do 2 f_equal.
  rewrite app_assoc, drop_app_ge by (rewrite length_app; lia).
  rewrite length_app. replace (_ - _)%nat with 0%nat by lia. done.
Qed.

(** A read of the middle of three known parts. *)
Lemma aread_parts {A} (a b c : list A) off n :
  off = zlen a -> n = zlen b -> aread (a ++ b ++ c) off n = Some b.
Proof.
  intros -> ->. rewrite aread_Some by (rewrite ?length_app; lia).
  by rewrite !Nat2Z.id, drop_app_length, take_app_length.
Qed.

Lemma aread_head {A} (b c : list A) n : n = zlen b -> aread (b ++ c) 0 n = Some b.
Proof. by apply (aread_parts []). Qed.

Lemma awrite_head {A} (b s c : list A) :
  length s = length b -> awrite (b ++ c) 0 s = Some (s ++ c).
Proof. by apply (awrite_parts []). Qed.

Lemma awrite_all {A} (l s : list A) : length s = length l -> awrite l 0 s = Some s.
Proof.
  intros Hl. pose proof (awrite_parts [] l s [] 0 eq_refl Hl) as H.
  by rewrite !app_nil_r in H.
Qed.

Lemma awrite_get {A} (l l' s : list A) off i :
  awrite l off s = Some l' ->
  zget l' i = if decide (off <= i < off + zlen s) then zget s (i - off) else zget l i.
Proof.
  intros Hw. pose proof (awrite_inv _ _ _ _ Hw) as (? & ? & ?).
  rewrite awrite_Some in Hw by lia. injection Hw as <-.
  destruct (decide (i < off)).
  { rewrite decide_False by lia. rewrite zget_app_l by (rewrite length_take; lia).
    apply zget_take. lia. }
  rewrite zget_app_r by (rewrite length_take; lia). rewrite length_take.
  replace (i - Z.of_nat (Z.to_nat off `min` length l)) with (i - off) by lia.
  case_decide.
  - rewrite zget_app_l by lia. done.
  - rewrite zget_app_r by lia. rewrite zget_drop by lia. f_equal. lia.
Qed.

Lemma bytes_awrite l l' s off : awrite l off s = Some l' -> bytes l -> bytes s -> bytes l'.
Proof.
  intros Hw Hl Hs. pose proof (awrite_inv _ _ _ _ Hw) as (? & ? & ?).
  rewrite awrite_Some in Hw by lia. injection Hw as <-.
  apply Forall_app_2; [by apply Forall_take|]. apply Forall_app_2; [done|by apply Forall_drop].
Qed.

Lemma length_le_bytes k v : length (le_bytes k v) = k.
Proof. revert v. induction k; intros; simpl; auto. Qed.

Lemma bytes_le_bytes k v : bytes (le_bytes k v).
Proof.
  revert v. induction k as [|k IH]; intros; simpl; constructor; auto.
  apply Z.mod_pos_bound. lia.
Qed.

Lemma le_value_bytes k v : le_value (le_bytes k v) = v mod 256 ^ Z.of_nat k.
Proof.
  revert v. induction k as [|k IH]; intros v; [simpl; by rewrite Z.mod_1_r|].
  cbn [le_bytes le_value foldr]. fold (le_value (le_bytes k (v / 256))). rewrite IH.
  rewrite Nat2Z.inj_succ, Z.pow_succ_r by lia.
  rewrite Z.rem_mul_r by (try apply Z.pow_pos_nonneg; lia). lia.
Qed.

Lemma le_value_range bs : bytes bs -> 0 <= le_value bs < 256 ^ zlen bs.
Proof.
  induction 1 as [|b bs Hb _ IH]; cbn [le_value foldr length]; [done|].
  fold (le_value bs). rewrite Nat2Z.inj_succ, Z.pow_succ_r by lia. lia.
Qed.

Lemma le_bytes_value bs : bytes bs -> le_bytes (length bs) (le_value bs) = bs.
Proof.
  induction 1 as [|b bs Hb Hbs IH]; cbn [le_value foldr length le_bytes]; [done|].
  fold (le_value bs). rewrite (Z.mul_comm 256), Z.mod_add, Z.div_add by lia.
  rewrite Z.mod_small, Z.div_small by lia. by rewrite Z.add_0_l, IH.
Qed.

Lemma le_bytes_app j k v :
  le_bytes (j + k) v = le_bytes j v ++ le_bytes k (v / 256 ^ Z.of_nat j).
Proof.
  revert v. induction j as [|j IH]; intros v.
  { simpl. by rewrite Z.div_1_r. }
  cbn [Nat.add le_bytes app]. rewrite IH. do 3 f_equal.
  rewrite Nat2Z.inj_succ, Z.pow_succ_r by lia. rewrite Z.div_div by lia. done.
Qed.

Lemma le_bytes_mod k v n : (8 * Z.of_nat k <= n) -> le_bytes k (v mod 2 ^ n) = le_bytes k v.
Proof.
  revert v n. induction k as [|k IH]; intros v n Hn; [done|]. cbn [le_bytes].
  replace (2 ^ n) with (256 * 2 ^ (n - 8)) by (change 256 with (2 ^ 8); rewrite <- Z.pow_add_r by lia; f_equal; lia).
  assert (0 < 2 ^ (n - 8)) by (apply Z.pow_pos_nonneg; lia).
  rewrite Z.rem_mul_r by lia.
  assert ((v mod 256 + 256 * ((v / 256) mod 2 ^ (n - 8))) = (v mod 256) + ((v / 256) mod 2 ^ (n - 8)) * 256) as -> by lia.
  rewrite Z.mod_add, Z.div_add by lia. pose proof (Z.mod_pos_bound v 256).
  rewrite Z.mod_mod by lia. rewrite (Z.div_small (v mod 256)) by lia.
  rewrite Z.add_0_l, IH by lia. done.
Qed.

Lemma get16_parts (a c : list Z) off v :
  off = zlen a -> get16 (a ++ le_bytes 2 v ++ c) off = Some (u16 v).
Proof.
  intros. unfold get16. rewrite aread_parts by (rewrite ?length_le_bytes; done).
  cbn [fmap option_fmap option_map]. rewrite le_value_bytes. done.
Qed.

Lemma put16_parts (a b c : list Z) off v :
  off = zlen a -> length b = 2%nat -> put16 (a ++ b ++ c) off v = Some (a ++ le_bytes 2 v ++ c).
Proof. intros. apply awrite_parts; [done|]. by rewrite length_le_bytes. Qed.

Lemma aread_split (l s : list Z) off n :
  aread l off n = Some s -> exists a c, l = a ++ s ++ c /\ zlen a = off.
Proof.
  unfold aread. destruct (_ && _) eqn:E; [|done]. intros [= <-]. zbool.
  exists (take (Z.to_nat off) l), (drop (Z.to_nat n) (drop (Z.to_nat off) l)).
  split; [by rewrite !take_drop|]. rewrite length_take. lia.
Qed.

Lemma u16_le_bytes v : le_bytes 2 (u16 v) = le_bytes 2 v.
Proof. by apply le_bytes_mod. Qed.

(** ** Uninitialised local arrays *)

(** Contents of uninitialised locals. *)
Class Locals := {
  junk : nat -> list Z;
  junk_length n : length (junk n) = n }.

(** Locals full of 0x4D, for examples. *)
Definition some_locals : Locals := {| junk n := repeat 77 n; junk_length n := repeat_length 77 n |}.
