(* ===== verification/Sha.v ===== *)
(** * lib/crypto: SHA-1, SHA-256, HMAC and PBKDF2

    The two hashes share everything but the block function: padding, block
    loop, HMAC and PBKDF2 are the same text in the source with the names
    changed.  That text is modelled once, over the class [Core] of the part
    that differs, and instantiated twice.

    A pointer to constant input is the list of the bytes from there on; an
    output buffer is a list that is updated in place.  The contents of
    uninitialised local variables are any lists of the right length
    ([Locals]). *)
From S2P Require Import Prelude Arr.

(** ** 32-bit words *)

(** [lib/endian.h: swabl] *)
Definition swabl (n : Z) : Z :=
  Z.lor (Z.lor (Z.lor
    (Z.shiftl (Z.land (Z.shiftr n 0) 255) 24)
    (Z.shiftl (Z.land (Z.shiftr n 8) 255) 16))
    (Z.shiftl (Z.land (Z.shiftr n 16) 255) 8))
    (Z.shiftl (Z.land (Z.shiftr n 24) 255) 0).

(** [lib/endian.h: htonl 47] *)
Definition htonl (n : Z) : Z := swabl n.
(** [lib/endian.h: ntohl 51] *)
Definition ntohl (n : Z) : Z := swabl n.

(** [~x] on [uint32_t] *)
Definition not32 (x : Z) : Z := u32 (Z.lnot x).

(** [lib/crypto/sha1.h: sha1] and [struct sha256]: the chaining value and the
    message schedule. *)
Record sha := Sha { sh_H : list Z; sh_W : list Z }.

(** ** SHA-1 *)

(** [lib/crypto/sha1.c: rol] *)
Definition rol (x n : Z) : Z := Z.lor (u32 (Z.shiftl x n)) (Z.shiftr x (32 - n)).

(** [lib/crypto/sha1.c: fa] *)
Definition fa (b c d : Z) : Z := Z.lor (Z.land b c) (Z.land (not32 b) d).
(** [lib/crypto/sha1.c: fb] *)
Definition fb (b c d : Z) : Z := Z.lxor (Z.lxor b c) d.
(** [lib/crypto/sha1.c: fc] *)
Definition fc (b c d : Z) : Z := Z.lor (Z.lor (Z.land b c) (Z.land b d)) (Z.land c d).

(** [lib/crypto/sha1.c: sha1_init] *)
Definition sha1_init (sh : sha) : option sha :=
  H ← zput (sh_H sh) 0 0x67452301;
  H ← zput H 1 0xEFCDAB89;
  H ← zput H 2 0x98BADCFE;
  H ← zput H 3 0x10325476;
  H ← zput H 4 0xC3D2E1F0;
  Some (Sha H (sh_W sh)).

(** [lib/crypto/sha1.c: sha1_hash 92-107] each of the four loops of 20 rounds *)
Fixpoint sha1_rounds (f : Z -> Z -> Z -> Z) (k : Z) (n : nat) (W : list Z)
    (st : Z * Z * Z * Z * Z * Z) : option (Z * Z * Z * Z * Z * Z) :=
  match n with
  | O => Some st
  | S n =>
      let '(A, B, C, D, E, j) := st in
      w ← zget W j;
      let temp := u32 (rol A 5 + f B C D + E + w + k) in
      let E := D in let D := C in let C := rol B 30 in let B := A in let A := temp in
      sha1_rounds f k n W (A, B, C, D, E, j + 1)
  end.

(** [lib/crypto/sha1.c: sha1_hash] *)
Definition sha1_hash (sh : sha) : option sha :=
  let H := sh_H sh in let W := sh_W sh in
  h0 ← zget H 0; h1 ← zget H 1; h2 ← zget H 2; h3 ← zget H 3; h4 ← zget H 4;
  st ← sha1_rounds fa 0x5A827999 20 W (h0, h1, h2, h3, h4, 0);
  st ← sha1_rounds fb 0x6ED9EBA1 20 W st;
  st ← sha1_rounds fc 0x8F1BBCDC 20 W st;
  '(A, B, C, D, E, j) ← sha1_rounds fb 0xCA62C1D6 20 W st;
  H ← zput H 0 (u32 (h0 + A));
  H ← zput H 1 (u32 (h1 + B));
  H ← zput H 2 (u32 (h2 + C));
  H ← zput H 3 (u32 (h3 + D));
  H ← zput H 4 (u32 (h4 + E));
  Some (Sha H W).

(** [lib/crypto/sha1.c: sha1_load 129-130] also of [sha256_load] *)
Fixpoint load_words (n : nat) (i : Z) (W blk : list Z) : option (list Z) :=
  match n with
  | O => Some W
  | S n =>
      v ← get32 blk (4 * i);
      W ← zput W i (ntohl v);
      load_words n (i + 1) W blk
  end.

(** [lib/crypto/sha1.c: sha1_load 132-133] *)
Fixpoint sha1_expand (n : nat) (i : Z) (W : list Z) : option (list Z) :=
  match n with
  | O => Some W
  | S n =>
      w3 ← zget W (i - 3); w8 ← zget W (i - 8);
      w14 ← zget W (i - 14); w16 ← zget W (i - 16);
      W ← zput W i (rol (Z.lxor (Z.lxor (Z.lxor w3 w8) w14) w16) 1);
      sha1_expand n (i + 1) W
  end.

(** [lib/crypto/sha1.c: sha1_load] *)
Definition sha1_load (sh : sha) (blk : list Z) : option sha :=
  W ← load_words 16 0 (sh_W sh) blk;
  W ← sha1_expand 64 16 W;
  Some (Sha (sh_H sh) W).

(** ** SHA-256 *)

(** [lib/crypto/sha256.c: K], in decimal *)
Definition K : list Z := [
  1116352408; 1899447441; 3049323471; 3921009573;
  961987163; 1508970993; 2453635748; 2870763221;
  3624381080; 310598401; 607225278; 1426881987;
  1925078388; 2162078206; 2614888103; 3248222580;
  3835390401; 4022224774; 264347078; 604807628;
  770255983; 1249150122; 1555081692; 1996064986;
  2554220882; 2821834349; 2952996808; 3210313671;
  3336571891; 3584528711; 113926993; 338241895;
  666307205; 773529912; 1294757372; 1396182291;
  1695183700; 1986661051; 2177026350; 2456956037;
  2730485921; 2820302411; 3259730800; 3345764771;
  3516065817; 3600352804; 4094571909; 275423344;
  430227734; 506948616; 659060556; 883997877;
  958139571; 1322822218; 1537002063; 1747873779;
  1955562222; 2024104815; 2227730452; 2361852424;
  2428436474; 2756734187; 3204031479; 3329325298].

(** [lib/crypto/sha256.c: rotr] *)
Definition rotr (x n : Z) : Z := Z.lor (Z.shiftr x n) (u32 (Z.shiftl x (32 - n))).
(** [lib/crypto/sha256.c: shr] *)
Definition shr (x n : Z) : Z := Z.shiftr x n.

(** [lib/crypto/sha256.c: sha256_init] *)
Definition sha256_init (sh : sha) : option sha :=
  H ← zput (sh_H sh) 0 0x6a09e667;
  H ← zput H 1 0xbb67ae85;
  H ← zput H 2 0x3c6ef372;
  H ← zput H 3 0xa54ff53a;
  H ← zput H 4 0x510e527f;
  H ← zput H 5 0x9b05688c;
  H ← zput H 6 0x1f83d9ab;
  H ← zput H 7 0x5be0cd19;
  Some (Sha H (sh_W sh)).

(** [lib/crypto/sha256.c: ch] *)
Definition ch (x y z : Z) : Z := Z.lxor (Z.land x y) (Z.land (not32 x) z).
(** [lib/crypto/sha256.c: maj] *)
Definition maj (x y z : Z) : Z := Z.lxor (Z.lxor (Z.land x y) (Z.land x z)) (Z.land y z).
(** [lib/crypto/sha256.c: bsig0] *)
Definition bsig0 (x : Z) : Z := Z.lxor (Z.lxor (rotr x 2) (rotr x 13)) (rotr x 22).
(** [lib/crypto/sha256.c: bsig1] *)
Definition bsig1 (x : Z) : Z := Z.lxor (Z.lxor (rotr x 6) (rotr x 11)) (rotr x 25).
(** [lib/crypto/sha256.c: ssig0] *)
Definition ssig0 (x : Z) : Z := Z.lxor (Z.lxor (rotr x 7) (rotr x 18)) (shr x 3).
(** [lib/crypto/sha256.c: ssig1] *)
Definition ssig1 (x : Z) : Z := Z.lxor (Z.lxor (rotr x 17) (rotr x 19)) (shr x 10).

(** [lib/crypto/sha256.c: sha256_hash 126-132] *)
Fixpoint sha256_rounds (n : nat) (i : Z) (W : list Z)
    (st : Z * Z * Z * Z * Z * Z * Z * Z) : option (Z * Z * Z * Z * Z * Z * Z * Z) :=
  match n with
  | O => Some st
  | S n =>
      let '(a, b, c, d, e, f, g, h) := st in
      k ← zget K i;
      w ← zget W i;
      let t1 := u32 (h + bsig1 e + ch e f g + k + w) in
      let t2 := u32 (bsig0 a + maj a b c) in
      let h := g in let g := f in let f := e in let e := u32 (d + t1) in
      let d := c in let c := b in let b := a in let a := u32 (t1 + t2) in
      sha256_rounds n (i + 1) W (a, b, c, d, e, f, g, h)
  end.

(** [lib/crypto/sha256.c: sha256_hash] *)
Definition sha256_hash (sh : sha) : option sha :=
  let H := sh_H sh in let W := sh_W sh in
  h0 ← zget H 0; h1 ← zget H 1; h2 ← zget H 2; h3 ← zget H 3;
  h4 ← zget H 4; h5 ← zget H 5; h6 ← zget H 6; h7 ← zget H 7;
  '(a, b, c, d, e, f, g, h) ← sha256_rounds 64 0 W (h0, h1, h2, h3, h4, h5, h6, h7);
  H ← zput H 0 (u32 (h0 + a)); H ← zput H 1 (u32 (h1 + b));
  H ← zput H 2 (u32 (h2 + c)); H ← zput H 3 (u32 (h3 + d));
  H ← zput H 4 (u32 (h4 + e)); H ← zput H 5 (u32 (h5 + f));
  H ← zput H 6 (u32 (h6 + g)); H ← zput H 7 (u32 (h7 + h));
  Some (Sha H W).

(** [lib/crypto/sha256.c: sha256_load 153-154] *)
Fixpoint sha256_expand (n : nat) (i : Z) (W : list Z) : option (list Z) :=
  match n with
  | O => Some W
  | S n =>
      w2 ← zget W (i - 2); w7 ← zget W (i - 7);
      w15 ← zget W (i - 15); w16 ← zget W (i - 16);
      W ← zput W i (u32 (ssig1 w2 + w7 + ssig0 w15 + w16));
      sha256_expand n (i + 1) W
  end.

(** [lib/crypto/sha256.c: sha256_load] *)
Definition sha256_load (sh : sha) (blk : list Z) : option sha :=
  W ← load_words 16 0 (sh_W sh) blk;
  W ← sha256_expand 48 16 W;
  Some (Sha (sh_H sh) W).

(** ** The common part: padding, block loop, HMAC, PBKDF2 *)

(** What the two hashes do differently. *)
Class Core := {
  nH : nat;                                   (** words of [H] *)
  nW : nat;                                   (** words of [W] *)
  core_init : sha -> option sha;
  core_load : sha -> list Z -> option sha;
  core_hash : sha -> option sha }.

Definition HS `{Core} : Z := 4 * Z.of_nat nH.

#[export] Instance sha1_core : Core := {
  nH := 5; nW := 80; core_init := sha1_init; core_load := sha1_load; core_hash := sha1_hash }.
#[export] Instance sha256_core : Core := {
  nH := 8; nW := 64; core_init := sha256_init; core_load := sha256_load;
  core_hash := sha256_hash }.

Section md.
Context `{!Locals} `{CC : !Core}.

(** [lib/crypto/sha1.c: sha1_fini 120-121] *)
Fixpoint fini_loop (n : nat) (i : Z) (H out : list Z) : option (list Z) :=
  match n with
  | O => Some out
  | S n => h ← zget H i; out ← put32 out (4 * i) (htonl h); fini_loop n (i + 1) H out
  end.

(** [lib/crypto/sha1.c: sha1_fini] *)
Definition fini (sh : sha) (out : list Z) : option (list Z) := fini_loop nH 0 (sh_H sh) out.

(** [lib/crypto/sha1.c: sha1_put_size] *)
Definition put_size (blk : list Z) (total : Z) : option (list Z) :=
  let bits := u64 (Z.shiftl total 3) in
  blk ← put32 blk (64 - 8) (htonl (u32 (Z.shiftr bits 32)));
  put32 blk (64 - 4) (htonl (u32 (Z.land bits 0xFFFFFFFF))).

(** [lib/crypto/sha1.c: sha1_load_pad1] *)
Definition load_pad1 (sh : sha) (ptr : list Z) (tail total : Z) : option sha :=
  src ← aread ptr 0 tail;
  block ← awrite (junk 64) 0 src;
  block ← afill block tail 0 (64 - tail);
  block ← zput block tail 0x80;
  block ← put_size block total;
  core_load sh block.

(** [lib/crypto/sha1.c: sha1_load_pad2] *)
Definition load_pad2 (sh : sha) (ptr : list Z) (tail : Z) : option sha :=
  src ← aread ptr 0 tail;
  block ← awrite (junk 64) 0 src;
  block ← afill block tail 0 (64 - tail);
  block ← zput block tail 0x80;
  core_load sh block.

(** [lib/crypto/sha1.c: sha1_load_pad0] *)
Definition load_pad0 (sh : sha) (total : Z) : option sha :=
  block ← afill (junk 64) 0 0 64;
  block ← put_size block total;
  core_load sh block.

(** [lib/crypto/sha1.c: sha1_proc] *)
Definition proc (sh : sha) (blk : list Z) : option sha :=
  sh ← core_load sh blk; core_hash sh.

(** [lib/crypto/sha1.c: sha1_last] *)
Definition last (sh : sha) (ptr : list Z) (len total : Z) : option sha :=
  let tail := crem len 64 in
  if 55 <? tail then
    sh ← load_pad2 sh ptr tail;
    sh ← core_hash sh;
    sh ← load_pad0 sh total;
    core_hash sh
  else
    sh ← load_pad1 sh ptr tail total;
    core_hash sh.

(** [lib/crypto/sha1_hash.c: sha1 13-16] the block loop; [rem] is
    [end - ptr], [None] also when the fuel runs out *)
Fixpoint block_loop (fuel : nat) (sh : sha) (ptr : list Z) (rem : Z)
    : option (sha * list Z * Z) :=
  if 64 <=? rem then
    match fuel with
    | O => None
    | S fuel => sh ← proc sh ptr; block_loop fuel sh (drop 64 ptr) (rem - 64)
    end
  else Some (sh, ptr, rem).

(** [lib/crypto/sha1_hash.c: sha1] *)
Definition digest (out input : list Z) (inlen : Z) : option (list Z) :=
  sh ← core_init (Sha (junk nH) (junk nW));
  '(sh, ptr, rem) ← block_loop (Z.to_nat inlen) sh input inlen;
  sh ← last sh ptr (s32 rem) (u64 inlen);
  fini sh out.

(** [lib/crypto/sha1_hmac.c: hmac_xor] [pad] is an array of 64 bytes *)
Definition hmac_xor (pad : list Z) (val : Z) : list Z := (fun b => Z.lxor b val) <$> pad.

(** [lib/crypto/sha1_hmac.c: hash_rest] *)
Definition hash_rest (sh : sha) (input : list Z) (inlen prev : Z) : option sha :=
  '(sh, ptr, rem) ← block_loop (Z.to_nat inlen) sh input inlen;
  last sh ptr (s32 rem) (u64 (s64 (inlen + prev))).

(** [lib/crypto/sha1_hmac.c: hmac_sha1] *)
Definition hmac (out key : list Z) (klen : Z) (input : list Z) (inlen : Z)
    : option (list Z) :=
  let hlen := HS in
  let klen := if klen <? 0 then 0 else klen in
  let klen := if 64 <? klen then 64 else klen in
  k ← aread key 0 klen;
  pad ← awrite (junk 64) 0 k;
  pad ← afill pad klen 0 (64 - klen);
  let pad := hmac_xor pad 0x36 in
  sh ← core_init (Sha (junk nH) (junk nW));
  sh ← proc sh pad;
  sh ← hash_rest sh input inlen 64;
  hash ← fini sh (junk (Z.to_nat HS));
  k ← aread key 0 klen;
  pad ← awrite pad 0 k;
  pad ← afill pad klen 0 (64 - klen);
  let pad := hmac_xor pad 0x5C in
  sh ← core_init sh;
  sh ← proc sh pad;
  sh ← last sh hash hlen (64 + hlen);
  fini sh out.

(** [lib/crypto/pbkdf2_sha1.c: F1] *)
Definition F1 (U P : list Z) (Pn : Z) (S : list Z) (Sn i : Z) : option (list Z) :=
  let In := Sn + 4 in
  s ← aread S 0 Sn;
  I ← awrite (junk (Z.to_nat In)) 0 s;
  I ← zput I (Sn + 0) (Z.land (Z.shiftr i 24) 255);
  I ← zput I (Sn + 1) (Z.land (Z.shiftr i 16) 255);
  I ← zput I (Sn + 2) (Z.land (Z.shiftr i 8) 255);
  I ← zput I (Sn + 3) (Z.land i 255);
  hmac U P Pn I In.

(** [lib/crypto/pbkdf2_sha1.c: Fc] the input is the output buffer, read before
    it is written *)
Definition Fc (U P : list Z) (Pn : Z) : option (list Z) := hmac U P Pn U HS.

(** [lib/crypto/pbkdf2_sha1.c: xorbuf] *)
Fixpoint xorbuf (n : nat) (i : Z) (T U : list Z) : option (list Z) :=
  match n with
  | O => Some T
  | S n =>
      t ← zget T i; u ← zget U i;
      T ← zput T i (Z.lxor t u); xorbuf n (i + 1) T U
  end.

(** [lib/crypto/pbkdf2_sha1.c: F 56-59] *)
Fixpoint F_loop (n : nat) (T U P : list Z) (Pn : Z) : option (list Z) :=
  match n with
  | O => Some T
  | S n =>
      U ← Fc U P Pn;
      T ← xorbuf (Z.to_nat HS) 0 T U;
      F_loop n T U P Pn
  end.

(** [lib/crypto/pbkdf2_sha1.c: F] *)
Definition F (T P : list Z) (Pn : Z) (S : list Z) (Sn c i : Z) : option (list Z) :=
  U ← F1 (junk (Z.to_nat HS)) P Pn S Sn i;
  u ← aread U 0 HS;
  T ← awrite T 0 u;
  F_loop (Z.to_nat (c - 1)) T U P Pn.

(** [lib/crypto/pbkdf2_sha1.c: pbkdf2_sha1 72-75] *)
Fixpoint pbkdf2_loop (fuel : nat) (i : Z) (psk : list Z) (len : Z) (P : list Z) (Pn : Z)
    (S : list Z) (Sn c : Z) : option (list Z * Z) :=
  if s32 (HS * i) <=? len then
    match fuel with
    | O => None
    | Datatypes.S fuel =>
        T ← aread psk (HS * (i - 1)) HS;
        T ← F T P Pn S Sn c i;
        psk ← awrite psk (HS * (i - 1)) T;
        pbkdf2_loop fuel (i + 1) psk len P Pn S Sn c
    end
  else Some (psk, i).

(** [lib/crypto/pbkdf2_sha1.c: pbkdf2_sha1] *)
Definition pbkdf2 (psk : list Z) (len : Z) (P : list Z) (Pn : Z) (S : list Z) (Sn c : Z)
    : option (list Z) :=
  '(psk, i) ← pbkdf2_loop (Z.to_nat len) 1 psk len P Pn S Sn c;
  if HS * (i - 1) <? len then
    T ← F (junk (Z.to_nat HS)) P Pn S Sn c i;
    t ← aread T 0 (len - HS * (i - 1));
    awrite psk (HS * (i - 1)) t
  else Some psk.

End md.

(** ** The two instances *)

Section instances.
Context `{!Locals}.

(** [lib/crypto/sha1_hash.c: sha1] *)
Definition sha1 := digest (CC := sha1_core).
(** [lib/crypto/sha1_hmac.c: hmac_sha1] *)
Definition hmac_sha1 := hmac (CC := sha1_core).
(** [lib/crypto/pbkdf2_sha1.c: pbkdf2_sha1] *)
Definition pbkdf2_sha1 := pbkdf2 (CC := sha1_core).

(** [lib/crypto/sha256.c: sha256_fini] *)
Definition sha256_fini := fini (CC := sha256_core).
(** [lib/crypto/sha256.c: sha256_put_size] *)
Definition sha256_put_size := put_size.
(** [lib/crypto/sha256.c: sha256_load_pad1] *)
Definition sha256_load_pad1 := load_pad1 (CC := sha256_core).
(** [lib/crypto/sha256.c: sha256_load_pad2] *)
Definition sha256_load_pad2 := load_pad2 (CC := sha256_core).
(** [lib/crypto/sha256.c: sha256_load_pad0] *)
Definition sha256_load_pad0 := load_pad0 (CC := sha256_core).
(** [lib/crypto/sha256.c: sha256_proc] *)
Definition sha256_proc := proc (CC := sha256_core).
(** [lib/crypto/sha256.c: sha256_last] *)
Definition sha256_last := last (CC := sha256_core).
(** [lib/crypto/sha256_hash.c: sha256] *)
Definition sha256 := digest (CC := sha256_core).
(** [lib/crypto/sha256_hmac.c: hash_rest] *)
Definition hash_rest256 := hash_rest (CC := sha256_core).
(** [lib/crypto/sha256_hmac.c: hmac_xor] *)
Definition hmac_xor256 := hmac_xor.
(** [lib/crypto/sha256_hmac.c: hmac_sha256] *)
Definition hmac_sha256 := hmac (CC := sha256_core).
(** [lib/crypto/pbkdf2_sha256.c: F1] *)
Definition F1_sha256 := F1 (CC := sha256_core).
(** [lib/crypto/pbkdf2_sha256.c: Fc] *)
Definition Fc_sha256 := Fc (CC := sha256_core).
(** [lib/crypto/pbkdf2_sha256.c: xorbuf] *)
Definition xorbuf_sha256 := xorbuf.
(** [lib/crypto/pbkdf2_sha256.c: F] *)
Definition F_sha256 := F (CC := sha256_core).
(** [lib/crypto/pbkdf2_sha256.c: pbkdf2_sha256] *)
Definition pbkdf2_sha256 := pbkdf2 (CC := sha256_core).

End instances.
