(* ===== verification/ShaSpec.v ===== *)
(** * SHA-1, SHA-256, HMAC, PBKDF2: the standards, and that the code meets them

    The functions of FIPS 180-4 on lists of bytes: padding, message schedule,
    compression.  HMAC (RFC 2104) and PBKDF2
    (RFC 2898) are defined over any hash.  The class [CoreSpec] is what the
    common part of the code needs of a block function; everything below it is
    proved once. *)
From S2P Require Import Prelude Arr Sha.

(** ** The standards *)

Definition be_bytes (k : nat) (v : Z) : list Z := reverse (le_bytes k v).
Definition be_value (bs : list Z) : Z := le_value (reverse bs).

(** The 16 big-endian words of a block. *)
Definition word (blk : list Z) (i : nat) : Z := be_value (take 4 (drop (4 * i) blk)).
Definition words (blk : list Z) : list Z := word blk <$> seq 0 16.

(** A message schedule: each new word is computed from the ones before. *)
Fixpoint sched (next : list Z -> Z) (n : nat) (w : list Z) : list Z :=
  match n with
  | O => w
  | S n => sched next n (w ++ [next w])
  end.

(** The [i]-th word from the end. *)
Definition back (w : list Z) (i : nat) : Z := nth (length w - i) w 0.

Definition add32 (x y : Z) : Z := u32 (x + y).

Definition Ch (x y z : Z) : Z := Z.lxor (Z.land x y) (Z.land (not32 x) z).
Definition Parity (x y z : Z) : Z := Z.lxor (Z.lxor x y) z.
Definition Maj (x y z : Z) : Z := Z.lxor (Z.lxor (Z.land x y) (Z.land x z)) (Z.land y z).

Definition ROTL (n x : Z) : Z := Z.lor (u32 (Z.shiftl x n)) (Z.shiftr x (32 - n)).

(** SHA-1 *)
Definition sha1_next (w : list Z) : Z :=
  ROTL 1 (Z.lxor (Z.lxor (Z.lxor (back w 3) (back w 8)) (back w 14)) (back w 16)).

Definition sha1_f (t : nat) : Z -> Z -> Z -> Z :=
  if decide (t < 20)%nat then Ch else if decide (t < 40)%nat then Parity
  else if decide (t < 60)%nat then Maj else Parity.
Definition sha1_K (t : nat) : Z :=
  if decide (t < 20)%nat then 0x5A827999 else if decide (t < 40)%nat then 0x6ED9EBA1
  else if decide (t < 60)%nat then 0x8F1BBCDC else 0xCA62C1D6.

Definition sha1_step (w : list Z) (st : Z * Z * Z * Z * Z) (t : nat) : Z * Z * Z * Z * Z :=
  let '(a, b, c, d, e) := st in
  (u32 (ROTL 5 a + sha1_f t b c d + e + nth t w 0 + sha1_K t), a, ROTL 30 b, c, d).

Definition sha1_compress (H blk : list Z) : list Z :=
  match H with
  | [h0; h1; h2; h3; h4] =>
      let '(a, b, c, d, e) :=
        foldl (sha1_step (sched sha1_next 64 (words blk))) (h0, h1, h2, h3, h4) (seq 0 80) in
      [add32 h0 a; add32 h1 b; add32 h2 c; add32 h3 d; add32 h4 e]
  | _ => H
  end.

Definition sha1_iv : list Z :=
  [0x67452301; 0xEFCDAB89; 0x98BADCFE; 0x10325476; 0xC3D2E1F0].

(** SHA-256 *)
Definition sha256_next (w : list Z) : Z :=
  u32 (ssig1 (back w 2) + back w 7 + ssig0 (back w 15) + back w 16).

Definition sha256_step (w : list Z) (st : Z * Z * Z * Z * Z * Z * Z * Z) (t : nat)
    : Z * Z * Z * Z * Z * Z * Z * Z :=
  let '(a, b, c, d, e, f, g, h) := st in
  let t1 := u32 (h + bsig1 e + Ch e f g + nth t K 0 + nth t w 0) in
  let t2 := u32 (bsig0 a + Maj a b c) in
  (u32 (t1 + t2), a, b, c, u32 (d + t1), e, f, g).

Definition sha256_compress (H blk : list Z) : list Z :=
  match H with
  | [h0; h1; h2; h3; h4; h5; h6; h7] =>
      let '(a, b, c, d, e, f, g, h) :=
        foldl (sha256_step (sched sha256_next 48 (words blk)))
          (h0, h1, h2, h3, h4, h5, h6, h7) (seq 0 64) in
      [add32 h0 a; add32 h1 b; add32 h2 c; add32 h3 d;
       add32 h4 e; add32 h5 f; add32 h6 g; add32 h7 h]
  | _ => H
  end.

Definition sha256_iv : list Z :=
  [0x6a09e667; 0xbb67ae85; 0x3c6ef372; 0xa54ff53a;
   0x510e527f; 0x9b05688c; 0x1f83d9ab; 0x5be0cd19].

(** Padding of a message of [n] bytes: a one bit, zeroes, the length in bits,
    up to a multiple of 64 bytes. *)
Definition padding (n : Z) : list Z :=
  0x80 :: repeat 0 (Z.to_nat ((55 - n) mod 64)) ++ be_bytes 8 (8 * n).

Section standards.
Context (iv : list Z) (compress : list Z -> list Z -> list Z).

(** Chaining over the blocks of a padded message. *)
Fixpoint absorb (n : nat) (H msg : list Z) : list Z :=
  match n with
  | O => H
  | S n => absorb n (compress H (take 64 msg)) (drop 64 msg)
  end.

Definition md_hash (msg : list Z) : list Z :=
  let padded := msg ++ padding (zlen msg) in
  concat (be_bytes 4 <$> absorb (length padded / 64) iv padded).

(** RFC 2104, for a key of at most one block. *)
Definition hmac_key (key : list Z) : list Z := key ++ repeat 0 (64 - length key).
Definition md_hmac (key msg : list Z) : list Z :=
  let pad v := (fun b => Z.lxor b v) <$> hmac_key key in
  md_hash (pad 0x5C ++ md_hash (pad 0x36 ++ msg)).

(** RFC 2898: the [i]-th block, and the key of [len] bytes. *)
Fixpoint pbkdf2_U (P S : list Z) (i : Z) (j : nat) : list Z :=
  match j with
  | O => md_hmac P (S ++ be_bytes 4 i)
  | Datatypes.S j => md_hmac P (pbkdf2_U P S i j)
  end.
Definition pbkdf2_T (P S : list Z) (c : nat) (i : Z) : list Z :=
  foldl (zip_with Z.lxor) (pbkdf2_U P S i 0) (pbkdf2_U P S i <$> seq 1 (c - 1)).
Definition pbkdf2_key (P S : list Z) (c : nat) (hs len : nat) : list Z :=
  take len (concat ((fun i => pbkdf2_T P S c (Z.of_nat i)) <$> seq 1 (len / hs + 1))).

End standards.

(** ** Byte order *)

Lemma swabl_le n : swabl n = le_value (reverse (le_bytes 4 n)).
Proof.
  unfold swabl. rewrite !land_byte, !Z.shiftr_div_pow2, !Z.shiftl_mul_pow2 by lia.
  cbn [le_bytes]. unfold reverse. cbn [rev_append le_value foldr].
  change (2 ^ 0) with 1. rewrite Z.div_1_r.
  replace (n / 2 ^ 16) with (n / 256 / 256) by (rewrite Z.div_div by lia; done).
  replace (n / 2 ^ 24) with (n / 256 / 256 / 256) by (rewrite !Z.div_div by lia; done).
  change (2 ^ 8) with 256. change (2 ^ 16) with 65536. change (2 ^ 24) with 16777216.
  pose proof (Z.mod_pos_bound n 256). pose proof (Z.mod_pos_bound (n / 256) 256).
  pose proof (Z.mod_pos_bound (n / 256 / 256) 256).
  pose proof (Z.mod_pos_bound (n / 256 / 256 / 256) 256).
  set (b0 := n mod 256) in *. set (b1 := (n / 256) mod 256) in *.
  set (b2 := (n / 256 / 256) mod 256) in *. set (b3 := (n / 256 / 256 / 256) mod 256) in *.
  rewrite (lor_disjoint (b0 * 16777216) _ 24); [|lia| |lia].
  2:{ apply Z.mod_mul. lia. }
  rewrite (lor_disjoint (_ + _) (b2 * 256) 16); [|lia| |lia].
  2:{ change (2 ^ 16) with 65536. replace (b0 * 16777216 + b1 * 65536)
        with ((b0 * 256 + b1) * 65536) by lia. apply Z.mod_mul. lia. }
  rewrite (lor_disjoint (_ + _) (b3 * 1) 8); [|lia| |lia].
  2:{ change (2 ^ 8) with 256. replace (b0 * 16777216 + b1 * 65536 + b2 * 256)
        with ((b0 * 65536 + b1 * 256 + b2) * 256) by lia. apply Z.mod_mul. lia. }
  lia.
Qed.

Lemma le_bytes_swabl n : le_bytes 4 (swabl n) = be_bytes 4 n.
Proof.
  rewrite swabl_le. rewrite <- (length_le_bytes 4 n) at 1.
  rewrite <- (length_reverse (le_bytes 4 n)). apply le_bytes_value.
  apply Forall_reverse, bytes_le_bytes.
Qed.

Lemma swabl_value bs : bytes bs -> length bs = 4%nat -> swabl (le_value bs) = be_value bs.
Proof. intros Hb Hl. rewrite swabl_le, <- Hl, le_bytes_value by done. done. Qed.

Lemma htons_value v : htons v = 256 * (v mod 256) + (v / 256) mod 256.
Proof.
  unfold htons. change 255 with (Z.ones 8). rewrite !Z.land_ones, Z.shiftr_div_pow2, Z.shiftl_mul_pow2 by lia.
  change (2 ^ 8) with 256.
  assert (Z.land (v mod 256 * 2 ^ 8) ((v / 256) mod 2 ^ 8) = 0) as Hd.
  { apply Z.bits_inj'. intros i Hi. rewrite Z.land_spec, Z.bits_0. destruct (decide (i < 8)).
    - by rewrite Z.mul_pow2_bits_low by lia.
    - rewrite Z.mod_pow2_bits_high by lia. apply andb_false_r. }
  pose proof (Z.add_lor_land (v mod 256 * 2 ^ 8) ((v / 256) mod 2 ^ 8)) as Ha. rewrite Hd in Ha.
  change (2 ^ 8) with 256 in Ha. lia.
Qed.

Lemma htons_range v : 0 <= htons v < 2 ^ 16.
Proof. rewrite htons_value. Z.to_euclidean_division_equations. lia. Qed.

Lemma be16_htons v : le_bytes 2 (htons v) = be_bytes 2 v.
Proof.
  rewrite htons_value. unfold be_bytes. cbn [le_bytes reverse rev_append].
  rewrite (Z.add_comm (256 * _)), Z.mul_comm, Z.mod_add, Z.mod_mod, Z.div_add by lia.
  rewrite (Z.div_small ((v / 256) mod 256)) by (apply Z.mod_pos_bound; lia).
  unfold reverse. cbn [rev_append]. do 2 f_equal. rewrite Z.add_0_l. apply Z.mod_mod. lia.
Qed.

Lemma htons_be16 v : 0 <= v < 2 ^ 16 -> htons (le_value (be_bytes 2 v)) = v.
Proof.
  intros Hv. unfold be_bytes, reverse. cbn [le_bytes rev_append le_value foldr].
  rewrite htons_value. rewrite Z.mul_0_r, Z.add_0_r.
  Z.to_euclidean_division_equations. lia.
Qed.

(** ** The block functions *)

Lemma zput_mid {A} (l : list A) x y k i :
  i = zlen l -> zput (l ++ x :: k) i y = Some (l ++ y :: k).
Proof.
  intros ->. rewrite zput_Some by (rewrite length_app; simpl; lia).
  f_equal. rewrite Nat2Z.id. rewrite insert_app_r_alt by lia. by rewrite Nat.sub_diag.
Qed.

Lemma zget_nth (l k : list Z) i : 0 <= i < zlen l -> zget (l ++ k) i = Some (nth (Z.to_nat i) l 0).
Proof.
  intros Hi. rewrite zget_app_l by lia. unfold zget. rewrite decide_True by lia.
  destruct (lookup_lt_is_Some_2 l (Z.to_nat i)) as [x Hx]; [lia|].
  rewrite Hx. f_equal. symmetry. by apply nth_lookup_Some.
Qed.

Lemma get32_word blk i :
  bytes (take 64 blk) -> 64 <= zlen blk -> (i < 16)%nat ->
  ntohl <$> get32 blk (4 * Z.of_nat i) = Some (word (take 64 blk) i).
Proof.
  intros Hb Hl Hi. unfold get32. rewrite aread_Some by lia. simpl. f_equal.
  unfold ntohl, word. change (Z.to_nat 4) with 4%nat.
  replace (Z.to_nat (4 * Z.of_nat i)) with (4 * i)%nat by lia.
  rewrite skipn_firstn_comm, take_take. rewrite Nat.min_l by lia.
  apply swabl_value.
  - replace (take 4 (drop (4 * i) blk)) with (take 4 (drop (4 * i) (take 64 blk)))
      by (rewrite skipn_firstn_comm, take_take; f_equal; lia).
    by apply Forall_take, Forall_drop.
  - rewrite length_take, length_drop. lia.
Qed.

Lemma load_words_spec blk n i W rest :
  bytes (take 64 blk) -> 64 <= zlen blk -> (i + n <= 16)%nat -> length W = i -> (n <= length rest)%nat ->
  load_words n (Z.of_nat i) (W ++ rest) blk =
    Some (W ++ (word (take 64 blk) <$> seq i n) ++ drop n rest).
Proof.
  intros Hb Hl. revert i W rest. induction n as [|n IH]; intros i W rest Hn HW Hr.
  { simpl. by rewrite drop_0. }
  destruct rest as [|r rest]; [simpl in Hr; lia|]. cbn [load_words].
  pose proof (get32_word blk i Hb Hl ltac:(lia)) as Hg.
  destruct (get32 blk (4 * Z.of_nat i)) as [v|]; [|done]. injection Hg as Hg.
  cbn [mbind option_bind]. rewrite zput_mid by lia. cbn [mbind option_bind].
  replace (Z.of_nat i + 1) with (Z.of_nat (S i)) by lia.
  rewrite Hg, cons_middle, app_assoc.
  rewrite IH by (rewrite ?length_app; simpl in *; lia).
  by rewrite <- app_assoc.
Qed.

Lemma back_get (w k : list Z) i :
  (0 < i <= length w)%nat -> zget (w ++ k) (zlen w - Z.of_nat i) = Some (back w i).
Proof.
  intros Hi. rewrite zget_nth by lia. unfold back. do 2 f_equal. lia.
Qed.

Lemma sha1_expand_spec n w rest :
  (16 <= length w)%nat -> (n <= length rest)%nat ->
  sha1_expand n (zlen w) (w ++ rest) = Some (sched sha1_next n w ++ drop n rest).
Proof.
  revert w rest. induction n as [|n IH]; intros w rest Hw Hr; [done|].
  destruct rest as [|r rest]; [simpl in Hr; lia|]. cbn [sha1_expand sched].
  rewrite (back_get w _ 3), (back_get w _ 8), (back_get w _ 14), (back_get w _ 16) by lia.
  cbn [mbind option_bind]. rewrite zput_mid by lia. cbn [mbind option_bind].
  change (rol _ 1) with (sha1_next w).
  rewrite cons_middle, app_assoc.
  replace (zlen w + 1) with (zlen (w ++ [sha1_next w])) by (rewrite length_app; simpl; lia).
  apply IH; rewrite ?length_app; simpl in *; lia.
Qed.

Lemma sha256_expand_spec n w rest :
  (16 <= length w)%nat -> (n <= length rest)%nat ->
  sha256_expand n (zlen w) (w ++ rest) = Some (sched sha256_next n w ++ drop n rest).
Proof.
  revert w rest. induction n as [|n IH]; intros w rest Hw Hr; [done|].
  destruct rest as [|r rest]; [simpl in Hr; lia|]. cbn [sha256_expand sched].
  rewrite (back_get w _ 2), (back_get w _ 7), (back_get w _ 15), (back_get w _ 16) by lia.
  cbn [mbind option_bind]. rewrite zput_mid by lia. cbn [mbind option_bind].
  change (u32 _) with (sha256_next w).
  rewrite cons_middle, app_assoc.
  replace (zlen w + 1) with (zlen (w ++ [sha256_next w])) by (rewrite length_app; simpl; lia).
  apply IH; rewrite ?length_app; simpl in *; lia.
Qed.

Lemma length_sched next n w : length (sched next n w) = (length w + n)%nat.
Proof.
  revert w. induction n as [|n IH]; intros; simpl; [lia|].
  rewrite IH, length_app. simpl. lia.
Qed.

Lemma length_words blk : length (words blk) = 16%nat.
Proof. done. Qed.

(** Loading a block: the schedule of the block's words, whatever [W] held. *)
Lemma sha1_load_spec sh blk :
  bytes (take 64 blk) -> 64 <= zlen blk -> length (sh_W sh) = 80%nat ->
  sha1_load sh blk = Some (Sha (sh_H sh) (sched sha1_next 64 (words (take 64 blk)))).
Proof.
  intros Hb Hl HW. unfold sha1_load.
  change (load_words 16 0 (sh_W sh) blk)
    with (load_words 16 (Z.of_nat 0) ([] ++ sh_W sh) blk).
  rewrite load_words_spec by (done || simpl; lia).
  cbn [mbind option_bind app]. fold (words (take 64 blk)).
  change 16 with (zlen (words (take 64 blk))).
  rewrite sha1_expand_spec by (rewrite ?length_drop; simpl; lia).
  cbn [mbind option_bind]. rewrite drop_drop, drop_ge, app_nil_r by lia. done.
Qed.

Lemma sha256_load_spec sh blk :
  bytes (take 64 blk) -> 64 <= zlen blk -> length (sh_W sh) = 64%nat ->
  sha256_load sh blk = Some (Sha (sh_H sh) (sched sha256_next 48 (words (take 64 blk)))).
Proof.
  intros Hb Hl HW. unfold sha256_load.
  change (load_words 16 0 (sh_W sh) blk)
    with (load_words 16 (Z.of_nat 0) ([] ++ sh_W sh) blk).
  rewrite load_words_spec by (done || simpl; lia).
  cbn [mbind option_bind app]. fold (words (take 64 blk)).
  change 16 with (zlen (words (take 64 blk))).
  rewrite sha256_expand_spec by (rewrite ?length_drop; simpl; lia).
  cbn [mbind option_bind]. rewrite drop_drop, drop_ge, app_nil_r by lia. done.
Qed.

(** The code's round functions, with disjunctions, are the standard's. *)
Lemma fa_Ch b c d : fa b c d = Ch b c d.
Proof.
  unfold fa, Ch. apply Z.bits_inj'. intros i Hi.
  rewrite Z.lor_spec, Z.lxor_spec, !Z.land_spec. unfold not32, uwrap.
  destruct (decide (i < 32)).
  - rewrite Z.mod_pow2_bits_low, Z.lnot_spec by lia.
    by destruct (Z.testbit b i), (Z.testbit c i), (Z.testbit d i).
  - rewrite Z.mod_pow2_bits_high by lia. simpl. by destruct (_ && _).
Qed.

Lemma fc_Maj b c d : fc b c d = Maj b c d.
Proof.
  unfold fc, Maj. apply Z.bits_inj'. intros i Hi.
  rewrite !Z.lor_spec, !Z.lxor_spec, !Z.land_spec.
  by destruct (Z.testbit b i), (Z.testbit c i), (Z.testbit d i).
Qed.

Lemma sha1_rounds_spec f k n t j W a b c d e :
  j = Z.of_nat t -> (t + n <= length W)%nat ->
  (forall i, (t <= i < t + n)%nat -> sha1_K i = k /\ forall b c d, f b c d = sha1_f i b c d) ->
  sha1_rounds f k n W (a, b, c, d, e, j) =
    Some (foldl (sha1_step W) (a, b, c, d, e) (seq t n), Z.of_nat (t + n)).
Proof.
  intros ->. revert t a b c d e. induction n as [|n IH]; intros t a b c d e Hl Hf.
  { simpl. by rewrite Nat.add_0_r. }
  cbn [sha1_rounds seq foldl].
  pose proof (zget_nth W [] (Z.of_nat t) ltac:(lia)) as Hg. rewrite app_nil_r, Nat2Z.id in Hg.
  rewrite Hg. cbn [mbind option_bind]. destruct (Hf t) as [HK Hft]; [lia|].
  replace (Z.of_nat t + 1) with (Z.of_nat (S t)) by lia.
  rewrite IH by (try lia; intros; apply Hf; lia).
  rewrite <- HK, Hft. replace (S t + n)%nat with (t + S n)%nat by lia. done.
Qed.

Lemma sha256_rounds_spec n t j W a b c d e f g h :
  j = Z.of_nat t -> (t + n <= length W)%nat -> (t + n <= 64)%nat ->
  sha256_rounds n j W (a, b, c, d, e, f, g, h) =
    Some (foldl (sha256_step W) (a, b, c, d, e, f, g, h) (seq t n)).
Proof.
  intros ->. revert t a b c d e f g h. induction n as [|n IH]; intros t a b c d e f g h Hl Ht; [done|].
  cbn [sha256_rounds seq foldl].
  pose proof (zget_nth W [] (Z.of_nat t) ltac:(lia)) as Hg. rewrite app_nil_r, Nat2Z.id in Hg.
  pose proof (zget_nth K [] (Z.of_nat t) ltac:(simpl; lia)) as HK. rewrite app_nil_r, Nat2Z.id in HK.
  rewrite Hg, HK. cbn [mbind option_bind].
  replace (Z.of_nat t + 1) with (Z.of_nat (S t)) by lia.
  apply IH; lia.
Qed.

(** The constants and functions of the four loops. *)
Lemma sha1_phase i :
  (i < 80)%nat ->
  (sha1_K i = 0x5A827999 /\ (forall b c d, fa b c d = sha1_f i b c d) /\ (i < 20)%nat) \/
  (sha1_K i = 0x6ED9EBA1 /\ (forall b c d, fb b c d = sha1_f i b c d) /\ (20 <= i < 40)%nat) \/
  (sha1_K i = 0x8F1BBCDC /\ (forall b c d, fc b c d = sha1_f i b c d) /\ (40 <= i < 60)%nat) \/
  (sha1_K i = 0xCA62C1D6 /\ (forall b c d, fb b c d = sha1_f i b c d) /\ (60 <= i)%nat).
Proof.
  intros Hi. unfold sha1_K, sha1_f. repeat case_decide.
  - left. split; [done|]. split; [apply fa_Ch|done].
  - right; left. split; [done|]. split; [done|lia].
  - do 2 right; left. split; [done|]. split; [apply fc_Maj|lia].
  - do 3 right. split; [done|]. split; [done|lia].
Qed.

Ltac phase i Hi := destruct (sha1_phase i) as [(?&?&?)|[(?&?&?)|[(?&?&?)|(?&?&?)]]]; (lia || done).

Lemma sha1_rounds_80 W st j :
  length W = 80%nat -> j = 0 ->
  (st ← sha1_rounds fa 0x5A827999 20 W (st, j);
   st ← sha1_rounds fb 0x6ED9EBA1 20 W st;
   st ← sha1_rounds fc 0x8F1BBCDC 20 W st;
   sha1_rounds fb 0xCA62C1D6 20 W st) = Some (foldl (sha1_step W) st (seq 0 80), 80).
Proof.
  intros HW ->.
  assert (seq 0 80 = seq 0 20 ++ seq 20 20 ++ seq 40 20 ++ seq 60 20) as -> by done.
  rewrite !foldl_app. destruct st as [[[[a b] c] d] e].
  rewrite (sha1_rounds_spec fa _ 20 0) by (lia || (intros i Hi; phase i Hi)).
  rewrite Some_bind. destruct (foldl _ _ (seq 0 20)) as [[[[a1 b1] c1] d1] e1].
  rewrite (sha1_rounds_spec fb _ 20 20) by (lia || (intros i Hi; phase i Hi)).
  rewrite Some_bind. destruct (foldl _ _ (seq 20 20)) as [[[[a2 b2] c2] d2] e2].
  rewrite (sha1_rounds_spec fc _ 20 40) by (lia || (intros i Hi; phase i Hi)).
  rewrite Some_bind. destruct (foldl _ _ (seq 40 20)) as [[[[a3 b3] c3] d3] e3].
  by rewrite (sha1_rounds_spec fb _ 20 60) by (lia || (intros i Hi; phase i Hi)).
Qed.

Lemma sha1_hash_spec H W :
  length H = 5%nat -> length W = 80%nat ->
  sha1_hash (Sha H W) = Some (Sha (
    match H with
    | [h0; h1; h2; h3; h4] =>
        let '(a, b, c, d, e) := foldl (sha1_step W) (h0, h1, h2, h3, h4) (seq 0 80) in
        [add32 h0 a; add32 h1 b; add32 h2 c; add32 h3 d; add32 h4 e]
    | _ => H
    end) W).
Proof.
  intros HH HW. destruct H as [|h0 [|h1 [|h2 [|h3 [|h4 [|]]]]]]; try done.
  pose proof (sha1_rounds_80 W (h0, h1, h2, h3, h4) 0 HW eq_refl) as Hr.
  destruct (foldl _ _ (seq 0 80)) as [[[[a b] c] d] e].
  unfold sha1_hash. cbn [sh_H sh_W].
  set (H := [h0; h1; h2; h3; h4]).
  change (zget H 0) with (Some h0). change (zget H 1) with (Some h1).
  change (zget H 2) with (Some h2). change (zget H 3) with (Some h3).
  change (zget H 4) with (Some h4). rewrite !Some_bind.
  apply bind_Some_inv in Hr as (st1 & -> & Hr). rewrite Some_bind.
  apply bind_Some_inv in Hr as (st2 & -> & Hr). rewrite Some_bind.
  apply bind_Some_inv in Hr as (st3 & -> & Hr). rewrite Some_bind.
  rewrite Hr, Some_bind. reflexivity.
Qed.

Lemma sha256_hash_spec H W :
  length H = 8%nat -> length W = 64%nat ->
  sha256_hash (Sha H W) = Some (Sha (
    match H with
    | [h0; h1; h2; h3; h4; h5; h6; h7] =>
        let '(a, b, c, d, e, f, g, h) :=
          foldl (sha256_step W) (h0, h1, h2, h3, h4, h5, h6, h7) (seq 0 64) in
        [add32 h0 a; add32 h1 b; add32 h2 c; add32 h3 d;
         add32 h4 e; add32 h5 f; add32 h6 g; add32 h7 h]
    | _ => H
    end) W).
Proof.
  intros HH HW.
  destruct H as [|h0 [|h1 [|h2 [|h3 [|h4 [|h5 [|h6 [|h7 [|]]]]]]]]]; try done.
  unfold sha256_hash. cbn [sh_H sh_W].
  set (H := [h0; h1; h2; h3; h4; h5; h6; h7]).
  change (zget H 0) with (Some h0). change (zget H 1) with (Some h1).
  change (zget H 2) with (Some h2). change (zget H 3) with (Some h3).
  change (zget H 4) with (Some h4). change (zget H 5) with (Some h5).
  change (zget H 6) with (Some h6). change (zget H 7) with (Some h7).
  rewrite !Some_bind. rewrite (sha256_rounds_spec 64 0) by lia. rewrite Some_bind.
  destruct (foldl _ _ (seq 0 64)) as [[[[[[[a b] c] d] e] f] g] h]. reflexivity.
Qed.

(** ** What the common part needs of a block function *)

Definition wf_sha `{CC : !Core} (sh : sha) : Prop := length (sh_H sh) = nH /\ length (sh_W sh) = nW.

Class CoreSpec `{CC : !Core} (iv : list Z) (compress : list Z -> list Z -> list Z) : Prop := {
  nH_pos : (0 < nH <= 13)%nat;
  core_init_spec sh : wf_sha sh -> core_init sh = Some (Sha iv (sh_W sh));
  iv_length : length iv = nH;
  core_block sh blk : wf_sha sh -> bytes (take 64 blk) -> 64 <= zlen blk ->
    exists sh1 W, core_load sh blk = Some sh1 /\
      core_hash sh1 = Some (Sha (compress (sh_H sh) (take 64 blk)) W) /\ length W = nW;
  compress_length H blk : length H = nH -> length (compress H blk) = nH }.

#[export] Instance sha1_core_spec : CoreSpec (CC := sha1_core) sha1_iv sha1_compress.
Proof.
  split.
  - simpl. lia.
  - intros [H W] [HH _]. simpl in HH.
    destruct H as [|h0 [|h1 [|h2 [|h3 [|h4 [|]]]]]]; try done.
  - done.
  - intros [H W] blk [HH HW] Hb Hl. simpl in HH, HW.
    eexists _, _. split; [by apply sha1_load_spec|]. cbn [sh_H].
    assert (length (sched sha1_next 64 (words (take 64 blk))) = 80%nat)
      by (by rewrite length_sched, length_words).
    split; [|done]. cbn [core_hash sha1_core]. rewrite sha1_hash_spec by done. done.
  - intros H blk HH. simpl in HH. destruct H as [|h0 [|h1 [|h2 [|h3 [|h4 [|]]]]]]; try done.
Qed.

#[export] Instance sha256_core_spec : CoreSpec (CC := sha256_core) sha256_iv sha256_compress.
Proof.
  split.
  - simpl. lia.
  - intros [H W] [HH _]. simpl in HH.
    destruct H as [|h0 [|h1 [|h2 [|h3 [|h4 [|h5 [|h6 [|h7 [|]]]]]]]]]; try done.
  - done.
  - intros [H W] blk [HH HW] Hb Hl. simpl in HH, HW.
    eexists _, _. split; [by apply sha256_load_spec|]. cbn [sh_H].
    assert (length (sched sha256_next 48 (words (take 64 blk))) = 64%nat)
      by (by rewrite length_sched, length_words).
    split; [|done]. cbn [core_hash sha256_core]. rewrite sha256_hash_spec by done. done.
  - intros H blk HH. simpl in HH.
    destruct H as [|h0 [|h1 [|h2 [|h3 [|h4 [|h5 [|h6 [|h7 [|]]]]]]]]]; try done.
Qed.
