(* ===== verification/Md.v ===== *)
(** * SHA-1, SHA-256, HMAC and PBKDF2: correctness

    The code common to the two hashes, proved against the class [CoreSpec] of
    [ShaSpec], and the theorems for both instances. *)
From S2P Require Import Prelude Arr Sha ShaSpec.

(** ** Arrays *)

Lemma afill_Some l off c n :
  0 <= off -> 0 <= n -> off + n <= zlen l ->
  afill l off c n = Some (take (Z.to_nat off) l ++ repeat c (Z.to_nat n) ++ drop (Z.to_nat (off + n)) l).
Proof.
  intros. unfold afill. rewrite (proj2 (Z.leb_le 0 n)) by lia.
  rewrite awrite_Some by (rewrite ?repeat_length; lia). rewrite repeat_length.
  do 4 f_equal. lia.
Qed.

Lemma aread_prefix {A} (l : list A) n :
  0 <= n <= zlen l -> aread l 0 n = Some (take (Z.to_nat n) l).
Proof. intros. by rewrite aread_Some by lia. Qed.

Lemma bytes_repeat c n : 0 <= c < 256 -> bytes (repeat c n).
Proof. intros. induction n; simpl; auto. Qed.

Lemma bytes_be_bytes k v : bytes (be_bytes k v).
Proof. apply Forall_reverse, bytes_le_bytes. Qed.

Lemma length_be_bytes k v : length (be_bytes k v) = k.
Proof. unfold be_bytes. by rewrite length_reverse, length_le_bytes. Qed.

Lemma bytes_take_le (l : list Z) j k : bytes (take k l) -> (j <= k)%nat -> bytes (take j l).
Proof. intros Hb Hj. rewrite <- (Nat.min_l j k Hj), <- take_take. by apply Forall_take. Qed.

Lemma bytes_take_drop (l : list Z) i j k :
  bytes (take k l) -> (i + j <= k)%nat -> bytes (take j (drop i l)).
Proof.
  intros Hb Hk. replace (take j (drop i l)) with (take j (drop i (take k l))).
  - by apply Forall_take, Forall_drop.
  - rewrite skipn_firstn_comm, take_take. f_equal. lia.
Qed.

Lemma be_bytes_8 v : be_bytes 8 v = be_bytes 4 (v / 2 ^ 32) ++ be_bytes 4 v.
Proof.
  unfold be_bytes. rewrite (le_bytes_app 4 4). rewrite reverse_app. done.
Qed.

Lemma be_bytes_mod k v n : 8 * Z.of_nat k <= n -> be_bytes k (v mod 2 ^ n) = be_bytes k v.
Proof. intros. unfold be_bytes. by rewrite le_bytes_mod by done. Qed.

Lemma lxor_byte a b : 0 <= a < 256 -> 0 <= b < 256 -> 0 <= Z.lxor a b < 256.
Proof.
  intros Ha Hb.
  assert (Z.lxor a b = (Z.lxor a b) mod 2 ^ 8) as ->; [|apply Z.mod_pos_bound; lia].
  apply Z.bits_inj'. intros i Hi. destruct (decide (i < 8)).
  - by rewrite Z.mod_pow2_bits_low by lia.
  - rewrite Z.mod_pow2_bits_high by lia. rewrite Z.lxor_spec.
    rewrite <- (Z.mod_small a (2 ^ 8)), <- (Z.mod_small b (2 ^ 8)) by lia.
    by rewrite !Z.mod_pow2_bits_high by lia.
Qed.

(** ** Chaining *)

Section absorb.
Context (compress : list Z -> list Z -> list Z).

Lemma absorb_app j k H a b :
  length a = (64 * j)%nat ->
  absorb compress (j + k) H (a ++ b) = absorb compress k (absorb compress j H a) b.
Proof.
  revert H a. induction j as [|j IH]; intros H a Ha.
  { destruct a; [done|simpl in Ha; lia]. }
  cbn [Nat.add absorb]. rewrite take_app_le, drop_app_le by lia.
  apply IH. rewrite length_drop. lia.
Qed.

Lemma absorb_take k n H l :
  (64 * k <= n)%nat -> absorb compress k H (take n l) = absorb compress k H l.
Proof.
  revert n H l. induction k as [|k IH]; intros n H l Hn; [done|]. cbn [absorb].
  rewrite take_take, Nat.min_l by lia. rewrite skipn_firstn_comm. apply IH. lia.
Qed.

Lemma absorb_length nh k H l :
  (forall H blk, length H = nh -> length (compress H blk) = nh) ->
  length H = nh -> length (absorb compress k H l) = nh.
Proof. intros Hc. revert H l. induction k as [|k IH]; intros; simpl; auto. Qed.
End absorb.

(** The padding of [n] bytes at the end of a message of [total] bytes. *)
Definition pad_to (n total : Z) : list Z :=
  0x80 :: repeat 0 (Z.to_nat ((55 - n) mod 64)) ++ be_bytes 8 (8 * total).

Lemma length_pad_to n total : zlen (pad_to n total) = 9 + (55 - n) mod 64.
Proof.
  unfold pad_to. cbn [length]. rewrite length_app, repeat_length, length_be_bytes.
  pose proof (Z.mod_pos_bound (55 - n) 64). lia.
Qed.

Lemma pad_to_add n k total : pad_to (64 * k + n) total = pad_to n total.
Proof.
  unfold pad_to. replace (55 - (64 * k + n)) with (55 - n + (- k) * 64) by lia.
  by rewrite Z.mod_add by lia.
Qed.

(** A padded message is a whole number of blocks. *)
Lemma padded_blocks msg total :
  length (msg ++ pad_to (zlen msg) total) = (64 * (length (msg ++ pad_to (zlen msg) total) / 64))%nat.
Proof.
  assert (zlen (msg ++ pad_to (zlen msg) total) mod 64 = 0) as H.
  { rewrite length_app, Nat2Z.inj_add, length_pad_to.
    Z.to_euclidean_division_equations. lia. }
  apply Nat2Z.inj. rewrite Nat2Z.inj_mul, Nat2Z.inj_div. change (Z.of_nat 64) with 64.
  pose proof (Z.div_mod (zlen (msg ++ pad_to (zlen msg) total)) 64). lia.
Qed.

Lemma bytes_pad_to n total : bytes (pad_to n total).
Proof.
  unfold pad_to. constructor; [lia|]. apply Forall_app.
  split; [apply bytes_repeat; lia|apply bytes_be_bytes].
Qed.

Lemma put_size_spec blk total :
  length blk = 64%nat -> put_size blk total = Some (take 56 blk ++ be_bytes 8 (8 * total)).
Proof.
  intros Hl. unfold put_size, put32, htonl. rewrite !le_bytes_swabl.
  rewrite Z.shiftl_mul_pow2 by lia. set (bits := u64 _).
  assert (blk = take 56 blk ++ take 4 (drop 56 blk) ++ drop 60 blk) as Hb.
  { replace (drop 60 blk) with (drop 4 (drop 56 blk)) by (by rewrite drop_drop).
    by rewrite !take_drop. }
  rewrite Hb at 1. rewrite awrite_parts; [|rewrite length_take; lia|].
  2:{ rewrite length_be_bytes, length_take, length_drop. lia. }
  rewrite Some_bind, app_assoc. rewrite <- (app_nil_r (drop 60 blk)).
  rewrite awrite_parts; [|rewrite length_app, length_take, length_be_bytes; lia|].
  2:{ rewrite length_be_bytes, length_drop. lia. }
  rewrite app_nil_r, <- app_assoc. do 2 f_equal.
  replace (be_bytes 8 (8 * total)) with (be_bytes 8 bits).
  2:{ unfold bits, uwrap. rewrite be_bytes_mod by lia. f_equal. lia. }
  rewrite be_bytes_8. rewrite Z.shiftr_div_pow2 by lia. unfold uwrap.
  rewrite be_bytes_mod by lia. f_equal.
  rewrite be_bytes_mod by lia. change 0xFFFFFFFF with (Z.ones 32).
  rewrite Z.land_ones by lia. by rewrite be_bytes_mod by lia.
Qed.

(** ** The block loop and the padding cases *)

Section md.
Context `{HL : !Locals} `{CC : !Core} {iv : list Z} {compress : list Z -> list Z -> list Z}.
Context `{HC : !CoreSpec iv compress}.

Lemma proc_spec sh blk :
  wf_sha sh -> bytes (take 64 blk) -> 64 <= zlen blk ->
  exists sh', proc sh blk = Some sh' /\ wf_sha sh' /\
    sh_H sh' = compress (sh_H sh) (take 64 blk).
Proof.
  intros Hw Hb Hl. destruct (core_block (CoreSpec := HC) sh blk Hw Hb Hl) as (sh1 & W & H1 & H2 & HW).
  unfold proc. rewrite H1, Some_bind, H2. eexists. split; [done|]. split; [|done].
  split; [|done]. simpl. destruct Hw. by apply compress_length.
Qed.

Lemma block_loop_spec fuel sh ptr n :
  wf_sha sh -> bytes (take (Z.to_nat n) ptr) -> 0 <= n <= zlen ptr -> n <= Z.of_nat fuel ->
  exists sh' k, block_loop fuel sh ptr n = Some (sh', drop (64 * k) ptr, n - 64 * Z.of_nat k) /\
    0 <= n - 64 * Z.of_nat k < 64 /\ wf_sha sh' /\
    sh_H sh' = absorb compress k (sh_H sh) ptr.
Proof.
  revert sh ptr n. induction fuel as [|fuel IH]; intros sh ptr n Hw Hb Hn Hf.
  all: cbn [block_loop]; destruct (Z.leb_spec 64 n); [|].
  1: lia.
  1,3: exists sh, 0%nat; rewrite Nat.mul_0_r, drop_0, Z.mul_0_r, Z.sub_0_r;
    split; [done|]; split; [lia|done].
  destruct (proc_spec sh ptr) as (sh1 & -> & Hw1 & H1);
    [done|by apply (bytes_take_le _ _ _ Hb); lia|lia|]. rewrite Some_bind.
  destruct (IH sh1 (drop 64 ptr) (n - 64)) as (sh' & k & -> & Hk & Hw' & H');
    [done|by apply (bytes_take_drop _ _ _ _ Hb); lia|rewrite length_drop; lia|lia|].
  exists sh', (S k). rewrite drop_drop. split; [f_equal; f_equal; [f_equal; f_equal|]; lia|].
  split; [lia|]. split; [done|]. rewrite H', H1. done.
Qed.

Lemma block_loop_short fuel sh ptr n : n < 64 -> block_loop fuel sh ptr n = Some (sh, ptr, n).
Proof. intros. destruct fuel; cbn [block_loop]; by rewrite (proj2 (Z.leb_gt 64 n)) by lia. Qed.

(** Filling the local block with the tail of the message and the one bit. *)
Lemma tail_block ptr len (k : list Z -> option sha) :
  0 <= len < 64 -> len <= zlen ptr ->
  (src ← aread ptr 0 len; block ← awrite (junk 64) 0 src;
   block ← afill block len 0 (64 - len); block ← zput block len 0x80; k block) =
  k (take (Z.to_nat len) ptr ++ 0x80 :: repeat 0 (63 - Z.to_nat len)).
Proof.
  intros Hn Hl. rewrite aread_prefix by lia. rewrite Some_bind.
  set (t := take (Z.to_nat len) ptr).
  assert (length t = Z.to_nat len) as Ht by (unfold t; rewrite length_take; lia).
  rewrite awrite_Some by (rewrite ?junk_length; lia). rewrite Some_bind.
  rewrite take_0. simpl app.
  rewrite afill_Some by (rewrite ?length_app, ?length_drop, ?junk_length; lia).
  rewrite Some_bind. rewrite take_app_le, take_ge by lia.
  rewrite (drop_ge _ (Z.to_nat (len + (64 - len)))) by
    (rewrite length_app, length_drop, junk_length; lia).
  rewrite app_nil_r.
  replace (Z.to_nat (64 - len)) with (S (63 - Z.to_nat len)) by lia. cbn [repeat].
  rewrite zput_mid by lia. by rewrite Some_bind.
Qed.

Lemma one_block sh l :
  wf_sha sh -> length l = 64%nat -> bytes l ->
  exists sh', (sh ← core_load sh l; core_hash sh) = Some sh' /\ wf_sha sh' /\
    sh_H sh' = compress (sh_H sh) l.
Proof.
  intros Hw Hl Hb. destruct (proc_spec sh l) as (sh' & Hp & Hw' & H'); [done|by apply Forall_take|lia|].
  exists sh'. rewrite take_ge in H' by lia. done.
Qed.

(** The message length does not fit the last block: two blocks. *)
Lemma last_long sh ptr len total :
  wf_sha sh -> bytes (take (Z.to_nat len) ptr) -> 55 < len < 64 -> len <= zlen ptr ->
  let p := take (Z.to_nat len) ptr ++ pad_to len total in
  exists sh', last sh ptr len total = Some sh' /\ wf_sha sh' /\
    sh_H sh' = absorb compress (length p / 64) (sh_H sh) p.
Proof.
  intros Hw Hb Hn Hl p. unfold last. rewrite Z.rem_small by lia.
  rewrite (proj2 (Z.ltb_lt 55 len)) by lia.
  unfold load_pad2. rewrite tail_block by lia. set (b1 := take _ ptr ++ _).
  set (b2 := repeat 0 56 ++ be_bytes 8 (8 * total)).
  assert (length b1 = 64%nat) as Hl1.
  { unfold b1. rewrite length_app, length_take. cbn [length]. rewrite repeat_length. lia. }
  assert (p = b1 ++ b2) as Hp.
  { unfold p, b1, b2, pad_to. rewrite <- app_assoc. cbn [app]. do 2 f_equal.
    rewrite app_assoc, <- repeat_app. do 2 f_equal.
    rewrite <- (Z.mod_unique_pos (55 - len) 64 (-1) (119 - len)) by lia. lia. }
  assert (bytes p) as Hpb.
  { apply Forall_app. split; [done|apply bytes_pad_to]. }
  rewrite Hp in Hpb. apply Forall_app in Hpb as [Hb1 Hb2].
  destruct (one_block sh b1) as (sh1 & H1 & Hw1 & HH1); [done..|].
  apply bind_Some_inv in H1 as (sh1' & -> & H1). rewrite Some_bind, H1, Some_bind.
  unfold load_pad0. rewrite afill_Some by (rewrite ?junk_length; lia).
  rewrite Some_bind. rewrite drop_ge by (rewrite junk_length; lia).
  rewrite put_size_spec by done. rewrite Some_bind.
  destruct (one_block sh1 b2) as (sh2 & H2 & Hw2 & HH2); [done..|].
  exists sh2. split; [done|]. split; [done|]. rewrite Hp, length_app, Hl1.
  change ((64 + length b2) / 64)%nat with (1 + 1)%nat. rewrite absorb_app by lia.
  cbn [absorb]. rewrite HH2, HH1, !take_ge by (done || lia). done.
Qed.

Lemma last_short sh ptr len total :
  wf_sha sh -> bytes (take (Z.to_nat len) ptr) -> 0 <= len <= 55 -> len <= zlen ptr ->
  let p := take (Z.to_nat len) ptr ++ pad_to len total in
  exists sh', last sh ptr len total = Some sh' /\ wf_sha sh' /\
    sh_H sh' = absorb compress (length p / 64) (sh_H sh) p.
Proof.
  intros Hw Hb Hn Hl p. unfold last. rewrite Z.rem_small by lia.
  rewrite (proj2 (Z.ltb_ge 55 len)) by lia.
  unfold load_pad1. rewrite tail_block by lia.
  assert (length (take (Z.to_nat len) ptr) = Z.to_nat len) as Ht by (rewrite length_take; lia).
  rewrite put_size_spec by (rewrite length_app; cbn [length]; rewrite repeat_length; lia).
  rewrite Some_bind. set (b := take 56 _ ++ _).
  assert (p = b) as Hp.
  { unfold p, b, pad_to. rewrite take_app_ge by lia.
    rewrite Ht. replace (56 - Z.to_nat len)%nat with (S (55 - Z.to_nat len)) by lia.
    cbn [take]. rewrite Z.mod_small by lia.
    rewrite <- app_assoc. cbn [app]. do 3 f_equal.
    replace (63 - Z.to_nat len)%nat with (Z.to_nat (55 - len) + 8)%nat by lia.
    rewrite repeat_app, take_app_le, take_ge by (rewrite repeat_length; lia). done. }
  assert (length b = 64%nat) as Hlb.
  { rewrite <- Hp. unfold p. apply Nat2Z.inj. rewrite length_app, Nat2Z.inj_add, length_pad_to.
    rewrite Z.mod_small by lia. lia. }
  destruct (one_block sh b) as (sh' & H' & Hw' & HH'); [done..| |].
  { rewrite <- Hp. apply Forall_app. split; [done|apply bytes_pad_to]. }
  exists sh'. split; [done|]. split; [done|]. rewrite Hp, Hlb.
  change (64 / 64)%nat with 1%nat. cbn [absorb]. rewrite HH', take_ge by lia. done.
Qed.

Lemma last_spec sh ptr len total :
  wf_sha sh -> bytes (take (Z.to_nat len) ptr) -> 0 <= len < 64 -> len <= zlen ptr ->
  let p := take (Z.to_nat len) ptr ++ pad_to len total in
  exists sh', last sh ptr len total = Some sh' /\ wf_sha sh' /\
    sh_H sh' = absorb compress (length p / 64) (sh_H sh) p.
Proof.
  intros. destruct (decide (55 < len)); [apply last_long|apply last_short]; done || lia.
Qed.

(** The block loop followed by the last block absorbs the whole padded input. *)
Lemma rest_spec sh input n total :
  wf_sha sh -> bytes (take (Z.to_nat n) input) -> 0 <= n <= zlen input ->
  let msg := take (Z.to_nat n) input in
  let p := msg ++ pad_to n total in
  exists sh', ('(sh, ptr, n) ← block_loop (Z.to_nat n) sh input n;
               last sh ptr (s32 n) total) = Some sh' /\ wf_sha sh' /\
    sh_H sh' = absorb compress (length p / 64) (sh_H sh) p.
Proof.
  intros Hw Hb Hn msg p.
  destruct (block_loop_spec (Z.to_nat n) sh input n) as (sh1 & k & -> & Hk & Hw1 & H1);
    [done|done|lia|lia|].
  rewrite Some_bind, s32_small by lia.
  destruct (last_spec sh1 (drop (64 * k) input) (n - 64 * Z.of_nat k) total)
    as (sh2 & -> & Hw2 & H2); [done|by apply (bytes_take_drop _ _ _ _ Hb); lia|lia|rewrite length_drop; lia|].
  exists sh2. split; [done|]. split; [done|]. rewrite H2, H1.
  set (t := take (Z.to_nat (n - 64 * Z.of_nat k)) (drop (64 * k) input)).
  assert (p = take (64 * k) input ++ (t ++ pad_to (n - 64 * Z.of_nat k) total)) as Hp.
  { unfold p, msg. replace (pad_to n total) with (pad_to (n - 64 * Z.of_nat k) total).
    2:{ rewrite <- (pad_to_add _ (Z.of_nat k)). f_equal. lia. }
    rewrite app_assoc. f_equal. unfold t.
    replace (Z.to_nat n) with (64 * k + Z.to_nat (n - 64 * Z.of_nat k))%nat by lia.
    by rewrite take_take_drop. }
  assert (length (take (64 * k) input) = (64 * k)%nat) as Hlk by (rewrite length_take; lia).
  rewrite Hp, (length_app (take (64 * k) input)), Hlk. rewrite (Nat.mul_comm 64 k), Nat.div_add_l, (Nat.mul_comm k) by lia.
  rewrite absorb_app by done. by rewrite absorb_take by lia.
Qed.

Definition be_words (H : list Z) : list Z := concat (be_bytes 4 <$> H).

Lemma be_words_cons h H : be_words (h :: H) = be_bytes 4 h ++ be_words H.
Proof. done. Qed.

Lemma length_be_words H : length (be_words H) = (4 * length H)%nat.
Proof.
  induction H as [|h H IH]; [done|].
  rewrite be_words_cons, length_app, length_be_bytes, IH. simpl. lia.
Qed.

Lemma bytes_be_words H : bytes (be_words H).
Proof.
  induction H as [|h H IH]; [constructor|]. rewrite be_words_cons.
  apply Forall_app. split; [apply bytes_be_bytes|done].
Qed.

Lemma fini_loop_spec n i H done_ out :
  length H = (i + n)%nat -> length done_ = (4 * i)%nat -> (4 * n <= length out)%nat ->
  fini_loop n (Z.of_nat i) H (done_ ++ out) =
    Some (done_ ++ be_words (drop i H) ++ drop (4 * n) out).
Proof.
  revert i done_ out. induction n as [|n IH]; intros i d out HH Hd Ho.
  { cbn [fini_loop]. rewrite drop_ge by lia. done. }
  cbn [fini_loop]. destruct (lookup_lt_is_Some_2 H i) as [h Hh]; [lia|].
  rewrite zget_nat, Hh, Some_bind. unfold put32, htonl. rewrite le_bytes_swabl.
  rewrite <- (take_drop 4 out) at 1.
  rewrite awrite_parts by (rewrite ?length_be_bytes, ?length_take; lia). rewrite Some_bind.
  replace (Z.of_nat i + 1) with (Z.of_nat (S i)) by lia.
  rewrite app_assoc, IH; [|lia|rewrite length_app, length_be_bytes; lia|rewrite length_drop; lia].
  rewrite (drop_S H h i Hh), drop_drop, be_words_cons.
  rewrite <- !app_assoc. do 4 f_equal. f_equal. lia.
Qed.

Lemma fini_spec sh out :
  length (sh_H sh) = nH -> (4 * nH <= length out)%nat ->
  fini sh out = Some (be_words (sh_H sh) ++ drop (4 * nH) out).
Proof. intros HH Ho. apply (fini_loop_spec nH 0 (sh_H sh) []); simpl; lia. Qed.

Lemma wf_junk : wf_sha (Sha (junk nH) (junk nW)).
Proof. split; apply junk_length. Qed.

Lemma init_wf sh : wf_sha sh ->
  exists sh', core_init sh = Some sh' /\ wf_sha sh' /\ sh_H sh' = iv.
Proof.
  intros Hw. exists (Sha iv (sh_W sh)). split; [by apply (core_init_spec (CoreSpec := HC))|].
  split; [|done]. split; [apply iv_length|apply Hw].
Qed.

Lemma absorb_iv_length k H p :
  length H = nH -> length (absorb compress k H p) = nH.
Proof. apply absorb_length. intros ? ?. apply compress_length. Qed.

(** The hash of a message is the standard's. *)
Lemma digest_spec out input inlen :
  bytes (take (Z.to_nat inlen) input) -> 0 <= inlen <= zlen input -> inlen < 2 ^ 63 -> (4 * nH <= length out)%nat ->
  digest out input inlen =
    Some (md_hash iv compress (take (Z.to_nat inlen) input) ++ drop (4 * nH) out).
Proof.
  intros Hb Hn H63 Ho. unfold digest.
  destruct (init_wf _ wf_junk) as (sh0 & -> & Hw0 & H0). rewrite Some_bind.
  rewrite uwrap_small by lia.
  destruct (rest_spec sh0 input inlen inlen) as (sh1 & H1 & Hw1 & HH1); [done..|].
  apply bind_Some_inv in H1 as ([[sh2 ptr] n] & -> & H1). rewrite Some_bind, H1, Some_bind.
  rewrite fini_spec by (apply Hw1 || done). f_equal. f_equal.
  rewrite HH1, H0. unfold md_hash, be_words.
  replace (zlen (take (Z.to_nat inlen) input)) with inlen by (rewrite length_take; lia).
  done.
Qed.

Lemma length_md_hash msg : length (md_hash iv compress msg) = (4 * nH)%nat.
Proof.
  unfold md_hash. fold (be_words (absorb compress
    (length (msg ++ padding (zlen msg)) / 64) iv (msg ++ padding (zlen msg)))).
  rewrite length_be_words, absorb_iv_length; [done|apply iv_length].
Qed.

(** A first block that the caller absorbed before the message. *)
Lemma md_hash_block blk msg :
  length blk = 64%nat ->
  md_hash iv compress (blk ++ msg) =
    let p := msg ++ pad_to (zlen msg) (64 + zlen msg) in
    be_words (absorb compress (length p / 64) (compress iv blk) p).
Proof.
  intros Hb. unfold md_hash, be_words. cbv zeta.
  change padding with (fun n => pad_to n n). cbv beta.
  assert (zlen (blk ++ msg) = 64 + zlen msg) as -> by (rewrite length_app; lia).
  assert (pad_to (64 + zlen msg) (64 + zlen msg) = pad_to (zlen msg) (64 + zlen msg)) as ->
    by apply (pad_to_add (zlen msg) 1).
  set (p := msg ++ _). rewrite <- app_assoc. fold p. rewrite (length_app blk), Hb.
  replace (64 + length p)%nat with (1 * 64 + length p)%nat by lia.
  rewrite Nat.div_add_l by lia. rewrite absorb_app by lia. cbn [absorb].
  by rewrite take_ge by lia.
Qed.

(** ** HMAC *)

Definition xor_key (key : list Z) (v : Z) : list Z := (fun b => Z.lxor b v) <$> hmac_key key.

Lemma length_xor_key key v : (length key <= 64)%nat -> length (xor_key key v) = 64%nat.
Proof.
  intros. unfold xor_key, hmac_key. rewrite length_fmap, length_app, repeat_length. lia.
Qed.

Lemma bytes_xor_key key v : bytes key -> 0 <= v < 256 -> bytes (xor_key key v).
Proof.
  intros Hk Hv. unfold xor_key. apply Forall_fmap, Forall_app. split.
  - eapply Forall_impl; [exact Hk|]. intros b Hb. simpl. by apply lxor_byte.
  - eapply Forall_impl; [apply (bytes_repeat 0); lia|]. intros b Hb. simpl. by apply lxor_byte.
Qed.

Lemma key_block pad key :
  length pad = 64%nat -> (length key <= 64)%nat ->
  exists p, awrite pad 0 key = Some p /\
    afill p (zlen key) 0 (64 - zlen key) = Some (hmac_key key).
Proof.
  intros Hp Hk. rewrite awrite_Some by lia. eexists. split; [done|].
  rewrite afill_Some by (rewrite ?length_app, ?length_drop; simpl; lia).
  unfold hmac_key. f_equal. simpl. rewrite Nat2Z.id, take_app_length. f_equal.
  rewrite drop_ge by (rewrite length_app, length_drop; lia).
  rewrite app_nil_r. f_equal. lia.
Qed.

(** Hashing after one block of key. *)
Lemma keyed_spec blk input inlen total out :
  length blk = 64%nat -> bytes blk -> bytes (take (Z.to_nat inlen) input) -> 0 <= inlen <= zlen input ->
  total = 64 + inlen -> (4 * nH <= length out)%nat ->
  forall sh, wf_sha sh -> exists sh1 sh2 sh3, core_init sh = Some sh1 /\ proc sh1 blk = Some sh2 /\
    ('(sh, ptr, n) ← block_loop (Z.to_nat inlen) sh2 input inlen;
     last sh ptr (s32 n) total) = Some sh3 /\ wf_sha sh3 /\
    fini sh3 out =
      Some (md_hash iv compress (blk ++ take (Z.to_nat inlen) input) ++ drop (4 * nH) out).
Proof.
  intros Hl Hb Hi Hn -> Ho sh Hw.
  destruct (init_wf sh Hw) as (sh1 & H1 & Hw1 & HH1).
  destruct (proc_spec sh1 blk) as (sh2 & H2 & Hw2 & HH2); [done|by apply Forall_take|lia|].
  destruct (rest_spec sh2 input inlen (64 + inlen)) as (sh3 & H3 & Hw3 & HH3); [done..|].
  exists sh1, sh2, sh3. do 3 (split; [done|]). split; [done|].
  rewrite fini_spec by (apply Hw3 || done). rewrite md_hash_block by done. cbv zeta.
  rewrite HH3, HH2, HH1, (take_ge blk) by lia.
  replace (zlen (take (Z.to_nat inlen) input)) with inlen by (rewrite length_take; lia).
  done.
Qed.

Definition key_len (klen : Z) : Z := Z.min 64 (Z.max 0 klen).

Lemma key_clamp klen :
  (let klen := if klen <? 0 then 0 else klen in if 64 <? klen then 64 else klen) = key_len klen.
Proof.
  unfold key_len. destruct (Z.ltb_spec klen 0); cbv zeta;
    [destruct (Z.ltb_spec 64 0)|destruct (Z.ltb_spec 64 klen)]; lia.
Qed.

Lemma hmac_spec out key klen input inlen :
  bytes key -> bytes (take (Z.to_nat inlen) input) -> key_len klen <= zlen key ->
  0 <= inlen <= zlen input -> inlen < 2 ^ 31 -> (4 * nH <= length out)%nat ->
  hmac out key klen input inlen =
    Some (md_hmac iv compress (take (Z.to_nat (key_len klen)) key) (take (Z.to_nat inlen) input) ++
      drop (4 * nH) out).
Proof.
  intros Hk Hi Hkl Hn H31 Ho. unfold hmac.
  pose proof (key_clamp klen) as Hc. cbv zeta in Hc |- *. rewrite !Hc. clear Hc.
  assert (0 <= key_len klen <= 64) as Hkr by (unfold key_len; lia).
  rewrite aread_prefix by lia. rewrite !Some_bind.
  set (k := take (Z.to_nat (key_len klen)) key).
  assert (zlen k = key_len klen) as Hkz by (unfold k; rewrite length_take; lia).
  assert (bytes k) as Hkb by (by apply Forall_take).
  destruct (key_block (junk 64) k) as (p1 & Hp1 & Hp1'); [apply junk_length|lia|].
  destruct (key_block (xor_key k 0x36) k) as (p2 & Hp2 & Hp2'); [apply length_xor_key; lia|lia|].
  rewrite <- Hkz, Hp1, Some_bind, Hp1', Some_bind.
  change (hmac_xor (hmac_key k) 0x36) with (xor_key k 0x36).
  pose proof (nH_pos (CoreSpec := HC)) as Hpos.
  destruct (keyed_spec (xor_key k 0x36) input inlen (u64 (s64 (inlen + 64))) (junk (Z.to_nat HS)))
    with (sh := Sha (junk nH) (junk nW)) as (sh1 & sh2 & sh3 & -> & H2 & H3 & Hw3 & Hf).
  { apply length_xor_key. lia. } { by apply bytes_xor_key. } { done. } { done. }
  { rewrite s64_small by lia. rewrite uwrap_small by lia. lia. }
  { rewrite junk_length. unfold HS. lia. } { apply wf_junk. }
  rewrite Some_bind, H2, Some_bind. unfold hash_rest. rewrite H3, Some_bind, Hf, Some_bind.
  rewrite drop_ge, app_nil_r by (rewrite junk_length; unfold HS; lia).
  set (inner := md_hash iv compress _).
  assert (zlen inner = HS) as Hil by (unfold HS, inner; rewrite length_md_hash; lia).
  rewrite Some_bind, Hp2, Some_bind, Hp2', Some_bind.
  change (hmac_xor (hmac_key k) 0x5C) with (xor_key k 0x5C).
  destruct (keyed_spec (xor_key k 0x5C) inner HS (64 + HS) out)
    with (sh := sh3) as (sh4 & sh5 & sh6 & -> & H5 & H6 & Hw6 & Hf6).
  { apply length_xor_key. lia. } { by apply bytes_xor_key. } { apply Forall_take, bytes_be_words. }
  { unfold HS in *. lia. } { done. } { done. } { done. }
  rewrite Some_bind, H5, Some_bind.
  rewrite block_loop_short, Some_bind, s32_small in H6 by (unfold HS in *; lia).
  rewrite H6, Some_bind, Hf6. unfold md_hmac. do 4 f_equal.
  rewrite take_ge by lia. done.
Qed.

(** ** PBKDF2 *)

Lemma be_bytes_4 i :
  be_bytes 4 i = [Z.land (Z.shiftr i 24) 255; Z.land (Z.shiftr i 16) 255;
                  Z.land (Z.shiftr i 8) 255; Z.land i 255].
Proof.
  rewrite !land_byte, !Z.shiftr_div_pow2 by lia. unfold be_bytes. cbn [le_bytes].
  change (2 ^ 24) with (256 * 256 * 256). change (2 ^ 16) with (256 * 256).
  change (2 ^ 8) with 256. rewrite <- !Z.div_div by lia. done.
Qed.

Lemma zput_snoc (s : list Z) x t y i :
  i = zlen s -> zput (s ++ x :: t) i y = Some ((s ++ [y]) ++ t).
Proof. intros ->. rewrite zput_mid by done. by rewrite <- app_assoc. Qed.

Section pbkdf2.
Context (P S : list Z) (Pn Sn : Z).
Context (HP : bytes P) (HS' : bytes S) (HPn : key_len Pn <= zlen P) (HSn : 0 <= Sn <= zlen S)
  (HSn31 : Sn + 4 < 2 ^ 31).
Let key : list Z := take (Z.to_nat (key_len Pn)) P.
Let salt : list Z := take (Z.to_nat Sn) S.

Lemma F1_spec U i :
  length U = (4 * nH)%nat -> F1 U P Pn S Sn i = Some (pbkdf2_U iv compress key salt i 0).
Proof.
  intros HU. unfold F1. rewrite aread_prefix by lia. rewrite Some_bind. fold salt.
  assert (zlen salt = Sn) as Hs by (unfold salt; rewrite length_take; lia).
  rewrite awrite_Some by (rewrite ?junk_length; lia). rewrite Some_bind.
  set (r := drop _ _). assert (length r = 4%nat) as Hr.
  { unfold r. rewrite length_drop, junk_length. lia. }
  destruct r as [|a [|b [|c [|d [|]]]]]; try done. rewrite take_0. simpl app.
  rewrite zput_snoc by lia. rewrite Some_bind.
  rewrite zput_snoc by (rewrite length_app; simpl; lia). rewrite Some_bind.
  rewrite zput_snoc by (rewrite !length_app; simpl; lia). rewrite Some_bind.
  rewrite zput_snoc by (rewrite !length_app; simpl; lia). rewrite Some_bind.
  rewrite app_nil_r, <- !app_assoc. simpl app. rewrite <- be_bytes_4.
  rewrite hmac_spec; [|done| |done| |lia|lia].
  - rewrite drop_ge, app_nil_r by lia. cbn [pbkdf2_U]. do 2 f_equal. apply take_ge.
    rewrite length_app, length_be_bytes. lia.
  - apply Forall_take, Forall_app. split; [by apply Forall_take|apply bytes_be_bytes].
  - rewrite length_app, length_be_bytes. lia.
Qed.

Lemma length_pbkdf2_U i j : length (pbkdf2_U iv compress key salt i j) = (4 * nH)%nat.
Proof. destruct j; apply length_md_hash. Qed.

Lemma Fc_spec i j :
  Fc (pbkdf2_U iv compress key salt i j) P Pn =
    Some (pbkdf2_U iv compress key salt i (Datatypes.S j)).
Proof.
  unfold Fc. pose proof (length_pbkdf2_U i j) as Hl.
  pose proof (nH_pos (CoreSpec := HC)) as Hpos.
  rewrite hmac_spec; [|done| |done| | |lia].
  - rewrite drop_ge, app_nil_r by lia. cbn [pbkdf2_U]. do 2 f_equal. apply take_ge. unfold HS. lia.
  - apply Forall_take; destruct j; apply bytes_be_words.
  - unfold HS. lia.
  - unfold HS. lia.
Qed.

Lemma xorbuf_spec n a b T U :
  length a = length b -> length T = n -> (n <= length U)%nat ->
  xorbuf n (zlen a) (a ++ T) (b ++ U) = Some (a ++ zip_with Z.lxor T U).
Proof.
  revert a b T U. induction n as [|n IH]; intros a b T U Hab HT HU.
  { destruct T; [done|done]. }
  destruct T as [|t T]; [done|]. destruct U as [|u U]; [simpl in HU; lia|].
  cbn [xorbuf]. rewrite (zget_app_r a) by lia. rewrite Z.sub_diag, zget_cons_0, Some_bind.
  rewrite Hab, (zget_app_r b) by lia. rewrite Z.sub_diag, zget_cons_0, Some_bind.
  rewrite zput_snoc by lia. rewrite Some_bind.
  replace (b ++ u :: U) with ((b ++ [u]) ++ U) by (by rewrite <- app_assoc).
  rewrite <- Hab.
  replace (zlen a + 1) with (zlen (a ++ [Z.lxor t u])) by (rewrite length_app; simpl; lia).
  rewrite IH; [by rewrite <- app_assoc|rewrite !length_app; simpl; lia|simpl in *; lia..].
Qed.

Lemma F_loop_spec n i j T :
  length T = (4 * nH)%nat ->
  F_loop n T (pbkdf2_U iv compress key salt i j) P Pn =
    Some (foldl (zip_with Z.lxor) T (pbkdf2_U iv compress key salt i <$> seq (Datatypes.S j) n)).
Proof.
  revert j T. induction n as [|n IH]; intros j T HT; [done|]. cbn [F_loop].
  rewrite Fc_spec, Some_bind. pose proof (length_pbkdf2_U i (Datatypes.S j)) as HU.
  pose proof (xorbuf_spec (Z.to_nat HS) [] [] T (pbkdf2_U iv compress key salt i (Datatypes.S j))
    eq_refl) as Hx. cbn [app length] in Hx. change (Z.of_nat 0) with 0 in Hx. rewrite Hx by (unfold HS; lia).
  rewrite Some_bind, IH; [done|]. rewrite length_zip_with. lia.
Qed.

Lemma length_pbkdf2_T c i : length (pbkdf2_T iv compress key salt c i) = (4 * nH)%nat.
Proof.
  unfold pbkdf2_T. pose proof (length_pbkdf2_U i 0) as H0. revert H0.
  generalize (pbkdf2_U iv compress key salt i 0).
  induction (seq 1 (c - 1)) as [|j l IH]; intros T HT; [done|]. simpl. apply IH.
  rewrite length_zip_with, (length_pbkdf2_U i j). lia.
Qed.

Lemma F_spec T c i :
  length T = (4 * nH)%nat -> 1 <= c ->
  F T P Pn S Sn c i = Some (pbkdf2_T iv compress key salt (Z.to_nat c) i).
Proof.
  intros HT Hc. unfold F. rewrite F1_spec by (rewrite junk_length; unfold HS; lia).
  rewrite Some_bind. pose proof (length_pbkdf2_U i 0) as HU.
  rewrite aread_all by (unfold HS; lia). rewrite Some_bind, awrite_all, Some_bind by lia.
  rewrite F_loop_spec by done. unfold pbkdf2_T. do 5 f_equal. lia.
Qed.

(** The blocks 1 to [n]. *)
Definition blocks (c : Z) (n : nat) : list Z :=
  concat ((fun i => pbkdf2_T iv compress key salt (Z.to_nat c) (Z.of_nat i)) <$> seq 1 n).

Lemma blocks_snoc c n :
  blocks c (Datatypes.S n) =
    blocks c n ++ pbkdf2_T iv compress key salt (Z.to_nat c) (Z.of_nat n + 1).
Proof.
  unfold blocks. rewrite seq_S, fmap_app, concat_app. f_equal. simpl. rewrite app_nil_r.
  f_equal. lia.
Qed.

Lemma length_blocks c n : length (blocks c n) = (4 * nH * n)%nat.
Proof.
  induction n as [|n IH]; [by rewrite Nat.mul_0_r|].
  rewrite blocks_snoc, length_app, IH, length_pbkdf2_T. lia.
Qed.

Lemma pbkdf2_loop_spec fuel n rest len c :
  1 <= c -> HS * Z.of_nat n <= len -> len <= zlen (blocks c n) + zlen rest ->
  len + HS < 2 ^ 31 -> len < Z.of_nat fuel + Z.of_nat n + 1 ->
  exists k, pbkdf2_loop fuel (Z.of_nat n + 1) (blocks c n ++ rest) len P Pn S Sn c =
      Some (blocks c k ++ drop (4 * nH * (k - n)) rest, Z.of_nat k + 1) /\
    (n <= k)%nat /\ HS * Z.of_nat k <= len < HS * (Z.of_nat k + 1).
Proof.
  pose proof (nH_pos (CoreSpec := HC)) as Hpos.
  revert n rest. induction fuel as [|fuel IH]; intros n rest Hc Hn Hlen H31 Hf.
  all: assert (HS * (Z.of_nat n + 1) = HS * Z.of_nat n + HS) as Hsucc by lia;
    assert (0 < HS) as HHS by (unfold HS; lia);
    assert (Z.of_nat n <= HS * Z.of_nat n) as Hge
      by (rewrite <- (Z.mul_1_l (Z.of_nat n)) at 1; apply Z.mul_le_mono_nonneg_r; lia);
    cbn [pbkdf2_loop]; rewrite s32_small by lia;
    destruct (Z.leb_spec (HS * (Z.of_nat n + 1)) len).
  1: lia.
  1,3: exists n; rewrite Nat.sub_diag, Nat.mul_0_r, drop_0; split; [done|lia].
  replace (Z.of_nat n + 1 - 1) with (Z.of_nat n) by lia.
  pose proof (length_blocks c n) as Hb.
  assert (HS * Z.of_nat n = zlen (blocks c n)) as Ho by (unfold HS; lia). rewrite Ho.
  assert (4 * nH <= length rest)%nat as Hr by (unfold HS in *; lia).
  assert (aread (blocks c n ++ rest) (zlen (blocks c n)) HS = Some (take (4 * nH) rest)) as ->.
  { rewrite aread_Some by (rewrite ?length_app; unfold HS; lia).
    rewrite Nat2Z.id, drop_app_length. do 2 f_equal. unfold HS. lia. }
  rewrite Some_bind, F_spec by (rewrite ?length_take; lia). rewrite Some_bind.
  replace (blocks c n ++ rest)
    with (blocks c n ++ take (4 * nH) rest ++ drop (4 * nH) rest) by (by rewrite take_drop).
  rewrite awrite_parts by (rewrite ?length_pbkdf2_T, ?length_take; lia).
  rewrite Some_bind, app_assoc, <- blocks_snoc.
  replace (Z.of_nat n + 1 + 1) with (Z.of_nat (Datatypes.S n) + 1) by lia.
  destruct (IH (Datatypes.S n) (drop (4 * nH) rest)) as (k & -> & Hk & Hkl);
    [done|unfold HS in *; lia|rewrite length_blocks, length_drop; lia|done|lia|].
  exists k. split; [|lia]. rewrite drop_drop. do 4 f_equal.
  replace (k - n)%nat with (Datatypes.S (k - Datatypes.S n)) by lia. lia.
Qed.

Lemma pbkdf2_spec psk len c :
  1 <= c -> 0 <= len <= zlen psk -> len + HS < 2 ^ 31 ->
  pbkdf2 psk len P Pn S Sn c =
    Some (pbkdf2_key iv compress key salt (Z.to_nat c) (4 * nH) (Z.to_nat len) ++
      drop (Z.to_nat len) psk).
Proof.
  intros Hc Hlen H31. pose proof (nH_pos (CoreSpec := HC)) as Hpos. unfold pbkdf2.
  destruct (pbkdf2_loop_spec (Z.to_nat len) 0 psk len c) as (k & Hl & _ & Hk);
    [done|lia|simpl; lia|done|lia|].
  change (blocks c 0 ++ psk) with psk in Hl. change (Z.of_nat 0 + 1) with 1 in Hl.
  rewrite Hl, Some_bind, Nat.sub_0_r. replace (Z.of_nat k + 1 - 1) with (Z.of_nat k) by lia.
  pose proof (length_blocks c k) as Hb.
  assert (HS * Z.of_nat k = zlen (blocks c k)) as Ho by (unfold HS; lia). rewrite Ho in *.
  assert (Z.to_nat len / (4 * nH) = k)%nat as Hq.
  { symmetry. apply (Nat.div_unique _ _ _ (Z.to_nat len - length (blocks c k))); unfold HS in *; lia. }
  assert (pbkdf2_key iv compress key salt (Z.to_nat c) (4 * nH) (Z.to_nat len) =
    take (Z.to_nat len) (blocks c (Datatypes.S k))) as ->.
  { unfold pbkdf2_key, blocks. by rewrite Hq, Nat.add_1_r. }
  rewrite blocks_snoc. destruct (Z.ltb_spec (zlen (blocks c k)) len).
  - rewrite F_spec by (rewrite ?junk_length; unfold HS; lia). rewrite Some_bind.
    set (T := pbkdf2_T _ _ _ _ _ _).
    assert (length T = (4 * nH)%nat) as HT by apply length_pbkdf2_T.
    rewrite aread_prefix by (unfold HS in *; lia). rewrite Some_bind.
    set (j := Z.to_nat (len - zlen (blocks c k))).
    rewrite take_app_ge by lia. replace (Z.to_nat len - length (blocks c k))%nat with j by lia.
    rewrite <- (take_drop j (drop (4 * nH * k) psk)).
    rewrite awrite_parts; [|lia|rewrite !length_take, length_drop; unfold HS in *; lia].
    rewrite <- app_assoc, drop_drop. do 4 f_equal. lia.
  - rewrite take_app_le, take_ge by lia. do 3 f_equal. lia.
Qed.
End pbkdf2.
End md.

(** ** Theorems *)

Definition sha1_fips := md_hash sha1_iv sha1_compress.
Definition sha256_fips := md_hash sha256_iv sha256_compress.
Definition hmac_sha1_rfc := md_hmac sha1_iv sha1_compress.
Definition hmac_sha256_rfc := md_hmac sha256_iv sha256_compress.
Definition pbkdf2_sha1_rfc (P S : list Z) (c len : nat) :=
  pbkdf2_key sha1_iv sha1_compress P S c 20 len.
Definition pbkdf2_sha256_rfc (P S : list Z) (c len : nat) :=
  pbkdf2_key sha256_iv sha256_compress P S c 32 len.

Section theorems.
Context `{!Locals}.

(** C16. [sha1] is SHA-1 of FIPS 180-4: for any input of any length, the 20
    bytes at [out] become the digest of the first [inlen] bytes and nothing
    else of [out] changes, whatever the uninitialised locals held. *)
Theorem sha1_correct out input inlen :
  bytes input -> 0 <= inlen <= zlen input -> inlen < 2 ^ 63 -> (20 <= length out)%nat ->
  sha1 out input inlen = Some (sha1_fips (take (Z.to_nat inlen) input) ++ drop 20 out).
Proof. intros. apply (digest_spec (HC := sha1_core_spec)); try done. by apply Forall_take. Qed.


(** C17. [hmac_sha1] and [hmac_sha256] are the HMAC of RFC 2104 of the first
    [klen] bytes of the key, cut at 64 bytes; a negative length counts as 0. *)
Theorem hmac_correct out key klen input inlen :
  bytes key -> bytes input -> Z.min 64 (Z.max 0 klen) <= zlen key ->
  0 <= inlen <= zlen input -> inlen < 2 ^ 31 ->
  let k := take (Z.to_nat (Z.min 64 (Z.max 0 klen))) key in
  let msg := take (Z.to_nat inlen) input in
  ((20 <= length out)%nat ->
   hmac_sha1 out key klen input inlen = Some (hmac_sha1_rfc k msg ++ drop 20 out)) /\
  ((32 <= length out)%nat ->
   hmac_sha256 out key klen input inlen = Some (hmac_sha256_rfc k msg ++ drop 32 out)).
Proof.
  intros. split; intros; [apply (hmac_spec (HC := sha1_core_spec))|
    apply (hmac_spec (HC := sha256_core_spec))]; try done; by apply Forall_take.
Qed.

(** C18. [pbkdf2_sha1] and [pbkdf2_sha256] are PBKDF2 of RFC 2898 for passwords
    of up to 64 bytes (longer ones are cut there), any salt, any number of
    iterations and any key length. *)
Theorem pbkdf2_correct psk len pass passlen salt saltlen iters :
  bytes pass -> bytes salt -> Z.min 64 (Z.max 0 passlen) <= zlen pass ->
  0 <= saltlen <= zlen salt -> saltlen + 4 < 2 ^ 31 -> 1 <= iters ->
  0 <= len <= zlen psk -> len + 32 < 2 ^ 31 ->
  let P := take (Z.to_nat (Z.min 64 (Z.max 0 passlen))) pass in
  let S := take (Z.to_nat saltlen) salt in
  pbkdf2_sha1 psk len pass passlen salt saltlen iters =
    Some (pbkdf2_sha1_rfc P S (Z.to_nat iters) (Z.to_nat len) ++ drop (Z.to_nat len) psk) /\
  pbkdf2_sha256 psk len pass passlen salt saltlen iters =
    Some (pbkdf2_sha256_rfc P S (Z.to_nat iters) (Z.to_nat len) ++ drop (Z.to_nat len) psk).
Proof.
  intros. split; [apply (pbkdf2_spec (HC := sha1_core_spec))|
    apply (pbkdf2_spec (HC := sha256_core_spec))]; try done; unfold HS; simpl; lia.
Qed.

End theorems.

Definition abc : list Z := [97; 98; 99].

(** The digests of [abc]: the test vectors of FIPS 180-4. *)
Definition sha1_abc : list Z :=
  [169; 153; 62; 54; 71; 6; 129; 106; 186; 62; 37; 113; 120; 80; 194; 108; 156; 208; 216; 157].
Definition sha256_abc : list Z :=
  [186; 120; 22; 191; 143; 1; 207; 234; 65; 65; 64; 222; 93; 174; 34; 35; 176; 3; 97; 163;
   150; 23; 122; 156; 180; 16; 255; 97; 242; 0; 21; 173].

Lemma sha1_correct_witness :
  sha1 (H := some_locals) (repeat 9 22) (abc ++ [100]) 3 = Some (sha1_abc ++ [9; 9]).
Proof.
  rewrite (sha1_correct (repeat 9 22) (abc ++ [100]) 3);
    [by vm_compute|by repeat constructor|simpl; lia|lia|simpl; lia].
Defined.


(** RFC 2202, test case 2: key [Jefe]. *)
Lemma hmac_correct_witness :
  let key := [74; 101; 102; 101] in
  let msg := [119; 104; 97; 116; 32; 100; 111; 32; 121; 97; 32; 119; 97; 110; 116; 32;
              102; 111; 114; 32; 110; 111; 116; 104; 105; 110; 103; 63] in
  hmac_sha1 (H := some_locals) (repeat 0 20) key 4 msg 28 =
    Some [239; 252; 223; 106; 229; 235; 47; 162; 210; 116; 22; 213; 241; 132; 223; 156; 37; 154; 124; 121].
Proof.
  intros key msg.
  destruct (hmac_correct (H := some_locals) (repeat 0 20) key 4 msg 28) as [H _];
    [by repeat constructor|by repeat constructor|simpl; lia|simpl; lia|lia|].
  rewrite H by (simpl; lia). by vm_compute.
Defined.

(** RFC 6070, test case 2: [password], [salt], two iterations. *)
Lemma pbkdf2_correct_witness :
  let pass := [112; 97; 115; 115; 119; 111; 114; 100] in
  let salt := [115; 97; 108; 116] in
  pbkdf2_sha1 (H := some_locals) (repeat 0 20) 20 pass 8 salt 4 2 =
    Some [234; 108; 1; 77; 199; 45; 111; 140; 205; 30; 217; 42; 206; 29; 65; 240; 216; 222; 137; 87].
Proof.
  intros pass salt.
  destruct (pbkdf2_correct (H := some_locals) (repeat 0 20) 20 pass 8 salt 4 2) as [H _];
    [by repeat constructor|by repeat constructor|simpl; lia|simpl; lia|lia|lia|simpl; lia|lia|].
  rewrite H. by vm_compute.
Defined.
