(* ===== verification/Aes.v ===== *)
(** * lib/crypto: AES-128 and the AES key wrap

    The state and the key schedule are arrays of 32-bit words, as in the code;
    table and array accesses check their bounds. *)
From S2P Require Import Prelude Arr Sha.

Module Aes.

(** [lib/crypto/aes128.h: aes128] *)
Record aes128 := Aes128 { ae_W : list Z; ae_S : list Z }.

(** [lib/crypto/aes128.c: Nk] *)
Definition Nk : Z := 4.
(** [lib/crypto/aes128.c: Nb] *)
Definition Nb : Z := 4.
(** [lib/crypto/aes128.c: Nr] *)
Definition Nr : Z := 10.

(** [lib/crypto/aes128.c: sbox] *)
Definition sbox : list Z := [
  0x63; 0x7c; 0x77; 0x7b; 0xf2; 0x6b; 0x6f; 0xc5; 0x30; 0x01; 0x67; 0x2b; 0xfe; 0xd7; 0xab; 0x76;
  0xca; 0x82; 0xc9; 0x7d; 0xfa; 0x59; 0x47; 0xf0; 0xad; 0xd4; 0xa2; 0xaf; 0x9c; 0xa4; 0x72; 0xc0;
  0xb7; 0xfd; 0x93; 0x26; 0x36; 0x3f; 0xf7; 0xcc; 0x34; 0xa5; 0xe5; 0xf1; 0x71; 0xd8; 0x31; 0x15;
  0x04; 0xc7; 0x23; 0xc3; 0x18; 0x96; 0x05; 0x9a; 0x07; 0x12; 0x80; 0xe2; 0xeb; 0x27; 0xb2; 0x75;
  0x09; 0x83; 0x2c; 0x1a; 0x1b; 0x6e; 0x5a; 0xa0; 0x52; 0x3b; 0xd6; 0xb3; 0x29; 0xe3; 0x2f; 0x84;
  0x53; 0xd1; 0x00; 0xed; 0x20; 0xfc; 0xb1; 0x5b; 0x6a; 0xcb; 0xbe; 0x39; 0x4a; 0x4c; 0x58; 0xcf;
  0xd0; 0xef; 0xaa; 0xfb; 0x43; 0x4d; 0x33; 0x85; 0x45; 0xf9; 0x02; 0x7f; 0x50; 0x3c; 0x9f; 0xa8;
  0x51; 0xa3; 0x40; 0x8f; 0x92; 0x9d; 0x38; 0xf5; 0xbc; 0xb6; 0xda; 0x21; 0x10; 0xff; 0xf3; 0xd2;
  0xcd; 0x0c; 0x13; 0xec; 0x5f; 0x97; 0x44; 0x17; 0xc4; 0xa7; 0x7e; 0x3d; 0x64; 0x5d; 0x19; 0x73;
  0x60; 0x81; 0x4f; 0xdc; 0x22; 0x2a; 0x90; 0x88; 0x46; 0xee; 0xb8; 0x14; 0xde; 0x5e; 0x0b; 0xdb;
  0xe0; 0x32; 0x3a; 0x0a; 0x49; 0x06; 0x24; 0x5c; 0xc2; 0xd3; 0xac; 0x62; 0x91; 0x95; 0xe4; 0x79;
  0xe7; 0xc8; 0x37; 0x6d; 0x8d; 0xd5; 0x4e; 0xa9; 0x6c; 0x56; 0xf4; 0xea; 0x65; 0x7a; 0xae; 0x08;
  0xba; 0x78; 0x25; 0x2e; 0x1c; 0xa6; 0xb4; 0xc6; 0xe8; 0xdd; 0x74; 0x1f; 0x4b; 0xbd; 0x8b; 0x8a;
  0x70; 0x3e; 0xb5; 0x66; 0x48; 0x03; 0xf6; 0x0e; 0x61; 0x35; 0x57; 0xb9; 0x86; 0xc1; 0x1d; 0x9e;
  0xe1; 0xf8; 0x98; 0x11; 0x69; 0xd9; 0x8e; 0x94; 0x9b; 0x1e; 0x87; 0xe9; 0xce; 0x55; 0x28; 0xdf;
  0x8c; 0xa1; 0x89; 0x0d; 0xbf; 0xe6; 0x42; 0x68; 0x41; 0x99; 0x2d; 0x0f; 0xb0; 0x54; 0xbb; 0x16].

(** [lib/crypto/aes128.c: rbox] *)
Definition rbox : list Z := [
  0x52; 0x09; 0x6a; 0xd5; 0x30; 0x36; 0xa5; 0x38; 0xbf; 0x40; 0xa3; 0x9e; 0x81; 0xf3; 0xd7; 0xfb;
  0x7c; 0xe3; 0x39; 0x82; 0x9b; 0x2f; 0xff; 0x87; 0x34; 0x8e; 0x43; 0x44; 0xc4; 0xde; 0xe9; 0xcb;
  0x54; 0x7b; 0x94; 0x32; 0xa6; 0xc2; 0x23; 0x3d; 0xee; 0x4c; 0x95; 0x0b; 0x42; 0xfa; 0xc3; 0x4e;
  0x08; 0x2e; 0xa1; 0x66; 0x28; 0xd9; 0x24; 0xb2; 0x76; 0x5b; 0xa2; 0x49; 0x6d; 0x8b; 0xd1; 0x25;
  0x72; 0xf8; 0xf6; 0x64; 0x86; 0x68; 0x98; 0x16; 0xd4; 0xa4; 0x5c; 0xcc; 0x5d; 0x65; 0xb6; 0x92;
  0x6c; 0x70; 0x48; 0x50; 0xfd; 0xed; 0xb9; 0xda; 0x5e; 0x15; 0x46; 0x57; 0xa7; 0x8d; 0x9d; 0x84;
  0x90; 0xd8; 0xab; 0x00; 0x8c; 0xbc; 0xd3; 0x0a; 0xf7; 0xe4; 0x58; 0x05; 0xb8; 0xb3; 0x45; 0x06;
  0xd0; 0x2c; 0x1e; 0x8f; 0xca; 0x3f; 0x0f; 0x02; 0xc1; 0xaf; 0xbd; 0x03; 0x01; 0x13; 0x8a; 0x6b;
  0x3a; 0x91; 0x11; 0x41; 0x4f; 0x67; 0xdc; 0xea; 0x97; 0xf2; 0xcf; 0xce; 0xf0; 0xb4; 0xe6; 0x73;
  0x96; 0xac; 0x74; 0x22; 0xe7; 0xad; 0x35; 0x85; 0xe2; 0xf9; 0x37; 0xe8; 0x1c; 0x75; 0xdf; 0x6e;
  0x47; 0xf1; 0x1a; 0x71; 0x1d; 0x29; 0xc5; 0x89; 0x6f; 0xb7; 0x62; 0x0e; 0xaa; 0x18; 0xbe; 0x1b;
  0xfc; 0x56; 0x3e; 0x4b; 0xc6; 0xd2; 0x79; 0x20; 0x9a; 0xdb; 0xc0; 0xfe; 0x78; 0xcd; 0x5a; 0xf4;
  0x1f; 0xdd; 0xa8; 0x33; 0x88; 0x07; 0xc7; 0x31; 0xb1; 0x12; 0x10; 0x59; 0x27; 0x80; 0xec; 0x5f;
  0x60; 0x51; 0x7f; 0xa9; 0x19; 0xb5; 0x4a; 0x0d; 0x2d; 0xe5; 0x7a; 0x9f; 0x93; 0xc9; 0x9c; 0xef;
  0xa0; 0xe0; 0x3b; 0x4d; 0xae; 0x2a; 0xf5; 0xb0; 0xc8; 0xeb; 0xbb; 0x3c; 0x83; 0x53; 0x99; 0x61;
  0x17; 0x2b; 0x04; 0x7e; 0xba; 0x77; 0xd6; 0x26; 0xe1; 0x69; 0x14; 0x63; 0x55; 0x21; 0x0c; 0x7d].

(** [lib/crypto/aes128.c: rcon] *)
Definition rcon : list Z :=
  [0x8d; 0x01; 0x02; 0x04; 0x08; 0x10; 0x20; 0x40; 0x80; 0x1b; 0x36].

(** [lib/crypto/aes128.c: B0] *)
Definition B0 (w : Z) : Z := Z.shiftr w 24.
(** [lib/crypto/aes128.c: B1] *)
Definition B1 (w : Z) : Z := Z.land (Z.shiftr w 16) 255.
(** [lib/crypto/aes128.c: B2] *)
Definition B2 (w : Z) : Z := Z.land (Z.shiftr w 8) 255.
(** [lib/crypto/aes128.c: B3] *)
Definition B3 (w : Z) : Z := Z.land w 255.

(** [lib/crypto/aes128.c: W] as a [uint32_t] *)
Definition W (a b c d : Z) : Z :=
  u32 (Z.lor (Z.lor (Z.lor (Z.shiftl a 24) (Z.shiftl b 16)) (Z.shiftl c 8)) d).

(** [lib/crypto/aes128.c: rotword] *)
Definition rotword (x : Z) : Z := Z.lor (u32 (Z.shiftl x 8)) (Z.land (Z.shiftr x 24) 255).

(** [lib/crypto/aes128.c: subword] *)
Definition subword (x : Z) (box : list Z) : option Z :=
  b0 ← zget box (B0 x); b1 ← zget box (B1 x);
  b2 ← zget box (B2 x); b3 ← zget box (B3 x);
  Some (W b0 b1 b2 b3).

(** [lib/crypto/aes128.c: xtime] *)
Definition xtime (x : Z) : Z :=
  Z.land (Z.lxor (Z.shiftl x 1) (Z.land (Z.shiftr x 7) 1 * 0x1b)) 255.

(** [lib/crypto/aes128.c: xmul 86-90] *)
Fixpoint xmul_loop (n : nat) (m x y : Z) : Z :=
  match n with
  | O => m
  | S n =>
      let m := if Z.land y 1 =? 0 then m else Z.lxor m x in
      xmul_loop n m (xtime x) (Z.shiftr y 1)
  end.

(** [lib/crypto/aes128.c: xmul] *)
Definition xmul (x y : Z) : Z := Z.land (xmul_loop 5 0 x y) 255.

(** [lib/crypto/aes128.c: add_round_key 97-98] *)
Fixpoint ark_loop (n : nat) (c : Z) (S W : list Z) (r : Z) : option (list Z) :=
  match n with
  | O => Some S
  | Datatypes.S n =>
      s ← zget S c; w ← zget W (r * Nb + c);
      S ← zput S c (Z.lxor s w);
      ark_loop n (c + 1) S W r
  end.

(** [lib/crypto/aes128.c: add_round_key] *)
Definition add_round_key (S W : list Z) (r : Z) : option (list Z) :=
  ark_loop (Z.to_nat Nb) 0 S W r.

(** [lib/crypto/aes128.c: rowshift] *)
Definition rowshift (S : list Z) (a b c d : Z) : option Z :=
  sa ← zget S a; sb ← zget S b; sc ← zget S c; sd ← zget S d;
  Some (W (B0 sa) (B1 sb) (B2 sc) (B3 sd)).

Definition set4 (S : list Z) (p0 p1 p2 p3 : Z) : option (list Z) :=
  S ← zput S 0 p0; S ← zput S 1 p1; S ← zput S 2 p2; zput S 3 p3.

(** [lib/crypto/aes128.c: inv_shift_rows] *)
Definition inv_shift_rows (S : list Z) : option (list Z) :=
  p0 ← rowshift S 0 3 2 1;
  p1 ← rowshift S 1 0 3 2;
  p2 ← rowshift S 2 1 0 3;
  p3 ← rowshift S 3 2 1 0;
  set4 S p0 p1 p2 p3.

(** [lib/crypto/aes128.c: fwd_shift_rows] *)
Definition fwd_shift_rows (S : list Z) : option (list Z) :=
  p0 ← rowshift S 0 1 2 3;
  p1 ← rowshift S 1 2 3 0;
  p2 ← rowshift S 2 3 0 1;
  p3 ← rowshift S 3 0 1 2;
  set4 S p0 p1 p2 p3.

(** [lib/crypto/aes128.c: colmul] *)
Definition colmul (Si a b c d : Z) : Z :=
  Z.lxor (Z.lxor (Z.lxor (xmul (B0 Si) a) (xmul (B1 Si) b)) (xmul (B2 Si) c)) (xmul (B3 Si) d).

(** A loop over the four words of the state. *)
Fixpoint each_word (f : Z -> option Z) (n : nat) (i : Z) (S : list Z) : option (list Z) :=
  match n with
  | O => Some S
  | Datatypes.S n => s ← zget S i; t ← f s; S ← zput S i t; each_word f n (i + 1) S
  end.

(** [lib/crypto/aes128.c: inv_sub_bytes] *)
Definition inv_sub_bytes (S : list Z) : option (list Z) :=
  each_word (fun s => subword s rbox) 4 0 S.

(** [lib/crypto/aes128.c: fwd_sub_bytes] *)
Definition fwd_sub_bytes (S : list Z) : option (list Z) :=
  each_word (fun s => subword s sbox) 4 0 S.

(** [lib/crypto/aes128.c: inv_mix_columns] *)
Definition inv_mix_columns (S : list Z) : option (list Z) :=
  each_word (fun Si => Some (W (colmul Si 0x0E 0x0B 0x0D 0x09)
                               (colmul Si 0x09 0x0E 0x0B 0x0D)
                               (colmul Si 0x0D 0x09 0x0E 0x0B)
                               (colmul Si 0x0B 0x0D 0x09 0x0E))) 4 0 S.

(** [lib/crypto/aes128.c: fwd_mix_columns] *)
Definition fwd_mix_columns (S : list Z) : option (list Z) :=
  each_word (fun Si => Some (W (colmul Si 0x02 0x03 0x01 0x01)
                               (colmul Si 0x01 0x02 0x03 0x01)
                               (colmul Si 0x01 0x01 0x02 0x03)
                               (colmul Si 0x03 0x01 0x01 0x02))) 4 0 S.

(** [lib/crypto/aes128.c: load_word] [off] is where [in] points *)
Definition load_word (B : list Z) (i : Z) (inp : list Z) (off : Z) : option (list Z) :=
  b0 ← zget inp (off + 0); b1 ← zget inp (off + 1);
  b2 ← zget inp (off + 2); b3 ← zget inp (off + 3);
  zput B i (W b0 b1 b2 b3).

(** [lib/crypto/aes128.c: load_block] *)
Definition load_block (B inp : list Z) : option (list Z) :=
  B ← load_word B 0 inp 0;
  B ← load_word B 1 inp 4;
  B ← load_word B 2 inp 8;
  load_word B 3 inp 12.

(** [lib/crypto/aes128.c: save_word] *)
Definition save_word (w : Z) (out : list Z) (off : Z) : option (list Z) :=
  out ← zput out (off + 0) (B0 w);
  out ← zput out (off + 1) (B1 w);
  out ← zput out (off + 2) (B2 w);
  zput out (off + 3) (B3 w).

(** [lib/crypto/aes128.c: save_block] *)
Definition save_block (B out : list Z) : option (list Z) :=
  w0 ← zget B 0; out ← save_word w0 out (0 * 4);
  w1 ← zget B 1; out ← save_word w1 out (1 * 4);
  w2 ← zget B 2; out ← save_word w2 out (2 * 4);
  w3 ← zget B 3; save_word w3 out (3 * 4).

(** [lib/crypto/aes128.c: aes128_init 214-223] *)
Fixpoint expand_loop (n : nat) (i : Z) (W : list Z) : option (list Z) :=
  match n with
  | O => Some W
  | S n =>
      temp ← zget W (i - 1);
      temp ← (if i mod Nk =? 0 then
                t ← subword (rotword temp) sbox;
                rc ← zget rcon (i / Nk);
                Some (Z.lxor t (u32 (Z.shiftl rc 24)))
              else Some temp);
      w ← zget W (i - Nk);
      W ← zput W i (Z.lxor w temp);
      expand_loop n (i + 1) W
  end.

(** [lib/crypto/aes128.c: aes128_init] *)
Definition aes128_init (ctx : aes128) (key : list Z) : option aes128 :=
  let Nw := Nb * (Nr + 1) in
  W ← load_block (ae_W ctx) key;
  W ← expand_loop (Z.to_nat (Nw - 4)) 4 W;
  Some (Aes128 W (ae_S ctx)).

(** [lib/crypto/aes128.c: aes128_decrypt 235-240] rounds [r] down to 1 *)
Fixpoint dec_rounds (r : nat) (S W : list Z) : option (list Z) :=
  match r with
  | O => Some S
  | Datatypes.S r' =>
      S ← inv_shift_rows S;
      S ← inv_sub_bytes S;
      S ← add_round_key S W (Z.of_nat r);
      S ← inv_mix_columns S;
      dec_rounds r' S W
  end.

(** [lib/crypto/aes128.c: aes128_decrypt] *)
Definition aes128_decrypt (ctx : aes128) (blk : list Z) : option (aes128 * list Z) :=
  let W := ae_W ctx in
  S ← load_block (ae_S ctx) blk;
  S ← add_round_key S W Nr;
  S ← dec_rounds (Z.to_nat (Nr - 1)) S W;
  S ← inv_shift_rows S;
  S ← inv_sub_bytes S;
  S ← add_round_key S W 0;
  blk ← save_block S blk;
  Some (Aes128 W S, blk).

(** [lib/crypto/aes128.c: aes128_encrypt 257-262] [n] rounds from [r] on *)
Fixpoint enc_rounds (n : nat) (r : Z) (S W : list Z) : option (list Z) :=
  match n with
  | O => Some S
  | Datatypes.S n =>
      S ← fwd_sub_bytes S;
      S ← fwd_shift_rows S;
      S ← fwd_mix_columns S;
      S ← add_round_key S W r;
      enc_rounds n (r + 1) S W
  end.

(** [lib/crypto/aes128.c: aes128_encrypt] *)
Definition aes128_encrypt (ctx : aes128) (blk : list Z) : option (aes128 * list Z) :=
  let W := ae_W ctx in
  S ← load_block (ae_S ctx) blk;
  S ← add_round_key S W 0;
  S ← enc_rounds (Z.to_nat (Nr - 1)) 1 S W;
  S ← fwd_sub_bytes S;
  S ← fwd_shift_rows S;
  S ← add_round_key S W Nr;
  blk ← save_block S blk;
  Some (Aes128 W S, blk).

(** [lib/crypto/aes128.c: aes128_fini] *)
Definition aes128_fini (ctx : aes128) : aes128 :=
  Aes128 (repeat 0 (length (ae_W ctx))) (repeat 0 (length (ae_S ctx))).

(** [lib/crypto/aes128_wrap.c: wrapmask] *)
Definition wrapmask (n : Z) : Z := u64 (Z.shiftl (htonl (u32 n)) 32).

Section wrap.
Context `{!Locals}.

(** [lib/crypto/aes128_wrap.c: aes128_wrap 28-38] [R] is the buffer, [R[i]] its
    bytes from [8*i] on *)
Fixpoint wrap_inner (fuel : nat) (ae : aes128) (R B : list Z) (n j i : Z)
    : option (aes128 * list Z * list Z) :=
  if i <=? n then
    match fuel with
    | O => None
    | S fuel =>
        r0 ← aread R (8 * 0) 8; B ← awrite B 0 r0;
        ri ← aread R (8 * i) 8; B ← awrite B 8 ri;
        '(ae, B) ← aes128_encrypt ae B;
        b0 ← aread B 0 8; R ← awrite R (8 * 0) b0;
        b8 ← aread B 8 8; R ← awrite R (8 * i) b8;
        v ← get64 R (8 * 0);
        R ← put64 R (8 * 0) (Z.lxor v (wrapmask (s32 (u64 (n * j + i)))));
        wrap_inner fuel ae R B n j (u32 (i + 1))
    end
  else Some (ae, R, B).

(** [lib/crypto/aes128_wrap.c: aes128_wrap 27-38] *)
Fixpoint wrap_outer (k : nat) (ae : aes128) (R B : list Z) (n j : Z)
    : option (aes128 * list Z * list Z) :=
  match k with
  | O => Some (ae, R, B)
  | S k =>
      '(ae, R, B) ← wrap_inner (Z.to_nat n) ae R B n j 1;
      wrap_outer k ae R B n (j + 1)
  end.

(** [lib/crypto/aes128_wrap.c: aes128_wrap]  The result: the local context as it
    is left on the stack, and the buffer. *)
Definition aes128_wrap (key buf : list Z) (len : Z) : option (aes128 * list Z) :=
  let n := u64 (len / 8 - 1) in
  ae ← aes128_init (Aes128 (junk 44) (junk 4)) key;
  '(ae, R, _) ← wrap_outer 6 ae buf (junk 16) n 0;
  let ae := aes128_fini ae in
  Some (ae, R).

(** [lib/crypto/aes128_unwrap.c: aes128_unwrap 28-38] *)
Fixpoint unwrap_inner (fuel : nat) (ae : aes128) (R B : list Z) (n j i : Z)
    : option (aes128 * list Z * list Z) :=
  if 1 <=? i then
    match fuel with
    | O => None
    | S fuel =>
        v ← get64 R (8 * 0);
        R ← put64 R (8 * 0) (Z.lxor v (wrapmask (s32 (u64 (n * j + i)))));
        r0 ← aread R (8 * 0) 8; B ← awrite B 0 r0;
        ri ← aread R (8 * i) 8; B ← awrite B 8 ri;
        '(ae, B) ← aes128_decrypt ae B;
        b0 ← aread B 0 8; R ← awrite R (8 * 0) b0;
        b8 ← aread B 8 8; R ← awrite R (8 * i) b8;
        unwrap_inner fuel ae R B n j (i - 1)
    end
  else Some (ae, R, B).

(** [lib/crypto/aes128_unwrap.c: aes128_unwrap 27-38] *)
Fixpoint unwrap_outer (k : nat) (ae : aes128) (R B : list Z) (n : Z)
    : option (aes128 * list Z * list Z) :=
  match k with
  | O => Some (ae, R, B)
  | S k =>
      '(ae, R, B) ← unwrap_inner (Z.to_nat n) ae R B n (Z.of_nat k) (s32 n);
      unwrap_outer k ae R B n
  end.

(** [lib/crypto/aes128_unwrap.c: aes128_unwrap] *)
Definition aes128_unwrap (key buf : list Z) (len : Z) : option (aes128 * list Z) :=
  let n := u64 (len / 8 - 1) in
  ae ← aes128_init (Aes128 (junk 44) (junk 4)) key;
  '(ae, R, _) ← unwrap_outer 6 ae buf (junk 16) n;
  let ae := aes128_fini ae in
  Some (ae, R).

End wrap.
End Aes.
