(* ===== verification/AesSpec.v ===== *)
(** * AES-128 and key wrap: FIPS 197, RFC 3394, and that the code meets them

    The standard's state is 16 bytes in column order; the code's is four words.
    [st] relates them; every operation of the code is the standard's operation
    under it.  Inversion is proved on the standard's side. *)
From Stdlib Require Import Btauto.
From S2P Require Import Prelude Arr Sha ShaSpec Md Aes.
Import Aes.

(** ** FIPS 197 *)

(** Multiplication in GF(2^8) modulo x^8 + x^4 + x^3 + x + 1. *)
Definition xt (a : Z) : Z := if a <? 128 then 2 * a else Z.lxor (2 * a) 0x11b.
Fixpoint gmul_bits (n : nat) (a b : Z) : Z :=
  match n with
  | O => 0
  | S n => Z.lxor (if Z.odd b then a else 0) (gmul_bits n (xt a) (b / 2))
  end.
Definition gmul (a b : Z) : Z := gmul_bits 8 a b.

(** The multiplicative inverse, [a ^ 254], the product of [a ^ (2 ^ i)] for
    [i] from 1 to 7; 0 maps to 0. *)
Definition ginv (a : Z) : Z :=
  snd (Nat.iter 7 (fun '(sq, acc) => let sq := gmul sq sq in (sq, gmul acc sq)) (a, 1)).

Lemma ginv_inverse a : 1 <= a < 256 -> gmul a (ginv a) = 1.
Proof. apply (range_check (fun a => gmul a (ginv a) = 1) 1 255). by vm_compute. Qed.

Definition rotl8 (n x : Z) : Z := Z.lor (u8 (Z.shiftl x n)) (Z.shiftr x (8 - n)).
Definition sub_byte (x : Z) : Z :=
  let b := ginv x in
  Z.lxor (Z.lxor (Z.lxor (Z.lxor (Z.lxor b (rotl8 1 b)) (rotl8 2 b)) (rotl8 3 b)) (rotl8 4 b)) 0x63.
Definition inv_sub_byte (y : Z) : Z := default 0 (zget rbox y).

Definition SubBytes (s : list Z) : list Z := sub_byte <$> s.
Definition InvSubBytes (s : list Z) : list Z := inv_sub_byte <$> s.

(** Byte [r + 4 * c] of the state is row [r], column [c]. *)
Definition ShiftRows (s : list Z) : list Z :=
  (fun k => nth ((k + 4 * (k mod 4)) mod 16)%nat s 0) <$> seq 0 16.
Definition InvShiftRows (s : list Z) : list Z :=
  (fun k => nth ((k + 12 * (k mod 4)) mod 16)%nat s 0) <$> seq 0 16.

(** A row of a matrix by a column. *)
Definition row_by (row col : list Z) : Z := foldr Z.lxor 0 (zip_with gmul col row).
Definition circulant (m : list Z) : list (list Z) :=
  (fun i => drop (4 - i) m ++ take (4 - i) m) <$> seq 0 4.
Definition mul_column (m col : list Z) : list Z := (fun row => row_by row col) <$> circulant m.
Definition columns (s : list Z) : list (list Z) :=
  (fun c => take 4 (drop (4 * c) s)) <$> seq 0 4.
Definition MixColumns (s : list Z) : list Z := concat (mul_column [2; 3; 1; 1] <$> columns s).
Definition InvMixColumns (s : list Z) : list Z := concat (mul_column [14; 11; 13; 9] <$> columns s).

Definition AddRoundKey (k s : list Z) : list Z := zip_with Z.lxor s k.

(** The key schedule, a list of four-byte words. *)
Definition RotWord (w : list Z) : list Z := drop 1 w ++ take 1 w.
Definition SubWord (w : list Z) : list Z := sub_byte <$> w.
Definition Rcon (i : nat) : list Z := [Nat.iter (i - 1) xt 1; 0; 0; 0].
Definition next_word (ws : list (list Z)) : list Z :=
  let i := length ws in
  let temp := nth (i - 1) ws [] in
  let temp := if (i mod 4 =? 0)%nat
              then zip_with Z.lxor (SubWord (RotWord temp)) (Rcon (i / 4)) else temp in
  zip_with Z.lxor (nth (i - 4) ws []) temp.
Definition KeyExpansion (key : list Z) : list (list Z) :=
  Nat.iter 40 (fun ws => ws ++ [next_word ws]) (columns key).
Definition round_key (ks : list (list Z)) (r : nat) : list Z :=
  concat (take 4 (drop (4 * r) ks)).

Definition enc_round (ks : list (list Z)) (s : list Z) (r : nat) : list Z :=
  AddRoundKey (round_key ks r) (MixColumns (ShiftRows (SubBytes s))).
Definition dec_round (ks : list (list Z)) (s : list Z) (r : nat) : list Z :=
  InvMixColumns (AddRoundKey (round_key ks r) (InvSubBytes (InvShiftRows s))).

Definition Cipher (ks : list (list Z)) (inp : list Z) : list Z :=
  let s := AddRoundKey (round_key ks 0) inp in
  let s := foldl (enc_round ks) s (seq 1 9) in
  AddRoundKey (round_key ks 10) (ShiftRows (SubBytes s)).

Definition InvCipher (ks : list (list Z)) (inp : list Z) : list Z :=
  let s := AddRoundKey (round_key ks 10) inp in
  let s := foldl (dec_round ks) s (reverse (seq 1 9)) in
  AddRoundKey (round_key ks 0) (InvSubBytes (InvShiftRows s)).

(** ** Tables *)

(** The S-box of the code is the affine transform of the inverse, and the
    second table inverts the first. *)
Lemma sbox_spec x : 0 <= x < 256 ->
  zget sbox x = Some (sub_byte x) /\ 0 <= sub_byte x < 256.
Proof.
  apply (range_check (fun x => zget sbox x = Some (sub_byte x) /\ 0 <= sub_byte x < 256) 0 256).
  by vm_compute.
Qed.

Lemma sub_byte_range x : 0 <= x < 256 -> 0 <= sub_byte x < 256.
Proof. intros Hx. exact (proj2 (sbox_spec x Hx)). Qed.

Lemma rbox_spec x : 0 <= x < 256 ->
  zget rbox x = Some (inv_sub_byte x) /\ 0 <= inv_sub_byte x < 256.
Proof.
  apply (range_check (fun x => zget rbox x = Some (inv_sub_byte x) /\ 0 <= inv_sub_byte x < 256) 0 256).
  by vm_compute.
Qed.

Lemma sub_byte_inv x : 0 <= x < 256 ->
  inv_sub_byte (sub_byte x) = x /\ sub_byte (inv_sub_byte x) = x.
Proof.
  apply (range_check (fun x => inv_sub_byte (sub_byte x) = x /\ sub_byte (inv_sub_byte x) = x) 0 256).
  by vm_compute.
Qed.

(** ** Words and bytes *)

Definition wd (a b c d : Z) : Z := be_value [a; b; c; d].

Lemma wd_eq a b c d : wd a b c d = a * 2 ^ 24 + b * 2 ^ 16 + c * 2 ^ 8 + d.
Proof. unfold wd, be_value, reverse. cbn [rev_append le_value foldr]. lia. Qed.

Section bytes4.
Context (a b c d : Z) (Ha : 0 <= a < 256) (Hb : 0 <= b < 256) (Hc : 0 <= c < 256)
  (Hd : 0 <= d < 256).

Lemma wd_lor :
  Z.lor (Z.lor (Z.lor (Z.shiftl a 24) (Z.shiftl b 16)) (Z.shiftl c 8)) d = wd a b c d.
Proof.
  rewrite wd_eq, !Z.shiftl_mul_pow2 by lia.
  rewrite (lor_disjoint (a * 2 ^ 24) _ 24), (lor_disjoint (_ + _) (c * _) 16),
    (lor_disjoint (_ + _) d 8); try lia.
  - replace (a * 2 ^ 24 + b * 2 ^ 16 + c * 2 ^ 8) with ((a * 2 ^ 16 + b * 2 ^ 8 + c) * 2 ^ 8) by lia.
    apply Z.mod_mul. lia.
  - replace (a * 2 ^ 24 + b * 2 ^ 16) with ((a * 2 ^ 8 + b) * 2 ^ 16) by lia.
    apply Z.mod_mul. lia.
  - apply Z.mod_mul. lia.
Qed.

Lemma wd_range : 0 <= wd a b c d < 2 ^ 32.
Proof. rewrite wd_eq. lia. Qed.

Lemma W_wd : W a b c d = wd a b c d.
Proof. unfold W. rewrite wd_lor. apply uwrap_small, wd_range. Qed.

Lemma B0_wd : B0 (wd a b c d) = a.
Proof.
  unfold B0. rewrite wd_eq, Z.shiftr_div_pow2 by lia.
  symmetry. apply (Z.div_unique_pos _ _ _ (b * 2 ^ 16 + c * 2 ^ 8 + d)); lia.
Qed.

Lemma B1_wd : B1 (wd a b c d) = b.
Proof.
  unfold B1. rewrite land_byte, wd_eq, Z.shiftr_div_pow2 by lia.
  rewrite <- (Z.div_unique_pos _ (2 ^ 16) (a * 256 + b) (c * 2 ^ 8 + d)) by lia.
  symmetry. apply (Z.mod_unique_pos _ _ a); lia.
Qed.

Lemma B2_wd : B2 (wd a b c d) = c.
Proof.
  unfold B2. rewrite land_byte, wd_eq, Z.shiftr_div_pow2 by lia.
  rewrite <- (Z.div_unique_pos _ (2 ^ 8) (a * 2 ^ 16 + b * 2 ^ 8 + c) d) by lia.
  symmetry. apply (Z.mod_unique_pos _ _ (a * 256 + b)); lia.
Qed.

Lemma B3_wd : B3 (wd a b c d) = d.
Proof.
  unfold B3. rewrite land_byte, wd_eq.
  symmetry. apply (Z.mod_unique_pos _ _ (a * 2 ^ 16 + b * 2 ^ 8 + c)); lia.
Qed.

Lemma subword_wd f box :
  (forall x, 0 <= x < 256 -> zget box x = Some (f x) /\ 0 <= f x < 256) ->
  subword (wd a b c d) box = Some (W (f a) (f b) (f c) (f d)).
Proof.
  intros Hf. unfold subword. rewrite B0_wd, B1_wd, B2_wd, B3_wd.
  rewrite (proj1 (Hf a Ha)), (proj1 (Hf b Hb)), (proj1 (Hf c Hc)), (proj1 (Hf d Hd)). done.
Qed.

Lemma colmul_wd p q r s :
  colmul (wd a b c d) p q r s =
    Z.lxor (Z.lxor (Z.lxor (xmul a p) (xmul b q)) (xmul c r)) (xmul d s).
Proof. unfold colmul. by rewrite B0_wd, B1_wd, B2_wd, B3_wd. Qed.

Lemma rotword_wd : rotword (wd a b c d) = wd b c d a.
Proof.
  unfold rotword. rewrite land_byte, Z.shiftl_mul_pow2, Z.shiftr_div_pow2 by lia.
  rewrite !wd_eq. unfold uwrap.
  rewrite <- (Z.mod_unique_pos _ (2 ^ 32) a (b * 2 ^ 24 + c * 2 ^ 16 + d * 2 ^ 8)) by lia.
  rewrite <- (Z.div_unique_pos _ (2 ^ 24) a (b * 2 ^ 16 + c * 2 ^ 8 + d)) by lia.
  rewrite Z.mod_small by lia.
  rewrite (lor_disjoint _ a 8); [lia|lia| |lia].
  replace (b * 2 ^ 24 + c * 2 ^ 16 + d * 2 ^ 8) with ((b * 2 ^ 16 + c * 2 ^ 8 + d) * 2 ^ 8) by lia.
  apply Z.mod_mul. lia.
Qed.

End bytes4.

Lemma wd_lxor a b c d a' b' c' d' :
  0 <= a < 256 -> 0 <= b < 256 -> 0 <= c < 256 -> 0 <= d < 256 ->
  0 <= a' < 256 -> 0 <= b' < 256 -> 0 <= c' < 256 -> 0 <= d' < 256 ->
  Z.lxor (wd a b c d) (wd a' b' c' d') =
  wd (Z.lxor a a') (Z.lxor b b') (Z.lxor c c') (Z.lxor d d').
Proof.
  intros. rewrite <- !wd_lor by (try apply lxor_byte; done).
  apply Z.bits_inj'. intros i Hi. rewrite !Z.lxor_spec, !Z.lor_spec, !Z.shiftl_spec, !Z.lxor_spec by done.
  assert (forall x k, 0 <= x < 256 -> k < 0 \/ 8 <= k -> Z.testbit x k = false) as Hz.
  { intros x k Hx Hk. destruct (decide (k < 0)); [by apply Z.testbit_neg_r|].
    rewrite <- (Z.mod_small x (2 ^ 8)) by done. apply Z.mod_pow2_bits_high. lia. }
  destruct (decide (i < 8)); [|destruct (decide (i < 16)); [|destruct (decide (i < 24))]].
  all: repeat match goal with
    | |- context [Z.testbit ?x ?k] =>
        rewrite (Hz x k) by (done || lia)
    end; by rewrite ?orb_false_r, ?orb_false_l.
Qed.

(** ** GF(2^8) *)

(** Equations between sums of exclusive ors. *)
Ltac zxor :=
  apply Z.bits_inj'; intros ? _; rewrite ?Z.lxor_spec, ?Z.bits_0; btauto.

Lemma xt_bits a : 0 <= a < 256 ->
  xt a = Z.lxor (2 * a) (if Z.testbit a 7 then 0x11b else 0) /\ 0 <= xt a < 256.
Proof.
  apply (range_check (fun a => xt a = Z.lxor (2 * a) (if Z.testbit a 7 then 0x11b else 0) /\
    0 <= xt a < 256) 0 256). by vm_compute.
Qed.

Lemma xt_lxor a b : 0 <= a < 256 -> 0 <= b < 256 -> xt (Z.lxor a b) = Z.lxor (xt a) (xt b).
Proof.
  intros Ha Hb. rewrite (proj1 (xt_bits _ (lxor_byte _ _ Ha Hb))).
  rewrite (proj1 (xt_bits _ Ha)), (proj1 (xt_bits _ Hb)), Z.lxor_spec.
  assert (2 * Z.lxor a b = Z.lxor (2 * a) (2 * b)) as ->.
  { rewrite !(Z.mul_comm 2). change 2 with (2 ^ 1).
    rewrite <- !Z.shiftl_mul_pow2 by lia. apply Z.shiftl_lxor. }
  destruct (Z.testbit a 7), (Z.testbit b 7); simpl xorb; cbv iota; zxor.
Qed.

Lemma gmul_bits_lxor n a b k : 0 <= a < 256 -> 0 <= b < 256 ->
  gmul_bits n (Z.lxor a b) k = Z.lxor (gmul_bits n a k) (gmul_bits n b k).
Proof.
  revert a b k. induction n as [|n IH]; intros a b k Ha Hb; [done|]. cbn [gmul_bits].
  rewrite xt_lxor by done. rewrite IH by (by apply xt_bits). destruct (Z.odd k); zxor.
Qed.

Lemma gmul_lxor a b k : 0 <= a < 256 -> 0 <= b < 256 ->
  gmul (Z.lxor a b) k = Z.lxor (gmul a k) (gmul b k).
Proof. apply gmul_bits_lxor. Qed.

Lemma gmul_bits_range n a k : 0 <= a < 256 -> 0 <= gmul_bits n a k < 256.
Proof.
  revert a k. induction n as [|n IH]; intros a k Ha; [done|]. cbn [gmul_bits].
  apply lxor_byte; [by destruct (Z.odd k)|]. apply IH. by apply xt_bits.
Qed.

Lemma gmul_range a k : 0 <= a < 256 -> 0 <= gmul a k < 256.
Proof. apply gmul_bits_range. Qed.

(** The code's multiplication is right for factors below 32. *)
Lemma xmul_gmul x k : 0 <= x < 256 -> 0 <= k < 32 -> xmul x k = gmul x k.
Proof.
  intros Hx Hk. revert k Hk.
  apply (range_check (fun k => xmul x k = gmul x k) 0 32).
  revert x Hx.
  apply (range_check (fun x => bool_decide (Forall (fun k => xmul x k = gmul x k) (seqZ 0 32)) = true) 0 256).
  by vm_compute.
Qed.

(** The two matrices are inverse: the coefficients of the product. *)
Lemma mix_coefficients x : 0 <= x < 256 ->
  let g p q := gmul (gmul x p) q in
  Z.lxor (g 2 14) (Z.lxor (g 1 11) (Z.lxor (g 1 13) (g 3 9))) = x /\
  Z.lxor (g 3 14) (Z.lxor (g 2 11) (Z.lxor (g 1 13) (g 1 9))) = 0 /\
  Z.lxor (g 1 14) (Z.lxor (g 3 11) (Z.lxor (g 2 13) (g 1 9))) = 0 /\
  Z.lxor (g 1 14) (Z.lxor (g 1 11) (Z.lxor (g 3 13) (g 2 9))) = 0 /\
  Z.lxor (g 14 2) (Z.lxor (g 9 3) (Z.lxor (g 13 1) (g 11 1))) = x /\
  Z.lxor (g 11 2) (Z.lxor (g 14 3) (Z.lxor (g 9 1) (g 13 1))) = 0 /\
  Z.lxor (g 13 2) (Z.lxor (g 11 3) (Z.lxor (g 14 1) (g 9 1))) = 0 /\
  Z.lxor (g 9 2) (Z.lxor (g 13 3) (Z.lxor (g 11 1) (g 14 1))) = 0.
Proof.
  apply (range_check (fun x =>
  let g p q := gmul (gmul x p) q in
  Z.lxor (g 2 14) (Z.lxor (g 1 11) (Z.lxor (g 1 13) (g 3 9))) = x /\
  Z.lxor (g 3 14) (Z.lxor (g 2 11) (Z.lxor (g 1 13) (g 1 9))) = 0 /\
  Z.lxor (g 1 14) (Z.lxor (g 3 11) (Z.lxor (g 2 13) (g 1 9))) = 0 /\
  Z.lxor (g 1 14) (Z.lxor (g 1 11) (Z.lxor (g 3 13) (g 2 9))) = 0 /\
  Z.lxor (g 14 2) (Z.lxor (g 9 3) (Z.lxor (g 13 1) (g 11 1))) = x /\
  Z.lxor (g 11 2) (Z.lxor (g 14 3) (Z.lxor (g 9 1) (g 13 1))) = 0 /\
  Z.lxor (g 13 2) (Z.lxor (g 11 3) (Z.lxor (g 14 1) (g 9 1))) = 0 /\
  Z.lxor (g 9 2) (Z.lxor (g 13 3) (Z.lxor (g 11 1) (g 14 1))) = 0) 0 256).
  by vm_compute.
Qed.

Section columns.
Context (a b c d : Z) (Ha : 0 <= a < 256) (Hb : 0 <= b < 256) (Hc : 0 <= c < 256)
  (Hd : 0 <= d < 256).

Lemma mul_column_eq p q r s :
  mul_column [p; q; r; s] [a; b; c; d] =
  [Z.lxor (gmul a p) (Z.lxor (gmul b q) (Z.lxor (gmul c r) (gmul d s)));
   Z.lxor (gmul a s) (Z.lxor (gmul b p) (Z.lxor (gmul c q) (gmul d r)));
   Z.lxor (gmul a r) (Z.lxor (gmul b s) (Z.lxor (gmul c p) (gmul d q)));
   Z.lxor (gmul a q) (Z.lxor (gmul b r) (Z.lxor (gmul c s) (gmul d p)))].
Proof.
  unfold mul_column, circulant, row_by. cbn. by rewrite !Z.lxor_0_r.
Qed.
End columns.

Lemma lxor4_range a b c d : 0 <= a < 256 -> 0 <= b < 256 -> 0 <= c < 256 -> 0 <= d < 256 ->
  0 <= Z.lxor a (Z.lxor b (Z.lxor c d)) < 256.
Proof. intros. repeat apply lxor_byte; done. Qed.

Lemma gmul_lxor4 a b c d k :
  0 <= a < 256 -> 0 <= b < 256 -> 0 <= c < 256 -> 0 <= d < 256 ->
  gmul (Z.lxor a (Z.lxor b (Z.lxor c d))) k =
  Z.lxor (gmul a k) (Z.lxor (gmul b k) (Z.lxor (gmul c k) (gmul d k))).
Proof. intros. rewrite !gmul_lxor by (repeat apply lxor_byte; done). done. Qed.

(** Sums of rows of the product, by the coefficients. *)
Lemma collect e ta tb tc td r :
  ta = r -> tb = 0 -> tc = 0 -> td = 0 ->
  e = Z.lxor (Z.lxor ta tb) (Z.lxor tc td) -> e = r.
Proof. intros -> -> -> -> ->. by rewrite !Z.lxor_0_r. Qed.

Lemma mix_inverse a b c d :
  0 <= a < 256 -> 0 <= b < 256 -> 0 <= c < 256 -> 0 <= d < 256 ->
  mul_column [14; 11; 13; 9] (mul_column [2; 3; 1; 1] [a; b; c; d]) = [a; b; c; d] /\
  mul_column [2; 3; 1; 1] (mul_column [14; 11; 13; 9] [a; b; c; d]) = [a; b; c; d].
Proof.
  intros Ha Hb Hc Hd. rewrite !mul_column_eq.
  rewrite !gmul_lxor4 by (apply gmul_range; done).
  pose proof (mix_coefficients a Ha) as (A0 & A1 & A2 & A3 & A4 & A5 & A6 & A7).
  pose proof (mix_coefficients b Hb) as (B0 & B1 & B2 & B3 & B4 & B5 & B6 & B7).
  pose proof (mix_coefficients c Hc) as (C0 & C1 & C2 & C3 & C4 & C5 & C6 & C7).
  pose proof (mix_coefficients d Hd) as (D0 & D1 & D2 & D3 & D4 & D5 & D6 & D7).
  split; repeat f_equal.
  1: eapply (collect _ _ _ _ _ _ A0 B1 C2 D3).
  2: eapply (collect _ _ _ _ _ _ B0 C1 D2 A3).
  3: eapply (collect _ _ _ _ _ _ C0 D1 A2 B3).
  4: eapply (collect _ _ _ _ _ _ D0 A1 B2 C3).
  5: eapply (collect _ _ _ _ _ _ A4 B5 C6 D7).
  6: eapply (collect _ _ _ _ _ _ B4 C5 D6 A7).
  7: eapply (collect _ _ _ _ _ _ C4 D5 A6 B7).
  8: eapply (collect _ _ _ _ _ _ D4 A5 B6 C7).
  all: zxor.
Qed.

(** ** The code's operations are the standard's *)

Definition block (bs : list Z) : Prop := length bs = 16%nat /\ bytes bs.

(** The words of a block. *)
Definition st (bs : list Z) : list Z := be_value <$> columns bs.

(** Name the 16 bytes of a block and their bounds. *)
Ltac split_block bs H :=
  let Hl := fresh "Hl" in let Hb := fresh "Hb" in
  destruct H as [Hl Hb];
  do 16 (destruct bs as [|? bs]; [discriminate Hl|]);
  destruct bs; [|discriminate Hl]; clear Hl;
  rewrite !Forall_cons in Hb; destruct_and! Hb.

(** The state of an explicit block, as words of named bytes. *)
Ltac open_st :=
  unfold st; cbn [columns fmap list_fmap seq take drop Nat.mul Nat.add];
  repeat match goal with |- context [be_value [?p; ?q; ?r; ?s]] =>
    change (be_value [p; q; r; s]) with (wd p q r s) end.

Lemma each_word_4 f a b c d :
  each_word f 4 0 [a; b; c; d] =
  (a' ← f a; b' ← f b; c' ← f c; d' ← f d; Some [a'; b'; c'; d']).
Proof. simpl. destruct (f a), (f b), (f c), (f d); done. Qed.

Lemma sub_bytes_st f box bs :
  (forall x, 0 <= x < 256 -> zget box x = Some (f x) /\ 0 <= f x < 256) ->
  block bs ->
  each_word (fun s => subword s box) 4 0 (st bs) = Some (st (f <$> bs)) /\ block (f <$> bs).
Proof.
  intros Hf Hbs. split.
  - split_block bs Hbs. open_st. rewrite each_word_4.
    rewrite !(subword_wd _ _ _ _) with (f := f) by done.
    rewrite !Some_bind, !W_wd by (apply Hf; done). done.
  - destruct Hbs as [Hl Hb]. split; [by rewrite length_fmap|].
    apply Forall_fmap. eapply Forall_impl; [exact Hb|]. intros x Hx. by apply Hf.
Qed.

Lemma fwd_sub_bytes_st bs :
  block bs -> fwd_sub_bytes (st bs) = Some (st (SubBytes bs)) /\ block (SubBytes bs).
Proof. apply sub_bytes_st, sbox_spec. Qed.

Lemma inv_sub_bytes_st bs :
  block bs -> inv_sub_bytes (st bs) = Some (st (InvSubBytes bs)) /\ block (InvSubBytes bs).
Proof. apply sub_bytes_st, rbox_spec. Qed.

Lemma zget_list4 (a b c d : Z) :
  zget [a; b; c; d] 0 = Some a /\ zget [a; b; c; d] 1 = Some b /\
  zget [a; b; c; d] 2 = Some c /\ zget [a; b; c; d] 3 = Some d.
Proof. done. Qed.

Lemma fwd_shift_rows_st bs :
  block bs -> fwd_shift_rows (st bs) = Some (st (ShiftRows bs)) /\ block (ShiftRows bs).
Proof.
  intros Hbs. split_block bs Hbs. split.
  - open_st. unfold fwd_shift_rows, rowshift.
    match goal with |- context [zget [?a; ?b; ?c; ?d] _] =>
      destruct (zget_list4 a b c d) as (-> & -> & -> & ->) end.
    rewrite !Some_bind, !B0_wd, !B1_wd, !B2_wd, !B3_wd, !W_wd by done. done.
  - split; [done|]. repeat (constructor; [done|]). constructor.
Qed.

Lemma inv_shift_rows_st bs :
  block bs -> inv_shift_rows (st bs) = Some (st (InvShiftRows bs)) /\ block (InvShiftRows bs).
Proof.
  intros Hbs. split_block bs Hbs. split.
  - open_st. unfold inv_shift_rows, rowshift.
    match goal with |- context [zget [?a; ?b; ?c; ?d] _] =>
      destruct (zget_list4 a b c d) as (-> & -> & -> & ->) end.
    rewrite !Some_bind, !B0_wd, !B1_wd, !B2_wd, !B3_wd, !W_wd by done. done.
  - split; [done|]. repeat (constructor; [done|]). constructor.
Qed.

Lemma mix_st f m :
  (forall a b c d, 0 <= a < 256 -> 0 <= b < 256 -> 0 <= c < 256 -> 0 <= d < 256 ->
    f (wd a b c d) = Some (be_value (mul_column m [a; b; c; d]))) ->
  (forall col, bytes col -> bytes (mul_column m col)) ->
  forall bs, block bs ->
  each_word f 4 0 (st bs) = Some (st (concat (mul_column m <$> columns bs))) /\
  block (concat (mul_column m <$> columns bs)).
Proof.
  intros Hf Hm bs Hbs. split_block bs Hbs. split.
  - open_st. rewrite each_word_4, !Hf, !Some_bind by done. done.
  - cbn [columns fmap list_fmap seq take drop Nat.mul Nat.add concat].
    split; [done|]. repeat (apply Forall_app; split; [apply Hm; by repeat constructor|]).
    constructor.
Qed.

Lemma bytes_mul_column m col : bytes col -> bytes (mul_column m col).
Proof.
  intros Hc. unfold mul_column. apply Forall_fmap, Forall_forall. intros row _. simpl.
  unfold row_by. revert row. induction Hc as [|x col Hx Hc IH]; intros [|r row]; simpl; try lia.
  apply lxor_byte; [by apply gmul_range|apply IH].
Qed.

Lemma mix_column_code p q r s a b c d :
  0 <= p < 32 -> 0 <= q < 32 -> 0 <= r < 32 -> 0 <= s < 32 ->
  0 <= a < 256 -> 0 <= b < 256 -> 0 <= c < 256 -> 0 <= d < 256 ->
  W (colmul (wd a b c d) p q r s) (colmul (wd a b c d) s p q r)
    (colmul (wd a b c d) r s p q) (colmul (wd a b c d) q r s p) =
  be_value (mul_column [p; q; r; s] [a; b; c; d]).
Proof.
  intros. rewrite !colmul_wd by done. rewrite !xmul_gmul by done.
  rewrite W_wd by (repeat first [by apply gmul_range | apply lxor_byte]).
  rewrite mul_column_eq, <- !Z.lxor_assoc. done.
Qed.

Lemma fwd_mix_columns_st bs :
  block bs -> fwd_mix_columns (st bs) = Some (st (MixColumns bs)) /\ block (MixColumns bs).
Proof.
  apply mix_st; [|apply bytes_mul_column]. intros. by rewrite mix_column_code.
Qed.

Lemma inv_mix_columns_st bs :
  block bs -> inv_mix_columns (st bs) = Some (st (InvMixColumns bs)) /\ block (InvMixColumns bs).
Proof.
  apply mix_st; [|apply bytes_mul_column]. intros. by rewrite mix_column_code.
Qed.

(** The key schedule as words. *)
Definition words_ok (ws : list (list Z)) : Prop := Forall (fun w => length w = 4%nat /\ bytes w) ws.

Lemma ark_loop_4 a b c d W r w0 w1 w2 w3 :
  zget W (r * 4 + 0) = Some w0 -> zget W (r * 4 + 1) = Some w1 ->
  zget W (r * 4 + 2) = Some w2 -> zget W (r * 4 + 3) = Some w3 ->
  add_round_key [a; b; c; d] W r =
    Some [Z.lxor a w0; Z.lxor b w1; Z.lxor c w2; Z.lxor d w3].
Proof.
  intros H0 H1 H2 H3. unfold add_round_key. change (Z.to_nat Nb) with 4%nat.
  cbn [ark_loop]. change (0 + 1) with 1. change (1 + 1) with 2. change (2 + 1) with 3.
  unfold Nb. rewrite H0, H1, H2, H3. done.
Qed.

Lemma add_round_key_st ks r bs :
  words_ok ks -> length ks = 44%nat -> (r <= 10)%nat -> block bs ->
  add_round_key (st bs) (be_value <$> ks) (Z.of_nat r) =
    Some (st (AddRoundKey (round_key ks r) bs)) /\
  block (AddRoundKey (round_key ks r) bs).
Proof.
  intros Hk Hl Hr Hbs.
  assert (forall i, (i < 4)%nat -> exists w0 w1 w2 w3, ks !! (4 * r + i)%nat = Some [w0; w1; w2; w3] /\
    bytes [w0; w1; w2; w3]) as Hw.
  { intros i Hi. destruct (lookup_lt_is_Some_2 ks (4 * r + i)) as [w Hw]; [lia|].
    pose proof (proj1 (Forall_lookup _ _) Hk _ _ Hw) as [Hwl Hwb].
    destruct w as [|? [|? [|? [|? [|]]]]]; try done. eauto 10. }
  destruct (Hw 0%nat) as (x0 & x1 & x2 & x3 & H0 & Hb0); [lia|].
  destruct (Hw 1%nat) as (x4 & x5 & x6 & x7 & H1 & Hb1); [lia|].
  destruct (Hw 2%nat) as (x8 & x9 & x10 & x11 & H2 & Hb2); [lia|].
  destruct (Hw 3%nat) as (x12 & x13 & x14 & x15 & H3 & Hb3); [lia|].
  assert (round_key ks r = [x0; x1; x2; x3; x4; x5; x6; x7; x8; x9; x10; x11; x12; x13; x14; x15]) as ->.
  { unfold round_key. rewrite Nat.add_0_r in H0.
    rewrite (drop_S _ _ _ H0). replace (S (4 * r)) with (4 * r + 1)%nat by lia.
    rewrite (drop_S _ _ _ H1). replace (S (4 * r + 1)) with (4 * r + 2)%nat by lia.
    rewrite (drop_S _ _ _ H2). replace (S (4 * r + 2)) with (4 * r + 3)%nat by lia.
    rewrite (drop_S _ _ _ H3). done. }
  rewrite !Forall_cons in Hb0, Hb1, Hb2, Hb3. destruct_and! Hb0. destruct_and! Hb1.
  destruct_and! Hb2. destruct_and! Hb3.
  assert (forall i w, (i < 4)%nat -> ks !! (4 * r + i)%nat = Some w ->
    zget (be_value <$> ks) (Z.of_nat r * 4 + Z.of_nat i) = Some (be_value w)) as Hz.
  { intros i w Hi H. replace (_ + _) with (Z.of_nat (4 * r + i)) by lia.
    rewrite zget_nat, list_lookup_fmap, H. done. }
  split_block bs Hbs. split.
  - open_st. rewrite (ark_loop_4 _ _ _ _ _ _ (wd x0 x1 x2 x3) (wd x4 x5 x6 x7)
      (wd x8 x9 x10 x11) (wd x12 x13 x14 x15));
      [|by apply (Hz 0%nat); [lia|]|by apply (Hz 1%nat); [lia|]
       |by apply (Hz 2%nat); [lia|]|by apply (Hz 3%nat); [lia|]].
    rewrite !wd_lxor by done. done.
  - split; [done|]. simpl. repeat (constructor; [by apply lxor_byte|]). constructor.
Qed.

(** ** Blocks in and out *)

Lemma load_block_st B bs :
  (4 <= length B)%nat -> block bs -> load_block B bs = Some (st bs ++ drop 4 B).
Proof.
  intros HB Hbs. destruct B as [|x0 [|x1 [|x2 [|x3 B]]]]; try (simpl in HB; lia).
  split_block bs Hbs. open_st. cbn [drop].
  unfold load_block, load_word. 
  repeat match goal with |- context [zget (?x :: ?l) (?a + ?b)] =>
    let v := eval cbv in (nth (Z.to_nat (a + b)) (x :: l) 0) in
    change (zget (x :: l) (a + b)) with (Some v) end.
  rewrite !Some_bind, !W_wd by done.
  do 4 (rewrite zput_Some by (rewrite ?length_insert; cbn [length]; lia);
        rewrite ?Some_bind).
  rewrite !W_wd by done. reflexivity.
Qed.

Lemma save_word_spec a b c d out off :
  0 <= a < 256 -> 0 <= b < 256 -> 0 <= c < 256 -> 0 <= d < 256 ->
  0 <= off -> off + 4 <= zlen out ->
  save_word (wd a b c d) out off = awrite out off [a; b; c; d].
Proof.
  intros Ha Hb Hc Hd Ho Hl. unfold save_word.
  rewrite B0_wd, B1_wd, B2_wd, B3_wd by done.
  rewrite <- (take_drop (Z.to_nat off) out).
  assert (off = zlen (take (Z.to_nat off) out)) as Hp by (rewrite length_take; lia).
  assert (4 <= length (drop (Z.to_nat off) out))%nat as Hd4 by (rewrite length_drop; lia).
  revert Hp Hd4. generalize (take (Z.to_nat off) out) (drop (Z.to_nat off) out).
  intros pre t -> Hd4. clear Ho Hl.
  destruct t as [|x0 [|x1 [|x2 [|x3 t]]]]; try (simpl in Hd4; lia).
  rewrite Z.add_0_r, zput_snoc, Some_bind by done.
  rewrite zput_snoc, Some_bind by (rewrite length_app; simpl; lia).
  rewrite zput_snoc, Some_bind by (rewrite !length_app; simpl; lia).
  rewrite zput_snoc by (rewrite !length_app; simpl; lia).
  rewrite (awrite_parts pre [x0; x1; x2; x3] [a; b; c; d] t) by done.
  by rewrite <- !app_assoc.
Qed.

Lemma save_block_st bs out :
  block bs -> length out = 16%nat -> save_block (st bs) out = Some bs.
Proof.
  intros Hbs Ho. do 16 (destruct out as [|? out]; [discriminate Ho|]).
  destruct out; [|discriminate Ho]. split_block bs Hbs. open_st. unfold save_block.
  match goal with |- context [zget [?a; ?b; ?c; ?d] _] =>
    destruct (zget_list4 a b c d) as (-> & -> & -> & ->) end.
  do 4 (rewrite ?Some_bind, save_word_spec by (done || simpl; lia);
    match goal with |- context [awrite ?l ?o ?w] =>
      let r := eval cbv in (awrite l o w) in change (awrite l o w) with r end).
  reflexivity.
Qed.

(** ** The key schedule *)

Lemma Rcon_spec k : (1 <= k <= 10)%nat ->
  zget rcon (Z.of_nat k) = Some (Nat.iter (k - 1) xt 1) /\ 0 <= Nat.iter (k - 1) xt 1 < 256.
Proof.
  intros Hk. do 11 (destruct k as [|k]; [try lia; vm_compute; repeat split; done|]). lia.
Qed.

Lemma words_ok_nth ws i :
  words_ok ws -> (i < length ws)%nat ->
  exists a b c d, nth i ws [] = [a; b; c; d] /\ bytes [a; b; c; d] /\
    zget (be_value <$> ws) (Z.of_nat i) = Some (wd a b c d).
Proof.
  intros Hw Hi. destruct (lookup_lt_is_Some_2 ws i) as [w Hl]; [lia|].
  pose proof (proj1 (Forall_lookup _ _) Hw _ _ Hl) as [Hwl Hwb].
  destruct w as [|a [|b [|c [|d [|]]]]]; try done. exists a, b, c, d.
  split; [by apply nth_lookup_Some|]. split; [done|].
  by rewrite zget_nat, list_lookup_fmap, Hl.
Qed.

Lemma xor_words a b c d a' b' c' d' :
  bytes [a; b; c; d] -> bytes [a'; b'; c'; d'] ->
  Z.lxor (wd a b c d) (wd a' b' c' d') = be_value (zip_with Z.lxor [a; b; c; d] [a'; b'; c'; d']) /\
  bytes (zip_with Z.lxor [a; b; c; d] [a'; b'; c'; d']).
Proof.
  rewrite !Forall_cons. intros H H'. destruct_and! H. destruct_and! H'. split.
  - rewrite wd_lxor by done. done.
  - simpl. repeat (constructor; [by apply lxor_byte|]). constructor.
Qed.

(** The word the loop computes from the one before. *)
Definition sched_temp (i : nat) (w : list Z) : list Z :=
  if (i mod 4 =? 0)%nat then zip_with Z.lxor (SubWord (RotWord w)) (Rcon (i / 4)) else w.

Lemma expand_temp i a b c d :
  (4 <= i < 44)%nat -> bytes [a; b; c; d] ->
  exists a' b' c' d', sched_temp i [a; b; c; d] = [a'; b'; c'; d'] /\ bytes [a'; b'; c'; d'] /\
  (if Z.of_nat i mod Nk =? 0 then
     t ← subword (rotword (wd a b c d)) sbox;
     rc ← zget rcon (Z.of_nat i / Nk);
     Some (Z.lxor t (u32 (Z.shiftl rc 24)))
   else Some (wd a b c d)) = Some (wd a' b' c' d').
Proof.
  intros Hi Hb. pose proof Hb as Hb'. rewrite !Forall_cons in Hb'. destruct_and! Hb'.
  unfold Nk, sched_temp.
  change 4 with (Z.of_nat 4). rewrite <- Nat2Z.inj_mod, <- Nat2Z.inj_div.
  destruct (Nat.eqb_spec (i mod 4) 0) as [He|He].
  2:{ exists a, b, c, d. split; [done|]. split; [done|].
      rewrite (proj2 (Z.eqb_neq _ _)) by lia. done. }
  rewrite (proj2 (Z.eqb_eq _ _)) by lia.
  destruct (Rcon_spec (i / 4)) as [HR HRb].
  { split; [apply Nat.div_le_lower_bound; lia|]. assert (i / 4 < 11)%nat; [|lia].
    apply Nat.Div0.div_lt_upper_bound; lia. }
  set (rc := Nat.iter (i / 4 - 1) xt 1) in *.
  rewrite rotword_wd, (subword_wd b c d a) with (f := sub_byte) by (done || apply sbox_spec).
  rewrite Some_bind, HR, Some_bind.
  rewrite W_wd by (by apply sub_byte_range).
  assert (u32 (Z.shiftl rc 24) = wd rc 0 0 0) as ->.
  { rewrite wd_eq, Z.shiftl_mul_pow2 by lia. rewrite u32_small by lia. lia. }
  destruct (xor_words (sub_byte b) (sub_byte c) (sub_byte d) (sub_byte a) rc 0 0 0) as [Hx Hxb].
  { repeat (constructor; [by apply sub_byte_range|]). constructor. }
  { repeat (constructor; [lia|]). constructor. }
  exists (Z.lxor (sub_byte b) rc), (Z.lxor (sub_byte c) 0), (Z.lxor (sub_byte d) 0),
    (Z.lxor (sub_byte a) 0).
  split; [done|]. split; [exact Hxb|]. f_equal. exact Hx.
Qed.

Lemma next_word_code ws :
  words_ok ws -> (4 <= length ws < 44)%nat ->
  (temp ← zget (be_value <$> ws) (zlen ws - 1);
   temp ← (if zlen ws mod Nk =? 0 then
             t ← subword (rotword temp) sbox;
             rc ← zget rcon (zlen ws / Nk);
             Some (Z.lxor t (u32 (Z.shiftl rc 24)))
           else Some temp);
   w ← zget (be_value <$> ws) (zlen ws - Nk);
   Some (Z.lxor w temp)) = Some (be_value (next_word ws)) /\
  length (next_word ws) = 4%nat /\ bytes (next_word ws).
Proof.
  intros Hw Hl.
  destruct (words_ok_nth ws (length ws - 1) Hw) as (a & b & c & d & Hn & Hb & Hz); [lia|].
  destruct (words_ok_nth ws (length ws - 4) Hw) as (p & q & r & s & Hn4 & Hb4 & Hz4); [lia|].
  replace (zlen ws - 1) with (Z.of_nat (length ws - 1)) by lia.
  replace (zlen ws - Nk) with (Z.of_nat (length ws - 4)) by (unfold Nk; lia).
  rewrite Hz, Some_bind.
  destruct (expand_temp (length ws) a b c d) as (a' & b' & c' & d' & Ht & Hb' & ->); [lia|done|].
  rewrite Some_bind, Hz4, Some_bind.
  destruct (xor_words p q r s a' b' c' d') as [Hx Hxb]; [done..|]. rewrite Hx.
  unfold next_word. cbv zeta. rewrite Hn, Hn4. fold (sched_temp (length ws) [a; b; c; d]).
  rewrite Ht. split; [done|]. split; [|done]. by rewrite length_zip_with.
Qed.

Lemma bind_assoc {A B C} (o : option A) (f : A -> option B) (g : B -> option C) :
  (o ≫= f) ≫= g = o ≫= (fun x => f x ≫= g).
Proof. by destruct o. Qed.

Lemma expand_loop_spec n ws rest :
  words_ok ws -> (4 <= length ws)%nat -> (length ws + n <= 44)%nat -> (n <= length rest)%nat ->
  let ws' := Nat.iter n (fun ws => ws ++ [next_word ws]) ws in
  expand_loop n (zlen ws) ((be_value <$> ws) ++ rest) =
    Some ((be_value <$> ws') ++ drop n rest) /\
  words_ok ws' /\ length ws' = (length ws + n)%nat.
Proof.
  revert ws rest. induction n as [|n IH]; intros ws rest Hw Hl Hn Hr.
  { simpl. split; [done|]. split; [done|lia]. }
  cbv zeta. rewrite Nat.iter_succ_r. cbn [expand_loop].
  destruct (next_word_code ws Hw) as (Hnw & Hnl & Hnb); [lia|].
  rewrite !zget_app_l by (rewrite length_fmap; unfold Nk; lia).
  apply bind_Some_inv in Hnw as (temp & -> & Hnw). rewrite Some_bind.
  apply bind_Some_inv in Hnw as (temp' & -> & Hnw). rewrite Some_bind.
  apply bind_Some_inv in Hnw as (w & -> & Hnw). rewrite Some_bind. injection Hnw as ->.
  destruct rest as [|x rest]; [simpl in Hr; lia|].
  rewrite zput_snoc by (rewrite length_fmap; lia). rewrite Some_bind.
  replace (zlen ws + 1) with (zlen (ws ++ [next_word ws])) by (rewrite length_app; simpl; lia).
  change [be_value (next_word ws)] with (be_value <$> [next_word ws]). rewrite <- fmap_app.
  destruct (IH (ws ++ [next_word ws]) rest) as (He & Hw' & Hl');
    rewrite ?length_app in *; simpl in *; try lia.
  { apply Forall_app. split; [done|]. by repeat constructor. }
  split; [done|]. split; [done|lia].
Qed.

Lemma columns_ok bs : block bs -> words_ok (columns bs) /\ length (columns bs) = 4%nat.
Proof.
  intros Hbs. split_block bs Hbs. split; [|done].
  repeat (constructor; [split; [done|by repeat constructor]|]). constructor.
Qed.

(** A context holds the expanded key of [key]. *)
Definition keyed (ctx : aes128) (key : list Z) : Prop :=
  ae_W ctx = be_value <$> KeyExpansion key /\ length (ae_S ctx) = 4%nat.

Lemma KeyExpansion_ok key :
  block key -> words_ok (KeyExpansion key) /\ length (KeyExpansion key) = 44%nat.
Proof.
  intros Hk. destruct (columns_ok key Hk) as [Hc Hcl].
  destruct (expand_loop_spec 40 (columns key) (repeat 0 40)) as (_ & H & Hl); try done; simpl; lia.
Qed.

Lemma aes128_init_spec ctx key :
  length (ae_W ctx) = 44%nat -> length (ae_S ctx) = 4%nat -> block key ->
  exists ctx', aes128_init ctx key = Some ctx' /\ keyed ctx' key.
Proof.
  intros HW HS Hk. destruct (columns_ok key Hk) as [Hc Hcl]. unfold aes128_init.
  rewrite load_block_st, Some_bind by (done || lia).
  change (Z.to_nat (Nb * (Nr + 1) - 4)) with 40%nat.
  destruct (expand_loop_spec 40 (columns key) (drop 4 (ae_W ctx))) as (He & _ & _);
    [done|lia|lia|rewrite length_drop; lia|].
  rewrite Hcl in He. change (Z.of_nat 4) with 4 in He. unfold st. rewrite He, Some_bind.
  eexists. split; [done|]. split; [|done]. cbn [ae_W].
  rewrite drop_drop, drop_ge, app_nil_r by lia. unfold KeyExpansion. exact eq_refl.
Qed.

(** ** The cipher *)

Section cipher.
Context (ks : list (list Z)) (Hks : words_ok ks) (Hkl : length ks = 44%nat).

Lemma enc_rounds_st n r s :
  block s -> (r + n <= 11)%nat ->
  enc_rounds n (Z.of_nat r) (st s) (be_value <$> ks) =
    Some (st (foldl (enc_round ks) s (seq r n))) /\ block (foldl (enc_round ks) s (seq r n)).
Proof.
  revert r s. induction n as [|n IH]; intros r s Hs Hr; [done|]. cbn [enc_rounds seq foldl].
  destruct (fwd_sub_bytes_st s Hs) as [-> H1]. rewrite Some_bind.
  destruct (fwd_shift_rows_st _ H1) as [-> H2]. rewrite Some_bind.
  destruct (fwd_mix_columns_st _ H2) as [-> H3]. rewrite Some_bind.
  destruct (add_round_key_st ks r _ Hks Hkl ltac:(lia) H3) as [-> H4]. rewrite Some_bind.
  replace (Z.of_nat r + 1) with (Z.of_nat (S r)) by lia. apply IH; [done|lia].
Qed.

Lemma dec_rounds_st r s :
  block s -> (r <= 10)%nat ->
  dec_rounds r (st s) (be_value <$> ks) =
    Some (st (foldl (dec_round ks) s (reverse (seq 1 r)))) /\
  block (foldl (dec_round ks) s (reverse (seq 1 r))).
Proof.
  revert s. induction r as [|r IH]; intros s Hs Hr; [done|]. cbn [dec_rounds].
  rewrite seq_S, reverse_app. cbn [reverse rev_append app foldl].
  destruct (inv_shift_rows_st s Hs) as [-> H1]. rewrite Some_bind.
  destruct (inv_sub_bytes_st _ H1) as [-> H2]. rewrite Some_bind.
  destruct (add_round_key_st ks (S r) _ Hks Hkl ltac:(lia) H2) as [-> H3]. rewrite Some_bind.
  destruct (inv_mix_columns_st _ H3) as [-> H4]. rewrite Some_bind.
  apply IH; [done|lia].
Qed.

Lemma enc_rounds_block n r s : block s -> (r + n <= 11)%nat -> block (foldl (enc_round ks) s (seq r n)).
Proof. intros Hs Hr. exact (proj2 (enc_rounds_st n r s Hs Hr)). Qed.
End cipher.

Lemma aes128_encrypt_st ctx key blk :
  block key -> keyed ctx key -> block blk ->
  exists ctx', aes128_encrypt ctx blk = Some (ctx', Cipher (KeyExpansion key) blk) /\
    keyed ctx' key /\ block (Cipher (KeyExpansion key) blk).
Proof.
  intros Hk [HW HS] Hb. destruct (KeyExpansion_ok key Hk) as [Hks Hkl].
  unfold aes128_encrypt. rewrite HW, load_block_st, drop_ge, app_nil_r, Some_bind by (done || lia).
  destruct (add_round_key_st _ 0 blk Hks Hkl ltac:(lia) Hb) as [H0 Hb0].
  change (Z.of_nat 0) with 0 in H0. rewrite H0, Some_bind.
  destruct (enc_rounds_st _ Hks Hkl 9 1 _ Hb0 ltac:(lia)) as [H1 Hb1].
  change (Z.to_nat (Nr - 1)) with 9%nat. change (Z.of_nat 1) with 1 in H1. rewrite H1, Some_bind.
  destruct (fwd_sub_bytes_st _ Hb1) as [H2 Hb2]. rewrite H2, Some_bind.
  destruct (fwd_shift_rows_st _ Hb2) as [H3 Hb3]. rewrite H3, Some_bind.
  destruct (add_round_key_st _ 10 _ Hks Hkl ltac:(lia) Hb3) as [H4 Hb4].
  change (Z.of_nat 10) with Nr in H4. rewrite H4, Some_bind.
  rewrite save_block_st, Some_bind by (apply Hb || done).
  unfold Cipher. cbv zeta.
  eexists. split; [reflexivity|]. split; [|exact Hb4].
  split; [cbn [ae_W]; exact eq_refl|].
  cbn [ae_S]. unfold st. by rewrite length_fmap.
Qed.

Lemma aes128_decrypt_st ctx key blk :
  block key -> keyed ctx key -> block blk ->
  exists ctx', aes128_decrypt ctx blk = Some (ctx', InvCipher (KeyExpansion key) blk) /\
    keyed ctx' key /\ block (InvCipher (KeyExpansion key) blk).
Proof.
  intros Hk [HW HS] Hb. destruct (KeyExpansion_ok key Hk) as [Hks Hkl].
  unfold aes128_decrypt. rewrite HW, load_block_st, drop_ge, app_nil_r, Some_bind by (done || lia).
  destruct (add_round_key_st _ 10 blk Hks Hkl ltac:(lia) Hb) as [H0 Hb0].
  change (Z.of_nat 10) with Nr in H0. rewrite H0, Some_bind.
  destruct (dec_rounds_st _ Hks Hkl 9 _ Hb0 ltac:(lia)) as [H1 Hb1].
  change (Z.to_nat (Nr - 1)) with 9%nat. rewrite H1, Some_bind.
  destruct (inv_shift_rows_st _ Hb1) as [H2 Hb2]. rewrite H2, Some_bind.
  destruct (inv_sub_bytes_st _ Hb2) as [H3 Hb3]. rewrite H3, Some_bind.
  destruct (add_round_key_st _ 0 _ Hks Hkl ltac:(lia) Hb3) as [H4 Hb4].
  change (Z.of_nat 0) with 0 in H4. rewrite H4, Some_bind.
  rewrite save_block_st, Some_bind by (apply Hb || done).
  unfold InvCipher. cbv zeta.
  eexists. split; [reflexivity|]. split; [|exact Hb4].
  split; [cbn [ae_W]; exact eq_refl|].
  cbn [ae_S]. unfold st. by rewrite length_fmap.
Qed.

(** ** Inversion *)

Lemma SubBytes_inv s : block s -> InvSubBytes (SubBytes s) = s /\ SubBytes (InvSubBytes s) = s.
Proof.
  intros [_ Hb]. unfold InvSubBytes, SubBytes. rewrite <- !list_fmap_compose.
  induction Hb as [|x s Hx Hs [IH1 IH2]]; [done|].
  destruct (sub_byte_inv x Hx) as [H1 H2].
  split; rewrite fmap_cons; (f_equal; [done|done]).
Qed.

Lemma ShiftRows_inv s : block s -> InvShiftRows (ShiftRows s) = s /\ ShiftRows (InvShiftRows s) = s.
Proof. intros Hs. split_block s Hs. done. Qed.

Lemma columns_app c0 c1 c2 c3 :
  length c0 = 4%nat -> length c1 = 4%nat -> length c2 = 4%nat -> length c3 = 4%nat ->
  columns (c0 ++ c1 ++ c2 ++ c3) = [c0; c1; c2; c3].
Proof.
  intros.
  destruct c0 as [|? [|? [|? [|? [|]]]]]; try done. destruct c1 as [|? [|? [|? [|? [|]]]]]; try done.
  destruct c2 as [|? [|? [|? [|? [|]]]]]; try done. destruct c3 as [|? [|? [|? [|? [|]]]]]; done.
Qed.

Lemma columns_16 a b c d e f g h i j k l m n o p :
  columns [a; b; c; d; e; f; g; h; i; j; k; l; m; n; o; p] =
    [[a; b; c; d]; [e; f; g; h]; [i; j; k; l]; [m; n; o; p]].
Proof. done. Qed.

Lemma mix_mix m m' s :
  (forall a b c d, 0 <= a < 256 -> 0 <= b < 256 -> 0 <= c < 256 -> 0 <= d < 256 ->
    mul_column m (mul_column m' [a; b; c; d]) = [a; b; c; d]) ->
  block s ->
  concat (mul_column m <$> columns (concat (mul_column m' <$> columns s))) = s.
Proof.
  intros Hm Hs. split_block s Hs.
  rewrite columns_16. cbn [fmap list_fmap concat]. rewrite app_nil_r.
  rewrite columns_app by done. cbn [fmap list_fmap concat]. by rewrite !Hm by done.
Qed.

Lemma MixColumns_inv s :
  block s -> InvMixColumns (MixColumns s) = s /\ MixColumns (InvMixColumns s) = s.
Proof.
  intros Hs. split; apply mix_mix; [|exact Hs| |exact Hs]; intros a b c d Ha Hb Hc Hd.
  - exact (proj1 (mix_inverse a b c d Ha Hb Hc Hd)).
  - exact (proj2 (mix_inverse a b c d Ha Hb Hc Hd)).
Qed.

Lemma AddRoundKey_inv k s : length k = length s -> AddRoundKey k (AddRoundKey k s) = s.
Proof.
  unfold AddRoundKey. revert k. induction s as [|x s IH]; intros [|y k] Hl; simpl in *; try done.
  rewrite IH by lia. f_equal. zxor.
Qed.

Section inversion.
Context (ks : list (list Z)) (Hks : words_ok ks) (Hkl : length ks = 44%nat).

Lemma length_round_key r : (r <= 10)%nat -> length (round_key ks r) = 16%nat.
Proof.
  intros Hr. destruct (add_round_key_st ks r (repeat 0 16) Hks Hkl Hr) as [_ [Hl _]].
  - split; [done|apply bytes_repeat; lia].
  - unfold AddRoundKey in Hl. rewrite length_zip_with, repeat_length in Hl.
    assert (length (round_key ks r) <= 16)%nat; [|lia].
    unfold round_key. assert (Forall (fun w => length w = 4%nat) (take 4 (drop (4 * r) ks))) as HF.
    { apply Forall_take, Forall_drop. eapply Forall_impl; [exact Hks|]. by intros w [? _]. }
    assert (length (take 4 (drop (4 * r) ks)) <= 4)%nat as Ht by (rewrite length_take; lia). revert HF Ht.
    generalize (take 4 (drop (4 * r) ks)). intros l HF Ht.
    assert (length (concat l) = 4 * length l)%nat as ->; [|lia].
    clear Ht. induction HF as [|w l Hw HF IH]; [done|]. simpl. rewrite length_app. lia.
Qed.

Lemma ark_block r s : (r <= 10)%nat -> block s -> block (AddRoundKey (round_key ks r) s).
Proof. intros Hr Hs. exact (proj2 (add_round_key_st ks r s Hks Hkl Hr Hs)). Qed.

Lemma ark_ark r s : (r <= 10)%nat -> block s ->
  AddRoundKey (round_key ks r) (AddRoundKey (round_key ks r) s) = s.
Proof. intros Hr [Hl _]. apply AddRoundKey_inv. by rewrite length_round_key. Qed.

(** One round of the cipher undone by one round of the inverse cipher, which
    takes its steps in the order shift, substitution, key, mix. *)
Lemma dec_enc_rounds n s :
  block s -> (n <= 9)%nat ->
  InvSubBytes (InvShiftRows (foldl (dec_round ks)
    (ShiftRows (SubBytes (foldl (enc_round ks) s (seq 1 n)))) (reverse (seq 1 n)))) = s.
Proof.
  intros Hs. induction n as [|n IH]; intros Hn.
  { cbn [seq reverse rev_append foldl]. unfold reverse. cbn [rev_append foldl]. destruct (fwd_sub_bytes_st s Hs) as [_ Hb].
    rewrite (proj1 (ShiftRows_inv _ Hb)). apply (SubBytes_inv s Hs). }
  rewrite seq_S, foldl_app, reverse_app. cbn [foldl reverse rev_append app].
  rewrite <- IH at 2 by lia. do 2 f_equal. f_equal.
  set (s' := foldl (enc_round ks) s (seq 1 n)).
  assert (block s') as Hs' by (apply enc_rounds_block; done || lia).
  destruct (fwd_sub_bytes_st s' Hs') as [_ H1]. destruct (fwd_shift_rows_st _ H1) as [_ H2].
  destruct (fwd_mix_columns_st _ H2) as [_ H3].
  unfold dec_round, enc_round. change (1 + n)%nat with (S n).
  pose proof (ark_block (S n) _ ltac:(lia) H3) as H4. destruct (fwd_sub_bytes_st _ H4) as [_ H5].
  rewrite (proj1 (ShiftRows_inv _ H5)), (proj1 (SubBytes_inv _ H4)).
  rewrite ark_ark by (done || lia). apply (MixColumns_inv _ H2).
Qed.

Lemma InvCipher_Cipher s : block s -> InvCipher ks (Cipher ks s) = s.
Proof.
  intros Hs. unfold InvCipher, Cipher. cbv zeta.
  pose proof (ark_block 0 s ltac:(lia) Hs) as H0.
  pose proof (enc_rounds_block ks Hks Hkl 9 1 _ H0 ltac:(lia)) as H1.
  destruct (fwd_sub_bytes_st _ H1) as [_ H2]. destruct (fwd_shift_rows_st _ H2) as [_ H3].
  rewrite (ark_ark 10) by (done || lia). rewrite dec_enc_rounds by (done || lia).
  by apply ark_ark; [lia|].
Qed.

Lemma enc_dec_rounds n s :
  block s -> (n <= 9)%nat ->
  foldl (enc_round ks) (InvSubBytes (InvShiftRows (foldl (dec_round ks) s (reverse (seq 1 n)))))
    (seq 1 n) = InvSubBytes (InvShiftRows s).
Proof.
  revert s. induction n as [|n IH]; intros s Hs Hn; [done|].
  rewrite seq_S, reverse_app, foldl_app. cbn [reverse rev_append app foldl].
  destruct (inv_shift_rows_st s Hs) as [_ H1]. destruct (inv_sub_bytes_st _ H1) as [_ H2].
  change (1 + n)%nat with (S n).
  pose proof (ark_block (S n) _ ltac:(lia) H2) as H3. destruct (inv_mix_columns_st _ H3) as [_ H4].
  rewrite IH by (done || lia). unfold enc_round, dec_round.
  destruct (inv_shift_rows_st _ H4) as [_ H5].
  rewrite (proj2 (SubBytes_inv _ H5)), (proj2 (ShiftRows_inv _ H4)), (proj2 (MixColumns_inv _ H3)).
  apply ark_ark; [lia|done].
Qed.

Lemma Cipher_InvCipher s : block s -> Cipher ks (InvCipher ks s) = s.
Proof.
  intros Hs. unfold InvCipher, Cipher. cbv zeta.
  pose proof (ark_block 10 s ltac:(lia) Hs) as H0.
  assert (block (foldl (dec_round ks) (AddRoundKey (round_key ks 10) s) (reverse (seq 1 9)))) as H1
    by exact (proj2 (dec_rounds_st ks Hks Hkl 9 _ H0 ltac:(lia))).
  destruct (inv_shift_rows_st _ H1) as [_ H2]. destruct (inv_sub_bytes_st _ H2) as [_ H3].
  rewrite (ark_ark 0) by (done || lia). rewrite enc_dec_rounds by (done || lia).
  destruct (inv_shift_rows_st _ H0) as [_ H4].
  rewrite (proj2 (SubBytes_inv _ H4)), (proj2 (ShiftRows_inv _ H0)).
  by apply ark_ark; [lia|].
Qed.
End inversion.

(** ** Theorems *)


(** The key and the plaintext of FIPS 197, appendix C.1. *)
Definition key_c1 : list Z := seqZ 0 16.
Definition plain_c1 : list Z := (Z.mul 17) <$> seqZ 0 16.
Definition cipher_c1 : list Z :=
  [105; 196; 224; 216; 106; 123; 4; 48; 216; 205; 183; 128; 112; 180; 197; 90].

Lemma block_c1 : block key_c1 /\ block plain_c1.
Proof. split; split; try done; by repeat constructor. Qed.


(** C21. Decryption inverts encryption and encryption inverts decryption, for
    any key and any block, with one context used for both. *)
Theorem aes128_inverse ctx key blk :
  length (ae_W ctx) = 44%nat -> length (ae_S ctx) = 4%nat -> block key -> block blk ->
  exists ctx1, aes128_init ctx key = Some ctx1 /\
    (exists ctx2 ctx3 c, aes128_encrypt ctx1 blk = Some (ctx2, c) /\
      aes128_decrypt ctx2 c = Some (ctx3, blk)) /\
    (exists ctx2 ctx3 p, aes128_decrypt ctx1 blk = Some (ctx2, p) /\
      aes128_encrypt ctx2 p = Some (ctx3, blk)).
Proof.
  intros HW HS Hk Hb. destruct (aes128_init_spec ctx key HW HS Hk) as (ctx1 & H1 & Hk1).
  destruct (KeyExpansion_ok key Hk) as [Hks Hkl].
  exists ctx1. split; [exact H1|]. split.
  - destruct (aes128_encrypt_st ctx1 key blk Hk Hk1 Hb) as (ctx2 & H2 & Hk2 & Hb2).
    destruct (aes128_decrypt_st ctx2 key _ Hk Hk2 Hb2) as (ctx3 & H3 & _ & _).
    rewrite InvCipher_Cipher in H3 by (exact Hks || exact Hkl || exact Hb).
    exists ctx2, ctx3. eexists. split; [exact H2|exact H3].
  - destruct (aes128_decrypt_st ctx1 key blk Hk Hk1 Hb) as (ctx2 & H2 & Hk2 & Hb2).
    destruct (aes128_encrypt_st ctx2 key _ Hk Hk2 Hb2) as (ctx3 & H3 & _ & _).
    rewrite Cipher_InvCipher in H3 by (exact Hks || exact Hkl || exact Hb).
    exists ctx2, ctx3. eexists. split; [exact H2|exact H3].
Qed.

Lemma aes128_inverse_witness :
  exists ctx1, aes128_init (Aes128 (repeat 7 44) (repeat 7 4)) key_c1 = Some ctx1 /\
    exists ctx2 ctx3 c, aes128_encrypt ctx1 plain_c1 = Some (ctx2, c) /\
      aes128_decrypt ctx2 c = Some (ctx3, plain_c1).
Proof.
  destruct (aes128_inverse (Aes128 (repeat 7 44) (repeat 7 4)) key_c1 plain_c1)
    as (ctx1 & H1 & H2 & _); [done|done|apply block_c1|apply block_c1|].
  exists ctx1. split; [exact H1|exact H2].
Defined.
