(* ===== verification/Keywrap.v ===== *)
(** * AES key wrap: RFC 3394, and that the code meets it

    The standard's state is a 64-bit register [A] and [n] 64-bit blocks; the
    code keeps both in the buffer. *)
From S2P Require Import Prelude Arr Sha ShaSpec Md Aes AesSpec.
Import Aes.

#[local] Strategy opaque [KeyExpansion Cipher InvCipher].

(** ** RFC 3394, index based (section 2.2) *)

Section rfc.
Context (ks : list (list Z)) (n : nat).

Definition wrap_step (s : list Z * list (list Z)) (ji : nat * nat) : list Z * list (list Z) :=
  let '(A, R) := s in let '(j, i) := ji in
  let B := Cipher ks (A ++ nth (i - 1) R []) in
  (zip_with Z.lxor (take 8 B) (be_bytes 8 (Z.of_nat (n * j + i))), <[(i - 1)%nat := drop 8 B]> R).

Definition unwrap_step (s : list Z * list (list Z)) (ji : nat * nat) : list Z * list (list Z) :=
  let '(A, R) := s in let '(j, i) := ji in
  let A := zip_with Z.lxor A (be_bytes 8 (Z.of_nat (n * j + i))) in
  let B := InvCipher ks (A ++ nth (i - 1) R []) in
  (take 8 B, <[(i - 1)%nat := drop 8 B]> R).

(** One pass over the blocks, and the six passes. *)
Definition pass (j : nat) : list (nat * nat) := (fun i => (j, i)) <$> seq 1 n.
Definition steps : list (nat * nat) := concat (pass <$> seq 0 6).

Definition rfc_wrap (s : list Z * list (list Z)) := foldl wrap_step s steps.
Definition rfc_unwrap (s : list Z * list (list Z)) := foldl unwrap_step s (reverse steps).
End rfc.

(** The state in a buffer, followed by bytes the operation leaves alone. *)
Definition state_ok (s : list Z * list (list Z)) : Prop :=
  length s.1 = 8%nat /\ bytes s.1 /\ Forall (fun b => length b = 8%nat /\ bytes b) s.2.
Definition layout (s : list Z * list (list Z)) (tl : list Z) : list Z := s.1 ++ concat s.2 ++ tl.

(** ** Little-endian words *)

Lemma le_bytes_lxor k v w :
  le_bytes k (Z.lxor v w) = zip_with Z.lxor (le_bytes k v) (le_bytes k w).
Proof.
  revert v w. induction k as [|k IH]; intros v w; [done|]. cbn [le_bytes zip_with]. f_equal.
  - change 256 with (2 ^ 8). apply Z.bits_inj'. intros i Hi. rewrite Z.lxor_spec.
    destruct (decide (i < 8)).
    + by rewrite !Z.mod_pow2_bits_low, Z.lxor_spec by lia.
    + by rewrite !Z.mod_pow2_bits_high by lia.
  - change 256 with (2 ^ 8). rewrite <- !Z.shiftr_div_pow2, Z.shiftr_lxor by lia. apply IH.
Qed.

Lemma wrapmask_bytes t : 0 <= t < 2 ^ 32 -> le_bytes 8 (wrapmask t) = be_bytes 8 t.
Proof.
  intros Ht. unfold wrapmask, htonl, uwrap. rewrite le_bytes_mod by lia.
  rewrite (Z.mod_small t) by lia. rewrite (le_bytes_app 4 4), be_bytes_8, <- (le_bytes_swabl t).
  rewrite Z.shiftl_mul_pow2 by lia. change (256 ^ Z.of_nat 4) with (2 ^ 32).
  rewrite Z.div_mul by lia. rewrite (Z.div_small t) by lia. f_equal.
  rewrite <- (le_bytes_mod 4 _ 32), Z.mod_mul by lia. done.
Qed.

(** ** The buffer *)

Lemma length_concat8 (R : list (list Z)) :
  Forall (fun b => length b = 8%nat /\ bytes b) R -> length (concat R) = (8 * length R)%nat.
Proof.
  induction 1 as [|b R [Hb _] _ IH]; [done|]. simpl. rewrite length_app. lia.
Qed.

Lemma nth_ok (R : list (list Z)) i :
  Forall (fun b => length b = 8%nat /\ bytes b) R -> (i < length R)%nat ->
  length (nth i R []) = 8%nat /\ bytes (nth i R []).
Proof.
  intros HR Hi. destruct (lookup_lt_is_Some_2 R i Hi) as [b Hb].
  rewrite (nth_lookup_Some _ _ _ _ Hb). exact (proj1 (Forall_lookup _ _) HR _ _ Hb).
Qed.

Lemma layout_split s tl i :
  state_ok s -> (i < length s.2)%nat ->
  exists pre post, layout s tl = pre ++ nth i s.2 [] ++ post /\ zlen pre = 8 * (Z.of_nat i + 1) /\
    forall b, layout (s.1, <[i := b]> s.2) tl = pre ++ b ++ post.
Proof.
  intros (HA & _ & HR) Hi. destruct s as [A R]. cbn [fst snd] in *.
  destruct (lookup_lt_is_Some_2 R i Hi) as [x Hx].
  exists (A ++ concat (take i R)), (concat (drop (S i) R) ++ tl).
  rewrite (nth_lookup_Some _ _ _ _ Hx). unfold layout. cbn [fst snd]. split; [|split].
  - rewrite <- (take_drop_middle R i x Hx) at 1. rewrite concat_app. cbn [concat].
    by rewrite <- !app_assoc.
  - rewrite length_app, length_concat8 by (by apply Forall_take). rewrite length_take. lia.
  - intros b. rewrite insert_take_drop by done. rewrite concat_app. cbn [concat].
    by rewrite <- !app_assoc.
Qed.

Lemma layout_read s tl i :
  state_ok s -> (1 <= i <= length s.2)%nat ->
  aread (layout s tl) (8 * Z.of_nat i) 8 = Some (nth (i - 1) s.2 []).
Proof.
  intros Hs Hi. destruct (layout_split s tl (i - 1) Hs) as (pre & post & -> & Hp & _); [lia|].
  destruct (nth_ok s.2 (i - 1) (proj2 (proj2 Hs))) as [Hl _]; [lia|].
  rewrite aread_Some by (rewrite ?length_app; lia).
  replace (Z.to_nat (8 * Z.of_nat i)) with (length pre) by lia.
  rewrite drop_app_length, take_app_le, take_ge by lia. done.
Qed.

Lemma layout_write s tl i b :
  state_ok s -> (1 <= i <= length s.2)%nat -> length b = 8%nat ->
  awrite (layout s tl) (8 * Z.of_nat i) b = Some (layout (s.1, <[(i - 1)%nat := b]> s.2) tl).
Proof.
  intros Hs Hi Hb. destruct (layout_split s tl (i - 1) Hs) as (pre & post & -> & Hp & ->); [lia|].
  destruct (nth_ok s.2 (i - 1) (proj2 (proj2 Hs))) as [Hl _]; [lia|].
  apply awrite_parts; lia.
Qed.

Lemma layout_read0 s tl : state_ok s -> aread (layout s tl) 0 8 = Some s.1.
Proof.
  intros (HA & _). unfold layout. rewrite aread_Some by (rewrite ?length_app; lia).
  change (Z.to_nat 0) with 0%nat. change (Z.to_nat 8) with 8%nat. rewrite drop_0.
  rewrite take_app_le, take_ge by lia. done.
Qed.

Lemma layout_write0 s tl A : state_ok s -> length A = 8%nat ->
  awrite (layout s tl) 0 A = Some (layout (A, s.2) tl).
Proof.
  intros (HA & _) Hl. unfold layout. cbn [fst snd].
  apply (awrite_parts [] s.1 A (concat s.2 ++ tl)); [done|lia].
Qed.

(** [R[0] ^= wrapmask(t)] *)
Lemma layout_mask s tl t :
  state_ok s -> 0 <= t < 2 ^ 32 ->
  (v ← get64 (layout s tl) 0; put64 (layout s tl) 0 (Z.lxor v (wrapmask t))) =
    Some (layout (zip_with Z.lxor s.1 (be_bytes 8 t), s.2) tl).
Proof.
  intros Hs Ht. unfold get64. rewrite layout_read0 by done. simpl fmap. rewrite Some_bind.
  unfold put64. rewrite le_bytes_lxor, wrapmask_bytes by done.
  destruct Hs as (HA & HAb & HR). rewrite <- HA, le_bytes_value at 1 by done.
  apply layout_write0; [done|]. rewrite length_zip_with, length_be_bytes. lia.
Qed.

Lemma zip_lxor_ok A B :
  length A = 8%nat -> length B = 8%nat -> bytes A -> bytes B ->
  length (zip_with Z.lxor A B) = 8%nat /\ bytes (zip_with Z.lxor A B).
Proof.
  intros HA HB Hab Hbb. split; [rewrite length_zip_with; lia|]. clear HA HB.
  revert B Hbb. induction Hab as [|a A Ha _ IH]; intros B Hbb; [constructor|].
  destruct Hbb as [|b B Hb Hbb]; [constructor|]. constructor; [by apply lxor_byte|auto].
Qed.

Lemma block_halves B :
  block B -> (length (take 8 B) = 8%nat /\ bytes (take 8 B)) /\
    (length (drop 8 B) = 8%nat /\ bytes (drop 8 B)).
Proof.
  intros [Hl Hb]. split; (split; [rewrite ?length_take, ?length_drop; lia|]).
  - by apply Forall_take.
  - by apply Forall_drop.
Qed.

Lemma state_update A R b i :
  length A = 8%nat -> bytes A -> length b = 8%nat -> bytes b ->
  Forall (fun b => length b = 8%nat /\ bytes b) R -> state_ok (A, <[i := b]> R).
Proof.
  intros HA HAb Hb Hbb HR. split; [done|]. split; [done|]. cbn [snd].
  apply Forall_insert; done.
Qed.

Lemma block_app A B :
  length A = 8%nat -> bytes A -> length B = 8%nat /\ bytes B -> block (A ++ B).
Proof. intros HA HAb [HB HBb]. split; [rewrite length_app; lia|by apply Forall_app]. Qed.

(** ** The loops *)

Section loops.
Context `{HL : !Locals} (key : list Z) (Hkey : block key) (n : nat) (Hn : Z.of_nat n < 2 ^ 28).
#[local] Abbreviation ks := (KeyExpansion key).

(** The two halves copied into the local block. *)
Lemma copy_low (B a : list Z) :
  length B = 16%nat -> length a = 8%nat -> awrite B 0 a = Some (a ++ drop 8 B).
Proof.
  intros HB Ha. rewrite <- (take_drop 8 B) at 1.
  by rewrite (awrite_parts [] (take 8 B) a (drop 8 B)) by (rewrite ?length_take; done || lia).
Qed.

Lemma copy_high (B a b : list Z) :
  length B = 16%nat -> length a = 8%nat -> length b = 8%nat ->
  awrite (a ++ drop 8 B) 8 b = Some (a ++ b).
Proof.
  intros HB Ha Hb. rewrite <- (app_nil_r (drop 8 B)).
  rewrite (awrite_parts a (drop 8 B) b []) by (rewrite ?length_drop; lia).
  by rewrite app_nil_r.
Qed.

Lemma read_halves (B : list Z) :
  length B = 16%nat -> aread B 0 8 = Some (take 8 B) /\ aread B 8 8 = Some (drop 8 B).
Proof.
  intros HB. split; rewrite aread_Some by lia; f_equal.
  change (Z.to_nat 8) with 8%nat. apply take_ge. rewrite length_drop. lia.
Qed.

Lemma step_number j i : (j <= 5)%nat -> (1 <= i <= n)%nat ->
  s32 (u64 (Z.of_nat n * Z.of_nat j + Z.of_nat i)) = Z.of_nat (n * j + i) /\
  0 <= Z.of_nat (n * j + i) < 2 ^ 32.
Proof.
  intros Hj Hi. assert (0 <= Z.of_nat n * Z.of_nat j + Z.of_nat i < 2 ^ 31) as H by nia.
  rewrite uwrap_small, s32_small by lia. split; lia.
Qed.

Lemma bind_bind {A B C} (o : option A) (f : A -> option B) (g : B -> option C) y :
  (x ← o; f x) = Some y -> (x ← o; z ← f x; g z) = g y.
Proof. destruct o; simpl; [by intros ->|done]. Qed.

Lemma wrap_inner_spec fuel ae s tl B j i :
  keyed ae key -> state_ok s -> length s.2 = n -> length B = 16%nat -> (j <= 5)%nat ->
  (1 <= i)%nat -> (i + fuel = n + 1)%nat ->
  let s' := foldl (wrap_step ks n) s ((fun i => (j, i)) <$> seq i fuel) in
  exists ae' B', wrap_inner fuel ae (layout s tl) B (Z.of_nat n) (Z.of_nat j) (Z.of_nat i) =
      Some (ae', layout s' tl, B') /\
    keyed ae' key /\ length B' = 16%nat /\ state_ok s' /\ length s'.2 = n.
Proof.
  revert ae s B i. induction fuel as [|fuel IH]; intros ae s B i Hae Hs Hsl HB Hj Hi Hf; cbv zeta.
  { cbn [wrap_inner]. rewrite (proj2 (Z.leb_gt _ _)) by lia.
    exists ae, B. split; [exact eq_refl|]. split; [exact Hae|]. split; [exact HB|].
    split; [exact Hs|exact Hsl]. }
  cbn [wrap_inner seq fmap list_fmap foldl]. rewrite (proj2 (Z.leb_le _ _)) by lia.
  destruct s as [A R]. pose proof Hs as (HA & HAb & HR). cbn [fst snd] in *.
  destruct (nth_ok R (i - 1) HR) as [Hil Hib]; [lia|].
  rewrite layout_read0, Some_bind by done. cbn [fst].
  rewrite copy_low, Some_bind by done. rewrite layout_read, Some_bind by (done || (simpl; lia)).
  cbn [snd]. rewrite copy_high, Some_bind by done.
  destruct (aes128_encrypt_st ae key (A ++ nth (i - 1) R []) Hkey Hae) as (ae1 & -> & Hae1 & HC);
    [by apply block_app|]. rewrite Some_bind.
  set (C := Cipher ks (A ++ nth (i - 1) R [])) in *.
  destruct (read_halves C (proj1 HC)) as [Hr0 Hr8].
  destruct (block_halves C HC) as [[H1 H2] [H3 H4]].
  rewrite Hr0, Some_bind. rewrite layout_write0, Some_bind by done. cbn [snd].
  rewrite Hr8, Some_bind.
  assert (state_ok (take 8 C, R)) as Hs1 by done.
  rewrite layout_write, Some_bind by (done || (simpl; lia)). cbn [fst snd].
  destruct (step_number j i Hj ltac:(lia)) as [Ht Htr]. rewrite Ht.
  assert (state_ok (take 8 C, <[(i - 1)%nat := drop 8 C]> R)) as Hs2 by (by apply state_update).
  rewrite (bind_bind _ _ _ _ (layout_mask _ tl _ Hs2 Htr)). cbn [fst snd].
  destruct (zip_lxor_ok (take 8 C) (be_bytes 8 (Z.of_nat (n * j + i)))) as [H5 H6];
    [exact H1|apply length_be_bytes|exact H2|apply bytes_be_bytes|].
  rewrite u32_small by lia. replace (Z.of_nat i + 1) with (Z.of_nat (S i)) by lia.
  apply (IH ae1 (_, _) C (S i)); try done; try lia.
  - by apply state_update.
  - cbn [snd]. by rewrite length_insert.
  - apply HC.
Qed.

Lemma unwrap_inner_spec fuel ae s tl B j i :
  keyed ae key -> state_ok s -> length s.2 = n -> length B = 16%nat -> (j <= 5)%nat ->
  (i <= n)%nat -> (i <= fuel)%nat ->
  let s' := foldl (unwrap_step ks n) s (reverse ((fun i => (j, i)) <$> seq 1 i)) in
  exists ae' B', unwrap_inner fuel ae (layout s tl) B (Z.of_nat n) (Z.of_nat j) (Z.of_nat i) =
      Some (ae', layout s' tl, B') /\
    keyed ae' key /\ length B' = 16%nat /\ state_ok s' /\ length s'.2 = n.
Proof.
  revert ae s B i. induction fuel as [|fuel IH]; intros ae s B i Hae Hs Hsl HB Hj Hi Hf; cbv zeta;
    cbn [unwrap_inner]; (destruct i as [|i];
      [exists ae, B; rewrite (proj2 (Z.leb_gt _ _)) by lia;
       split; [exact eq_refl|]; split; [exact Hae|]; split; [exact HB|];
       split; [exact Hs|exact Hsl]|]); [lia|].
  rewrite (proj2 (Z.leb_le _ _)) by lia.
  rewrite seq_S, fmap_app, reverse_app. change (1 + i)%nat with (S i).
  cbn [fmap list_fmap reverse rev_append app foldl].
  destruct s as [A R]. pose proof Hs as (HA & HAb & HR). cbn [fst snd] in *.
  destruct (step_number j (S i) Hj ltac:(lia)) as [Ht Htr]. rewrite Ht.
  rewrite (bind_bind _ _ _ _ (layout_mask _ tl _ Hs Htr)). cbn [fst snd].
  destruct (zip_lxor_ok A (be_bytes 8 (Z.of_nat (n * j + S i)))) as [H5 H6];
    [exact HA|apply length_be_bytes|exact HAb|apply bytes_be_bytes|].
  set (A' := zip_with Z.lxor A _) in *.
  assert (state_ok (A', R)) as Hs1 by done.
  destruct (nth_ok R (S i - 1) HR) as [Hil Hib]; [lia|].
  rewrite layout_read0, Some_bind by done. cbn [fst].
  rewrite copy_low, Some_bind by done. rewrite layout_read, Some_bind by (done || (simpl; lia)).
  cbn [snd]. rewrite copy_high, Some_bind by done.
  destruct (aes128_decrypt_st ae key (A' ++ nth (S i - 1) R []) Hkey Hae) as (ae1 & -> & Hae1 & HC);
    [by apply block_app|]. rewrite Some_bind.
  set (C := InvCipher ks (A' ++ nth (S i - 1) R [])) in *.
  destruct (read_halves C (proj1 HC)) as [Hr0 Hr8].
  destruct (block_halves C HC) as [[H1 H2] [H3 H4]].
  rewrite Hr0, Some_bind. rewrite layout_write0, Some_bind by done. cbn [snd].
  rewrite Hr8, Some_bind.
  assert (state_ok (take 8 C, R)) as Hs2 by done.
  rewrite layout_write, Some_bind by (done || (simpl; lia)). cbn [fst snd].
  replace (Z.of_nat (S i) - 1) with (Z.of_nat i) by lia.
  apply (IH ae1 (_, _) C i); try done; try lia.
  - by apply state_update.
  - cbn [snd]. by rewrite length_insert.
  - apply HC.
Qed.

Lemma wrap_outer_spec k ae s tl B j :
  keyed ae key -> state_ok s -> length s.2 = n -> length B = 16%nat -> (j + k <= 6)%nat ->
  let s' := foldl (wrap_step ks n) s (concat (pass n <$> seq j k)) in
  exists ae' B', wrap_outer k ae (layout s tl) B (Z.of_nat n) (Z.of_nat j) =
      Some (ae', layout s' tl, B') /\
    keyed ae' key /\ length B' = 16%nat /\ state_ok s' /\ length s'.2 = n.
Proof.
  revert ae s B j. induction k as [|k IH]; intros ae s B j Hae Hs Hsl HB Hj; cbv zeta.
  { exists ae, B. split; [exact eq_refl|]. split; [exact Hae|]. split; [exact HB|].
    split; [exact Hs|exact Hsl]. }
  cbn [wrap_outer seq]. rewrite fmap_cons. cbn [concat]. rewrite foldl_app. rewrite Nat2Z.id.
  destruct (wrap_inner_spec n ae s tl B j 1 Hae Hs Hsl HB) as (ae1 & B1 & H1 & Hae1 & HB1 & Hs1 & Hl1);
    [lia|lia|lia|]. change (Z.of_nat 1) with 1 in H1. rewrite H1, Some_bind.
  replace (Z.of_nat j + 1) with (Z.of_nat (S j)) by lia.
  apply IH; [exact Hae1|exact Hs1|exact Hl1|exact HB1|lia].
Qed.

Lemma unwrap_outer_spec k ae s tl B :
  keyed ae key -> state_ok s -> length s.2 = n -> length B = 16%nat -> (k <= 6)%nat ->
  let s' := foldl (unwrap_step ks n) s (reverse (concat (pass n <$> seq 0 k))) in
  exists ae' B', unwrap_outer k ae (layout s tl) B (Z.of_nat n) =
      Some (ae', layout s' tl, B') /\
    keyed ae' key /\ length B' = 16%nat /\ state_ok s' /\ length s'.2 = n.
Proof.
  revert ae s B. induction k as [|k IH]; intros ae s B Hae Hs Hsl HB Hj; cbv zeta.
  { exists ae, B. split; [exact eq_refl|]. split; [exact Hae|]. split; [exact HB|].
    split; [exact Hs|exact Hsl]. }
  cbn [unwrap_outer]. rewrite seq_S, fmap_app, concat_app, reverse_app, foldl_app. rewrite Nat2Z.id.
  rewrite s32_small by lia.
  destruct (unwrap_inner_spec n ae s tl B k n Hae Hs Hsl HB) as (ae1 & B1 & H1 & Hae1 & HB1 & Hs1 & Hl1);
    [lia|lia|lia|]. rewrite H1, Some_bind.
  cbn [Nat.add]. change (pass n <$> [k]) with [pass n k]. cbn [concat]. rewrite app_nil_r.
  apply IH; [exact Hae1|exact Hs1|exact Hl1|exact HB1|lia].
Qed.

(** ** Inversion *)

Lemma unwrap_wrap_step s j i :
  state_ok s -> length s.2 = n -> (1 <= i <= n)%nat ->
  unwrap_step ks n (wrap_step ks n s (j, i)) (j, i) = s /\
  state_ok (wrap_step ks n s (j, i)) /\ length (wrap_step ks n s (j, i)).2 = n.
Proof.
  intros Hs Hl Hi. destruct s as [A R]. pose proof Hs as (HA & HAb & HR). cbn [fst snd] in *.
  destruct (KeyExpansion_ok key Hkey) as [Hks Hkl].
  destruct (nth_ok R (i - 1) HR) as [Hil Hib]; [lia|].
  assert (block (A ++ nth (i - 1) R [])) as Hb by (by apply block_app).
  assert (keyed (Aes128 (be_value <$> ks) (st (repeat 0 16))) key) as Hkd.
  { split; [cbn [ae_W]; exact eq_refl|done]. }
  destruct (aes128_encrypt_st _ key _ Hkey Hkd Hb) as (_ & _ & _ & HC).
  unfold wrap_step, unwrap_step. pose proof (InvCipher_Cipher ks Hks Hkl _ Hb) as Hinv.
  set (C := Cipher ks (A ++ nth (i - 1) R [])) in *.
  destruct (block_halves C HC) as [[H1 H2] [H3 H4]].
  destruct (zip_lxor_ok (take 8 C) (be_bytes 8 (Z.of_nat (n * j + i)))) as [H5 H6];
    [exact H1|apply length_be_bytes|exact H2|apply bytes_be_bytes|].
  split; [|split; [by apply state_update|cbn [snd]; by rewrite length_insert]].
  pose proof (AddRoundKey_inv (be_bytes 8 (Z.of_nat (n * j + i))) (take 8 C)) as Hz.
  unfold AddRoundKey in Hz. rewrite Hz by (rewrite length_be_bytes; lia).
  assert (nth (i - 1) (<[(i - 1)%nat := drop 8 C]> R) [] = drop 8 C) as ->.
  { apply nth_lookup_Some. apply list_lookup_insert_eq. lia. }
  rewrite take_drop, Hinv, list_insert_insert_eq.
  rewrite take_app_le, take_ge, drop_app_ge by lia. rewrite HA. change (8 - 8)%nat with 0%nat.
  rewrite drop_0. f_equal. apply list_insert_id. destruct (lookup_lt_is_Some_2 R (i - 1)) as [x Hx]; [lia|].
  by rewrite (nth_lookup_Some _ _ _ _ Hx).
Qed.

Lemma unwrap_wrap_steps l s :
  state_ok s -> length s.2 = n -> Forall (fun ji => (1 <= ji.2 <= n)%nat) l ->
  foldl (unwrap_step ks n) (foldl (wrap_step ks n) s l) (reverse l) = s.
Proof.
  intros Hs Hl HF. revert s Hs Hl. induction HF as [|[j i] l Hi HF IH]; intros s Hs Hl; [done|].
  cbn [foldl]. rewrite reverse_cons, foldl_app. cbn [foldl].
  destruct (unwrap_wrap_step s j i Hs Hl Hi) as (Hu & Hs1 & Hl1).
  rewrite IH; [exact Hu|exact Hs1|exact Hl1].
Qed.

Lemma steps_range : Forall (fun ji => (1 <= ji.2 <= n)%nat) (steps n).
Proof.
  unfold steps. apply Forall_concat, Forall_fmap, Forall_forall. intros j _. simpl.
  unfold pass. apply Forall_fmap, Forall_forall. intros i Hi. apply elem_of_seq in Hi. simpl. lia.
Qed.
End loops.

(** ** Theorems *)

(** The state of the standard in a buffer. *)
Definition split8 (n : nat) (buf : list Z) : list Z * list (list Z) :=
  (take 8 buf, (fun i => take 8 (drop (8 * i) buf)) <$> seq 1 n).

Lemma concat_split8 n k (buf : list Z) :
  (8 * (k + n) <= length buf)%nat ->
  concat ((fun i => take 8 (drop (8 * i) buf)) <$> seq k n) = take (8 * n) (drop (8 * k) buf).
Proof.
  revert k. induction n as [|n IH]; intros k Hl; [done|].
  rewrite seq_S, fmap_app, concat_app, IH by lia. cbn [fmap list_fmap concat]. rewrite app_nil_r.
  replace (8 * S n)%nat with (8 * n + 8)%nat by lia.
  replace (8 * (k + n))%nat with (8 * k + 8 * n)%nat by lia.
  rewrite <- drop_drop. by rewrite take_take_drop.
Qed.

Lemma layout_split8 n buf :
  (8 * (1 + n) <= length buf)%nat -> layout (split8 n buf) (drop (8 * (1 + n)) buf) = buf.
Proof.
  intros Hl. unfold layout, split8. cbn [fst snd]. rewrite concat_split8 by lia.
  replace (8 * (1 + n))%nat with (8 + 8 * n)%nat by lia. rewrite <- drop_drop.
  by rewrite !take_drop.
Qed.

Lemma split8_ok n buf :
  bytes buf -> (8 * (1 + n) <= length buf)%nat ->
  state_ok (split8 n buf) /\ length (split8 n buf).2 = n.
Proof.
  intros Hb Hl. split; [|unfold split8; cbn [snd]; by rewrite length_fmap, length_seq].
  split; [|split]; unfold split8; cbn [fst snd].
  - rewrite length_take. lia.
  - by apply Forall_take.
  - apply Forall_fmap, Forall_forall. intros i Hi. apply elem_of_seq in Hi. simpl.
    split; [rewrite length_take, length_drop; lia|]. by apply Forall_take, Forall_drop.
Qed.

(** The context after [aes128_fini]. *)
Definition wiped : aes128 := Aes128 (repeat 0 44) (repeat 0 4).

Lemma keyed_wiped ae key : block key -> keyed ae key -> aes128_fini ae = wiped.
Proof.
  intros Hk [HW HS]. destruct (KeyExpansion_ok key Hk) as [_ Hl].
  unfold aes128_fini, wiped. by rewrite HW, HS, length_fmap, Hl.
Qed.

Lemma layout_bytes s tl :
  state_ok s -> bytes tl -> bytes (layout s tl) /\ length (layout s tl) = (8 + 8 * length s.2 + length tl)%nat.
Proof.
  intros (HA & HAb & HR) Ht. unfold layout. split.
  - apply Forall_app_2; [done|]. apply Forall_app_2; [|done]. apply Forall_concat.
    eapply Forall_impl; [exact HR|]. by intros x [_ ?].
  - rewrite !length_app, length_concat8 by done. lia.
Qed.

Section keywrap.
Context `{HL : !Locals} (key buf : list Z) (len : Z).
Context (Hk : block key) (Hb : bytes buf) (Hl : 8 <= len <= zlen buf) (H31 : len < 2 ^ 31).
Let n := Z.to_nat (len / 8 - 1).

(** The wrap of the standard on the words of the first [len] bytes, its
    inverse, and the bytes after them. *)
Definition kw_wrap : list Z * list (list Z) := rfc_wrap (KeyExpansion key) n (split8 n buf).
Definition kw_unwrap : list Z * list (list Z) := rfc_unwrap (KeyExpansion key) n (split8 n buf).
Definition kw_rest : list Z := drop (8 * (1 + n)) buf.

Lemma kw_count :
  u64 (len / 8 - 1) = Z.of_nat n /\ (8 * (1 + n) <= length buf)%nat /\ Z.of_nat n < 2 ^ 28.
Proof using Hl H31.
  assert (u64 (len / 8 - 1) = Z.of_nat n) as Hn.
  { rewrite uwrap_small by (Z.to_euclidean_division_equations; lia).
    unfold n. rewrite Z2Nat.id; [done|]. Z.to_euclidean_division_equations. lia. }
  split; [exact Hn|]. split.
  - apply Nat2Z.inj_le. unfold n. pose proof (Z.mul_div_le len 8 ltac:(lia)).
    pose proof (Z.div_le_lower_bound len 8 1 ltac:(lia) ltac:(lia)). lia.
  - rewrite <- Hn, uwrap_small by (Z.to_euclidean_division_equations; lia).
    Z.to_euclidean_division_equations. lia.
Qed.

Lemma aes128_wrap_spec :
  aes128_wrap key buf len = Some (wiped, layout kw_wrap kw_rest) /\
  state_ok kw_wrap /\ length kw_wrap.2 = n.
Proof using Hk Hb Hl H31.
  destruct kw_count as (Hn & Hlen & H28). destruct (split8_ok n buf Hb Hlen) as [Hs Hsl].
  destruct (aes128_init_spec (Aes128 (junk 44) (junk 4)) key) as (ae0 & Hi & Hk0);
    [apply junk_length|apply junk_length|done|].
  destruct (wrap_outer_spec key Hk n H28 6 ae0 (split8 n buf) kw_rest (junk 16) 0)
    as (ae1 & B1 & H1 & Hk1 & _ & Hs1 & Hl1);
    [exact Hk0|exact Hs|exact Hsl|apply junk_length|lia|].
  unfold kw_rest in H1 at 1. rewrite layout_split8 in H1 by exact Hlen.
  split; [|split; [exact Hs1|exact Hl1]].
  unfold aes128_wrap. rewrite Hn, Hi, Some_bind. change 0 with (Z.of_nat 0). rewrite H1, Some_bind.
  cbv zeta. rewrite (keyed_wiped ae1 key Hk Hk1). exact eq_refl.
Qed.

Lemma aes128_unwrap_spec :
  aes128_unwrap key buf len = Some (wiped, layout kw_unwrap kw_rest) /\
  state_ok kw_unwrap /\ length kw_unwrap.2 = n.
Proof using Hk Hb Hl H31.
  destruct kw_count as (Hn & Hlen & H28). destruct (split8_ok n buf Hb Hlen) as [Hs Hsl].
  destruct (aes128_init_spec (Aes128 (junk 44) (junk 4)) key) as (ae0 & Hi & Hk0);
    [apply junk_length|apply junk_length|done|].
  destruct (unwrap_outer_spec key Hk n H28 6 ae0 (split8 n buf) kw_rest (junk 16))
    as (ae2 & B2 & H2 & Hk2 & _ & Hs2 & Hl2);
    [exact Hk0|exact Hs|exact Hsl|apply junk_length|lia|].
  unfold kw_rest in H2 at 1. rewrite layout_split8 in H2 by exact Hlen.
  split; [|split; [exact Hs2|exact Hl2]].
  unfold aes128_unwrap. rewrite Hn, Hi, Some_bind, H2, Some_bind.
  cbv zeta. rewrite (keyed_wiped ae2 key Hk Hk2). exact eq_refl.
Qed.
End keywrap.

(** The words of a state that is laid out. *)
Lemma split8_layout n s tl :
  state_ok s -> length s.2 = n -> split8 n (layout s tl) = s /\ drop (8 * (1 + n)) (layout s tl) = tl.
Proof.
  intros Hs Hn. pose proof Hs as (HA & _ & HR). split.
  - destruct s as [A R]. unfold split8. cbn [fst snd] in *. f_equal.
    + pose proof (layout_read0 (A, R) tl Hs) as Hr. apply aread_Some_inv in Hr. exact Hr.
    + apply list_eq. intros i. rewrite list_lookup_fmap. destruct (decide (i < n)%nat).
      * rewrite lookup_seq_lt by lia. cbn [fmap option_fmap option_map].
        pose proof (layout_read (A, R) tl (S i) Hs ltac:(simpl; lia)) as Hr.
        apply aread_Some_inv in Hr. replace (Z.to_nat (8 * Z.of_nat (S i))) with (8 * S i)%nat in Hr by lia.
        destruct (lookup_lt_is_Some_2 R i) as [x Hx]; [lia|]. rewrite Hx. f_equal.
        cbn [snd] in Hr. rewrite (nth_lookup_Some _ _ _ x) in Hr by (rewrite <- Hx; f_equal; lia).
        by rewrite <- Hr.
      * rewrite lookup_seq_ge by lia. simpl. symmetry. apply lookup_ge_None. lia.
  - unfold layout. rewrite app_assoc, drop_app_ge; [|rewrite length_app, length_concat8 by done; lia].
    rewrite length_app, length_concat8 by done.
    replace (_ - _)%nat with 0%nat by lia. done.
Qed.

(** Unwrapping what was wrapped. *)
Lemma unwrap_wrapped `{HL : !Locals} key buf len :
  block key -> bytes buf -> 8 <= len <= zlen buf -> len < 2 ^ 31 ->
  let buf' := layout (kw_wrap key buf len) (kw_rest buf len) in
  bytes buf' /\ length buf' = length buf /\ aes128_unwrap key buf' len = Some (wiped, buf).
Proof.
  intros Hk Hb Hl H31 buf'. set (n := Z.to_nat (len / 8 - 1)).
  destruct (aes128_wrap_spec key buf len Hk Hb Hl H31) as (_ & Hs & Hn).
  destruct (kw_count buf len Hl H31) as (_ & Hlen & H28). fold n in Hn, Hlen, H28.
  destruct (split8_ok n buf Hb Hlen) as [Hs0 Hsl0].
  destruct (layout_bytes (kw_wrap key buf len) (kw_rest buf len) Hs) as [Hbb Hll]; [by apply Forall_drop|].
  assert (length buf' = length buf) as Hlb.
  { unfold buf'. rewrite Hll, Hn. unfold kw_rest. rewrite length_drop. lia. }
  split; [exact Hbb|]. split; [exact Hlb|].
  destruct (aes128_unwrap_spec key buf' len Hk Hbb) as (-> & _); [lia|exact H31|].
  unfold kw_unwrap, kw_rest. fold n.
  destruct (split8_layout n (kw_wrap key buf len) (kw_rest buf len) Hs Hn) as [H1 H2].
  fold buf' in H1, H2. rewrite H1, H2. do 2 f_equal.
  unfold rfc_unwrap, kw_wrap, rfc_wrap, kw_rest. fold n.
  rewrite unwrap_wrap_steps; [by apply layout_split8|exact Hk|exact Hs0|exact Hsl0|apply steps_range].
Qed.

(** C22. [aes128_wrap] is the key wrap of RFC 3394 on the 64-bit words of the
    first [len] bytes, and [aes128_unwrap] restores the buffer from its result;
    bytes past the last whole word do not change, and both leave the local key
    schedule zeroed. *)
Theorem aes128_wrap_unwrap `{HL : !Locals} key buf len :
  block key -> bytes buf -> 8 <= len <= zlen buf -> len < 2 ^ 31 ->
  let n := Z.to_nat (len / 8 - 1) in
  let buf' := layout (rfc_wrap (KeyExpansion key) n (split8 n buf)) (drop (8 * (1 + n)) buf) in
  aes128_wrap key buf len = Some (wiped, buf') /\
  aes128_unwrap key buf' len = Some (wiped, buf).
Proof.
  intros Hk Hb Hl H31 n buf'.
  destruct (aes128_wrap_spec key buf len Hk Hb Hl H31) as (H1 & Hs & Hn).
  split; [exact H1|]. by apply unwrap_wrapped.
Qed.

(** RFC 3394, section 4.1: 128 bits of key data. *)
Definition wrap_in : list Z := repeat 0xA6 8 ++ plain_c1.
Definition wrap_out : list Z :=
  [31; 166; 139; 10; 129; 18; 180; 71; 174; 243; 75; 216; 251; 90; 123; 130;
   157; 62; 134; 35; 113; 210; 207; 229].

Lemma aes128_wrap_unwrap_witness :
  aes128_wrap (H := some_locals) key_c1 wrap_in 24 = Some (wiped, wrap_out) /\
  aes128_unwrap (H := some_locals) key_c1 wrap_out 24 = Some (wiped, wrap_in).
Proof.
  destruct (aes128_wrap_unwrap (HL := some_locals) key_c1 wrap_in 24) as [H1 H2];
    [apply block_c1|by repeat constructor|simpl; lia|lia|].
  assert (layout (rfc_wrap (KeyExpansion key_c1) 2 (split8 2 wrap_in)) (drop 24 wrap_in) = wrap_out)
    as Hv by (by vm_compute).
  change (Z.to_nat (24 / 8 - 1)) with 2%nat in H1, H2. change (8 * (1 + 2))%nat with 24%nat in H1, H2.
  rewrite Hv in H1, H2. split; [exact H1|exact H2].
Defined.
