(* ===== verification/Nlusctl.v ===== *)
(** * lib/nlusctl: the control protocol of the services

    A message is a buffer of bytes: a header (16-bit length and command)
    followed by attributes (16-bit length and key, payload, padding to 4 bytes).
    A pointer into the message is an offset from the start of the buffer; NULL
    is the inner [None], an access outside of the buffer the outer one.  System
    calls are those of an arbitrary kernel. *)
From S2P Require Import Prelude Arr.

(** [lib/nlusctl.h: ucbuf] *)
Record ucbuf := Ucbuf { uc_buf : list Z; uc_len : Z }.

Definition ENOBUFS : Z := 105.
Definition ENAMETOOLONG : Z := 36.
Definition EADDRINUSE : Z := 98.
Definition ECONNREFUSED : Z := 111.
Definition ETIMEDOUT : Z := 110.

(** [lib/nlusctl.h: ucattr] the fields of [struct ucattr] at an offset *)
Definition at_len (buf : list Z) (at_ : Z) : option Z := get16 buf at_.
Definition at_key (buf : list Z) (at_ : Z) : option Z := get16 buf (at_ + 2).
Definition set_len (buf : list Z) (at_ v : Z) : option (list Z) := put16 buf at_ (u16 v).
Definition set_key (buf : list Z) (at_ v : Z) : option (list Z) := put16 buf (at_ + 2) (u16 v).

(** [sizeof(struct ucattr)] *)
Definition hdr_size : Z := 4.

(** [(n + 3) & ~3] *)
Definition align4 (n : Z) : Z := Z.land (n + 3) (Z.lnot 3).

(** ** Packing *)

(** [lib/nlusctl/pack.c: uc_buf_set] *)
Definition uc_buf_set (buf : list Z) (len : Z) : ucbuf := Ucbuf buf len.

(** [lib/nlusctl/pack.c: uc_put_hdr] *)
Definition uc_put_hdr (uc : ucbuf) (cmd : Z) : option ucbuf :=
  b ← set_key (uc_buf uc) 0 cmd;
  b ← set_len b 0 hdr_size;
  Some (Ucbuf b (uc_len uc)).

(** [lib/nlusctl/pack_attr.c: uc_put] *)
Definition uc_put (uc : ucbuf) (key len alloc : Z) : option (ucbuf * option Z) :=
  let buf := uc_buf uc in
  let cap := uc_len uc in
  let full := s32 (hdr_size + alloc) in
  ptr ← at_len buf 0;
  let new := s32 (ptr + full) in
  let over := buf ← set_len buf 0 0; Some (Ucbuf buf cap, None) in
  if ptr =? 0 then Some (uc, None)
  else if cap <? full then over
  else if new <=? 0 then over
  else if 0xFFFF <? new then over
  else if cap <? new then over
  else
    buf ← set_len buf 0 new;
    buf ← set_key buf ptr key;
    buf ← set_len buf ptr (len + hdr_size);
    Some (Ucbuf buf cap, Some ptr).

(** [lib/nlusctl/pack_flag.c: uc_put_flag] *)
Definition uc_put_flag (uc : ucbuf) (key : Z) : option ucbuf :=
  '(uc, _) ← uc_put uc key 0 0; Some uc.

(** [lib/nlusctl/pack_ints.c: uc_put_int] *)
Definition uc_put_int (uc : ucbuf) (key v : Z) : option ucbuf :=
  '(uc, a) ← uc_put uc key 4 4;
  match a with
  | None => Some uc
  | Some a => buf ← put32 (uc_buf uc) (a + 4) (u32 v); Some (Ucbuf buf (uc_len uc))
  end.

(** [lib/nlusctl/pack_ints.c: uc_put_i64] *)
Definition uc_put_i64 (uc : ucbuf) (key v : Z) : option ucbuf :=
  '(uc, a) ← uc_put uc key 8 8;
  match a with
  | None => Some uc
  | Some a => buf ← put64 (uc_buf uc) (a + 4) (u64 v); Some (Ucbuf buf (uc_len uc))
  end.

(** [lib/nlusctl/pack_left.c: uc_space_left] *)
Definition uc_space_left (uc : ucbuf) : option Z :=
  ptr ← at_len (uc_buf uc) 0;
  if ptr =? 0 then Some 0 else Some (uc_len uc - ptr).

(** [lib/nlusctl/pack_long.c: uc_put_bin] *)
Definition uc_put_bin (uc : ucbuf) (key : Z) (src : list Z) (len : Z) : option ucbuf :=
  let alloc := align4 len in
  '(uc, a) ← uc_put uc key len alloc;
  match a with
  | None => Some uc
  | Some a =>
      let dst := a + 4 in
      buf ← (if len <? alloc then put32 (uc_buf uc) (dst + Z.land len (Z.lnot 3)) 0
             else Some (uc_buf uc));
      s ← aread src 0 len;
      buf ← awrite buf dst s;
      Some (Ucbuf buf (uc_len uc))
  end.

(** [lib/string/strnlen.c: strnlen] on an array of bytes *)
Fixpoint strnlen_l (str : list Z) (max : nat) : option Z :=
  match max with
  | O => Some 0
  | S max =>
      match str with
      | [] => None
      | c :: str => if c =? 0 then Some 0 else n ← strnlen_l str max; Some (n + 1)
      end
  end.

(** [lib/nlusctl/pack_long.c: uc_put_str] *)
Definition uc_put_str (uc : ucbuf) (key : Z) (str : list Z) : option ucbuf :=
  let max := 1024 in
  len ← strnlen_l str (Z.to_nat max);
  let len := if len <? max then len + 1 else len in
  uc_put_bin uc key str len.

(** [lib/nlusctl/pack_nest.c: uc_put_nest] *)
Definition uc_put_nest (uc : ucbuf) (key : Z) : option (ucbuf * option Z) := uc_put uc key 0 0.

(** [lib/nlusctl/pack_nest.c: uc_end_nest] *)
Definition uc_end_nest (uc : ucbuf) (a : option Z) : option ucbuf :=
  match a with
  | None => Some uc
  | Some off =>
      if off <? 0 then Some uc
      else if uc_len uc <=? off then Some uc
      else
        ptr ← at_len (uc_buf uc) 0;
        if ptr <=? off then Some uc
        else buf ← set_len (uc_buf uc) off (ptr - off); Some (Ucbuf buf (uc_len uc))
  end.

(** [lib/nlusctl/pack_strn.c: uc_put_strn] *)
Definition uc_put_strn (uc : ucbuf) (key : Z) (src : list Z) (max : Z) : option ucbuf :=
  len ← strnlen_l src (Z.to_nat max);
  let lenz := len + 1 in
  let alloc := align4 lenz in
  '(uc, a) ← uc_put uc key lenz alloc;
  match a with
  | None => Some uc
  | Some a =>
      let dst := a + 4 in
      buf ← (if len <? alloc then put32 (uc_buf uc) (dst + Z.land len (Z.lnot 3)) 0
             else Some (uc_buf uc));
      s ← aread src 0 len;
      buf ← awrite buf dst s;
      buf ← zput buf (dst + len) 0;
      Some (Ucbuf buf (uc_len uc))
  end.

(** [lib/nlusctl/pack_strs.c: uc_put_strs] *)
Definition uc_put_strs (uc : ucbuf) (key : Z) : option (ucbuf * option Z) := uc_put uc key 0 0.

(** [lib/nlusctl/pack_strs.c: uc_add_str] *)
Definition uc_add_str (uc : ucbuf) (str : list Z) : option ucbuf :=
  let buf := uc_buf uc in
  let cap := uc_len uc in
  ptr ← at_len buf 0;
  n ← strnlen_l str 1024;
  let len := n + 1 in
  if cap <? ptr + len then
    buf ← set_len buf 0 0; Some (Ucbuf buf cap)
  else
    s ← aread str 0 len;
    buf ← awrite buf ptr s;
    buf ← set_len buf 0 (ptr + len);
    Some (Ucbuf buf cap).

(** [lib/nlusctl/pack_strs.c: uc_end_strs] *)
Definition uc_end_strs (uc : ucbuf) (a : option Z) : option ucbuf :=
  match a with
  | None => Some uc
  | Some ats =>
      ptr ← at_len (uc_buf uc) 0;
      let len := ptr - ats in
      if len <? hdr_size then Some uc
      else
        buf ← set_len (uc_buf uc) ats len;
        let ptr := align4 ptr in
        buf ← set_len buf 0 (if uc_len uc <? ptr then 0 else ptr);
        Some (Ucbuf buf (uc_len uc))
  end.

(** [lib/nlusctl/pack_tail.c: uc_put_tail] *)
Definition uc_put_tail (uc : ucbuf) (key paylen : Z) : option ucbuf :=
  '(uc, _) ← uc_put uc key paylen 0; Some uc.

(** ** Parsing: [msg] is the offset of the message or of a nest in it *)

(** [lib/nlusctl/attr.c: attr_in] *)
Definition attr_in (buf : list Z) (ptr fin : Z) : option (option Z) :=
  if fin <? ptr + hdr_size then Some None
  else
    len ← at_len buf ptr;
    if fin <? ptr + len then Some None else Some (Some ptr).

(** [lib/nlusctl/attr.c: uc_get_0] *)
Definition uc_get_0 (buf : list Z) (msg : Z) : option (option Z) :=
  len ← at_len buf msg;
  attr_in buf (msg + hdr_size) (msg + len).

(** [lib/nlusctl/attr.c: uc_get_n] *)
Definition uc_get_n (buf : list Z) (msg a : Z) : option (option Z) :=
  mlen ← at_len buf msg;
  len ← at_len buf a;
  if len <=? 0 then Some None
  else
    let ptr := a + align4 len in
    if ptr <? msg then Some None else attr_in buf ptr (msg + mlen).

(** [lib/nlusctl/attr.c: uc_get 52-56] *)
Fixpoint uc_get_loop (fuel : nat) (buf : list Z) (msg : Z) (a : option Z) (key : Z)
    : option (option Z) :=
  match a with
  | None => Some None
  | Some a =>
      match fuel with
      | O => None
      | S fuel =>
          k ← at_key buf a;
          if k =? key then Some (Some a)
          else a' ← uc_get_n buf msg a; uc_get_loop fuel buf msg a' key
      end
  end.

(** [lib/nlusctl/attr.c: uc_get] *)
Definition uc_get (buf : list Z) (msg key : Z) : option (option Z) :=
  a ← uc_get_0 buf msg;
  uc_get_loop (length buf) buf msg a key.

(** [lib/nlusctl/attr.c: uc_is_keyed] *)
Definition uc_is_keyed (buf : list Z) (a key : Z) : option bool :=
  k ← at_key buf a; Some (k =? key).

(** [lib/nlusctl/attr.c: uc_payload] *)
Definition uc_payload (a : Z) : Z := a + hdr_size.

(** [lib/nlusctl/attr.c: uc_paylen] *)
Definition uc_paylen (buf : list Z) (a : Z) : option Z :=
  len ← at_len buf a; Some (len - hdr_size).

(** [lib/nlusctl/attr_code.c: uc_repcode] *)
Definition uc_repcode (buf : list Z) (msg : Z) : option Z :=
  k ← at_key buf msg; Some (s16 k).

(** [lib/nlusctl/attr_ints.c: uc_is_bin] *)
Definition uc_is_bin (buf : list Z) (a : option Z) (key len : Z) : option (option Z) :=
  match a with
  | None => Some None
  | Some a =>
      k ← at_key buf a;
      if negb (k =? key) then Some None
      else
        n ← uc_paylen buf a;
        if negb (n =? len) then Some None else Some (Some (uc_payload a))
  end.

(** [lib/nlusctl/attr_ints.c: uc_get_bin] *)
Definition uc_get_bin (buf : list Z) (msg key len : Z) : option (option Z) :=
  a ← uc_get buf msg key; uc_is_bin buf a key len.

(** [lib/nlusctl/attr_ints.c: uc_is_int] *)
Definition uc_is_int (buf : list Z) (a : option Z) (key : Z) : option (option Z) :=
  uc_is_bin buf a key 4.

(** [lib/nlusctl/attr_ints.c: uc_get_int] *)
Definition uc_get_int (buf : list Z) (msg key : Z) : option (option Z) :=
  a ← uc_get buf msg key; uc_is_bin buf a key 4.

(** [lib/nlusctl/attr_ints.c: uc_get_i64] *)
Definition uc_get_i64 (buf : list Z) (msg key : Z) : option (option Z) :=
  a ← uc_get buf msg key; uc_is_bin buf a key 8.

(** [lib/nlusctl/attr_ints.c: uc_get_u64] *)
Definition uc_get_u64 (buf : list Z) (msg key : Z) : option (option Z) :=
  a ← uc_get buf msg key; uc_is_bin buf a key 8.

(** [lib/nlusctl/attr_zstr.c: is_zstr 8-9] *)
Fixpoint zstr_loop (fuel : nat) (buf : list Z) (p e : Z) : option (option Z) :=
  if p <? e then
    match fuel with
    | O => None
    | S fuel => c ← zget buf p; if c =? 0 then Some None else zstr_loop fuel buf (p + 1) e
    end
  else Some (Some p).

(** [lib/nlusctl/attr_zstr.c: is_zstr] *)
Definition is_zstr (buf : list Z) (b len : Z) : option bool :=
  r ← zstr_loop (Z.to_nat len) buf b (b + len - 1);
  match r with
  | None => Some false
  | Some p => c ← zget buf p; Some (c =? 0)
  end.

(** [lib/nlusctl/attr_zstr.c: uc_is_str] *)
Definition uc_is_str (buf : list Z) (a : option Z) (key : Z) : option (option Z) :=
  match a with
  | None => Some None
  | Some a =>
      k ← at_key buf a;
      if negb (k =? key) then Some None
      else
        n ← uc_paylen buf a;
        z ← is_zstr buf (uc_payload a) n;
        if z : bool then Some (Some (uc_payload a)) else Some None
  end.

(** [lib/nlusctl/attr_zstr.c: uc_get_str] *)
Definition uc_get_str (buf : list Z) (msg key : Z) : option (option Z) :=
  a ← uc_get buf msg key; uc_is_str buf a key.

(** ** Framing *)

(** [lib/nlusctl/send_hdr.c: uc_iov_hdr] the return value, and base and length
    of the block to send *)
Definition uc_iov_hdr (uc : ucbuf) : option (Z * option (Z * Z)) :=
  let cap := uc_len uc in
  if cap <? hdr_size then Some (- ENOBUFS, None)
  else
    len ← at_len (uc_buf uc) 0;
    if len <? hdr_size then Some (- ENOBUFS, None)
    else Some (0, Some (2, len - 2)).

(** [lib/nlusctl/recv_msg.c: uc_msg] [len] bytes were received at [buf + 2] *)
Definition uc_msg (buf : list Z) (len : Z) : option (list Z * option Z) :=
  let full := s32 (2 + len) in
  if full <? hdr_size then Some (buf, None)
  else buf ← set_len buf 0 full; Some (buf, Some 0).

(** ** Descriptors sent along with a message *)

(** [lib/nlusctl.h: ucaux] *)
Record ucaux := Ucaux { ux_ptr : Z; ux_buf : list Z }.

(** [sizeof(struct cmsg)]: 64-bit length, level, type *)
Definition cmsg_size : Z := 16.
Definition SOL_SOCKET : Z := 1.
Definition SCM_RIGHTS : Z := 1.

(** [lib/nlusctl/data_putf1.c: ux_putf1] *)
Definition ux_putf1 (ux : ucaux) (fd : Z) : option ucaux :=
  let len := cmsg_size + 4 in
  let mask := 8 - 1 in
  let size := Z.land (len + mask) (Z.lnot mask) in
  buf ← put64 (ux_buf ux) 0 len;
  buf ← put32 buf 8 SOL_SOCKET;
  buf ← put32 buf 12 SCM_RIGHTS;
  buf ← put32 buf 16 (u32 fd);
  Some (Ucaux size buf).

(** [lib/nlusctl/data_getf1.c: ux_getf1] *)
Definition ux_getf1 (ux : ucaux) : option (ucaux * Z) :=
  let len := cmsg_size + 4 in
  let mask := 8 - 1 in
  let size := Z.land (len + mask) (Z.lnot mask) in
  let ptr := ux_ptr ux in
  if ptr <? len then Some (ux, -1)
  else if size <? u32 ptr then Some (ux, -1)
  else
    l ← get64 (ux_buf ux) 0;
    if negb (l =? len) then Some (ux, -1)
    else
      level ← get32 (ux_buf ux) 8;
      if negb (s32 level =? SOL_SOCKET) then Some (ux, -1)
      else
        type ← get32 (ux_buf ux) 12;
        if negb (s32 type =? SCM_RIGHTS) then Some (ux, -1)
        else
          fd ← get32 (ux_buf ux) 16;
          buf ← put32 (ux_buf ux) 16 (u32 (-1));
          Some (Ucaux ptr buf, s32 fd).

(** ** Messages and their encoding *)

(** What the packing functions put into a message. *)
Inductive item :=
  | Flag (key : Z)
  | Int (key v : Z)
  | I64 (key v : Z)
  | Bin (key : Z) (p : list Z)
  | Str (key : Z) (s : list Z)
  | Nest (key : Z) (l : list item).

(** Actions in sequence, over a list. *)
Definition seqM {A S} (f : S -> A -> option S) : list A -> S -> option S :=
  fix go l s := match l with [] => Some s | x :: l => s ← f s x; go l s end.

(** The calls a service makes to pack an item: a nest is opened, filled and
    closed. *)
Fixpoint put_item (uc : ucbuf) (x : item) {struct x} : option ucbuf :=
  match x with
  | Flag k => uc_put_flag uc k
  | Int k v => uc_put_int uc k v
  | I64 k v => uc_put_i64 uc k v
  | Bin k p => uc_put_bin uc k p (zlen p)
  | Str k s => uc_put_str uc k (s ++ [0])
  | Nest k l =>
      '(uc, a) ← uc_put_nest uc k;
      uc ← seqM put_item l uc;
      uc_end_nest uc a
  end.

Definition put_msg (buf : list Z) (cap cmd : Z) (l : list item) : option ucbuf :=
  uc ← uc_put_hdr (uc_buf_set buf cap) cmd; seqM put_item l uc.

(** The encoding. *)
Definition ikey (x : item) : Z :=
  match x with
  | Flag k | Int k _ | I64 k _ | Bin k _ | Str k _ | Nest k _ => k
  end.

Definition enc_block (len key : Z) (p : list Z) : list Z :=
  le_bytes 2 len ++ le_bytes 2 key ++ p ++ repeat 0 (Z.to_nat (align4 (zlen p) - zlen p)).

Fixpoint enc (x : item) : list Z :=
  let p := match x with
           | Flag _ => []
           | Int _ v => le_bytes 4 v
           | I64 _ v => le_bytes 8 v
           | Bin _ p => p
           | Str _ s => if zlen s <? 1024 then s ++ [0] else take 1024 s
           | Nest _ l => concat (map enc l)
           end in
  enc_block (zlen p + 4) (ikey x) p.

Definition payload (x : item) : list Z :=
  match x with
  | Flag _ => []
  | Int _ v => le_bytes 4 v
  | I64 _ v => le_bytes 8 v
  | Bin _ p => p
  | Str _ s => if zlen s <? 1024 then s ++ [0] else take 1024 s
  | Nest _ l => concat (map enc l)
  end.

Definition message (cmd : Z) (l : list item) : list Z :=
  let p := concat (map enc l) in le_bytes 2 (zlen p + 4) ++ le_bytes 2 cmd ++ p.

(** C strings hold no zero; lengths fit an [int]. *)
Fixpoint wf (x : item) : Prop :=
  match x with
  | Bin _ p => zlen p <= 2 ^ 30
  | Str _ s => Forall (fun c => c <> 0) s
  | Nest _ l => foldr (fun x P => wf x /\ P) True l
  | _ => True
  end.

(** The first item with a key, and its position. *)
Fixpoint find (key pos : Z) (l : list item) : option (Z * item) :=
  match l with
  | [] => None
  | x :: l => if u16 (ikey x) =? key then Some (pos, x) else find key (pos + zlen (enc x)) l
  end.

(** ** Alignment *)

Lemma align4_eq n : align4 n = 4 * ((n + 3) / 4).
Proof.
  unfold align4. rewrite <- Z.ldiff_land. change 3 with (Z.ones 2) at 2.
  rewrite Z.ldiff_ones_r by lia. rewrite Z.shiftl_mul_pow2, Z.shiftr_div_pow2 by lia.
  change (2 ^ 2) with 4. lia.
Qed.

Lemma align4_bounds n : n <= align4 n < n + 4.
Proof. rewrite align4_eq. pose proof (Z.div_mod (n + 3) 4). pose proof (Z.mod_pos_bound (n + 3) 4). lia. Qed.

Lemma align4_mult n : align4 (4 * n) = 4 * n.
Proof. rewrite align4_eq. rewrite (Z.mul_comm 4 n), Z.div_add_l by lia. change (3 / 4) with 0. lia. Qed.

Lemma align4_add4 n : align4 (n + 4) = align4 n + 4.
Proof.
  rewrite !align4_eq. replace (n + 4 + 3) with (n + 3 + 1 * 4) by lia.
  rewrite Z.div_add by lia. lia.
Qed.

Lemma land_m4 n : Z.land n (Z.lnot 3) = 4 * (n / 4).
Proof.
  rewrite <- Z.ldiff_land. change 3 with (Z.ones 2).
  rewrite Z.ldiff_ones_r by lia. rewrite Z.shiftl_mul_pow2, Z.shiftr_div_pow2 by lia.
  change (2 ^ 2) with 4. lia.
Qed.

Lemma enc_eq x : enc x = enc_block (zlen (payload x) + 4) (ikey x) (payload x).
Proof. by destruct x. Qed.

Lemma length_enc_block len key p : zlen (enc_block len key p) = 4 + align4 (zlen p).
Proof.
  unfold enc_block. rewrite !length_app, !length_le_bytes, repeat_length.
  pose proof (align4_bounds (zlen p)). lia.
Qed.

Lemma length_enc x : zlen (enc x) = align4 (zlen (payload x) + 4).
Proof. rewrite enc_eq, length_enc_block, align4_add4. lia. Qed.

Lemma enc_aligned l : align4 (zlen (concat (map enc l))) = zlen (concat (map enc l)).
Proof.
  induction l as [|x l IH]; simpl; [done|]. rewrite length_app, Nat2Z.inj_add.
  rewrite align4_eq in IH. rewrite length_enc, !align4_eq, <- IH.
  rewrite <- Z.mul_add_distr_l. rewrite <- align4_eq. apply align4_mult.
Qed.

Section item_ind.
Variable P : item -> Prop.
Hypotheses (HF : forall k, P (Flag k)) (HI : forall k v, P (Int k v)) (HL : forall k v, P (I64 k v))
  (HB : forall k p, P (Bin k p)) (HS : forall k s, P (Str k s))
  (HN : forall k l, Forall P l -> P (Nest k l)).

Fixpoint item_nested_ind (x : item) : P x :=
  match x with
  | Flag k => HF k
  | Int k v => HI k v
  | I64 k v => HL k v
  | Bin k p => HB k p
  | Str k s => HS k s
  | Nest k l => HN k l ((fix go l : Forall P l :=
      match l with [] => Forall_nil_2 P | x :: l => Forall_cons_2 P x l (item_nested_ind x) (go l) end) l)
  end.
End item_ind.

(** ** Packing encodes, all or nothing *)

Definition fits (cap n : Z) : Prop := n <= cap /\ n <= 0xFFFF.

#[export] Instance fits_dec cap n : Decision (fits cap n).
Proof. unfold fits. apply _. Defined.

(** The buffer after [body] was packed behind the length field: the length and
    the body when they fit, else a zero length. *)
Definition holds (cap : Z) (body : list Z) (uc : ucbuf) : Prop :=
  uc_len uc = cap /\ zlen (uc_buf uc) = cap /\ 4 <= cap < 2 ^ 31 /\ 2 <= zlen body /\
  exists tail, uc_buf uc =
    if decide (fits cap (2 + zlen body)) then le_bytes 2 (2 + zlen body) ++ body ++ tail
    else [0; 0] ++ tail.

Lemma get16_head v l : get16 (le_bytes 2 v ++ l) 0 = Some (u16 v).
Proof. by apply (get16_parts []). Qed.

Lemma put16_head a v l : length a = 2%nat -> put16 (a ++ l) 0 v = Some (le_bytes 2 v ++ l).
Proof. intros. by apply (put16_parts []). Qed.

Lemma u16_small v : 0 <= v < 65536 -> u16 v = v.
Proof. intros. apply uwrap_small. lia. Qed.

Lemma holds_len cap body uc :
  holds cap body uc ->
  at_len (uc_buf uc) 0 = Some (if decide (fits cap (2 + zlen body)) then 2 + zlen body else 0).
Proof.
  intros (_ & _ & _ & Hb & tail & ->). unfold at_len. case_decide as Hf.
  - rewrite get16_head, u16_small by (destruct Hf; lia). done.
  - by change [0; 0] with (le_bytes 2 0); rewrite get16_head.
Qed.

(** An attribute header and its space behind the body. *)
Lemma uc_put_holds cap body uc key len alloc :
  holds cap body uc -> 0 <= alloc <= 2 ^ 30 + 4 ->
  exists uc' a, uc_put uc key len alloc = Some (uc', a) /\
    uc_len uc' = cap /\ zlen (uc_buf uc') = cap /\
    let n := 2 + zlen body + 4 + alloc in
    if decide (fits cap n) then
      a = Some (2 + zlen body) /\
      exists mid tail, zlen mid = alloc /\
        uc_buf uc' = le_bytes 2 n ++ body ++ le_bytes 2 (len + 4) ++ le_bytes 2 key ++ mid ++ tail
    else a = None /\ exists tail, uc_buf uc' = [0; 0] ++ tail.
Proof.
  intros Hh Ha. pose proof (holds_len _ _ _ Hh) as Hl. unfold uc_put. rewrite Hl, Some_bind.
  destruct Hh as (Hc & Hz & Hcap & Hb & tail & Hbuf). unfold hdr_size.
  destruct (decide (fits cap (2 + zlen body))) as [[Hf1 Hf2]|Hf]; cycle 1.
  { change (0 =? 0) with true. exists uc, None. repeat split; [done..|].
    cbv zeta. rewrite decide_False by (unfold fits in *; lia). eauto. }
  cbv zeta. rewrite !(s32_small (4 + alloc)), s32_small by lia.
  assert (Hover : ~ fits cap (2 + zlen body + 4 + alloc) ->
    exists uc' a, (buf ← set_len (uc_buf uc) 0 0; Some (Ucbuf buf (uc_len uc), @None Z)) = Some (uc', a) /\
    uc_len uc' = cap /\ zlen (uc_buf uc') = cap /\
    (a = None /\ exists tail, uc_buf uc' = [0; 0] ++ tail)).
  { intros Hn. unfold set_len. rewrite Hbuf, put16_head by (apply length_le_bytes).
    rewrite Some_bind. eexists _, _. split; [done|]. cbn [uc_buf uc_len]. split; [done|].
    split; [|eauto]. rewrite <- Hz, Hbuf. rewrite !length_app, !length_le_bytes. done. }
  replace (2 + zlen body + (4 + alloc)) with (2 + zlen body + 4 + alloc) by lia.
  rewrite Hc in *. destruct (decide (fits cap _)) as [[Hg1 Hg2]|Hg].
  - zcases. clear Hover. unfold set_len, set_key.
    rewrite Hbuf, put16_head by (apply length_le_bytes). rewrite Some_bind, u16_le_bytes.
    assert (Hlt : zlen tail = cap - 2 - zlen body).
    { rewrite <- Hz, Hbuf, !length_app, length_le_bytes. lia. }
    rewrite <- (take_drop 2 tail), <- (take_drop 2 (drop 2 tail)), drop_drop.
    set (t1 := take 2 tail). set (t2 := take 2 (drop 2 tail)). set (t3 := drop _ tail).
    assert (length t1 = 2%nat /\ length t2 = 2%nat /\ zlen t3 = cap - 6 - zlen body) as (Ht1 & Ht2 & Ht3).
    { unfold t1, t2, t3. rewrite !length_take, !length_drop. lia. }
    clearbody t1 t2 t3. set (h := le_bytes 2 (2 + zlen body + 4 + alloc)).
    assert (Hh : length h = 2%nat) by apply length_le_bytes. clearbody h.
    replace (h ++ body ++ t1 ++ t2 ++ t3) with ((h ++ body ++ t1) ++ t2 ++ t3) by (by rewrite <- !app_assoc).
    rewrite put16_parts by (rewrite ?length_app, ?Hh, ?Ht1; lia). rewrite Some_bind, u16_le_bytes.
    replace ((h ++ body ++ t1) ++ le_bytes 2 key ++ t3)
      with ((h ++ body) ++ t1 ++ le_bytes 2 key ++ t3) by (by rewrite <- !app_assoc).
    rewrite put16_parts by (rewrite ?length_app, ?Hh; lia). rewrite Some_bind, u16_le_bytes.
    eexists _, _. split; [done|]. cbn [uc_buf uc_len]. split; [done|]. split.
    { rewrite !length_app, !length_le_bytes, Hh. lia. }
    split; [done|]. exists (take (Z.to_nat alloc) t3), (drop (Z.to_nat alloc) t3).
    split; [rewrite length_take; lia|]. by rewrite <- !app_assoc, take_drop.
  - zcases; unfold fits in Hg; try (apply Hover; unfold fits; lia). lia.
Qed.

Definition pad (n : Z) : list Z := repeat 0 (Z.to_nat (align4 n - n)).

(** Zero the last word, then copy the payload over the space. *)
Lemma write_payload a mid tail s :
  zlen mid = align4 (zlen s) ->
  (buf ← (if zlen s <? align4 (zlen s)
          then put32 (a ++ mid ++ tail) (zlen a + Z.land (zlen s) (Z.lnot 3)) 0
          else Some (a ++ mid ++ tail));
   awrite buf (zlen a) s) = Some (a ++ s ++ pad (zlen s) ++ tail).
Proof.
  intros Hm. rewrite land_m4. unfold pad. set (n := zlen s) in *.
  pose proof (Z.div_mod n 4 ltac:(lia)). pose proof (Z.mod_pos_bound n 4 ltac:(lia)).
  pose proof (align4_bounds n). destruct (Z.ltb_spec n (align4 n)) as [Hlt|Hge].
  - assert (align4 n = 4 * (n / 4) + 4) as Ha.
    { rewrite align4_eq in *. Z.div_mod_to_equations. lia. }
    rewrite <- (take_drop (Z.to_nat (4 * (n / 4))) mid).
    set (m1 := take _ mid). set (m2 := drop _ mid).
    assert (zlen m1 = 4 * (n / 4) /\ length m2 = 4%nat) as [Hm1 Hm2].
    { unfold m1, m2. rewrite length_take, length_drop. lia. }
    clearbody m1 m2. rewrite <- app_assoc, (app_assoc a).
    unfold put32. rewrite awrite_parts by (rewrite ?length_app, ?length_le_bytes; lia).
    rewrite Some_bind. change (le_bytes 4 0) with (repeat 0 4).
    set (k := Z.to_nat (n - 4 * (n / 4))).
    replace 4%nat with (k + Z.to_nat (align4 n - n))%nat by lia.
    rewrite repeat_app. rewrite <- !app_assoc, (app_assoc m1).
    apply awrite_parts; [done|]. rewrite length_app, repeat_length. lia.
  - rewrite Some_bind. replace (Z.to_nat (align4 n - n)) with 0%nat by lia.
    apply awrite_parts; [done|]. lia.
Qed.

Lemma holds_app cap body uc x tail :
  uc_len uc = cap -> zlen (uc_buf uc) = cap -> 4 <= cap < 2 ^ 31 -> 2 <= zlen body ->
  uc_buf uc = (if decide (fits cap (2 + zlen (body ++ x)))
               then le_bytes 2 (2 + zlen (body ++ x)) ++ (body ++ x) ++ tail
               else [0; 0] ++ tail) ->
  holds cap (body ++ x) uc.
Proof.
  intros ?? [??] ? Hb. split; [done|]. split; [done|]. split; [done|].
  split; [rewrite length_app; lia|by exists tail].
Qed.

Lemma uc_put_bin_holds cap body uc key s src :
  holds cap body uc -> zlen s <= 2 ^ 30 ->
  exists uc', uc_put_bin uc key (s ++ src) (zlen s) = Some uc' /\
    holds cap (body ++ enc_block (zlen s + 4) key s) uc'.
Proof.
  intros Hh Hs. unfold uc_put_bin. pose proof (align4_bounds (zlen s)).
  destruct (uc_put_holds cap body uc key (zlen s) (align4 (zlen s)) Hh ltac:(lia))
    as (uc' & a & -> & Hc & Hz & Hif).
  destruct Hh as (_ & _ & Hcap & Hb & _). rewrite Some_bind. cbv zeta in Hif.
  assert (2 + zlen (body ++ enc_block (zlen s + 4) key s) = 2 + zlen body + 4 + align4 (zlen s)) as Hn.
  { rewrite length_app, Nat2Z.inj_add, length_enc_block. lia. }
  destruct (decide (fits cap _)) as [Hf|Hf]; cycle 1.
  { destruct Hif as (-> & tail & Ht). eexists. split; [done|].
    apply (holds_app _ _ _ _ tail); try done. by rewrite Hn, decide_False. }
  destruct Hif as (-> & mid & tail & Hmid & Hbuf). cbv beta iota zeta.
  set (h := le_bytes 2 (2 + zlen body + 4 + align4 (zlen s)) ++ body ++ le_bytes 2 (zlen s + 4) ++ le_bytes 2 key) in *.
  replace (2 + zlen body + 4) with (zlen h)
    by (unfold h; rewrite !length_app, !length_le_bytes; lia).
  assert (uc_buf uc' = h ++ mid ++ tail) as -> by (unfold h; by rewrite Hbuf, <- !app_assoc).
  pose proof (write_payload h mid tail s Hmid) as Hw.
  apply bind_Some_inv in Hw as (b & -> & Hw). rewrite Some_bind.
  rewrite (aread_parts [] s src) by done. rewrite Some_bind, Hw, Some_bind.
  eexists. split; [done|]. apply (holds_app _ _ _ _ tail); try done; cbn [uc_buf uc_len].
  - rewrite <- Hz, Hbuf. unfold h, pad. rewrite !length_app, !length_le_bytes, repeat_length. lia.
  - rewrite Hn, decide_True by done. unfold h, enc_block, pad. by rewrite <- !app_assoc.
Qed.

Lemma uc_put_bin_whole cap body uc key s :
  holds cap body uc -> zlen s <= 2 ^ 30 ->
  exists uc', uc_put_bin uc key s (zlen s) = Some uc' /\
    holds cap (body ++ enc_block (zlen s + 4) key s) uc'.
Proof.
  intros Hh Hs. destruct (uc_put_bin_holds cap body uc key s [] Hh Hs) as (uc' & H & ?).
  rewrite app_nil_r in H. eauto.
Qed.

(** The integer calls are [uc_put_bin] of the bytes of the number. *)
Lemma put_fixed uc key (k : nat) bs len alloc (put : list Z -> Z -> option (list Z)) :
  (forall l off, put l off = awrite l off bs) -> len = zlen bs -> align4 len = len -> alloc = len ->
  ('(uc, a) ← uc_put uc key len alloc;
   match a with
   | None => Some uc
   | Some a => buf ← put (uc_buf uc) (a + 4); Some (Ucbuf buf (uc_len uc))
   end) = uc_put_bin uc key bs len.
Proof.
  intros Hput Hl Ha ->. unfold uc_put_bin. rewrite Ha.
  destruct (uc_put uc key len len) as [[uc' [a|]]|]; [|done..].
  rewrite !Some_bind. cbv beta iota zeta. rewrite Hput, Z.ltb_irrefl, Some_bind.
  rewrite aread_all by done. by rewrite Some_bind.
Qed.

Lemma uc_put_int_bin uc key v : uc_put_int uc key v = uc_put_bin uc key (le_bytes 4 v) 4.
Proof.
  apply (put_fixed uc key 4 (le_bytes 4 v) 4 4 (fun l off => put32 l off (u32 v))); [|done..].
  intros. unfold put32, uwrap. by rewrite le_bytes_mod.
Qed.

Lemma uc_put_i64_bin uc key v : uc_put_i64 uc key v = uc_put_bin uc key (le_bytes 8 v) 8.
Proof.
  apply (put_fixed uc key 8 (le_bytes 8 v) 8 8 (fun l off => put64 l off (u64 v))); [|done..].
  intros. unfold put64, uwrap. by rewrite le_bytes_mod.
Qed.

Lemma uc_put_flag_bin uc key : uc_put_flag uc key = uc_put_bin uc key [] 0.
Proof.
  unfold uc_put_flag, uc_put_bin. change (align4 0) with 0.
  destruct (uc_put uc key 0 0) as [[[b c] [a|]]|] eqn:E; [|done..]. rewrite !Some_bind.
  cbv beta iota zeta. change (aread [] 0 0) with (Some (@nil Z)). change (0 <? 0) with false.
  cbv iota. rewrite !Some_bind.
  unfold uc_put in E. apply bind_Some_inv in E as (ptr & Hp & E).
  assert (a = ptr /\ 0 <= ptr /\ ptr + 4 <= zlen b) as (-> & ? & ?).
  { pose proof Hp as Hp'. unfold at_len, get16 in Hp'. destruct (aread _ 0 2) as [s|]; [|done].
    destruct (ptr =? 0); [done|].
    repeat (case_match; [by apply bind_Some_inv in E as (? & _ & [= ]) |]).
    apply bind_Some_inv in E as (b1 & Hb1 & E). apply bind_Some_inv in E as (b2 & Hb2 & E).
    apply bind_Some_inv in E as (b3 & Hb3 & E). injection E as <- _ ->.
    apply awrite_inv in Hb2 as (? & ? & ?). apply awrite_inv in Hb3 as (? & ? & Hl).
    rewrite length_le_bytes in *. split_and!; [done|lia|lia]. }
  cbn [uc_buf]. change b with ([] ++ b) at 1. rewrite awrite_Some by (simpl; lia). simpl length.
  rewrite Z.add_0_r. cbn [app]. by rewrite Some_bind, take_drop.
Qed.

Lemma strnlen_l_string s max rest :
  Forall (fun c => c <> 0) s ->
  strnlen_l (s ++ 0 :: rest) max = Some (Z.min (zlen s) (Z.of_nat max)).
Proof.
  intros Hs. revert max. induction Hs as [|c s Hc Hs IH]; intros [|max]; simpl; try (f_equal; lia).
  destruct (Z.eqb_spec c 0); [done|]. rewrite IH. simpl. f_equal. lia.
Qed.

Lemma uc_put_str_bin uc key s :
  Forall (fun c => c <> 0) s ->
  exists src, s ++ [0] = payload (Str key s) ++ src /\
  uc_put_str uc key (s ++ [0]) = uc_put_bin uc key (payload (Str key s) ++ src) (zlen (payload (Str key s))).
Proof.
  intros Hs. unfold uc_put_str. rewrite strnlen_l_string by done. rewrite Some_bind. cbn [payload].
  destruct (Z.ltb_spec (zlen s) 1024).
  - exists []. rewrite app_nil_r. split; [done|]. rewrite length_app. simpl. zcases. f_equal. lia.
  - exists (drop 1024 s ++ [0]). rewrite (app_assoc (take 1024 s)), take_drop. split; [done|].
    zcases. rewrite length_take. f_equal. lia.
Qed.

Lemma holds_overflow cap b1 b2 uc :
  ~ fits cap (2 + zlen b1) -> zlen b1 = zlen b2 -> holds cap b1 uc -> holds cap b2 uc.
Proof.
  intros Hf Hl (? & ? & ? & ? & tail & Ht). rewrite decide_False in Ht by done.
  do 3 (split; [done|]). split; [lia|]. exists tail. rewrite decide_False by (by rewrite <- Hl). done.
Qed.

Lemma seqM_holds cap l :
  Forall (fun x => wf x -> forall body uc, holds cap body uc ->
    exists uc', put_item uc x = Some uc' /\ holds cap (body ++ enc x) uc') l ->
  Forall wf l -> forall body uc, holds cap body uc ->
  exists uc', seqM put_item l uc = Some uc' /\ holds cap (body ++ concat (map enc l)) uc'.
Proof.
  induction 1 as [|x l Hx _ IH]; intros Hw body uc Hh; simpl.
  { exists uc. by rewrite app_nil_r. }
  apply Forall_cons in Hw as [Hwx Hwl].
  destruct (Hx Hwx body uc Hh) as (uc1 & -> & H1). rewrite Some_bind.
  destruct (IH Hwl _ _ H1) as (uc2 & -> & H2). exists uc2. split; [done|]. by rewrite app_assoc.
Qed.

Lemma uc_put_nest_holds cap body uc key :
  holds cap body uc ->
  exists uc' a, uc_put_nest uc key = Some (uc', a) /\
    holds cap (body ++ le_bytes 2 4 ++ le_bytes 2 key) uc' /\
    (a = Some (2 + zlen body) \/ a = None /\ ~ fits cap (2 + zlen body + 4)).
Proof.
  intros Hh. destruct (uc_put_holds cap body uc key 0 0 Hh ltac:(lia))
    as (uc' & a & H & Hc & Hz & Hif). exists uc', a. split; [done|].
  destruct Hh as (_ & _ & Hcap & Hb & _). cbv zeta in Hif. rewrite Z.add_0_r in Hif.
  assert (2 + zlen (body ++ le_bytes 2 4 ++ le_bytes 2 key) = 2 + zlen body + 4) as Hn.
  { rewrite !length_app, !length_le_bytes. lia. }
  destruct (decide (fits cap _)) as [Hf|Hf]; [destruct Hif as (-> & mid & tail & Hm & Ht)
    |destruct Hif as (-> & tail & Ht)]; (split; [|auto]);
    apply (holds_app _ _ _ _ tail); try done; rewrite Hn.
  - rewrite decide_True by done. destruct mid; [|simpl in Hm; lia]. by rewrite <- !app_assoc.
  - by rewrite decide_False.
Qed.

Lemma enc_block_nil_pad len key p :
  align4 (zlen p) = zlen p -> enc_block len key p = le_bytes 2 len ++ le_bytes 2 key ++ p.
Proof. intros H. unfold enc_block. by rewrite H, Z.sub_diag, app_nil_r. Qed.

Lemma uc_end_nest_holds cap body uc key a p :
  align4 (zlen p) = zlen p -> 2 <= zlen body ->
  holds cap ((body ++ le_bytes 2 4 ++ le_bytes 2 key) ++ p) uc ->
  a = Some (2 + zlen body) \/ a = None /\ ~ fits cap (2 + zlen body + 4) ->
  exists uc', uc_end_nest uc a = Some uc' /\ holds cap (body ++ enc_block (zlen p + 4) key p) uc'.
Proof.
  intros Hp Hb Hh Ha. rewrite enc_block_nil_pad by done.
  assert (zlen ((body ++ le_bytes 2 4 ++ le_bytes 2 key) ++ p) = zlen body + 4 + zlen p /\
    zlen (body ++ le_bytes 2 (zlen p + 4) ++ le_bytes 2 key ++ p) = zlen body + 4 + zlen p) as [Hn Hn'].
  { rewrite !length_app, !length_le_bytes. lia. }
  destruct Ha as [->|[-> Hnf]]; cycle 1.
  { exists uc. split; [done|]. eapply holds_overflow; [| |exact Hh]; [|lia].
    rewrite Hn. unfold fits in *. lia. }
  pose proof (holds_len _ _ _ Hh) as Hl. rewrite Hn in Hl. unfold uc_end_nest.
  pose proof Hh as (Hc & Hz & Hcap & _ & tail & Hbuf). rewrite Hn in Hbuf. rewrite Hc, Hl.
  destruct (decide (fits cap _)) as [Hf|Hf]; cycle 1.
  { rewrite Some_bind. assert (holds cap (body ++ le_bytes 2 (zlen p + 4) ++ le_bytes 2 key ++ p) uc).
    { eapply holds_overflow; [| |exact Hh]; [by rewrite Hn|lia]. }
    zcases; eauto. }
  destruct Hf as [Hf1 Hf2]. zcases. rewrite Some_bind. zcases. unfold set_len. rewrite Hbuf.
  set (h := le_bytes 2 (2 + (zlen body + 4 + zlen p))).
  replace (h ++ ((body ++ le_bytes 2 4 ++ le_bytes 2 key) ++ p) ++ tail)
    with ((h ++ body) ++ le_bytes 2 4 ++ le_bytes 2 key ++ p ++ tail) by (by rewrite <- !app_assoc).
  rewrite put16_parts by (unfold h; rewrite ?length_app, ?length_le_bytes; lia).
  rewrite Some_bind, u16_le_bytes. eexists. split; [done|].
  replace (2 + (zlen body + 4 + zlen p) - (2 + zlen body)) with (zlen p + 4) by lia.
  apply (holds_app _ _ _ _ tail); try done; cbn [uc_buf].
  - rewrite <- Hz, Hbuf. unfold h. rewrite !length_app, !length_le_bytes. lia.
  - rewrite Hn', decide_True by done. unfold h. by rewrite <- !app_assoc.
Qed.

Lemma put_item_holds cap x :
  wf x -> forall body uc, holds cap body uc ->
  exists uc', put_item uc x = Some uc' /\ holds cap (body ++ enc x) uc'.
Proof.
  induction x as [k|k v|k v|k p|k s|k l IH] using item_nested_ind; intros Hw body uc Hh;
    rewrite enc_eq; cbn [ikey].
  - cbn [put_item]. rewrite uc_put_flag_bin. by apply (uc_put_bin_whole cap body uc k []).
  - cbn [put_item]. rewrite uc_put_int_bin. by apply (uc_put_bin_whole cap body uc k (le_bytes 4 v)).
  - cbn [put_item]. rewrite uc_put_i64_bin. by apply (uc_put_bin_whole cap body uc k (le_bytes 8 v)).
  - by apply uc_put_bin_whole.
  - destruct (uc_put_str_bin uc k s Hw) as (src & _ & Hs). cbn [put_item]. rewrite Hs.
    apply uc_put_bin_holds; [done|]. cbn [payload]. case_match; zbool.
    + rewrite length_app. simpl. lia.
    + rewrite length_take. lia.
  - assert (Forall wf l) as Hwl.
    { cbn [wf] in Hw. clear IH. induction l; simpl in Hw; constructor; tauto. }
    destruct (uc_put_nest_holds cap body uc k Hh) as (uc1 & a & H1 & Hh1 & Ha).
    destruct (seqM_holds cap l IH Hwl _ _ Hh1) as (uc2 & H2 & Hh2).
    destruct (uc_end_nest_holds cap body uc2 k a _ (enc_aligned l) (proj1 (proj2 (proj2 (proj2 Hh)))) Hh2 Ha)
      as (uc3 & H3 & Hh3).
    exists uc3. split; [|done]. cbn [put_item]. by rewrite H1, Some_bind, H2, Some_bind.
Qed.

Lemma put_msg_holds buf cap cmd l :
  zlen buf = cap -> 4 <= cap < 2 ^ 31 -> Forall wf l ->
  exists uc, put_msg buf cap cmd l = Some uc /\
    holds cap (le_bytes 2 cmd ++ concat (map enc l)) uc.
Proof.
  intros Hz Hcap Hw. unfold put_msg, uc_put_hdr, uc_buf_set, set_key, set_len. cbn [uc_buf uc_len].
  rewrite <- (take_drop 2 buf), <- (take_drop 2 (drop 2 buf)), drop_drop.
  assert (length (take 2 buf) = 2%nat /\ length (take 2 (drop 2 buf)) = 2%nat) as [Hh Hk].
  { rewrite !length_take, length_drop. lia. }
  rewrite put16_parts by (try done; by rewrite Hh). rewrite Some_bind, u16_le_bytes.
  rewrite put16_head by done. rewrite !Some_bind, u16_le_bytes.
  apply seqM_holds; [|done|].
  - apply Forall_forall. intros x _. apply put_item_holds.
  - split; [done|]. cbn [uc_buf]. rewrite !length_app, !length_le_bytes, length_drop.
    split; [lia|]. do 2 (split; [lia|]). exists (drop (2 + 2) buf).
    rewrite decide_True by (unfold fits; lia). done.
Qed.

(** ** Parsing finds what was packed *)

(** [buf] holds a message or a nest at [off]: a header and the items. *)
Definition block_at (buf : list Z) (off key : Z) (l : list item) : Prop :=
  let p := concat (map enc l) in
  zlen p + 4 <= 0xFFFF /\
  exists a c, zlen a = off /\ buf = a ++ (le_bytes 2 (zlen p + 4) ++ le_bytes 2 key ++ p) ++ c.

Lemma get16_at a v c off : off = zlen a -> get16 (a ++ le_bytes 2 v ++ c) off = Some (u16 v).
Proof. apply get16_parts. Qed.

Lemma attr_in_enc a x c fin :
  zlen (payload x) + 4 <= 0xFFFF -> zlen a + zlen (enc x) <= fin ->
  attr_in (a ++ enc x ++ c) (zlen a) fin = Some (Some (zlen a)).
Proof.
  intros Hp Hfin. rewrite length_enc in Hfin. pose proof (align4_bounds (zlen (payload x) + 4)).
  unfold attr_in, hdr_size. zcases. unfold at_len. rewrite enc_eq. unfold enc_block.
  rewrite <- (app_assoc (le_bytes 2 _)), get16_at by done.
  rewrite u16_small by lia. rewrite Some_bind. zcases. done.
Qed.

Lemma at_key_enc a x c :
  at_key (a ++ enc x ++ c) (zlen a) = Some (u16 (ikey x)).
Proof.
  unfold at_key. rewrite enc_eq. unfold enc_block.
  rewrite <- !app_assoc, (app_assoc a). apply get16_at.
  rewrite length_app, length_le_bytes. lia.
Qed.

Lemma at_len_enc a x c :
  zlen (payload x) + 4 <= 0xFFFF ->
  at_len (a ++ enc x ++ c) (zlen a) = Some (zlen (payload x) + 4).
Proof.
  intros. unfold at_len. rewrite enc_eq. unfold enc_block.
  rewrite <- (app_assoc (le_bytes 2 _)), get16_at by done. by rewrite u16_small by lia.
Qed.

Lemma uc_get_loop_find l : forall fuel buf msg a c mlen key,
  (length l < fuel)%nat -> buf = a ++ concat (map enc l) ++ c ->
  0 <= msg -> at_len buf msg = Some mlen -> msg + mlen = zlen a + zlen (concat (map enc l)) ->
  msg <= zlen a -> zlen (concat (map enc l)) + 4 <= 0xFFFF ->
  (at_ ← attr_in buf (zlen a) (msg + mlen); uc_get_loop fuel buf msg at_ key) =
  Some (fst <$> find key (zlen a) l).
Proof.
  induction l as [|x l IH]; intros fuel buf msg a c mlen key Hfuel Hbuf Hmsg Hml Hend Hle Hsz.
  { cbn [map concat length find fmap option_fmap option_map] in *. unfold attr_in, hdr_size. zcases.
    rewrite Some_bind. by destruct fuel. }
  cbn [map concat] in Hbuf, Hend, Hsz. rewrite length_app in Hend, Hsz. cbn [length] in Hfuel.
  rewrite <- app_assoc in Hbuf. pose proof (length_enc x) as Hx.
  pose proof (align4_bounds (zlen (payload x) + 4)).
  assert (zlen (payload x) + 4 <= 0xFFFF) as Hpx by lia.
  rewrite Hbuf, attr_in_enc, <- Hbuf by lia. rewrite Some_bind.
  destruct fuel as [|fuel]; [lia|]. cbn [uc_get_loop find].
  rewrite Hbuf, at_key_enc, <- Hbuf. rewrite Some_bind.
  destruct (Z.eqb_spec (u16 (ikey x)) key); [done|].
  unfold uc_get_n. rewrite Hml, Some_bind. rewrite Hbuf, at_len_enc, <- Hbuf by done.
  rewrite Some_bind. zcases. rewrite <- Hx.
  replace (zlen a + zlen (enc x)) with (zlen (a ++ enc x)) by (rewrite length_app; lia).
  rewrite length_app in *. zcases. rewrite <- length_app.
  apply (IH fuel buf msg (a ++ enc x) c mlen key); rewrite ?length_app; try lia; try done.
  by rewrite <- app_assoc.
Qed.

Lemma length_concat_enc l : 4 * zlen l <= zlen (concat (map enc l)).
Proof.
  induction l as [|x l IH]; simpl; [lia|]. rewrite length_app.
  pose proof (length_enc x). pose proof (align4_bounds (zlen (payload x) + 4)). lia.
Qed.

Lemma uc_get_find buf off k l key :
  block_at buf off k l -> uc_get buf off key = Some (fst <$> find key (off + 4) l).
Proof.
  intros (Hsz & a & c & <- & ->). set (p := concat (map enc l)) in *.
  set (buf := a ++ _ ++ c). assert (at_len buf (zlen a) = Some (zlen p + 4)) as Hl.
  { unfold at_len, buf. rewrite <- !app_assoc, get16_at by done. by rewrite u16_small by lia. }
  unfold uc_get, uc_get_0. rewrite Hl, Some_bind. unfold hdr_size.
  set (a' := a ++ le_bytes 2 (zlen p + 4) ++ le_bytes 2 k).
  replace (zlen a + 4) with (zlen a') by (unfold a'; rewrite !length_app, !length_le_bytes; lia).
  assert (buf = a' ++ p ++ c) as Hbuf by (unfold a', buf; by rewrite <- !app_assoc).
  apply (uc_get_loop_find l _ buf (zlen a) a' c); try done; try lia.
  - rewrite Hbuf, !length_app. pose proof (length_concat_enc l). unfold p.
    unfold a'. rewrite !length_app, !length_le_bytes. lia.
  - unfold p, a'. rewrite !length_app, !length_le_bytes. lia.
  - unfold a'. rewrite !length_app. lia.
Qed.

(** An item that was found is in the buffer, whole. *)
Lemma find_located key l : forall pos a buf c,
  buf = a ++ concat (map enc l) ++ c -> pos = zlen a -> forall q x,
  find key pos l = Some (q, x) ->
  u16 (ikey x) = key /\ zlen (enc x) <= zlen (concat (map enc l)) /\
  exists b d, zlen b = q /\ buf = b ++ enc x ++ d.
Proof.
  induction l as [|y l IH]; intros pos a buf c Hbuf Hpos q x; cbn [find]; [done|].
  cbn [map concat] in *. rewrite length_app. destruct (Z.eqb_spec (u16 (ikey y)) key) as [Hk|Hk].
  - intros [= <- <-]. split; [done|]. split; [lia|]. eexists a, _. by rewrite Hbuf, <- app_assoc.
  - intros Hf. apply (IH _ (a ++ enc y) buf c) in Hf as (? & ? & ?).
    + split_and!; [done|lia|done].
    + by rewrite Hbuf, <- !app_assoc.
    + rewrite length_app. lia.
Qed.

Lemma block_find buf off k l key q x :
  block_at buf off k l -> find key (off + 4) l = Some (q, x) ->
  u16 (ikey x) = key /\ zlen (payload x) + 4 <= 0xFFFF /\
  exists b d, zlen b = q /\ buf = b ++ enc x ++ d.
Proof.
  intros (Hsz & a & c & <- & ->) Hf.
  set (h := le_bytes 2 (zlen (concat (map enc l)) + 4)) in *.
  assert (Hb : a ++ (h ++ le_bytes 2 k ++ concat (map enc l)) ++ c =
    (a ++ h ++ le_bytes 2 k) ++ concat (map enc l) ++ c) by (by rewrite <- !app_assoc).
  assert (Hp : zlen a + 4 = zlen (a ++ h ++ le_bytes 2 k)).
  { unfold h. rewrite !length_app, !length_le_bytes. lia. }
  destruct (find_located key l _ _ _ c Hb Hp q x Hf) as (? & Hx & Hex).
  split_and!; [done| |done]. rewrite length_enc in Hx.
  pose proof (align4_bounds (zlen (payload x) + 4)). lia.
Qed.

Lemma payload_at b x d buf :
  buf = b ++ enc x ++ d -> aread buf (zlen b + 4) (zlen (payload x)) = Some (payload x).
Proof.
  intros ->. rewrite enc_eq. unfold enc_block.
  rewrite <- !app_assoc, (app_assoc b), (app_assoc _ (le_bytes 2 (ikey x))).
  apply aread_parts; [|done]. rewrite !length_app, !length_le_bytes. lia.
Qed.

Lemma uc_is_bin_found buf b x d key len :
  buf = b ++ enc x ++ d -> u16 (ikey x) = key -> zlen (payload x) + 4 <= 0xFFFF ->
  uc_is_bin buf (Some (zlen b)) key len =
  Some (if zlen (payload x) =? len then Some (zlen b + 4) else None).
Proof.
  intros -> Hk Hs. unfold uc_is_bin, uc_paylen. rewrite at_key_enc, Some_bind, Hk, Z.eqb_refl.
  cbv [negb]. rewrite at_len_enc, !Some_bind by done. unfold hdr_size.
  rewrite Z.add_simpl_r. by destruct (_ =? _).
Qed.

Lemma zstr_loop_string s : Forall (fun c => c <> 0) s -> forall fuel buf p c,
  (length s <= fuel)%nat -> buf = p ++ s ++ c -> zstr_loop fuel buf (zlen p) (zlen p + zlen s) =
  Some (Some (zlen p + zlen s)).
Proof.
  induction 1 as [|x s Hx Hs IH]; intros fuel buf p c Hf Hbuf.
  { destruct fuel; cbn [zstr_loop length]; zcases; by rewrite Z.add_0_r. }
  destruct fuel as [|fuel]; [simpl in Hf; lia|]. cbn [zstr_loop]. cbn [length] in *. zcases.
  rewrite Hbuf, zget_app_r, Z.sub_diag by lia. cbn [app]. rewrite zget_cons_0, Some_bind. zcases.
  rewrite app_comm_cons, <- Hbuf. change (x :: s) with ([x] ++ s) in Hbuf.
  rewrite <- app_assoc, app_assoc in Hbuf.
  specialize (IH fuel buf (p ++ [x]) c ltac:(lia) Hbuf). rewrite length_app in IH. cbn [length] in IH.
  replace (zlen p + Z.of_nat (S (length s))) with (Z.of_nat (length p + 1) + zlen s) by lia.
  replace (zlen p + 1) with (Z.of_nat (length p + 1)) by lia. done.
Qed.

Lemma is_zstr_string s buf p c :
  Forall (fun c => c <> 0) s -> buf = p ++ (s ++ [0]) ++ c ->
  is_zstr buf (zlen p) (zlen (s ++ [0])) = Some true.
Proof.
  intros Hs Hbuf. unfold is_zstr. rewrite length_app. cbn [length].
  replace (zlen p + Z.of_nat (length s + 1) - 1) with (zlen p + zlen s) by lia.
  rewrite <- app_assoc in Hbuf.
  rewrite (zstr_loop_string s Hs _ buf p ([0] ++ c)) by (done || lia). rewrite Some_bind.
  rewrite Hbuf, zget_app_r by lia. rewrite zget_app_r by lia.
  replace (_ - _ - _) with 0 by lia. done.
Qed.

Lemma uc_is_str_found buf b k s d key :
  Forall (fun c => c <> 0) s -> zlen s < 1024 ->
  buf = b ++ enc (Str k s) ++ d -> u16 k = key ->
  uc_is_str buf (Some (zlen b)) key = Some (Some (zlen b + 4)).
Proof.
  intros Hs Hl Hbuf Hk. assert (payload (Str k s) = s ++ [0]) as Hp by (cbn [payload]; by zcases).
  assert (zlen (s ++ [0]) + 4 <= 0xFFFF) as Hsz by (rewrite length_app; simpl; lia).
  unfold uc_is_str, uc_paylen. rewrite Hbuf, at_key_enc, Some_bind. cbn [ikey].
  rewrite Hk, Z.eqb_refl. cbv [negb]. rewrite at_len_enc by (by rewrite Hp).
  rewrite !Some_bind, Hp. unfold hdr_size, uc_payload. rewrite Z.add_simpl_r, <- Hbuf.
  rewrite enc_eq, Hp in Hbuf. unfold enc_block in Hbuf.
  rewrite <- !app_assoc, (app_assoc b), (app_assoc _ (le_bytes 2 (ikey _))) in Hbuf.
  rewrite (app_assoc s) in Hbuf.
  replace (zlen b + hdr_size) with
    (zlen ((b ++ le_bytes 2 (zlen (s ++ [0]) + 4)) ++ le_bytes 2 (ikey (Str k s))))
    by (rewrite !length_app, !length_le_bytes; unfold hdr_size; lia).
  rewrite (is_zstr_string s buf _ _ Hs Hbuf), Some_bind.
  rewrite !length_app, !length_le_bytes. unfold hdr_size. do 2 f_equal. lia.
Qed.

(** ** The properties of the protocol *)

(** C25. Packing is all or nothing: for any list of items (nests included) the
    calls never access memory outside of the buffer, and the block handed to
    [sendmsg] is exactly the encoded message without its length field when the
    message fits the buffer and 16 bits; otherwise every later call leaves the
    message empty and sending reports [-ENOBUFS]. *)
Theorem uc_pack_all_or_nothing buf cap cmd l :
  zlen buf = cap -> 4 <= cap < 2 ^ 31 -> Forall wf l ->
  exists uc, put_msg buf cap cmd l = Some uc /\
    let m := message cmd l in
    if decide (fits cap (zlen m)) then
      uc_iov_hdr uc = Some (0, Some (2, zlen m - 2)) /\
      aread (uc_buf uc) 2 (zlen m - 2) = Some (drop 2 m)
    else uc_iov_hdr uc = Some (- ENOBUFS, None).
Proof.
  intros Hz Hcap Hw. destruct (put_msg_holds buf cap cmd l Hz Hcap Hw) as (uc & Hu & Hh).
  exists uc. split; [done|]. pose proof (holds_len _ _ _ Hh) as Hl.
  destruct Hh as (Hc & _ & _ & _ & tail & Hb).
  assert (zlen (message cmd l) = 2 + zlen (le_bytes 2 cmd ++ concat (map enc l))) as Hm.
  { unfold message. rewrite !length_app, !length_le_bytes. lia. }
  cbv zeta. unfold uc_iov_hdr, hdr_size. rewrite Hc, Hl, Hm. zcases. rewrite Some_bind.
  destruct (decide (fits cap _)) as [[Hf1 Hf2]|Hf]; [|done].
  assert (2 <= zlen (le_bytes 2 cmd ++ concat (map enc l))).
  { rewrite length_app, length_le_bytes. lia. }
  zcases. split; [done|]. rewrite Hb. apply aread_parts; [done|].
  unfold message. rewrite length_drop, !length_app, !length_le_bytes. lia.
Qed.

Lemma uc_pack_all_or_nothing_witness :
  exists uc, put_msg (repeat 7 32) 32 5 [Int 1 1000; Nest 2 [Str 3 [97; 98]; Flag 4]] = Some uc /\
    let m := message 5 [Int 1 1000; Nest 2 [Str 3 [97; 98]; Flag 4]] in
    if decide (fits 32 (zlen m)) then
      uc_iov_hdr uc = Some (0, Some (2, zlen m - 2)) /\
      aread (uc_buf uc) 2 (zlen m - 2) = Some (drop 2 m)
    else uc_iov_hdr uc = Some (- ENOBUFS, None).
Proof.
  apply (uc_pack_all_or_nothing (repeat 7 32) 32 5); [reflexivity|split; [lia|reflexivity]|].
  repeat constructor; discriminate.
Defined.

(** How the item found at [q] reads through the calls of a client. *)
Definition reads_as (buf : list Z) (off key q : Z) (x : item) : Prop :=
  match x with
  | Flag _ => True
  | Int _ v => uc_get_int buf off key = Some (Some (q + 4)) /\ get32 buf (q + 4) = Some (u32 v)
  | I64 _ v => uc_get_i64 buf off key = Some (Some (q + 4)) /\ get64 buf (q + 4) = Some (u64 v)
  | Bin _ p => uc_get_bin buf off key (zlen p) = Some (Some (q + 4)) /\
      aread buf (q + 4) (zlen p) = Some p
  | Str _ s => zlen s < 1024 -> uc_get_str buf off key = Some (Some (q + 4)) /\
      aread buf (q + 4) (zlen s + 1) = Some (s ++ [0])
  | Nest k l => block_at buf q k l
  end.

Lemma find_reads_as buf off k l key q x :
  block_at buf off k l -> Forall wf l -> find key (off + 4) l = Some (q, x) ->
  reads_as buf off key q x.
Proof.
  intros Hb Hw Hf. pose proof (uc_get_find _ _ _ _ key Hb) as Hg. rewrite Hf in Hg.
  destruct (block_find _ _ _ _ _ _ _ Hb Hf) as (Hk & Hs & b & d & <- & Hbuf).
  pose proof (payload_at _ _ _ _ Hbuf) as Hp. cbn [fmap option_fmap option_map fst] in Hg.
  pose proof (uc_is_bin_found buf b x d key (zlen (payload x)) Hbuf Hk Hs) as Hbin.
  rewrite Z.eqb_refl in Hbin.
  assert (wf x) as Hwx.
  { clear -Hw Hf. revert Hf. generalize (off + 4). induction Hw as [|y l ?? IH]; [done|].
    intros p. cbn [find]. case_match; [by intros [= _ <-]|]. apply IH. }
  destruct x as [?|? v|? v|? p|? s|k' l']; cbn [reads_as]; [done|..].
  - unfold uc_get_int. rewrite Hg, Some_bind. split; [exact Hbin|].
    unfold get32. cbn [payload] in Hp. rewrite length_le_bytes in Hp.
    change (Z.of_nat 4) with 4 in Hp. rewrite Hp. cbn [fmap option_fmap option_map].
    by rewrite le_value_bytes.
  - unfold uc_get_i64. rewrite Hg, Some_bind. split; [exact Hbin|].
    unfold get64. cbn [payload] in Hp. rewrite length_le_bytes in Hp.
    change (Z.of_nat 8) with 8 in Hp. rewrite Hp. cbn [fmap option_fmap option_map].
    by rewrite le_value_bytes.
  - unfold uc_get_bin. rewrite Hg, Some_bind. done.
  - intros Hl. unfold uc_get_str. rewrite Hg, Some_bind.
    split; [by eapply uc_is_str_found|]. cbn [payload] in Hp.
    destruct (Z.ltb_spec (zlen s) 1024); [|lia]. rewrite length_app in Hp. cbn [length] in Hp.
    by replace (zlen s + 1) with (Z.of_nat (length s + 1)) by lia.
  - split; [done|]. exists b, d. split; [done|]. rewrite Hbuf, enc_eq. cbn [payload ikey].
    by rewrite enc_block_nil_pad by apply enc_aligned.
Qed.

(** C24. The receiver's view: when the bytes of a sent message arrive at
    [buf + 2], [uc_msg] restores the message, and for every key [uc_get] returns
    the first item packed with the key (or NULL when there is none), whose
    payload the typed getters return; a nest can be searched in turn. *)
Theorem uc_unpack_decodes rbuf cmd l key :
  zlen (message cmd l) <= 0xFFFF -> Forall wf l ->
  aread rbuf 2 (zlen (message cmd l) - 2) = Some (drop 2 (message cmd l)) ->
  exists buf, uc_msg rbuf (zlen (message cmd l) - 2) = Some (buf, Some 0) /\
    block_at buf 0 cmd l /\
    forall off k l, block_at buf off k l -> Forall wf l ->
      uc_get buf off key = Some (fst <$> find key (off + 4) l) /\
      forall q x, find key (off + 4) l = Some (q, x) -> reads_as buf off key q x.
Proof.
  intros Hs Hw Hr. pose proof (aread_split _ _ _ _ Hr) as (a & c & -> & Ha).
  set (p := concat (map enc l)) in *.
  assert (zlen (message cmd l) = 4 + zlen p) as Hm.
  { unfold message. rewrite !length_app, !length_le_bytes. fold p. lia. }
  rewrite Hm in *. exists (message cmd l ++ c). unfold uc_msg, set_len, hdr_size.
  rewrite s32_small by lia. zcases. rewrite put16_head by lia. rewrite Some_bind.
  replace (2 + (4 + zlen p - 2)) with (zlen p + 4) by lia. rewrite u16_le_bytes. split.
  { unfold message. fold p. by rewrite <- app_assoc. }
  split.
  { split; [fold p; lia|]. by exists [], c. }
  intros off k l' Hb Hw'. split; [by eapply uc_get_find|].
  intros q x Hf. exact (find_reads_as _ _ _ _ _ _ _ Hb Hw' Hf).
Qed.

Lemma uc_unpack_decodes_witness :
  let l := [Int 1 1000; Nest 2 [Str 3 [97; 98]; Flag 4]] in
  let rbuf := [9; 9] ++ drop 2 (message 5 l) ++ [9; 9] in
  exists buf, uc_msg rbuf (zlen (message 5 l) - 2) = Some (buf, Some 0) /\
    block_at buf 0 5 l /\
    forall off k l, block_at buf off k l -> Forall wf l ->
      uc_get buf off 2 = Some (fst <$> find 2 (off + 4) l) /\
      forall q x, find 2 (off + 4) l = Some (q, x) -> reads_as buf off 2 q x.
Proof.
  intros l rbuf. apply (uc_unpack_decodes rbuf 5 l 2); [discriminate| |reflexivity].
  repeat constructor; discriminate.
Defined.

(** ** Messages of a hostile peer *)

Lemma get16_Some buf off :
  bytes buf -> 0 <= off -> off + 2 <= zlen buf -> exists v, get16 buf off = Some v /\ 0 <= v < 65536.
Proof.
  intros Hb Ho Hl. unfold get16. rewrite aread_Some by lia. eexists. split; [done|].
  change 65536 with (256 ^ 2).
  set (s := take _ _). assert (zlen s = 2) as <- by (unfold s; rewrite length_take, length_drop; lia).
  apply le_value_range. by apply Forall_take, Forall_drop.
Qed.

(** An attribute inside of the message that ends at [fin]. *)
Definition inside (buf : list Z) (lo fin a : Z) : Prop :=
  lo <= a /\ a + hdr_size <= fin /\ exists len, at_len buf a = Some len /\ 0 <= len /\ a + len <= fin.

Lemma attr_in_safe buf ptr fin :
  bytes buf -> 0 <= ptr -> fin <= zlen buf ->
  exists r, attr_in buf ptr fin = Some r /\ forall a, r = Some a -> a = ptr /\ inside buf ptr fin a.
Proof.
  intros Hb Hp Hf. unfold attr_in, inside, hdr_size. destruct (Z.ltb_spec fin (ptr + 4)).
  { by exists None. }
  destruct (get16_Some buf ptr) as (v & Hv & Hr); [done|lia..|]. unfold at_len. rewrite Hv, Some_bind.
  destruct (Z.ltb_spec fin (ptr + v)); [by exists None|]. eexists. split; [done|].
  intros a [= <-]. split; [done|]. split_and!; [lia..|]. eauto with lia.
Qed.

Lemma uc_get_loop_safe buf msg mlen key : bytes buf -> 0 <= msg -> at_len buf msg = Some mlen ->
  msg + mlen <= zlen buf -> forall fuel a,
  match a with Some p => msg + 4 <= p /\ inside buf p (msg + mlen) p /\ msg + mlen - p <= 4 * Z.of_nat fuel | None => True end ->
  exists r, uc_get_loop fuel buf msg a key = Some r /\
    forall q, r = Some q -> inside buf (msg + hdr_size) (msg + mlen) q /\ at_key buf q = Some key.
Proof.
  intros Hb Hmsg Hml Hfin. induction fuel as [|fuel IH]; intros [p|] Hp; cbn [uc_get_loop];
    try (by exists None); destruct Hp as (Hlo & Hin & Hfuel); unfold inside, hdr_size in *; [lia|].
  destruct Hin as (_ & Hp & len & Hlen & Hl0 & Hl).
  destruct (get16_Some buf (p + 2)) as (k & Hk & _); [done|lia..|].
  unfold at_key at 1. rewrite Hk, Some_bind. destruct (Z.eqb_spec k key) as [->|].
  { eexists. split; [done|]. intros q [= <-]. split; [|done]. split_and!; eauto with lia. }
  unfold uc_get_n. rewrite Hml, Hlen, !Some_bind.
  destruct (Z.leb_spec len 0).
  { rewrite Some_bind. by apply (IH None). }
  pose proof (align4_bounds len). assert (4 <= align4 len).
  { rewrite align4_eq in *. lia. }
  destruct (Z.ltb_spec (p + align4 len) msg); [lia|].
  destruct (attr_in_safe buf (p + align4 len) (msg + mlen)) as (r & -> & Hr); [done|lia..|].
  rewrite Some_bind. apply IH. destruct r as [q|]; [|done].
  destruct (Hr q eq_refl) as [-> Hin]. split; [lia|split; [exact Hin|lia]].
Qed.

(** C23. On arbitrary bytes [uc_get] terminates and never reads outside of the
    message: it returns NULL or an attribute with the key asked for, which lies
    inside of the message with its header and its indicated length. *)
Theorem uc_get_safe buf off n key :
  bytes buf -> 0 <= off -> at_len buf off = Some n -> off + n <= zlen buf ->
  exists r, uc_get buf off key = Some r /\
    forall a, r = Some a -> inside buf (off + hdr_size) (off + n) a /\ at_key buf a = Some key.
Proof.
  intros Hb Ho Hn Hl. unfold uc_get, uc_get_0. rewrite Hn, Some_bind.
  destruct (attr_in_safe buf (off + hdr_size) (off + n)) as (r & -> & Hr); [done|unfold hdr_size; lia..|].
  rewrite Some_bind. apply uc_get_loop_safe with (mlen := n); try done.
  destruct r as [q|]; [|done]. destruct (Hr q eq_refl) as [-> Hin]. unfold hdr_size in *.
  split; [lia|split; [exact Hin|lia]].
Qed.

Lemma uc_get_safe_witness :
  exists r, uc_get [12; 0; 1; 0; 3; 0; 2; 0; 200; 0; 5; 0; 77] 0 5 = Some r /\
    forall a, r = Some a ->
      inside [12; 0; 1; 0; 3; 0; 2; 0; 200; 0; 5; 0; 77] (0 + hdr_size) (0 + 12) a /\
      at_key [12; 0; 1; 0; 3; 0; 2; 0; 200; 0; 5; 0; 77] a = Some 5.
Proof.
  apply uc_get_safe; [|lia|reflexivity|simpl; lia].
  repeat constructor; lia.
Defined.

(** The string getter has no lower bound on the payload: for an empty last
    attribute it reads the byte after the message. *)
Lemma uc_get_str_overread :
  uc_get [8; 0; 1; 0; 4; 0; 2; 0] 0 2 = Some (Some 4) /\
  uc_get_str [8; 0; 1; 0; 4; 0; 2; 0] 0 2 = None.
Proof. split; vm_compute; reflexivity. Qed.

(** After an overflow [uc_add_str] takes the empty length for the end of the
    message: it writes over the header and gives the message a length again. *)
Lemma uc_add_str_revives cap s tail :
  Forall (fun c => c <> 0) s -> zlen s < 1024 -> zlen s + 1 <= 2 + zlen tail <= cap -> zlen s < 65535 ->
  uc_add_str (Ucbuf (0 :: 0 :: tail) cap) (s ++ [0]) =
  (b ← awrite (0 :: 0 :: tail) 0 (s ++ [0]); b ← set_len b 0 (zlen s + 1); Some (Ucbuf b cap)).
Proof.
  intros Hs Hl Ht Hu. unfold uc_add_str. cbn [uc_buf uc_len]. unfold at_len.
  rewrite (get16_head 0 tail : get16 (0 :: 0 :: tail) 0 = Some 0), Some_bind.
  rewrite strnlen_l_string by done. rewrite Some_bind, Z.min_l by lia.
  zcases. rewrite aread_all by (rewrite length_app; simpl; lia). done.
Qed.

