(* ===== verification/Sys.v ===== *)
(** * System calls of an arbitrary kernel

    The kernel is not part of the program.  It is a function of everything that
    happened so far and of the call, so it may answer anything, and differently
    each time.  A computation that calls it extends the trace of the calls and
    their replies; a fault of the program itself (an access outside of an
    array) is [None]. *)
From S2P Require Import Prelude Arr.

(** What a call returns, and the bytes it stored for the caller. *)
Record reply := Reply { ret : Z; out : list Z }.

Section sys.
Context {C : Type}.

Definition trace := list (C * reply).
Definition kernel := trace -> C -> reply.
Definition sys (A : Type) := kernel -> trace -> option (A * trace).

#[export] Instance sys_ret : MRet sys := fun A x _ t => Some (x, t).
#[export] Instance sys_bind : MBind sys := fun A B f m k t =>
  match m k t with
  | Some (x, t) => f x k t
  | None => None
  end.

(** A system call. *)
Definition call (c : C) : sys reply := fun k t => let r := k t c in Some (r, t ++ [(c, r)]).

(** A computation without system calls. *)
Definition lift {A} (o : option A) : sys A := fun _ t => x ← o; Some (x, t).

Lemma bind_mret {A B} (x : A) (f : A -> sys B) : mret x ≫= f = f x.
Proof. reflexivity. Qed.

Lemma call_bind {A} c (f : reply -> sys A) k t :
  (call c ≫= f) k t = f (k t c) k (t ++ [(c, k t c)]).
Proof. reflexivity. Qed.

Lemma lift_bind {A B} (x : A) (f : A -> sys B) k t : (lift (Some x) ≫= f) k t = f x k t.
Proof. reflexivity. Qed.

Lemma lift_inv {A B} (o : option A) (f : A -> sys B) k t y :
  (lift o ≫= f) k t = Some y -> exists x, o = Some x /\ f x k t = Some y.
Proof. unfold mbind, sys_bind, lift. destruct o; simpl; [eauto|done]. Qed.

Lemma if_sys {A} (b : bool) (x y : sys A) k t : (if b then x else y) k t = if b then x k t else y k t.
Proof. by destruct b. Qed.

End sys.

Arguments trace : clear implicits.
Arguments kernel : clear implicits.
Arguments sys : clear implicits.

