(* ===== verification/Nlsock.v ===== *)
(** * lib/nlusctl: the sockets of the control protocol

    Addresses, listening with removal of a stale socket, connecting, and the
    calls that send and receive the messages of [Nlusctl]. *)
From S2P Require Import Prelude Arr Sys Nlusctl.

(** The calls of this component; an address is its path array, an I/O vector
    the list of its blocks. *)
Inductive sockcall :=
  | Bind (fd : Z) (addr : list Z)
  | Connect (fd : Z) (addr : list Z)
  | Listen (fd backlog : Z)
  | Unlink (path : list Z)
  | Sendmsg (fd : Z) (iov : list (list Z)) (control : list Z) (flags : Z)
  | Recvmsg (fd len controllen flags : Z)
  | Ppoll (fd events sec : Z).

Definition POLLOUT : Z := 4.
Definition MSG_NOSIGNAL : Z := 0x4000.

(** [lib/nlusctl/addr.c: uc_address 13-16] the copy up to the NUL or the end of the array *)
Fixpoint addr_copy (addr : list Z) (p e : Z) (q : list Z) : option (list Z * Z) :=
  if p <? e then
    match q with
    | [] => None
    | c :: q => if c =? 0 then Some (addr, p) else addr ← zput addr p c; addr_copy addr (p + 1) e q
    end
  else Some (addr, p).

(** [lib/nlusctl/addr.c: uc_address] [addr] is the path array of the address *)
Definition uc_address (addr path : list Z) : option (Z * list Z) :=
  let e := zlen addr in
  '(addr, p) ← addr_copy addr 0 e path;
  if e <=? p then Some (- ENAMETOOLONG, addr)
  else addr ← zput addr p 0; Some (0, addr).

(** [lib/nlusctl/addr_bind.c: uc_listen] [junk] is the uninitialised local *)
Definition uc_listen (junk : list Z) (fd : Z) (path : list Z) (backlog : Z) : sys sockcall Z :=
  '(r, addr) ← lift (uc_address junk path);
  if r <? 0 then mret r
  else
    r ← call (Bind fd addr);
    let got := r ← call (Listen fd backlog); mret (s32 (ret r)) in
    let ret1 := s32 (ret r) in
    if 0 <=? ret1 then got
    else if negb (ret1 =? - EADDRINUSE) then mret ret1
    else
      c ← call (Connect fd addr);
      if negb (ret c =? - ECONNREFUSED) then mret ret1
      else
        r ← call (Unlink addr);
        if s32 (ret r) <? 0 then mret (s32 (ret r))
        else
          r ← call (Bind fd addr);
          if s32 (ret r) <? 0 then mret (s32 (ret r))
          else got.

(** [lib/nlusctl/addr_conn.c: uc_connect] *)
Definition uc_connect (junk : list Z) (fd : Z) (path : list Z) : sys sockcall Z :=
  '(r, addr) ← lift (uc_address junk path);
  if r <? 0 then mret r
  else r ← call (Connect fd addr); mret (s32 (ret r)).

(** [lib/nlusctl/send.c: uc_send] *)
Definition uc_send (fd : Z) (uc : ucbuf) : sys sockcall Z :=
  '(r, iov) ← lift (uc_iov_hdr uc);
  match iov with
  | None => mret r
  | Some (base, len) =>
      b ← lift (aread (uc_buf uc) base len);
      r ← call (Sendmsg fd [b] [] MSG_NOSIGNAL); mret (s32 (ret r))
  end.

(** [lib/nlusctl/send_aux.c: uc_send_aux] *)
Definition uc_send_aux (fd : Z) (uc : ucbuf) (ux : ucaux) : sys sockcall Z :=
  '(r, iov) ← lift (uc_iov_hdr uc);
  match iov with
  | None => mret r
  | Some (base, len) =>
      if ux_ptr ux <? 0 then mret (- ENOBUFS)
      else
        b ← lift (aread (uc_buf uc) base len);
        c ← lift (aread (ux_buf ux) 0 (ux_ptr ux));
        r ← call (Sendmsg fd [b] c MSG_NOSIGNAL); mret (s32 (ret r))
  end.

(** [lib/nlusctl/send_iov.c: uc_send_iov] *)
Definition uc_send_iov (fd : Z) (iov : list (list Z)) : sys sockcall Z :=
  r ← call (Sendmsg fd iov [] MSG_NOSIGNAL); mret (s32 (ret r)).

(** [lib/nlusctl/recv.c: uc_recv] the kernel stores what it received from
    [buf + 2] on, at most [len - 2] bytes *)
Definition uc_recv (fd : Z) (buf : list Z) (len : Z) : sys sockcall (Z * list Z) :=
  r ← call (Recvmsg fd (len - 2) 0 0);
  buf ← lift (awrite buf 2 (take (Z.to_nat (len - 2)) (out r)));
  mret (s32 (ret r), buf).

(** [lib/nlusctl/wait.c: uc_wait_writable] *)
Definition uc_wait_writable (fd : Z) : sys sockcall Z :=
  r ← call (Ppoll fd POLLOUT 1);
  let ret := s32 (ret r) in
  if ret <? 0 then mret ret
  else if ret =? 0 then mret (- ETIMEDOUT)
  else mret 0.

(** ** Addresses *)

Lemma addr_copy_string s : Forall (fun c => c <> 0) s -> forall pre junk,
  zlen s < zlen junk ->
  addr_copy (pre ++ junk) (zlen pre) (zlen (pre ++ junk)) (s ++ [0]) =
  Some (pre ++ s ++ drop (length s) junk, zlen pre + zlen s).
Proof.
  induction 1 as [|c s Hc Hs IH]; intros pre junk Hl; cbn [length app] in *.
  - cbn [addr_copy]. rewrite length_app. zcases; by rewrite Z.add_0_r.
  - destruct junk as [|j junk]; [simpl in Hl; lia|]. cbn [addr_copy length] in *.
    rewrite length_app. cbn [length]. zcases. rewrite zput_Some by (rewrite length_app; simpl; lia).
    rewrite Some_bind, Nat2Z.id.
    assert (<[length pre:=c]> (pre ++ j :: junk) = (pre ++ [c]) ++ junk) as ->.
    { rewrite insert_app_r_alt, Nat.sub_diag by lia. simpl. by rewrite <- app_assoc. }
    specialize (IH (pre ++ [c]) junk ltac:(lia)). rewrite length_app in IH.
    rewrite length_app, length_app in IH. cbn [length] in IH.
    replace (zlen pre + 1) with (Z.of_nat (length pre + 1)) by lia.
    replace (Z.of_nat (length pre + S (length junk))) with (Z.of_nat (length pre + 1 + length junk)) by lia.
    rewrite IH. cbn [drop]. rewrite <- !app_assoc. cbn [app]. do 2 f_equal. lia.
Qed.

Lemma addr_copy_long s : Forall (fun c => c <> 0) s -> forall pre junk rest,
  zlen junk <= zlen s ->
  exists a, addr_copy (pre ++ junk) (zlen pre) (zlen (pre ++ junk)) (s ++ rest) =
  Some (a, zlen (pre ++ junk)).
Proof.
  induction 1 as [|c s Hc Hs IH]; intros pre junk rest Hl; cbn [length app] in *.
  - destruct junk; [|simpl in Hl; lia]. rewrite app_nil_r. exists pre.
    destruct rest; cbn [addr_copy]; zcases; done.
  - destruct junk as [|j junk]; cbn [addr_copy length] in *; rewrite length_app; cbn [length]; zcases.
    { rewrite app_nil_r. eexists. do 2 f_equal. lia. }
    rewrite zput_Some by (rewrite length_app; simpl; lia). rewrite Some_bind, Nat2Z.id.
    assert (<[length pre:=c]> (pre ++ j :: junk) = (pre ++ [c]) ++ junk) as ->.
    { rewrite insert_app_r_alt, Nat.sub_diag by lia. simpl. by rewrite <- app_assoc. }
    destruct (IH (pre ++ [c]) junk rest ltac:(lia)) as (a & Ha). exists a.
    rewrite !length_app in Ha. cbn [length] in Ha.
    replace (zlen pre + 1) with (Z.of_nat (length pre + 1)) by lia.
    replace (Z.of_nat (length pre + S (length junk))) with (Z.of_nat (length pre + 1 + length junk)) by lia.
    done.
Qed.

(** [uc_address] takes the names that leave room for the NUL and no others. *)
Lemma uc_address_spec junk s :
  Forall (fun c => c <> 0) s ->
  exists a, uc_address junk (s ++ [0]) =
    Some (if zlen s <? zlen junk then 0 else - ENAMETOOLONG, a) /\
    (zlen s < zlen junk -> exists rest, a = s ++ 0 :: rest).
Proof.
  intros Hs. unfold uc_address. destruct (Z.ltb_spec (zlen s) (zlen junk)) as [Hl|Hl].
  - pose proof (addr_copy_string s Hs [] junk Hl) as H. cbn [app length] in H.
    change (Z.of_nat 0) with 0 in H. rewrite H, Some_bind, Z.add_0_l. zcases.
    rewrite zput_Some by (rewrite length_app, length_drop; lia). rewrite Some_bind.
    eexists. split; [done|]. intros _. rewrite Nat2Z.id, insert_app_r_alt, Nat.sub_diag by lia.
    destruct (drop (length s) junk) as [|x l] eqn:E.
    { apply (f_equal length) in E. rewrite length_drop in E. simpl in E. lia. }
    by exists l.
  - destruct (addr_copy_long s Hs [] junk [0] Hl) as (a & H). cbn [app length] in H.
    change (Z.of_nat 0) with 0 in H. rewrite H, Some_bind. zcases. exists a. split; [done|lia].
Qed.

(** ** Listening *)

(** The calls of [uc_listen] with their results, as a state machine. *)
Inductive listen_trace (addr : list Z) (fd backlog : Z) : Z -> trace sockcall -> Prop :=
  | L_bound r1 r2 : 0 <= s32 (ret r1) ->
      listen_trace addr fd backlog (s32 (ret r2)) [(Bind fd addr, r1); (Listen fd backlog, r2)]
  | L_error r1 : s32 (ret r1) < 0 -> s32 (ret r1) <> - EADDRINUSE ->
      listen_trace addr fd backlog (s32 (ret r1)) [(Bind fd addr, r1)]
  | L_alive r1 r2 : s32 (ret r1) = - EADDRINUSE -> ret r2 <> - ECONNREFUSED ->
      listen_trace addr fd backlog (- EADDRINUSE) [(Bind fd addr, r1); (Connect fd addr, r2)]
  | L_unlink r1 r2 r3 : s32 (ret r1) = - EADDRINUSE -> ret r2 = - ECONNREFUSED ->
      s32 (ret r3) < 0 ->
      listen_trace addr fd backlog (s32 (ret r3))
        [(Bind fd addr, r1); (Connect fd addr, r2); (Unlink addr, r3)]
  | L_rebind r1 r2 r3 r4 : s32 (ret r1) = - EADDRINUSE -> ret r2 = - ECONNREFUSED ->
      0 <= s32 (ret r3) -> s32 (ret r4) < 0 ->
      listen_trace addr fd backlog (s32 (ret r4))
        [(Bind fd addr, r1); (Connect fd addr, r2); (Unlink addr, r3); (Bind fd addr, r4)]
  | L_stale r1 r2 r3 r4 r5 : s32 (ret r1) = - EADDRINUSE -> ret r2 = - ECONNREFUSED ->
      0 <= s32 (ret r3) -> 0 <= s32 (ret r4) ->
      listen_trace addr fd backlog (s32 (ret r5))
        [(Bind fd addr, r1); (Connect fd addr, r2); (Unlink addr, r3); (Bind fd addr, r4);
         (Listen fd backlog, r5)].


