(* ===== verification/Netlink.v ===== *)
(** * lib/netlink: netlink messages

    Packing of requests into a buffer, access to the attributes of a received
    message, and the shift buffer that cuts the incoming stream into messages.
    Pointers are offsets into the buffer; NULL is the inner [None], an access
    outside of the buffer the outer one. *)
From S2P Require Import Prelude Arr Sys Nlusctl.

Definition EINVAL : Z := 22.

(** [sizeof(struct nlmsg)], [sizeof(struct nlattr)], [sizeof(struct nlgen)],
    [sizeof(struct nlerr)] *)
Definition nlmsg_size : Z := 16.
Definition nlattr_size : Z := 4.
Definition nlgen_size : Z := 20.
Definition nlerr_size : Z := 36.

(** The fields of a message or attribute at an offset. *)
Definition msg_len (buf : list Z) (msg : Z) : option Z := get32 buf msg.
Definition msg_type (buf : list Z) (msg : Z) : option Z := get16 buf (msg + 4).
Definition nla_len (buf : list Z) (at_ : Z) : option Z := get16 buf at_.
Definition nla_type (buf : list Z) (at_ : Z) : option Z := get16 buf (at_ + 2).

(** ** Packing *)

(** [lib/netlink/pack.h: ncbuf] [brk] is the start of [nc_mem] *)
Record ncbuf := Ncbuf { nc_mem : list Z; nc_ptr : Z; nc_end : Z }.

(** [lib/netlink/pack.c: nc_buf_set] *)
Definition nc_buf_set (buf : list Z) (size : Z) : ncbuf := Ncbuf buf 0 size.

(** [lib/netlink/pack_head.c: nc_header] *)
Definition nc_header (nc : ncbuf) (type flags seq : Z) : option ncbuf :=
  let e := nc_end nc in
  let ptr := nlmsg_size in
  if e <? ptr then Some (Ncbuf (nc_mem nc) (e + 1) e)
  else
    m ← put16 (nc_mem nc) 4 (u16 type);
    m ← put16 m 6 (u16 (Z.lor 1 flags));
    m ← put32 m 8 (u32 seq);
    m ← put32 m 12 0;
    Some (Ncbuf m ptr e).

(** [lib/netlink/pack_rtnl.c: nc_fixed] *)
Definition nc_fixed (nc : ncbuf) (size : Z) : option (ncbuf * option Z) :=
  let e := nc_end nc in
  let hdrlen := nlmsg_size in
  let over := Some (Ncbuf (nc_mem nc) (e + 1) e, None) in
  if size <=? hdrlen then over
  else if negb (nc_ptr nc =? hdrlen) then over
  else
    let ptr := size in
    if e <? ptr then over
    else
      m ← afill (nc_mem nc) hdrlen 0 (size - hdrlen);
      Some (Ncbuf m ptr e, Some 0).

(** [lib/netlink/pack_genl.c: nc_gencmd] *)
Definition nc_gencmd (nc : ncbuf) (cmd ver : Z) : option ncbuf :=
  '(nc, gen) ← nc_fixed nc nlgen_size;
  match gen with
  | None => Some nc
  | Some g =>
      m ← zput (nc_mem nc) (g + 16) (u8 cmd);
      m ← zput m (g + 17) (u8 ver);
      Some (Ncbuf m (nc_ptr nc) (nc_end nc))
  end.

(** [lib/netlink/pack_atts.c: nc_put_] *)
Definition nc_put_ (nc : ncbuf) (key len : Z) : option (ncbuf * option Z) :=
  let r := nc_ptr nc in
  let e := nc_end nc in
  let full := u32 (nlattr_size + len) in
  let need := Z.land (u32 (full + 3)) (Z.lnot 3) in
  let ptr := r + need in
  if (e <? r) || (r <? 0) then Some (nc, None)
  else if e <? ptr then Some (Ncbuf (nc_mem nc) (e + 1) e, None)
  else if ptr <? nlattr_size + 12 then Some (nc, None)
  else
    m ← (if full <? need then put32 (nc_mem nc) (r + Z.land full (Z.lnot 3)) 0
         else Some (nc_mem nc));
    m ← put16 m (r + 2) (u16 key);
    m ← put16 m r (u16 full);
    Some (Ncbuf m ptr e, Some (r + nlattr_size)).

(** [lib/netlink/pack_atts.c: nc_put] *)
Definition nc_put (nc : ncbuf) (key : Z) (data : list Z) (size : Z) : option ncbuf :=
  '(nc, dst) ← nc_put_ nc key size;
  match dst with
  | None => Some nc
  | Some dst =>
      s ← aread data 0 size;
      m ← awrite (nc_mem nc) dst s;
      Some (Ncbuf m (nc_ptr nc) (nc_end nc))
  end.

(** [lib/netlink/pack_atts.c: nc_put_int] *)
Definition nc_put_int (nc : ncbuf) (key val : Z) : option ncbuf :=
  '(nc, dst) ← nc_put_ nc key 4;
  match dst with
  | None => Some nc
  | Some dst => m ← put32 (nc_mem nc) dst (u32 val); Some (Ncbuf m (nc_ptr nc) (nc_end nc))
  end.

(** [lib/netlink/pack_atts.c: nc_put_byte] *)
Definition nc_put_byte (nc : ncbuf) (key val : Z) : option ncbuf :=
  '(nc, dst) ← nc_put_ nc key 1;
  match dst with
  | None => Some nc
  | Some dst => m ← zput (nc_mem nc) dst val; Some (Ncbuf m (nc_ptr nc) (nc_end nc))
  end.

(** [lib/netlink/pack_atts.c: nc_put_str] *)
Definition nc_put_str (nc : ncbuf) (key : Z) (str : list Z) : option ncbuf :=
  n ← strnlen_l str 1024;
  let len := n + 1 in
  '(nc, dst) ← nc_put_ nc key len;
  match dst with
  | None => Some nc
  | Some dst =>
      s ← aread str 0 len;
      m ← awrite (nc_mem nc) dst s;
      Some (Ncbuf m (nc_ptr nc) (nc_end nc))
  end.

(** [lib/netlink/pack_atts.c: nc_put_flag] *)
Definition nc_put_flag (nc : ncbuf) (key : Z) : option ncbuf :=
  '(nc, _) ← nc_put_ nc key 0; Some nc.

(** [lib/netlink/pack_nest.c: nc_put_nest] *)
Definition nc_put_nest (nc : ncbuf) (type : Z) : option (ncbuf * option Z) :=
  let len := nlattr_size in
  let r := nc_ptr nc in
  let e := nc_end nc in
  let ptr := r + len in
  if (e <? r) || (r <? 0) then Some (nc, None)
  else if e <? ptr then Some (Ncbuf (nc_mem nc) (e + 1) e, None)
  else if ptr <? nlmsg_size then Some (nc, None)
  else m ← put16 (nc_mem nc) (r + 2) (u16 type); Some (Ncbuf m ptr e, Some r).

(** [lib/netlink/pack_nest.c: nc_end_nest] a NULL nest is below the buffer *)
Definition nc_end_nest (nc : ncbuf) (a : option Z) : option ncbuf :=
  match a with
  | None => Some nc
  | Some atp =>
      let ptr := nc_ptr nc in
      if (atp <? 0) || (ptr <? atp) then Some nc
      else if ptr <? atp + nlattr_size then Some nc
      else m ← put16 (nc_mem nc) atp (u16 (ptr - atp)); Some (Ncbuf m ptr (nc_end nc))
  end.

Inductive nlcall :=
  | Send (fd : Z) (msg : list Z) (flags : Z)
  | Recv (fd len flags : Z).

(** [lib/netlink/pack_send.c: nc_send] *)
Definition nc_send (fd : Z) (nc : ncbuf) : sys nlcall (ncbuf * Z) :=
  let ptr := nc_ptr nc in
  let e := nc_end nc in
  if (e <? ptr) || (ptr <? 0) then mret (nc, - ENOBUFS)
  else if ptr <? nlmsg_size then mret (nc, - EINVAL)
  else
    m ← lift (put32 (nc_mem nc) 0 (u32 ptr));
    b ← lift (aread m 0 ptr);
    r ← call (Send fd b 0);
    mret (Ncbuf m ptr e, s32 (ret r)).

(** ** Attributes of a message *)

(** [lib/netlink/cast_msg.c: nl_msg] *)
Definition nl_msg (buf : list Z) (msg len : Z) : option (option Z) :=
  if len <? 0 then Some None
  else if len <? nlmsg_size then Some None
  else n ← msg_len buf msg; if len <? n then Some None else Some (Some msg).

(** [lib/netlink/pack_dump.c: nc_msg] *)
Definition nc_msg (nc : ncbuf) : option (ncbuf * option Z) :=
  let ptr := nc_ptr nc in
  let e := nc_end nc in
  if (e <? ptr) || (ptr <? 0) then Some (nc, None)
  else if ptr <? nlmsg_size then Some (nc, None)
  else
    m ← put32 (nc_mem nc) 0 (u32 ptr);
    r ← nl_msg m 0 (s32 ptr);
    Some (Ncbuf m ptr e, r).

(** [lib/netlink/cast.c: nl_cast] *)
Definition nl_cast (buf : list Z) (msg size : Z) : option (option Z) :=
  n ← msg_len buf msg; if n <? size then Some None else Some (Some msg).

(** [lib/netlink/cast_err.c: nl_err] *)
Definition nl_err (buf : list Z) (msg : Z) : option (option Z) :=
  t ← msg_type buf msg;
  if negb (t =? 2) then Some None
  else n ← msg_len buf msg; if n <? nlerr_size then Some None else Some (Some msg).

(** [lib/netlink/cast_gen.c: nl_gen] *)
Definition nl_gen (buf : list Z) (msg : Z) : option (option Z) :=
  n ← msg_len buf msg;
  if n <? nlgen_size then Some None
  else t ← msg_type buf msg; if t <? 16 then Some None else Some (Some msg).

(** [lib/netlink/attr_bin.c: nl_bin] *)
Definition nl_bin (buf : list Z) (a : option Z) (len : Z) : option (option Z) :=
  match a with
  | None => Some None
  | Some a => n ← nla_len buf a; Some (if u64 (n - nlattr_size) =? len then Some (a + nlattr_size) else None)
  end.

(** [lib/netlink/attr_buf.c: extend_to_4bytes] *)
Definition extend_to_4bytes (n : Z) : Z := n + Z.land (4 - Z.land n 3) 3.

(** [lib/netlink/attr_buf.c: nl_attr_0_in] *)
Definition nl_attr_0_in (buf : list Z) (p len : Z) : option (option Z) :=
  if len <? nlattr_size then Some None
  else n ← nla_len buf p; if len <? n then Some None else Some (Some p).

(** [lib/netlink/attr_buf.c: ptr_in_buf] *)
Definition ptr_in_buf (buf len ptr : Z) : bool :=
  if ptr <? buf then false else if buf + len <=? ptr then false else true.

(** [lib/netlink/attr_buf.c: nl_attr_n_in] *)
Definition nl_attr_n_in (buf : list Z) (p len curr : Z) : option (option Z) :=
  if negb (ptr_in_buf p len curr) then Some None
  else
    n ← nla_len buf curr;
    if n <? nlattr_size then Some None
    else
      let pnext := curr + extend_to_4bytes n in
      if negb (ptr_in_buf p len pnext) then Some None else Some (Some pnext).

(** [lib/netlink/attr_buf.c: nl_attr_k_in 54-56] *)
Fixpoint nl_attr_loop (fuel : nat) (buf : list Z) (p len type : Z) (a : option Z)
    : option (option Z) :=
  match a with
  | None => Some None
  | Some a =>
      match fuel with
      | O => None
      | S fuel =>
          t ← nla_type buf a;
          if t =? type then Some (Some a)
          else a' ← nl_attr_n_in buf p len a; nl_attr_loop fuel buf p len type a'
      end
  end.

(** [lib/netlink/attr_buf.c: nl_attr_k_in] *)
Definition nl_attr_k_in (buf : list Z) (p len type : Z) : option (option Z) :=
  a ← nl_attr_0_in buf p len;
  nl_attr_loop (length buf) buf p len type a.

(** [lib/netlink/attr_nst.c: nl_check_nest 18-25] *)
Fixpoint nest_loop (fuel : nat) (buf : list Z) (p e : Z) : option Z :=
  if p <? e then
    match fuel with
    | O => None
    | S fuel =>
        n ← nla_len buf p;
        let skip := u16 (extend_to_4bytes n) in
        if skip =? 0 then Some p else nest_loop fuel buf (p + skip) e
    end
  else Some p.

(** [lib/netlink/attr_nst.c: nl_check_nest] *)
Definition nl_check_nest (buf : list Z) (p len : Z) : option bool :=
  let e := p + len in
  if len <=? nlattr_size then Some false
  else q ← nest_loop (length buf) buf p e; Some (q =? e).

(** [ATPAYLOAD(at)]: the length is a [size_t] *)
Definition atpayload (buf : list Z) (a : Z) : option (Z * Z) :=
  n ← nla_len buf a; Some (a + nlattr_size, u64 (n - nlattr_size)).

(** [lib/netlink/attr_nst.c: nl_attr_is_nest] *)
Definition nl_attr_is_nest (buf : list Z) (a : option Z) : option bool :=
  match a with
  | None => Some false
  | Some a => '(p, n) ← atpayload buf a; nl_check_nest buf p n
  end.

(** [lib/netlink/attr_nst.c: nl_nest] *)
Definition nl_nest (buf : list Z) (a : option Z) : option (option Z) :=
  match a with
  | None => Some None
  | Some a => '(p, n) ← atpayload buf a; b ← nl_check_nest buf p n; Some (if b : bool then Some a else None)
  end.

(** [lib/netlink/attr_str.c: nl_check_zstr 9-11] *)
Fixpoint nl_zstr_loop (fuel : nat) (buf : list Z) (p i len : Z) : option Z :=
  if i <? len then
    match fuel with
    | O => None
    | S fuel => c ← zget buf (p + i); if c =? 0 then Some i else nl_zstr_loop fuel buf p (i + 1) len
    end
  else Some i.

(** [lib/netlink/attr_str.c: nl_check_zstr] *)
Definition nl_check_zstr (buf : list Z) (p len : Z) : option bool :=
  i ← nl_zstr_loop (S (length buf)) buf p 0 len;
  if len <=? i then Some false
  else if i <? len - 1 then Some false
  else Some true.

(** [lib/netlink/attr_str.c: nl_attr_is_zstr] *)
Definition nl_attr_is_zstr (buf : list Z) (a : Z) : option bool :=
  '(p, n) ← atpayload buf a; nl_check_zstr buf p n.

(** [lib/netlink/attr_str.c: nl_str] NULL is dereferenced *)
Definition nl_str (buf : list Z) (a : option Z) : option (option Z) :=
  a ← a;
  '(p, n) ← atpayload buf a; b ← nl_check_zstr buf p n;
  Some (if b : bool then Some (a + nlattr_size) else None).

(** [lib/netlink/attr_gen.c: nl_paylen] *)
Definition nl_paylen (buf : list Z) (a : Z) : option Z := n ← nla_len buf a; Some (n - nlattr_size).

(** [lib/netlink/attr_gen.c: nl_payload] *)
Definition nl_payload (a : Z) : Z := a + nlattr_size.

(** [NLPAYLOAD(msg)] of a [struct nlgen] *)
Definition nlpayload (buf : list Z) (msg : Z) : option (Z * Z) :=
  n ← msg_len buf msg; Some (msg + nlgen_size, u64 (n - nlgen_size)).

(** [lib/netlink/attr_gen.c: nl_get] *)
Definition nl_get (buf : list Z) (msg type : Z) : option (option Z) :=
  '(p, n) ← nlpayload buf msg; nl_attr_k_in buf p n type.

(** [lib/netlink/attr_gen.c: nl_get_0] *)
Definition nl_get_0 (buf : list Z) (msg : Z) : option (option Z) :=
  '(p, n) ← nlpayload buf msg; nl_attr_0_in buf p n.

(** [lib/netlink/attr_gen.c: nl_get_n] *)
Definition nl_get_n (buf : list Z) (msg cur : Z) : option (option Z) :=
  '(p, n) ← nlpayload buf msg; nl_attr_n_in buf p n cur.

(** [lib/netlink/attr_gen.c: nl_get_of_len] *)
Definition nl_get_of_len (buf : list Z) (msg type len : Z) : option (option Z) :=
  a ← nl_get buf msg type;
  match a with
  | None => Some None
  | Some a => n ← nla_len buf a; Some (if n =? nlattr_size + len then Some (a + nlattr_size) else None)
  end.

(** [lib/netlink/attr_gen.c: nl_get_nest] *)
Definition nl_get_nest (buf : list Z) (msg type : Z) : option (option Z) :=
  a ← nl_get buf msg type; nl_nest buf a.

(** [lib/netlink/attr_gen.c: nl_get_str] *)
Definition nl_get_str (buf : list Z) (msg type : Z) : option (option Z) :=
  a ← nl_get buf msg type; nl_str buf a.

(** [lib/netlink/attr_sub.c: nl_sub_0] *)
Definition nl_sub_0 (buf : list Z) (a : Z) : option (option Z) :=
  '(p, n) ← atpayload buf a; nl_attr_0_in buf p n.

(** [lib/netlink/attr_sub.c: nl_sub_n] *)
Definition nl_sub_n (buf : list Z) (a cur : Z) : option (option Z) :=
  '(p, n) ← atpayload buf a; nl_attr_n_in buf p n cur.

(** [lib/netlink/attr_sub.c: nl_sub] *)
Definition nl_sub (buf : list Z) (a type : Z) : option (option Z) :=
  '(p, n) ← atpayload buf a; nl_attr_k_in buf p n type.

(** [lib/netlink/attr_sub.c: nl_sub_of_len] *)
Definition nl_sub_of_len (buf : list Z) (a type len : Z) : option (option Z) :=
  k ← nl_sub buf a type;
  match k with
  | None => Some None
  | Some k => n ← nla_len buf k; Some (if n =? nlattr_size + len then Some (k + nlattr_size) else None)
  end.

(** [lib/netlink/attr_sub.c: nl_sub_str] *)
Definition nl_sub_str (buf : list Z) (a type : Z) : option (option Z) :=
  k ← nl_sub buf a type; nl_str buf k.

(** ** The receive buffer *)

(** [lib/netlink/recv.h: nrbuf] [buf] is the start of [nr_mem] *)
Record nrbuf := Nrbuf { nr_mem : list Z; nr_msg : Z; nr_ptr : Z; nr_end : Z }.

(** [lib/netlink/recv.c: nr_buf_set] *)
Definition nr_buf_set (buf : list Z) (len : Z) : nrbuf := Nrbuf buf 0 0 len.

(** [lib/netlink/recv_reset.c: nr_reset] *)
Definition nr_reset (nr : nrbuf) : nrbuf := Nrbuf (nr_mem nr) 0 0 (nr_end nr).

(** [lib/netlink/recv_simple.c: nl_recv] *)
Definition nl_recv (fd : Z) (buf : list Z) (len : Z) : sys nlcall (Z * list Z) :=
  r ← call (Recv fd len 0);
  buf ← lift (awrite buf 0 (take (Z.to_nat len) (out r)));
  mret (s32 (ret r), buf).

(** [lib/netlink/recv.c: nr_recv] *)
Definition nr_recv (fd : Z) (nr : nrbuf) : sys nlcall (nrbuf * Z) :=
  let ptr := nr_ptr nr in
  let e := nr_end nr in
  if (ptr <? 0) || (e <=? ptr) then mret (nr, - ENOBUFS)
  else
    let left := e - ptr in
    r ← call (Recv fd left 0);
    m ← lift (awrite (nr_mem nr) ptr (take (Z.to_nat left) (out r)));
    mret (Nrbuf m (nr_msg nr) (if 0 <? ret r then ptr + ret r else ptr) e, s32 (ret r)).

(** [lib/netlink/recv.c: nr_next] *)
Definition nr_next (nr : nrbuf) : option (nrbuf * option Z) :=
  let ptr := nr_ptr nr in
  let msg := nr_msg nr in
  let e := nr_end nr in
  if (msg <? 0) || (e <=? msg) then Some (nr, None)
  else
    let len := ptr - msg in
    nlm ← nl_msg (nr_mem nr) msg (s32 len);
    match nlm with
    | Some nlm =>
        n ← msg_len (nr_mem nr) nlm;
        let msg := msg + s32 n in
        if msg <? ptr then Some (Nrbuf (nr_mem nr) msg ptr e, Some nlm)
        else Some (Nrbuf (nr_mem nr) 0 0 e, Some nlm)
    | None =>
        if 0 <? msg then
          s ← aread (nr_mem nr) msg len;
          m ← awrite (nr_mem nr) 0 s;
          Some (Nrbuf m 0 len e, None)
        else Some (nr, None)
    end.

(** ** What the packing functions encode *)

Inductive nlitem :=
  | NPut (key : Z) (data : list Z)
  | NInt (key v : Z)
  | NByte (key v : Z)
  | NStr (key : Z) (s : list Z)
  | NFlag (key : Z)
  | NNest (key : Z) (l : list nlitem).

Fixpoint nl_put (nc : ncbuf) (x : nlitem) {struct x} : option ncbuf :=
  match x with
  | NPut k d => nc_put nc k d (zlen d)
  | NInt k v => nc_put_int nc k v
  | NByte k v => nc_put_byte nc k v
  | NStr k s => nc_put_str nc k (s ++ [0])
  | NFlag k => nc_put_flag nc k
  | NNest k l =>
      '(nc, a) ← nc_put_nest nc k;
      nc ← seqM nl_put l nc;
      nc_end_nest nc a
  end.

Definition nkey (x : nlitem) : Z :=
  match x with NPut k _ | NInt k _ | NByte k _ | NStr k _ | NFlag k | NNest k _ => k end.

Fixpoint nl_enc (x : nlitem) : list Z :=
  let p := match x with
           | NPut _ d => d
           | NInt _ v => le_bytes 4 v
           | NByte _ v => [v]
           | NStr _ s => s ++ [0]
           | NFlag _ => []
           | NNest _ l => concat (map nl_enc l)
           end in
  enc_block (zlen p + 4) (nkey x) p.

Definition nl_data (x : nlitem) : list Z :=
  match x with
  | NPut _ d => d
  | NInt _ v => le_bytes 4 v
  | NByte _ v => [v]
  | NStr _ s => s ++ [0]
  | NFlag _ => []
  | NNest _ l => concat (map nl_enc l)
  end.

(** Strings without zeroes below the limit of [strnlen]; lengths that fit. *)
Fixpoint nl_wf (x : nlitem) : Prop :=
  match x with
  | NPut _ d => zlen d <= 2 ^ 30
  | NStr _ s => Forall (fun c => c <> 0) s /\ zlen s < 1024
  | NNest _ l => foldr (fun x P => nl_wf x /\ P) True l
  | _ => True
  end.

(** A generic netlink request. *)
Definition genl_message (type flags seq cmd ver : Z) (l : list nlitem) : list Z :=
  let p := concat (map nl_enc l) in
  le_bytes 4 (zlen p + nlgen_size) ++ le_bytes 2 type ++ le_bytes 2 (Z.lor 1 flags) ++
  le_bytes 4 seq ++ le_bytes 4 0 ++ [u8 cmd; u8 ver; 0; 0] ++ p.

(** The calls that build it. *)
Definition genl_build (buf : list Z) (type flags seq cmd ver : Z) (l : list nlitem) : option ncbuf :=
  nc ← nc_header (nc_buf_set buf (zlen buf)) type flags seq;
  nc ← nc_gencmd nc cmd ver;
  seqM nl_put l nc.

Section nlitem_ind.
Variable P : nlitem -> Prop.
Hypotheses (HP : forall k d, P (NPut k d)) (HI : forall k v, P (NInt k v))
  (HB : forall k v, P (NByte k v)) (HS : forall k s, P (NStr k s)) (HF : forall k, P (NFlag k))
  (HN : forall k l, Forall P l -> P (NNest k l)).

Fixpoint nlitem_nested_ind (x : nlitem) : P x :=
  match x with
  | NPut k d => HP k d
  | NInt k v => HI k v
  | NByte k v => HB k v
  | NStr k s => HS k s
  | NFlag k => HF k
  | NNest k l => HN k l ((fix go l : Forall P l :=
      match l with [] => Forall_nil_2 P | x :: l => Forall_cons_2 P x l (nlitem_nested_ind x) (go l) end) l)
  end.
End nlitem_ind.

Lemma nl_enc_eq x : nl_enc x = enc_block (zlen (nl_data x) + 4) (nkey x) (nl_data x).
Proof. by destruct x. Qed.

Lemma length_nl_enc x : zlen (nl_enc x) = align4 (zlen (nl_data x) + 4).
Proof. rewrite nl_enc_eq, length_enc_block, align4_add4. lia. Qed.

Lemma nl_enc_aligned l : align4 (zlen (concat (map nl_enc l))) = zlen (concat (map nl_enc l)).
Proof.
  induction l as [|x l IH]; simpl; [done|]. rewrite length_app, Nat2Z.inj_add.
  rewrite align4_eq in IH. rewrite length_nl_enc, !align4_eq, <- IH.
  rewrite <- Z.mul_add_distr_l. rewrite <- align4_eq. apply align4_mult.
Qed.

(** ** Packing *)

(** [b] was packed, unless it did not fit. *)
Definition nc_holds (cap : Z) (b : list Z) (nc : ncbuf) : Prop :=
  nc_end nc = cap /\ zlen (nc_mem nc) = cap /\ cap <= 65536 /\ 16 <= zlen b /\
  if decide (zlen b <= cap) then nc_ptr nc = zlen b /\ exists tail, nc_mem nc = b ++ tail
  else nc_ptr nc = cap + 1.

(** Zeroing the last word of the space for [len] bytes leaves the bytes and
    their padding. *)
Lemma zero_last a len t :
  0 <= len -> align4 len <= zlen t ->
  exists mid tail, zlen mid = len /\ zlen tail = zlen t - align4 len /\
    (if len + 4 <? align4 len + 4 then put32 (a ++ t) (zlen a + 4 * (len / 4)) 0 else Some (a ++ t)) =
    Some (a ++ mid ++ pad len ++ tail).
Proof.
  intros Hlen Ht. pose proof (align4_bounds len) as Hal. set (u := 4 * (len / 4)).
  pose proof (Z.div_mod len 4 ltac:(lia)) as Hdm. pose proof (Z.mod_pos_bound len 4 ltac:(lia)) as Hmod.
  unfold pad. destruct (Z.ltb_spec (len + 4) (align4 len + 4)) as [Hlt|Hge].
  - assert (align4 len = u + 4) as Ha.
    { unfold u. rewrite align4_eq in *. Z.div_mod_to_equations. lia. }
    exists (take (Z.to_nat u) t ++ repeat 0 (Z.to_nat (len - u))), (drop (Z.to_nat (u + 4)) t).
    split; [rewrite length_app, length_take, repeat_length; lia|].
    split; [rewrite length_drop; lia|].
    rewrite <- (take_drop (Z.to_nat u) t) at 1.
    rewrite <- (take_drop 4 (drop (Z.to_nat u) t)) at 1. rewrite drop_drop.
    unfold put32. rewrite (app_assoc a), awrite_parts; cycle 1.
    { rewrite !length_app, length_take. lia. }
    { rewrite length_le_bytes, length_take, length_drop. lia. }
    change (le_bytes 4 0) with (repeat 0 4).
    replace 4%nat with (Z.to_nat (len - u) + Z.to_nat (align4 len - len))%nat at 1 by lia.
    rewrite repeat_app. replace (Z.to_nat u + 4)%nat with (Z.to_nat (u + 4)) by lia.
    by rewrite <- !app_assoc.
  - exists (take (Z.to_nat len) t), (drop (Z.to_nat len) t).
    split; [rewrite length_take; lia|]. split; [rewrite length_drop; lia|].
    replace (Z.to_nat (align4 len - len)) with 0%nat by lia. simpl app. by rewrite take_drop.
Qed.

Lemma nc_put_space cap b nc key len :
  nc_holds cap b nc -> 0 <= len <= 2 ^ 30 ->
  exists nc' d, nc_put_ nc key len = Some (nc', d) /\ nc_end nc' = cap /\ zlen (nc_mem nc') = cap /\
    let n := zlen b + 4 + align4 len in
    if decide (n <= cap) then
      nc_ptr nc' = n /\ d = Some (zlen b + 4) /\ exists mid tail, zlen mid = len /\
        nc_mem nc' = b ++ le_bytes 2 (len + 4) ++ le_bytes 2 key ++ mid ++ pad len ++ tail
    else nc_ptr nc' = cap + 1 /\ d = None.
Proof.
  intros (He & Hz & Hcap & Hb & Hif) Hlen. unfold nc_put_, nlattr_size. rewrite He.
  rewrite (u32_small (4 + len)), (u32_small (4 + len + 3)) by lia. cbv zeta.
  change (Z.land (4 + len + 3) (Z.lnot 3)) with (align4 (4 + len)).
  rewrite (Z.add_comm 4 len), align4_add4. pose proof (align4_bounds len) as Hal.
  destruct (decide (zlen b <= cap)) as [Hle|Hgt]; cycle 1.
  { rewrite Hif. destruct (Z.ltb_spec cap (cap + 1)); [|lia].
    exists nc, None. rewrite decide_False by lia. done. }
  destruct Hif as (-> & t & Hm).
  replace ((cap <? zlen b) || (zlen b <? 0)) with false by (zcases; done).
  destruct (Z.ltb_spec cap (zlen b + (align4 len + 4))).
  { eexists _, _. rewrite decide_False by lia. done. }
  destruct (Z.ltb_spec (zlen b + (align4 len + 4)) (4 + 12)); [lia|].
  assert (zlen t = cap - zlen b) as Ht by (rewrite <- Hz, Hm, length_app; lia).
  rewrite land_m4. replace (4 * ((len + 4) / 4)) with (4 + 4 * (len / 4))
    by (replace (len + 4) with (len + 1 * 4) by lia; rewrite Z.div_add by lia; lia).
  rewrite <- (take_drop 2 t), <- (take_drop 2 (drop 2 t)), drop_drop in Hm.
  assert (length (take 2 t) = 2%nat /\ length (take 2 (drop 2 t)) = 2%nat /\
    zlen (drop (2 + 2) t) = cap - zlen b - 4) as (Ht1 & Ht2 & Ht3).
  { rewrite !length_take, !length_drop. lia. }
  set (t1 := take 2 t) in *. set (t2 := take 2 (drop 2 t)) in *. set (t3 := drop (2 + 2) t) in *.
  clearbody t1 t2 t3.
  destruct (zero_last (b ++ t1 ++ t2) len t3) as (mid & tail & Hmid & Htail & Hw); [lia..|].
  replace (zlen (b ++ t1 ++ t2) + 4 * (len / 4)) with (zlen b + (4 + 4 * (len / 4))) in Hw
    by (rewrite !length_app; lia).
  rewrite <- !app_assoc in Hw. rewrite <- Hm in Hw. rewrite Hw, Some_bind.
  rewrite (app_assoc b t1), put16_parts by (rewrite ?length_app; lia).
  rewrite Some_bind, u16_le_bytes, <- app_assoc, put16_parts by lia. rewrite Some_bind, u16_le_bytes.
  eexists _, _. rewrite decide_True by lia. split; [done|]. cbn [nc_end nc_mem nc_ptr]. split; [done|].
  split. { unfold pad. rewrite !length_app, !length_le_bytes, repeat_length. lia. }
  split; [lia|]. split; [done|]. by exists mid, tail.
Qed.

Lemma nc_put_holds cap b nc key s src :
  nc_holds cap b nc -> zlen s <= 2 ^ 30 ->
  exists nc', ('(nc, dst) ← nc_put_ nc key (zlen s);
    match dst with
    | None => Some nc
    | Some dst =>
        s ← aread (s ++ src) 0 (zlen s);
        m ← awrite (nc_mem nc) dst s; Some (Ncbuf m (nc_ptr nc) (nc_end nc))
    end) = Some nc' /\ nc_holds cap (b ++ enc_block (zlen s + 4) key s) nc'.
Proof.
  intros Hh Hs. destruct (nc_put_space cap b nc key (zlen s) Hh ltac:(lia)) as (nc' & d & -> & He & Hz & Hif).
  destruct Hh as (_ & _ & Hcap & Hb & _). rewrite Some_bind. cbv zeta in Hif.
  assert (zlen (b ++ enc_block (zlen s + 4) key s) = zlen b + 4 + align4 (zlen s)) as Hn.
  { rewrite length_app, Nat2Z.inj_add, length_enc_block. lia. }
  unfold nc_holds. rewrite Hn. destruct (decide (_ <= cap)); cycle 1.
  { destruct Hif as (Hp & ->). exists nc'. pose proof (align4_bounds (zlen s)). split_and!; auto with lia. }
  destruct Hif as (Hp & -> & mid & tail & Hmid & Hm). cbv beta iota zeta.
  rewrite (aread_parts [] s src) by done. rewrite Some_bind, Hm.
  replace (b ++ le_bytes 2 (zlen s + 4) ++ le_bytes 2 key ++ mid ++ pad (zlen s) ++ tail)
    with ((b ++ le_bytes 2 (zlen s + 4) ++ le_bytes 2 key) ++ mid ++ pad (zlen s) ++ tail)
    by (by rewrite <- !app_assoc).
  rewrite awrite_parts by (rewrite ?length_app, ?length_le_bytes; lia). rewrite Some_bind.
  eexists. split; [done|]. cbn [nc_end nc_mem nc_ptr]. pose proof (align4_bounds (zlen s)).
  split; [done|]. split.
  { rewrite <- Hz, Hm. unfold pad. rewrite !length_app. lia. }
  do 2 (split; [lia|]). split; [done|]. exists tail. unfold enc_block. fold (pad (zlen s)).
  by rewrite <- !app_assoc.
Qed.

Lemma nc_put_int_put nc key v : nc_put_int nc key v = nc_put nc key (le_bytes 4 v) 4.
Proof.
  unfold nc_put_int, nc_put. destruct (nc_put_ nc key 4) as [[nc' [d|]]|]; [|done..].
  rewrite !Some_bind. cbv beta iota zeta. rewrite aread_all by done. rewrite Some_bind.
  unfold put32, uwrap. by rewrite le_bytes_mod.
Qed.

Lemma zput_awrite (l : list Z) i x : zput l i x = awrite l i [x].
Proof.
  unfold zput, awrite. cbn [length]. destruct (Z.leb_spec 0 i); simpl; [|done].
  destruct (Z.ltb_spec i (zlen l)), (Z.leb_spec (i + Z.of_nat 1) (zlen l)); try lia; [|done].
  f_equal. rewrite insert_take_drop by lia. do 3 f_equal. lia.
Qed.

Lemma nc_put_byte_put nc key v : nc_put_byte nc key v = nc_put nc key [v] 1.
Proof.
  unfold nc_put_byte, nc_put. destruct (nc_put_ nc key 1) as [[nc' [d|]]|]; [|done..].
  rewrite !Some_bind. cbv beta iota zeta. rewrite aread_all by done. rewrite Some_bind.
  by rewrite zput_awrite.
Qed.

Lemma nc_put_flag_put nc key cap b : nc_holds cap b nc -> nc_put_flag nc key = nc_put nc key [] 0.
Proof.
  intros Hh. unfold nc_put_flag, nc_put.
  destruct (nc_put_space cap b nc key 0 Hh ltac:(lia)) as (nc' & d & -> & He & Hz & Hif).
  rewrite !Some_bind. destruct d as [d|]; [|done].
  cbv beta iota zeta in *. change (aread [] 0 0) with (Some (@nil Z)). rewrite Some_bind.
  destruct (decide _); [|by destruct Hif]. destruct Hif as (Hp & [= ->] & mid & tail & Hmid & Hm).
  rewrite awrite_Some by (rewrite ?Hz; destruct Hh as (_ & _ & _ & ? & _); simpl; change (align4 0) with 0 in *; lia).
  rewrite Some_bind. simpl length. rewrite Z.add_0_r. simpl app. rewrite take_drop. by destruct nc'.
Qed.

Lemma nc_put_str_put nc key s :
  Forall (fun c => c <> 0) s -> zlen s < 1024 ->
  nc_put_str nc key (s ++ [0]) = nc_put nc key (s ++ [0]) (zlen (s ++ [0])).
Proof.
  intros Hs Hl. unfold nc_put_str, nc_put. rewrite strnlen_l_string by done.
  rewrite Some_bind, Z.min_l by lia. rewrite length_app. cbn [length].
  by replace (Z.of_nat (length s + 1)) with (zlen s + 1) by lia.
Qed.

Lemma nc_put_whole cap b nc key s :
  nc_holds cap b nc -> zlen s <= 2 ^ 30 ->
  exists nc', nc_put nc key s (zlen s) = Some nc' /\ nc_holds cap (b ++ enc_block (zlen s + 4) key s) nc'.
Proof.
  intros Hh Hs. destruct (nc_put_holds cap b nc key s [] Hh Hs) as (nc' & H & ?).
  rewrite app_nil_r in H. eauto.
Qed.

Lemma nc_put_nest_holds cap b nc key :
  nc_holds cap b nc ->
  exists nc' a j, nc_put_nest nc key = Some (nc', a) /\ zlen j = 2 /\
    nc_holds cap (b ++ j ++ le_bytes 2 key) nc' /\ (a = Some (zlen b) \/ a = None /\ cap < zlen b + 4).
Proof.
  intros (He & Hz & Hcap & Hb & Hif). unfold nc_put_nest, nlattr_size, nlmsg_size, nc_holds. rewrite He.
  assert (forall j, zlen j = 2 -> zlen (b ++ j ++ le_bytes 2 key) = zlen b + 4) as Hlj.
  { intros j Hj. rewrite !length_app, length_le_bytes. lia. }
  destruct (decide (zlen b <= cap)) as [Hle|Hgt]; cycle 1.
  { rewrite Hif. destruct (Z.ltb_spec cap (cap + 1)); [|lia]. exists nc, None, [0; 0].
    rewrite Hlj, decide_False by (done || lia). split_and!; auto with lia. }
  destruct Hif as (-> & t & Hm).
  replace ((cap <? zlen b) || (zlen b <? 0)) with false by (zcases; done).
  assert (zlen t = cap - zlen b) as Ht by (rewrite <- Hz, Hm, length_app; lia).
  destruct (Z.ltb_spec cap (zlen b + 4)).
  { eexists _, None, [0; 0]. rewrite Hlj, decide_False by (done || lia). split; [done|].
    cbn [nc_end nc_mem nc_ptr]. split_and!; auto with lia. }
  destruct (Z.ltb_spec (zlen b + 4) 16); [lia|].
  rewrite Hm, <- (take_drop 2 t), <- (take_drop 2 (drop 2 t)), drop_drop.
  assert (length (take 2 t) = 2%nat /\ length (take 2 (drop 2 t)) = 2%nat) as (Ht1 & Ht2).
  { rewrite !length_take, !length_drop. lia. }
  rewrite (app_assoc b), put16_parts by (rewrite ?length_app; lia). rewrite Some_bind, u16_le_bytes.
  eexists _, _, (take 2 t). split; [done|]. split; [lia|]. rewrite Hlj by lia.
  cbn [nc_end nc_mem nc_ptr]. rewrite decide_True by lia. split; [|by left].
  split; [done|]. split.
  { rewrite !length_app, length_le_bytes, length_drop. lia. }
  do 2 (split; [lia|]). split; [done|]. eexists. by rewrite <- !app_assoc.
Qed.

Lemma nc_end_nest_holds cap b nc key a j p :
  align4 (zlen p) = zlen p -> zlen j = 2 ->
  nc_holds cap ((b ++ j ++ le_bytes 2 key) ++ p) nc ->
  a = Some (zlen b) \/ a = None /\ cap < zlen b + 4 ->
  exists nc', nc_end_nest nc a = Some nc' /\ nc_holds cap (b ++ enc_block (zlen p + 4) key p) nc'.
Proof.
  intros Hp Hj (He & Hz & Hcap & Hb & Hif) Ha. rewrite enc_block_nil_pad by done. unfold nc_holds in *.
  assert (zlen ((b ++ j ++ le_bytes 2 key) ++ p) = zlen b + 4 + zlen p /\
    zlen (b ++ le_bytes 2 (zlen p + 4) ++ le_bytes 2 key ++ p) = zlen b + 4 + zlen p) as [Hn Hn'].
  { rewrite !length_app, !length_le_bytes. lia. }
  rewrite Hn in *. rewrite Hn'. unfold nc_end_nest, nlattr_size.
  destruct Ha as [->|[-> Hlt]]; cycle 1.
  { exists nc. rewrite decide_False in * by lia. split_and!; auto. }
  destruct (decide _) as [Hle|Hgt].
  - destruct Hif as (-> & tail & Hm). zcases. simpl orb. cbv iota.
    rewrite Hm. rewrite <- !app_assoc. rewrite put16_parts by lia. rewrite Some_bind, u16_le_bytes.
    eexists. split; [done|]. cbn [nc_end nc_mem nc_ptr]. split; [done|]. split.
    { rewrite <- Hz, Hm, !length_app, !length_le_bytes. lia. }
    do 2 (split; [lia|]). split; [done|]. exists tail.
    replace (zlen b + 4 + zlen p - zlen b) with (zlen p + 4) by lia. by rewrite <- !app_assoc.
  - rewrite Hif. destruct (Z.ltb_spec (zlen b) 0); [lia|].
    destruct (Z.ltb_spec (cap + 1) (zlen b)); simpl; [exists nc; split_and!; auto|].
    destruct (Z.ltb_spec (cap + 1) (zlen b + 4)); [exists nc; split_and!; auto|].
    destruct (decide (zlen b + 2 <= cap)); cycle 1; [lia|].
    unfold put16. rewrite awrite_Some by (rewrite ?length_le_bytes; lia). rewrite Some_bind.
    eexists. split; [done|]. cbn [nc_end nc_mem nc_ptr]. split; [done|]. split; [|auto].
    rewrite !length_app, length_take, length_drop, length_le_bytes. lia.
Qed.

Lemma seqM_nc_holds cap l :
  Forall (fun x => nl_wf x -> forall b nc, nc_holds cap b nc ->
    exists nc', nl_put nc x = Some nc' /\ nc_holds cap (b ++ nl_enc x) nc') l ->
  Forall nl_wf l -> forall b nc, nc_holds cap b nc ->
  exists nc', seqM nl_put l nc = Some nc' /\ nc_holds cap (b ++ concat (map nl_enc l)) nc'.
Proof.
  induction 1 as [|x l Hx _ IH]; intros Hw b nc Hh; simpl.
  { exists nc. by rewrite app_nil_r. }
  apply Forall_cons in Hw as [Hwx Hwl].
  destruct (Hx Hwx b nc Hh) as (nc1 & -> & H1). rewrite Some_bind.
  destruct (IH Hwl _ _ H1) as (nc2 & -> & H2). exists nc2. split; [done|]. by rewrite app_assoc.
Qed.

Lemma nl_put_holds cap x :
  nl_wf x -> forall b nc, nc_holds cap b nc ->
  exists nc', nl_put nc x = Some nc' /\ nc_holds cap (b ++ nl_enc x) nc'.
Proof.
  induction x as [k d|k v|k v|k s|k|k l IH] using nlitem_nested_ind; intros Hw b nc Hh;
    rewrite nl_enc_eq; cbn [nkey nl_put].
  - by apply nc_put_whole.
  - rewrite nc_put_int_put. by apply (nc_put_whole cap b nc k (le_bytes 4 v)).
  - rewrite nc_put_byte_put. by apply (nc_put_whole cap b nc k [v]).
  - destruct Hw as [Hs Hl]. rewrite nc_put_str_put by done. apply nc_put_whole; [done|].
    cbn [nl_data]. rewrite length_app. simpl. lia.
  - rewrite (nc_put_flag_put _ _ _ _ Hh). by apply (nc_put_whole cap b nc k []).
  - assert (Forall nl_wf l) as Hwl.
    { cbn [nl_wf] in Hw. clear IH. induction l; simpl in Hw; constructor; tauto. }
    destruct (nc_put_nest_holds cap b nc k Hh) as (nc1 & a & j & H1 & Hj & Hh1 & Ha).
    destruct (seqM_nc_holds cap l IH Hwl _ _ Hh1) as (nc2 & H2 & Hh2).
    destruct (nc_end_nest_holds cap b nc2 k a j _ (nl_enc_aligned l) Hj Hh2 Ha) as (nc3 & H3 & Hh3).
    exists nc3. split; [|done]. by rewrite H1, Some_bind, H2, Some_bind.
Qed.


(** The header of a generic netlink request, but for its length. *)
Definition genl_head (type flags seq cmd ver : Z) : list Z :=
  le_bytes 2 type ++ le_bytes 2 (Z.lor 1 flags) ++ le_bytes 4 seq ++ le_bytes 4 0 ++
  [u8 cmd; u8 ver; 0; 0].

Lemma length_genl_head type flags seq cmd ver : length (genl_head type flags seq cmd ver) = 16%nat.
Proof. done. Qed.

Lemma nc_header_parts m t type flags seq :
  length m = 16%nat ->
  nc_header (nc_buf_set (m ++ t) (zlen (m ++ t))) type flags seq =
  Some (Ncbuf (take 4 m ++ le_bytes 2 type ++ le_bytes 2 (Z.lor 1 flags) ++ le_bytes 4 seq ++
    le_bytes 4 0 ++ t) 16 (zlen (m ++ t))).
Proof.
  intros Hm. unfold nc_header, nc_buf_set, nlmsg_size. cbn [nc_end nc_mem].
  rewrite length_app. destruct (Z.ltb_spec (Z.of_nat (length m + length t)) 16); [lia|].
  generalize (Z.of_nat (length m + length t)). intros n.
  assert (exists a b c d e, m = a ++ b ++ c ++ d ++ e /\ length a = 4%nat /\ length b = 2%nat /\
    length c = 2%nat /\ length d = 4%nat /\ length e = 4%nat)
    as (a & b & c & d & e & -> & Ha & Hb & Hc & Hd & He).
  { exists (take 4 m), (take 2 (drop 4 m)), (take 2 (drop 6 m)), (take 4 (drop 8 m)), (drop 12 m).
    rewrite !length_take, !length_drop. split; [|lia].
    rewrite <- (take_drop 4 m) at 1. f_equal. rewrite <- (take_drop 2 (drop 4 m)) at 1. f_equal.
    rewrite drop_drop. rewrite <- (take_drop 2 (drop (4 + 2) m)) at 1. f_equal.
    rewrite drop_drop. rewrite <- (take_drop 4 (drop (4 + 2 + 2) m)) at 1. by rewrite drop_drop. }
  rewrite take_app_le, take_ge by lia. rewrite <- !app_assoc.
  rewrite put16_parts by lia. rewrite Some_bind, u16_le_bytes, (app_assoc a).
  rewrite put16_parts by (rewrite ?length_app, ?length_le_bytes; lia).
  rewrite Some_bind, u16_le_bytes. unfold put32. rewrite (app_assoc (a ++ _)).
  rewrite awrite_parts by (rewrite ?length_app, ?length_le_bytes; lia). rewrite Some_bind, app_assoc.
  rewrite awrite_parts by (rewrite ?length_app, ?length_le_bytes; lia).
  rewrite Some_bind. unfold uwrap. rewrite (le_bytes_mod 4) by lia. by rewrite <- !app_assoc.
Qed.

Lemma genl_header_holds buf type flags seq cmd ver :
  zlen buf <= 65536 ->
  exists nc j, zlen j = 4 /\
    (nc ← nc_header (nc_buf_set buf (zlen buf)) type flags seq; nc_gencmd nc cmd ver) = Some nc /\
    nc_holds (zlen buf) (j ++ genl_head type flags seq cmd ver) nc.
Proof.
  intros Hcap. unfold nc_holds.
  assert (forall j, zlen j = 4 -> zlen (j ++ genl_head type flags seq cmd ver) = 20) as Hlj.
  { intros j Hj. rewrite length_app, length_genl_head. lia. }
  destruct (decide (zlen buf < 20)) as [Hlt|Hge].
  - assert (exists m p, zlen m = zlen buf /\ nc_header (nc_buf_set buf (zlen buf)) type flags seq =
      Some (Ncbuf m p (zlen buf))) as (m & p & Hm & ->).
    { destruct (decide (zlen buf < 16)).
      - exists buf, (zlen buf + 1). split; [done|]. unfold nc_header, nc_buf_set, nlmsg_size.
        cbn [nc_end nc_mem]. by zcases.
      - rewrite <- (take_drop 16 buf). eexists _, _. split; [|apply nc_header_parts].
        + rewrite !length_app, !length_le_bytes, !length_take, length_drop. lia.
        + rewrite length_take. lia. }
    rewrite Some_bind. unfold nc_gencmd, nc_fixed, nlgen_size, nlmsg_size. cbn [nc_end nc_mem nc_ptr].
    change (20 <=? 16) with false. cbv iota.
    exists (Ncbuf m (zlen buf + 1) (zlen buf)), [0; 0; 0; 0]. rewrite Hlj, decide_False by (done || lia).
    split; [done|]. cbn [nc_end nc_mem nc_ptr]. split; [|split_and!; auto with lia].
    destruct (p =? 16); simpl negb; cbv iota; [|done]. by destruct (Z.ltb_spec (zlen buf) 20); [|lia].
  - assert (buf = take 16 buf ++ take 4 (drop 16 buf) ++ drop 20 buf) as Hb.
    { rewrite <- (take_drop 16 buf) at 1. f_equal. rewrite <- (take_drop 4 (drop 16 buf)) at 1.
      by rewrite drop_drop. }
    assert (length (take 16 buf) = 16%nat /\ length (take 4 (drop 16 buf)) = 4%nat) as [Hm He].
    { rewrite !length_take, length_drop. lia. }
    set (m := take 16 buf) in *. set (e := take 4 _) in *. set (t := drop 20 buf) in *.
    rewrite Hb, nc_header_parts, Some_bind by done.
    unfold nc_gencmd, nc_fixed, nlgen_size, nlmsg_size. cbn [nc_end nc_mem nc_ptr].
    change (20 <=? 16) with false. change (16 =? 16) with true. cbv [negb]. cbv iota. rewrite <- Hb.
    destruct (Z.ltb_spec (zlen buf) 20); [lia|].
    set (h := le_bytes 2 type ++ le_bytes 2 (Z.lor 1 flags) ++ le_bytes 4 seq ++ le_bytes 4 0).
    replace (take 4 m ++ _) with ((take 4 m ++ h) ++ e ++ t) by (unfold h; by rewrite <- !app_assoc).
    assert (zlen (take 4 m ++ h) = 16) as Hh.
    { unfold h. rewrite !length_app, !length_le_bytes, length_take. lia. }
    unfold afill. change (0 <=? 20 - 16) with true. cbv iota.
    rewrite awrite_parts by (rewrite ?repeat_length; lia).
    change (repeat 0 (Z.to_nat (20 - 16)) ++ t) with ([0] ++ [0; 0; 0] ++ t).
    rewrite !Some_bind. cbv beta iota zeta. cbn [nc_end nc_mem nc_ptr]. rewrite zput_awrite.
    rewrite awrite_parts by (done || lia). rewrite Some_bind, zput_awrite.
    replace ((take 4 m ++ h) ++ [u8 cmd] ++ [0; 0; 0] ++ t)
      with (((take 4 m ++ h) ++ [u8 cmd]) ++ [0] ++ [0; 0] ++ t) by (by rewrite <- !app_assoc).
    rewrite awrite_parts by (done || rewrite length_app; simpl length; lia). rewrite Some_bind.
    eexists _, (take 4 m). split; [rewrite length_take; lia|]. split; [done|].
    cbn [nc_end nc_mem nc_ptr]. rewrite Hlj by (rewrite length_take; lia).
    rewrite decide_True by lia. split; [done|].
    assert (Hl : zlen buf = 20 + zlen t).
    { rewrite Hb, !length_app. lia. }
    split. { rewrite !length_app, length_take. unfold h. rewrite !length_app, !length_le_bytes. simpl length. lia. }
    do 2 (split; [lia|]). split; [done|]. exists t. unfold genl_head, h. by rewrite <- !app_assoc.
Qed.

(** C27. A generic netlink request is packed all or nothing: for any attributes,
    nests included, [nc_send] hands the kernel exactly the encoded message when
    it fits the buffer; otherwise it sends nothing and returns [-ENOBUFS].  No
    call writes outside of the buffer. *)
Theorem genl_send_encodes buf type flags seq cmd ver l fd (k : kernel nlcall) t :
  zlen buf <= 65536 -> Forall nl_wf l ->
  exists nc nc', genl_build buf type flags seq cmd ver l = Some nc /\
    let m := genl_message type flags seq cmd ver l in
    nc_send fd nc k t =
      if decide (zlen m <= zlen buf)
      then let r := k t (Send fd m 0) in Some (nc', s32 (ret r), t ++ [(Send fd m 0, r)])
      else Some (nc, - ENOBUFS, t).
Proof.
  intros Hcap Hw. destruct (genl_header_holds buf type flags seq cmd ver Hcap) as (nc0 & j & Hj & H0 & Hh).
  destruct (seqM_nc_holds (zlen buf) l) with (3 := Hh) as (nc & H1 & He & Hz & _ & Hb & Hif); [|done|].
  { apply Forall_forall. intros x _. apply nl_put_holds. }
  set (p := concat (map nl_enc l)) in *.
  assert (zlen ((j ++ genl_head type flags seq cmd ver) ++ p) = zlen p + 20) as Hn.
  { rewrite !length_app, length_genl_head. lia. }
  assert (genl_message type flags seq cmd ver l = le_bytes 4 (zlen p + 20) ++ genl_head type flags seq cmd ver ++ p) as Hm.
  { unfold genl_message, genl_head, nlgen_size. fold p. by rewrite <- !app_assoc. }
  assert (zlen (genl_message type flags seq cmd ver l) = zlen p + 20) as Hlm.
  { rewrite Hm, !length_app, length_le_bytes, length_genl_head. lia. }
  exists nc. cbv zeta. rewrite Hlm. unfold genl_build.
  apply bind_Some_inv in H0 as (nc1 & -> & H0). rewrite Some_bind, H0, Some_bind, H1.
  unfold nc_send, nlmsg_size. rewrite He. rewrite Hn in Hif.
  destruct (decide (zlen p + 20 <= zlen buf)) as [Hle|Hgt]; cycle 1.
  { exists nc. split; [done|]. rewrite Hif, if_sys. by destruct (Z.ltb_spec (zlen buf) (zlen buf + 1)); [|lia]. }
  destruct Hif as (-> & tail & Hmem).
  replace ((zlen buf <? zlen p + 20) || (zlen p + 20 <? 0)) with false by (zcases; done).
  destruct (Z.ltb_spec (zlen p + 20) 16); [lia|]. rewrite Hmem, <- !app_assoc.
  unfold put32. rewrite awrite_head by (rewrite length_le_bytes; lia).
  unfold uwrap. rewrite le_bytes_mod by lia. eexists. split; [done|].
  rewrite lift_bind. rewrite (app_assoc (genl_head _ _ _ _ _)), (app_assoc (le_bytes 4 _)).
  rewrite <- Hm, aread_head by lia. by rewrite lift_bind, call_bind.
Qed.

Lemma genl_send_encodes_witness :
  let l := [NInt 3 7; NStr 2 [119; 108]; NNest 9 [NByte 1 5; NFlag 4]] in
  let k : kernel nlcall := fun _ _ => Reply 60 [] in
  exists nc nc', genl_build (repeat 1 100) 28 0 1 6 0 l = Some nc /\
    let m := genl_message 28 0 1 6 0 l in
    nc_send 4 nc k [] =
      if decide (zlen m <= zlen (repeat 1 100))
      then let r := k [] (Send 4 m 0) in Some (nc', s32 (ret r), [] ++ [(Send 4 m 0, r)])
      else Some (nc, - ENOBUFS, []).
Proof.
  intros l k. apply (genl_send_encodes (repeat 1 100) 28 0 1 6 0 l 4 k []); [discriminate|].
  repeat constructor; discriminate.
Defined.

(** ** Attribute access finds what was packed *)

Fixpoint nl_find (key pos : Z) (l : list nlitem) : option (Z * nlitem) :=
  match l with
  | [] => None
  | x :: l => if u16 (nkey x) =? key then Some (pos, x) else nl_find key (pos + zlen (nl_enc x)) l
  end.

Lemma extend_align n : extend_to_4bytes n = align4 n.
Proof.
  unfold extend_to_4bytes. change 3 with (Z.ones 2). rewrite !Z.land_ones by lia.
  change (2 ^ 2) with 4. rewrite align4_eq. Z.div_mod_to_equations. lia.
Qed.

Section attrs.
(** A buffer with a region of well-formed attributes that end at [fin]. *)
Context (buf : list Z).

Lemma nla_at a x c :
  zlen (nl_data x) + 4 <= 0xFFFF -> buf = a ++ nl_enc x ++ c ->
  nla_len buf (zlen a) = Some (zlen (nl_data x) + 4) /\
  nla_type buf (zlen a) = Some (u16 (nkey x)).
Proof.
  intros Hs ->. rewrite nl_enc_eq. unfold nla_len, nla_type, enc_block. split.
  - rewrite <- (app_assoc (le_bytes 2 _)), get16_at by done. by rewrite u16_small by lia.
  - rewrite <- !app_assoc, (app_assoc a). apply get16_at. rewrite length_app, length_le_bytes. lia.
Qed.

Lemma nl_attr_loop_find l : forall fuel a c p len key,
  (length l < fuel)%nat -> buf = a ++ concat (map nl_enc l) ++ c ->
  p <= zlen a -> p + len = zlen a + zlen (concat (map nl_enc l)) ->
  zlen (concat (map nl_enc l)) <= 0xFFFF ->
  nl_attr_loop fuel buf p len key (if decide (l = []) then None else Some (zlen a)) =
  Some (fst <$> nl_find key (zlen a) l).
Proof.
  induction l as [|x l IH]; intros fuel a c p len key Hfuel Hbuf Hp Hend Hsz.
  { by destruct fuel. }
  destruct fuel as [|fuel]; [simpl in Hfuel; lia|]. rewrite decide_False by done.
  cbn [map concat] in Hbuf, Hend, Hsz. rewrite length_app in Hend, Hsz. cbn [length] in Hfuel.
  rewrite <- app_assoc in Hbuf. pose proof (length_nl_enc x) as Hx.
  pose proof (align4_bounds (zlen (nl_data x) + 4)).
  destruct (nla_at a x (concat (map nl_enc l) ++ c)) as [Hl Ht]; [lia|done|].
  cbn [nl_attr_loop nl_find]. rewrite Ht, Some_bind.
  destruct (Z.eqb_spec (u16 (nkey x)) key); [done|].
  unfold nl_attr_n_in, ptr_in_buf, nlattr_size.
  destruct (Z.ltb_spec (zlen a) p); [lia|].
  destruct (Z.leb_spec (p + len) (zlen a)); [lia|]. cbv [negb]. rewrite Hl, Some_bind.
  destruct (Z.ltb_spec (zlen (nl_data x) + 4) 4); [lia|]. rewrite extend_align, <- Hx.
  destruct (Z.ltb_spec (zlen a + zlen (nl_enc x)) p); [lia|].
  specialize (IH fuel (a ++ nl_enc x) c p len key). rewrite length_app, Nat2Z.inj_add in IH.
  rewrite <- IH; try lia; [|by rewrite <- app_assoc].
  destruct l as [|y l].
  - rewrite decide_True by done. simpl in Hend. by destruct (Z.leb_spec (p + len) (zlen a + zlen (nl_enc x))); [|lia].
  - rewrite decide_False by done. pose proof (length_nl_enc y).
    pose proof (align4_bounds (zlen (nl_data y) + 4)). cbn [map concat] in Hend. rewrite length_app in Hend.
    by destruct (Z.leb_spec (p + len) (zlen a + zlen (nl_enc x))); [lia|].
Qed.

Lemma length_concat_nl_enc l : 4 * zlen l <= zlen (concat (map nl_enc l)).
Proof.
  induction l as [|x l IH]; simpl; [lia|]. rewrite length_app.
  pose proof (length_nl_enc x). pose proof (align4_bounds (zlen (nl_data x) + 4)). lia.
Qed.

(** C28. Among well-formed attributes [nl_attr_k_in] returns the first one of the
    type asked for, and NULL when there is none. *)
Theorem nl_attr_k_in_finds a c l key :
  buf = a ++ concat (map nl_enc l) ++ c -> zlen (concat (map nl_enc l)) <= 0xFFFF ->
  nl_attr_k_in buf (zlen a) (zlen (concat (map nl_enc l))) key = Some (fst <$> nl_find key (zlen a) l).
Proof.
  intros Hbuf Hsz. unfold nl_attr_k_in, nl_attr_0_in, nlattr_size.
  pose proof (length_concat_nl_enc l) as Hl.
  assert (length l < length buf \/ l = [])%nat as Hfuel.
  { rewrite Hbuf, !length_app. destruct l; [by right|left]. cbn [length] in *. lia. }
  destruct l as [|x l].
  { simpl. by destruct buf. }
  destruct Hfuel; [|done]. pose proof (length_nl_enc x).
  pose proof (align4_bounds (zlen (nl_data x) + 4)).
  assert (zlen (nl_enc x) <= zlen (concat (map nl_enc (x :: l)))).
  { cbn [map concat]. rewrite length_app. lia. }
  destruct (Z.ltb_spec (zlen (concat (map nl_enc (x :: l)))) 4); [lia|].
  destruct (nla_at a x (concat (map nl_enc l) ++ c)) as [Hlen _]; [lia| |].
  { rewrite Hbuf. cbn [map concat]. by rewrite <- app_assoc. }
  rewrite Hlen, Some_bind. destruct (Z.ltb_spec (zlen (concat (map nl_enc (x :: l)))) (zlen (nl_data x) + 4)); [lia|].
  rewrite Some_bind. apply (nl_attr_loop_find (x :: l) _ a c); auto; lia.
Qed.
End attrs.

Lemma nl_attr_k_in_finds_witness :
  let l := [NInt 3 7; NStr 2 [119; 108]; NFlag 4] in
  let buf := repeat 1 16 ++ concat (map nl_enc l) ++ [5; 5] in
  nl_attr_k_in buf (zlen (repeat 1 16)) (zlen (concat (map nl_enc l))) 4 =
  Some (fst <$> nl_find 4 (zlen (repeat 1 16)) l).
Proof. intros l buf. apply (nl_attr_k_in_finds buf (repeat 1 16) [5; 5]); [reflexivity|discriminate]. Defined.

(** The next attribute is returned without a check of its own header: the
    payload of the second attribute here lies past the end of the message. *)
Lemma nl_get_of_len_overread :
  let buf := le_bytes 4 28 ++ repeat 0 12 ++ [0; 0; 0; 0] ++ [4; 0; 1; 0] ++ [20; 0; 2; 0] in
  zlen buf = 28 /\ nl_get_of_len buf 0 2 16 = Some (Some 28).
Proof. split; vm_compute; reflexivity. Qed.

(** A string attribute that is absent is looked up through a null pointer. *)
Lemma nl_get_str_absent :
  let buf := le_bytes 4 20 ++ repeat 0 16 in
  nl_get buf 0 7 = Some None /\ nl_get_str buf 0 7 = None.
Proof. split; vm_compute; reflexivity. Qed.

(** ** The receive buffer cuts the stream into messages *)

Definition content (nr : nrbuf) : list Z :=
  drop (Z.to_nat (nr_msg nr)) (take (Z.to_nat (nr_ptr nr)) (nr_mem nr)).

Definition nr_ok (nr : nrbuf) : Prop :=
  0 <= nr_msg nr <= nr_ptr nr /\ nr_ptr nr <= nr_end nr /\ nr_end nr = zlen (nr_mem nr) /\
  nr_end nr < 2 ^ 31 /\ (nr_msg nr = 0 \/ nr_msg nr < nr_ptr nr) /\ bytes (nr_mem nr).

(** The first whole message of a stream, and the rest. *)
Definition frame (bs : list Z) : option (list Z * list Z) :=
  let n := le_value (take 4 bs) in
  if (zlen bs <? nlmsg_size) || (zlen bs <? n) then None
  else Some (take (Z.to_nat n) bs, drop (Z.to_nat n) bs).

Lemma length_content nr : nr_ok nr -> zlen (content nr) = nr_ptr nr - nr_msg nr.
Proof. intros (? & ? & ? & _). unfold content. rewrite length_drop, length_take. lia. Qed.

Lemma aread_content nr off n :
  nr_ok nr -> 0 <= off -> 0 <= n -> off + n <= zlen (content nr) ->
  aread (nr_mem nr) (nr_msg nr + off) n = Some (take (Z.to_nat n) (drop (Z.to_nat off) (content nr))).
Proof.
  intros Hok Ho Hn Hl. rewrite length_content in Hl by done. destruct Hok as (? & ? & ? & _).
  rewrite aread_Some by lia. f_equal. unfold content.
  rewrite drop_drop. replace (Z.to_nat (nr_msg nr) + Z.to_nat off)%nat with (Z.to_nat (nr_msg nr + off)) by lia.
  rewrite <- (take_drop (Z.to_nat (nr_ptr nr)) (nr_mem nr)) at 1.
  rewrite drop_app_le by (rewrite length_take; lia).
  apply take_app_le. rewrite length_drop, length_take. lia.
Qed.

Lemma nr_next_frame nr :
  nr_ok nr -> exists nr' r, nr_next nr = Some (nr', r) /\ nr_ok nr' /\ nr_end nr' = nr_end nr /\
  match frame (content nr) with
  | Some (m, rest) => exists p, r = Some p /\ aread (nr_mem nr') p (zlen m) = Some m /\ content nr' = rest
  | None => r = None /\ content nr' = content nr /\ nr_msg nr' = 0
  end.
Proof.
  intros Hok. pose proof (length_content nr Hok) as Hl. pose proof Hok as (H1 & H2 & H3 & H4 & H5 & H6).
  unfold nr_next, frame. destruct (Z.ltb_spec (nr_msg nr) 0); [lia|]. cbn [orb].
  assert (Hz : forall nr', nr' = nr -> nr_msg nr = 0 -> nr_ok nr' /\ nr_end nr' = nr_end nr /\
    None = @None Z /\ content nr' = content nr /\ nr_msg nr' = 0) by (intros ? -> ?; done).
  destruct (Z.leb_spec (nr_end nr) (nr_msg nr)).
  { eexists nr, _. split; [done|]. unfold nlmsg_size. destruct (Z.ltb_spec (zlen (content nr)) 16); [|lia].
    apply Hz; [done|lia]. }
  unfold nl_msg, nlmsg_size. rewrite s32_small by lia. rewrite <- Hl.
  destruct (Z.ltb_spec (zlen (content nr)) 0); [lia|].
  assert (Hshift : exists nr' r, (if 0 <? nr_msg nr
     then s ← aread (nr_mem nr) (nr_msg nr) (zlen (content nr)); m ← awrite (nr_mem nr) 0 s;
       Some (Nrbuf m 0 (zlen (content nr)) (nr_end nr), @None Z)
     else Some (nr, None)) = Some (nr', r) /\ nr_ok nr' /\ nr_end nr' = nr_end nr /\
     r = None /\ content nr' = content nr /\ nr_msg nr' = 0).
  { destruct (Z.ltb_spec 0 (nr_msg nr)); cycle 1.
    { eexists nr, _. split; [done|]. apply Hz; [done|lia]. }
    pose proof (aread_content nr 0 (zlen (content nr)) Hok) as Hr. rewrite Z.add_0_r in Hr.
    rewrite Hr by lia. change (Z.to_nat 0) with 0%nat. rewrite Nat2Z.id, drop_0, firstn_all, Some_bind.
    rewrite awrite_Some by lia. rewrite Some_bind. change (Z.to_nat 0) with 0%nat.
    rewrite take_0, Z.add_0_l, Nat2Z.id. cbn [app]. eexists _, _. split; [done|].
    assert (Hc : content (Nrbuf (content nr ++ drop (length (content nr)) (nr_mem nr)) 0
      (zlen (content nr)) (nr_end nr)) = content nr).
    { unfold content at 1. cbn [nr_mem nr_msg nr_ptr]. rewrite Nat2Z.id. change (Z.to_nat 0) with 0%nat.
      by rewrite drop_0, take_app_length. }
    rewrite Hc. unfold nr_ok. cbn [nr_mem nr_msg nr_ptr nr_end].
    rewrite length_app, length_drop. split_and!; try lia; try done.
    apply Forall_app. split; [unfold content|]; auto using Forall_drop, Forall_take. }
  destruct (Z.ltb_spec (zlen (content nr)) 16); [apply Hshift|].
  unfold msg_len, get32. pose proof (aread_content nr 0 4 Hok) as Hr. rewrite Z.add_0_r in Hr.
  rewrite Hr by lia. change (drop (Z.to_nat 0) (content nr)) with (content nr).
  change (Z.to_nat 4) with 4%nat. cbn [fmap option_fmap option_map]. rewrite Some_bind.
  set (n := le_value (take 4 (content nr))). cbn [orb].
  destruct (Z.ltb_spec (zlen (content nr)) n); [apply Hshift|].
  rewrite !Some_bind. assert (0 <= n) as Hn0.
  { unfold n. apply le_value_range. unfold content. auto using Forall_drop, Forall_take. }
  rewrite Hr by lia. change (drop (Z.to_nat 0) (content nr)) with (content nr).
  change (Z.to_nat 4) with 4%nat. cbn [fmap option_fmap option_map]. rewrite Some_bind. fold n.
  rewrite s32_small by lia.
  pose proof (aread_content nr 0 n Hok ltac:(lia) Hn0 ltac:(lia)) as Hm. rewrite Z.add_0_r in Hm.
  change (drop (Z.to_nat 0) (content nr)) with (content nr) in Hm.
  assert (Hzt : zlen (take (Z.to_nat n) (content nr)) = n) by (rewrite length_take; lia).
  destruct (Z.ltb_spec (nr_msg nr + n) (nr_ptr nr)); eexists _, _; (split; [done|]);
    unfold nr_ok; cbn [nr_mem nr_msg nr_ptr nr_end].
  - split; [split_and!; auto with lia|]. split; [done|]. eexists. split; [done|].
    rewrite Hzt. split; [done|]. unfold content. cbn [nr_mem nr_msg nr_ptr].
    rewrite drop_drop. f_equal. lia.
  - split; [split_and!; auto with lia|]. split; [done|]. eexists. split; [done|].
    rewrite Hzt. split; [done|]. rewrite (drop_ge (content nr)) by lia. done.
Qed.

(** The loop of the callers: messages until [nr_next] returns NULL. *)
Fixpoint nr_drain (fuel : nat) (nr : nrbuf) : option (nrbuf * list (list Z)) :=
  match fuel with
  | O => None
  | S fuel =>
      '(nr, r) ← nr_next nr;
      match r with
      | None => Some (nr, [])
      | Some p =>
          n ← msg_len (nr_mem nr) p;
          m ← aread (nr_mem nr) p n;
          '(nr, ms) ← nr_drain fuel nr;
          Some (nr, m :: ms)
      end
  end.

(** Each time the kernel has data, receive it and handle the messages. *)
Fixpoint nr_run (nr : nrbuf) (chunks : list (list Z)) : option (nrbuf * list (list Z)) :=
  match chunks with
  | [] => Some (nr, [])
  | d :: chunks =>
      '(nr, _, _) ← nr_recv 0 nr (fun _ _ => Reply (zlen d) d) [];
      '(nr, ms) ← nr_drain (S (length (nr_mem nr))) nr;
      '(nr, ms') ← nr_run nr chunks;
      Some (nr, ms ++ ms')
  end.

Definition wf_msg (m : list Z) : Prop := nlmsg_size <= zlen m /\ le_value (take 4 m) = zlen m.

Lemma frame_msg m rest : wf_msg m -> frame (m ++ rest) = Some (m, rest).
Proof.
  intros [Hs Hn]. unfold nlmsg_size, frame in *. rewrite take_app_le by lia. rewrite Hn, length_app.
  replace ((_ <? nlmsg_size) || _) with false by (unfold nlmsg_size; zcases; done).
  by rewrite Nat2Z.id, take_app_length, drop_app_length.
Qed.

(** A proper prefix of a message is not a frame. *)
Lemma frame_partial q m : wf_msg m -> q `prefix_of` m -> (length q < length m)%nat -> frame q = None.
Proof.
  intros [Hs Hn] [w ->] Hl. unfold frame, nlmsg_size in *. destruct (Z.ltb_spec (zlen q) 16); [done|].
  rewrite take_app_le in Hn by lia. rewrite Hn. by destruct (Z.ltb_spec (zlen q) (zlen (q ++ w))); [|lia].
Qed.

(** The data left over is empty or the beginning of the next message. *)
Definition partial (q : list Z) (ms : list (list Z)) : Prop :=
  q = [] \/ exists m ms', ms = m :: ms' /\ q `prefix_of` m /\ (length q < length m)%nat.

Lemma partial_frame q ms : Forall wf_msg ms -> partial q ms -> frame q = None.
Proof.
  intros Hw [->|(m & ms' & -> & Hp & Hl)]; [done|].
  apply Forall_cons in Hw as [Hm _]. by eapply frame_partial.
Qed.

Lemma split_stream ms : forall s rest, s ++ rest = concat ms ->
  exists ms1 ms2 q, ms = ms1 ++ ms2 /\ s = concat ms1 ++ q /\ q ++ rest = concat ms2 /\ partial q ms2.
Proof.
  induction ms as [|m ms IH]; intros s rest H; cbn [concat] in H.
  { apply app_eq_nil in H as [-> ->]. exists [], [], []. split_and!; try done. by left. }
  destruct (decide (length s < length m)%nat) as [Hl|Hl].
  - exists [], (m :: ms), s. split_and!; try done. right. exists m, ms. split_and!; try done.
    pose proof (take_app_length s rest) as Ht. rewrite H, take_app_le in Ht by lia.
    rewrite <- Ht. apply prefix_take.
  - assert (s = m ++ drop (length m) s) as Hs.
    { rewrite <- (take_drop (length m) s) at 1. f_equal.
      pose proof (take_app_le s rest (length m) ltac:(lia)) as Ht. by rewrite H, take_app_length in Ht. }
    rewrite Hs in H. rewrite <- app_assoc in H. apply app_inv_head in H.
    destruct (IH _ _ H) as (ms1 & ms2 & q & -> & H1 & H2 & H3).
    exists (m :: ms1), ms2, q. cbn [concat app]. rewrite Hs, H1. by rewrite <- app_assoc.
Qed.

Lemma nr_drain_messages ms : forall fuel nr q,
  nr_ok nr -> Forall wf_msg ms -> content nr = concat ms ++ q -> frame q = None ->
  (length ms < fuel)%nat ->
  exists nr', nr_drain fuel nr = Some (nr', ms) /\ nr_ok nr' /\ nr_end nr' = nr_end nr /\
    content nr' = q /\ nr_msg nr' = 0.
Proof.
  induction ms as [|m ms IH]; intros fuel nr q Hok Hw Hc Hq Hf; cbn [concat] in Hc;
    (destruct fuel as [|fuel]; [simpl in Hf; lia|]); cbn [nr_drain];
    destruct (nr_next_frame nr Hok) as (nr1 & r & -> & Hok1 & He1 & Hfr); rewrite Some_bind.
  - cbn [app] in Hc. rewrite Hc, Hq in Hfr. destruct Hfr as (-> & Hc1 & Hm1). exists nr1.
    split_and!; done.
  - apply Forall_cons in Hw as [Hm Hw]. rewrite Hc, <- app_assoc, frame_msg in Hfr by done.
    destruct Hfr as (p & -> & Hp & Hc1). pose proof Hm as [Hs Hn].
    assert (msg_len (nr_mem nr1) p = Some (zlen m)) as Hlen.
    { unfold msg_len, get32. unfold nlmsg_size in Hs. pose proof (aread_split _ _ _ _ Hp) as (a & c & -> & Ha).
      rewrite <- (take_drop 4 m) at 1. rewrite <- app_assoc, aread_parts; [|done|rewrite length_take; lia].
      cbn [fmap option_fmap option_map]. by rewrite Hn. }
    rewrite Hlen, Some_bind, Hp, Some_bind. cbn [length] in Hf.
    destruct (IH fuel nr1 q Hok1 Hw Hc1 Hq ltac:(lia)) as (nr' & -> & Hok' & He' & Hc' & Hm').
    rewrite Some_bind. exists nr'. split_and!; auto. lia.
Qed.

Lemma nr_recv_content nr d q :
  nr_ok nr -> nr_msg nr = 0 -> content nr = q -> bytes d -> d <> [] -> zlen q + zlen d <= nr_end nr ->
  exists nr' t', nr_recv 0 nr (fun _ _ => Reply (zlen d) d) [] = Some (nr', s32 (zlen d), t') /\
    nr_ok nr' /\ nr_end nr' = nr_end nr /\ content nr' = q ++ d.
Proof.
  intros Hok Hm Hq Hd Hne Hfit. pose proof (length_content nr Hok) as Hl. rewrite Hq, Hm in Hl.
  destruct Hok as (H1 & H2 & H3 & H4 & H5 & H6). unfold nr_recv.
  assert (0 < zlen d) by (destruct d; [done|simpl; lia]).
  replace ((nr_ptr nr <? 0) || (nr_end nr <=? nr_ptr nr)) with false by (zcases; done).
  rewrite call_bind. cbn [out ret]. rewrite take_ge by lia.
  destruct (Z.ltb_spec 0 (zlen d)); [|lia].
  assert (nr_mem nr = q ++ take (length d) (drop (length q) (nr_mem nr)) ++ drop (length q + length d) (nr_mem nr)) as Hmem.
  { rewrite <- (take_drop (length q) (nr_mem nr)) at 1. f_equal.
    - unfold content in Hq. rewrite Hm in Hq. change (Z.to_nat 0) with 0%nat in Hq.
      rewrite drop_0 in Hq. by replace (length q) with (Z.to_nat (nr_ptr nr)) by lia.
    - rewrite <- (take_drop (length d) (drop (length q) (nr_mem nr))) at 1. by rewrite drop_drop. }
  assert (Hw : awrite (nr_mem nr) (nr_ptr nr) d = Some (q ++ d ++ drop (length q + length d) (nr_mem nr))).
  { rewrite Hmem at 1. apply awrite_parts; [lia|rewrite length_take, length_drop; lia]. }
  rewrite Hw, lift_bind. eexists _, _. split; [done|]. unfold nr_ok. cbn [nr_mem nr_msg nr_ptr nr_end].
  assert (bytes q) as Hbq by (rewrite <- Hq; unfold content; auto using Forall_drop, Forall_take).
  split.
  - split_and!; try lia; [|apply Forall_app; split; [done|apply Forall_app; split; [done|auto using Forall_drop]]].
    rewrite !length_app, length_drop. lia.
  - split; [done|]. unfold content. cbn [nr_mem nr_msg nr_ptr]. rewrite Hm.
    change (Z.to_nat 0) with 0%nat. rewrite drop_0, app_assoc.
    rewrite take_app_le by (rewrite length_app; lia). apply take_ge. rewrite length_app. lia.
Qed.

Lemma length_concat_msgs ms : Forall wf_msg ms -> (length ms <= length (concat ms))%nat.
Proof.
  induction 1 as [|m ms [Hm _] _ IH]; cbn [concat length]; [lia|]. unfold nlmsg_size in Hm.
  rewrite length_app. lia.
Qed.

(** C26. However the kernel cuts the stream of messages into pieces, receiving
    and draining the buffer yields exactly the messages, whole and in order,
    and leaves the buffer empty: no byte is lost or seen twice when a partial
    message is shifted to the front.  The pieces have to leave room for the
    partial message before them. *)
Theorem nr_run_messages chunks : forall nr ms q,
  nr_ok nr -> nr_msg nr = 0 -> content nr = q -> partial q ms ->
  Forall wf_msg ms -> q ++ concat chunks = concat ms ->
  Forall (fun d => bytes d /\ d <> [] /\ Forall (fun m => zlen m + zlen d <= nr_end nr) ms /\
    zlen d <= nr_end nr) chunks ->
  exists nr', nr_run nr chunks = Some (nr', ms) /\ content nr' = [].
Proof.
  induction chunks as [|d chunks IH]; intros nr ms q Hok Hm Hq Hpart Hw Hs Hd; cbn [nr_run].
  - cbn [concat] in Hs. rewrite app_nil_r in Hs. destruct Hpart as [->|(m & ms' & -> & Hp & Hl)].
    + destruct ms as [|m ms]; [by eauto|]. apply Forall_cons in Hw as [[Hw _] _].
      cbn [concat] in Hs. symmetry in Hs. apply app_eq_nil in Hs as [-> _].
      unfold nlmsg_size in Hw. simpl in Hw. lia.
    + cbn [concat] in Hs. apply (f_equal length) in Hs. rewrite length_app in Hs. lia.
  - apply Forall_cons in Hd as [(Hbd & Hne & Hfit & Hd0) Hd].
    destruct (nr_recv_content nr d q) as (nr1 & t1 & -> & Hok1 & He1 & Hc1); try done.
    { destruct Hpart as [->|(m & ms' & -> & _ & Hl)]; [simpl; lia|].
      apply Forall_cons in Hfit as [Hfit _]. lia. }
    rewrite Some_bind. cbn [concat] in Hs. rewrite app_assoc in Hs.
    destruct (split_stream ms (q ++ d) (concat chunks) Hs) as (ms1 & ms2 & q' & -> & Hqd & Hs2 & Hp2).
    apply Forall_app in Hw as [Hw1 Hw2].
    destruct (nr_drain_messages ms1 (S (length (nr_mem nr1))) nr1 q') as (nr2 & -> & Hok2 & He2 & Hc2 & Hm2);
      try done.
    { by rewrite Hc1. }
    { by eapply partial_frame. }
    { pose proof (length_content nr1 Hok1) as Hl1. rewrite Hc1, Hqd, length_app in Hl1.
      pose proof (length_concat_msgs ms1 Hw1). destruct Hok1 as (O1 & O2 & O3 & _). lia. }
    rewrite Some_bind.
    destruct (IH nr2 ms2 q' Hok2 Hm2 Hc2 Hp2 Hw2 Hs2) as (nr3 & -> & Hc3).
    { eapply Forall_impl; [exact Hd|]. intros x (? & ? & Hx & ?). rewrite He2, He1.
      apply Forall_app in Hx as [_ Hx]. done. }
    rewrite Some_bind. eauto.
Qed.

Lemma nr_run_messages_witness :
  let m1 := le_bytes 4 20 ++ repeat 7 16 in
  let m2 := le_bytes 4 16 ++ repeat 9 12 in
  exists nr', nr_run (nr_buf_set (repeat 0 60) 60)
    [take 30 (m1 ++ m2); drop 30 (m1 ++ m2)] = Some (nr', [m1; m2]) /\ content nr' = [].
Proof.
  intros m1 m2. apply (nr_run_messages _ _ [m1; m2] []).
  - unfold nr_ok. simpl. repeat (split; [lia|]). repeat constructor; lia.
  - reflexivity.
  - reflexivity.
  - by left.
  - repeat constructor; try discriminate.
  - reflexivity.
  - repeat constructor; try discriminate; simpl; lia.
Defined.
