(* ===== verification/State.v ===== *)
(** * Programs with global state and system calls

    Record updates, the monad of a program that changes its global variables
    and calls the kernel, and its weakest preconditions.  A computation that
    accesses memory outside of its objects faults: [wp] rules that out, so a
    theorem stated with it contains the safety of the code; [wlp] speaks about
    the runs that do not fault. *)
From S2P Require Import Prelude Sys.

(** ** Record update: [r <| field := v |>] *)

Definition rd_pure {E A} (x : A) : E -> A := fun _ => x.
Definition rd_app {E A B} (f : E -> A -> B) (x : E -> A) : E -> B := fun e => f e (x e).

(** A record as its constructor applied to its fields. *)
Class Eta (R : Type) := eta : R -> R.
Class Setter {R T} (proj : R -> T) := upd : (T -> T) -> R -> R.
Arguments upd {R T} proj {_} f r.

Ltac solve_setter :=
  lazymatch goal with
  | |- @Setter ?R ?T ?p =>
      let i := constr:(_ : Eta R) in
      let e := eval cbv beta delta [eta] in (@eta R i) in
      let e := eval red in e in
      let s := lazymatch (eval pattern p in e) with
               | ?f _ => constr:(fun (g : T -> T) (r : R) => f (fun x => g (p x)) r)
               end in
      let s := eval cbv beta delta [rd_pure rd_app] in s in
      exact s
  end.

#[export] Hint Extern 1 (Setter _) => solve_setter : typeclass_instances.

Declare Scope record_scope.
Notation "r <| p ::= f |>" := (upd p f r)
  (at level 1, left associativity, p at level 9) : record_scope.
Notation "r <| p := v |>" := (upd p (fun _ => v) r)
  (at level 1, left associativity, p at level 9) : record_scope.
Infix "<*>" := rd_app (at level 11, left associativity) : record_scope.
Open Scope record_scope.

(** ** Results of computations on local data *)

(** [o] has a result, and it satisfies [P]. *)
Definition yields {A} (o : option A) (P : A -> Prop) : Prop :=
  match o with Some x => P x | None => False end.

Lemma yields_Some {A} (o : option A) x P : o = Some x -> P x -> yields o P.
Proof. by intros ->. Qed.

Lemma yields_inv {A} (o : option A) P : yields o P -> exists x, o = Some x /\ P x.
Proof. destruct o; [by eexists|done]. Qed.

Lemma yields_bind {A B} (o : option A) (f : A -> option B) P Q :
  yields o P -> (forall x, P x -> yields (f x) Q) -> yields (o ≫= f) Q.
Proof. destruct o; simpl; [auto|done]. Qed.

Lemma yields_mono {A} (o : option A) (P Q : A -> Prop) :
  yields o P -> (forall x, P x -> Q x) -> yields o Q.
Proof. destruct o; simpl; auto. Qed.

Lemma yields_if {A} (b : bool) (x y : option A) P :
  (b = true -> yields x P) -> (b = false -> yields y P) -> yields (if b then x else y) P.
Proof. destruct b; auto. Qed.

(** ** The monad *)

(** The kernel the program runs on. *)
Class Kern (C : Type) := kern : kernel C.

Section monad.
Context {S C : Type} `{!Kern C}.

Definition prog (A : Type) := S -> trace C -> option (A * S * trace C).

#[export] Instance prog_ret : MRet prog := fun A x s t => Some (x, s, t).
#[export] Instance prog_bind : MBind prog := fun A B f m s t =>
  match m s t with
  | Some (x, s, t) => f x s t
  | None => None
  end.

(** Read, change the state; a computation on local data; a system call. *)
Definition get {A} (f : S -> A) : prog A := fun s t => Some (f s, s, t).
Definition modify (f : S -> S) : prog unit := fun s t => Some (tt, f s, t).
Definition pure {A} (o : option A) : prog A := fun s t => x ← o; Some (x, s, t).
Definition syscall (c : C) : prog reply := fun s t => let r := kern t c in Some (r, s, t ++ [(c, r)]).
Definition when (b : bool) (m : prog unit) : prog unit := if b then m else mret tt.

(** [m] ends in a state that satisfies [Q]; [F] is what is claimed of a run that
    faults. *)
Definition wpf (F : Prop) {A} (m : prog A) (s : S) (t : trace C) (Q : A -> S -> trace C -> Prop) : Prop :=
  match m s t with
  | Some (x, s, t) => Q x s t
  | None => F
  end.

Lemma wp_run {A} (m : prog A) s t Q :
  wpf False m s t Q <-> exists x s' t', m s t = Some (x, s', t') /\ Q x s' t'.
Proof.
  unfold wpf. destruct (m s t) as [[[x s'] t']|]; [naive_solver|].
  split; [done|]. intros (? & ? & ? & ? & _). done.
Qed.

Section rules.
Context {F : Prop}.

Lemma wp_yields {A} (o : option A) (P : A -> Prop) s t (Q : A -> S -> trace C -> Prop) :
  yields o P -> (forall x, P x -> Q x s t) -> wpf F (pure o) s t Q.
Proof. unfold wpf, pure. destruct o; simpl; [auto|done]. Qed.

Lemma wp_eq {A} (m : prog A) s t x s' t' (Q : A -> S -> trace C -> Prop) :
  m s t = Some (x, s', t') -> Q x s' t' -> wpf F m s t Q.
Proof. unfold wpf. by intros ->. Qed.

Lemma wp_ret {A} (x : A) s t (Q : A -> S -> trace C -> Prop) : Q x s t -> wpf F (mret x) s t Q.
Proof. done. Qed.

Lemma wp_bind {A B} (m : prog A) (f : A -> prog B) s t Q :
  wpf F m s t (fun x s t => wpf F (f x) s t Q) -> wpf F (m ≫= f) s t Q.
Proof. unfold wpf, mbind, prog_bind. by destruct (m s t) as [[[x s'] t']|]. Qed.

Lemma wp_get {A} (f : S -> A) s t (Q : A -> S -> trace C -> Prop) : Q (f s) s t -> wpf F (get f) s t Q.
Proof. done. Qed.

Lemma wp_modify (f : S -> S) s t (Q : unit -> S -> trace C -> Prop) :
  Q tt (f s) t -> wpf F (modify f) s t Q.
Proof. done. Qed.

Lemma wp_pure {A} (o : option A) s t (Q : A -> S -> trace C -> Prop) :
  (forall x, o = Some x -> Q x s t) -> (o = None -> F) -> wpf F (pure o) s t Q.
Proof. unfold wpf, pure. destruct o; simpl; auto. Qed.

Lemma wp_pure_Some {A} (o : option A) x s t (Q : A -> S -> trace C -> Prop) :
  o = Some x -> Q x s t -> wpf F (pure o) s t Q.
Proof. intros ->. done. Qed.

Lemma wp_syscall c s t (Q : reply -> S -> trace C -> Prop) :
  Q (kern t c) s (t ++ [(c, kern t c)]) -> wpf F (syscall c) s t Q.
Proof. done. Qed.

Lemma wp_if {A} (b : bool) (m n : prog A) s t Q :
  (b = true -> wpf F m s t Q) -> (b = false -> wpf F n s t Q) -> wpf F (if b then m else n) s t Q.
Proof. destruct b; auto. Qed.

Lemma wp_when (b : bool) (m : prog unit) s t Q :
  (b = true -> wpf F m s t Q) -> (b = false -> Q tt s t) -> wpf F (when b m) s t Q.
Proof. intros H1 H2. destruct b; unfold when; [by apply H1|by apply H2]. Qed.

Lemma wp_mono {A} (m : prog A) s t (P Q : A -> S -> trace C -> Prop) :
  wpf F m s t P -> (forall x s t, P x s t -> Q x s t) -> wpf F m s t Q.
Proof. unfold wpf. destruct (m s t) as [[[x s'] t']|]; auto. Qed.
End rules.

(** ** Relations that every step of a computation keeps *)

(** [m] relates the state and trace it starts from to those it ends in; with
    [F = False] it also never faults. *)
Definition keepsf (F : Prop) (R : relation (S * trace C)) {A} (m : prog A) : Prop :=
  forall s t, wpf F m s t (fun _ s' t' => R (s, t) (s', t')).

Section keeps.
Context {F : Prop} (R : relation (S * trace C)) `{!PreOrder R}.
Local Abbreviation keeps := (keepsf F).

Lemma keeps_ret {A} (x : A) : keeps R (mret x).
Proof. intros s t. apply wp_ret. reflexivity. Qed.

Lemma keeps_bind {A B} (m : prog A) (f : A -> prog B) :
  keeps R m -> (forall x, keeps R (f x)) -> keeps R (m ≫= f).
Proof.
  intros Hm Hf s t. apply wp_bind. eapply wp_mono; [apply Hm|]. intros x s' t' H.
  eapply wp_mono; [apply Hf|]. intros y s'' t'' H'. cbv beta in *. by etrans.
Qed.

Lemma keeps_get {A} (f : S -> A) : keeps R (get f).
Proof. intros s t. apply wp_get. reflexivity. Qed.

Lemma keeps_pure {A} (o : option A) : keepsf True R (pure o).
Proof. intros s t. apply wp_pure; [|done]. intros. reflexivity. Qed.

Lemma keeps_modify f : (forall s t, R (s, t) (f s, t)) -> keeps R (modify f).
Proof. intros H s t. apply wp_modify. apply H. Qed.

Lemma keeps_syscall c : (forall s t r, R (s, t) (s, t ++ [(c, r)])) -> keeps R (syscall c).
Proof. intros H s t. apply wp_syscall. apply H. Qed.

Lemma keeps_if {A} (b : bool) (m n : prog A) : keeps R m -> keeps R n -> keeps R (if b then m else n).
Proof. by destruct b. Qed.

Lemma keeps_when b m : keeps R m -> keeps R (when b m).
Proof. intros. destruct b; [done|apply keeps_ret]. Qed.

Lemma wp_keeps {A} (m : prog A) s t Q :
  keeps R m -> (forall x s' t', R (s, t) (s', t') -> Q x s' t') -> wpf F m s t Q.
Proof. intros H HQ. eapply wp_mono; [apply H|]. intros x s' t'. apply HQ. Qed.

Lemma keeps_total {A} (m : prog A) : keepsf False R m -> keeps R m.
Proof. intros H s t. specialize (H s t). unfold wpf in *. by destruct (m s t) as [[[x s'] t']|]. Qed.
End keeps.

End monad.

Arguments prog : clear implicits.

Abbreviation wp := (wpf False).
Abbreviation wlp := (wpf True).
Abbreviation keeps := (keepsf True).
Abbreviation keeps_safe := (keepsf False).

(** One step of a weakest precondition; the branches of a condition become
    goals. *)
Ltac wp_step :=
  lazymatch goal with
  | |- wpf _ (mret _) _ _ _ => apply wp_ret
  | |- wpf _ (mbind _ _) _ _ _ => apply wp_bind
  | |- wpf _ (get _) _ _ _ => apply wp_get
  | |- wpf _ (modify _) _ _ _ => apply wp_modify
  | |- wpf _ (syscall _) _ _ _ => apply wp_syscall
  | |- wpf _ (when _ _) _ _ _ => apply wp_when; intros ?
  | |- wpf _ (if _ then _ else _) _ _ _ => apply wp_if; intros ?
  end.

Ltac wp_steps := repeat (wp_step; cbv beta).

(** One step of a [keeps] proof; lemmas about functions come from [db]. *)
Create HintDb keeps.

Ltac keeps_step :=
  lazymatch goal with
  | |- keepsf _ _ (mret _) => apply keeps_ret; apply _
  | |- keepsf _ _ (mbind _ _) => apply keeps_bind; [apply _| |intros ?]
  | |- keepsf _ _ (get _) => apply keeps_get; apply _
  | |- keepsf _ _ (pure _) => apply keeps_pure; apply _
  | |- keepsf _ _ (when _ _) => apply keeps_when; [apply _|]
  | |- keepsf _ _ (if ?b then _ else _) => destruct b
  | |- keepsf _ _ (match ?x with _ => _ end) => destruct x
  | |- keepsf _ _ (let _ := _ in _) => cbv zeta
  | |- keepsf _ _ _ => solve [eauto with keeps]
  end.

Ltac keeps_steps := repeat keeps_step.
