(* ===== verification/Wsupp.v ===== *)
(** * src/wsupp: state of the Wi-Fi supplicant, scan slots and station choice

    The global variables of the supplicant, the calls it makes, and the parts
    that keep the scan table: slots, the heap of information elements and the
    choice of a station (wsupp_slots.c, wsupp_bssid.c).  Messages to the control
    clients, to the script and to the kernel are calls whose replies are
    arbitrary. *)
From S2P Require Import Prelude Arr Sys Nlusctl Netlink State.

Definition EALREADY : Z := 114.
Definition EBADMSG : Z := 74.
Definition EBUSY : Z := 16.
Definition ECANCELED : Z := 125.
Definition EINTR : Z := 4.
Definition EISCONN : Z := 106.
Definition EMSGSIZE : Z := 90.
Definition ENETDOWN : Z := 100.
Definition ENODEV : Z := 19.
Definition ENOENT : Z := 2.
Definition ENOKEY : Z := 126.
Definition ENONET : Z := 64.
Definition ENOTCONN : Z := 107.
Definition ESRCH : Z := 3.

(** ** Data *)

(** [src/wsupp/wsupp.h: ap 50-67] the AP we are tuned on; [txies] is NULL or one of the
    constant tables *)
Record ap := Ap {
  slen : Z; ssid : list Z;
  txies : option (list Z); iesize : Z; gtklen : Z; akm : Z; pairwise : Z; group : Z;
  bssid : list Z; freq : Z; signal : Z; success : Z; rescans : Z }.
#[export] Instance eta_ap : Eta ap :=
  rd_pure Ap <*> slen <*> ssid <*> txies <*> iesize <*> gtklen <*> akm <*> pairwise <*> group
    <*> bssid <*> freq <*> signal <*> success <*> rescans.

(** [memzero(&ap, sizeof(ap))] *)
Definition zero_ap : ap := Ap 0 (repeat 0 32) None 0 0 0 0 0 (repeat 0 6) 0 0 0 0.

(** [src/wsupp/wsupp.h: scan] [ies] is NULL or an offset into the heap *)
Record scan := Scan {
  sc_flags : Z; sc_freq : Z; sc_signal : Z; sc_bssid : list Z; sc_ieslen : Z; sc_ies : option Z }.
#[export] Instance eta_scan : Eta scan :=
  rd_pure Scan <*> sc_flags <*> sc_freq <*> sc_signal <*> sc_bssid <*> sc_ieslen <*> sc_ies.

Definition zero_scan : scan := Scan 0 0 0 (repeat 0 6) 0 None.

Definition SF_SEEN : Z := 1.
Definition SF_TRIED : Z := 2.
Definition SF_STALE : Z := 4.
Definition SF_GOOD : Z := 8.
Definition SF_TKIP : Z := 16.
Definition NSCANS : nat := 30.

(** [flags & bit] as a condition *)
Definition has (flags bit : Z) : bool := negb (Z.land flags bit =? 0).

(** The callbacks a timer is set to. *)
Inductive callptr :=
  | connect_timeout | routine_fg_scan | routine_bg_scan | searching_scan
  | abort_timeout | swait_timeout.

(** The variables of wsupp_eapol.c. *)
Record eapol := Eapol {
  eapolstate : Z; eapolsends : Z; version : Z;
  amac : list Z; smac : list Z; anonce : list Z; snonce : list Z; replay : list Z;
  PSK : list Z; KCK : list Z; KEK : list Z; PTK : list Z; GTK : list Z; RSC : list Z;
  gtkindex : Z; packet : list Z }.
#[export] Instance eta_eapol : Eta eapol :=
  rd_pure Eapol <*> eapolstate <*> eapolsends <*> version <*> amac <*> smac <*> anonce <*> snonce
    <*> replay <*> PSK <*> KCK <*> KEK <*> PTK <*> GTK <*> RSC <*> gtkindex <*> packet.

(** The variables of wsupp_nlauth.c, wsupp_nlscan.c and wsupp_netlink.c. *)
Record netl := Netl {
  netlink : Z; nlseq : Z; nl80211 : Z; drvconnect : Z;
  authstate : Z; authseq : Z; retried : Z;
  scanstate : Z; scanreq : Z; scanseq : Z }.
#[export] Instance eta_netl : Eta netl :=
  rd_pure Netl <*> netlink <*> nlseq <*> nl80211 <*> drvconnect <*> authstate <*> authseq <*> retried
    <*> scanstate <*> scanreq <*> scanseq.

(** The scan table and the heap: [scans[0..nscans)]; the heap from [hp.org] on. *)
Record table := Table { scans : list scan; nscans : Z; heap : list Z; hp_ptr : Z }.
#[export] Instance eta_table : Eta table := rd_pure Table <*> scans <*> nscans <*> heap <*> hp_ptr.

(** The variables of wsupp_apsel.c, wsupp_script.c and wsupp.c. *)
Record oper := Oper {
  operstate : Z; aborterr : Z; abortstate : Z;
  timercall : option callptr; timersec : Z;
  running : Z; rawsock : Z; pollset : Z; ifindex : Z; ifaddr : list Z }.
#[export] Instance eta_oper : Eta oper :=
  rd_pure Oper <*> operstate <*> aborterr <*> abortstate <*> timercall <*> timersec <*> running
    <*> rawsock <*> pollset <*> ifindex <*> ifaddr.

Record ws := Ws { w_ap : ap; w_eap : eapol; w_nl : netl; w_tab : table; w_op : oper }.
#[export] Instance eta_ws : Eta ws := rd_pure Ws <*> w_ap <*> w_eap <*> w_nl <*> w_tab <*> w_op.

(** Reports to the clients of the control socket. *)
Inductive report := scan_end (err : Z) | disconnect | no_connect | link_ready.

(** Calls: of the kernel, and messages to the clients.  A netlink request is the
    message that [Netlink.genl_send_encodes] shows is sent. *)
Inductive wcall :=
  | Socket (type : Z)
  | BindRaw (fd ifi : Z)
  | Close (fd : Z)
  | Getrandom (n : Z)
  | Sendto (fd : Z) (buf dest : list Z)
  | Recvfrom (fd n : Z)
  | NlSend (fd type flags seq cmd : Z) (attrs : list nlitem)
  | Brk (size : Z)
  | Kill (pid sig : Z)
  | Access
  | Fork
  | Waitpid
  | Report (r : report) (ssid bssid : list Z) (freq : Z).

Section wsupp.
Context `{HK : !Kern wcall}.

Definition W := prog ws wcall.

Definition set_ap (f : ap -> ap) : W unit := modify (fun w => w <| w_ap ::= f |>).
Definition set_eap (f : eapol -> eapol) : W unit := modify (fun w => w <| w_eap ::= f |>).
Definition set_nl (f : netl -> netl) : W unit := modify (fun w => w <| w_nl ::= f |>).
Definition set_tab (f : table -> table) : W unit := modify (fun w => w <| w_tab ::= f |>).
Definition set_op (f : oper -> oper) : W unit := modify (fun w => w <| w_op ::= f |>).

(** [lib/string/nonzero.c: nonzero] *)
Definition nonzero (a : list Z) : bool := existsb (fun c => negb (c =? 0)) a.

(** ** Timers (wsupp.c) *)

(** [src/wsupp/wsupp.c: set_timer] *)
Definition set_timer (seconds : Z) (cb : callptr) : W unit :=
  set_op (fun o => o <| timersec := seconds |> <| timercall := Some cb |>).

(** [src/wsupp/wsupp.c: clear_timer] *)
Definition clear_timer : W unit :=
  set_op (fun o => o <| timersec := 0 |> <| timercall := None |>).

(** [src/wsupp/wsupp.c: get_timer] *)
Definition get_timer : W Z :=
  get (fun w => match timercall (w_op w) with Some _ => timersec (w_op w) | None => -1 end).

(** ** Slots (wsupp_slots.c) *)

(** [nonzero(sc, sizeof( *sc ))] *)
Definition scan_nonzero (s : scan) : bool :=
  negb (sc_flags s =? 0) || negb (sc_freq s =? 0) || negb (sc_signal s =? 0) ||
  nonzero (sc_bssid s) || negb (sc_ieslen s =? 0) || (match sc_ies s with Some _ => true | None => false end).

(** The first of the [n] slots from [i] on that satisfies [p]. *)
Fixpoint first_slot (p : scan -> bool) (l : list scan) (i n : nat) : option nat :=
  match n with
  | O => None
  | S n => match l !! i with
           | Some s => if p s then Some i else first_slot p l (S i) n
           | None => None
           end
  end.

(** [src/wsupp/wsupp_slots.c: grab_slot] on the scan table: the index and the count *)
Definition grab_slot (slots : list scan) (count : Z) (total : nat) : option nat * Z :=
  match first_slot (fun s => negb (scan_nonzero s)) slots 0 (Z.to_nat count) with
  | Some i => (Some i, count)
  | None => if Z.of_nat total <=? count then (None, count) else (Some (Z.to_nat count), count + 1)
  end.

(** [src/wsupp/wsupp_slots.c: free_slot 42-49] *)
Fixpoint trim_count (slots : list scan) (count : nat) : nat :=
  match count with
  | O => O
  | S n => match slots !! n with
           | Some s => if scan_nonzero s then count else trim_count slots n
           | None => count
           end
  end.

(** [src/wsupp/wsupp_slots.c: free_slot] *)
Definition free_slot (slots : list scan) (count : Z) (p : nat) : list scan * Z :=
  let slots := <[p := zero_scan]> slots in
  (slots, Z.of_nat (trim_count slots (Z.to_nat count))).

(** [src/wsupp/wsupp_slots.c: find_scan_slot] *)
Definition find_scan_slot (t : table) (bss : list Z) : option nat :=
  first_slot (fun s => negb (sc_freq s =? 0) && (memcmp_l (sc_bssid s) bss =? 0))
    (scans t) 0 (Z.to_nat (nscans t)).

(** [src/wsupp/wsupp_slots.c: grab_scan_slot] *)
Definition grab_scan_slot (bss : list Z) : W (option nat) :=
  t ← get w_tab;
  match find_scan_slot t bss with
  | Some i => mret (Some i)
  | None =>
      let '(r, n) := grab_slot (scans t) (nscans t) NSCANS in
      set_tab (fun t => t <| nscans := n |>);;
      match r with
      | Some i => mret (Some i)
      | None =>
          match first_slot (fun s => (sc_signal s <=? -8000) && has (sc_flags s) SF_STALE)
                  (scans t) 0 (Z.to_nat n) with
          | Some i => set_tab (fun t => t <| scans ::= <[i := zero_scan]> |>);; mret (Some i)
          | None => mret None
          end
      end
  end.

(** [src/wsupp/wsupp_slots.c: free_scan_slot] *)
Definition free_scan_slot (i : nat) : W unit :=
  t ← get w_tab;
  let '(s, n) := free_slot (scans t) (nscans t) i in
  set_tab (fun t => t <| scans := s |> <| nscans := n |>).

(** [lib/sys/mman.h: pagealign] *)
Definition pagealign (sz : Z) : Z := Z.land (sz + 4095) (Z.lnot 4095).

(** [src/wsupp/wsupp_slots.c: extend_heap] the kernel answers 0 for a break that
    moved where it was asked to, an error otherwise *)
Definition extend_heap (size : Z) : W Z :=
  t ← get w_tab;
  let brk := zlen (heap t) in
  let left := brk - hp_ptr t in
  if size <=? left then mret 0
  else
    let need := pagealign (size - left) in
    r ← syscall (Brk (brk + need));
    if s32 (ret r) <? 0 then mret (s32 (ret r))
    else
      set_tab (fun t => t <| heap := heap t ++ repeat 0 (Z.to_nat need) |>);;
      mret 0.

(** [src/wsupp/wsupp_slots.c: heap_store] *)
Definition heap_store (buf : list Z) (len : Z) : W (option Z) :=
  r ← extend_heap len;
  if r <? 0 then mret None
  else
    t ← get w_tab;
    let stored := hp_ptr t in
    s ← pure (aread buf 0 len);
    h ← pure (awrite (heap t) stored s);
    set_tab (fun t => t <| hp_ptr := stored + len |> <| heap := h |>);;
    mret (Some stored).

(** [src/wsupp/wsupp_slots.c: maybe_trim_heap] *)
Definition maybe_trim_heap : W unit :=
  t ← get w_tab;
  let brk := pagealign (hp_ptr t) in
  if zlen (heap t) <=? brk then mret tt
  else
    _ ← syscall (Brk brk);
    set_tab (fun t => t <| heap := take (Z.to_nat brk) (heap t) |>).

(** [src/wsupp/wsupp_slots.c: reset_heap] *)
Definition reset_heap : W unit := set_tab (fun t => t <| hp_ptr := 0 |>).

(** [src/wsupp/wsupp_slots.c: clear_scan_table] *)
Definition clear_scan_table : W unit :=
  set_tab (fun t => t <| nscans := 0 |> <| scans := repeat zero_scan NSCANS |>);;
  set_tab (fun t => t <| hp_ptr := 0 |>);;
  maybe_trim_heap.

(** ** Choice of the station (wsupp_bssid.c) *)

(** [src/wsupp/wsupp_bssid.c: ies_ccmp_ccmp] *)
Definition ies_ccmp_ccmp : list Z :=
  [0x30; 0x14; 0x01; 0x00; 0x00; 0x0F; 0xAC; 0x04; 0x01; 0x00; 0x00; 0x0F; 0xAC; 0x04;
   0x01; 0x00; 0x00; 0x0F; 0xAC; 0x02; 0x00; 0x00].
(** [src/wsupp/wsupp_bssid.c: ies_ccmp_tkip] *)
Definition ies_ccmp_tkip : list Z :=
  [0x30; 0x14; 0x01; 0x00; 0x00; 0x0F; 0xAC; 0x02; 0x01; 0x00; 0x00; 0x0F; 0xAC; 0x04;
   0x01; 0x00; 0x00; 0x0F; 0xAC; 0x02; 0x00; 0x00].

Definition RSN_CIPHER_CCMP : Z := 0x000FAC04.
Definition RSN_CIPHER_TKIP : Z := 0x000FAC02.
Definition RSN_AKM_PSK : Z := 0x000FAC02.

(** [src/wsupp/wsupp_bssid.c: get2le] *)
Definition get2le (mem : list Z) (p e : Z) : option Z :=
  if e <? p + 3 then Some 0
  else p0 ← zget mem p; p1 ← zget mem (p + 1); Some (Z.lor p0 (Z.shiftl p1 8)).

(** [src/wsupp/wsupp_bssid.c: get4be] *)
Definition get4be (mem : list Z) (p e : Z) : option Z :=
  if e <? p + 4 then Some 0
  else
    p0 ← zget mem p; p1 ← zget mem (p + 1); p2 ← zget mem (p + 2); p3 ← zget mem (p + 3);
    Some (u32 (Z.lor (Z.lor (Z.lor (Z.shiftl p0 24) (Z.shiftl p1 16)) (Z.shiftl p2 8)) p3)).

(** [src/wsupp/wsupp_bssid.c: find_int 126-128] *)
Fixpoint find_int_loop (n : nat) (mem : list Z) (p e val : Z) : option bool :=
  match n with
  | O => Some false
  | S n =>
      v ← get4be mem p e;
      if v =? val then Some true else find_int_loop n mem (p + 4) e val
  end.

(** [src/wsupp/wsupp_bssid.c: find_int] *)
Definition find_int (mem : list Z) (buf cnt val : Z) : option bool :=
  find_int_loop (Z.to_nat cnt) mem buf (buf + 4 * cnt) val.

(** [src/wsupp/wsupp_bssid.c: parse_rsn_ie] *)
Definition parse_rsn_ie (mem : list Z) (sc : scan) (len buf : Z) : option scan :=
  let p := buf in
  let e := buf + len in
  version ← get2le mem p e;
  let p := p + 2 in
  if negb (version =? 1) then Some sc
  else
    group ← get4be mem p e;
    let p := p + 4 in
    pcnt ← get2le mem p e;
    let p := p + 2 in
    let pair := p in
    let p := p + 4 * pcnt in
    acnt ← get2le mem p e;
    let p := p + 2 in
    let akms := p in
    b ← find_int mem pair pcnt 0x000FAC04;
    if negb b then Some sc
    else
      b ← find_int mem akms acnt 0x000FAC02;
      if negb b then Some sc
      else if group =? 0x000FAC02 then
        Some (sc <| sc_flags ::= fun f => Z.lor (Z.lor f SF_TKIP) SF_GOOD |>)
      else if group =? 0x000FAC04 then
        Some (sc <| sc_flags ::= fun f => Z.lor f SF_GOOD |>)
      else Some sc.

(** [src/wsupp/wsupp_bssid.c: find_ie 169-179] *)
Fixpoint find_ie_loop (fuel : nat) (mem : list Z) (ptr e type : Z) : option (option Z) :=
  if ptr <? e then
    match fuel with
    | O => None
    | S fuel =>
        len ← zget mem (ptr + 1);
        let ielen := 2 + len in
        if e <? ptr + ielen then Some None
        else
          t ← zget mem ptr;
          if t =? type then Some (Some ptr)
          else find_ie_loop fuel mem (ptr + ielen) e type
    end
  else Some None.

(** [src/wsupp/wsupp_bssid.c: find_ie] *)
Definition find_ie (mem : list Z) (buf len type : Z) : option (option Z) :=
  find_ie_loop (Z.to_nat len) mem buf (buf + len) type.

(** [src/wsupp/wsupp_bssid.c: check_ap_ies] *)
Definition check_ap_ies (mem : list Z) (a : ap) (sc : scan) : option scan :=
  buf ← sc_ies sc;
  let len := sc_ieslen sc in
  let sc := sc <| sc_flags ::= fun f => Z.lor f SF_SEEN |> in
  ie ← find_ie mem buf len 0;
  match ie with
  | None => Some sc
  | Some ie =>
      n ← zget mem (ie + 1);
      if negb (n =? slen a) then Some sc
      else
        s ← aread mem (ie + 2) (slen a);
        if negb (memcmp_l s (take (Z.to_nat (slen a)) (ssid a)) =? 0) then Some sc
        else
          ie ← find_ie mem buf len 48;
          match ie with
          | None => Some sc
          | Some ie => n ← zget mem (ie + 1); parse_rsn_ie mem sc n (ie + 2)
          end
  end.

(** [src/wsupp/wsupp_bssid.c: band_score] *)
Definition band_score (sc : scan) : Z :=
  if sc_signal sc <? -7500 then 0 else if sc_freq sc / 1000 =? 5 then 1 else 0.

(** [src/wsupp/wsupp_bssid.c: cmp] *)
Definition cmp (a b : Z) : Z := if b <? a then 1 else if a <? b then -1 else 0.

(** [src/wsupp/wsupp_bssid.c: compare] *)
Definition compare (sc : scan) (best : option scan) : Z :=
  match best with
  | None => 1
  | Some best =>
      let r := cmp (band_score sc) (band_score best) in
      if negb (r =? 0) then r
      else
        let r := cmp (sc_signal sc) (sc_signal best) in
        if negb (r =? 0) then r else 0
  end.

(** [src/wsupp/wsupp_bssid.c: set_current_bss] *)
Definition set_current_bss (i : nat) : W unit :=
  t ← get w_tab;
  sc ← pure (scans t !! i);
  set_ap (fun a => a <| freq := s16 (sc_freq sc) |> <| bssid := sc_bssid sc |>
                     <| akm := RSN_AKM_PSK |> <| pairwise := RSN_CIPHER_CCMP |>);;
  (if has (sc_flags sc) SF_TKIP
   then set_ap (fun a => a <| txies := Some ies_ccmp_tkip |> <| iesize := 22 |>
                           <| gtklen := 32 |> <| group := RSN_CIPHER_TKIP |>)
   else set_ap (fun a => a <| txies := Some ies_ccmp_ccmp |> <| iesize := 22 |>
                           <| gtklen := 16 |> <| group := RSN_CIPHER_CCMP |>));;
  set_tab (fun t => t <| scans ::= alter (fun s => s <| sc_flags ::= fun f => Z.lor f SF_TRIED |>) i |>).

(** [src/wsupp/wsupp_bssid.c: get_best_bss 278-294] from slot [i] on, [n] left *)
Fixpoint best_loop (n i : nat) (mem : list Z) (a : ap) (slots : list scan) (best : option nat)
    : option (list scan * option nat) :=
  match n with
  | O => Some (slots, best)
  | S n =>
      sc ← slots !! i;
      if sc_freq sc =? 0 then best_loop n (S i) mem a slots best
      else match sc_ies sc with
      | None => best_loop n (S i) mem a slots best
      | Some _ =>
          if has (sc_flags sc) SF_TRIED then best_loop n (S i) mem a slots best
          else
            sc ← (if negb (has (sc_flags sc) SF_SEEN) then check_ap_ies mem a sc else Some sc);
            let slots := <[i := sc]> slots in
            if negb (has (sc_flags sc) SF_GOOD) then best_loop n (S i) mem a slots best
            else if compare sc (b ← best; slots !! b) <=? 0 then best_loop n (S i) mem a slots best
            else best_loop n (S i) mem a slots (Some i)
      end
  end.

(** [src/wsupp/wsupp_bssid.c: get_best_bss] *)
Definition get_best_bss : W (option nat) :=
  w ← get id;
  '(slots, best) ← pure (best_loop (Z.to_nat (nscans (w_tab w))) 0 (heap (w_tab w)) (w_ap w)
                          (scans (w_tab w)) None);
  set_tab (fun t => t <| scans := slots |>);;
  mret best.

(** [src/wsupp/wsupp_bssid.c: find_current_bss] *)
Definition find_current_bss (w : ws) : option nat :=
  if negb (nonzero (bssid (w_ap w))) then None
  else first_slot (fun s => memcmp_l (sc_bssid s) (bssid (w_ap w)) =? 0)
         (scans (w_tab w)) 0 (Z.to_nat (nscans (w_tab w))).

(** [src/wsupp/wsupp_bssid.c: pick_best_bss] *)
Definition pick_best_bss : W Z :=
  r ← get_best_bss;
  match r with
  | None => mret (- ENOENT)
  | Some i => set_current_bss i;; mret 0
  end.

(** [src/wsupp/wsupp_bssid.c: current_bss_in_scans] *)
Definition current_bss_in_scans : W bool :=
  get (fun w => match find_current_bss w with Some _ => true | None => false end).

(** [src/wsupp/wsupp_bssid.c: mark_current_bss_good] *)
Definition mark_current_bss_good : W unit :=
  r ← get find_current_bss;
  match r with
  | None => mret tt
  | Some i =>
      set_tab (fun t => t <| scans ::= alter (fun s => s <| sc_flags ::= fun f => Z.land f (Z.lnot SF_TRIED) |>) i |>)
  end.

(** The first [nscans] slots, changed. *)
Definition map_slots (f : scan -> scan) (t : table) : table :=
  t <| scans := map f (take (Z.to_nat (nscans t)) (scans t)) ++ drop (Z.to_nat (nscans t)) (scans t) |>.

(** [src/wsupp/wsupp_bssid.c: clear_all_bss_marks] *)
Definition clear_all_bss_marks : W unit :=
  let mask := Z.lnot (Z.lor (Z.lor (Z.lor SF_GOOD SF_TKIP) SF_SEEN) SF_TRIED) in
  set_tab (map_slots (fun s => s <| sc_flags ::= fun f => Z.land f mask |>)).

(** ** Script (wsupp_script.c) *)

(** [src/wsupp/wsupp_script.c: kill_script] *)
Definition kill_script (sig : Z) : W Z :=
  pid ← get (fun w => running (w_op w));
  if pid <=? 0 then mret (- ESRCH)
  else r ← syscall (Kill pid sig); mret (s32 (ret r)).

(** [src/wsupp/wsupp_script.c: sighup_script] *)
Definition sighup_script : W Z := kill_script 1.

(** [src/wsupp/wsupp_script.c: sigint_script] *)
Definition sigint_script : W Z := kill_script 2.

(** [src/wsupp/wsupp_script.c: force_script] *)
Definition force_script : W unit :=
  pid ← get (fun w => running (w_op w));
  if pid <=? 0 then mret tt
  else _ ← syscall (Kill pid 15); set_op (fun o => o <| running := 0 |>).

(** [src/wsupp/wsupp_script.c: spawn_script] the parent; the child only executes
    the script *)
Definition spawn_script : W Z :=
  pid ← get (fun w => running (w_op w));
  if 0 <? pid then mret (- EBUSY)
  else
    r ← syscall Access;
    let ret1 := s32 (ret r) in
    if ret1 <? 0 then mret 0
    else
      f ← syscall Fork;
      let pid := s32 (ret f) in
      if pid <? 0 then mret ret1
      else set_op (fun o => o <| running := pid |>);; mret pid.

End wsupp.
