(* ===== verification/WsLink.v ===== *)
(** * src/wsupp: commands to the card and the keys of the link

    Requests of the authentication and scan state machines (wsupp_nlauth.c,
    wsupp_nlscan.c, wsupp_nlkeys.c) and the sending half of the EAPOL exchange
    (wsupp_eapol.c): key derivation, integrity codes, packets 2/4, 4/4 and the
    group acknowledgement. *)
From S2P Require Import Prelude Arr Sys Nlusctl Netlink State Sha Aes Wsupp.

(** [src/wsupp/wsupp_nlauth.c: AS_IDLE 96-104] *)
Definition AS_IDLE : Z := 0.
Definition AS_AUTHENTICATING : Z := 1.
Definition AS_ASSOCIATING : Z := 2.
Definition AS_CONNECTING : Z := 3.
Definition AS_CONNECTED : Z := 4.
Definition AS_DISCONNECTING : Z := 5.
Definition AS_EXTERNAL : Z := 7.
Definition AS_RETRYING : Z := 8.

(** [src/wsupp/wsupp_nlscan.c: SS_IDLE 36-38] *)
Definition SS_IDLE : Z := 0.
Definition SS_SCANNING : Z := 1.
Definition SS_SCANDUMP : Z := 2.

(** [src/wsupp/wsupp_eapol.c: ES_IDLE 33-37] *)
Definition ES_IDLE : Z := 0.
Definition ES_WAITING_1_4 : Z := 1.
Definition ES_WAITING_2_4 : Z := 2.
Definition ES_WAITING_3_4 : Z := 3.
Definition ES_NEGOTIATED : Z := 4.

Definition KI_TYPEMASK : Z := 7.
Definition KI_SHA : Z := 2.
Definition KI_PAIRWISE : Z := 8.
Definition KI_ACK : Z := 128.
Definition KI_MIC : Z := 256.
Definition KI_SECURE : Z := 512.
Definition KI_ENCRYPTED : Z := 4096.

(** [src/wsupp/wsupp_eapol.h: eapolkey] the offsets of the fields *)
Definition ek_version : Z := 0.
Definition ek_pactype : Z := 1.
Definition ek_paclen : Z := 2.
Definition ek_type : Z := 4.
Definition ek_keyinfo : Z := 5.
Definition ek_keylen : Z := 7.
Definition ek_replay : Z := 9.
Definition ek_nonce : Z := 17.
Definition ek_iv : Z := 49.
Definition ek_rsc : Z := 65.
Definition ek_reserved : Z := 73.
Definition ek_mic : Z := 81.
Definition ek_paylen : Z := 97.
Definition ek_payload : Z := 99.
Definition eksize : Z := 99.

Section wsupp.
Context `{HK : !Kern wcall} `{HL : !Locals}.

(** ** Requests (wsupp_nlauth.c) *)

(** The [nc_] calls of a request and [nc_send], on the 512 bytes of [txbuf]. *)
Definition nl_send (flags seq cmd : Z) (attrs : list nlitem) : W Z :=
  n ← get w_nl;
  if 512 <? zlen (genl_message (nl80211 n) flags seq cmd 0 attrs) then mret (- ENOBUFS)
  else r ← syscall (NlSend (netlink n) (nl80211 n) flags seq cmd attrs); mret (s32 (ret r)).

(** [nlseq++] *)
Definition next_seq : W Z :=
  seq ← get (fun w => nlseq (w_nl w));
  set_nl (fun n => n <| nlseq := u32 (seq + 1) |>);;
  mret (s32 seq).

(** [src/wsupp/wsupp_nlauth.c: put_command] with the attributes that follow and [send_command] *)
Definition put_command (cmd : Z) (attrs : list nlitem) : W Z :=
  seq ← next_seq;
  set_nl (fun n => n <| authseq := u32 seq |>);;
  nl_send 0 seq cmd attrs.

(** [src/wsupp/wsupp_nlauth.c: put_ssid_bss_attrs] *)
Definition put_ssid_bss_attrs (w : ws) : list nlitem :=
  [NInt 3 (ifindex (w_op w)); NPut 6 (bssid (w_ap w)); NInt 38 (freq (w_ap w));
   NPut 52 (take (Z.to_nat (slen (w_ap w))) (ssid (w_ap w)))].

(** [src/wsupp/wsupp_nlauth.c: put_bss_auth_attrs] *)
Definition put_bss_auth_attrs (w : ws) : list nlitem := [NInt 53 0].

(** [src/wsupp/wsupp_nlauth.c: put_wpa_auth_attrs] *)
Definition put_wpa_auth_attrs (w : ws) : list nlitem :=
  [NFlag 70; NInt 75 2; NInt 73 (pairwise (w_ap w)); NInt 74 (group (w_ap w));
   NInt 76 (akm (w_ap w)); NPut 42 (default [] (txies (w_ap w)))].

(** [src/wsupp/wsupp_nlauth.c: trigger_authentication] *)
Definition trigger_authentication : W Z :=
  w ← get id; put_command 37 (put_ssid_bss_attrs w ++ put_bss_auth_attrs w).

(** [src/wsupp/wsupp_nlauth.c: trigger_associaction] *)
Definition trigger_associaction : W Z :=
  w ← get id; put_command 38 (put_ssid_bss_attrs w ++ put_wpa_auth_attrs w).

(** [src/wsupp/wsupp_nlauth.c: trigger_connect] *)
Definition trigger_connect : W Z :=
  w ← get id; put_command 46 (put_ssid_bss_attrs w ++ put_bss_auth_attrs w ++ put_wpa_auth_attrs w).

(** [src/wsupp/wsupp_nlauth.c: trigger_disconnect] *)
Definition trigger_disconnect : W Z :=
  w ← get id; put_command 48 [NInt 3 (ifindex (w_op w))].

(** [src/wsupp/wsupp_nlauth.c: trigger_connection] *)
Definition trigger_connection : W Z :=
  n ← get w_nl;
  if negb (drvconnect n =? 0) then
    r ← trigger_connect;
    if r <? 0 then mret r
    else set_nl (fun n => n <| authstate := AS_CONNECTING |>);; mret 0
  else
    r ← trigger_authentication;
    if r <? 0 then mret r
    else set_nl (fun n => n <| authstate := AS_AUTHENTICATING |>);; mret 0.

(** [src/wsupp/wsupp_nlauth.c: start_connection] *)
Definition start_connection : W Z :=
  set_nl (fun n => n <| retried := 0 |>);;
  n ← get w_nl;
  if netlink n <=? 0 then mret (- ENODEV) else trigger_connection.

(** [src/wsupp/wsupp_nlauth.c: start_disconnect] *)
Definition start_disconnect : W Z :=
  n ← get w_nl;
  if negb (authstate n =? AS_CONNECTED) then mret (- ENOTCONN)
  else
    r ← trigger_disconnect;
    if r <? 0 then mret r
    else set_nl (fun n => n <| authstate := AS_DISCONNECTING |>);; mret 0.

(** [src/wsupp/wsupp_nlauth.c: force_disconnect] *)
Definition force_disconnect : W Z := trigger_disconnect.

(** [src/wsupp/wsupp_nlauth.c: retry_connect] *)
Definition retry_connect (r : Z) : W Z :=
  n ← get w_nl;
  if negb (r =? - EALREADY) then mret r
  else if negb (retried n =? 0) then mret r
  else if (authstate n =? AS_AUTHENTICATING) || (authstate n =? AS_ASSOCIATING) ||
          (authstate n =? AS_CONNECTING) then
    r ← trigger_disconnect;
    if r <? 0 then mret r
    else set_nl (fun n => n <| authstate := AS_RETRYING |> <| retried := 1 |>);; mret 0
  else mret r.

(** [src/wsupp/wsupp_nlauth.c: reset_auth_state] *)
Definition reset_auth_state : W unit :=
  set_nl (fun n => n <| authstate := AS_IDLE |> <| authseq := 0 |> <| retried := 0 |>).

(** ** Scans (wsupp_nlscan.c) *)

(** [src/wsupp/wsupp_nlscan.c: reset_scan_state] *)
Definition reset_scan_state : W unit :=
  set_nl (fun n => n <| scanstate := SS_IDLE |> <| scanreq := 0 |>).

(** [src/wsupp/wsupp_nlscan.c: trigger_scan] *)
Definition trigger_scan (fq : Z) : W Z :=
  seq ← next_seq;
  set_nl (fun n => n <| scanseq := u32 seq |>);;
  o ← get w_op;
  r ← nl_send 0 seq 33 (NInt 3 (ifindex o) ::
    (if negb (fq =? 0) then [NNest 44 [NInt 0 fq]] else []));
  if r <? 0 then mret r else mret 0.

(** [src/wsupp/wsupp_nlscan.c: start_scan] *)
Definition start_scan (fq : Z) : W Z :=
  n ← get w_nl;
  if netlink n <=? 0 then mret (- ENODEV)
  else if negb (scanstate n =? SS_IDLE) then
    if negb (scanreq n =? 0) then mret (- EBUSY) else mret 0
  else
    r ← trigger_scan fq;
    if r <? 0 then mret r
    else set_nl (fun n => n <| scanreq := fq |> <| scanstate := SS_SCANNING |>);; mret 0.

(** ** The raw socket (wsupp_eapol.c) *)

(** [src/wsupp/wsupp_eapol.c: open_rawsock] *)
Definition open_rawsock : W Z :=
  o ← get w_op;
  if 0 <=? rawsock o then mret 0
  else
    r ← syscall (Socket (htons 0x888E));
    let fd := s32 (ret r) in
    if fd <? 0 then mret fd
    else
      r ← syscall (BindRaw fd (ifindex o));
      if s32 (ret r) <? 0 then _ ← syscall (Close fd); mret (s32 (ret r))
      else set_op (fun o => o <| rawsock := fd |> <| pollset := 0 |>);; mret 0.

(** [src/wsupp/wsupp_eapol.c: close_rawsock] *)
Definition close_rawsock : W unit :=
  fd ← get (fun w => rawsock (w_op w));
  if fd <? 0 then mret tt
  else
    _ ← syscall (Close fd);
    set_op (fun o => o <| rawsock := -1 |> <| pollset := 0 |>).

(** ** Keys *)

(** [lib/format/fmtraw.c: fmtraw] into a buffer of [e] bytes from [p] on *)
Definition fmtraw_l (buf : list Z) (p e : Z) (data : list Z) (len : Z) : option (list Z * Z) :=
  let len := if e - p <? len then e - p else len in
  if len <=? 0 then Some (buf, p)
  else s ← aread data 0 len; buf ← awrite buf p s; Some (buf, p + len).

(** [src/wsupp/wsupp_eapol.c: PRF480 160-163] *)
Fixpoint prf_loop (n : nat) (i : Z) (out key ibuf : list Z) (p ilen : Z) : option (list Z) :=
  match n with
  | O => Some out
  | S n =>
      ibuf ← zput ibuf p i;
      o ← aread out (i * 20) (zlen out - i * 20);
      o ← hmac_sha1 o key 32 ibuf ilen;
      out ← awrite out (i * 20) o;
      prf_loop n (i + 1) out key ibuf p ilen
  end.

(** [src/wsupp/wsupp_eapol.c: PRF480] [str] without its NUL *)
Definition PRF480 (out key str mac1 mac2 nonce1 nonce2 : list Z) : option (list Z) :=
  let slen := zlen str in
  let ilen := slen + 1 + 2 * 6 + 2 * 32 + 1 in
  let xlen := ilen + 10 in
  let ibuf := junk (Z.to_nat xlen) in
  '(ibuf, p) ← fmtraw_l ibuf 0 xlen (str ++ [0]) (slen + 1);
  '(ibuf, p) ← fmtraw_l ibuf p xlen mac1 6;
  '(ibuf, p) ← fmtraw_l ibuf p xlen mac2 6;
  '(ibuf, p) ← fmtraw_l ibuf p xlen nonce1 32;
  '(ibuf, p) ← fmtraw_l ibuf p xlen nonce2 32;
  prf_loop 3 0 out key ibuf p ilen.

(** [src/wsupp/wsupp_eapol.c: make_mic] the code for [len] bytes of [buf] *)
Definition make_mic (kck buf : list Z) (len : Z) : option (list Z) :=
  hash ← hmac_sha1 (junk 20) kck 16 buf len;
  aread hash 0 16.

(** [lib/string/memxcmp.c: memxcmp] on arrays: zero when they are equal *)
Fixpoint memxcmp_l (a b : list Z) (r : Z) : Z :=
  match a, b with
  | x :: a, y :: b => memxcmp_l a b (Z.lor r (x - y))
  | _, _ => r
  end.

(** [src/wsupp/wsupp_eapol.c: check_mic] [mic] is an offset into [buf] *)
Definition check_mic (mic : Z) (kck buf : list Z) (len : Z) : option (list Z * Z) :=
  copy ← aread buf mic 16;
  buf ← afill buf mic 0 16;
  hash ← hmac_sha1 (junk 20) kck 16 buf len;
  h ← aread hash 0 16;
  Some (buf, memxcmp_l h copy 0).

(** "Pairwise key expansion" *)
Definition astr : list Z :=
  [80; 97; 105; 114; 119; 105; 115; 101; 32; 107; 101; 121; 32; 101; 120; 112; 97; 110; 115; 105;
   111; 110].

(** [src/wsupp/wsupp_eapol.c: pmk_to_ptk] *)
Definition pmk_to_ptk : W unit :=
  w ← get id;
  set_eap (fun e => e <| smac := ifaddr (w_op w) |> <| amac := bssid (w_ap w) |>);;
  e ← get w_eap;
  let '(mac1, mac2) :=
    if memcmp_l (smac e) (amac e) <? 0 then (smac e, amac e) else (amac e, smac e) in
  let '(nonce1, nonce2) :=
    if memcmp_l (snonce e) (anonce e) <? 0 then (snonce e, anonce e) else (anonce e, snonce e) in
  key ← pure (PRF480 (junk 60) (PSK e) astr mac1 mac2 nonce1 nonce2);
  kck ← pure (aread key 0 16);
  kek ← pure (aread key 16 16);
  ptk ← pure (aread key 32 16);
  set_eap (fun e => e <| KCK := kck |> <| KEK := kek |> <| PTK := ptk |>).

(** [src/wsupp/wsupp_eapol.c: cleanup_keys] *)
Definition cleanup_keys : W unit :=
  set_eap (fun e => e <| packet := repeat 0 1024 |> <| anonce := repeat 0 32 |>
    <| snonce := repeat 0 32 |> <| PTK := repeat 0 16 |> <| GTK := repeat 0 32 |>).

(** [src/wsupp/wsupp_eapol.c: reset_eapol_state] *)
Definition reset_eapol_state : W unit :=
  cleanup_keys;;
  set_eap (fun e => e <| KCK := repeat 0 16 |> <| GTK := repeat 0 32 |> <| KEK := repeat 0 16 |>
    <| snonce := repeat 0 32 |> <| anonce := repeat 0 32 |> <| amac := repeat 0 6 |>
    <| smac := repeat 0 6 |> <| version := 0 |>).

(** [src/wsupp/wsupp_eapol.c: prime_eapol_state] *)
Definition prime_eapol_state : W Z :=
  set_eap (fun e => e <| eapolstate := ES_WAITING_1_4 |> <| eapolsends := 0 |>);;
  r ← syscall (Getrandom 32);
  e ← get w_eap;
  s ← pure (awrite (snonce e) 0 (take 32 (out r)));
  set_eap (fun e => e <| snonce := s |>);;
  mret (s32 (ret r)).

(** ** Sending packets *)

(** [src/wsupp/wsupp_eapol.c: send_packet] *)
Definition send_packet (buf : list Z) (len : Z) : W Z :=
  b ← pure (aread buf 0 len);
  w ← get id;
  r ← syscall (Sendto (rawsock (w_op w)) b (amac (w_eap w)));
  let ret1 := s32 (ret r) in
  if ret1 <? 0 then mret ret1
  else if negb (ret1 =? len) then mret (- EMSGSIZE)
  else mret ret1.

(** The fields of a packet that is sent, from [version] to [_reserved]. *)
Definition put_fields (pk : list Z) (version keyinfo keylen : Z) (replay nonce : list Z)
    : option (list Z) :=
  pk ← zput pk ek_version version;
  pk ← zput pk ek_pactype 3;
  pk ← zput pk ek_type 2;
  pk ← put16 pk ek_keyinfo (htons keyinfo);
  pk ← put16 pk ek_keylen (htons keylen);
  pk ← awrite pk ek_replay replay;
  pk ← awrite pk ek_nonce nonce;
  pk ← afill pk ek_iv 0 16;
  pk ← afill pk ek_rsc 0 8;
  pk ← afill pk ek_mic 0 16;
  afill pk ek_reserved 0 8.

(** The integrity code over the packet, stored into it. *)
Definition put_mic (pk kck : list Z) (len : Z) : option (list Z) :=
  mic ← make_mic kck pk len;
  awrite pk ek_mic mic.

(** [src/wsupp/wsupp_eapol.c: send_packet_2] *)
Definition send_packet_2 : W Z :=
  e ← get w_eap;
  a ← get w_ap;
  pk ← pure (put_fields (packet e) (version e) (Z.lor (Z.lor KI_SHA KI_PAIRWISE) KI_MIC) 16
               (replay e) (snonce e));
  let paylen := iesize a in
  let paclen := eksize + paylen in
  pk ← pure (put16 pk ek_paylen (htons paylen));
  pk ← pure (put16 pk ek_paclen (htons (paclen - 4)));
  ies ← pure (aread (default [] (txies a)) 0 paylen);
  pk ← pure (awrite pk ek_payload ies);
  pk ← pure (put_mic pk (KCK e) paclen);
  set_eap (fun e => e <| packet := pk |>);;
  r ← send_packet pk paclen;
  if r <? 0 then mret r
  else set_eap (fun e => e <| eapolstate := ES_WAITING_3_4 |>);; mret 0.

(** [src/wsupp/wsupp_eapol.c: allow_eapol_sends] *)
Definition allow_eapol_sends : W Z :=
  st ← get (fun w => eapolstate (w_eap w));
  if st =? ES_WAITING_1_4 then set_eap (fun e => e <| eapolsends := 1 |>);; mret 0
  else if st =? ES_WAITING_2_4 then r ← send_packet_2; mret (if r <? 0 then r else 0)
  else mret (- EINVAL).

(** ** Installing the keys (wsupp_nlkeys.c) *)

(** [src/wsupp/wsupp_nlkeys.c: upload_ptk] *)
Definition upload_ptk : W Z :=
  seq ← next_seq;
  w ← get id;
  nl_send 0 seq 11
    [NInt 3 (ifindex (w_op w)); NPut 6 (bssid (w_ap w)); NByte 8 0; NInt 9 (pairwise (w_ap w));
     NPut 7 (PTK (w_eap w)); NPut 10 (repeat 0 6); NNest 110 [NFlag 1]].

(** [src/wsupp/wsupp_nlkeys.c: upload_gtk] *)
Definition upload_gtk : W Z :=
  seq ← next_seq;
  w ← get id;
  gtk ← pure (aread (GTK (w_eap w)) 0 (gtklen (w_ap w)));
  nl_send 0 seq 11
    [NInt 3 (ifindex (w_op w)); NByte 8 (gtkindex (w_eap w)); NInt 9 (group (w_ap w));
     NPut 7 gtk; NPut 10 (RSC (w_eap w)); NNest 110 [NFlag 2]].

End wsupp.
