(* ===== verification/Apsel.v ===== *)
(** * src/wsupp: the station selection state machine

    The top-level logic of the supplicant (wsupp_apsel.c): it starts scans and
    connections, and decides what to do when one ends. *)
From S2P Require Import Prelude Arr Sys Nlusctl Netlink State Sha Aes Wsupp WsLink.

(** [src/wsupp/wsupp_apsel.c: OP_STOPPED 11-30] *)
Definition OP_STOPPED : Z := 0.
Definition OP_MONITORING : Z := 1.
Definition OP_CONNECTED : Z := 2.
Definition OP_SEARCHING : Z := 3.
Definition OP_FG_SCAN : Z := 10.
Definition OP_BG_SCAN : Z := 11.
Definition OP_NET_SCAN : Z := 12.
Definition OP_BSS_SCAN : Z := 13.
Definition OP_CONNECTING : Z := 20.
Definition OP_EAPOL : Z := 21.
Definition OP_DISCONNECTING : Z := 23.
Definition OP_ABORTING : Z := 24.
Definition OP_NETDOWN : Z := 30.
Definition OP_WAIT_DISCONN : Z := 40.
Definition OP_WAIT_ABORT : Z := 41.

Section apsel.
Context `{HK : !Kern wcall} `{HL : !Locals}.

Definition set_oper (s : Z) : W unit := set_op (fun o => o <| operstate := s |>).

(** The reports of wsupp_control.c. *)
Definition send_report (r : report) : W unit :=
  a ← get w_ap; _ ← syscall (Report r (take (Z.to_nat (slen a)) (ssid a)) (bssid a) (freq a)); mret tt.

(** [src/wsupp/wsupp_apsel.c: clear_bssid] *)
Definition clear_bssid : W unit :=
  set_ap (fun a => a <| freq := 0 |> <| rescans := 0 |> <| bssid := repeat 0 6 |>).

(** [src/wsupp/wsupp_apsel.c: clear_ssid_bssid] *)
Definition clear_ssid_bssid : W unit := set_ap (fun _ => zero_ap).

(** [src/wsupp/wsupp_apsel.c: proceed_with_connect] *)
Definition proceed_with_connect : W Z :=
  set_op (fun o => o <| aborterr := 0 |>);;
  r ← prime_eapol_state;
  if r <? 0 then mret r
  else
    r ← open_rawsock;
    if r <? 0 then mret r
    else
      r ← start_connection;
      if r <? 0 then mret r
      else set_timer 2 connect_timeout;; set_oper OP_CONNECTING;; mret r.

(** [src/wsupp/wsupp_apsel.c: connect_to_something] *)
Definition connect_to_something : W Z :=
  r ← pick_best_bss;
  if r <? 0 then mret r else proceed_with_connect.

(** [src/wsupp/wsupp_apsel.c: snap_to_netdown] *)
Definition snap_to_netdown : W unit :=
  close_rawsock;;
  reset_eapol_state;;
  reset_auth_state;;
  reset_scan_state;;
  clear_timer;;
  clear_all_bss_marks;;
  a ← get w_ap;
  when (success a =? 0) clear_ssid_bssid;;
  a ← get w_ap;
  if negb (slen a =? 0) then set_oper OP_NETDOWN else set_oper OP_STOPPED.

(** [src/wsupp/wsupp_apsel.c: routine_fg_scan] *)
Definition routine_fg_scan_cb : W unit :=
  o ← get w_op;
  if negb (operstate o =? OP_MONITORING) then mret tt
  else
    r ← start_scan 0;
    when (0 <=? r) (set_oper OP_FG_SCAN);;
    set_timer (1 * 60) routine_fg_scan.

(** [src/wsupp/wsupp_apsel.c: routine_bg_scan] *)
Definition routine_bg_scan_cb : W unit :=
  o ← get w_op;
  if negb (operstate o =? OP_CONNECTED) then mret tt
  else
    r ← start_scan 0;
    when (0 <=? r) (set_oper OP_BG_SCAN);;
    set_timer (5 * 60) routine_bg_scan.

(** [src/wsupp/wsupp_apsel.c: searching_scan] *)
Definition searching_scan_cb : W unit :=
  o ← get w_op;
  if negb (operstate o =? OP_SEARCHING) then mret tt
  else
    a ← get w_ap;
    (if 10 <? rescans a then clear_bssid else set_ap (fun a => a <| rescans ::= fun n => n + 1 |>));;
    r ← start_scan 0;
    when (0 <=? r) (set_oper OP_NET_SCAN);;
    set_timer 10 searching_scan.

(** [src/wsupp/wsupp_apsel.c: expected_disconnect] *)
Definition expected_disconnect : W unit :=
  clear_ssid_bssid;; set_timer 5 routine_fg_scan;; set_oper OP_MONITORING.

(** [src/wsupp/wsupp_apsel.c: try_another_bss] *)
Definition try_another_bss : W unit :=
  r ← connect_to_something;
  if 0 <=? r then mret tt
  else
    _ ← force_disconnect;
    send_report no_connect;;
    a ← get w_ap;
    if negb (success a =? 0) then set_timer 10 searching_scan;; set_oper OP_SEARCHING
    else
      clear_ssid_bssid;; set_timer (1 * 60) routine_fg_scan;; set_oper OP_MONITORING.

(** [src/wsupp/wsupp_apsel.c: reconnect_current] *)
Definition reconnect_current : W unit :=
  b ← current_bss_in_scans;
  if negb b then try_another_bss
  else
    r ← proceed_with_connect;
    if r <? 0 then try_another_bss else mret tt.

(** [src/wsupp/wsupp_apsel.c: rescan_current_bss] *)
Definition rescan_current_bss : W unit :=
  set_oper OP_BSS_SCAN;;
  set_ap (fun a => a <| rescans ::= fun n => n + 1 |>);;
  a ← get w_ap;
  r ← start_scan (freq a);
  if 0 <=? r then mret tt
  else set_oper OP_SEARCHING;; set_timer 10 searching_scan.

(** [src/wsupp/wsupp_apsel.c: reassess_situation] *)
Definition reassess_situation : W unit :=
  set_oper OP_NET_SCAN;;
  r ← start_scan 0;
  if r <? 0 then mret tt
  else set_oper OP_SEARCHING;; set_timer 10 searching_scan.

(** [src/wsupp/wsupp_apsel.c: lost_good_connection] *)
Definition lost_good_connection : W unit :=
  clear_timer;; set_ap (fun a => a <| rescans := 0 |>);; rescan_current_bss.

(** [src/wsupp/wsupp_apsel.c: snap_to_monitoring] *)
Definition snap_to_monitoring : W unit :=
  _ ← force_disconnect;
  clear_ssid_bssid;;
  set_timer (1 * 60) routine_fg_scan;;
  set_oper OP_MONITORING.

(** [src/wsupp/wsupp_apsel.c: unexpected_disconnect 262-273] *)
Definition disconnect_next (err : Z) : W unit :=
  if err =? - ENETDOWN then send_report no_connect;; snap_to_netdown
  else if err =? - EINVAL then send_report no_connect;; snap_to_monitoring
  else clear_timer;; try_another_bss.

(** [src/wsupp/wsupp_apsel.c: unexpected_disconnect 247-261] *)
Definition unexpected_disconnect (err : Z) : W unit :=
  o ← get w_op;
  if (operstate o =? OP_CONNECTING) || (operstate o =? OP_EAPOL) then disconnect_next err
  else if (operstate o =? OP_CONNECTED) || (operstate o =? OP_BG_SCAN) then
    if 0 <=? err then lost_good_connection else disconnect_next err
  else mret tt.

(** [src/wsupp/wsupp_apsel.c: try_fast_rescan] *)
Definition try_fast_rescan : W unit :=
  a ← get w_ap;
  if rescans a =? 0 then rescan_current_bss else reassess_situation.

(** [src/wsupp/wsupp_apsel.c: connection_ended] *)
Definition connection_ended (err : Z) : W unit :=
  clear_timer;;
  o ← get w_op;
  err ← (if operstate o =? OP_ABORTING
         then set_oper (abortstate o);; mret (aborterr o) else mret err);
  o ← get w_op;
  if (operstate o =? OP_CONNECTING) && (err =? - ENOENT) then try_fast_rescan
  else
    send_report disconnect;;
    o ← get w_op;
    if operstate o =? OP_DISCONNECTING then expected_disconnect
    else unexpected_disconnect err.

(** [src/wsupp/wsupp_apsel.c: abort_timeout] *)
Definition abort_timeout_cb : W unit := reset_auth_state;; connection_ended (- ETIMEDOUT).

(** [src/wsupp/wsupp_apsel.c: abort_connection] *)
Definition abort_connection (err : Z) : W unit :=
  set_op (fun o => o <| aborterr := err |> <| abortstate := operstate o |>);;
  set_oper OP_WAIT_ABORT;;
  r ← sighup_script;
  if 0 <=? r then set_timer 2 swait_timeout
  else
    set_oper OP_ABORTING;;
    r ← start_disconnect;
    if 0 <=? r then set_timer 1 abort_timeout
    else connection_ended r.

(** [src/wsupp/wsupp_apsel.c: connect_timeout] *)
Definition connect_timeout_cb : W unit := abort_connection (- ETIMEDOUT).

(** [src/wsupp/wsupp_apsel.c: script_exit] *)
Definition script_exit : W unit :=
  o ← get w_op;
  let rest :=
    r ← start_disconnect;
    if 0 <=? r then set_timer 1 abort_timeout else connection_ended (- ESRCH) in
  if operstate o =? OP_WAIT_DISCONN then set_oper OP_DISCONNECTING;; rest
  else if operstate o =? OP_WAIT_ABORT then set_oper OP_ABORTING;; rest
  else mret tt.

(** [src/wsupp/wsupp_apsel.c: swait_timeout] *)
Definition swait_timeout_cb : W unit := force_script;; script_exit.

(** [src/wsupp/wsupp_script.c: check_script] the reply to [Waitpid] is the pid *)
Definition check_script : W unit :=
  r ← syscall Waitpid;
  let pid := s32 (ret r) in
  if pid <=? 0 then mret tt
  else
    o ← get w_op;
    if negb (pid =? running o) then mret tt
    else set_op (fun o => o <| running := 0 |>);; script_exit.

(** [src/wsupp/wsupp_apsel.c: eapol_success] *)
Definition eapol_success : W unit :=
  o ← get w_op;
  if negb (operstate o =? OP_EAPOL) then mret tt
  else
    set_oper OP_CONNECTED;;
    set_ap (fun a => a <| rescans := 0 |> <| success := 1 |>);;
    mark_current_bss_good;;
    set_timer (5 * 60) routine_bg_scan;;
    r ← spawn_script;
    if r <? 0 then abort_connection r else send_report link_ready.

(** [src/wsupp/wsupp_apsel.c: connection_ready] *)
Definition connection_ready : W unit :=
  o ← get w_op;
  if negb (operstate o =? OP_CONNECTING) then mret tt
  else
    set_oper OP_EAPOL;;
    r ← allow_eapol_sends;
    if 0 <=? r then mret tt else abort_connection r.

(** [src/wsupp/wsupp_apsel.c: scan_ended] *)
Definition scan_ended (err : Z) : W unit :=
  send_report (scan_end err);;
  if err =? - ENETDOWN then snap_to_netdown
  else
    o ← get w_op;
    if operstate o =? OP_NET_SCAN then try_another_bss
    else if operstate o =? OP_BSS_SCAN then reconnect_current
    else if operstate o =? OP_FG_SCAN then set_oper OP_MONITORING
    else if operstate o =? OP_BG_SCAN then set_oper OP_CONNECTED
    else mret tt.

(** [src/wsupp/wsupp_apsel.c: can_change_network] *)
Definition can_change_network (st : Z) : bool :=
  (st =? OP_STOPPED) || (st =? OP_NETDOWN) || (st =? OP_MONITORING) || (st =? OP_SEARCHING) ||
  (st =? OP_FG_SCAN) || (st =? OP_NET_SCAN).

(** [src/wsupp/wsupp_apsel.c: need_resume_first] *)
Definition need_resume_first (st : Z) : bool := (st =? OP_STOPPED) || (st =? OP_NETDOWN).

(** [src/wsupp/wsupp_apsel.c: set_network] *)
Definition set_network (name : list Z) (len : Z) (psk : list Z) : W Z :=
  if 32 <? len then mret (- ENAMETOOLONG)
  else
    set_ap (fun _ => zero_ap);;
    s ← pure (aread name 0 len);
    s ← pure (awrite (ssid zero_ap) 0 s);
    set_ap (fun a => a <| ssid := s |> <| slen := len |>);;
    clear_bssid;;
    clear_all_bss_marks;;
    k ← pure (aread psk 0 32);
    set_eap (fun e => e <| PSK := k |>);;
    mret 0.

(** [src/wsupp/wsupp_apsel.c: time_to_scan] *)
Definition time_to_scan : W Z :=
  o ← get w_op;
  if (operstate o =? OP_MONITORING) || (operstate o =? OP_SEARCHING) || (operstate o =? OP_CONNECTED)
  then get_timer else mret (-1).

(** [src/wsupp/wsupp_apsel.c: ap_connect] *)
Definition ap_connect (name : list Z) (len : Z) (psk : list Z) : W Z :=
  o ← get w_op;
  if negb (can_change_network (operstate o)) then mret (- EISCONN)
  else if need_resume_first (operstate o) then mret (- ENONET)
  else
    r ← set_network name len psk;
    if r <? 0 then mret r
    else
      r ← connect_to_something;
      if 0 <=? r then mret r
      else clear_ssid_bssid;; mret r.

(** [src/wsupp/wsupp_apsel.c: ap_disconnect] *)
Definition ap_disconnect : W Z :=
  r ← sigint_script;
  if 0 <=? r then set_oper OP_WAIT_DISCONN;; set_timer 2 swait_timeout;; mret 0
  else
    r ← start_disconnect;
    if 0 <=? r then set_oper OP_DISCONNECTING;; set_timer 1 abort_timeout;; mret 0
    else
      clear_ssid_bssid;;
      reset_auth_state;;
      reset_eapol_state;;
      o ← get w_op;
      if (operstate o =? OP_STOPPED) || (operstate o =? OP_MONITORING) || (operstate o =? OP_FG_SCAN)
      then mret r
      else if operstate o =? OP_NETDOWN then set_oper OP_STOPPED;; mret (- ECANCELED)
      else
        _ ← force_disconnect;
        clear_timer;;
        set_timer 10 routine_fg_scan;;
        set_oper OP_MONITORING;;
        mret (- ECANCELED).

(** [src/wsupp/wsupp_apsel.c: ap_detach] *)
Definition ap_detach : W Z :=
  o ← get w_op;
  if negb (can_change_network (operstate o)) then mret (- EISCONN)
  else
    reset_auth_state;;
    reset_eapol_state;;
    clear_ssid_bssid;;
    reset_scan_state;;
    clear_scan_table;;
    clear_timer;;
    set_oper OP_STOPPED;;
    mret 0.

(** [src/wsupp/wsupp_apsel.c: ap_resume] *)
Definition ap_resume : W Z :=
  o ← get w_op;
  if negb (need_resume_first (operstate o)) then mret (- EALREADY)
  else
    r ← start_scan 0;
    if r <? 0 then mret r
    else
      a ← get w_ap;
      (if negb (success a =? 0) then set_oper OP_NET_SCAN else set_oper OP_MONITORING);;
      mret 0.

(** [src/wsupp/wsupp.c: timer_expired] *)
Definition timer_expired : W unit :=
  cb ← get (fun w => timercall (w_op w));
  set_op (fun o => o <| timersec := 0 |> <| timercall := None |>);;
  match cb with
  | None => mret tt
  | Some connect_timeout => connect_timeout_cb
  | Some routine_fg_scan => routine_fg_scan_cb
  | Some routine_bg_scan => routine_bg_scan_cb
  | Some searching_scan => searching_scan_cb
  | Some abort_timeout => abort_timeout_cb
  | Some swait_timeout => swait_timeout_cb
  end.

(** ** Events of the card (wsupp_nlauth.c, wsupp_nlscan.c) *)

(** [src/wsupp/wsupp_nlauth.c: snap_to_external] *)
Definition snap_to_external : W unit :=
  set_nl (fun n => n <| authstate := AS_EXTERNAL |>);; connection_ended 2.

(** [src/wsupp/wsupp_nlauth.c: nlm_authenticate] *)
Definition nlm_authenticate : W unit :=
  n ← get w_nl;
  if authstate n =? AS_IDLE then mret tt
  else if negb (authstate n =? AS_AUTHENTICATING) then snap_to_external
  else
    _ ← trigger_associaction;
    set_nl (fun n => n <| authstate := AS_ASSOCIATING |>).

(** [src/wsupp/wsupp_nlauth.c: nlm_associate] *)
Definition nlm_associate : W unit :=
  n ← get w_nl;
  if authstate n =? AS_IDLE then mret tt
  else if negb (authstate n =? AS_ASSOCIATING) then snap_to_external
  else set_nl (fun n => n <| authstate := AS_CONNECTING |>).

(** [src/wsupp/wsupp_nlauth.c: nlm_connect] the message is at [msg] in [buf] *)
Definition nlm_connect (buf : list Z) (msg : Z) : W unit :=
  n ← get w_nl;
  if authstate n =? AS_IDLE then mret tt
  else
    when (negb (authstate n =? AS_CONNECTING)) snap_to_external;;
    st ← pure (nl_get_of_len buf msg 72 2);
    status ← pure (match st with None => Some 0 | Some p => get16 buf p end);
    if negb (status =? 0) then connection_ended status
    else
      set_nl (fun n => n <| authstate := AS_CONNECTED |>);;
      connection_ready.

(** [src/wsupp/wsupp_nlauth.c: nlm_disconnect] *)
Definition nlm_disconnect : W unit :=
  n ← get w_nl;
  if authstate n =? AS_IDLE then mret tt
  else
    let ended err := set_nl (fun n => n <| authstate := AS_IDLE |>);; connection_ended err in
    if authstate n =? AS_RETRYING then
      err ← trigger_connection;
      if 0 <=? err then mret tt else ended err
    else ended 0.

(** [src/wsupp/wsupp_nlauth.c: nlm_auth_error] *)
Definition nlm_auth_error (err : Z) : W unit :=
  n ← get w_nl;
  if authstate n =? AS_IDLE then mret tt
  else
    err ← retry_connect err;
    if 0 <=? err then mret tt
    else set_nl (fun n => n <| authstate := AS_IDLE |>);; connection_ended err.

(** [src/wsupp/wsupp_nlscan.c: mark_stale_scan_slots 113-117] is [fq] among the
    frequencies of the nest [a] *)
Fixpoint freq_in (fuel : nat) (buf : list Z) (a : Z) (sb : option Z) (fq : Z) : option bool :=
  match sb with
  | None => Some false
  | Some s =>
      match fuel with
      | O => None
      | S fuel =>
          p ← nl_bin buf (Some s) 4;
          v ← (match p with None => Some None | Some p => v ← get32 buf p; Some (Some (s32 v)) end);
          if decide (v = Some fq) then Some true
          else n ← nl_sub_n buf a s; freq_in fuel buf a n fq
      end
  end.

(** [src/wsupp/wsupp_nlscan.c: mark_stale_scan_slots 110-119] *)
Fixpoint mark_slots (n i : nat) (buf : list Z) (a : Z) (slots : list scan) : option (list scan) :=
  match n with
  | O => Some slots
  | S n =>
      sc ← slots !! i;
      if sc_freq sc =? 0 then mark_slots n (S i) buf a slots
      else
        s0 ← nl_sub_0 buf a;
        b ← freq_in (length buf) buf a s0 (sc_freq sc);
        mark_slots n (S i) buf a
          (if b : bool then <[i := sc <| sc_flags ::= fun f => Z.lor f SF_STALE |>]> slots else slots)
  end.

(** [src/wsupp/wsupp_nlscan.c: mark_stale_scan_slots] *)
Definition mark_stale_scan_slots (buf : list Z) (msg : Z) : W unit :=
  a ← pure (nl_get_nest buf msg 44);
  match a with
  | None => mret tt
  | Some a =>
      t ← get w_tab;
      s ← pure (mark_slots (Z.to_nat (nscans t)) 0 buf a (scans t));
      set_tab (fun t => t <| scans := s |>)
  end.

(** [src/wsupp/wsupp_nlscan.c: reset_ies_data] *)
Definition reset_ies_data : W unit :=
  let mask := Z.lnot (Z.lor (Z.lor SF_SEEN SF_GOOD) SF_TKIP) in
  set_tab (map_slots (fun s => s <| sc_ies := None |> <| sc_ieslen := 0 |>
                                 <| sc_flags ::= fun f => Z.land f mask |>));;
  reset_heap.

(** [src/wsupp/wsupp_nlscan.c: trigger_scan_dump] *)
Definition trigger_scan_dump : W unit :=
  seq ← next_seq;
  n ← get w_nl;
  when (scanreq n =? 0) reset_ies_data;;
  o ← get w_op;
  r ← nl_send 0x300 seq 32 [NInt 3 (ifindex o)];
  if r <? 0 then reset_scan_state
  else set_nl (fun n => n <| scanstate := SS_SCANDUMP |> <| scanseq := u32 seq |>).

(** [src/wsupp/wsupp_nlscan.c: get_i32_or_zero] *)
Definition get_i32_or_zero (buf : list Z) (bss key : Z) : option Z :=
  p ← nl_sub_of_len buf bss key 4;
  match p with None => Some 0 | Some p => v ← get32 buf p; Some (s32 v) end.

(** [src/wsupp/wsupp_nlscan.c: parse_scan_result] *)
Definition parse_scan_result (buf : list Z) (msg : Z) : W unit :=
  bss ← pure (nl_get_nest buf msg 47);
  match bss with
  | None => mret tt
  | Some bss =>
      p ← pure (nl_sub_of_len buf bss 1 6);
      match p with
      | None => mret tt
      | Some p =>
          id ← pure (aread buf p 6);
          i ← grab_scan_slot id;
          match i with
          | None => mret tt
          | Some i =>
              fq ← pure (get_i32_or_zero buf bss 2);
              sg ← pure (get_i32_or_zero buf bss 7);
              set_tab (fun t => t <| scans ::= alter (fun s => s <| sc_bssid := id |>
                <| sc_freq := u16 fq |> <| sc_signal := s16 sg |>
                <| sc_flags ::= fun f => Z.land f (Z.lnot SF_STALE) |>) i |>);;
              ies ← pure (nl_sub buf bss 6);
              match ies with
              | None => mret tt
              | Some ies =>
                  ieslen ← pure (nl_paylen buf ies);
                  data ← pure (aread buf (nl_payload ies) ieslen);
                  t ← get w_tab;
                  sc ← pure (scans t !! i);
                  let store (ies : Z) : W unit :=
                    set_tab (fun t => t <| scans ::= alter (fun s => s <| sc_ies := Some ies |>
                      <| sc_ieslen := u16 ieslen |>) i |>) in
                  match sc_ies sc with
                  | Some old =>
                      if sc_ieslen sc <=? ieslen then
                        h ← pure (awrite (heap t) old data);
                        set_tab (fun t => t <| heap := h |>);; store old
                      else
                        r ← heap_store data ieslen;
                        match r with Some q => store q | None => mret tt end
                  | None =>
                      r ← heap_store data ieslen;
                      match r with Some q => store q | None => mret tt end
                  end
              end
          end
      end
  end.

(** [src/wsupp/wsupp_nlscan.c: nlm_trigger_scan] *)
Definition nlm_trigger_scan (buf : list Z) (msg : Z) : W unit :=
  n ← get w_nl;
  if negb (scanstate n =? SS_SCANNING) then mret tt else mark_stale_scan_slots buf msg.

(** [src/wsupp/wsupp_nlscan.c: nlm_scan_results] *)
Definition nlm_scan_results (buf : list Z) (msg : Z) : W unit :=
  flags ← pure (get16 buf (msg + 6));
  if has flags 2 then parse_scan_result buf msg
  else
    n ← get w_nl;
    if scanstate n =? SS_SCANNING then trigger_scan_dump else mret tt.

(** [src/wsupp/wsupp_nlscan.c: nlm_scan_aborted] *)
Definition nlm_scan_aborted : W unit :=
  n ← get w_nl;
  if negb (scanstate n =? SS_SCANNING) then mret tt
  else reset_scan_state;; scan_ended (- EINTR).

(** [src/wsupp/wsupp_nlscan.c: drop_stale_scan_slots] from slot [i] on; the loop
    looks at the count again each time *)
Fixpoint drop_stale (fuel i : nat) : W unit :=
  match fuel with
  | O => mret tt
  | S fuel =>
      t ← get w_tab;
      if Z.of_nat i <? nscans t then
        sc ← pure (scans t !! i);
        when (has (sc_flags sc) SF_STALE) (free_scan_slot i);;
        drop_stale fuel (S i)
      else mret tt
  end.

(** [src/wsupp/wsupp_nlscan.c: nlm_scan_done] *)
Definition nlm_scan_done : W unit :=
  n ← get w_nl;
  if negb (scanstate n =? SS_SCANDUMP) then mret tt
  else
    reset_scan_state;;
    drop_stale NSCANS 0;;
    maybe_trim_heap;;
    scan_ended 0.

(** [src/wsupp/wsupp_nlscan.c: nlm_scan_error] *)
Definition nlm_scan_error (err : Z) : W unit :=
  if err =? 0 then mret tt else reset_scan_state;; scan_ended err.

(** ** Dispatch of netlink messages (wsupp_netlink.c) *)

(** [src/wsupp/wsupp_netlink.c: genl_done] *)
Definition genl_done (buf : list Z) (msg : Z) : W unit :=
  seq ← pure (get32 buf (msg + 8));
  n ← get w_nl;
  if seq =? scanseq n then nlm_scan_done else mret tt.

(** [src/wsupp/wsupp_netlink.c: genl_error] *)
Definition genl_error (buf : list Z) (msg : Z) : W unit :=
  seq ← pure (get32 buf (msg + 28));
  e ← pure (get32 buf (msg + 16));
  let err := s32 e in
  n ← get w_nl;
  if err =? 0 then mret tt
  else if seq =? scanseq n then nlm_scan_error err
  else if seq =? authseq n then nlm_auth_error err
  else abort_connection err.

(** [src/wsupp/wsupp_netlink.c: dispatch] *)
Definition dispatch (buf : list Z) (msg : Z) : W unit :=
  c ← pure (zget buf (msg + 16));
  if c =? 33 then nlm_trigger_scan buf msg
  else if c =? 34 then nlm_scan_results buf msg
  else if c =? 35 then nlm_scan_aborted
  else if c =? 37 then nlm_authenticate
  else if c =? 38 then nlm_associate
  else if c =? 46 then nlm_connect buf msg
  else if c =? 48 then nlm_disconnect
  else mret tt.

(** [src/wsupp/wsupp_netlink.c: match_ifi] *)
Definition match_ifi (buf : list Z) (msg : Z) : W bool :=
  p ← pure (nl_get_of_len buf msg 3 4);
  match p with
  | None => mret false
  | Some p => v ← pure (get32 buf p); o ← get w_op; mret (s32 v =? ifindex o)
  end.

(** [src/wsupp/wsupp_netlink.c: handle_netlink 196-204] one message *)
Definition handle_message (buf : list Z) (msg : Z) : W unit :=
  t ← pure (msg_type buf msg);
  if t =? 3 then genl_done buf msg
  else
    e ← pure (nl_err buf msg);
    match e with
    | Some err => genl_error buf err
    | None =>
        g ← pure (nl_gen buf msg);
        match g with
        | None => mret tt
        | Some gen => b ← match_ifi buf gen; if b : bool then dispatch buf gen else mret tt
        end
    end.

(** [src/wsupp/wsupp_netlink.c: close_netlink] *)
Definition close_netlink : W unit :=
  n ← get w_nl;
  if netlink n <? 0 then mret tt
  else
    reset_auth_state;;
    reset_scan_state;;
    _ ← syscall (Close (netlink n));
    set_nl (fun n => n <| netlink := -1 |> <| nlseq := 0 |>);;
    set_op (fun o => o <| pollset := 0 |> <| ifindex := 0 |>).

End apsel.
