(* ===== verification/Eapol.v ===== *)
(** * src/wsupp: the EAPOL exchange

    The receiving half of wsupp_eapol.c: checks of the packets of the access
    point, extraction of the group key, the 4-way handshake and group rekeying. *)
From S2P Require Import Prelude Arr Sys Nlusctl Netlink State Sha Aes Wsupp WsLink Apsel.

Section eapol.
Context `{HK : !Kern wcall} `{HL : !Locals}.

(** [src/wsupp/wsupp_eapol.c: iv] *)
Definition iv : list Z := repeat 0xA6 8.

(** [src/wsupp/wsupp_eapol.c: unwrap_key] the key data is at [off] in the packet *)
Definition unwrap_key (kek pk : list Z) (off len : Z) : option (list Z * Z) :=
  if negb (crem len 8 =? 0) || (len <? 16) then Some (pk, -1)
  else
    buf ← aread pk off len;
    '(_, buf) ← Aes.aes128_unwrap kek buf len;
    pk ← awrite pk off buf;
    b ← aread pk off 8;
    Some (pk, memxcmp_l b iv 0).

(** [src/wsupp/wsupp_eapol.c: kde_type_gtk] *)
Definition kde_type_gtk : list Z := [0x00; 0x0F; 0xAC; 0x01].

(** [src/wsupp/wsupp_eapol.c: store_gtk] the new index and key, when it has the
    length expected; [off] is an offset into the packet *)
Definition store_gtk (pk : list Z) (explen idx off len : Z) (gtk : list Z)
    : option (option (Z * list Z)) :=
  if negb (len =? explen) then Some None
  else
    s ← aread pk off 16;
    gtk ← awrite gtk 0 s;
    gtk ← (if explen =? 32 then
             s ← aread pk (off + 24) 8;
             gtk ← awrite gtk 16 s;
             s ← aread pk (off + 16) 8;
             awrite gtk 24 s
           else Some gtk);
    Some (Some (idx, gtk)).

(** [src/wsupp/wsupp_eapol.c: fetch_gtk 296-319] *)
Fixpoint fetch_loop (fuel : nat) (pk : list Z) (ptr e explen : Z) (gtk : list Z)
    : option (option (Z * list Z)) :=
  if ptr + 6 <? e then
    match fuel with
    | O => None
    | S fuel =>
        let kd := ptr in
        kl ← zget pk (kd + 1);
        let ptr := ptr + (2 + kl) in
        if e <? ptr then Some None
        else
          let datalen := kl + 2 - 6 in
          magic ← zget pk kd;
          type ← aread pk (kd + 2) 4;
          if negb (magic =? 0xDD) then fetch_loop fuel pk ptr e explen gtk
          else if negb (memcmp_l type kde_type_gtk =? 0) then fetch_loop fuel pk ptr e explen gtk
          else if datalen <? 2 + 16 then fetch_loop fuel pk ptr e explen gtk
          else
            d ← zget pk (kd + 6);
            let idx := Z.land d 3 in
            if idx =? 0 then Some None
            else store_gtk pk explen idx (kd + 6 + 2) (datalen - 2) gtk
    end
  else Some None.

(** [src/wsupp/wsupp_eapol.c: fetch_gtk] *)
Definition fetch_gtk (pk : list Z) (off len explen : Z) (gtk : list Z) : option (option (Z * list Z)) :=
  fetch_loop (Z.to_nat len) pk off (off + len) explen gtk.

(** [src/wsupp/wsupp_eapol.c: ptype] *)
Definition ptype (pk : list Z) (bits : Z) : option bool :=
  k ← get16 pk ek_keyinfo;
  let keyinfo := htons k in
  let keytype := Z.land keyinfo KI_TYPEMASK in
  let mask := Z.lor (Z.lor (Z.lor (Z.lor KI_PAIRWISE KI_ACK) KI_SECURE) KI_MIC) KI_ENCRYPTED in
  if negb (keytype =? KI_SHA) then Some false
  else if negb (Z.land keyinfo mask =? bits) then Some false
  else Some true.

(** The bits of the packets of the access point. *)
Definition bits_1 : Z := Z.lor KI_PAIRWISE KI_ACK.
Definition bits_3 : Z := Z.lor (Z.lor (Z.lor (Z.lor KI_PAIRWISE KI_ACK) KI_MIC) KI_ENCRYPTED) KI_SECURE.
Definition bits_group : Z := Z.lor (Z.lor (Z.lor KI_SECURE KI_ENCRYPTED) KI_ACK) KI_MIC.

(** [src/wsupp/wsupp_eapol.c: recv_packet_1] *)
Definition recv_packet_1 : W Z :=
  e ← get w_eap;
  let pk := packet e in
  t ← pure (zget pk ek_type);
  if negb (t =? 2) then mret 0
  else
    b ← pure (ptype pk bits_1);
    if negb b then mret 0
    else
      v ← pure (zget pk ek_version);
      n ← pure (aread pk ek_nonce 32);
      r ← pure (aread pk ek_replay 8);
      set_eap (fun e => e <| version := v |> <| anonce := n |> <| replay := r |>);;
      pmk_to_ptk;;
      s ← get (fun w => eapolsends (w_eap w));
      if negb (s =? 0) then send_packet_2
      else set_eap (fun e => e <| eapolstate := ES_WAITING_2_4 |>);; mret 0.

(** The group key of a packet: [unwrap_key], [fetch_gtk], then the sequence
    number and the replay counter are taken over. *)
Definition take_gtk : W bool :=
  e ← get w_eap;
  a ← get w_ap;
  l ← pure (get16 (packet e) ek_paylen);
  let paylen := htons l in
  '(pk, r) ← pure (unwrap_key (KEK e) (packet e) ek_payload paylen);
  set_eap (fun e => e <| packet := pk |>);;
  if negb (r =? 0) then mret false
  else
    g ← pure (fetch_gtk pk (ek_payload + 8) (paylen - 8) (gtklen a) (GTK e));
    match g with
    | None => mret false
    | Some (idx, gtk) =>
        rsc ← pure (aread pk ek_rsc 6);
        rp ← pure (aread pk ek_replay 8);
        set_eap (fun e => e <| gtkindex := idx |> <| GTK := gtk |> <| RSC := rsc |> <| replay := rp |>);;
        mret true
    end.

(** [src/wsupp/wsupp_eapol.c: send_packet_4] *)
Definition send_packet_4 : W Z :=
  e ← get w_eap;
  pk ← pure (put_fields (packet e) (version e)
               (Z.lor (Z.lor (Z.lor KI_SHA KI_PAIRWISE) KI_MIC) KI_SECURE) 0 (replay e) (repeat 0 32));
  let paclen := eksize in
  pk ← pure (put16 pk ek_paylen (htons 0));
  pk ← pure (put16 pk ek_paclen (htons (paclen - 4)));
  pk ← pure (put_mic pk (KCK e) paclen);
  set_eap (fun e => e <| packet := pk |>);;
  r ← send_packet pk paclen;
  if r <? 0 then mret r
  else
    set_eap (fun e => e <| eapolstate := ES_NEGOTIATED |>);;
    r ← upload_ptk;
    if r <? 0 then mret r
    else
      r ← upload_gtk;
      if r <? 0 then mret r
      else cleanup_keys;; eapol_success;; mret 0.

(** [src/wsupp/wsupp_eapol.c: recv_packet_3] *)
Definition recv_packet_3 : W Z :=
  e ← get w_eap;
  let pk := packet e in
  l ← pure (get16 pk ek_paclen);
  let paclen := 4 + htons l in
  b ← pure (ptype pk bits_1);
  if b : bool then mret 0
  else
    b ← pure (ptype pk bits_3);
    if negb b then mret 0
    else
      n ← pure (aread pk ek_nonce 32);
      if negb (memcmp_l (anonce e) n =? 0) then mret (- EBADMSG)
      else
        r ← pure (aread pk ek_replay 8);
        if 0 <=? memcmp_l (replay e) r then mret (- EBADMSG)
        else
          '(pk, r) ← pure (check_mic ek_mic (KCK e) pk paclen);
          set_eap (fun e => e <| packet := pk |>);;
          if negb (r =? 0) then mret (- EBADMSG)
          else
            ok ← take_gtk;
            if negb ok then mret (- ENOKEY) else send_packet_4.

(** [src/wsupp/wsupp_eapol.c: send_group_2] *)
Definition send_group_2 : W Z :=
  e ← get w_eap;
  pk ← pure (put_fields (packet e) (version e) (Z.lor KI_MIC KI_SECURE) 0 (replay e) (repeat 0 32));
  let paclen := eksize in
  pk ← pure (put16 pk ek_paylen (htons 0));
  pk ← pure (put16 pk ek_paclen (htons paclen));
  pk ← pure (put_mic pk (KCK e) paclen);
  set_eap (fun e => e <| packet := pk |>);;
  r ← send_packet pk paclen;
  if r <? 0 then mret r
  else
    r ← upload_gtk;
    if r <? 0 then mret r else mret 0.

(** [src/wsupp/wsupp_eapol.c: recv_group_1] *)
Definition recv_group_1 : W Z :=
  e ← get w_eap;
  let pk := packet e in
  l ← pure (get16 pk ek_paclen);
  let paclen := 4 + htons l in
  t ← pure (zget pk ek_type);
  if negb (t =? 2) then mret 0
  else
    b ← pure (ptype pk bits_group);
    if negb b then mret 0
    else
      r ← pure (aread pk ek_replay 8);
      if 0 <=? memcmp_l (replay e) r then mret 0
      else
        '(pk, r) ← pure (check_mic ek_mic (KCK e) pk paclen);
        set_eap (fun e => e <| packet := pk |>);;
        if negb (r =? 0) then mret 0
        else
          ok ← take_gtk;
          if negb ok then mret (- ENOKEY) else send_group_2.

(** [src/wsupp/wsupp_eapol.c: dispatch] *)
Definition eapol_dispatch : W Z :=
  st ← get (fun w => eapolstate (w_eap w));
  if st =? ES_WAITING_1_4 then recv_packet_1
  else if st =? ES_WAITING_3_4 then recv_packet_3
  else if st =? ES_NEGOTIATED then recv_group_1
  else mret 0.

(** [src/wsupp/wsupp_eapol.c: handle_rawsock] the reply holds the 6 bytes of the
    sender's address and then the packet *)
Definition handle_rawsock : W unit :=
  o ← get w_op;
  r ← syscall (Recvfrom (rawsock o) 1024);
  let rd := s32 (ret r) in
  let sender := take 6 (out r) in
  e ← get w_eap;
  pk ← pure (awrite (packet e) 0 (take 1024 (drop 6 (out r))));
  set_eap (fun e => e <| packet := pk |>);;
  if rd <? 0 then mret tt
  else
    a ← get w_ap;
    if negb (memcmp_l (bssid a) sender =? 0) then mret tt
    else if rd <? eksize then mret tt
    else
      l ← pure (get16 pk ek_paclen);
      p ← pure (get16 pk ek_paylen);
      t ← pure (zget pk ek_pactype);
      if negb (htons l + 4 =? rd) then mret tt
      else if rd <? eksize + htons p then mret tt
      else if negb (t =? 3) then mret tt
      else
        r ← eapol_dispatch;
        if r <? 0 then abort_connection r else mret tt.

End eapol.
