(* ===== verification/Wskeep.v ===== *)
(** * src/wsupp: what the parts of the supplicant leave alone

    The selection of stations, the timers, the script and the netlink messages
    neither install keys nor touch the state of the EAPOL exchange, except
    where they start an exchange ([prime_eapol_state]) or let it send
    ([allow_eapol_sends]).  The lemmas are about an arbitrary relation on
    states and traces, so that one walk through the code serves them all. *)
From S2P Require Import Prelude Arr Sys Nlusctl Netlink State Sha Aes Wsupp WsLink Apsel Eapol.

(** The start of a handshake: a new nonce. *)
Definition is_prime (c : wcall) : bool := match c with Getrandom _ => true | _ => false end.

(** The request that installs a key: NEW_KEY. *)
Definition is_newkey (c : wcall) : bool :=
  match c with NlSend _ _ _ _ cmd _ => cmd =? 11 | _ => false end.

(** A function by its definition, unless lemmas speak about it. *)
Ltac keeps_unfold :=
  let rec go f :=
    lazymatch f with
    | ?g _ => go g
    | @syscall => fail | @modify => fail | @pure => fail
    | @nl_send => fail | @put_command => fail
    | @set_ap => fail | @set_nl => fail | @set_tab => fail | @set_op => fail | @set_eap => fail
    | @prime_eapol_state => fail | @allow_eapol_sends => fail
    | _ => unfold f
    end in
  match goal with |- keepsf _ _ ?m => go m end.

(** The whole of a computation: conditions, calls, and the functions it uses. *)
Ltac keeps_auto := repeat first [keeps_step | keeps_unfold].

Section keeps.
Context `{HK : !Kern wcall} `{HL : !Locals}.

(** A relation that ordinary steps keep. *)
Class Inert (F : Prop) (R : relation (ws * trace wcall)) := {
  inert_pre :: PreOrder R;
  inert_state f : (forall w, eapolstate (w_eap (f w)) = eapolstate (w_eap w)) ->
    keepsf F R (modify f : W unit);
  inert_call c : is_prime c = false -> is_newkey c = false -> keepsf F R (syscall c : W reply) }.

Section inert.
Context {F : Prop} (R : relation (ws * trace wcall)) `{HR : !Inert F R}.

Lemma inert_ap f : keepsf F R (set_ap f).
Proof. by apply inert_state. Qed.
Lemma inert_nl f : keepsf F R (set_nl f).
Proof. by apply inert_state. Qed.
Lemma inert_tab f : keepsf F R (set_tab f).
Proof. by apply inert_state. Qed.
Lemma inert_op f : keepsf F R (set_op f).
Proof. by apply inert_state. Qed.
Lemma inert_eap f : (forall e, eapolstate (f e) = eapolstate e) -> keepsf F R (set_eap f).
Proof. intros H. apply inert_state. intros w. apply H. Qed.
End inert.
End keeps.

#[export] Hint Resolve inert_ap inert_nl inert_tab inert_op inert_pre : keeps.
#[export] Hint Extern 0 (Inert _ _) => (typeclasses eauto) : keeps.
#[export] Hint Extern 0 (PreOrder _) => (typeclasses eauto) : keeps.
#[export] Hint Extern 1 (keepsf _ _ (set_eap _)) => (apply inert_eap; [apply _|reflexivity]) : keeps.
#[export] Hint Extern 1 (keepsf _ _ (syscall _)) => (apply inert_call; reflexivity) : keeps.

Section walk.
Context `{HK : !Kern wcall} `{HL : !Locals}.

Section nlsend.
Context {F : Prop} (R : relation (ws * trace wcall)) `{HR : !Inert F R}.

Lemma nl_send_keeps flags seq cmd attrs : (cmd =? 11) = false -> keepsf F R (nl_send flags seq cmd attrs).
Proof. intros H. unfold nl_send. keeps_steps. by apply inert_call. Qed.

Lemma put_command_keeps cmd attrs : (cmd =? 11) = false -> keepsf F R (put_command cmd attrs).
Proof. intros Hc. unfold put_command. keeps_auto. by apply nl_send_keeps. Qed.

End nlsend.

Lemma drop_stale_keeps R `{HR : !Inert True R} n i : keeps R (drop_stale n i).
Proof. revert i. induction n; intros i; cbn [drop_stale]; keeps_auto. Qed.
End walk.

#[export] Hint Extern 1 (keepsf _ _ (nl_send _ _ _ _)) => (apply nl_send_keeps; [apply _|reflexivity]) : keeps.
#[export] Hint Extern 1 (keepsf _ _ (put_command _ _)) => (apply put_command_keeps; [apply _|reflexivity]) : keeps.
#[export] Hint Resolve drop_stale_keeps : keeps.

Section steady.
Context `{HK : !Kern wcall} `{HL : !Locals}.

(** A relation kept also by the steps that start a handshake. *)
Class Steady (R : relation (ws * trace wcall)) := {
  steady_inert :: Inert True R;
  steady_prime : keeps R prime_eapol_state;
  steady_allow : keeps R allow_eapol_sends }.

Context (R : relation (ws * trace wcall)) `{HR : !Steady R}.
Hint Resolve steady_prime steady_allow : keeps.

Lemma connection_ended_keeps a : keeps R (connection_ended a).
Proof. keeps_auto. Qed.
Hint Resolve connection_ended_keeps : keeps.

Lemma abort_connection_keeps a : keeps R (abort_connection a).
Proof. keeps_auto. Qed.
Hint Resolve abort_connection_keeps : keeps.

Lemma eapol_success_keeps : keeps R eapol_success.
Proof. keeps_auto. Qed.
Lemma check_script_keeps : keeps R check_script.
Proof. keeps_auto. Qed.
Lemma scan_ended_keeps a : keeps R (scan_ended a).
Proof. keeps_auto. Qed.
Hint Resolve scan_ended_keeps : keeps.
Lemma connection_ready_keeps : keeps R connection_ready.
Proof. keeps_auto. Qed.
Hint Resolve connection_ready_keeps : keeps.
Lemma ap_connect_keeps a b c : keeps R (ap_connect a b c).
Proof. keeps_auto. Qed.
Lemma ap_disconnect_keeps : keeps R ap_disconnect.
Proof. keeps_auto. Qed.
Lemma ap_detach_keeps : keeps R ap_detach.
Proof. keeps_auto. Qed.
Lemma ap_resume_keeps : keeps R ap_resume.
Proof. keeps_auto. Qed.
Lemma close_netlink_keeps : keeps R close_netlink.
Proof. keeps_auto. Qed.
Lemma timer_expired_keeps : keeps R timer_expired.
Proof. keeps_auto. Qed.
Lemma handle_message_keeps a b : keeps R (handle_message a b).
Proof. keeps_auto. Qed.
End steady.

#[export] Hint Resolve abort_connection_keeps eapol_success_keeps check_script_keeps ap_connect_keeps
  ap_disconnect_keeps ap_detach_keeps ap_resume_keeps close_netlink_keeps timer_expired_keeps
  handle_message_keeps : keeps.
#[export] Hint Extern 0 (Steady _) => (typeclasses eauto) : keeps.
