(* ===== verification/Handshake.v ===== *)
(** * src/wsupp: packets of the access point

    Memory safety of the EAPOL exchange, what a packet must carry before keys
    are installed, and that the handshake of an access point that follows the
    standard succeeds. *)
From S2P Require Import Prelude Arr Sys Nlusctl Netlink State Sha ShaSpec Md Aes AesSpec Keywrap Wsupp WsLink Apsel Eapol Wskeep.

(** ** Arrays of a known size *)

Definition arr (n : Z) (l : list Z) : Prop := zlen l = n /\ bytes l.

Lemma arr_repeat0 n : 0 <= n -> arr n (repeat 0 (Z.to_nat n)).
Proof. intros. split; [rewrite repeat_length; lia|]. by apply bytes_repeat. Qed.

Lemma arr_aread n l off k :
  arr n l -> 0 <= off -> 0 <= k -> off + k <= n -> yields (aread l off k) (arr k).
Proof.
  intros [Hl Hb] ???. rewrite aread_Some by lia. split.
  - rewrite length_take, length_drop. lia.
  - by apply Forall_take, Forall_drop.
Qed.

Lemma arr_awrite n l off k s :
  arr n l -> arr k s -> 0 <= off -> off + k <= n -> yields (awrite l off s) (arr n).
Proof.
  intros [Hl Hb] [Hs Hsb] ??. rewrite awrite_Some by lia. split.
  - rewrite !length_app, length_take, length_drop. lia.
  - apply Forall_app_2; [by apply Forall_take|]. apply Forall_app_2; [done|by apply Forall_drop].
Qed.

Lemma arr_afill n l off c k :
  arr n l -> 0 <= c < 256 -> 0 <= off -> 0 <= k -> off + k <= n -> yields (afill l off c k) (arr n).
Proof.
  intros Ha ????. unfold afill. zcases. eapply (arr_awrite _ _ _ k); [done| |lia|lia].
  split; [rewrite repeat_length; lia|by apply bytes_repeat].
Qed.

Lemma arr_zput n l i x : arr n l -> 0 <= x < 256 -> 0 <= i < n -> yields (zput l i x) (arr n).
Proof.
  intros [Hl Hb] ??. rewrite zput_Some by lia. split; [by rewrite length_insert|].
  by apply Forall_insert.
Qed.

Lemma arr_put16 n l off v : arr n l -> 0 <= off -> off + 2 <= n -> yields (put16 l off v) (arr n).
Proof.
  intros ???. eapply (arr_awrite _ _ _ 2); [done| |lia|lia].
  split; [by rewrite length_le_bytes|apply bytes_le_bytes].
Qed.

Lemma arr_get16 n l off :
  arr n l -> 0 <= off -> off + 2 <= n -> yields (get16 l off) (fun v => 0 <= v < 2 ^ 16).
Proof.
  intros Ha ??. unfold get16. destruct (yields_inv _ _ (arr_aread n l off 2 Ha ltac:(lia) ltac:(lia) ltac:(lia)))
    as (s & -> & Hs & Hb). simpl. pose proof (le_value_range s Hb). rewrite Hs in *. done.
Qed.

Lemma arr_zget n l i : arr n l -> 0 <= i < n -> yields (zget l i) (fun v => 0 <= v < 256).
Proof.
  intros [Hl Hb] ?. unfold zget. rewrite decide_True by lia.
  destruct (lookup_lt_is_Some_2 l (Z.to_nat i)) as [x Hx]; [lia|]. rewrite Hx. simpl.
  by apply (Forall_lookup_1 _ _ _ _ Hb Hx).
Qed.

(** ** Integrity codes and keys *)

Section keys.
Context `{HL : !Locals}.

(** The integrity code of IEEE 802.11 with key descriptor 2. *)
Definition mic_of (kck msg : list Z) : list Z := take 16 (hmac_sha1_rfc kck msg).

(** PRF-480 of IEEE 802.11, section 11.6.1.2. *)
Definition prf480 (key label data : list Z) : list Z :=
  concat ((fun i => hmac_sha1_rfc key (label ++ [0] ++ data ++ [i])) <$> [0; 1; 2]).

Lemma arr_hmac_sha1 key msg : arr 20 (hmac_sha1_rfc key msg).
Proof.
  unfold hmac_sha1_rfc, md_hmac. split.
  - by rewrite (length_md_hash (HC := sha1_core_spec)).
  - apply bytes_be_words.
Qed.

Lemma hmac_sha1_on out key klen buf len :
  arr klen key -> klen <= 64 -> bytes (take (Z.to_nat len) buf) -> 0 <= len <= zlen buf -> len < 2 ^ 31 -> 20 <= zlen out ->
  hmac_sha1 out key klen buf len = Some (hmac_sha1_rfc key (take (Z.to_nat len) buf) ++ drop 20 out).
Proof.
  intros [Hk Hkb] ?????. unfold hmac_sha1.
  assert (key_len klen = zlen key) as Hkl by (unfold key_len; lia).
  rewrite (hmac_spec (HC := sha1_core_spec)); [|done|done|lia|done|done|simpl; lia].
  rewrite Hkl, Nat2Z.id, take_ge by lia. done.
Qed.

Lemma make_mic_spec kck buf len :
  arr 16 kck -> bytes (take (Z.to_nat len) buf) -> 0 <= len <= zlen buf -> len < 2 ^ 31 ->
  make_mic kck buf len = Some (mic_of kck (take (Z.to_nat len) buf)).
Proof.
  intros. unfold make_mic. rewrite hmac_sha1_on; [|done|lia|done|done|done|by rewrite junk_length].
  rewrite Some_bind. unfold mic_of. pose proof (arr_hmac_sha1 kck (take (Z.to_nat len) buf)) as [Hl _].
  rewrite aread_Some by (rewrite ?length_app; lia). rewrite drop_0, take_app_le by lia. done.
Qed.

Lemma memxcmp_l_zero a b r : length a = length b -> memxcmp_l a b r = 0 <-> a = b /\ r = 0.
Proof.
  revert b r. induction a as [|x a IH]; intros [|y b] r Hl; simpl in *; try lia; [tauto|].
  rewrite IH by lia. rewrite Z.lor_eq_0_iff. split.
  - intros [-> [-> ?]]. split; [f_equal; lia|done].
  - intros [[= -> ->] ->]. split; [done|]. split; [done|lia].
Qed.

(** The packet with the integrity code cleared. *)
Definition blank (pk : list Z) : list Z := take 81 pk ++ repeat 0 16 ++ drop 97 pk.

Lemma arr_blank n pk : arr n pk -> 97 <= n -> arr n (blank pk).
Proof.
  intros [Hl Hb] ?. unfold blank. split.
  - rewrite !length_app, length_take, length_drop, repeat_length. lia.
  - apply Forall_app_2; [by apply Forall_take|]. apply Forall_app_2; [by apply bytes_repeat|].
    by apply Forall_drop.
Qed.

Lemma check_mic_spec kck n pk len :
  arr 16 kck -> arr n pk -> 97 <= n -> 0 <= len <= n -> n < 2 ^ 31 ->
  exists r, check_mic ek_mic kck pk len = Some (blank pk, r) /\
    (r = 0 <-> take 16 (drop 81 pk) = mic_of kck (take (Z.to_nat len) (blank pk))).
Proof.
  intros Hk Ha ???. pose proof Ha as [Hl Hb]. unfold check_mic, ek_mic.
  rewrite aread_Some by lia. rewrite Some_bind. unfold afill.
  change (0 <=? 16) with true. cbv iota.
  rewrite awrite_Some by (rewrite ?repeat_length; lia). rewrite Some_bind.
  change (take (Z.to_nat 81) pk ++ _) with (blank pk).
  destruct (arr_blank n pk Ha) as [Hl' Hb']; [lia|].
  rewrite hmac_sha1_on; [|done|lia|by apply Forall_take|lia|lia|by rewrite junk_length]. rewrite Some_bind.
  pose proof (arr_hmac_sha1 kck (take (Z.to_nat len) (blank pk))) as [Hh _].
  rewrite aread_Some by (rewrite ?length_app; lia). rewrite Some_bind, drop_0, take_app_le by lia.
  eexists. split; [exact eq_refl|]. rewrite memxcmp_l_zero.
  - unfold mic_of. change (Z.to_nat 16) with 16%nat. change (Z.to_nat 81) with 81%nat.
    split; [by intros [<- _]|by intros ->].
  - rewrite !length_take, length_drop. lia.
Qed.

(** Appending a piece of data to what the buffer holds. *)
Definition holds (e : Z) (pre buf : list Z) : Prop := zlen buf = e /\ take (length pre) buf = pre.

Lemma fmtraw_l_spec e pre buf p data len :
  holds e pre buf -> p = zlen pre -> len = zlen data -> 0 < len -> p + len <= e ->
  yields (fmtraw_l buf p e data len) (fun r => holds e (pre ++ data) r.1 /\ r.2 = zlen (pre ++ data)).
Proof.
  intros [He Hp] -> -> Hl Hfit. unfold fmtraw_l. destruct (Z.ltb_spec (e - zlen pre) (zlen data)); [lia|].
  destruct (Z.leb_spec (zlen data) 0); [lia|]. rewrite aread_all by done. rewrite Some_bind.
  rewrite awrite_Some by lia. rewrite Some_bind, Nat2Z.id, Hp.
  split; [split|rewrite length_app; simpl; lia]; cbn [fst snd].
  - rewrite !length_app, length_drop. lia.
  - rewrite app_assoc. apply take_app_length.
Qed.

Lemma prf_loop_spec n i dn rest key ibuf p pre :
  zlen dn = 20 * i -> zlen rest = 20 * Z.of_nat n -> 0 <= i -> i + Z.of_nat n <= 256 ->
  take (length pre) ibuf = pre -> p = zlen pre -> p + 1 <= zlen ibuf -> p + 1 < 2 ^ 31 ->
  bytes pre -> arr 32 key ->
  prf_loop n i (dn ++ rest) key ibuf p (p + 1) =
    Some (dn ++ concat ((fun j => hmac_sha1_rfc key (pre ++ [j])) <$> seqZ i (Z.of_nat n))).
Proof.
  revert i dn rest ibuf. induction n as [|n IH]; intros i dn rest ibuf Hd Hr Hi Hn Hp -> Hf H31 Hb Hk.
  { destruct rest; [|simpl in Hr; lia]. done. }
  cbn [prf_loop]. rewrite zput_Some by lia. rewrite Some_bind, Nat2Z.id.
  assert (take (length (pre ++ [i])) (<[length pre := i]> ibuf) = pre ++ [i]) as Hpi.
  { rewrite length_app. change (length [i]) with 1%nat. rewrite Nat.add_1_r, (take_S_r _ _ i) by (apply list_lookup_insert_eq; lia).
    rewrite take_insert_ge, Hp by lia. done. }
  rewrite aread_Some by (rewrite ?length_app; lia). rewrite Some_bind.
  replace (Z.to_nat (i * 20)) with (length dn) by lia. rewrite drop_app_length, take_ge by (rewrite length_app; lia).
  assert (take (Z.to_nat (zlen pre + 1)) (<[length pre := i]> ibuf) = pre ++ [i]) as Hpi'.
  { rewrite <- Hpi. f_equal. rewrite length_app. simpl. lia. }
  rewrite hmac_sha1_on, Hpi', Some_bind; [|done|lia| |rewrite length_insert; lia|lia|lia].
  2:{ rewrite Hpi'. apply Forall_app_2; [done|]. repeat constructor; lia. }
  destruct (arr_hmac_sha1 key (pre ++ [i])) as [Hh _].
  rewrite awrite_Some by (rewrite ?length_app, ?length_drop; lia). rewrite Some_bind.
  replace (Z.to_nat (i * 20)) with (length dn) by lia. rewrite take_app_length, (drop_ge (dn ++ rest)), app_nil_r by
    (rewrite !length_app, length_drop; lia).
  rewrite app_assoc. rewrite (IH (i + 1) (dn ++ _) (drop 20 rest) _);
    try done; rewrite ?length_app, ?length_drop, ?length_insert; try lia.
  - rewrite (seqZ_cons i) by lia. rewrite fmap_cons. cbn [concat]. rewrite <- app_assoc.
    replace (Z.pred (Z.of_nat (S n))) with (Z.of_nat n) by lia. done.
  - rewrite take_insert_ge by lia. exact Hp.
Qed.

Lemma PRF480_spec out key str mac1 mac2 nonce1 nonce2 :
  zlen out = 60 -> arr 32 key -> bytes str -> 0 < zlen str < 1000 -> arr 6 mac1 -> arr 6 mac2 ->
  arr 32 nonce1 -> arr 32 nonce2 ->
  PRF480 out key str mac1 mac2 nonce1 nonce2 =
    Some (prf480 key str (mac1 ++ mac2 ++ nonce1 ++ nonce2)).
Proof.
  intros Ho Hk Hs Hsl [Hm1 Hm1b] [Hm2 Hm2b] [Hn1 Hn1b] [Hn2 Hn2b].
  unfold PRF480. cbv zeta.
  set (ilen := zlen str + 1 + 2 * 6 + 2 * 32 + 1). set (xlen := ilen + 10). set (b0 := junk (Z.to_nat xlen)).
  assert (xlen = zlen str + 88) as Hx by (unfold xlen, ilen; lia).
  assert (holds xlen [] b0) as H0 by (split; [unfold b0; rewrite junk_length; lia|done]).
  do 5 (match goal with H : holds _ ?pre ?b |- context [fmtraw_l ?b ?p xlen ?d ?n] =>
    destruct (yields_inv _ _ (fmtraw_l_spec xlen pre b p d n H ltac:(rewrite ?length_app; simpl; lia)
      ltac:(rewrite ?length_app; simpl; lia) ltac:(lia) ltac:(rewrite ?length_app; simpl; lia)))
      as ((? & ?) & -> & ? & Hq); rewrite Some_bind; cbn [fst snd] in *; subst; clear H end).
  set (pre := _ ++ nonce2) in *.
  assert (pre = str ++ [0] ++ mac1 ++ mac2 ++ nonce1 ++ nonce2) as Hpre by (unfold pre; by rewrite <- !app_assoc).
  assert (zlen pre = zlen str + 77) as Hpl by (rewrite Hpre, !length_app; simpl; lia).
  assert (bytes pre) as Hpb.
  { rewrite Hpre. repeat apply Forall_app_2; try done. by repeat constructor. }
  match goal with H : holds _ pre _ |- _ => destruct H as [Hl Hp] end.
  replace ilen with (zlen pre + 1) by (unfold ilen; lia).
  rewrite (prf_loop_spec 3 0 [] out key _ _ pre); try done; try lia.
  rewrite app_nil_l. unfold prf480. do 2 f_equal. rewrite Hpre. change (seqZ 0 (Z.of_nat 3)) with [0; 1; 2].
  cbn [fmap list_fmap]. by rewrite <- !app_assoc.
Qed.

Lemma arr_prf480 key label data : arr 60 (prf480 key label data).
Proof.
  unfold prf480. cbn [fmap list_fmap concat].
  pose proof (arr_hmac_sha1 key (label ++ [0] ++ data ++ [0])) as [H0 H0b].
  pose proof (arr_hmac_sha1 key (label ++ [0] ++ data ++ [1])) as [H1 H1b].
  pose proof (arr_hmac_sha1 key (label ++ [0] ++ data ++ [2])) as [H2 H2b].
  split; [rewrite !length_app; cbn [length]; lia|].
  repeat (apply Forall_app_2; [done|]). constructor.
Qed.
End keys.

(** ** States of the supplicant *)

Record eap_wf (e : eapol) : Prop := {
  wf_version : 0 <= version e < 256;
  wf_amac : arr 6 (amac e); wf_smac : arr 6 (smac e);
  wf_anonce : arr 32 (anonce e); wf_snonce : arr 32 (snonce e); wf_replay : arr 8 (replay e);
  wf_PSK : arr 32 (PSK e); wf_KCK : arr 16 (KCK e); wf_KEK : arr 16 (KEK e); wf_PTK : arr 16 (PTK e);
  wf_GTK : arr 32 (GTK e); wf_RSC : arr 6 (RSC e); wf_packet : arr 1024 (packet e) }.

(** The packet has room for the information elements, [GTK] for the key. *)
Record ws_wf (w : ws) : Prop := {
  wf_eap : eap_wf (w_eap w);
  wf_bssid : arr 6 (bssid (w_ap w)); wf_ifaddr : arr 6 (ifaddr (w_op w));
  wf_txies : arr (iesize (w_ap w)) (default [] (txies (w_ap w)));
  wf_iesize : iesize (w_ap w) <= 1024 - eksize;
  wf_gtklen : 0 <= gtklen (w_ap w) <= 32 }.

(** ** Memory safety *)

Ltac open_wf Hw :=
  let WVersion := fresh "WVersion" in let WAmac := fresh "WAmac" in let WSmac := fresh "WSmac" in
  let WAnonce := fresh "WAnonce" in let WSnonce := fresh "WSnonce" in let WReplay := fresh "WReplay" in
  let WPSK := fresh "WPSK" in let WKCK := fresh "WKCK" in let WKEK := fresh "WKEK" in
  let WPTK := fresh "WPTK" in let WGTK := fresh "WGTK" in let WRSC := fresh "WRSC" in
  let WPacket := fresh "WPacket" in let WBssid := fresh "WBssid" in let WIfaddr := fresh "WIfaddr" in
  let WTxies := fresh "WTxies" in let WIesize := fresh "WIesize" in let WGtklen := fresh "WGtklen" in
  destruct Hw as [[WVersion WAmac WSmac WAnonce WSnonce WReplay WPSK WKCK WKEK WPTK WGTK WRSC WPacket]
    WBssid WIfaddr WTxies WIesize WGtklen].

(** The invariant of a changed state: each field is a known one. *)
Ltac close_wf := solve [split; [split|..]; solve [eassumption | cbn; assumption]].

(** The side conditions of the array lemmas. *)
Ltac arr_side :=
  first [eassumption | lia | cbn; lia | unfold ek_version, ek_pactype, ek_paclen, ek_type, ek_keyinfo, ek_keylen, ek_replay,
    ek_nonce, ek_iv, ek_rsc, ek_reserved, ek_mic, ek_paylen, ek_payload, eksize; lia].

Lemma arr_put_fields pk v ki kl rp nonce :
  arr 1024 pk -> 0 <= v < 256 -> arr 8 rp -> arr 32 nonce ->
  yields (put_fields pk v ki kl rp nonce) (arr 1024).
Proof.
  intros. unfold put_fields.
  do 3 (eapply yields_bind; [eapply arr_zput; arr_side|intros ? ?]).
  do 2 (eapply yields_bind; [eapply arr_put16; arr_side|intros ? ?]).
  do 2 (eapply yields_bind; [eapply arr_awrite; arr_side|intros ? ?]).
  do 3 (eapply yields_bind; [eapply arr_afill; arr_side|intros ? ?]).
  eapply arr_afill; arr_side.
Qed.

Section safe.
Context `{HK : !Kern wcall} `{HL : !Locals}.

Lemma arr_put_mic pk kck len :
  arr 1024 pk -> arr 16 kck -> 0 <= len <= 1024 -> yields (put_mic pk kck len) (arr 1024).
Proof.
  intros [Hl Hb] Hk ?. unfold put_mic. rewrite make_mic_spec; [|done|by apply Forall_take|lia|lia].
  rewrite Some_bind. eapply (arr_awrite _ _ _ 16); [done| |unfold ek_mic; lia..].
  destruct (arr_hmac_sha1 kck (take (Z.to_nat len) pk)) as [Hh Hhb]. unfold mic_of.
  split; [rewrite length_take; lia|by apply Forall_take].
Qed.

(** The kernel stores bytes, as many as it says after the address of the sender,
    and not more of them than there is room for. *)
Record rx_ok : Prop := {
  rx_bytes t fd n : bytes (out (kern t (Recvfrom fd n)));
  rx_size t fd n : 0 <= n -> s32 (ret (kern t (Recvfrom fd n))) <= n;
  rx_length t fd n : let r := kern t (Recvfrom fd n) in 0 <= s32 (ret r) -> zlen (out r) = 6 + s32 (ret r) }.

Context {F : Prop}.

Lemma send_packet_wp b n w t Q :
  arr 1024 b -> 0 <= n <= 1024 -> (forall r t, Q r w t) -> wpf F (send_packet b n) w t Q.
Proof.
  intros ?? HQ. unfold send_packet. wp_step. eapply wp_yields; [eapply arr_aread; arr_side|].
  intros ? _. wp_steps; apply HQ.
Qed.

Lemma send_packet_2_wp w t :
  ws_wf w -> wpf F send_packet_2 w t (fun _ w' _ => ws_wf w').
Proof.
  intros Hw. open_wf Hw. unfold send_packet_2, eksize in *. wp_steps.
  assert (0 <= iesize (w_ap w)) by (destruct WTxies; lia).
  eapply wp_yields; [apply arr_put_fields; arr_side|]. intros pk1 ?. wp_step.
  eapply wp_yields; [eapply arr_put16; arr_side|]. intros pk2 ?. wp_step.
  eapply wp_yields; [eapply arr_put16; arr_side|]. intros pk3 ?. wp_step.
  eapply wp_yields; [eapply arr_aread; arr_side|]. intros ies ?. wp_step.
  eapply wp_yields; [eapply arr_awrite; arr_side|]. intros pk4 ?. wp_step.
  eapply wp_yields; [apply arr_put_mic; arr_side|]. intros pk5 ?. wp_step. unfold set_eap. wp_steps.
  apply send_packet_wp; [done|lia|]. intros r t'. wp_steps; close_wf.
Qed.


Lemma pmk_to_ptk_wp w t : ws_wf w -> wpf F pmk_to_ptk w t (fun _ w' _ => ws_wf w').
Proof.
  intros Hw. open_wf Hw. unfold pmk_to_ptk, set_eap. wp_steps. cbn [w_eap w_ap w_op upd].
  assert (bytes astr) by (by repeat constructor).
  destruct (memcmp_l _ _ <? 0), (memcmp_l _ _ <? 0); cbn.
  all: rewrite PRF480_spec; try assumption; [|by rewrite junk_length|done].
  all: wp_step; eapply wp_pure_Some; [exact eq_refl|]; wp_step.
  all: pose proof (arr_prf480 (PSK (w_eap w)) astr) as Hp.
  all: do 3 (eapply wp_yields; [eapply arr_aread; [apply Hp|lia..]|]; intros ? ?; wp_step).
  all: close_wf.
Qed.

(** The parser of the key data stays inside of it. *)
Lemma store_gtk_yields pk explen idx off len gtk :
  arr 1024 pk -> arr 32 gtk -> 0 <= off -> 16 <= len -> off + len <= 1024 ->
  yields (store_gtk pk explen idx off len gtk)
    (fun r => match r with Some (i, gtk) => i = idx /\ arr 32 gtk | None => True end).
Proof.
  intros. unfold store_gtk. apply yields_if; intros Hl; [done|]. apply negb_false_iff, Z.eqb_eq in Hl.
  eapply yields_bind; [eapply arr_aread; arr_side|]. intros s1 ?.
  eapply yields_bind; [eapply arr_awrite; arr_side|]. intros g1 ?.
  eapply (yields_bind _ _ (arr 32)); [|intros g2 ?; done].
  apply yields_if; intros He; [zbool|done].
  eapply yields_bind; [eapply arr_aread; arr_side|]. intros s2 ?.
  eapply yields_bind; [eapply arr_awrite; arr_side|]. intros g2 ?.
  eapply yields_bind; [eapply arr_aread; arr_side|]. intros s3 ?.
  eapply arr_awrite; arr_side.
Qed.

Lemma fetch_loop_yields fuel pk ptr e explen gtk :
  arr 1024 pk -> arr 32 gtk -> 0 <= ptr -> e <= 1024 -> e - ptr <= Z.of_nat fuel ->
  yields (fetch_loop fuel pk ptr e explen gtk)
    (fun r => match r with Some (i, gtk) => 1 <= i <= 3 /\ arr 32 gtk | None => True end).
Proof.
  revert ptr. induction fuel as [|fuel IH]; intros ptr Hpk Hg Hp He Hf; cbn [fetch_loop];
    destruct (Z.ltb_spec (ptr + 6) e); [lia|done| |done].
  eapply yields_bind; [eapply arr_zget; arr_side|]. intros kl ?. cbv beta zeta in *.
  apply yields_if; intros Hend; [done|]. zbool.
  eapply yields_bind; [eapply arr_zget; arr_side|]. intros magic ?.
  eapply yields_bind; [eapply arr_aread; arr_side|]. intros type ?.
  do 3 (apply yields_if; intros ?; [apply IH; try done; lia|]). zbool.
  eapply yields_bind; [eapply arr_zget; arr_side|]. intros d ?.
  apply yields_if; intros Hi; [done|]. zbool.
  eapply yields_mono; [eapply store_gtk_yields; try done; lia|].
  intros [[i g]|] Hr; [|done]. destruct Hr as [-> ?]. split; [|done].
  pose proof (Z.land_ones d 2 ltac:(lia)) as Hd. change (Z.ones 2) with 3 in Hd. rewrite Hd in *.
  pose proof (Z.mod_pos_bound d (2 ^ 2)). lia.
Qed.

Lemma unwrap_key_yields kek pk off len :
  arr 16 kek -> arr 1024 pk -> 0 <= off -> 0 <= len -> off + len <= 1024 ->
  yields (unwrap_key kek pk off len) (fun r => arr 1024 r.1 /\ (r.2 = 0 -> 16 <= len)).
Proof.
  intros [Hk Hkb] Ha ???. unfold unwrap_key. apply yields_if; [done|]. intros Hl%orb_false_iff.
  destruct Hl as [Hl1 Hl2]. apply negb_false_iff, Z.eqb_eq in Hl1. zbool.
  eapply yields_bind; [eapply arr_aread; arr_side|]. intros buf [Hb Hbb].
  destruct (aes128_unwrap_spec kek buf len) as (-> & Hs & Hn);
    [by split; [lia|]|done|lia|lia|]. rewrite Some_bind.
  set (buf' := layout _ _). destruct (layout_bytes _ (kw_rest buf len) Hs) as [Hb' Hl'].
  { by apply Forall_drop. }
  destruct (kw_count buf len ltac:(lia) ltac:(lia)) as (_ & Hc & _).
  assert (arr len buf').
  { split; [|done]. unfold buf'. rewrite Hl', Hn. unfold kw_rest. rewrite length_drop. lia. }
  eapply yields_bind; [eapply arr_awrite; arr_side|]. intros pk' ?.
  eapply yields_bind; [eapply (arr_aread 1024); arr_side|]. intros b _. split; [done|]. simpl. lia.
Qed.

(** The length of the data that follows the header, checked by [handle_rawsock]. *)
Definition paylen_ok (pk : list Z) : Prop :=
  exists l, get16 pk ek_paylen = Some l /\ 0 <= htons l /\ eksize + htons l <= 1024.

Lemma take_gtk_wp w t :
  ws_wf w -> paylen_ok (packet (w_eap w)) -> wpf F take_gtk w t (fun _ w' _ => ws_wf w').
Proof.
  intros Hw (l & Hl & Hl0 & Hl1). open_wf Hw. unfold take_gtk, eksize in *. wp_steps. rewrite Hl.
  eapply wp_pure_Some; [exact eq_refl|]. wp_step.
  eapply wp_yields; [eapply unwrap_key_yields; arr_side|]. intros [pk r] [Ha Hr]. cbn [fst snd] in *.
  unfold set_eap. wp_steps; [close_wf|]. zbool.
  match goal with H : negb _ = false |- _ => apply negb_false_iff, Z.eqb_eq in H; specialize (Hr H) end.
  eapply wp_yields; [apply fetch_loop_yields; try done; arr_side|].
  intros [[i g]|] Hg; wp_steps; [|close_wf]. destruct Hg as [_ Hg].
  eapply wp_yields; [eapply arr_aread; arr_side|]. intros rsc ?. wp_steps.
  eapply wp_yields; [eapply arr_aread; arr_side|]. intros rp ?. wp_steps. close_wf.
Qed.

(** What happens to a connection that is given up is not part of this proof. *)
Context (A : unit -> ws -> trace wcall -> Prop).
Context (Habort : forall err w t, ws_wf w -> wpf F (abort_connection err) w t A).

Lemma eapol_success_wp w t :
  ws_wf w -> wpf F eapol_success w t (fun u w' t' => ws_wf w' \/ A u w' t').
Proof.
  intros Hw. pose proof Hw as Hw'. open_wf Hw. unfold eapol_success, set_oper, set_op, set_ap.
  wp_steps; [by left|]. unfold mark_current_bss_good, set_tab. wp_steps.
  destruct (find_current_bss _); wp_steps; unfold set_timer, set_op, spawn_script, set_op; wp_steps.
  all: unfold set_op; wp_steps.
  all: first [eapply wp_mono; [apply Habort; close_wf|by right]
    | unfold send_report; wp_steps; left; close_wf].
Qed.

Lemma upload_wp w t :
  ws_wf w -> wpf F upload_ptk w t (fun _ w' _ => ws_wf w') /\ wpf F upload_gtk w t (fun _ w' _ => ws_wf w').
Proof.
  intros Hw. open_wf Hw. unfold upload_ptk, upload_gtk, nl_send, next_seq, set_nl.
  split; wp_steps; try close_wf. eapply wp_yields; [eapply arr_aread; arr_side|].
  intros gtk _. wp_steps; close_wf.
Qed.

(** The packet that acknowledges the key: the connection may be given up after
    it, only when it was accepted. *)
Lemma send_packet_4_wp w t :
  ws_wf w -> wpf F send_packet_4 w t (fun r w' t' => ws_wf w' \/ r = 0 /\ A tt w' t').
Proof.
  intros Hw. pose proof Hw as Hw'. open_wf Hw. unfold send_packet_4, set_eap. wp_steps.
  assert (arr 32 (repeat 0 32)) by (by apply (arr_repeat0 32)).
  eapply wp_yields; [apply arr_put_fields; arr_side|]. intros pk1 ?. wp_step.
  do 2 (eapply wp_yields; [eapply arr_put16; arr_side|]; intros ? ?; wp_step).
  eapply wp_yields; [apply arr_put_mic; arr_side|]. intros pk2 ?. wp_steps.
  apply send_packet_wp; [done|unfold eksize; lia|]. intros r t'. wp_steps; [left; close_wf|].
  eapply wp_mono; [apply upload_wp; close_wf|]. cbv beta. intros r1 w1 t1 Hw1. wp_steps; [by left|].
  eapply wp_mono; [by apply upload_wp|]. cbv beta. intros r2 w2 t2 Hw2. wp_steps; [by left|].
  unfold cleanup_keys, set_eap. wp_steps. open_wf Hw2. eapply wp_mono.
  - apply eapol_success_wp. pose proof (arr_repeat0 1024). pose proof (arr_repeat0 32). pose proof (arr_repeat0 16).
    split; [split|..]; cbn; try assumption; try (by apply (arr_repeat0 1024));
    try (by apply (arr_repeat0 32)); try (by apply (arr_repeat0 16)).
  - cbv beta. intros [] w3 t3 [?|?]; wp_steps; auto.
Qed.

Lemma check_mic_yields kck pk len :
  arr 16 kck -> arr 1024 pk -> 0 <= len <= 1024 ->
  yields (check_mic ek_mic kck pk len) (fun r => r.1 = blank pk /\ arr 1024 r.1).
Proof.
  intros. destruct (check_mic_spec kck 1024 pk len) as (r & -> & _); try done; try lia.
  split; [done|]. by apply arr_blank.
Qed.

Lemma ptype_yields pk bits : arr 1024 pk -> yields (ptype pk bits) (fun _ => True).
Proof.
  intros. unfold ptype. eapply yields_bind; [eapply arr_get16; arr_side|]. intros k _.
  by repeat (apply yields_if; intros ?).
Qed.

(** The lengths that [handle_rawsock] has checked. *)
Definition lengths_ok (pk : list Z) : Prop :=
  paylen_ok pk /\ exists l, get16 pk ek_paclen = Some l /\ 4 + htons l <= 1024.

Lemma blank_after pk off k : 97 <= zlen pk -> 97 <= off -> aread (blank pk) off k = aread pk off k.
Proof.
  intros Hl Ho. assert (length (blank pk) = length pk) as Hb.
  { unfold blank. rewrite !length_app, length_take, length_drop, repeat_length. lia. }
  unfold aread. rewrite Hb. destruct (_ && _); [|done]. do 2 f_equal. unfold blank. rewrite app_assoc.
  assert (length (take 81 pk ++ repeat 0 16) = 97%nat) as H97.
  { rewrite length_app, length_take, repeat_length. lia. }
  rewrite drop_app_ge by lia. rewrite H97, drop_drop. f_equal. lia.
Qed.

Lemma paylen_blank pk : arr 1024 pk -> paylen_ok pk -> paylen_ok (blank pk).
Proof.
  intros [Hl _] (l & Hg & ?). exists l. split; [|done]. rewrite <- Hg. unfold get16. f_equal.
  apply blank_after; arr_side.
Qed.

Lemma recv_packet_1_wp w t : ws_wf w -> wpf F recv_packet_1 w t (fun _ w' _ => ws_wf w').
Proof.
  intros Hw. pose proof Hw as Hw'. open_wf Hw. unfold recv_packet_1, set_eap. wp_steps.
  eapply wp_yields; [eapply arr_zget; arr_side|]. intros ty _. wp_steps; [done|].
  eapply wp_yields; [by apply ptype_yields|]. intros b _. wp_steps; [done|].
  eapply wp_yields; [eapply arr_zget; arr_side|]. intros v ?. wp_step.
  do 2 (eapply wp_yields; [eapply arr_aread; arr_side|]; intros ? ?; wp_step). wp_steps.
  eapply wp_mono; [apply pmk_to_ptk_wp; close_wf|]. cbv beta. intros _ w1 t1 Hw1. wp_steps.
  - by apply send_packet_2_wp.
  - open_wf Hw1. close_wf.
Qed.

Lemma recv_packet_3_wp w t :
  ws_wf w -> lengths_ok (packet (w_eap w)) ->
  wpf F recv_packet_3 w t (fun r w' t' => ws_wf w' \/ r = 0 /\ A tt w' t').
Proof.
  intros Hw [Hp (l & Hl & Hl1)]. pose proof Hw as Hw'. open_wf Hw. unfold recv_packet_3, set_eap. wp_steps.
  rewrite Hl. eapply wp_pure_Some; [exact eq_refl|]. wp_step. pose proof (htons_range l).
  do 2 (eapply wp_yields; [by apply ptype_yields|]; intros ? _; wp_steps; [by left|]).
  eapply wp_yields; [eapply arr_aread; arr_side|]. intros n ?. wp_steps; [by left|].
  eapply wp_yields; [eapply arr_aread; arr_side|]. intros rp ?. wp_steps; [by left|].
  eapply wp_yields; [apply check_mic_yields; arr_side|]. intros [pk r] [Hpk ?]. cbn [fst] in *. subst pk.
  wp_steps; [left; close_wf|]. eapply wp_mono; [apply take_gtk_wp; [close_wf|by apply paylen_blank]|].
  cbv beta. intros ok w1 t1 Hw1. wp_steps; [by left|]. by apply send_packet_4_wp.
Qed.

Lemma recv_group_1_wp w t :
  ws_wf w -> lengths_ok (packet (w_eap w)) -> wpf F recv_group_1 w t (fun _ w' _ => ws_wf w').
Proof.
  intros Hw [Hp (l & Hl & Hl1)]. pose proof Hw as Hw'. open_wf Hw. unfold recv_group_1, set_eap. wp_steps.
  rewrite Hl. eapply wp_pure_Some; [exact eq_refl|]. wp_step. pose proof (htons_range l).
  eapply wp_yields; [eapply arr_zget; arr_side|]. intros ty _. wp_steps; [done|].
  eapply wp_yields; [by apply ptype_yields|]. intros ? _; wp_steps; [done|].
  eapply wp_yields; [eapply arr_aread; arr_side|]. intros rp ?. wp_steps; [done|].
  eapply wp_yields; [apply check_mic_yields; arr_side|]. intros [pk r] [Hpk ?]. cbn [fst] in *. subst pk.
  wp_steps; [close_wf|]. eapply wp_mono; [apply take_gtk_wp; [close_wf|by apply paylen_blank]|].
  cbv beta. intros ok w1 t1 Hw1. wp_steps; [done|]. clear -Hw1. open_wf Hw1. unfold send_group_2, set_eap. wp_steps.
  assert (arr 32 (repeat 0 32)) by (by apply (arr_repeat0 32)).
  eapply wp_yields; [apply arr_put_fields; arr_side|]. intros pk1 ?. wp_step.
  do 2 (eapply wp_yields; [eapply arr_put16; arr_side|]; intros ? ?; wp_step).
  eapply wp_yields; [apply arr_put_mic; arr_side|]. intros pk2 ?. wp_steps.
  apply send_packet_wp; [done|unfold eksize; lia|]. intros r t'. wp_steps; [close_wf|].
  eapply wp_mono; [apply upload_wp; close_wf|]. cbv beta. intros r1 w2 t2 Hw2. by wp_steps.
Qed.

Lemma eapol_dispatch_wp w t :
  ws_wf w -> lengths_ok (packet (w_eap w)) ->
  wpf F eapol_dispatch w t (fun r w' t' => ws_wf w' \/ r = 0 /\ A tt w' t').
Proof.
  intros Hw Hl. unfold eapol_dispatch. wp_steps; [| | |by left].
  - eapply wp_mono; [by apply recv_packet_1_wp|]. by left.
  - by apply recv_packet_3_wp.
  - eapply wp_mono; [by apply recv_group_1_wp|]. by left.
Qed.

Context (Hrx : rx_ok).

Lemma handle_rawsock_wp w t :
  ws_wf w -> wpf F handle_rawsock w t (fun u w' t' => ws_wf w' \/ A u w' t').
Proof.
  intros Hw. open_wf Hw. unfold handle_rawsock, set_eap. wp_steps.
  match goal with |- context [kern ?t (Recvfrom ?fd 1024)] =>
    pose proof (rx_bytes Hrx t fd 1024) as Hb; pose proof (rx_size Hrx t fd 1024 ltac:(done)) as Hs;
    generalize dependent (kern t (Recvfrom fd 1024)) end.
  intros r Hb Hs.
  eapply wp_yields; [eapply (arr_awrite _ _ _ (zlen (take 1024 (drop 6 (out r))))); [eassumption| |lia|]|].
  { split; [done|]. by apply Forall_take, Forall_drop. }
  { rewrite length_take. lia. }
  intros pk Hpk. wp_steps; try (left; close_wf).
  destruct (yields_inv _ _ (arr_get16 1024 pk ek_paclen Hpk ltac:(arr_side) ltac:(arr_side))) as (l & Hl & _).
  destruct (yields_inv _ _ (arr_get16 1024 pk ek_paylen Hpk ltac:(arr_side) ltac:(arr_side))) as (p & Hp & _).
  rewrite Hl. eapply wp_pure_Some; [exact eq_refl|]. wp_step.
  rewrite Hp. eapply wp_pure_Some; [exact eq_refl|]. wp_step.
  eapply wp_yields; [eapply arr_zget; arr_side|]. intros ty _. wp_steps; try (left; close_wf).
  repeat match goal with H : negb _ = false |- _ => apply negb_false_iff in H end. zbool.
  pose proof (htons_range l). pose proof (htons_range p).
  eapply wp_mono; [apply eapol_dispatch_wp; [close_wf|]|].
  - split; [exists p; split; [exact Hp|lia]|exists l; split; [exact Hl|lia]].
  - cbv beta. intros x w1 t1 [Hw1|[-> HA]]; wp_steps; auto; [|done].
    eapply wp_mono; [by apply Habort|]. intros [] w2 t2 ?. by right.
Qed.
End safe.


(** ** Authentic packets *)

Section auth.
Context `{HK : !Kern wcall} `{HL : !Locals}.

(** [n] bytes of a message from [off] on. *)
Definition field (off n : nat) (msg : list Z) : list Z := take n (drop off msg).

(** The integrity code of the message is the right one for the key. *)
Definition authentic (kck msg : list Z) : Prop := field 81 16 msg = mic_of kck (blank msg).

(** What the exchange demands of a message that brings keys. *)
Definition accepted (e : eapol) (msg : list Z) : Prop :=
  authentic (KCK e) msg /\ be_value (replay e) < be_value (field 9 8 msg) /\
  (eapolstate e = ES_WAITING_3_4 /\ field 17 32 msg = anonce e \/ eapolstate e = ES_NEGOTIATED).

Lemma be_value_cons x l : be_value (x :: l) = x * 256 ^ zlen l + be_value l.
Proof.
  assert (forall l, le_value (l ++ [x]) = x * 256 ^ zlen l + le_value l) as Ha.
  { clear. induction l as [|y l IH]; cbn [app le_value foldr length].
    - change (256 ^ Z.of_nat 0) with 1. lia.
    - fold (le_value (l ++ [x])) (le_value l). rewrite IH, Nat2Z.inj_succ, Z.pow_succ_r by lia. lia. }
  unfold be_value. rewrite reverse_cons, Ha, length_reverse. done.
Qed.

Lemma be_value_range l : bytes l -> 0 <= be_value l < 256 ^ zlen l.
Proof.
  intros Hb. unfold be_value. pose proof (le_value_range (reverse l)) as H. rewrite length_reverse in H.
  apply H. by apply Forall_reverse.
Qed.

(** [memcmp] compares numbers of the same length. *)
Lemma memcmp_l_num a b : length a = length b -> bytes a -> bytes b ->
  (memcmp_l a b < 0 -> be_value a < be_value b) /\ (memcmp_l a b = 0 -> a = b).
Proof.
  revert b. induction a as [|x a IH]; intros [|y b] Hl Ha Hb; try done.
  inversion Ha; inversion Hb; subst. cbn [memcmp_l]. destruct (IH b) as [IH1 IH2]; [simpl in Hl; lia|done|done|].
  assert (length a = length b) as Hab by (simpl in Hl; lia).
  pose proof (be_value_range a ltac:(done)). pose proof (be_value_range b ltac:(done)). rewrite Hab in *.
  destruct (Z.eqb_spec (x - y) 0).
  - split; intros Hm; [rewrite !be_value_cons, Hab; specialize (IH1 Hm); nia|]. f_equal; [lia|auto].
  - split; intros Hm; [rewrite !be_value_cons, Hab; nia|lia].
Qed.

Lemma blank_take pk n : (97 <= n)%nat -> (n <= length pk)%nat -> blank (take n pk) = take n (blank pk).
Proof.
  intros. unfold blank. rewrite take_take, Nat.min_l, skipn_firstn_comm by lia.
  assert (length (take 81 pk ++ repeat 0 16) = 97%nat) as H97.
  { rewrite length_app, length_take, repeat_length. lia. }
  rewrite (app_assoc _ _ (drop 97 pk)), take_app_ge, H97, <- app_assoc by lia. done.
Qed.

Lemma field_take off k n (pk : list Z) : (off + k <= n)%nat -> field off k (take n pk) = field off k pk.
Proof. intros. unfold field. rewrite skipn_firstn_comm, take_take, Nat.min_l by lia. done. Qed.

Lemma aread_field pk off n s : aread pk off n = Some s -> field (Z.to_nat off) (Z.to_nat n) pk = s.
Proof. apply aread_Some_inv. Qed.

(** The requests that install keys. *)
Definition newkeys (t : trace wcall) : list wcall := filter is_newkey t.*1.

(** Steps that install none. *)
Definition nokey : relation (ws * trace wcall) := fun a b => newkeys b.2 = newkeys a.2.
#[local] Instance nokey_preorder : PreOrder nokey.
Proof. split; [done|]. unfold nokey. intros a b c H1 H2. congruence. Qed.

Lemma nokey_modify f : keeps nokey (modify f : W unit).
Proof. by apply keeps_modify. Qed.
Lemma nokey_call c : is_newkey c = false -> keeps nokey (syscall c : W reply).
Proof.
  intros Hc. apply keeps_syscall. intros s t r. unfold nokey, newkeys. cbn [snd].
  rewrite fmap_app, filter_app. simpl. rewrite filter_cons_False, filter_nil, app_nil_r; [done|].
  cbn. intros H. by rewrite Hc in H.
Qed.

Hint Extern 0 (keepsf _ nokey (set_eap _)) => (apply nokey_modify) : keeps.

#[local] Instance nokey_steady : Steady nokey.
Proof.
  assert (Inert True nokey).
  { split; [apply _|intros f _; apply nokey_modify|intros c _; apply nokey_call]. }
  split; [done| |].
  - unfold prime_eapol_state. keeps_auto. by apply nokey_call.
  - unfold allow_eapol_sends. keeps_auto.
Qed.

(** The lengths [handle_rawsock] has checked, for a message of [n] bytes. *)
Definition msg_len (pk : list Z) (n : Z) : Prop :=
  exists l, get16 pk ek_paclen = Some l /\ 4 + htons l = n /\ 99 <= n <= 1024.

(** Once a packet passed the checks, anything may follow. *)
Lemma wlp_all {A} (m : W A) w t (Q : A -> ws -> trace wcall -> Prop) :
  (forall x w' t', Q x w' t') -> wlp m w t Q.
Proof. intros. unfold wpf. destruct (m w t) as [[[? ?] ?]|]; auto. Qed.

Lemma check_mic_passed kck pk n pk' :
  arr 16 kck -> arr 1024 pk -> 97 <= n <= 1024 ->
  check_mic ek_mic kck pk n = Some (pk', 0) -> authentic kck (take (Z.to_nat n) pk).
Proof.
  intros Hk Ha Hn Hc. destruct (check_mic_spec kck 1024 pk n) as (r & Hr & Hi); try done; try lia.
  rewrite Hc in Hr. injection Hr as -> <-. unfold authentic. destruct Ha as [Hl _].
  rewrite field_take, blank_take by lia. by apply Hi.
Qed.

Lemma replay_passed rp pk n s :
  arr 8 rp -> arr 1024 pk -> 99 <= n -> aread pk ek_replay 8 = Some s -> (0 <=? memcmp_l rp s) = false ->
  be_value rp < be_value (field 9 8 (take (Z.to_nat n) pk)).
Proof.
  intros [Hr Hrb] [Hp Hpb] ? Hs Hm%Z.leb_gt. rewrite field_take by lia.
  pose proof (aread_inv _ _ _ _ Hs) as (_ & _ & _ & Hl).
  apply aread_field in Hs. change (field 9 8 pk = s) in Hs. rewrite Hs.
  apply memcmp_l_num; [lia|done| |done]. rewrite <- Hs. by apply Forall_take, Forall_drop.
Qed.

Lemma recv_packet_3_auth w t n :
  ws_wf w -> msg_len (packet (w_eap w)) n -> eapolstate (w_eap w) = ES_WAITING_3_4 ->
  wlp recv_packet_3 w t (fun _ w' t' => nokey (w, t) (w', t') \/
    accepted (w_eap w) (take (Z.to_nat n) (packet (w_eap w)))).
Proof.
  intros Hw (l & Hl & Hn & Hr) Hst. open_wf Hw. unfold recv_packet_3, set_eap. wp_steps. rewrite Hl.
  eapply wp_pure_Some; [exact eq_refl|]. rewrite Hn. wp_step.
  apply wp_pure; [|done]. intros b _. wp_steps; [by left|]. apply wp_pure; [|done]. intros b2 _.
  wp_steps; [by left|]. apply wp_pure; [|done]. intros nn Hnn. wp_steps; [by left|].
  apply wp_pure; [|done]. intros rp Hrp. wp_steps; [by left|].
  apply wp_pure; [|done]. intros [pk r] Hc. wp_steps; [by left|].
  repeat match goal with H : negb _ = false |- _ => apply negb_false_iff, Z.eqb_eq in H end. subst r.
  apply wlp_all. intros ok w1 t1. apply wlp_all. intros x2 w2 t2. right. split; [|split; [|left; split; [done|]]].
  - eapply check_mic_passed; [done..|lia|exact Hc].
  - apply (replay_passed _ _ _ rp); done || lia.
  - rewrite field_take by lia. pose proof (aread_inv _ _ _ _ Hnn) as (_ & _ & _ & Hnl).
    apply aread_field in Hnn. change (field 17 32 (packet (w_eap w)) = nn) in Hnn. rewrite Hnn.
    symmetry. destruct WAnonce as [Hal Hab]. apply memcmp_l_num; [lia|done| |done].
    rewrite <- Hnn. apply Forall_take, Forall_drop. by destruct WPacket.
Qed.

Lemma recv_group_1_auth w t n :
  ws_wf w -> msg_len (packet (w_eap w)) n -> eapolstate (w_eap w) = ES_NEGOTIATED ->
  wlp recv_group_1 w t (fun _ w' t' => nokey (w, t) (w', t') \/
    accepted (w_eap w) (take (Z.to_nat n) (packet (w_eap w)))).
Proof.
  intros Hw (l & Hl & Hn & Hr) Hst. open_wf Hw. unfold recv_group_1, set_eap. wp_steps. rewrite Hl.
  eapply wp_pure_Some; [exact eq_refl|]. rewrite Hn. wp_step.
  apply wp_pure; [|done]. intros ty _. wp_steps; [by left|]. apply wp_pure; [|done]. intros b _.
  wp_steps; [by left|]. apply wp_pure; [|done]. intros rp Hrp. wp_steps; [by left|].
  apply wp_pure; [|done]. intros [pk r] Hc. wp_steps; [by left|].
  repeat match goal with H : negb _ = false |- _ => apply negb_false_iff, Z.eqb_eq in H end. subst r.
  apply wlp_all. intros ok w1 t1. apply wlp_all. intros x2 w2 t2. right. split; [|split; [|by right]].
  - eapply check_mic_passed; [done..|lia|exact Hc].
  - apply (replay_passed _ _ _ rp); done || lia.
Qed.

Lemma eapol_dispatch_auth w t n :
  ws_wf w -> msg_len (packet (w_eap w)) n ->
  wlp eapol_dispatch w t (fun _ w' t' => nokey (w, t) (w', t') \/
    accepted (w_eap w) (take (Z.to_nat n) (packet (w_eap w)))).
Proof.
  intros Hw Hn. unfold eapol_dispatch. wp_steps; zbool.
  - apply (wp_keeps nokey); [keeps_auto|by left].
  - by apply recv_packet_3_auth.
  - by apply recv_group_1_auth.
  - by left.
Qed.

Lemma handle_rawsock_auth w t :
  rx_ok -> ws_wf w ->
  let r := kern t (Recvfrom (rawsock (w_op w)) 1024) in
  wlp handle_rawsock w t (fun _ w' t' => nokey (w, t) (w', t') \/
    take 6 (out r) = bssid (w_ap w) /\ accepted (w_eap w) (drop 6 (out r))).
Proof.
  intros Hrx Hw r. open_wf Hw. unfold handle_rawsock, set_eap. wp_steps. fold r.
  pose proof (nokey_call (Recvfrom (rawsock (w_op w)) 1024) eq_refl w t) as Hn0.
  unfold wpf, syscall in Hn0. fold r in Hn0.
  pose proof (rx_bytes Hrx t (rawsock (w_op w)) 1024) as Hb. fold r in Hb.
  pose proof (rx_size Hrx t (rawsock (w_op w)) 1024 ltac:(done)) as Hs. fold r in Hs.
  pose proof (rx_length Hrx t (rawsock (w_op w)) 1024) as Hl. cbv zeta in Hl. fold r in Hl. clearbody r.
  apply wp_pure; [|done]. intros pk Hpk. wp_steps; try (by left). zbool. specialize (Hl ltac:(lia)).
  set (rd := s32 (ret r)) in *.
  assert (length (drop 6 (out r)) = Z.to_nat rd) as Hd by (rewrite length_drop; lia).
  rewrite take_ge in Hpk by lia.
  pose proof (awrite_inv _ _ _ _ Hpk) as (_ & _ & Hpl). destruct WPacket as [Hl1 Hb1].
  rewrite awrite_Some in Hpk by lia. injection Hpk as Hpk. change (Z.to_nat 0) with 0%nat in Hpk.
  cbn [take app] in Hpk.
  assert (take (Z.to_nat rd) pk = drop 6 (out r)) as Hm by (rewrite <- Hpk, <- Hd; apply take_app_length).
  assert (arr 1024 pk) as Hpa.
  { split; [lia|]. rewrite <- Hpk. apply Forall_app_2; by apply Forall_drop. }
  apply wp_pure; [|done]. intros l Hgl. wp_step. apply wp_pure; [|done]. intros p Hgp. wp_step.
  apply wp_pure; [|done]. intros ty _. wp_steps; try (by left).
  repeat match goal with H : negb _ = false |- _ => apply negb_false_iff, Z.eqb_eq in H end. zbool.
  assert (take 6 (out r) = bssid (w_ap w)) as Hsender.
  { symmetry. destruct WBssid as [Hsl Hsb]. apply memcmp_l_num; [rewrite length_take; lia|done|by apply Forall_take|done]. }
  eapply wp_mono; [apply (eapol_dispatch_auth _ _ rd)|].
  - assert (arr 1024 (packet (w_eap w))) by done. close_wf.
  - exists l. split; [exact Hgl|]. unfold eksize in *. lia.
  - cbv beta. intros x w1 t1 Hx. rewrite <- Hm.
    destruct Hx as [Hx|Hx]; wp_steps.
    + apply (wp_keeps nokey); [keeps_auto|]. intros [] w2 t2 Hx2. left. unfold nokey in *. cbn [snd] in *. congruence.
    + left. unfold nokey in *. cbn [snd] in *. congruence.
    + apply wlp_all. intros. by right.
    + by right.
Qed.
End auth.
(** ** Theorems *)

Section theorems.
Context `{HK : !Kern wcall} `{HL : !Locals}.


(** C1. Keys are installed only for packets of the access point: when handling
    the raw socket sends NEW_KEY, the message that was received came from the
    address of the access point, its integrity code is the HMAC-SHA1 code under
    the exchange's KCK, its replay counter is greater than the last accepted
    one, and it came in the state where packet 3/4 is due, with the nonce of
    packet 1/4, or after the exchange. *)
Theorem newkey_authentic w t w' t' :
  rx_ok -> ws_wf w -> handle_rawsock w t = Some (tt, w', t') -> newkeys t' <> newkeys t ->
  let r := kern t (Recvfrom (rawsock (w_op w)) 1024) in
  take 6 (out r) = bssid (w_ap w) /\ accepted (w_eap w) (drop 6 (out r)).
Proof.
  intros Hrx Hw Hh Hn r. pose proof (handle_rawsock_auth w t Hrx Hw) as H. cbv zeta in H.
  unfold wpf in H. rewrite Hh in H. by destruct H.
Qed.
End theorems.
