(* ===== verification/Fourway.v ===== *)
(** * src/wsupp: the handshake as the standard describes it

    EAPOL-Key frames of IEEE 802.11-2012, 11.6.2, what the supplicant sends in
    answer to packet 1/4 and 3/4, and the keys it installs. *)
From S2P Require Import Prelude Arr Sys Nlusctl Netlink State Sha ShaSpec Md Aes AesSpec Keywrap Wsupp WsLink Apsel Eapol Wskeep Handshake.

(** ** Frames *)

(** A buffer as the sequence of its fields. *)
Fixpoint cut (sizes : list nat) (l : list Z) : list (list Z) :=
  match sizes with
  | [] => [l]
  | n :: sizes => take n l :: cut sizes (drop n l)
  end.

Lemma concat_cut sizes l : concat (cut sizes l) = l.
Proof.
  revert l. induction sizes as [|n sizes IH]; intros l; cbn [cut concat].
  - apply app_nil_r.
  - by rewrite IH, take_drop.
Qed.

Lemma part_split (parts : list (list Z)) i p :
  parts !! i = Some p ->
  concat parts = concat (take i parts) ++ p ++ concat (drop (S i) parts) /\
  forall s, concat (<[i := s]> parts) = concat (take i parts) ++ s ++ concat (drop (S i) parts).
Proof.
  intros Hi. split.
  - rewrite <- (take_drop_middle _ _ _ Hi) at 1. rewrite concat_app. done.
  - intros s. rewrite insert_take_drop by (by eapply lookup_lt_Some). rewrite concat_app. done.
Qed.

Lemma aread_part (parts : list (list Z)) i p off n :
  parts !! i = Some p -> off = zlen (concat (take i parts)) -> n = zlen p ->
  aread (concat parts) off n = Some p.
Proof. intros Hi -> ->. destruct (part_split _ _ _ Hi) as [-> _]. by apply aread_parts. Qed.

Lemma awrite_part (parts : list (list Z)) i p s off :
  parts !! i = Some p -> off = zlen (concat (take i parts)) -> length s = length p ->
  awrite (concat parts) off s = Some (concat (<[i := s]> parts)).
Proof.
  intros Hi -> Hs. destruct (part_split _ _ _ Hi) as [-> Hp]. rewrite Hp. by apply awrite_parts.
Qed.

Lemma afill_part (parts : list (list Z)) i p off c n :
  parts !! i = Some p -> off = zlen (concat (take i parts)) -> n = zlen p ->
  afill (concat parts) off c n = Some (concat (<[i := repeat c (length p)]> parts)).
Proof.
  intros Hi Ho ->. unfold afill. destruct (Z.leb_spec 0 (zlen p)); [|lia]. rewrite Nat2Z.id.
  apply (awrite_part _ _ _ _ _ Hi Ho). apply repeat_length.
Qed.

(** The sizes of the fields of the header. *)
Definition ek_sizes : list nat := [1; 1; 2; 1; 2; 2; 8; 32; 16; 8; 8; 16; 2]%nat.

(** An EAPOL-Key frame. *)
Definition ek_fields (v ty ki kl : Z) (rp nonce iv rsc res mic data : list Z) : list (list Z) :=
  [[v]; [3]; be_bytes 2 (95 + zlen data); [ty]; be_bytes 2 ki; be_bytes 2 kl; rp; nonce; iv; rsc; res; mic;
   be_bytes 2 (zlen data); data].
Definition frame v ty ki kl rp nonce iv rsc res mic data : list Z :=
  concat (ek_fields v ty ki kl rp nonce iv rsc res mic data).

(** A frame with its integrity code. *)
Definition signed (kck : list Z) (v ki kl : Z) (rp nonce iv rsc res data : list Z) : list Z :=
  let f mic := frame v 2 ki kl rp nonce iv rsc res mic data in
  f (mic_of kck (f (repeat 0 16))).

(** What the supplicant sends: no IV, no sequence number. *)
Definition reply_frame (kck : list Z) (v ki kl : Z) (rp nonce data : list Z) : list Z :=
  signed kck v ki kl rp nonce (repeat 0 16) (repeat 0 8) (repeat 0 8) data.

Ltac part_len :=
  cbn [take concat]; rewrite ?length_app, ?length_be_bytes, ?repeat_length; cbn [length];
  unfold ek_version, ek_pactype, ek_paclen, ek_type, ek_keyinfo, ek_keylen, ek_replay, ek_nonce, ek_iv, ek_rsc,
    ek_reserved, ek_mic, ek_paylen, ek_payload; lia.

(** The write and the reading of one field, number [i]. *)
Ltac put_part i :=
  first [erewrite (awrite_part _ i); [|exact eq_refl|part_len|part_len]
        |erewrite (afill_part _ i); [|exact eq_refl|part_len|part_len]];
  rewrite ?Some_bind; cbn [list_insert insert]; rewrite ?repeat_length.

(** Buffers whose parts have the sizes of the header, and any others after it. *)
Definition ek_parts (ps : list (list Z)) : Prop := take 13 (length <$> ps) = ek_sizes.

Lemma cut_sizes sizes l : (sum_list sizes <= length l)%nat -> take (length sizes) (length <$> cut sizes l) = sizes.
Proof.
  revert l. induction sizes as [|n sizes IH]; intros l Hl; [done|]. simpl in *.
  rewrite length_take. f_equal; [lia|]. apply IH. rewrite length_drop. lia.
Qed.

(** Name the parts and their sizes. *)
Ltac open_parts H :=
  unfold ek_parts in H;
  repeat (match type of H with take _ (length <$> ?ps) = _ => destruct ps as [|? ps] end;
    [discriminate H|cbn [fmap list_fmap take] in H; first [injection H as ? H|injection H as Hlast; clear H]]).

Lemma put_fields_parts ps v ki kl rp nonce :
  ek_parts ps -> length rp = 8%nat -> length nonce = 32%nat ->
  put_fields (concat ps) v ki kl rp nonce =
    Some (concat ([[v]; [3]; nth 2 ps []; [2]; be_bytes 2 ki; be_bytes 2 kl; rp; nonce; repeat 0 16; repeat 0 8;
      repeat 0 8; repeat 0 16; nth 12 ps []] ++ drop 13 ps)).
Proof.
  intros H Hrp Hn. open_parts H. unfold put_fields, put16. rewrite !zput_awrite, !be16_htons.
  put_part 0%nat. rewrite zput_awrite. put_part 1%nat. rewrite zput_awrite.
  put_part 3%nat. put_part 4%nat. put_part 5%nat. put_part 6%nat. put_part 7%nat. put_part 8%nat.
  put_part 9%nat. put_part 11%nat. put_part 10%nat.
  repeat match goal with H : length ?x = _ |- context [repeat 0 (length ?x)] => rewrite H end. done.
Qed.

Section fourway.
Context `{HK : !Kern wcall} `{HL : !Locals}.

Lemma bytes_frame v ty ki kl rp nonce iv rsc res mic data :
  0 <= v < 256 -> 0 <= ty < 256 -> bytes rp -> bytes nonce -> bytes iv -> bytes rsc -> bytes res -> bytes mic ->
  bytes data -> bytes (frame v ty ki kl rp nonce iv rsc res mic data).
Proof.
  intros. assert (forall x, 0 <= x < 256 -> bytes [x]) as Hx by (intros; by constructor).
  unfold frame, ek_fields. cbn [concat].
  repeat (apply Forall_app_2; [first [done|apply bytes_be_bytes|apply Hx; lia]|]). constructor.
Qed.

(** The lengths and the data, then the integrity code: a signed frame. *)
Lemma finish_frame ps kck v ki kl rp nonce data rest n :
  length rp = 8%nat -> length nonce = 32%nat -> arr 16 kck -> bytes data -> 0 <= v < 256 -> bytes rp -> bytes nonce ->
  n = eksize + zlen data -> n < 2 ^ 16 ->
  ps = [[v]; [3]; be_bytes 2 (n - 4); [2]; be_bytes 2 ki; be_bytes 2 kl; rp; nonce; repeat 0 16; repeat 0 8;
      repeat 0 8; repeat 0 16; be_bytes 2 (zlen data); data; rest] ->
  put_mic (concat ps) kck n = Some (reply_frame kck v ki kl rp nonce data ++ rest).
Proof.
  intros Hrp Hn Hk Hd Hv Hrb Hnb -> Hsz ->. unfold eksize in *.
  set (f := frame v 2 ki kl rp nonce (repeat 0 16) (repeat 0 8) (repeat 0 8) (repeat 0 16) data).
  assert (zlen f = 99 + zlen data) as Hf by (unfold f, frame, ek_fields; part_len).
  match goal with |- put_mic (concat ?ps) _ _ = _ => assert (concat ps = f ++ rest) as Hc end.
  { unfold f, frame, ek_fields. replace (99 + zlen data - 4) with (95 + zlen data) by lia.
    cbn [concat]. rewrite ?app_nil_r. by rewrite <- !app_assoc. }
  assert (bytes f) as Hfb.
  { apply bytes_frame; try done; by apply bytes_repeat. }
  assert (take (Z.to_nat (99 + zlen data)) (f ++ rest) = f) as Ht.
  { rewrite <- Hf, Nat2Z.id. apply take_app_length. }
  unfold put_mic. rewrite Hc at 1. rewrite make_mic_spec; [|done|by rewrite Ht|rewrite length_app; lia|lia].
  rewrite Some_bind, Ht. destruct (arr_hmac_sha1 kck f) as [Hh _].
  erewrite (awrite_part _ 11); [|exact eq_refl|part_len|unfold mic_of; rewrite length_take, repeat_length; lia].
  unfold reply_frame, signed. fold f. f_equal. unfold frame, ek_fields.
  replace (99 + zlen data - 4) with (95 + zlen data) by lia.
  cbn [concat list_insert insert]. rewrite ?app_nil_r. by rewrite <- !app_assoc.
Qed.

Lemma length_mic_of kck m : length (mic_of kck m) = 16%nat.
Proof. unfold mic_of. destruct (arr_hmac_sha1 kck m) as [Hh _]. rewrite length_take. lia. Qed.

Lemma zlen_reply_frame kck v ki kl rp nonce data :
  length rp = 8%nat -> length nonce = 32%nat -> zlen (reply_frame kck v ki kl rp nonce data) = 99 + zlen data.
Proof.
  intros. unfold reply_frame, signed. unfold frame at 1. unfold ek_fields.
  set (m := mic_of _ _). assert (length m = 16%nat) by apply length_mic_of. clearbody m. part_len.
Qed.

(** The parts of a packet buffer, with room for [m] bytes of data. *)
Lemma packet_parts pk m :
  zlen pk = 1024 -> 99 + Z.of_nat m <= 1024 ->
  exists ps, pk = concat ps /\ ek_parts ps /\ length ps = 15%nat /\ length (nth 13 ps []) = m.
Proof.
  intros Hl Hm. exists (cut (ek_sizes ++ [m]) pk). split; [by rewrite concat_cut|].
  pose proof (cut_sizes (ek_sizes ++ [m]) pk) as Hc. specialize (Hc ltac:(simpl; lia)).
  change (length (ek_sizes ++ [m])) with 14%nat in Hc.
  assert (length (cut (ek_sizes ++ [m]) pk) = 15%nat) as H15 by done.
  split; [|split; [done|]].
  - unfold ek_parts. replace 13%nat with (13 `min` 14)%nat by done. by rewrite <- take_take, Hc.
  - destruct (lookup_lt_is_Some_2 (cut (ek_sizes ++ [m]) pk) 13) as [d Hd]; [lia|].
    rewrite (nth_lookup_Some _ _ _ _ Hd).
    assert (take 14 (length <$> cut (ek_sizes ++ [m]) pk) !! 13%nat = Some m) as Hx by (by rewrite Hc).
    rewrite lookup_take, list_lookup_fmap, Hd in Hx by lia. by injection Hx.
Qed.

Lemma send_packet_ok pkt rest n w t :
  let c := Sendto (rawsock (w_op w)) pkt (amac (w_eap w)) in
  n = zlen pkt -> s32 (ret (kern t c)) = n ->
  send_packet (pkt ++ rest) n w t = Some (n, w, t ++ [(c, kern t c)]).
Proof.
  intros c -> Hr. cut (wp (send_packet (pkt ++ rest) (zlen pkt)) w t
    (fun x w' t' => Some (x, w', t') = Some (zlen pkt, w, t ++ [(c, kern t c)]))).
  { unfold wpf. by destruct (send_packet _ _ w t) as [[[? ?] ?]|]. }
  unfold send_packet. wp_step. eapply wp_pure_Some; [by apply aread_head|].
  do 4 (wp_step; cbv beta). cbv zeta. change (id w) with w. fold c. rewrite Hr.
  destruct (Z.ltb_spec (zlen pkt) 0); [lia|]. rewrite Z.eqb_refl. wp_steps; done.
Qed.

Lemma send_packet_2_spec w t :
  ws_wf w ->
  let e := w_eap w in
  let pkt := reply_frame (KCK e) (version e) 0x10A 16 (replay e) (snonce e) (default [] (txies (w_ap w))) in
  let c := Sendto (rawsock (w_op w)) pkt (amac e) in
  s32 (ret (kern t c)) = zlen pkt ->
  wp send_packet_2 w t (fun x w' t' => x = 0 /\ t' = t ++ [(c, kern t c)] /\
    exists pk, w' = w <| w_eap ::= fun e => e <| packet := pk |> |> <| w_eap ::= fun e => e <| eapolstate := ES_WAITING_3_4 |> |>).
Proof.
  intros Hw e pkt c Hr. pose proof Hw as Hw'. open_wf Hw. subst e. unfold send_packet_2, set_eap. wp_steps.
  destruct WTxies as [Hil Hib]. set (ies := default [] (txies (w_ap w))) in *.
  assert (arr 1024 (packet (w_eap w))) as [Hpl Hpb] by done.
  destruct (packet_parts (packet (w_eap w)) (length ies) Hpl) as (ps & Hpk & Hps & Hlen & Hd).
  { unfold eksize in *. lia. }
  rewrite Hpk. destruct WReplay as [Hr8 Hrb], WSnonce as [Hn32 Hnb].
  rewrite put_fields_parts by (done || lia). open_parts Hps.
  do 2 (destruct ps as [|? ps]; [discriminate Hlen|]). destruct ps; [|discriminate Hlen]. clear Hlen.
  cbn [nth] in Hd. cbn [nth drop app].
  eapply wp_pure_Some; [exact eq_refl|]. wp_step.
  unfold put16. rewrite be16_htons. put_part 12%nat. eapply wp_pure_Some; [exact eq_refl|]. wp_step.
  rewrite be16_htons. put_part 2%nat. eapply wp_pure_Some; [exact eq_refl|]. wp_step.
  eapply wp_pure_Some; [by apply aread_all|]. wp_step.
  put_part 13%nat. eapply wp_pure_Some; [exact eq_refl|]. wp_step.
  rewrite <- !Hil. assert (0 <= zlen ies) by lia. unfold eksize in *.
  change (Z.lor (Z.lor KI_SHA KI_PAIRWISE) KI_MIC) with 0x10A.
  rewrite (finish_frame _ _ (version (w_eap w)) 0x10A 16 (replay (w_eap w)) (snonce (w_eap w)) ies l13);
    [|lia|lia|done|done|done|done|done|done|lia|exact eq_refl]. fold pkt.
  eapply wp_pure_Some; [exact eq_refl|]. wp_steps. 
  assert (zlen pkt = 99 + zlen ies) as Hpz by (apply zlen_reply_frame; lia).
  eapply wp_eq; [apply send_packet_ok; [lia|by rewrite <- Hpz]|].
  destruct (Z.ltb_spec (99 + zlen ies) 0); [lia|]. wp_steps. eauto.
Qed.

(** ** Receiving a frame *)

(** The fields that are read: one, number [i]. *)
Ltac get_part i :=
  first [erewrite (aread_part _ i); [|exact eq_refl|part_len|part_len]].

Lemma frame_parts v ty ki kl rp nonce iv rsc res mic data rest :
  frame v ty ki kl rp nonce iv rsc res mic data ++ rest =
    concat (ek_fields v ty ki kl rp nonce iv rsc res mic data ++ [rest]).
Proof. unfold frame. by rewrite concat_app; cbn [concat]; rewrite app_nil_r. Qed.

Lemma aread_part_head (parts : list (list Z)) i p off n :
  parts !! i = Some p -> off = zlen (concat (take i parts)) -> 0 <= n <= zlen p ->
  aread (concat parts) off n = Some (take (Z.to_nat n) p).
Proof.
  intros Hi -> Hn. destruct (part_split _ _ _ Hi) as [-> _].
  rewrite <- (take_drop (Z.to_nat n) p) at 1. rewrite <- app_assoc. apply aread_parts; [done|].
  rewrite length_take. lia.
Qed.

(** The sizes of the fields. *)
Record frame_ok (v ty ki kl : Z) (rp nonce iv rsc res mic data : list Z) : Prop := {
  ok_v : 0 <= v < 256; ok_ty : 0 <= ty < 256; ok_ki : 0 <= ki < 2 ^ 16;
  ok_rp : arr 8 rp; ok_nonce : arr 32 nonce; ok_iv : arr 16 iv; ok_rsc : arr 8 rsc; ok_res : arr 8 res;
  ok_mic : arr 16 mic; ok_data : bytes data; ok_size : 99 + zlen data <= 1024 }.

Section frame.
Context (v ty ki kl : Z) (rp nonce iv rsc res mic data rest : list Z).
Context (Hok : frame_ok v ty ki kl rp nonce iv rsc res mic data).
Let pk := frame v ty ki kl rp nonce iv rsc res mic data ++ rest.

Ltac open_frame :=
  destruct Hok as [? ? ? [? ?] [? ?] [? ?] [? ?] [? ?] [? ?] ? ?]; unfold pk; rewrite frame_parts;
  unfold ek_fields; cbn [app].

Lemma zlen_frame : zlen (frame v ty ki kl rp nonce iv rsc res mic data) = 99 + zlen data.
Proof. destruct Hok. unfold frame, ek_fields, arr in *. part_len. Qed.

Lemma arr_frame : arr (99 + zlen data) (frame v ty ki kl rp nonce iv rsc res mic data).
Proof. split; [apply zlen_frame|]. destruct Hok. unfold arr in *. 
  repeat match goal with H : _ /\ _ |- _ => destruct H end. by apply bytes_frame.
Qed.

Lemma get_fields :
  zget pk ek_version = Some v /\ zget pk ek_pactype = Some 3 /\ zget pk ek_type = Some ty /\
  (htons <$> get16 pk ek_paclen) = Some (95 + zlen data) /\ (htons <$> get16 pk ek_keyinfo) = Some ki /\
  (htons <$> get16 pk ek_paylen) = Some (zlen data) /\ aread pk ek_replay 8 = Some rp /\
  aread pk ek_nonce 32 = Some nonce /\ aread pk ek_rsc 6 = Some (take 6 rsc) /\
  aread pk ek_payload (zlen data) = Some data.
Proof.
  open_frame. unfold get16.
  get_part 2%nat. get_part 4%nat. get_part 12%nat. get_part 6%nat. get_part 7%nat.
  erewrite (aread_part_head _ 9 rsc); [|exact eq_refl|part_len|lia]. get_part 13%nat. cbn [fmap option_fmap option_map].
  rewrite !htons_be16 by lia.
  split_and!; done.
Qed.
End frame.

(** A message that is delivered to the exchange. *)
Definition delivered (w : ws) (t : trace wcall) (msg : list Z) : Prop :=
  kern t (Recvfrom (rawsock (w_op w)) 1024) = Reply (zlen msg) (bssid (w_ap w) ++ msg).

(** The state and the trace when [dispatch] is called. *)
Definition with_msg (w : ws) (msg : list Z) : ws :=
  w <| w_eap ::= fun e => e <| packet := msg ++ drop (length msg) (packet e) |> |>.
Definition received (w : ws) (t : trace wcall) : trace wcall :=
  let c := Recvfrom (rawsock (w_op w)) 1024 in t ++ [(c, kern t c)].

Lemma memcmp_l_refl a : memcmp_l a a = 0.
Proof. induction a as [|x a IH]; [done|]. cbn [memcmp_l]. by rewrite Z.sub_diag. Qed.

Lemma handle_rawsock_frame w t v ty ki kl rp nonce iv rsc res mic data Q :
  ws_wf w -> frame_ok v ty ki kl rp nonce iv rsc res mic data ->
  let msg := frame v ty ki kl rp nonce iv rsc res mic data in
  delivered w t msg ->
  wp eapol_dispatch (with_msg w msg) (received w t)
    (fun r w' t' => wp (if r <? 0 then abort_connection r else mret tt) w' t' Q) ->
  wp handle_rawsock w t Q.
Proof.
  intros Hw Hok msg Hd HQ. open_wf Hw. destruct WBssid as [Hbl _], WPacket as [Hpl _].
  pose proof (zlen_frame _ _ _ _ _ _ _ _ _ _ _ Hok) as Hz. fold msg in Hz.
  pose proof (ok_size _ _ _ _ _ _ _ _ _ _ _ Hok) as Hsz.
  destruct (get_fields _ _ _ _ _ _ _ _ _ _ _ (drop (length msg) (packet (w_eap w))) Hok)
    as (_ & Hpt & _ & Hpc & _ & Hpp & _). fold msg in Hpt, Hpc, Hpp.
  unfold handle_rawsock, set_eap. wp_steps. unfold delivered in Hd. rewrite Hd. cbn [ret out].
  rewrite s32_small by lia. rewrite drop_app_ge, (take_app_le (bssid _)), (take_ge (bssid _)) by lia.
  replace (6 - length (bssid (w_ap w)))%nat with 0%nat by lia. rewrite drop_0, (take_ge msg) by lia.
  eapply wp_pure_Some.
  { rewrite awrite_Some by lia. change (Z.to_nat 0) with 0%nat. rewrite Z.add_0_l, Nat2Z.id. cbn [take app]. exact eq_refl. }
  rewrite take_0, app_nil_l. destruct (Z.ltb_spec (zlen msg) 0); [lia|].
  do 4 (wp_step; cbv beta).
  match goal with |- context [memcmp_l (bssid (w_ap ?x)) _] => change (w_ap x) with (w_ap w) end.
  rewrite memcmp_l_refl. change (negb (0 =? 0)) with false. cbv iota.
  unfold eksize. destruct (Z.ltb_spec (zlen msg) 99); [lia|].
  apply fmap_Some in Hpc as (lc & Hlc & Hpc). rewrite Hlc.
  apply fmap_Some in Hpp as (lp & Hlp & Hpp).
  wp_step. eapply wp_pure_Some; [exact eq_refl|]. wp_step. eapply wp_pure_Some; [exact Hlp|]. wp_step.
  rewrite Hpt. eapply wp_pure_Some; [exact eq_refl|]. rewrite <- Hpc, <- Hpp.
  destruct (Z.eqb_spec (95 + zlen data + 4) (zlen msg)); [|lia]. cbn [negb].
  destruct (Z.ltb_spec (zlen msg) (99 + zlen data)); [lia|]. change (negb (3 =? 3)) with false. cbv iota.
  wp_step. unfold received, with_msg in HQ. rewrite Hd in HQ. exact HQ.
Qed.

(** ** Packet 1/4 and the answer to it *)

(** The bits of [keyinfo] that are looked at: [KI_TYPEMASK], and the mask of
    [ptype]. *)
Definition ki_is (ki bits : Z) : Prop := Z.land ki 7 = KI_SHA /\ Z.land ki 0x1388 = bits.

Lemma ptype_frame pk ki bits b :
  (htons <$> get16 pk ek_keyinfo) = Some ki -> Z.land ki 7 = KI_SHA -> (Z.land ki 0x1388 =? bits) = b ->
  ptype pk bits = Some b.
Proof.
  intros Hk H1 H2. unfold ptype. destruct (get16 pk ek_keyinfo) as [k|]; [|discriminate Hk].
  injection Hk as Hk. rewrite Some_bind. cbv zeta. rewrite Hk.
  change (Z.lor _ KI_ENCRYPTED) with 0x1388. change KI_TYPEMASK with 7. rewrite H1, Z.eqb_refl. cbn [negb].
  rewrite H2. by destruct b.
Qed.

Lemma memcmp_l_opp a b : length a = length b -> memcmp_l b a = - memcmp_l a b.
Proof.
  revert b. induction a as [|x a IH]; intros [|y b] Hl; try done. cbn [memcmp_l]. injection Hl as Hl.
  destruct (Z.eqb_spec (x - y) 0), (Z.eqb_spec (y - x) 0); try lia. by apply IH.
Qed.

(** The smaller of two byte strings first. *)
Definition sorted2 (a b : list Z) : list Z := if be_value a <? be_value b then a ++ b else b ++ a.

Lemma memcmp_l_lt n a b : arr n a -> arr n b -> (memcmp_l a b <? 0) = (be_value a <? be_value b).
Proof.
  intros [Ha Hab] [Hb Hbb]. assert (length a = length b) as Hl by lia.
  destruct (memcmp_l_num a b Hl Hab Hbb) as [H1 H0].
  destruct (memcmp_l_num b a (eq_sym Hl) Hbb Hab) as [H2 _]. rewrite (memcmp_l_opp a b Hl) in H2.
  destruct (Z.ltb_spec (memcmp_l a b) 0) as [Hm|Hm]; symmetry; [apply Z.ltb_lt; auto|apply Z.ltb_ge].
  destruct (decide (memcmp_l a b = 0)) as [He|He]; [rewrite (H0 He); lia|].
  specialize (H2 ltac:(lia)). lia.
Qed.

Lemma sorted2_memcmp n a b : arr n a -> arr n b ->
  (if memcmp_l a b <? 0 then a ++ b else b ++ a) = sorted2 a b.
Proof. intros Ha Hb. unfold sorted2. by rewrite (memcmp_l_lt n a b Ha Hb). Qed.

(** The pairwise transient key of IEEE 802.11, section 11.6.1.3: KCK, KEK and TK. *)
Definition ptk_of (pmk aa spa anonce snonce : list Z) : list Z :=
  prf480 pmk astr (sorted2 spa aa ++ sorted2 snonce anonce).

(** The keys of the exchange. *)
Definition has_keys (e : eapol) (ptk : list Z) : Prop :=
  KCK e = take 16 ptk /\ KEK e = take 16 (drop 16 ptk) /\ PTK e = take 16 (drop 32 ptk).

Lemma pmk_to_ptk_spec w t :
  ws_wf w ->
  let e := w_eap w in
  let ptk := ptk_of (PSK e) (bssid (w_ap w)) (ifaddr (w_op w)) (anonce e) (snonce e) in
  wp pmk_to_ptk w t (fun _ w' t' => t' = t /\ has_keys (w_eap w') ptk /\
    w' = w <| w_eap ::= fun e => e <| smac := ifaddr (w_op w) |> <| amac := bssid (w_ap w) |> |>
           <| w_eap ::= fun e => e <| KCK := take 16 ptk |> <| KEK := take 16 (drop 16 ptk) |>
                                   <| PTK := take 16 (drop 32 ptk) |> |>).
Proof.
  intros Hw e ptk. subst e. open_wf Hw. unfold pmk_to_ptk, set_eap. wp_steps.
  cbn [upd smac amac anonce snonce PSK w_eap w_ap w_op]. unfold id.
  assert (bytes astr) as Hab by (by repeat constructor).
  pose proof (sorted2_memcmp 6 _ _ WIfaddr WBssid) as S1. pose proof (sorted2_memcmp 32 _ _ WSnonce WAnonce) as S2.
  assert (forall m1 m2 n1 n2, arr 6 m1 -> arr 6 m2 -> arr 32 n1 -> arr 32 n2 ->
    m1 ++ m2 = sorted2 (ifaddr (w_op w)) (bssid (w_ap w)) ->
    n1 ++ n2 = sorted2 (snonce (w_eap w)) (anonce (w_eap w)) ->
    PRF480 (junk 60) (PSK (w_eap w)) astr m1 m2 n1 n2 = Some ptk) as Hprf.
  { intros m1 m2 n1 n2 ???? Hm Hn. rewrite PRF480_spec; try done; [|by rewrite junk_length].
    unfold ptk, ptk_of. rewrite <- Hm, <- Hn. by rewrite <- app_assoc. }
  destruct (memcmp_l (ifaddr _) _ <? 0), (memcmp_l (snonce _) _ <? 0); cbv iota beta zeta;
    rewrite Hprf by done.
  all: destruct (arr_prf480 (PSK (w_eap w)) astr
         (sorted2 (ifaddr (w_op w)) (bssid (w_ap w)) ++ sorted2 (snonce (w_eap w)) (anonce (w_eap w)))) as [Hl _];
    fold (ptk_of (PSK (w_eap w)) (bssid (w_ap w)) (ifaddr (w_op w)) (anonce (w_eap w)) (snonce (w_eap w))) in Hl;
    fold ptk in Hl.
  all: wp_step; eapply wp_pure_Some; [exact eq_refl|]; wp_step.
  all: do 3 (eapply wp_pure_Some; [by apply aread_Some; lia|]; wp_step).
  all: split; [done|]; split; done.
Qed.

(** What is left of a state when the packet buffer, the exchange's state and
    keys have changed. *)
Definition same_link (w w' : ws) : Prop :=
  w_ap w' = w_ap w /\ w_op w' = w_op w /\ w_nl w' = w_nl w /\ w_tab w' = w_tab w.

Lemma arr_msg msg pk : arr (zlen msg) msg -> arr 1024 pk -> zlen msg <= 1024 -> arr 1024 (msg ++ drop (length msg) pk).
Proof.
  intros [_ Hm] [Hl Hb] ?. split; [rewrite length_app, length_drop; lia|].
  apply Forall_app_2; [done|by apply Forall_drop].
Qed.

Lemma wf_with_msg w msg : ws_wf w -> arr (zlen msg) msg -> zlen msg <= 1024 -> ws_wf (with_msg w msg).
Proof.
  intros Hw Hm Hl. open_wf Hw. pose proof (arr_msg msg _ Hm WPacket Hl). unfold with_msg. close_wf.
Qed.

Section packet_1.
Context (w : ws) (t : trace wcall) (v ki kl : Z) (an rp iv rsc res mic data : list Z).
Context (Hw : ws_wf w) (Hok : frame_ok v 2 ki kl rp an iv rsc res mic data) (Hki : ki_is ki 0x88).
Let e := w_eap w.
Let msg := frame v 2 ki kl rp an iv rsc res mic data.
Let ptk := ptk_of (PSK e) (bssid (w_ap w)) (ifaddr (w_op w)) an (snonce e).
Let answer := reply_frame (take 16 ptk) v 0x10A 16 rp (snonce e) (default [] (txies (w_ap w))).
Let c := Sendto (rawsock (w_op w)) answer (bssid (w_ap w)).
Context (Hsends : eapolsends e <> 0) (Hsent : s32 (ret (kern t c)) = zlen answer).

Lemma recv_packet_1_spec :
  wp recv_packet_1 (with_msg w msg) t (fun x w' t' => x = 0 /\ t' = t ++ [(c, kern t c)] /\
    eapolstate (w_eap w') = ES_WAITING_3_4 /\ has_keys (w_eap w') ptk /\ version (w_eap w') = v /\
    anonce (w_eap w') = an /\ replay (w_eap w') = rp /\ same_link w w').
Proof.
  pose proof (arr_frame _ _ _ _ _ _ _ _ _ _ _ Hok) as Hma. fold msg in Hma.
  pose proof (ok_size _ _ _ _ _ _ _ _ _ _ _ Hok) as Hsz. destruct Hma as [Hml Hmb].
  assert (ws_wf (with_msg w msg)) as Hwm by (apply wf_with_msg; [done|by split|lia]).
  destruct (get_fields _ _ _ _ _ _ _ _ _ _ _ (drop (length msg) (packet (w_eap w))) Hok)
    as (Hv & _ & Hty & _ & Hk & _ & Hr & Hn & _). fold msg in Hv, Hty, Hk, Hr, Hn.
  unfold recv_packet_1. wp_step. wp_step. set (pk := packet (w_eap (with_msg w msg))) in *.
  change (msg ++ drop (length msg) (packet (w_eap w))) with pk in *. cbv zeta.
  wp_step. rewrite Hty. eapply wp_pure_Some; [exact eq_refl|]. change (negb (2 =? 2)) with false. cbv iota.
  destruct Hki as [Hk1 Hk2].
  wp_step. eapply wp_pure_Some; [apply (ptype_frame _ _ _ true Hk Hk1); by apply Z.eqb_eq|]. cbn [negb].
  wp_step. rewrite Hv. eapply wp_pure_Some; [exact eq_refl|].
  wp_step. rewrite Hn. eapply wp_pure_Some; [exact eq_refl|].
  wp_step. rewrite Hr. eapply wp_pure_Some; [exact eq_refl|]. unfold set_eap. wp_steps.
  match goal with |- wpf _ _ ?s _ _ => set (w1 := s) end.
  destruct (ok_rp _ _ _ _ _ _ _ _ _ _ _ Hok) as [Hrl Hrb].
  assert (ws_wf w1) as Hw1.
  { destruct Hok. open_wf Hwm. unfold w1. close_wf. }
  eapply wp_mono; [by apply pmk_to_ptk_spec|]. cbv beta. intros _ w2 t2 (-> & Hkeys & Hw2).
  change (has_keys (w_eap w2) ptk) in Hkeys.
  assert (ws_wf w2) as Hww2.
  { assert (arr 60 ptk) as [Hpl Hpb] by apply arr_prf480.
    assert (forall k, (k <= 32)%nat -> arr 16 (take 16 (drop k ptk))) as Ht.
    { intros k ?. split; [rewrite length_take, length_drop; lia|by apply Forall_take, Forall_drop]. }
    pose proof (Ht 0%nat ltac:(lia)) as T0. rewrite drop_0 in T0.
    pose proof (Ht 16%nat ltac:(lia)) as T1. pose proof (Ht 32%nat ltac:(lia)) as T2.
    rewrite Hw2. open_wf Hw1. close_wf. }
  assert (version (w_eap w2) = v /\ anonce (w_eap w2) = an /\ replay (w_eap w2) = rp) as (Hv2 & Ha2 & Hr2)
    by (rewrite Hw2; split; [|split]; reflexivity).
  assert (same_link w w2) as Hl2 by (rewrite Hw2; split; [|split; [|split]]; reflexivity).
  wp_steps; zbool.
  2:{ match goal with H : negb _ = false |- _ => apply negb_false_iff, Z.eqb_eq in H; rewrite Hw2 in H end.
      by destruct Hsends. }
  eapply wp_mono; [apply send_packet_2_spec; [exact Hww2|]|].
  - rewrite Hw2. exact Hsent.
  - cbv beta. intros x w3 t3 (-> & -> & pk' & ->). split; [reflexivity|].
    split; [rewrite Hw2; reflexivity|]. split; [reflexivity|]. split; [exact Hkeys|].
    split; [exact Hv2|]. split; [exact Ha2|]. split; [exact Hr2|exact Hl2].
Qed.
End packet_1.

(** ** Packet 3/4: the group key *)

(** An element of the key data, and the one with the group key. *)
Definition elem (x : Z * list Z) : list Z := [x.1; zlen x.2] ++ x.2.
Definition gtk_kde (idx : Z) (gtk : list Z) : list Z := elem (0xDD, kde_type_gtk ++ [idx; 0] ++ gtk).

(** Elements that do not hold a group key. *)
Definition skipped (x : Z * list Z) : Prop :=
  zlen x.2 < 256 /\ (x.1 <> 0xDD \/ zlen x.2 < 22 \/ take 4 x.2 <> kde_type_gtk).

(** The group key as it is given to the card, in a buffer of 32 bytes: for TKIP
    the halves of the Michael key are swapped. *)
Definition gtk_stored (gtk old : list Z) : list Z :=
  if zlen gtk =? 32 then take 16 gtk ++ take 8 (drop 24 gtk) ++ take 8 (drop 16 gtk) else gtk ++ drop 16 old.

Lemma store_gtk_spec pre gtk post idx old :
  (zlen gtk = 16 \/ zlen gtk = 32) -> zlen old = 32 ->
  store_gtk (pre ++ gtk ++ post) (zlen gtk) idx (zlen pre) (zlen gtk) old = Some (Some (idx, gtk_stored gtk old)).
Proof.
  intros Hg Ho. unfold store_gtk, gtk_stored. rewrite Z.eqb_refl. cbn [negb].
  assert (forall off n, 0 <= off -> 0 <= n -> off + n <= zlen gtk ->
    aread (pre ++ gtk ++ post) (zlen pre + off) n = Some (take (Z.to_nat n) (drop (Z.to_nat off) gtk))) as Hr.
  { intros off n ???. rewrite aread_Some by (rewrite ?length_app; lia). f_equal.
    replace (Z.to_nat (zlen pre + off)) with (length pre + Z.to_nat off)%nat by lia.
    rewrite <- drop_drop, drop_app_length, drop_app_le by lia.
    rewrite take_app_le; [done|]. rewrite length_drop. lia. }
  pose proof (Hr 0 16 ltac:(lia) ltac:(lia) ltac:(lia)) as H0. rewrite Z.add_0_r in H0. rewrite H0, Some_bind.
  change (Z.to_nat 0) with 0%nat. change (Z.to_nat 16) with 16%nat. rewrite drop_0.
  assert (length (take 16 gtk) = 16%nat) as H16 by (rewrite length_take; lia).
  rewrite awrite_Some by lia. change (Z.to_nat 0) with 0%nat. rewrite Some_bind. cbn [take app].
  rewrite Z.add_0_l, Nat2Z.id, H16, take_0, app_nil_l.
  destruct Hg as [Hg|Hg]; rewrite Hg; cbn [Z.eqb Pos.eqb].
  - rewrite Some_bind, (take_ge gtk) by lia. done.
  - rewrite !Hr by lia. rewrite !Some_bind.
    change (Z.to_nat 8) with 8%nat. change (Z.to_nat 24) with 24%nat. change (Z.to_nat 16) with 16%nat.
    set (a := take 16 gtk) in *. set (b := take 8 (drop 24 gtk)). set (c := take 8 (drop 16 gtk)).
    assert (length b = 8%nat) by (unfold b; rewrite length_take, length_drop; lia).
    assert (length c = 8%nat) by (unfold c; rewrite length_take, length_drop; lia).
    rewrite <- (take_drop 8 (drop 16 old)), drop_drop.
    rewrite (awrite_parts a (take 8 (drop 16 old)) b); [|lia|rewrite length_take, length_drop; lia].
    rewrite Some_bind, (app_assoc a b).
    rewrite <- (app_nil_r (drop (16 + 8) old)), Some_bind.
    rewrite (awrite_parts (a ++ b) (drop (16 + 8) old) c []); [|rewrite length_app; lia|rewrite length_drop; lia].
    by rewrite Some_bind, app_nil_r, <- app_assoc.
Qed.

Lemma zget_at (pre l : list Z) i : 0 <= i -> zget (pre ++ l) (zlen pre + i) = zget l i.
Proof. intros. rewrite zget_app_r by lia. f_equal. lia. Qed.

Lemma zget_at0 (pre l : list Z) x : zget (pre ++ x :: l) (zlen pre) = Some x.
Proof. rewrite <- (Z.add_0_r (zlen pre)). by rewrite zget_at. Qed.

Lemma aread_at (pre l : list Z) off n : 0 <= off -> aread (pre ++ l) (zlen pre + off) n = aread l off n.
Proof.
  intros. unfold aread. rewrite length_app.
  replace (0 <=? zlen pre + off) with (0 <=? off) by (destruct (Z.leb_spec 0 off), (Z.leb_spec 0 (zlen pre + off)); lia).
  replace (zlen pre + off + n <=? Z.of_nat (length pre + length l)) with (off + n <=? zlen l)
    by (destruct (Z.leb_spec (off + n) (zlen l)), (Z.leb_spec (zlen pre + off + n) (Z.of_nat (length pre + length l))); lia).
  replace (Z.to_nat (zlen pre + off)) with (length pre + Z.to_nat off)%nat by lia.
  by rewrite <- drop_drop, drop_app_length.
Qed.

(** The parser of the key data finds the key behind other elements. *)
Lemma fetch_loop_spec els pre idx gtk post old fuel e :
  Forall (fun x => bytes (elem x)) els -> Forall skipped els ->
  (zlen gtk = 16 \/ zlen gtk = 32) -> zlen old = 32 -> Z.land idx 3 <> 0 ->
  let region := concat (elem <$> els) ++ gtk_kde idx gtk in
  zlen pre + zlen region <= e <= zlen (pre ++ region ++ post) -> e - zlen pre <= Z.of_nat fuel ->
  fetch_loop fuel (pre ++ region ++ post) (zlen pre) e (zlen gtk) old =
    Some (Some (Z.land idx 3, gtk_stored gtk old)).
Proof.
  intros Hb Hs Hg Ho Hi. revert pre fuel Hs. induction Hb as [|[id body] els Hx Hb IH]; intros pre fuel Hs region He Hf.
  - unfold region in *. cbn [fmap list_fmap concat app] in *. unfold gtk_kde, elem in *. cbn [fst snd] in *.
    rewrite !length_app in He. cbn [length] in He. rewrite ?length_app in He. cbn [length] in He.
    change (length kde_type_gtk) with 4%nat in He.
    set (K := zlen (kde_type_gtk ++ [idx; 0] ++ gtk)).
    assert (K = 6 + zlen gtk) as HK6 by (unfold K; rewrite !length_app; cbn [length]; change (length kde_type_gtk) with 4%nat; lia).
    clearbody K. set (tl := kde_type_gtk ++ [idx; 0] ++ gtk ++ post).
    assert (([221; K] ++ kde_type_gtk ++ [idx; 0] ++ gtk) ++ post = 221 :: K :: tl) as ->.
    { unfold tl. by rewrite <- !app_assoc. }
    destruct fuel as [|fuel]; [lia|]. cbn [fetch_loop]. destruct (Z.ltb_spec (zlen pre + 6) e); [|lia].
    rewrite (zget_at _ _ 1) by lia. change (zget (221 :: K :: tl) 1) with (Some K). rewrite Some_bind. cbv zeta.
    destruct (Z.ltb_spec e (zlen pre + (2 + K))); [lia|].
    rewrite zget_at0, Some_bind, aread_at by lia.
    assert (aread (221 :: K :: tl) 2 4 = Some kde_type_gtk) as ->.
    { unfold tl. apply (aread_parts [221; K] kde_type_gtk); done. }
    rewrite Some_bind. change (negb (221 =? 221)) with false. cbv iota.
    rewrite memcmp_l_refl. change (negb (0 =? 0)) with false. cbv iota.
    destruct (Z.ltb_spec (K + 2 - 6) (2 + 16)); [lia|].
    rewrite zget_at by lia. change (zget (221 :: K :: tl) 6) with (Some idx). rewrite Some_bind.
    destruct (Z.eqb_spec (Z.land idx 3) 0); [done|].
    replace (K + 2 - 6 - 2) with (zlen gtk) by lia.
    replace (pre ++ 221 :: K :: tl) with ((pre ++ [221; K] ++ kde_type_gtk ++ [idx; 0]) ++ gtk ++ post)
      by (unfold tl; rewrite <- !app_assoc; done).
    rewrite <- (store_gtk_spec (pre ++ [221; K] ++ kde_type_gtk ++ [idx; 0]) gtk post) by done.
    f_equal. rewrite !length_app. cbn [length]. change (length kde_type_gtk) with 4%nat. lia.
  - apply Forall_cons in Hs as [[Hl Hsk] Hs]. cbn [fst snd] in *.
    assert (region = elem (id, body) ++ concat (elem <$> els) ++ gtk_kde idx gtk) as Hreg.
    { unfold region. cbn [fmap list_fmap concat]. by rewrite <- app_assoc. }
    set (region' := concat (elem <$> els) ++ gtk_kde idx gtk) in *.
    rewrite Hreg in *. clearbody region.
    assert (zlen (elem (id, body)) = 2 + zlen body) as Hel by (unfold elem; cbn [fst snd app length]; lia).
    assert (24 <= zlen region') as Hrl.
    { unfold region', gtk_kde, elem. rewrite !length_app. cbn [fst snd]. rewrite !length_app. cbn [length].
      change (length kde_type_gtk) with 4%nat. lia. }
    rewrite !length_app in He. destruct fuel as [|fuel]; [lia|]. cbn [fetch_loop].
    destruct (Z.ltb_spec (zlen pre + 6) e); [|lia]. rewrite <- app_assoc.
    rewrite (zget_at _ _ 1) by lia. change (zget (elem (id, body) ++ region' ++ post) 1) with (Some (zlen body)).
    rewrite Some_bind. cbv zeta. destruct (Z.ltb_spec e (zlen pre + (2 + zlen body))); [lia|].
    change (elem (id, body) ++ region' ++ post) with (id :: zlen body :: body ++ region' ++ post).
    rewrite zget_at0, Some_bind.
    change (id :: zlen body :: body ++ region' ++ post) with (elem (id, body) ++ region' ++ post).
    rewrite aread_at by lia. rewrite aread_Some by (rewrite ?length_app; lia). rewrite Some_bind.
    change (drop (Z.to_nat 2) (elem (id, body) ++ region' ++ post)) with (body ++ region' ++ post).
    change (Z.to_nat 4) with 4%nat.
    assert (fetch_loop fuel (pre ++ elem (id, body) ++ region' ++ post) (zlen pre + (2 + zlen body)) e (zlen gtk) old =
      Some (Some (Z.land idx 3, gtk_stored gtk old))) as Hnext.
    { rewrite (app_assoc pre). replace (zlen pre + (2 + zlen body)) with (zlen (pre ++ elem (id, body)))
        by (rewrite length_app; lia).
      apply IH; [done|rewrite ?length_app in *; lia|rewrite length_app; lia]. }
    destruct (Z.eqb_spec id 0xDD); cbn [negb]; [|exact Hnext].
    destruct (Z.eqb_spec (memcmp_l (take 4 (body ++ region' ++ post)) kde_type_gtk) 0) as [Hm|]; cbn [negb]; [|exact Hnext].
    destruct (Z.ltb_spec (zlen body + 2 - 6) (2 + 16)); [exact Hnext|].
    exfalso. destruct Hsk as [?|[?|Ht]]; [done|lia|]. apply Ht.
    rewrite take_app_le in Hm by lia. apply memcmp_l_num; [rewrite length_take; change (length kde_type_gtk) with 4%nat; lia| |by repeat constructor|done].
    apply Forall_take. apply Forall_cons in Hx as [_ Hx]. by apply Forall_cons in Hx as [_ Hx].
Qed.

(** The key data of packet 3/4: elements, the group key, padding; wrapped with
    the KEK behind the check value of RFC 3394. *)
Definition key_data (els : list (Z * list Z)) (idx : Z) (gtk post : list Z) : list Z :=
  (concat (elem <$> els) ++ gtk_kde idx gtk) ++ post.
Definition wrapped (kek data : list Z) : list Z :=
  let buf := iv ++ data in layout (kw_wrap kek buf (zlen buf)) (kw_rest buf (zlen buf)).

Record key_data_ok (els : list (Z * list Z)) (idx : Z) (gtk post : list Z) : Prop := {
  kd_els : Forall (fun x => bytes (elem x)) els; kd_skip : Forall skipped els;
  kd_gtk : zlen gtk = 16 \/ zlen gtk = 32; kd_idx : Z.land idx 3 <> 0;
  kd_bytes : bytes (key_data els idx gtk post); kd_pad : zlen (key_data els idx gtk post) mod 8 = 0;
  kd_size : zlen (key_data els idx gtk post) <= 900 }.

Lemma unwrap_key_spec kek hdr data rest :
  arr 16 kek -> bytes data -> zlen data mod 8 = 0 -> 8 <= zlen data <= 900 ->
  bytes (wrapped kek data) /\ zlen (wrapped kek data) = 8 + zlen data /\
  unwrap_key kek (hdr ++ wrapped kek data ++ rest) (zlen hdr) (8 + zlen data) =
    Some (hdr ++ (iv ++ data) ++ rest, 0).
Proof.
  intros [Hk Hkb] Hb Hm Hl. assert (zlen (iv ++ data) = 8 + zlen data) as Hlb by (rewrite length_app; simpl; lia).
  destruct (unwrap_wrapped kek (iv ++ data) (zlen (iv ++ data))) as (Hwb & Hwl & Hu);
    [split; [lia|done]|apply Forall_app_2; [by repeat constructor|done]|lia|lia|].
  fold (wrapped kek data) in Hwb, Hwl, Hu. split; [done|]. split; [lia|].
  unfold unwrap_key. rewrite Z.rem_mod_nonneg by lia.
  replace ((8 + zlen data) mod 8) with (zlen data mod 8) by
    (replace (8 + zlen data) with (zlen data + 1 * 8) by lia; by rewrite Z.mod_add by lia).
  rewrite Hm. cbn [Z.eqb negb orb]. destruct (Z.ltb_spec (8 + zlen data) 16); [lia|].
  rewrite (aread_parts hdr (wrapped kek data) rest) by (done || lia). rewrite Some_bind, <- Hlb, Hu, Some_bind.
  rewrite (awrite_parts hdr (wrapped kek data) (iv ++ data) rest) by (done || lia). rewrite Some_bind.
  rewrite <- app_assoc. rewrite (aread_parts hdr iv (data ++ rest)) by done. by rewrite Some_bind.
Qed.

(** The header before the data. *)
Definition ek_header v ty ki kl rp nonce eiv rsc res mic (n : Z) : list Z :=
  concat [[v]; [3]; be_bytes 2 (95 + n); [ty]; be_bytes 2 ki; be_bytes 2 kl; rp; nonce; eiv; rsc; res; mic;
    be_bytes 2 n].

Lemma frame_header v ty ki kl rp nonce eiv rsc res mic data :
  frame v ty ki kl rp nonce eiv rsc res mic data =
    ek_header v ty ki kl rp nonce eiv rsc res mic (zlen data) ++ data.
Proof. unfold frame, ek_fields, ek_header. cbn [concat]. by rewrite !app_nil_r, <- !app_assoc. Qed.

Lemma zlen_header v ty ki kl rp nonce eiv rsc res mic data :
  frame_ok v ty ki kl rp nonce eiv rsc res mic data ->
  zlen (ek_header v ty ki kl rp nonce eiv rsc res mic (zlen data)) = 99.
Proof.
  intros Hok. pose proof (zlen_frame _ _ _ _ _ _ _ _ _ _ _ Hok) as H. rewrite frame_header, length_app in H. lia.
Qed.

Lemma take_gtk_spec w t v ki kl an rp rsc res eiv els idx gtk post rest :
  let data := key_data els idx gtk post in
  let f d := frame v 2 ki kl rp an eiv rsc res (repeat 0 16) d ++ rest in
  ws_wf w -> key_data_ok els idx gtk post ->
  frame_ok v 2 ki kl rp an eiv rsc res (repeat 0 16) (wrapped (KEK (w_eap w)) data) ->
  packet (w_eap w) = f (wrapped (KEK (w_eap w)) data) -> gtklen (w_ap w) = zlen gtk ->
  take_gtk w t = Some (true,
    w <| w_eap ::= fun e => e <| packet := f (iv ++ data) |> |>
      <| w_eap ::= fun e => e <| gtkindex := Z.land idx 3 |> <| GTK := gtk_stored gtk (GTK e) |>
           <| RSC := take 6 rsc |> <| replay := rp |> |>, t).
Proof.
  intros data f Hw Hkd Hok Hpk Hgl.
  cut (wp take_gtk w t (fun x w' t' => Some (x, w', t') = Some (true,
    w <| w_eap ::= fun e => e <| packet := f (iv ++ data) |> |>
      <| w_eap ::= fun e => e <| gtkindex := Z.land idx 3 |> <| GTK := gtk_stored gtk (GTK e) |>
           <| RSC := take 6 rsc |> <| replay := rp |> |>, t))).
  { unfold wpf. by destruct (take_gtk w t) as [[[? ?] ?]|]. }
  destruct Hkd as [Hels Hskip Hgtk Hidx Hdb Hpad Hsz]. fold data in Hdb, Hpad, Hsz. open_wf Hw.
  assert (24 <= zlen data) as Hd24.
  { unfold data, key_data, gtk_kde, elem. rewrite !length_app. cbn [fst snd]. rewrite !length_app. cbn [length].
    change (length kde_type_gtk) with 4%nat. lia. }
  set (hdr := ek_header v 2 ki kl rp an eiv rsc res (repeat 0 16) (8 + zlen data)).
  assert (forall d, zlen d = 8 + zlen data -> f d = hdr ++ d ++ rest) as Hf.
  { intros d Hd. unfold f, hdr. by rewrite frame_header, Hd, <- app_assoc. }
  destruct (unwrap_key_spec (KEK (w_eap w)) hdr data rest WKEK Hdb Hpad) as (_ & Hwl & Hu); [lia|].
  destruct (get_fields _ _ _ _ _ _ _ _ _ _ _ rest Hok) as (_ & _ & _ & _ & _ & Hpl & _). fold (f (wrapped (KEK (w_eap w)) data)) in Hpl.
  unfold take_gtk. wp_step. wp_step. wp_step. wp_step. wp_step. rewrite Hpk.
  apply fmap_Some in Hpl as (lp & Hlp & Hpl). rewrite Hlp.
  eapply wp_pure_Some; [exact eq_refl|]. cbv zeta. rewrite <- Hpl, Hwl, (Hf _ Hwl).
  assert (zlen hdr = 99) as Hh by (unfold hdr; rewrite <- Hwl; by apply zlen_header).
  wp_step. change ek_payload with 99. rewrite <- Hh. eapply wp_pure_Some; [exact Hu|]. unfold set_eap. wp_step. wp_step.
  change (negb (0 =? 0)) with false. cbv iota. rewrite Hgl.
  wp_step. replace (8 + zlen data - 8) with (zlen data) by lia.
  assert (zlen (iv ++ data) = 8 + zlen data) as Hid by (rewrite length_app; cbn [length]; change (length iv) with 8%nat; lia).
  assert (fetch_gtk (hdr ++ (iv ++ data) ++ rest) (zlen hdr + 8) (zlen data) (zlen gtk) (GTK (w_eap w)) =
    Some (Some (Z.land idx 3, gtk_stored gtk (GTK (w_eap w))))) as ->.
  { unfold fetch_gtk, data, key_data.
    replace (hdr ++ (iv ++ (concat (elem <$> els) ++ gtk_kde idx gtk) ++ post) ++ rest)
      with ((hdr ++ iv) ++ (concat (elem <$> els) ++ gtk_kde idx gtk) ++ post ++ rest) by (by rewrite <- !app_assoc).
    replace (zlen hdr + 8) with (zlen (hdr ++ iv)) by (rewrite length_app; change (length iv) with 8%nat; lia).
    destruct WGTK as [Hgl' _].
    apply fetch_loop_spec; try done; [rewrite !length_app; lia|lia]. }
  eapply wp_pure_Some; [exact eq_refl|].
  rewrite <- (Hf _ Hid). 
  destruct (get_fields v 2 ki kl rp an eiv rsc res (repeat 0 16) (iv ++ data) rest) as (_ & _ & _ & _ & _ & _ & Hr & _ & Hs & _).
  { destruct Hok. split; try done; [apply Forall_app_2; [by repeat constructor|done]|lia]. }
  fold (f (iv ++ data)) in Hr, Hs.
  wp_step. rewrite Hs. eapply wp_pure_Some; [exact eq_refl|]. wp_step. rewrite Hr. eapply wp_pure_Some; [exact eq_refl|].
  wp_steps. reflexivity.
Qed.

(** ** Packet 4/4 and the keys *)

Lemma genl_message_small type flags seq cmd ver l :
  Forall (fun x => zlen (nl_data x) <= 32) l -> zlen (genl_message type flags seq cmd ver l) <= 20 + 39 * zlen l.
Proof.
  intros Hl. assert (zlen (concat (map nl_enc l)) <= 39 * zlen l) as Hc.
  { induction Hl as [|x l Hx _ IH]; [done|]. cbn [map concat]. rewrite length_app, Nat2Z.inj_add, length_nl_enc.
    pose proof (align4_bounds (zlen (nl_data x) + 4)). cbn [length]. lia. }
  unfold genl_message. rewrite !length_app, !length_le_bytes. cbn [length]. lia.
Qed.

(** The requests of [upload_ptk] and [upload_gtk]. *)
Definition ptk_req (w : ws) : wcall :=
  NlSend (netlink (w_nl w)) (nl80211 (w_nl w)) 0 (s32 (nlseq (w_nl w))) 11
    [NInt 3 (ifindex (w_op w)); NPut 6 (bssid (w_ap w)); NByte 8 0; NInt 9 (pairwise (w_ap w));
     NPut 7 (PTK (w_eap w)); NPut 10 (repeat 0 6); NNest 110 [NFlag 1]].
Definition gtk_req (w : ws) : wcall :=
  NlSend (netlink (w_nl w)) (nl80211 (w_nl w)) 0 (s32 (nlseq (w_nl w))) 11
    [NInt 3 (ifindex (w_op w)); NByte 8 (gtkindex (w_eap w)); NInt 9 (group (w_ap w));
     NPut 7 (take (Z.to_nat (gtklen (w_ap w))) (GTK (w_eap w))); NPut 10 (RSC (w_eap w)); NNest 110 [NFlag 2]].
Definition next_nlseq (w : ws) : ws := w <| w_nl ::= fun n => n <| nlseq := u32 (nlseq n + 1) |> |>.

Lemma nl_send_ok w t seq cmd attrs :
  Forall (fun x => zlen (nl_data x) <= 32) attrs -> zlen attrs <= 8 ->
  let c := NlSend (netlink (w_nl w)) (nl80211 (w_nl w)) 0 seq cmd attrs in
  nl_send 0 seq cmd attrs w t = Some (s32 (ret (kern t c)), w, t ++ [(c, kern t c)]).
Proof.
  intros Ha Hl c. unfold nl_send, mbind, prog_bind, get.
  pose proof (genl_message_small (nl80211 (w_nl w)) 0 seq cmd 0 attrs Ha).
  rewrite (proj2 (Z.ltb_ge _ _)) by lia. done.
Qed.

Lemma upload_ptk_ok w t :
  zlen (PTK (w_eap w)) = 16 -> zlen (bssid (w_ap w)) = 6 ->
  upload_ptk w t = Some (s32 (ret (kern t (ptk_req w))), next_nlseq w, t ++ [(ptk_req w, kern t (ptk_req w))]).
Proof.
  intros. unfold upload_ptk, next_seq, set_nl.
  apply (nl_send_ok (next_nlseq w) t); [|simpl; lia].
  rewrite !Forall_cons, Forall_nil. cbn [nl_data]. rewrite ?length_le_bytes, ?repeat_length.
  split_and!; simpl; lia || done.
Qed.

Lemma upload_gtk_ok w t :
  zlen (GTK (w_eap w)) = 32 -> zlen (RSC (w_eap w)) = 6 -> 0 <= gtklen (w_ap w) <= 32 ->
  upload_gtk w t = Some (s32 (ret (kern t (gtk_req w))), next_nlseq w, t ++ [(gtk_req w, kern t (gtk_req w))]).
Proof.
  intros. unfold upload_gtk, next_seq, set_nl.
  set (attrs := [NInt 3 (ifindex (w_op w)); NByte 8 (gtkindex (w_eap w)); NInt 9 (group (w_ap w));
    NPut 7 (take (Z.to_nat (gtklen (w_ap w))) (GTK (w_eap w))); NPut 10 (RSC (w_eap w)); NNest 110 [NFlag 2]]).
  assert (nl_send 0 (s32 (nlseq (w_nl w))) 11 attrs (next_nlseq w) t =
    Some (s32 (ret (kern t (gtk_req w))), next_nlseq w, t ++ [(gtk_req w, kern t (gtk_req w))])) as Hs.
  { apply (nl_send_ok (next_nlseq w) t); [|simpl; lia]. unfold attrs.
    rewrite !Forall_cons, Forall_nil. cbn [nl_data]. rewrite ?length_le_bytes, ?length_take.
    split_and!; simpl; lia || done. }
  rewrite <- Hs. unfold mbind, prog_bind, get, modify, pure, mret, prog_ret.
  change (GTK (w_eap (id _))) with (GTK (w_eap w)). change (gtklen (w_ap (id _))) with (gtklen (w_ap w)).
  rewrite aread_Some by lia. done.
Qed.

(** A call and its reply at the end of a trace. *)
Definition after (t : trace wcall) (c : wcall) : trace wcall := t ++ [(c, kern t c)].

Lemma send_packet_4_spec w t :
  ws_wf w ->
  let e := w_eap w in
  let pkt := reply_frame (KCK e) (version e) 0x30A 0 (replay e) (repeat 0 32) [] in
  let c4 := Sendto (rawsock (w_op w)) pkt (amac e) in
  let t1 := after t c4 in
  let c5 := ptk_req w in
  let t2 := after t1 c5 in
  let c6 := gtk_req (next_nlseq w) in
  let t3 := after t2 c6 in
  s32 (ret (kern t c4)) = zlen pkt -> 0 <= s32 (ret (kern t1 c5)) -> 0 <= s32 (ret (kern t2 c6)) ->
  exists pk, forall Q,
    wp (cleanup_keys;; eapol_success;; mret 0)
      (next_nlseq (next_nlseq (w <| w_eap ::= fun e => e <| packet := pk |> |>
         <| w_eap ::= fun e => e <| eapolstate := ES_NEGOTIATED |> |>))) t3 Q ->
    wp send_packet_4 w t Q.
Proof.
  intros Hw e pkt c4 t1 c5 t2 c6 t3 Hr4 Hr5 Hr6. subst e. pose proof Hw as Hw'. open_wf Hw.
  pose proof WPacket as [Hpl Hpb]. pose proof WReplay as [Hrl Hrb].
  destruct (packet_parts (packet (w_eap w)) 0 Hpl) as (ps & Hpk & Hps & Hlen & Hd); [lia|].
  set (rest := nth 14 ps []). exists (pkt ++ rest). intros Q HQ. unfold send_packet_4, set_eap. wp_step. wp_step. wp_step.
  rewrite Hpk, put_fields_parts by (done || lia). open_parts Hps.
  do 2 (destruct ps as [|? ps]; [discriminate Hlen|]). destruct ps; [|discriminate Hlen]. clear Hlen.
  cbn [nth] in Hd, rest. cbn [nth drop app].
  match type of Hd with length ?x = _ => destruct x; [clear Hd|discriminate Hd] end.
  eapply wp_pure_Some; [exact eq_refl|]. wp_step. unfold put16. rewrite !be16_htons.
  put_part 12%nat. eapply wp_pure_Some; [exact eq_refl|]. cbv zeta. wp_step.
  put_part 2%nat. eapply wp_pure_Some; [exact eq_refl|]. wp_step.
  change (Z.lor (Z.lor (Z.lor KI_SHA KI_PAIRWISE) KI_MIC) KI_SECURE) with 0x30A.
  rewrite (finish_frame _ _ (version (w_eap w)) 0x30A 0 (replay (w_eap w)) (repeat 0 32) [] rest);
    [|lia|done|done|constructor|done|done|by apply bytes_repeat|done|done|exact eq_refl].
  fold pkt. eapply wp_pure_Some; [exact eq_refl|]. wp_steps.
  assert (zlen pkt = eksize) as Hpz by (unfold pkt; rewrite zlen_reply_frame by (done || lia); done).
  eapply wp_eq; [apply (send_packet_ok pkt rest); [done|by rewrite <- Hpz]|]. fold c4 (after t c4) t1.
  change (eksize <? 0) with false. cbv iota. wp_step. wp_step. wp_step.
  match goal with |- wpf _ _ ?s _ _ => set (w1 := s) end.
  eapply wp_eq; [apply upload_ptk_ok; [apply WPTK|apply WBssid]|].
  change (ptk_req w1) with c5. fold (after t1 c5) t2.
  rewrite (proj2 (Z.ltb_ge _ _)) by done. wp_step.
  eapply wp_eq; [apply upload_gtk_ok; [apply WGTK|apply WRSC|exact WGtklen]|].
  change (gtk_req (next_nlseq w1)) with c6. fold (after t2 c6) t3.
  rewrite (proj2 (Z.ltb_ge _ _)) by done. exact HQ.
Qed.

Lemma blank_frame v ki kl rp an eiv rsc res mic data rest :
  frame_ok v 2 ki kl rp an eiv rsc res mic data ->
  let f m := frame v 2 ki kl rp an eiv rsc res m data ++ rest in
  blank (f mic) = f (repeat 0 16) /\ take 16 (drop 81 (f mic)) = mic.
Proof.
  intros Hok f. destruct Hok as [? ? ? [? ?] [? ?] [? ?] [? ?] [? ?] [? ?] ? ?].
  set (h := concat [[v]; [3]; be_bytes 2 (95 + zlen data); [2]; be_bytes 2 ki; be_bytes 2 kl; rp; an; eiv; rsc; res]).
  set (tl := be_bytes 2 (zlen data) ++ data ++ rest).
  assert (forall m, f m = h ++ m ++ tl) as Hf.
  { intros m. unfold f, frame, ek_fields, h, tl. cbn [concat]. by rewrite !app_nil_r, <- !app_assoc. }
  assert (length h = 81%nat) as Hh by (unfold h; apply Nat2Z.inj; part_len).
  rewrite !Hf. unfold blank. rewrite take_app_le, take_ge by lia. rewrite !drop_app_ge by lia. rewrite Hh.
  split; [|rewrite Nat.sub_diag, drop_0, take_app_le, take_ge by lia; done].
  do 2 f_equal. replace (97 - 81 - length mic)%nat with 0%nat by lia. done.
Qed.

(** What the card is given: the key as it is stored, without the rest of the buffer. *)
Definition gtk_installed (gtk : list Z) : list Z :=
  if zlen gtk =? 32 then take 16 gtk ++ take 8 (drop 24 gtk) ++ take 8 (drop 16 gtk) else gtk.

Lemma gtk_stored_installed gtk old :
  zlen gtk = 16 \/ zlen gtk = 32 -> take (length gtk) (gtk_stored gtk old) = gtk_installed gtk.
Proof.
  intros Hg. unfold gtk_stored, gtk_installed. destruct (Z.eqb_spec (zlen gtk) 32).
  - apply take_ge. rewrite !length_app, !length_take, !length_drop. lia.
  - apply take_app_length.
Qed.

Section packet_3.
Context (w : ws) (t : trace wcall) (v ki kl idx : Z) (rp eiv rsc res gtk post : list Z) (els : list (Z * list Z)).
Let e := w_eap w.
Let data := wrapped (KEK e) (key_data els idx gtk post).
Let msg := signed (KCK e) v ki kl rp (anonce e) eiv rsc res data.
Context (Hw : ws_wf w) (Hv : 0 <= v < 256) (Hkr : 0 <= ki < 2 ^ 16) (Hki : ki_is ki 0x1388).
Context (Hrp : arr 8 rp) (Heiv : arr 16 eiv) (Hrsc : arr 8 rsc) (Hres : arr 8 res).
Context (Hkd : key_data_ok els idx gtk post) (Hgl : gtklen (w_ap w) = zlen gtk).
Context (Hnew : be_value (replay e) < be_value rp).

Let answer := reply_frame (KCK e) (version e) 0x30A 0 rp (repeat 0 32) [].
Let c4 := Sendto (rawsock (w_op w)) answer (amac e).
Let t1 := after t c4.
Let c5 := ptk_req w.
Let t2 := after t1 c5.
Let c6 := NlSend (netlink (w_nl w)) (nl80211 (w_nl w)) 0 (s32 (u32 (nlseq (w_nl w) + 1))) 11
  [NInt 3 (ifindex (w_op w)); NByte 8 (Z.land idx 3); NInt 9 (group (w_ap w));
   NPut 7 (gtk_installed gtk); NPut 10 (take 6 rsc); NNest 110 [NFlag 2]].
Let t3 := after t2 c6.
Context (H4 : s32 (ret (kern t c4)) = zlen answer) (H5 : 0 <= s32 (ret (kern t1 c5))) (H6 : 0 <= s32 (ret (kern t2 c6))).

Lemma signed_ok mic : arr 16 mic -> frame_ok v 2 ki kl rp (anonce e) eiv rsc res mic data.
Proof.
  intros Hm. destruct Hkd as [_ _ _ _ Hdb Hpad Hsz]. open_wf Hw.
  destruct (unwrap_key_spec (KEK e) [] (key_data els idx gtk post) [] WKEK Hdb Hpad) as (Hwb & Hwl & _).
  { split; [|done]. unfold key_data, gtk_kde, elem. rewrite !length_app. cbn [fst snd]. rewrite !length_app. cbn [length].
    change (length kde_type_gtk) with 4%nat. lia. }
  split; try done. unfold data. lia.
Qed.

Lemma signed_frame :
  let mic := mic_of (KCK e) (frame v 2 ki kl rp (anonce e) eiv rsc res (repeat 0 16) data) in
  msg = frame v 2 ki kl rp (anonce e) eiv rsc res mic data /\
  frame_ok v 2 ki kl rp (anonce e) eiv rsc res mic data.
Proof.
  split; [done|]. apply signed_ok. split; [by rewrite length_mic_of|]. apply Forall_take, arr_hmac_sha1.
Qed.

Lemma recv_packet_3_spec :
  exists pk, forall Q,
    wp (cleanup_keys;; eapol_success;; mret 0)
      (next_nlseq (next_nlseq (w <| w_eap ::= fun e => e <| packet := pk |> <| gtkindex := Z.land idx 3 |>
           <| GTK := gtk_stored gtk (GTK e) |> <| RSC := take 6 rsc |> <| replay := rp |>
           <| eapolstate := ES_NEGOTIATED |> |>))) t3 Q ->
    wp recv_packet_3 (with_msg w msg) t Q.
Proof.
  set (z := repeat 0 16). assert (arr 16 z) as Hz by (by apply (arr_repeat0 16)).
  set (f m := frame v 2 ki kl rp (anonce e) eiv rsc res m data). set (mic := mic_of (KCK e) (f z)).
  assert (arr 16 mic) as Hmic.
  { split; [unfold mic; by rewrite length_mic_of|]. apply Forall_take, arr_hmac_sha1. }
  pose proof (signed_ok mic Hmic) as Hok. pose proof (signed_ok z Hz) as Hokz.
  change msg with (f mic) in *. clear msg.
  pose proof (arr_frame _ _ _ _ _ _ _ _ _ _ _ Hok) as Hma. fold (f mic) in Hma.
  pose proof (ok_size _ _ _ _ _ _ _ _ _ _ _ Hok) as Hsz. pose proof (proj1 Hma) as Hml. 
  assert (ws_wf (with_msg w (f mic))) as Hwm by (apply wf_with_msg; [done|rewrite Hml; done|lia]).
  set (old := drop (length (f mic)) (packet (w_eap w))).
  destruct (get_fields _ _ _ _ _ _ _ _ _ _ _ old Hok)
    as (_ & _ & _ & Hpc & Hk & _ & Hr & Hn & _). fold (f mic) in Hpc, Hk, Hr, Hn.
  destruct (blank_frame _ _ _ _ _ _ _ _ _ _ old Hok) as [Hbl Hmc]. fold (f mic) in Hbl, Hmc. fold z (f z) in Hbl.
  set (w3 := (with_msg w (f mic)) <| w_eap ::= fun e => e <| packet := f z ++ old |> |>).
  set (w4 := w3 <| w_eap ::= fun e => e <| packet := frame v 2 ki kl rp (anonce (w_eap w)) eiv rsc res (repeat 0 16)
                (iv ++ key_data els idx gtk post) ++ old |> |>
    <| w_eap ::= fun e => e <| gtkindex := Z.land idx 3 |> <| GTK := gtk_stored gtk (GTK e) |>
           <| RSC := take 6 rsc |> <| replay := rp |> |>).
  assert (bytes old) as Hob by (apply Forall_drop; by destruct (wf_packet _ (wf_eap _ Hw))).
  assert (zlen old = 1024 - zlen (f mic)) as Hol.
  { unfold old. rewrite length_drop. destruct (wf_packet _ (wf_eap _ Hw)). lia. }
  assert (ws_wf w3) as Hw3.
  { assert (arr 1024 (f z ++ old)) by (rewrite <- Hbl; apply arr_blank; [|lia]; split;
      [rewrite length_app; lia|apply Forall_app_2; [apply Hma|done]]).
    open_wf Hwm. close_wf. }
  assert (take_gtk w3 t = Some (true, w4, t)) as Hte.
  { apply (take_gtk_spec w3 t v ki kl (anonce (w_eap w)) rp rsc res eiv els idx gtk post old); done. }
  assert (ws_wf w4) as Hw4.
  { assert (paylen_ok (packet (w_eap w3))) as Hpo.
    { destruct (get_fields _ _ _ _ _ _ _ _ _ _ _ old Hokz) as (_ & _ & _ & _ & _ & Hpp & _).
      fold (f z) in Hpp. unfold paylen_ok. change (packet (w_eap w3)) with (f z ++ old).
      apply fmap_Some in Hpp as (lp & Hlp & Hpp).
      exists lp. rewrite <- Hpp. unfold eksize. split; [done|lia]. }
    pose proof (take_gtk_wp (F := False) w3 t Hw3 Hpo) as Hx. unfold wpf in Hx. by rewrite Hte in Hx. }
  assert (gtk_req (next_nlseq w4) = c6) as Hc6.
  { unfold c6. rewrite <- (gtk_stored_installed gtk (GTK (w_eap w))) by apply Hkd.
    rewrite <- (Nat2Z.id (length gtk)), <- Hgl. reflexivity. }
  destruct (send_packet_4_spec w4 t Hw4) as [pk Hpk]; [exact H4|exact H5|rewrite Hc6; exact H6|].
  exists pk. intros Q HQ.
  unfold recv_packet_3. wp_step. wp_step. cbv zeta.
  change (packet (w_eap (with_msg w (f mic)))) with (f mic ++ old).
  apply fmap_Some in Hpc as (lc & Hlc & Hpc). rewrite Hlc.
  wp_step. eapply wp_pure_Some; [exact eq_refl|]. rewrite <- Hpc. destruct Hki as [Hk1 Hk2].
  wp_step. eapply wp_pure_Some; [by apply (ptype_frame _ _ _ false Hk Hk1); apply Z.eqb_neq; rewrite Hk2|]. cbv iota.
  wp_step. eapply wp_pure_Some; [by apply (ptype_frame _ _ _ true Hk Hk1); apply Z.eqb_eq|]. cbn [negb].
  wp_step. rewrite Hn. eapply wp_pure_Some; [exact eq_refl|].
  change (anonce (w_eap (with_msg w (f mic)))) with (anonce e). rewrite memcmp_l_refl. change (negb (0 =? 0)) with false. cbv iota.
  wp_step. rewrite Hr. eapply wp_pure_Some; [exact eq_refl|].
  change (replay (w_eap (with_msg w (f mic)))) with (replay e).
  pose proof (memcmp_l_lt 8 (replay e) rp (wf_replay _ (wf_eap _ Hw)) Hrp) as Hlt.
  rewrite (proj2 (Z.ltb_lt _ _) Hnew) in Hlt. apply Z.ltb_lt in Hlt. rewrite (proj2 (Z.leb_gt _ _)) by done.
  change (KCK (w_eap (with_msg w (f mic)))) with (KCK e).
  destruct (check_mic_spec (KCK e) 1024 (f mic ++ old) (4 + (95 + zlen data))) as (r & Hcm & Hr0);
    [apply (wf_KCK _ (wf_eap _ Hw))| |lia|lia|lia|].
  { split; [rewrite length_app; lia|apply Forall_app_2; [apply Hma|done]]. }
  rewrite Hcm, Hbl in *. assert (r = 0) as ->.
  { apply Hr0. rewrite Hmc. unfold mic. do 2 f_equal. symmetry.
    replace (Z.to_nat (4 + (95 + zlen data))) with (length (f z)); [apply take_app_length|].
    pose proof (zlen_frame _ _ _ _ _ _ _ _ _ _ _ Hokz) as Hzl. fold (f z) in Hzl. lia. }
  wp_step. eapply wp_pure_Some; [exact eq_refl|]. unfold set_eap. wp_step. wp_step.
  change (negb (0 =? 0)) with false. cbv iota. wp_step. eapply wp_eq; [exact Hte|]. cbn [negb].
  apply Hpk. rewrite Hc6. exact HQ.
Qed.
End packet_3.
End fourway.

(** ** Theorems *)

Section theorems.
Context `{HK : !Kern wcall} `{HL : !Locals}.

Lemma dispatch_wp w t Q (m : W Z) st :
  eapolstate (w_eap w) = st ->
  (if st =? ES_WAITING_1_4 then recv_packet_1 else if st =? ES_WAITING_3_4 then recv_packet_3
   else if st =? ES_NEGOTIATED then recv_group_1 else mret 0) = m ->
  wp m w t Q -> wp eapol_dispatch w t Q.
Proof. intros <- <- H. unfold eapol_dispatch. wp_step. wp_step. exact H. Qed.

Lemma run_tail w t w' t' :
  (cleanup_keys;; eapol_success) w t = Some (tt, w', t') ->
  (cleanup_keys;; eapol_success;; mret 0) w t = Some (0, w', t').
Proof.
  unfold mbind, prog_bind. destruct (cleanup_keys w t) as [[[[] ?] ?]|]; [|done]. by intros ->.
Qed.

(** C8. Packet 1/4 is answered as the standard says: the supplicant takes over
    the nonce and the replay counter, derives KCK, KEK and TK with the PRF of
    IEEE 802.11 from the PMK, both addresses and both nonces, sends a packet 2/4
    with its nonce, its information elements and the integrity code under that
    KCK, and waits for packet 3/4. *)
Theorem packet_1_answered w t v ki kl an rp eiv rsc res mic data :
  let e := w_eap w in
  let msg := frame v 2 ki kl rp an eiv rsc res mic data in
  let ptk := ptk_of (PSK e) (bssid (w_ap w)) (ifaddr (w_op w)) an (snonce e) in
  let answer := reply_frame (take 16 ptk) v 0x10A 16 rp (snonce e) (default [] (txies (w_ap w))) in
  let c := Sendto (rawsock (w_op w)) answer (bssid (w_ap w)) in
  let t1 := received w t in
  ws_wf w -> eapolstate e = ES_WAITING_1_4 -> eapolsends e <> 0 ->
  frame_ok v 2 ki kl rp an eiv rsc res mic data -> ki_is ki 0x88 -> delivered w t msg ->
  s32 (ret (kern t1 c)) = zlen answer ->
  exists w', handle_rawsock w t = Some (tt, w', after t1 c) /\
    eapolstate (w_eap w') = ES_WAITING_3_4 /\ has_keys (w_eap w') ptk /\ version (w_eap w') = v /\
    anonce (w_eap w') = an /\ replay (w_eap w') = rp /\ same_link w w'.
Proof.
  intros e msg ptk answer c t1 Hw Hst Hs Hok Hki Hd Hr.
  cut (wp handle_rawsock w t (fun _ w' t' => t' = after t1 c /\ eapolstate (w_eap w') = ES_WAITING_3_4 /\
    has_keys (w_eap w') ptk /\ version (w_eap w') = v /\ anonce (w_eap w') = an /\ replay (w_eap w') = rp /\
    same_link w w')).
  { intros ([] & w' & t' & Hh & -> & H)%wp_run. by exists w'. }
  apply (handle_rawsock_frame w t v 2 ki kl rp an eiv rsc res mic data); [done..|].
  apply (dispatch_wp _ _ _ recv_packet_1 ES_WAITING_1_4); [exact Hst|done|].
  eapply wp_mono; [by apply (recv_packet_1_spec w (received w t) v ki kl an rp eiv rsc res mic data)|].
  cbv beta. intros x w' t' (-> & -> & H). by wp_steps.
Qed.

End theorems.

(** ** A handshake with concrete keys *)

Definition demo_mac : list Z := [2; 0; 0; 0; 0; 1].
Definition demo_aa : list Z := [2; 0; 0; 0; 0; 2].
Definition demo_nonce (x : Z) : list Z := repeat x 32.
Definition demo_gtk : list Z := [1; 2; 3; 4; 5; 6; 7; 8; 9; 10; 11; 12; 13; 14; 15; 16].

Definition demo_ws (state : Z) : ws :=
  Ws (Ap 4 (repeat 0 32) (Some ies_ccmp_ccmp) 22 16 0x000FAC02 0x000FAC04 0x000FAC04 demo_aa 2412 0 0 0)
     (Eapol state 1 2 demo_aa demo_mac (demo_nonce 0xA1) (demo_nonce 0x51) (repeat 0 8) (repeat 7 32)
        (repeat 1 16) (repeat 2 16) (repeat 3 16) (repeat 0 32) (repeat 0 6) 0 (repeat 0 1024))
     (Netl 3 1 28 1 AS_CONNECTED 0 0 SS_IDLE 0 0) (Table [] 0 [] 0)
     (Oper OP_EAPOL 0 0 None 0 0 4 0 2 demo_mac).

(** A kernel that delivers [msg], has no script, and takes every request. *)
Definition demo_kern (msg : list Z) : Kern wcall := fun _ c =>
  match c with
  | Recvfrom _ n => if n <? zlen msg then Reply (-1) [] else Reply (zlen msg) (demo_aa ++ msg)
  | Sendto _ buf _ => Reply (zlen buf) []
  | Access => Reply (- ENOENT) []
  | _ => Reply 0 []
  end.

Definition demo_1 : list Z :=
  frame 2 2 0x8A 16 (repeat 0 7 ++ [1]) (demo_nonce 0xA1) (repeat 0 16) (repeat 0 8) (repeat 0 8) (repeat 0 16) [].
Definition demo_els : list (Z * list Z) := [(48, [1; 0; 0; 15])].
Definition demo_post : list Z := [0xDD; 0].
Definition demo_3 : list Z :=
  signed (repeat 1 16) 2 0x13CA 16 (repeat 0 7 ++ [2]) (demo_nonce 0xA1) (repeat 0 16) [9; 0; 0; 0; 0; 0; 0; 0]
    (repeat 0 8) (wrapped (repeat 2 16) (key_data demo_els 1 demo_gtk demo_post)).

Ltac by_decide := match goal with |- ?P => refine (bool_decide_unpack P _) end; vm_compute; exact I.
Ltac arr_const := split; [reflexivity|by repeat constructor].

Lemma demo_wf st : ws_wf (demo_ws st).
Proof.
  split; [split|..]; first [exact (arr_repeat0 1024 eq_refl)|arr_const|done|simpl; lia].
Qed.

Lemma demo_rx msg : bytes msg -> zlen msg < 2 ^ 31 -> rx_ok (HK := demo_kern msg).
Proof.
  intros Hb Hl. split; intros t fd n; unfold kern; simpl; destruct (Z.ltb_spec n (zlen msg)); simpl;
    rewrite ?s32_small by lia; try lia; try done.
  apply (Forall_app_2 _ demo_aa); [by_decide|done].
Qed.

Lemma packet_1_answered_witness :
  let w := demo_ws ES_WAITING_1_4 in
  let ptk := ptk_of (repeat 7 32) demo_aa demo_mac (demo_nonce 0xA1) (demo_nonce 0x51) in
  exists w', handle_rawsock (HK := demo_kern demo_1) (HL := some_locals) w [] =
      Some (tt, w', after (HK := demo_kern demo_1) (received (HK := demo_kern demo_1) w [])
        (Sendto 4 (reply_frame (take 16 ptk) 2 0x10A 16 (repeat 0 7 ++ [1]) (demo_nonce 0x51) ies_ccmp_ccmp) demo_aa)) /\
    eapolstate (w_eap w') = ES_WAITING_3_4 /\ has_keys (w_eap w') ptk.
Proof.
  destruct (packet_1_answered (HK := demo_kern demo_1) (HL := some_locals) (demo_ws ES_WAITING_1_4) [] 2 0x8A 16
    (demo_nonce 0xA1) (repeat 0 7 ++ [1]) (repeat 0 16) (repeat 0 8) (repeat 0 8) (repeat 0 16) [])
    as (w' & H1 & H2 & H3 & _).
  - apply demo_wf.
  - reflexivity.
  - discriminate.
  - split; first [arr_const|done|lia].
  - split; reflexivity.
  - vm_compute. reflexivity.
  - vm_compute. reflexivity.
  - exists w'. split; [exact H1|]. split; [exact H2|exact H3].
Defined.



Lemma demo_keys :
  match handle_rawsock (HK := demo_kern demo_3) (HL := some_locals) (demo_ws ES_WAITING_3_4) [] with
  | Some (_, _, t) => length (newkeys t) = 2%nat
  | None => False
  end.
Proof. vm_compute. reflexivity. Qed.

Lemma newkey_authentic_witness :
  let w := demo_ws ES_WAITING_3_4 in
  let r := kern (Kern := demo_kern demo_3) [] (Recvfrom (rawsock (w_op w)) 1024) in
  take 6 (out r) = bssid (w_ap w) /\ accepted (w_eap w) (drop 6 (out r)).
Proof.
  pose proof demo_keys as Hk.
  destruct (handle_rawsock (HK := demo_kern demo_3) (HL := some_locals) (demo_ws ES_WAITING_3_4) [])
    as [[[[] w'] t']|] eqn:H; [|destruct Hk].
  apply (newkey_authentic (HK := demo_kern demo_3) (HL := some_locals) (demo_ws ES_WAITING_3_4) [] w' t');
    [apply demo_rx; [by_decide|vm_compute; reflexivity]|apply demo_wf|exact H|].
  intros He. rewrite He in Hk. discriminate Hk.
Defined.
