(* ===== verification/Krack.v ===== *)
(** * src/wsupp: the pairwise key is installed once

    Reachability of the supplicant: any sequence of packets, netlink messages,
    timers, exits of the script and commands of the user, on any kernel. *)
From S2P Require Import Prelude Arr Sys Nlusctl Netlink State Sha Md Aes Wsupp WsLink Apsel Eapol Wskeep Fourway.

Section krack.
Context `{HK : !Kern wcall} `{HL : !Locals}.

(** The request that installs the pairwise key: NEW_KEY with the default type
    of unicast. *)
Definition is_ptk (c : wcall) : bool :=
  match c with
  | NlSend _ _ _ _ 11 attrs =>
      existsb (fun x => match x with NNest 110 [NFlag 1] => true | _ => false end) attrs
  | _ => false
  end.

(** Installations of the pairwise key since the last handshake was started. *)
Definition ptk_step (n : nat) (c : wcall * reply) : nat :=
  if is_prime c.1 then 0 else if is_ptk c.1 then S n else n.
Definition ptk_count (t : trace wcall) : nat := foldl ptk_step 0%nat t.

(** At no time it was installed twice in the same handshake. *)
Definition once (t : trace wcall) : Prop := forall p, p `prefix_of` t -> (ptk_count p <= 1)%nat.

(** What can happen to the supplicant. *)
Inductive event :=
  | Packet | Message (buf : list Z) (msg : Z) | Timer | Child
  | User_connect (name : list Z) (len : Z) (psk : list Z)
  | User_disconnect | User_detach | User_resume | User_close.

Definition handle (e : event) : W unit :=
  match e with
  | Packet => handle_rawsock
  | Message buf msg => handle_message buf msg
  | Timer => timer_expired
  | Child => check_script
  | User_connect name len psk => _ ← ap_connect name len psk; mret tt
  | User_disconnect => _ ← ap_disconnect; mret tt
  | User_detach => _ ← ap_detach; mret tt
  | User_resume => _ ← ap_resume; mret tt
  | User_close => close_netlink
  end.

Inductive reachable (w0 : ws) : ws -> trace wcall -> Prop :=
  | reach_init : reachable w0 w0 []
  | reach_step w t e w' t' :
      reachable w0 w t -> handle e w t = Some (tt, w', t') -> reachable w0 w' t'.

(** ** The invariant *)

Definition inv (w : ws) (t : trace wcall) : Prop :=
  once t /\ (ptk_count t = 0%nat \/ ptk_count t = 1%nat /\ eapolstate (w_eap w) = ES_NEGOTIATED).

Lemma ptk_count_snoc t c r : ptk_count (t ++ [(c, r)]) = ptk_step (ptk_count t) (c, r).
Proof. unfold ptk_count. by rewrite foldl_app. Qed.

Lemma once_snoc t c r :
  once t -> (ptk_count (t ++ [(c, r)]) <= 1)%nat -> once (t ++ [(c, r)]).
Proof.
  intros Ht Hc p [s Hs]. destruct s as [|x s _] using rev_ind.
  { rewrite app_nil_r in Hs. by rewrite <- Hs. }
  rewrite app_assoc in Hs. apply app_inj_2 in Hs as [Hp _]; [|done].
  apply Ht. by exists s.
Qed.

(** Steps that do not change the state of the exchange nor install the key. *)
Definition quiet : relation (ws * trace wcall) := fun a b =>
  eapolstate (w_eap b.1) = eapolstate (w_eap a.1) /\ ptk_count b.2 = ptk_count a.2 /\
  (once a.2 -> (ptk_count a.2 <= 1)%nat -> once b.2).

(** Steps that keep the invariant. *)
Definition good : relation (ws * trace wcall) := fun a b => inv a.1 a.2 -> inv b.1 b.2.

#[local] Instance quiet_preorder : PreOrder quiet.
Proof.
  split; [intros a; split; [done|by split]|]. intros a b c (H1 & H2 & H3) (H4 & H5 & H6).
  split; [congruence|]. split; [congruence|]. rewrite H2 in H6. auto.
Qed.

#[local] Instance good_preorder : PreOrder good.
Proof. split; [by intros ??|]. intros a b c H1 H2 H. by apply H2, H1. Qed.

Lemma quiet_good a b : quiet a b -> good a b.
Proof.
  intros (H1 & H2 & H3) [Ho Hc]. split.
  - apply H3; [done|]. destruct Hc as [->|[-> _]]; lia.
  - by rewrite H1, H2.
Qed.

Lemma keeps_good {A} (m : W A) : keeps quiet m -> keeps good m.
Proof. intros H s t. eapply wp_mono; [apply H|]. intros x s' t'. apply quiet_good. Qed.

Lemma is_ptk_newkey c : is_newkey c = false -> is_ptk c = false.
Proof.
  destruct c as [| | | | | |? ? ? ? cmd ? | | | | | |]; try done. simpl. intros H%Z.eqb_neq.
  destruct cmd as [|p|]; try done. do 4 (destruct p as [p|p|]; try done).
Qed.

Lemma quiet_call c : is_prime c = false -> is_ptk c = false -> keeps quiet (syscall c : W reply).
Proof.
  intros Hp Hk. apply keeps_syscall. intros s t r.
  assert (ptk_count (t ++ [(c, r)]) = ptk_count t) as Hc.
  { rewrite ptk_count_snoc. unfold ptk_step. simpl. by rewrite Hp, Hk. }
  split; [done|]. split; [done|]. cbn [snd]. intros Ho Hle. apply once_snoc; [done|]. by rewrite Hc.
Qed.

#[local] Instance quiet_inert : Inert True quiet.
Proof.
  split; [apply _| |].
  - intros f H. apply keeps_modify. intros s t. split; [apply H|by split].
  - intros c Hp Hk. apply quiet_call; [done|by apply is_ptk_newkey].
Qed.

Lemma upload_gtk_quiet : keeps quiet upload_gtk.
Proof. unfold upload_gtk, nl_send. keeps_auto. by apply quiet_call. Qed.
Hint Resolve upload_gtk_quiet : keeps.

(** ** Starting a handshake *)

Lemma prime_good : keeps good prime_eapol_state.
Proof.
  intros w t. unfold prime_eapol_state, set_eap. wp_steps.
  set (t' := t ++ [(Getrandom 32, kern t (Getrandom 32))]).
  assert (inv w t -> once t' /\ ptk_count t' = 0%nat) as Hi.
  { intros [Ho _]. unfold t'. rewrite ptk_count_snoc. split; [|done].
    apply once_snoc; [done|]. rewrite ptk_count_snoc. unfold ptk_step. simpl. lia. }
  apply wp_pure; [|done]. intros x _. wp_steps. intros [? ?]%Hi. split; [done|by left].
Qed.
(** Steps of a handshake before the key is installed. *)
Definition fresh (t : trace wcall) : Prop := once t /\ ptk_count t = 0%nat.

Lemma fresh_inv w t : fresh t -> inv w t.
Proof. intros [? ?]. split; [done|by left]. Qed.

Lemma inv_fresh w t : inv w t -> eapolstate (w_eap w) <> ES_NEGOTIATED -> fresh t.
Proof. intros [? [?|[_ ?]]] ?; [by split|done]. Qed.

Lemma quiet_fresh w t w' t' : quiet (w, t) (w', t') -> fresh t -> fresh t'.
Proof.
  intros (_ & Hc & Ho) [H1 H2]. cbn [fst snd] in *.
  split; [apply Ho; [done|lia]|congruence].
Qed.

Lemma send_packet_2_good w t : fresh t -> wlp send_packet_2 w t (fun _ w' t' => inv w' t').
Proof.
  intros Hf. unfold send_packet_2. wp_steps. apply wp_pure; [|done]. intros pk1 _. wp_step.
  apply wp_pure; [|done]. intros pk2 _. wp_step. apply wp_pure; [|done]. intros pk3 _. wp_step.
  apply wp_pure; [|done]. intros ies _. wp_step. apply wp_pure; [|done]. intros pk4 _. wp_step.
  apply wp_pure; [|done]. intros pk5 _. wp_step. unfold set_eap. wp_steps.
  apply (wp_keeps quiet); [keeps_auto|]. intros r w' t' Hq.
  pose proof (quiet_fresh _ _ _ _ Hq Hf). wp_steps; by apply fresh_inv.
Qed.

Lemma good_intro {A} (m : W A) w0 t0 w t :
  (inv w0 t0 -> wlp m w t (fun _ w' t' => inv w' t')) ->
  wlp m w t (fun _ w' t' => good (w0, t0) (w', t')).
Proof. intros Hm. unfold wpf, good in *. destruct (m w t) as [[[x w'] t']|]; auto. Qed.

(** The state of the exchange is known to be another one. *)
Ltac es_neq := match goal with H : _ = ?s |- _ <> ES_NEGOTIATED => rewrite H; done end.

Lemma allow_eapol_sends_good : keeps good allow_eapol_sends.
Proof.
  intros w t. unfold allow_eapol_sends. apply good_intro. intros Hi. wp_step. wp_step. wp_step.
  - unfold set_eap. wp_steps. done.
  - wp_steps; [|done]. zbool. eapply wp_mono.
    + apply send_packet_2_good. apply (inv_fresh w); [done|]. es_neq.
    + intros r w' t' Hr. wp_steps. done.
Qed.
#[local] Instance good_steady : Steady good.
Proof.
  split; [split; [apply _| |]|apply prime_good|apply allow_eapol_sends_good].
  - intros f H. by apply keeps_good, inert_state.
  - intros c Hp Hk. by apply keeps_good, inert_call.
Qed.

(** ** Packets of the access point *)

Lemma recv_packet_1_good w t : fresh t -> wlp recv_packet_1 w t (fun _ w' t' => inv w' t').
Proof.
  intros Hf. pose proof (fresh_inv w t Hf) as Hi. unfold recv_packet_1. wp_steps.
  apply wp_pure; [|done]. intros ty _. wp_steps; [done|].
  apply wp_pure; [|done]. intros b _. wp_steps; [done|].
  apply wp_pure; [|done]. intros v _. wp_step. apply wp_pure; [|done]. intros n _. wp_step.
  apply wp_pure; [|done]. intros r _. wp_step. unfold set_eap. wp_steps.
  apply (wp_keeps quiet); [keeps_auto|]. intros _ w' t' Hq.
  pose proof (quiet_fresh _ _ _ _ Hq Hf). wp_steps; [by apply send_packet_2_good|by apply fresh_inv].
Qed.

Lemma upload_ptk_once w t :
  fresh t -> wlp upload_ptk w t (fun _ w' t' =>
    eapolstate (w_eap w') = eapolstate (w_eap w) /\ once t' /\ (ptk_count t' <= 1)%nat).
Proof.
  intros [Ho Hc]. unfold upload_ptk, nl_send. wp_step. apply (wp_keeps quiet); [keeps_auto|]. intros seq w' t' (He & Hc' & Ho'). cbn [fst snd] in *. wp_steps.
  - split_and!; [done|apply Ho'; [done|lia]|lia].
  - rewrite ptk_count_snoc. unfold ptk_step. simpl.
    split_and!; [done| |lia]. apply once_snoc; [apply Ho'; [done|lia]|]. rewrite ptk_count_snoc.
    unfold ptk_step. simpl. lia.
Qed.

Lemma send_packet_4_good w t : fresh t -> wlp send_packet_4 w t (fun _ w' t' => inv w' t').
Proof.
  intros Hf. unfold send_packet_4. wp_steps. apply wp_pure; [|done]. intros pk1 _. wp_step.
  apply wp_pure; [|done]. intros pk2 _. wp_step. apply wp_pure; [|done]. intros pk3 _. wp_step.
  apply wp_pure; [|done]. intros pk4 _. wp_step. unfold set_eap. wp_steps.
  apply (wp_keeps quiet); [keeps_auto|]. intros r w' t' Hq.
  pose proof (quiet_fresh _ _ _ _ Hq Hf) as Hf'. wp_steps; [by apply fresh_inv|].
  eapply wp_mono; [by apply upload_ptk_once|]. cbv beta. intros r2 w2 t2 (He & Ho & Hc).
  assert (inv w2 t2) as Hi.
  { split; [done|]. destruct (ptk_count t2) as [|[|n]]; [by left| |lia]. right. done. }
  wp_steps; [done|]. apply (wp_keeps quiet); [keeps_auto|]. intros r3 w3 t3 Hq3%quiet_good.
  specialize (Hq3 Hi). wp_steps; [done|]. apply (wp_keeps quiet); [keeps_auto|]. intros _ w4 t4 Hq4%quiet_good. specialize (Hq4 Hq3). wp_step.
  apply (wp_keeps good); [keeps_auto|]. intros _ w5 t5 Hq5. wp_steps. by apply Hq5.
Qed.

Lemma recv_packet_3_good w t : fresh t -> wlp recv_packet_3 w t (fun _ w' t' => inv w' t').
Proof.
  intros Hf. pose proof (fresh_inv w t Hf) as Hi. unfold recv_packet_3. wp_steps.
  apply wp_pure; [|done]. intros l _. wp_step. apply wp_pure; [|done]. intros b _. wp_steps; [done|].
  apply wp_pure; [|done]. intros b2 _. wp_steps; [done|].
  apply wp_pure; [|done]. intros n _. wp_steps; [done|].
  apply wp_pure; [|done]. intros r _. wp_steps; [done|].
  apply wp_pure; [|done]. intros [pk z] _. unfold set_eap. wp_steps; [by apply fresh_inv|].
  apply (wp_keeps quiet); [keeps_auto|]. intros ok w' t' Hq.
  pose proof (quiet_fresh _ _ _ _ Hq Hf). wp_steps; [by apply fresh_inv|by apply send_packet_4_good].
Qed.

Lemma recv_group_1_quiet : keeps quiet recv_group_1.
Proof. keeps_auto. Qed.
Hint Resolve recv_group_1_quiet : keeps.

Lemma eapol_dispatch_good : keeps good eapol_dispatch.
Proof.
  intros w t. unfold eapol_dispatch. apply good_intro. intros Hi. wp_steps; zbool.
  - apply recv_packet_1_good. apply (inv_fresh w); [done|]. es_neq.
  - apply recv_packet_3_good. apply (inv_fresh w); [done|]. es_neq.
  - apply (wp_keeps quiet); [keeps_auto|]. intros x w' t' Hq. by apply (quiet_good _ _ Hq).
  - done.
Qed.
Hint Resolve eapol_dispatch_good : keeps.

Lemma handle_rawsock_good : keeps good handle_rawsock.
Proof. unfold handle_rawsock. keeps_steps. Qed.
Hint Resolve handle_rawsock_good : keeps.

Lemma handle_good e : keeps good (handle e).
Proof. destruct e; cbn [handle]; keeps_steps. Qed.

(** C2. The pairwise key is installed at most once in each handshake: in every
    reachable state, whatever the kernel answers and whatever packets, netlink
    messages, timeouts and commands came, at no time since a handshake was
    started with a new nonce was NEW_KEY for the pairwise key sent twice, so a
    replayed packet 3/4 cannot make the card reuse its packet numbers. *)
Theorem ptk_installed_once w0 w t :
  eapolstate (w_eap w0) = ES_IDLE -> reachable w0 w t -> once t.
Proof.
  intros H0 Hr. assert (inv w t) as [Ho _]; [|done].
  induction Hr as [|w t e w' t' Hr IH Hs].
  - split; [|by left]. intros p [s Hp]. symmetry in Hp. apply app_eq_nil in Hp as [-> _].
    unfold ptk_count. simpl. lia.
  - pose proof (handle_good e w t) as Hg. unfold wpf in Hg. rewrite Hs in Hg. by apply Hg.
Qed.

End krack.

(** ** A connection from the start

    The card was idle; a timer makes the supplicant pick the station of the scan
    table, the card reports the connection, the access point sends packets 1/4
    and 3/4, and then sends 3/4 once more. *)

Definition krack_ptk : list Z :=
  ptk_of (repeat 7 32) demo_aa demo_mac (demo_nonce 0xA1) (demo_nonce 0x51).
Definition krack_3 : list Z :=
  signed (take 16 krack_ptk) 2 0x13CA 16 (repeat 0 7 ++ [2]) (demo_nonce 0xA1) (repeat 0 16)
    [9; 0; 0; 0; 0; 0; 0; 0] (repeat 0 8)
    (wrapped (take 16 (drop 16 krack_ptk)) (key_data demo_els 1 demo_gtk demo_post)).

(** The kernel delivers packet 1/4 first and packet 3/4 from then on. *)
Definition krack_kern : Kern wcall := fun t c =>
  if existsb (fun x => match x.1 with Recvfrom _ _ => true | _ => false end) t
  then demo_kern krack_3 t c else demo_kern demo_1 t c.

Definition krack_ws : ws :=
  (demo_ws ES_IDLE) <| w_tab := Table [Scan (Z.lor SF_SEEN SF_GOOD) 2412 (-5000) demo_aa 4 (Some 0)] 1 [0; 0; 0; 0] 4 |>
    <| w_op ::= fun o => o <| operstate := OP_CONNECTING |> <| timercall := Some abort_timeout |> <| rawsock := -1 |> |>.

(** NL80211_CMD_CONNECT with the interface. *)
Definition krack_connect : list Z :=
  [28; 0; 0; 0; 28; 0; 0; 0; 0; 0; 0; 0; 0; 0; 0; 0; 46; 1; 0; 0; 8; 0; 3; 0; 2; 0; 0; 0].

Fixpoint krack_run (es : list event) (w : ws) (t : trace wcall) : option (ws * trace wcall) :=
  match es with
  | [] => Some (w, t)
  | e :: es => match handle (HK := krack_kern) (HL := some_locals) e w t with
               | Some (_, w, t) => krack_run es w t
               | None => None
               end
  end.

Lemma krack_run_reachable w0 es w t w' t' :
  reachable (HK := krack_kern) (HL := some_locals) w0 w t -> krack_run es w t = Some (w', t') ->
  reachable (HK := krack_kern) (HL := some_locals) w0 w' t'.
Proof.
  revert w t. induction es as [|e es IH]; simpl; intros w t Hr; [by intros [= <- <-]|].
  destruct (handle e w t) as [[[[] w1] t1]|] eqn:He; [|done]. apply IH. by eapply reach_step.
Qed.

Lemma krack_runs :
  match krack_run [Timer; Message krack_connect 0; Packet; Packet; Packet] krack_ws [] with
  | Some (w, t) => operstate (w_op w) = OP_CONNECTED /\ ptk_count t = 1%nat
  | None => False
  end.
Proof. vm_compute. split; reflexivity. Qed.

Lemma ptk_installed_once_witness :
  exists w t, operstate (w_op w) = OP_CONNECTED /\ ptk_count t = 1%nat /\ once t.
Proof.
  pose proof krack_runs as Hk.
  destruct (krack_run [Timer; Message krack_connect 0; Packet; Packet; Packet] krack_ws [])
    as [[w t]|] eqn:H; [|destruct Hk].
  exists w, t. destruct Hk as [H1 H2]. split; [exact H1|]. split; [exact H2|].
  apply (ptk_installed_once (HK := krack_kern) (HL := some_locals) krack_ws w t); [reflexivity|].
  eapply krack_run_reachable; [apply reach_init|exact H].
Defined.
