(* ===== verification/Wlimits.v ===== *)
(** * src/wsupp: where the supplicant deviates from its intent

    Facts about the handlers of [Wsupp], [Apsel] and [Eapol] that a reader of
    the comments in the source would not expect. *)
From S2P Require Import Prelude Arr Sys Nlusctl Netlink State Sha Md Aes Wsupp WsLink Apsel Eapol Fourway.

(** [find_ie] reads the length of an element that has only its type byte left. *)
Lemma find_ie_overread : find_ie [0] 0 1 48 = None.
Proof. reflexivity. Qed.

(** The last two bytes of an element are not read as a number. *)
Lemma get2le_at_end : get2le [1; 0] 0 2 = Some 0 /\ get2le [1; 0] 0 3 = Some 1.
Proof. split; reflexivity. Qed.

(** The counts of cipher suites are taken from the element unchecked: with a
    count of 100 in a complete element the search leaves the heap. *)
Lemma parse_rsn_ie_overread sc :
  parse_rsn_ie [1; 0; 0; 15; 172; 4; 100; 0; 0; 15; 172; 2] sc 12 0 = None.
Proof. reflexivity. Qed.

Section limits.
Context `{HK : !Kern wcall} `{HL : !Locals}.

Definition nl_fails : Prop :=
  forall t fd ty fl sq cmd attrs, s32 (ret (kern t (NlSend fd ty fl sq cmd attrs))) < 0.

(** When the scan cannot be started, [reassess_situation] waits for its end with
    no timer set. *)
Lemma reassess_situation_stuck w t :
  nl_fails -> scanstate (w_nl w) = SS_IDLE ->
  wp reassess_situation w t (fun _ w' _ =>
    operstate (w_op w') = OP_NET_SCAN /\ timercall (w_op w') = timercall (w_op w)).
Proof.
  intros Hf Hs. unfold reassess_situation, set_oper, set_timer, set_op, start_scan, trigger_scan, next_seq, nl_send, set_nl, set_op.
  wp_steps; zbool; try done.
  all: exfalso; cbn in *; try (rewrite Hs in *; discriminate); try done.
  all: match goal with H : 0 <= s32 (ret (kern ?t (NlSend ?a ?b ?c ?d ?e ?f))) |- _ =>
         specialize (Hf t a b c d e f) end; lia.
Qed.

(** When it is started, the state is SEARCHING, in which its end is ignored: the
    supplicant waits ten seconds and scans again. *)
Lemma reassess_situation_ignores_scan w t e :
  e <> - ENETDOWN -> operstate (w_op w) = OP_SEARCHING ->
  wp (scan_ended e) w t (fun _ w' _ => w' = w).
Proof.
  intros He%Z.eqb_neq Ho. unfold scan_ended, send_report. wp_steps; rewrite ?Ho in *; try done; congruence.
Qed.
End limits.

(** A second abort while the first waits for the script: the script is gone
    after the first exit, the state to return to is lost (it is WAIT_ABORT
    itself), and no timer is set. *)
Lemma abort_twice_stuck :
  let w := (demo_ws ES_NEGOTIATED) <| w_op ::= fun o => o <| running := 5 |> <| operstate := OP_CONNECTED |> |>
    <| w_nl ::= fun n => n <| authstate := AS_IDLE |> |> in
  match (abort_connection (HK := demo_kern []) (-1);; abort_connection (HK := demo_kern []) (-1);;
         set_op (fun o => o <| running := 0 |>);; script_exit (HK := demo_kern [])) w [] with
  | Some (_, w', _) => operstate (w_op w') = OP_WAIT_ABORT /\ timercall (w_op w') = None
  | None => False
  end.
Proof. vm_compute. split; reflexivity. Qed.

(** A connect message in the wrong state: the connection is reported as ended and
    then taken for established. *)
Lemma nlm_connect_falls_through :
  let w := (demo_ws ES_IDLE) <| w_nl ::= fun n => n <| authstate := AS_AUTHENTICATING |> |>
    <| w_op ::= fun o => o <| operstate := OP_CONNECTED |> |> in
  match nlm_connect (HK := demo_kern []) (HL := some_locals)
          [20; 0; 0; 0; 28; 0; 0; 0; 0; 0; 0; 0; 0; 0; 0; 0; 46; 1; 0; 0] 0 w [] with
  | Some (_, w', t) => head (map fst t) = Some (Report disconnect [0; 0; 0; 0] demo_aa 2412) /\ authstate (w_nl w') = AS_CONNECTED
  | None => False
  end.
Proof. vm_compute. split; reflexivity. Qed.

(** A failed fork is reported as success: the result is that of the access check. *)
Lemma spawn_script_fork_fails :
  let K : Kern wcall := fun _ c => match c with Fork => Reply (2 ^ 32 - 11) [] | _ => Reply 0 [] end in
  match spawn_script (HK := K) (demo_ws ES_IDLE) [] with
  | Some (r, w, _) => r = 0 /\ running (w_op w) = 0
  | None => False
  end.
Proof. vm_compute. split; reflexivity. Qed.

(** A scan result with more elements than before is stored over the old ones and
    what follows them: here the elements of the station in the next slot. *)
Lemma scan_result_overwrites :
  let s := Scan 0 2412 0 demo_aa 2 (Some 0) in
  let w := (demo_ws ES_IDLE) <| w_tab := Table [s; Scan 0 2412 0 demo_mac 2 (Some 2)] 2 [1; 0; 3; 0] 4 |> in
  let bss := [24; 0; 47; 0; 10; 0; 1; 0] ++ demo_aa ++ [0; 0; 8; 0; 6; 0; 5; 2; 7; 7] in
  match parse_scan_result (HK := demo_kern []) ([44; 0; 0; 0; 28; 0; 0; 0; 0; 0; 0; 0; 0; 0; 0; 0; 34; 1; 0; 0] ++ bss) 0 w [] with
  | Some (_, w', _) => heap (w_tab w') = [5; 2; 7; 7]
  | None => False
  end.
Proof. vm_compute. reflexivity. Qed.

