(* ===== verification/Exits.v ===== *)
(** * Programs that may exit

    The monad of [State] with an early end: [fail] writes a message and exits
    the process.  [xwpf F E] speaks about the runs that go on; [F] is what is
    claimed of a run that faults, [E] of the state and trace of one that exits.  The calls of the control sockets are
    embedded, so that a service is verified with the code of [Nlsock] in it. *)
From S2P Require Import Prelude Arr Sys Nlusctl Nlsock State.

Section exits.
Context {S C : Type} `{!Kern C}.

Definition xprog (A : Type) := S -> trace C -> option (option A * S * trace C).

#[export] Instance xprog_ret : MRet xprog := fun A x s t => Some (Some x, s, t).
#[export] Instance xprog_bind : MBind xprog := fun A B f m s t =>
  match m s t with
  | Some (Some x, s, t) => f x s t
  | Some (None, s, t) => Some (None, s, t)
  | None => None
  end.

(** Read, change the state; local data; a system call; the end. *)
Definition xget {A} (f : S -> A) : xprog A := fun s t => Some (Some (f s), s, t).
Definition xmodify (f : S -> S) : xprog unit := fun s t => Some (Some tt, f s, t).
Definition xpure {A} (o : option A) : xprog A := fun s t => x ← o; Some (Some x, s, t).
Definition xcall (c : C) : xprog reply := fun s t => let r := kern t c in Some (Some r, s, t ++ [(c, r)]).
Definition xexit {A} : xprog A := fun s t => Some (None, s, t).
Definition xwhen (b : bool) (m : xprog unit) : xprog unit := if b then m else mret tt.

(** The calls of another component as calls of this program. *)
Definition xembed {D A} (inj : D -> C) (m : sys D A) : xprog A := fun s t =>
  let emb (u : trace D) := (fun x => (inj x.1, x.2)) <$> u in
  '(x, u) ← m (fun u c => kern (t ++ emb u) (inj c)) []; Some (Some x, s, t ++ emb u).

Definition xwpf (F : Prop) (E : S -> trace C -> Prop) {A} (m : xprog A) (s : S) (t : trace C) (Q : A -> S -> trace C -> Prop) : Prop :=
  match m s t with
  | Some (Some x, s, t) => Q x s t
  | Some (None, s, t) => E s t
  | None => F
  end.

Section rules.
Context {F : Prop} {E : S -> trace C -> Prop}.

Lemma xwp_ret {A} (x : A) s t (Q : A -> S -> trace C -> Prop) : Q x s t -> xwpf F E (mret x) s t Q.
Proof. done. Qed.

Lemma xwp_bind {A B} (m : xprog A) (f : A -> xprog B) s t Q :
  xwpf F E m s t (fun x s t => xwpf F E (f x) s t Q) -> xwpf F E (m ≫= f) s t Q.
Proof. unfold xwpf, mbind, xprog_bind. by destruct (m s t) as [[[[x|] s'] t']|]. Qed.

Lemma xwp_assoc {A B D} (m : xprog A) (n : A -> xprog B) (k : B -> xprog D) s t Q :
  xwpf F E (m ≫= n) s t (fun x s t => xwpf F E (k x) s t Q) -> xwpf F E (m ≫= fun x => n x ≫= k) s t Q.
Proof.
  unfold xwpf, mbind, xprog_bind. destruct (m s t) as [[[[x|] s'] t']|]; [|done..].
  by destruct (n x s' t') as [[[[y|] ?] ?]|].
Qed.

Lemma xwp_get {A} (f : S -> A) s t (Q : A -> S -> trace C -> Prop) : Q (f s) s t -> xwpf F E (xget f) s t Q.
Proof. done. Qed.

Lemma xwp_modify (f : S -> S) s t (Q : unit -> S -> trace C -> Prop) :
  Q tt (f s) t -> xwpf F E (xmodify f) s t Q.
Proof. done. Qed.

Lemma xwp_pure {A} (o : option A) s t (Q : A -> S -> trace C -> Prop) :
  (forall x, o = Some x -> Q x s t) -> (o = None -> F) -> xwpf F E (xpure o) s t Q.
Proof. unfold xwpf, xpure. destruct o; simpl; auto. Qed.

Lemma xwp_call c s t (Q : reply -> S -> trace C -> Prop) :
  Q (kern t c) s (t ++ [(c, kern t c)]) -> xwpf F E (xcall c) s t Q.
Proof. done. Qed.

Lemma xwp_exit {A} s t (Q : A -> S -> trace C -> Prop) : E s t -> xwpf F E xexit s t Q.
Proof. done. Qed.

Lemma xwp_embed {D A} (inj : D -> C) (m : sys D A) s t (Q : A -> S -> trace C -> Prop) :
  F -> (forall x u, Q x s (t ++ ((fun x => (inj x.1, x.2)) <$> u))) -> xwpf F E (xembed inj m) s t Q.
Proof. intros HF HQ. unfold xwpf, xembed. destruct (m _ _) as [[x u]|]; simpl; auto. Qed.

(** The embedded calls, when their code does not fault. *)
Lemma xwp_embed_run {D A} (inj : D -> C) (m : sys D A) s t (Q : A -> S -> trace C -> Prop) x u :
  let emb (u : trace D) := (fun x => (inj x.1, x.2)) <$> u in
  m (fun u c => kern (t ++ emb u) (inj c)) [] = Some (x, u) -> Q x s (t ++ emb u) ->
  xwpf F E (xembed inj m) s t Q.
Proof.
  intros emb Hm HQ. unfold xwpf, xembed. subst emb. cbv beta zeta in *. by rewrite Hm.
Qed.

Lemma xwp_if {A} (b : bool) (m n : xprog A) s t Q :
  (b = true -> xwpf F E m s t Q) -> (b = false -> xwpf F E n s t Q) -> xwpf F E (if b then m else n) s t Q.
Proof. destruct b; auto. Qed.

Lemma xwp_when (b : bool) (m : xprog unit) s t Q :
  (b = true -> xwpf F E m s t Q) -> (b = false -> Q tt s t) -> xwpf F E (xwhen b m) s t Q.
Proof. intros H1 H2. destruct b; unfold xwhen; [by apply H1|by apply H2]. Qed.

Lemma xwp_mono {A} (m : xprog A) s t (P Q : A -> S -> trace C -> Prop) :
  xwpf F E m s t P -> (forall x s t, P x s t -> Q x s t) -> xwpf F E m s t Q.
Proof. unfold xwpf. destruct (m s t) as [[[[x|] s'] t']|]; auto. Qed.

Lemma xwp_impl {A} (m : xprog A) s t (P : Prop) (Q : A -> S -> trace C -> Prop) :
  (P -> xwpf True (fun _ _ => True) m s t Q) -> xwpf True (fun _ _ => True) m s t (fun x s' t' => P -> Q x s' t').
Proof. unfold xwpf. destruct (m s t) as [[[[x|] s'] t']|]; auto. Qed.

Lemma xwp_and {A} (m : xprog A) s t (P Q : A -> S -> trace C -> Prop) :
  xwpf F E m s t P -> xwpf F E m s t Q -> xwpf F E m s t (fun x s' t' => P x s' t' /\ Q x s' t').
Proof. unfold xwpf. destruct (m s t) as [[[[x|] s'] t']|]; auto. Qed.
End rules.

(** ** Relations that every step of a run keeps *)

Definition xkeeps (R : relation (S * trace C)) {A} (m : xprog A) : Prop :=
  forall s t, xwpf True (fun _ _ => True) m s t (fun _ s' t' => R (s, t) (s', t')).

Section keeps.
Context (R : relation (S * trace C)) `{!PreOrder R}.

Lemma xkeeps_ret {A} (x : A) : xkeeps R (mret x).
Proof. intros s t. apply xwp_ret. reflexivity. Qed.

Lemma xkeeps_bind {A B} (m : xprog A) (f : A -> xprog B) :
  xkeeps R m -> (forall x, xkeeps R (f x)) -> xkeeps R (m ≫= f).
Proof.
  intros Hm Hf s t. apply xwp_bind. eapply xwp_mono; [apply Hm|]. intros x s' t' HR.
  eapply xwp_mono; [apply Hf|]. intros y s'' t'' HR'. cbv beta in *. by etrans.
Qed.

Lemma xkeeps_get {A} (f : S -> A) : xkeeps R (xget f).
Proof. intros s t. apply xwp_get. reflexivity. Qed.

Lemma xkeeps_pure {A} (o : option A) : xkeeps R (xpure o).
Proof. intros s t. apply xwp_pure; [|done]. intros. reflexivity. Qed.

Lemma xkeeps_exit {A} : xkeeps R (xexit : xprog A).
Proof. intros s t. by apply xwp_exit. Qed.

Lemma xkeeps_modify f : (forall s t, R (s, t) (f s, t)) -> xkeeps R (xmodify f).
Proof. intros HR s t. apply xwp_modify, HR. Qed.

Lemma xkeeps_call c : (forall s t r, R (s, t) (s, t ++ [(c, r)])) -> xkeeps R (xcall c).
Proof. intros HR s t. apply xwp_call, HR. Qed.

Lemma xkeeps_embed {D A} (inj : D -> C) (m : sys D A) :
  (forall s t u, R (s, t) (s, t ++ ((fun x => (inj x.1, x.2)) <$> u))) -> xkeeps R (xembed inj m).
Proof. intros HR s t. apply xwp_embed; [done|]. intros. apply HR. Qed.

Lemma xkeeps_when b m : xkeeps R m -> xkeeps R (xwhen b m).
Proof. intros. destruct b; [done|apply xkeeps_ret]. Qed.

Lemma xwp_keeps {A} (m : xprog A) s t (Q : A -> S -> trace C -> Prop) :
  xkeeps R m -> (forall x s' t', R (s, t) (s', t') -> Q x s' t') -> xwpf True (fun _ _ => True) m s t Q.
Proof. intros HR HQ. eapply xwp_mono; [apply HR|]. intros x s' t'. apply HQ. Qed.
End keeps.
End exits.

Arguments xprog : clear implicits.

(** Partial correctness, safety, and runs that neither fault nor exit. *)
Abbreviation xwlp := (xwpf True (fun _ _ => True)).
Abbreviation xwp := (xwpf False (fun _ _ => True)).
Abbreviation xtot := (xwpf False (fun _ _ => False)).

Ltac xwp_step :=
  lazymatch goal with
  | |- xwpf _ _ (mret _) _ _ _ => apply xwp_ret
  | |- xwpf _ _ (mbind _ _) _ _ _ => apply xwp_bind
  | |- xwpf _ _ (xget _) _ _ _ => apply xwp_get
  | |- xwpf _ _ (xmodify _) _ _ _ => apply xwp_modify
  | |- xwpf _ _ (xcall _) _ _ _ => apply xwp_call
  | |- xwpf _ _ xexit _ _ _ => apply xwp_exit; try exact I
  | |- xwpf _ _ (xwhen _ _) _ _ _ => apply xwp_when; intros ?
  | |- xwpf _ _ (if _ then _ else _) _ _ _ => apply xwp_if; intros ?
  end.

Ltac xwp_steps := repeat (xwp_step; cbv beta).

(** One step of an [xkeeps] proof; lemmas about functions come from [xkeeps]. *)
Create HintDb xkeeps.

Ltac xkeeps_step :=
  lazymatch goal with
  | |- xkeeps _ (mret _) => apply xkeeps_ret; apply _
  | |- xkeeps _ (mbind _ _) => apply xkeeps_bind; [apply _| |intros ?]
  | |- xkeeps _ (xget _) => apply xkeeps_get; apply _
  | |- xkeeps _ (xpure _) => apply xkeeps_pure; apply _
  | |- xkeeps _ xexit => apply xkeeps_exit
  | |- xkeeps _ (xwhen _ _) => apply xkeeps_when; [apply _|]
  | |- xkeeps _ (if ?b then _ else _) => destruct b
  | |- xkeeps _ (match ?x with _ => _ end) => destruct x
  | |- xkeeps _ (let _ := _ in _) => cbv zeta
  | |- xkeeps _ _ => solve [eauto with xkeeps]
  end.

Ltac xkeeps_steps := repeat xkeeps_step.
