(* ===== verification/Cstr.v ===== *)
(** * Strings in local arrays and constants

    The string functions on arrays that are not part of the byte memory: each
    argument is the list of the bytes from the pointer on, with the terminating
    zero; reading past the list is a fault. *)
From stdpp Require Import strings.
From S2P Require Import Prelude Arr Sys.

(** The bytes of a string constant, without its terminating zero. *)
Definition text (s : string) : list Z :=
  (fun a => Z.of_N (Ascii.N_of_ascii a)) <$> String.list_ascii_of_string s.

(** An array of [n] characters that holds a name. *)
Definition padded (n : nat) (name : list Z) : list Z := take n (name ++ repeat 0 n).

(** [lib/string/strcmp.c: strcmp 12-14] *)
Fixpoint strcmp_l (a b : list Z) : option Z :=
  match a, b with
  | x :: a, y :: b => if negb (x =? 0) && (x =? y) then strcmp_l a b else Some (x - y)
  | _, _ => None
  end.

(** [lib/string/strncmp.c: strncmp] two arrays *)
Fixpoint strncmp_l (a b : list Z) (n : Z) : option Z :=
  match a, b with
  | x :: a, y :: b =>
      if negb (x =? 0) then
        let n := n - 1 in
        if (0 <? n) && (x =? y) then strncmp_l a b n else Some (s8 x - s8 y)
      else Some (s8 x - s8 y)
  | _, _ => None
  end.

(** [lib/string/strcmpn.c: strcmpn] [b] with its NUL *)
Fixpoint strcmpn_l (a b : list Z) : option Z :=
  match a with
  | [] => match b with [] => None | bc :: _ => Some (- s8 bc) end
  | ac :: a =>
      match b with
      | [] => None
      | bc :: b =>
          let d := s8 ac - s8 bc in
          if negb (d =? 0) || (ac =? 0) then Some d else strcmpn_l a b
      end
  end.

Section locals.
Context `{HL : !Locals}.

(** An uninitialised array of [n] bytes into which the kernel stored its reply; a
    fault if that is more than the array has room for. *)
Definition filled (n : nat) (r : reply) : option (list Z) := awrite (junk n) 0 (out r).
End locals.
