(* ===== verification/Svchub.v ===== *)
(** * src/svchub: the service supervisor

    The process table, the control connections, the shutdown sequence and the
    event loop of pid 1.  The child side of a fork is described by the argument
    of the call; warnings on stderr are not modelled. *)
From S2P Require Import Prelude Arr Sys Nlusctl Nlsock State Exits Cstr.

Definition ENOENT : Z := 2.
Definition ENOMEM : Z := 12.
Definition EBUSY : Z := 16.
Definition EINVAL : Z := 22.
Definition EAGAIN : Z := 11.
Definition ENOSYS : Z := 38.
Definition ENODATA : Z := 61.
Definition EALREADY : Z := 114.

Definition SIGHUP : Z := 1.
Definition SIGINT : Z := 2.
Definition SIGKILL : Z := 9.
Definition SIGALRM : Z := 14.
Definition SIGTERM : Z := 15.
Definition SIGCHLD : Z := 17.
Definition SIGCONT : Z := 18.
Definition SIGPWR : Z := 30.

Definition NAMELEN : Z := 16.
Definition NPROCS : Z := 70.
Definition NCONNS : Z := 10.
Definition RINGSIZE : Z := 4096.

Definition S_STARTUP : Z := 1.
Definition S_RUNNING : Z := 2.
Definition S_STOPPING : Z := 3.
Definition S_SHUTDOWN : Z := 4.

Definition P_IN_USE : Z := 1.
Definition P_KILLED : Z := 2.
Definition P_STATUS : Z := 4.
Definition P_ONCE : Z := 8.
Definition P_PASS : Z := 16.

(** [flags & bit] as a condition *)
Definition has (flags bit : Z) : bool := negb (Z.land flags bit =? 0).

(** ** Data *)

(** [src/svchub/svchub.h: proc] [p_buf] is NULL or the mapped ring *)
Record proc := Proc {
  p_name : list Z; p_pid : Z; p_fd : Z; p_time : Z; p_flags : Z; p_ptr : Z; p_buf : option (list Z) }.
#[export] Instance eta_proc : Eta proc :=
  rd_pure Proc <*> p_name <*> p_pid <*> p_fd <*> p_time <*> p_flags <*> p_ptr <*> p_buf.

(** [memzero(pc, sizeof( *pc ))] *)
Definition zero_proc : proc := Proc (repeat 0 16) 0 0 0 0 0 None.

(** [src/svchub/svchub.h: conn] *)
Record conn := Conn { c_fd : Z; c_pid : Z }.
#[export] Instance eta_conn : Eta conn := rd_pure Conn <*> c_fd <*> c_pid.

(** [src/svchub/svchub.h: top] and the two arrays; [argv] and [envp] are constant *)
Record hub := Hub {
  h_state : Z; rbmode : option (list Z); scrpid : Z; sigcnt : Z;
  epfd : Z; ctlfd : Z; sigfd : Z;
  nconns : Z; nprocs : Z; nalive : Z;
  procs : list proc; conns : list conn }.
#[export] Instance eta_hub : Eta hub :=
  rd_pure Hub <*> h_state <*> rbmode <*> scrpid <*> sigcnt <*> epfd <*> ctlfd <*> sigfd
    <*> nconns <*> nprocs <*> nalive <*> procs <*> conns.

(** What the child of a fork does: run a service, with its output on a pipe or
    not, or a boot script with an argument. *)
Inductive job :=
  | Service (path : list Z) (piped : bool)
  | Script (path : list Z) (arg : option (list Z)).

(** The kernel's interface. *)
Inductive hcall :=
  | Access (path : list Z)
  | Pipe2
  | Fork (j : job)
  | Close (fd : Z)
  | EpollCreate
  | EpollAdd (fd events key : Z)
  | EpollDel (fd : Z)
  | EpollWait (fd : Z)
  | Signalfd
  | Sigprocmask
  | Read (fd n : Z)
  | Readv (fd : Z) (lens : list Z)
  | Clock
  | Mmap (size : Z)
  | Munmap (size : Z)
  | Kill (pid sig : Z)
  | Waitpid
  | Alarm (sec : Z)
  | Socket
  | Accept (fd : Z)
  | Sock (c : sockcall).

(** The directories and the socket of the configuration. *)
Class Config := {
  INITDIR : list Z;
  BOOTDIR : list Z;
  CONTROL : list Z }.

Section svchub.
Context `{HK : !Kern hcall} `{HL : !Locals} `{HC : !Config}.

Definition H := xprog hub hcall.

Definition set_hub (f : hub -> hub) : H unit := xmodify f.
Definition set_proc (i : nat) (f : proc -> proc) : H unit := xmodify (fun h => h <| procs ::= alter f i |>).
Definition set_conn (i : nat) (f : conn -> conn) : H unit := xmodify (fun h => h <| conns ::= alter f i |>).
Definition get_proc (i : nat) : H proc := p ← xget (fun h => procs h !! i); xpure p.
Definition get_conn (i : nat) : H conn := p ← xget (fun h => conns h !! i); xpure p.

(** [lib/util/fail.c: fail] the message is not modelled *)
Definition fail {A} : H A := xexit.

(** A call of which only the result is used. *)
Definition xret (c : hcall) : H Z := r ← xcall c; mret (s32 (ret r)).

(** [for(pc = procs; pc < pe; pc++)] from slot [i] on, [n] left *)
Fixpoint first_proc (p : proc -> bool) (l : list proc) (i n : nat) : option (option nat) :=
  match n with
  | O => Some None
  | S n => pc ← l !! i; if p pc then Some (Some i) else first_proc p l (S i) n
  end.

(** ** epoll (svchub.c) *)

Definition EPOLLIN : Z := 1.

(** [src/svchub/svchub.h: PKEY] *)
Definition PKEY (g k : Z) : Z := Z.lor (Z.shiftl g 16) k.
(** [src/svchub/svchub.h: PKEY_GROUP] *)
Definition PKEY_GROUP (v : Z) : Z := Z.shiftr v 16.
(** [src/svchub/svchub.h: PKEY_INDEX] *)
Definition PKEY_INDEX (v : Z) : Z := Z.land v 0xFFFF.

(** [src/svchub/svchub.c: add_epoll_fd] *)
Definition add_epoll_fd (fd key : Z) : H Z :=
  e ← xget epfd; xret (EpollAdd fd EPOLLIN key).

(** [src/svchub/svchub.c: del_epoll_fd] *)
Definition del_epoll_fd (fd : Z) : H unit := _ ← xret (EpollDel fd); mret tt.

(** [src/svchub/svchub.c: add_sock_fd] *)
Definition add_sock_fd (fd : Z) : H unit := _ ← add_epoll_fd fd (PKEY 0 2); mret tt.
(** [src/svchub/svchub.c: add_conn_fd] *)
Definition add_conn_fd (fd : Z) (i : nat) : H unit := _ ← add_epoll_fd fd (PKEY 1 (Z.of_nat i)); mret tt.
(** [src/svchub/svchub.c: add_proc_fd] *)
Definition add_proc_fd (fd : Z) (i : nat) : H unit := _ ← add_epoll_fd fd (PKEY 2 (Z.of_nat i)); mret tt.

(** ** Notifications (svchub_ctrl.c) *)

Definition REP_DIED : Z := 1.

(** [src/svchub/svchub_ctrl.c: close_conn] *)
Definition close_conn (i : nat) : H unit :=
  cn ← get_conn i;
  if c_fd cn <? 0 then mret tt
  else
    del_epoll_fd (c_fd cn);;
    _ ← xcall (Close (c_fd cn));
    set_conn i (fun c => c <| c_fd := -1 |> <| c_pid := 0 |>).

(** [src/svchub/svchub_ctrl.c: notify] *)
Definition notify (i : nat) (uc : ucbuf) : H unit :=
  cn ← get_conn i;
  let fd := c_fd cn in
  if fd <? 0 then mret tt
  else
    r ← xembed Sock (uc_send fd uc);
    if 0 <? r then mret tt
    else if negb (r =? - EAGAIN) then close_conn i
    else
      r ← xembed Sock (uc_wait_writable fd);
      if r <? 0 then close_conn i
      else
        r ← xembed Sock (uc_send fd uc);
        if 0 <? r then mret tt else close_conn i.

(** [src/svchub/svchub_ctrl.c: notify_dead 90-93] *)
Fixpoint notify_loop (n i : nat) (uc : ucbuf) (pid : Z) : H unit :=
  match n with
  | O => mret tt
  | S n =>
      cn ← get_conn i;
      xwhen (c_pid cn =? pid) (notify i uc);;
      notify_loop n (S i) uc pid
  end.

(** [src/svchub/svchub_ctrl.c: notify_dead] *)
Definition notify_dead (pid : Z) : H unit :=
  n ← xget nconns;
  uc ← xpure (uc_put_hdr (uc_buf_set (junk 16) 16) REP_DIED);
  notify_loop (Z.to_nat n) 0 uc pid.

(** ** The process table (svchub_proc.c) *)

(** [src/svchub/svchub_proc.c: find_by_name 28-30] from slot [i] on, [n] left *)
Fixpoint name_loop (n i : nat) (l : list proc) (name : list Z) : option (option nat) :=
  match n with
  | O => Some None
  | S n =>
      pc ← l !! i;
      d ← strcmpn_l (p_name pc) (name ++ [0]);
      if d =? 0 then Some (Some i) else name_loop n (S i) l name
  end.

(** [src/svchub/svchub_proc.c: find_by_name] [name] without its NUL *)
Definition find_by_name (h : hub) (name : list Z) : option (option nat) :=
  match name with
  | [] => Some None
  | _ => name_loop (Z.to_nat (nprocs h)) 0 (procs h) name
  end.

Definition xfind (name : list Z) : H (option nat) := r ← xget (fun h => find_by_name h name); xpure r.

(** [src/svchub/svchub_proc.c: grab_proc_slot] *)
Definition grab_proc_slot : H (option nat) :=
  n ← xget nprocs;
  l ← xget procs;
  r ← xpure (first_proc (fun pc => p_flags pc =? 0) l 0 (Z.to_nat n));
  match r with
  | Some i => mret (Some i)
  | None =>
      if NPROCS <=? n then mret None
      else set_hub (fun h => h <| nprocs := n + 1 |>);; mret (Some (Z.to_nat n))
  end.

(** [src/svchub/svchub_proc.c: wipe_proc_slot] *)
Definition wipe_proc_slot (i : nat) : H unit := set_proc i (fun _ => zero_proc).

(** [src/svchub/svchub_proc.c: save_child_pipe] the descriptors are those the
    kernel stored *)
Definition save_child_pipe (i : nat) (pipe : option (Z * Z)) : H unit :=
  match pipe with
  | None => mret tt
  | Some (fd, wr) =>
      r ← xret (Close wr);
      if r <? 0 then fail
      else set_proc i (fun p => p <| p_fd := fd |>);; add_proc_fd fd i
  end.

(** The two descriptors of a pipe. *)
Definition pipe_fds (r : reply) : option (Z * Z) :=
  buf ← awrite (junk 8) 0 (take 8 (out r));
  rd ← get32 buf 0; wr ← get32 buf 4; Some (s32 rd, s32 wr).

(** [src/svchub/svchub_proc.c: spawn_path] the child (pid 0) does not return *)
Definition spawn_path (i : nat) (path : list Z) : H Z :=
  a ← xret (Access path);
  if a <? 0 then mret a
  else
    pc ← get_proc i;
    let go (r : Z) (pipe : option (Z * Z)) : H Z :=
      f ← xcall (Fork (Service path (match pipe with Some _ => true | None => false end)));
      let pid := s32 (ret f) in
      if pid <? 0 then mret r
      else if pid =? 0 then fail
      else
        set_proc i (fun p => p <| p_pid := pid |>);;
        set_hub (fun h => h <| nalive ::= fun n => s32 (n + 1) |>);;
        save_child_pipe i pipe;;
        mret 0 in
    if has (p_flags pc) P_PASS then go a None
    else
      r ← xcall Pipe2;
      if negb (s32 (ret r) =? 0) then mret (s32 (ret r))
      else fds ← xpure (pipe_fds r); go 0 (Some fds).

(** The bytes of an array up to its end or the first NUL. *)
Fixpoint upto_nul (l : list Z) : list Z :=
  match l with
  | [] => []
  | c :: l => if c =? 0 then [] else c :: upto_nul l
  end.

(** [src/svchub/svchub_proc.c: spawn_proc] the path is the directory, a slash and
    the name, which the local buffer has room for *)
Definition spawn_proc (i : nat) : H Z :=
  pc ← get_proc i;
  spawn_path i (INITDIR ++ [47] ++ upto_nul (p_name pc)).

(** [src/svchub/svchub_proc.c: update_proc_time] *)
Definition update_proc_time (i : nat) : H unit :=
  r ← xcall Clock;
  if s32 (ret r) <? 0 then fail
  else
    ts ← xpure (awrite (junk 16) 0 (take 16 (out r)));
    sec ← xpure (get64 ts 0);
    set_proc i (fun p => p <| p_time := u32 sec |>).

(** [src/svchub/svchub_proc.c: ran_long_enough] *)
Definition ran_long_enough (i : nat) : H bool :=
  pc ← get_proc i;
  let t0 := p_time pc in
  update_proc_time i;;
  pc ← get_proc i;
  let t1 := p_time pc in
  mret (10 <? u32 (t1 - t0)).

(** [src/svchub/svchub_proc.c: flush_ring_buf] *)
Definition flush_ring_buf (i : nat) : H Z :=
  pc ← get_proc i;
  match p_buf pc with
  | None => mret (- ENODATA)
  | Some _ =>
      r ← xret (Munmap RINGSIZE);
      if r <? 0 then set_proc i (fun p => p <| p_ptr := 0 |>);; mret r
      else set_proc i (fun p => p <| p_buf := None |> <| p_ptr := 0 |>);; mret 0
  end.

(** [src/svchub/svchub_proc.c: restart_proc 197-207] from the ring on *)
Definition restart_spawn (i : nat) : H Z :=
  pc ← get_proc i;
  r ← (match p_buf pc with None => mret 0 | Some _ => flush_ring_buf i end);
  if r <? 0 then mret r
  else
    r ← spawn_proc i;
    if r <? 0 then mret r else update_proc_time i;; mret r.

(** [src/svchub/svchub_proc.c: restart_proc] *)
Definition restart_proc (i : nat) (flags : Z) : H Z :=
  if negb (flags =? 0) then mret (- EINVAL)
  else
    pc ← get_proc i;
    if has (p_flags pc) P_STATUS then
      set_proc i (fun p => p <| p_flags ::= fun f => Z.land f (Z.lnot (Z.lor P_STATUS P_KILLED)) |>
                             <| p_pid := 0 |>);;
      restart_spawn i
    else if negb (p_pid pc =? 0) then mret (- EBUSY)
    else restart_spawn i.

(** [src/svchub/svchub_proc.c: prep_and_start] *)
Definition prep_and_start (i : nat) (name : list Z) (flags : Z) : H Z :=
  let len := zlen name in
  set_proc i (fun _ => zero_proc);;
  if NAMELEN <? len then mret (- ENAMETOOLONG)
  else
    nm ← xpure (awrite (repeat 0 16) 0 name);
    set_proc i (fun p => p <| p_flags := Z.lor P_IN_USE flags |> <| p_fd := -1 |> <| p_name := nm |>);;
    r ← spawn_proc i;
    if r <? 0 then mret r else update_proc_time i;; mret r.

(** [src/svchub/svchub_proc.c: start_proc] *)
Definition start_proc (name : list Z) (flags : Z) : H Z :=
  r ← xfind name;
  match r with
  | Some i => restart_proc i flags
  | None =>
      s ← grab_proc_slot;
      match s with
      | None => mret (- ENOMEM)
      | Some i =>
          r ← prep_and_start i name flags;
          if r <? 0 then set_proc i (fun _ => zero_proc);; mret r else mret r
      end
  end.

(** [src/svchub/svchub_proc.c: stop_proc] *)
Definition stop_proc (name : list Z) : H Z :=
  r ← xfind name;
  match r with
  | None => mret (- ENOENT)
  | Some i =>
      pc ← get_proc i;
      let pid := p_pid pc in
      let flags := p_flags pc in
      if has flags P_STATUS || (pid =? 0) then mret (- EAGAIN)
      else
        set_proc i (fun p => p <| p_flags := Z.lor flags P_KILLED |>);;
        r ← xret (Kill pid SIGCONT);
        if r <? 0 then mret r
        else r ← xret (Kill pid SIGTERM); if r <? 0 then mret r else mret pid
  end.

(** [src/svchub/svchub_proc.c: flush_proc] *)
Definition flush_proc (name : list Z) : H Z :=
  r ← xfind name;
  match r with None => mret (- ENOENT) | Some i => flush_ring_buf i end.

(** [src/svchub/svchub_proc.c: remove_proc] *)
Definition remove_proc (name : list Z) : H Z :=
  r ← xfind name;
  match r with
  | None => mret (- ENOENT)
  | Some i =>
      pc ← get_proc i;
      if negb (p_pid pc =? 0) && negb (has (p_flags pc) P_STATUS) then mret (- EBUSY)
      else
        r ← flush_ring_buf i;
        if r <? 0 then mret r else wipe_proc_slot i;; mret 0
  end.

(** [src/svchub/svchub_proc.c: kill_proc] *)
Definition kill_proc (name : list Z) (sig : Z) : H Z :=
  r ← xfind name;
  match r with
  | None => mret (- ENOENT)
  | Some i =>
      pc ← get_proc i;
      if (p_pid pc =? 0) || has (p_flags pc) P_STATUS then mret (- EAGAIN)
      else xret (Kill (p_pid pc) sig)
  end.

(** [src/svchub/svchub_proc.c: close_proc] *)
Definition close_proc (i : nat) : H unit :=
  pc ← get_proc i;
  let fd := p_fd pc in
  if fd <? 0 then mret tt
  else
    del_epoll_fd fd;;
    r ← xret (Close fd);
    if r <? 0 then fail
    else set_proc i (fun p => p <| p_fd := -1 |>).

(** The two blocks of the ring that [readv] fills, from offset [off] on and then
    from the start; [d] is what the kernel stored. *)
Definition ring_store (buf : list Z) (off : Z) (d : list Z) : option (list Z) :=
  let n := Z.to_nat (RINGSIZE - off) in
  buf ← awrite buf off (take n d);
  awrite buf 0 (take (Z.to_nat off) (drop n d)).

(** The position after [ret] bytes at [ptr]. *)
Definition ring_next (ptr ret : Z) : Z :=
  let ptr := ptr + ret in
  u16 (if RINGSIZE <? ptr then RINGSIZE + crem ptr RINGSIZE else ptr).

(** [src/svchub/svchub_proc.c: check_proc 352-371] from the [readv] on *)
Definition read_ring (i : nat) (fd : Z) (buf : list Z) (ptr : Z) : H unit :=
  let off := crem ptr RINGSIZE in
  r ← xcall (Readv fd (if off =? 0 then [RINGSIZE] else [RINGSIZE - off; off]));
  if s32 (ret r) <? 0 then close_proc i
  else
    buf ← xpure (ring_store buf off (out r));
    set_proc i (fun p => p <| p_buf := Some buf |> <| p_ptr := ring_next ptr (s32 (ret r)) |>).

(** [src/svchub/svchub_proc.c: check_proc] *)
Definition check_proc (i : nat) : H unit :=
  pc ← get_proc i;
  match p_buf pc with
  | Some buf => read_ring i (p_fd pc) buf (p_ptr pc)
  | None =>
      r ← xcall (Mmap RINGSIZE);
      if (-2048 <=? ret r) && (ret r <? 0) then close_proc i
      else
        let buf := repeat 0 (Z.to_nat RINGSIZE) in
        set_proc i (fun p => p <| p_buf := Some buf |> <| p_ptr := 0 |>);;
        read_ring i (p_fd pc) buf 0
  end.

(** [src/svchub/svchub_proc.c: mark_stopped] *)
Definition mark_stopped (i : nat) : H unit :=
  set_proc i (fun p => p <| p_flags ::= fun f => Z.land f (Z.lnot P_KILLED) |> <| p_pid := 0 |> <| p_time := 0 |>).

(** [src/svchub/svchub_proc.c: mark_died] *)
Definition mark_died (i : nat) (status : Z) : H unit :=
  set_proc i (fun p => p <| p_pid := status |> <| p_flags ::= fun f => Z.lor f P_STATUS |>).

(** [src/svchub/svchub_proc.c: proc_died] *)
Definition proc_died (i : nat) (status : Z) : H unit :=
  pc ← get_proc i;
  let pid := p_pid pc in
  set_hub (fun h => h <| nalive ::= fun n => s32 (n - 1) |>);;
  close_proc i;;
  pc ← get_proc i;
  if has (p_flags pc) P_KILLED then mark_stopped i;; notify_dead pid
  else if has (p_flags pc) P_ONCE && (status =? 0) then
    _ ← flush_ring_buf i; wipe_proc_slot i
  else if has (p_flags pc) P_ONCE then mark_died i status
  else
    long ← ran_long_enough i;
    if negb long then mark_died i status
    else
      r ← spawn_proc i;
      if r <? 0 then mark_died i status else mret tt.

(** ** Boot scripts and shutdown (svchub_boot.c) *)

(** The names of the scripts. *)
Definition startup_name : list Z := [115; 116; 97; 114; 116; 117; 112].
Definition shell_name : list Z := [115; 104; 101; 108; 108].
Definition shutdown_name : list Z := [115; 104; 117; 116; 100; 111; 119; 110].
Definition failure_name : list Z := [102; 97; 105; 108; 117; 114; 101].
Definition poweroff_name : list Z := [112; 111; 119; 101; 114; 111; 102; 102].
Definition reboot_name : list Z := [114; 101; 98; 111; 111; 116].

(** [src/svchub/svchub_boot.c: spawn_script] *)
Definition spawn_script (name : list Z) (arg : option (list Z)) : H Z :=
  let path := BOOTDIR ++ [47] ++ name in
  r ← xret (Access path);
  if r <? 0 then mret r
  else
    scr ← xget scrpid;
    if 0 <? scr then mret (- EBUSY)
    else
      pid ← xret (Fork (Script path arg));
      if pid <? 0 then fail
      else if pid =? 0 then fail
      else set_hub (fun h => h <| scrpid := pid |>);; mret 0.

(** [src/svchub/svchub_ctrl.c: close_socket] *)
Definition close_socket : H unit :=
  fd ← xget ctlfd; _ ← xret (Close fd); mret tt.

(** [src/svchub/svchub_boot.c: spawn_shutdown] *)
Definition spawn_shutdown : H unit :=
  mode ← xget rbmode;
  set_hub (fun h => h <| h_state := S_SHUTDOWN |>);;
  close_socket;;
  r ← spawn_script (match mode with Some _ => shutdown_name | None => failure_name end) mode;
  if 0 <=? r then mret tt else fail.

(** [src/svchub/svchub_boot.c: start_script] [arg] stands for the arguments given to
    the program *)
Definition start_script (arg : option (list Z)) : H unit :=
  r ← spawn_script startup_name arg;
  if r <? 0 then fail else set_hub (fun h => h <| h_state := S_STARTUP |>).

(** [for(i = 0; i < nprocs; i++)] over the processes that run *)
Fixpoint each_running (f : nat -> proc -> H unit) (n i : nat) : H unit :=
  match n with
  | O => mret tt
  | S n =>
      pc ← get_proc i;
      (if (p_flags pc =? 0) || (p_pid pc =? 0) then mret tt
       else if has (p_flags pc) P_STATUS then mret tt
       else f i pc);;
      each_running f n (S i)
  end.

(** [src/svchub/svchub_boot.c: stop_con_shell] *)
Definition stop_con_shell : H unit :=
  pid ← xget scrpid;
  if pid <=? 0 then mret tt
  else
    r ← xret (Kill pid SIGTERM);
    if 0 <=? r then mret tt else set_hub (fun h => h <| scrpid := 0 |>).

(** [src/svchub/svchub_boot.c: stop_all_procs] *)
Definition stop_all_procs : H unit :=
  n ← xget nprocs;
  each_running (fun i pc =>
    r ← xret (Kill (p_pid pc) SIGTERM);
    if r <? 0 then mret tt
    else set_proc i (fun p => p <| p_flags ::= fun f => Z.lor f P_KILLED |>)) (Z.to_nat n) 0;;
  stop_con_shell.

(** [src/svchub/svchub_boot.c: arm_shutdown_timer] *)
Definition arm_shutdown_timer : H unit := _ ← xret (Alarm 2); mret tt.

(** [src/svchub/svchub_boot.c: force_shutdown] *)
Definition force_shutdown : H unit :=
  n ← xget nprocs;
  each_running (fun i pc =>
    _ ← xret (Kill (p_pid pc) SIGKILL);
    set_proc i (fun p => p <| p_pid := 0 |>)) (Z.to_nat n) 0;;
  scr ← xget scrpid;
  xwhen (0 <? scr) (_ ← xret (Kill scr SIGKILL); set_hub (fun h => h <| scrpid := -1 |>));;
  spawn_shutdown.

(** [src/svchub/svchub_boot.c: handle_alarm] the report of hung processes is not
    modelled *)
Definition handle_alarm : H unit :=
  st ← xget h_state;
  if negb (st =? S_STOPPING) then mret tt
  else
    n ← xget sigcnt;
    set_hub (fun h => h <| sigcnt := s32 (n + 1) |>);;
    if n <? 3 then arm_shutdown_timer
    else set_hub (fun h => h <| sigcnt := 0 |>);; force_shutdown.

(** [src/svchub/svchub_boot.c: command_stop] *)
Definition command_stop (mode : option (list Z)) : H Z :=
  st ← xget h_state;
  if (st =? S_STOPPING) || (st =? S_SHUTDOWN) then mret (- EALREADY)
  else
    set_hub (fun h => h <| h_state := S_STOPPING |> <| rbmode := mode |> <| sigcnt := 0 |>);;
    stop_all_procs;;
    arm_shutdown_timer;;
    mret 0.

(** [src/svchub/svchub_boot.c: signal_stop] *)
Definition signal_stop (script : list Z) : H unit :=
  st ← xget h_state;
  if st =? S_STOPPING then force_shutdown
  else if st =? S_SHUTDOWN then fail
  else _ ← command_stop (Some script); mret tt.

(** [src/svchub/svchub_boot.c: shutdown_exit] *)
Definition shutdown_exit (status : Z) : H unit := fail.

(** [src/svchub/svchub_boot.c: shell_exit] *)
Definition shell_exit (status : Z) : H unit :=
  r ← command_stop None; if 0 <=? r then mret tt else fail.

(** [src/svchub/svchub_boot.c: startup_done] *)
Definition startup_done (status : Z) : H unit :=
  if negb (status =? 0) then fail
  else
    set_hub (fun h => h <| h_state := S_RUNNING |>);;
    _ ← spawn_script shell_name None;
    mret tt.

(** [src/svchub/svchub_boot.c: script_exit] *)
Definition script_exit (status : Z) : H unit :=
  st ← xget h_state;
  set_hub (fun h => h <| scrpid := 0 |> <| h_state := 0 |>);;
  if st =? S_STARTUP then startup_done status
  else if st =? S_SHUTDOWN then shutdown_exit status
  else if st =? S_RUNNING then shell_exit status
  else mret tt.

(** [src/svchub/svchub_boot.c: find_by_pid] *)
Definition find_by_pid (h : hub) (pid : Z) : option (option nat) :=
  if pid <=? 0 then Some None
  else first_proc (fun pc => negb (has (p_flags pc) P_STATUS) && (p_pid pc =? pid))
         (procs h) 0 (Z.to_nat (nprocs h)).

(** [src/svchub/svchub_boot.c: check_children 310-315] until there is nothing to
    wait for; the fuel bounds the number of children handled in one go *)
Fixpoint reap (fuel : nat) (st : list Z) : H unit :=
  r ← xcall Waitpid;
  st ← xpure (awrite st 0 (take 4 (out r)));
  let pid := s32 (ret r) in
  if pid <=? 0 then mret tt
  else
    match fuel with
    | O => xpure None
    | S fuel =>
        v ← xpure (get32 st 0);
        let status := s32 v in
        scr ← xget scrpid;
        (if pid =? scr then script_exit status
         else
           h ← xget id;
           o ← xpure (find_by_pid h pid);
           match o with
           | Some i => proc_died i status
           | None => mret tt
           end);;
        reap fuel st
    end.

(** [src/svchub/svchub_boot.c: check_children] *)
Definition check_children (fuel : nat) : H unit :=
  reap fuel (junk 4);;
  h ← xget id;
  if negb (nalive h =? 0) || (0 <? scrpid h) then mret tt
  else if h_state h =? S_SHUTDOWN then fail
  else spawn_shutdown.

(** ** Control commands (svchub_ctrl.c) *)

Definition ATTR_PROC : Z := 1.
Definition ATTR_NAME : Z := 2.
Definition ATTR_PID : Z := 4.
Definition ATTR_RING : Z := 5.
Definition ATTR_EXIT : Z := 6.
Definition ATTR_NEXT : Z := 7.
Definition ATTR_TIME : Z := 8.
Definition REPLIED : Z := 1.

(** [src/svchub/svchub_ctrl.c: send_reply] *)
Definition send_reply (i : nat) (uc : ucbuf) : H Z :=
  cn ← get_conn i;
  let fd := c_fd cn in
  r ← xembed Sock (uc_wait_writable fd);
  if r <? 0 then mret r
  else
    r ← xembed Sock (uc_send fd uc);
    if r <? 0 then mret r else mret REPLIED.

(** [src/svchub/svchub_ctrl.c: send_multi] *)
Definition send_multi (i : nat) (iov : list (list Z)) : H Z :=
  cn ← get_conn i;
  let fd := c_fd cn in
  r ← xembed Sock (uc_wait_writable fd);
  if r <? 0 then mret r
  else
    r ← xembed Sock (uc_send_iov fd iov);
    if 0 <? r then mret r else mret REPLIED.

(** [src/svchub/svchub_ctrl.c: reply] *)
Definition send_code (i : nat) (err : Z) : H Z :=
  uc ← xpure (uc_put_hdr (uc_buf_set (junk 20) 20) err); send_reply i uc.

(** The memory from the name on: [cmd_list] hands it to [uc_put_str], which reads
    it up to the first NUL. *)
Definition name_mem (p : proc) : list Z :=
  p_name p ++ le_bytes 4 (u32 (p_pid p)) ++ le_bytes 4 (u32 (p_fd p)) ++ le_bytes 4 (p_time p)
    ++ le_bytes 2 (p_flags p) ++ le_bytes 2 (p_ptr p).

(** [src/svchub/svchub_ctrl.c: cmd_list 126-139] one record *)
Definition list_proc (uc : ucbuf) (rc : proc) : option ucbuf :=
  '(uc, at_) ← uc_put_nest uc ATTR_PROC;
  uc ← uc_put_str uc ATTR_NAME (name_mem rc);
  uc ← (if has (p_flags rc) P_STATUS then uc_put_int uc ATTR_EXIT (Z.land (u32 (p_pid rc)) 0xFFFF)
        else if negb (p_pid rc =? 0) then uc_put_int uc ATTR_PID (p_pid rc) else Some uc);
  uc ← (if negb (p_ptr rc =? 0) then uc_put_flag uc ATTR_RING else Some uc);
  uc_end_nest uc at_.

(** [src/svchub/svchub_ctrl.c: cmd_list 118-140] from slot [i] on, [n] left; the
    result says where it stopped *)
Fixpoint list_loop (n i : nat) (l : list proc) (uc : ucbuf) : option (ucbuf * option nat) :=
  match n with
  | O => Some (uc, None)
  | S n =>
      rc ← l !! i;
      c ← zget (p_name rc) 0;
      if c =? 0 then list_loop n (S i) l uc
      else
        s ← uc_space_left uc;
        if s <? 128 then Some (uc, Some i)
        else uc ← list_proc uc rc; list_loop n (S i) l uc
  end.

(** [src/svchub/svchub_ctrl.c: cmd_list] the message is at the start of [msg] *)
Definition cmd_list (i : nat) (msg : list Z) : H Z :=
  h ← xget id;
  next ← xpure (uc_get_int msg 0 ATTR_NEXT);
  start ← xpure (match next with None => Some 0 | Some p => v ← get32 msg p; Some (s32 v) end);
  if start <? 0 then mret (- EINVAL)
  else if nprocs h <=? start then mret 0
  else
    uc ← xpure (uc_put_hdr (uc_buf_set (junk 2048) 2048) 0);
    '(uc, stop) ← xpure (list_loop (Z.to_nat (nprocs h - start)) (Z.to_nat start) (procs h) uc);
    uc ← xpure (match stop with None => Some uc | Some k => uc_put_int uc ATTR_NEXT (Z.of_nat k) end);
    send_reply i uc.

(** [src/svchub/svchub_ctrl.c: check] *)
Definition check (ret : Z) : Z := if ret <? 0 then ret else 0.

(** [src/svchub/svchub_ctrl.c: cmd_reboot] *)
Definition cmd_reboot : H Z := r ← command_stop (Some reboot_name); mret (check r).
(** [src/svchub/svchub_ctrl.c: cmd_shutdown] *)
Definition cmd_shutdown : H Z := r ← command_stop (Some shutdown_name); mret (check r).
(** [src/svchub/svchub_ctrl.c: cmd_poweroff] *)
Definition cmd_poweroff : H Z := r ← command_stop (Some poweroff_name); mret (check r).

(** The string of an attribute of the message; NULL is [None]. *)
Definition msg_str (msg : list Z) (key : Z) : option (option (list Z)) :=
  p ← uc_get_str msg 0 key;
  match p with None => Some None | Some p => Some (Some (upto_nul (drop (Z.to_nat p) msg))) end.

(** A command that takes the name of a service. *)
Definition with_name (msg : list Z) (f : list Z -> H Z) : H Z :=
  n ← xpure (msg_str msg ATTR_NAME);
  match n with None => mret (- EINVAL) | Some name => f name end.

(** [src/svchub/svchub_ctrl.c: cmd_status] *)
Definition cmd_status (i : nat) (msg : list Z) : H Z :=
  with_name msg (fun name =>
    r ← xfind name;
    match r with
    | None => mret (- ENOENT)
    | Some k =>
        pc ← get_proc k;
        let pid := p_pid pc in
        uc ← xpure (
          uc ← uc_put_hdr (uc_buf_set (junk 128) 128) 0;
          uc ← uc_put_strn uc ATTR_NAME (p_name pc) NAMELEN;
          uc ← (if has (p_flags pc) P_STATUS then uc_put_int uc ATTR_EXIT pid
                else if negb (pid =? 0) then uc_put_int uc ATTR_PID pid else Some uc);
          uc ← (if negb (p_ptr pc =? 0) then uc_put_flag uc ATTR_RING else Some uc);
          if negb (p_time pc =? 0) then uc_put_int uc ATTR_TIME (s32 (p_time pc)) else Some uc);
        send_reply i uc
    end).

(** The blocks of the ring that [cmd_getbuf] sends, in their order. *)
Definition ring_blocks (ring : list Z) (ptr : Z) : option (list (list Z)) :=
  if ptr <=? RINGSIZE then b ← aread ring 0 ptr; Some [b]
  else
    let off := crem ptr RINGSIZE in
    b ← aread ring off (RINGSIZE - off);
    c ← aread ring 0 off;
    Some [b; c].

(** [src/svchub/svchub_ctrl.c: cmd_getbuf] *)
Definition cmd_getbuf (i : nat) (msg : list Z) : H Z :=
  with_name msg (fun name =>
    r ← xfind name;
    match r with
    | None => mret (- ENOENT)
    | Some k =>
        pc ← get_proc k;
        uc ← xpure (uc_put_hdr (uc_buf_set (junk 50) 50) 0);
        match p_buf pc with
        | None => mret 0
        | Some ring =>
            '(r, iov) ← xpure (uc_iov_hdr uc);
            match iov with
            | None => mret r
            | Some (base, len) =>
                hdr ← xpure (aread (uc_buf uc) base len);
                blocks ← xpure (ring_blocks ring (p_ptr pc));
                send_multi i (hdr :: blocks)
            end
        end
    end).

(** [src/svchub/svchub_ctrl.c: common_start] *)
Definition common_start (msg : list Z) (flags : Z) : H Z :=
  with_name msg (fun name => start_proc name flags).

(** [src/svchub/svchub_ctrl.c: cmd_start] *)
Definition cmd_start (msg : list Z) : H Z := common_start msg 0.
(** [src/svchub/svchub_ctrl.c: cmd_stout] *)
Definition cmd_stout (msg : list Z) : H Z := common_start msg P_PASS.
(** [src/svchub/svchub_ctrl.c: cmd_spawn] *)
Definition cmd_spawn (msg : list Z) : H Z := common_start msg P_ONCE.

(** [src/svchub/svchub_ctrl.c: cmd_stop] *)
Definition cmd_stop (i : nat) (msg : list Z) : H Z :=
  with_name msg (fun name =>
    r ← stop_proc name;
    if r <? 0 then mret r else set_conn i (fun c => c <| c_pid := r |>);; mret 0).

(** [src/svchub/svchub_ctrl.c: cmd_flush] *)
Definition cmd_flush (msg : list Z) : H Z :=
  with_name msg (fun name => r ← flush_proc name; if r <? 0 then mret r else mret 0).

(** [src/svchub/svchub_ctrl.c: cmd_remove] *)
Definition cmd_remove (msg : list Z) : H Z := with_name msg remove_proc.

(** [src/svchub/svchub_ctrl.c: cmd_sighup] *)
Definition cmd_sighup (msg : list Z) : H Z :=
  with_name msg (fun name => r ← kill_proc name SIGHUP; if r <? 0 then mret r else mret 0).

(** [src/svchub/svchub_ctrl.c: dispatch] over the table of commands *)
Definition dispatch (i : nat) (msg : list Z) : H Z :=
  cmd ← xpure (uc_repcode msg 0);
  if cmd =? 1 then cmd_list i msg
  else if cmd =? 13 then cmd_shutdown
  else if cmd =? 12 then cmd_reboot
  else if cmd =? 14 then cmd_poweroff
  else if cmd =? 2 then cmd_status i msg
  else if cmd =? 3 then cmd_getbuf i msg
  else if cmd =? 4 then cmd_flush msg
  else if cmd =? 5 then cmd_remove msg
  else if cmd =? 8 then cmd_stop i msg
  else if cmd =? 9 then cmd_sighup msg
  else if cmd =? 16 then cmd_start msg
  else if cmd =? 17 then cmd_spawn msg
  else if cmd =? 18 then cmd_stout msg
  else mret (- ENOSYS).

(** [src/svchub/svchub_ctrl.c: check_conn] *)
Definition check_conn (i : nat) : H unit :=
  cn ← get_conn i;
  '(r, buf) ← xembed Sock (uc_recv (c_fd cn) (junk 200) 200);
  if r <? 0 then close_conn i
  else
    '(buf, msg) ← xpure (uc_msg buf r);
    match msg with
    | None => close_conn i
    | Some _ =>
        r ← dispatch i buf;
        if 0 <? r then mret tt
        else
          r ← send_code i r;
          if 0 <=? r then mret tt else close_conn i
    end.

(** [src/svchub/svchub_ctrl.c: grab_conn_slot] *)
Definition grab_conn_slot : H (option nat) :=
  n ← xget nconns;
  let fix go k i : H (option nat) :=
    match k with
    | O => mret None
    | S k => cn ← get_conn i; if c_fd cn <? 0 then mret (Some i) else go k (S i)
    end in
  r ← go (Z.to_nat n) O;
  match r with
  | Some i => mret (Some i)
  | None =>
      if NCONNS <=? n then mret None
      else set_hub (fun h => h <| nconns := n + 1 |>);; mret (Some (Z.to_nat n))
  end.

(** [src/svchub/svchub_ctrl.c: check_socket] *)
Definition check_socket : H unit :=
  sfd ← xget ctlfd;
  cfd ← xret (Accept sfd);
  if (cfd <? 0) && (cfd =? - EAGAIN) then mret tt
  else if cfd <? 0 then fail
  else
    s ← grab_conn_slot;
    match s with
    | None => _ ← xcall (Close cfd); mret tt
    | Some i => set_conn i (fun c => c <| c_fd := cfd |>);; add_conn_fd cfd i
    end.

(** [src/svchub/svchub_ctrl.c: open_socket] *)
Definition open_socket : H unit :=
  fd ← xret Socket;
  if fd <? 0 then fail
  else
    r ← xembed Sock (uc_listen (junk 108) fd (CONTROL ++ [0]) 5);
    if r <? 0 then fail
    else set_hub (fun h => h <| ctlfd := fd |>);; add_sock_fd fd.

(** ** The event loop (svchub.c) *)

(** [src/svchub/svchub.c: check_signal] *)
Definition check_signal (fuel : nat) : H unit :=
  fd ← xget sigfd;
  r ← xcall (Read fd 128);
  si ← xpure (awrite (repeat 0 128) 0 (take 128 (out r)));
  if s32 (ret r) <? 0 then fail
  else if s32 (ret r) =? 0 then fail
  else
    v ← xpure (get32 si 0);
    let sig := s32 v in
    if sig =? SIGCHLD then check_children fuel
    else if sig =? SIGPWR then signal_stop poweroff_name
    else if sig =? SIGINT then signal_stop reboot_name
    else if sig =? SIGTERM then signal_stop reboot_name
    else if sig =? SIGALRM then handle_alarm
    else fail.

(** The other events of a descriptor. *)
Definition lost (events : Z) : bool := has events (Z.lnot EPOLLIN).

(** [src/svchub/svchub.c: process_sigfd] *)
Definition process_sigfd (fuel : nat) (events : Z) : H unit :=
  xwhen (has events EPOLLIN) (check_signal fuel);; xwhen (lost events) fail.

(** [src/svchub/svchub.c: process_ctlfd] *)
Definition process_ctlfd (events : Z) : H unit :=
  xwhen (has events EPOLLIN) check_socket;; xwhen (lost events) fail.

(** [src/svchub/svchub.c: process_proc] *)
Definition process_proc (idx events : Z) : H unit :=
  n ← xget nprocs;
  if n <=? idx then fail
  else
    let i := Z.to_nat idx in
    xwhen (has events EPOLLIN) (check_proc i);; xwhen (lost events) (close_proc i).

(** [src/svchub/svchub.c: process_conn] *)
Definition process_conn (idx events : Z) : H unit :=
  n ← xget nconns;
  if n <=? idx then fail
  else
    let i := Z.to_nat idx in
    xwhen (has events EPOLLIN) (check_conn i);; xwhen (lost events) (close_conn i).

(** [src/svchub/svchub.c: process_misc] *)
Definition process_misc (fuel : nat) (idx events : Z) : H unit :=
  if idx =? 1 then process_sigfd fuel events
  else if idx =? 2 then process_ctlfd events
  else fail.

(** [src/svchub/svchub.c: wait_poll] *)
Definition wait_poll (fuel : nat) : H unit :=
  fd ← xget epfd;
  r ← xcall (EpollWait fd);
  ep ← xpure (awrite (junk 12) 0 (take 12 (out r)));
  if s32 (ret r) <? 0 then fail
  else
    k ← xpure (get32 ep 4);
    e ← xpure (get32 ep 0);
    let key := s32 k in
    let events := s32 e in
    let group := PKEY_GROUP key in
    let idx := PKEY_INDEX key in
    if group =? 0 then process_misc fuel idx events
    else if group =? 1 then process_conn idx events
    else if group =? 2 then process_proc idx events
    else fail.

(** [src/svchub/svchub.c: prepare_epoll] *)
Definition prepare_epoll : H unit :=
  fd ← xret EpollCreate;
  if fd <? 0 then fail else set_hub (fun h => h <| epfd := fd |>).

(** [src/svchub/svchub.c: setup_signals] *)
Definition setup_signals : H unit :=
  fd ← xret Signalfd;
  if fd <? 0 then fail
  else
    r ← xret Sigprocmask;
    if r <? 0 then fail
    else set_hub (fun h => h <| sigfd := fd |>);; _ ← add_epoll_fd fd (PKEY 0 1); mret tt.

(** The state the program starts with. *)
Definition initial : hub :=
  Hub 0 None 0 0 0 0 0 0 0 0 (repeat zero_proc 70) (repeat (Conn 0 0) 10).

(** [src/svchub/svchub.c: main 240-248] up to the loop *)
Definition main_init (arg : option (list Z)) : H unit :=
  prepare_epoll;; setup_signals;; open_socket;; start_script arg.

(** The states at the head of the loop of [main]. *)
Inductive reachable : hub -> trace hcall -> Prop :=
  | reach_init arg h t : main_init arg initial [] = Some (Some tt, h, t) -> reachable h t
  | reach_poll h t fuel h' t' :
      reachable h t -> wait_poll fuel h t = Some (Some tt, h', t') -> reachable h' t'.

End svchub.
