(* ===== verification/SvcRing.v ===== *)
(** * src/svchub: the output of a service is kept in a ring

    The abstract ring is the output itself: reading appends, and a client is
    sent the last 4096 bytes.  The code keeps them in a buffer of that size,
    written in place. *)
From S2P Require Import Prelude Arr Sys Nlusctl Nlsock State Exits Cstr Svchub.

(** The last [n] elements. *)
Definition lastn {A} (n : nat) (l : list A) : list A := drop (length l - n) l.

(** The position that says where in the ring the output [o] ends. *)
Definition ring_pos (o : list Z) : Z :=
  if zlen o <=? RINGSIZE then zlen o else RINGSIZE + zlen o mod RINGSIZE.

(** Byte [j] of the output is in its place, if it is among the last ones. *)
Definition ring_at (buf o : list Z) : Prop :=
  zlen buf = RINGSIZE /\
  forall j, 0 <= j -> zlen o - RINGSIZE <= j < zlen o -> zget buf (j mod RINGSIZE) = zget o j.

(** The ring of a process holds the output [o]. *)
Definition ring_holds (p : proc) (o : list Z) : Prop :=
  match p_buf p with
  | None => o = []
  | Some buf => ring_at buf o /\ p_ptr p = ring_pos o
  end.

Ltac ring_arith := unfold RINGSIZE in *; Z.div_mod_to_equations; lia.

Lemma ring_pos_mod o : crem (ring_pos o) RINGSIZE = zlen o mod RINGSIZE.
Proof.
  unfold ring_pos. destruct (Z.leb_spec (zlen o) RINGSIZE).
  - apply Z.rem_mod_nonneg; unfold RINGSIZE; lia.
  - rewrite Z.rem_mod_nonneg by ring_arith. ring_arith.
Qed.

Lemma ring_next_pos o d :
  zlen d <= RINGSIZE -> ring_next (ring_pos o) (zlen d) = ring_pos (o ++ d).
Proof.
  intros Hd. unfold ring_next, ring_pos, RINGSIZE in *. rewrite length_app, Nat2Z.inj_add.
  zcases; rewrite ?Z.rem_mod_nonneg by ring_arith; rewrite uwrap_small by ring_arith; ring_arith.
Qed.

Lemma ring_store_at buf o d :
  ring_at buf o -> zlen d <= RINGSIZE ->
  exists buf', ring_store buf (zlen o mod RINGSIZE) d = Some buf' /\ ring_at buf' (o ++ d).
Proof.
  intros [Hl Ho] Hd. unfold ring_store.
  set (off := zlen o mod RINGSIZE). assert (0 <= off < RINGSIZE) as Hoff by (unfold off; ring_arith).
  set (n := Z.to_nat (RINGSIZE - off)).
  assert (zlen (take n d) = Z.min (RINGSIZE - off) (zlen d)) as L1 by (rewrite length_take; lia).
  assert (zlen (take (Z.to_nat off) (drop n d)) = Z.max 0 (zlen d - (RINGSIZE - off))) as L2.
  { rewrite length_take, length_drop. lia. }
  destruct (awrite buf off (take n d)) as [b1|] eqn:E1; [|rewrite awrite_Some in E1 by lia; done].
  destruct (awrite_inv _ _ _ _ E1) as (_ & _ & Hl1). rewrite Some_bind.
  destruct (awrite b1 0 (take (Z.to_nat off) (drop n d))) as [b2|] eqn:E2; [|rewrite awrite_Some in E2 by lia; done].
  destruct (awrite_inv _ _ _ _ E2) as (_ & _ & Hl2).
  exists b2. split; [done|]. split; [lia|]. intros j Hj Hj'. rewrite length_app in Hj'.
  rewrite (awrite_get _ _ _ _ _ E2), (awrite_get _ _ _ _ _ E1), L1, L2.
  destruct (Z.ltb_spec j (zlen o)) as [Hlt|Hge].
  - rewrite !decide_False by (unfold off; ring_arith). rewrite zget_app_l by done. apply Ho; lia.
  - rewrite zget_app_r by done. case_decide as D2; [|case_decide as D1].
    + rewrite Z.sub_0_r, zget_take, zget_drop by lia. f_equal. unfold n, off in *. ring_arith.
    + rewrite zget_take by lia. f_equal. unfold off in *. ring_arith.
    + exfalso. unfold off in *. ring_arith.
Qed.

Lemma zget_lastn n (o : list Z) i :
  0 <= i < Z.of_nat n -> (n <= length o)%nat -> zget (lastn n o) i = zget o (zlen o - Z.of_nat n + i).
Proof. intros Hi Hn. unfold lastn. rewrite zget_drop by lia. f_equal. lia. Qed.

(** What a client is sent. *)
Lemma ring_blocks_lastn buf o :
  ring_at buf o ->
  exists bl, ring_blocks buf (ring_pos o) = Some bl /\ concat bl = lastn (Z.to_nat RINGSIZE) o.
Proof.
  intros [Hl Ho]. unfold ring_blocks. rewrite ring_pos_mod. unfold ring_pos.
  destruct (Z.leb_spec (zlen o) RINGSIZE) as [Hle|Hgt].
  - rewrite (proj2 (Z.leb_le _ _)) by done. rewrite aread_Some by lia. cbn [mbind option_bind].
    eexists. split; [done|]. cbn [concat]. rewrite app_nil_r. unfold lastn.
    replace (length o - _)%nat with 0%nat by lia. rewrite (drop_0 o).
    apply list_eq_zget. intros i. destruct (Z.ltb_spec i 0); [by rewrite !zget_neg|].
    destruct (Z.ltb_spec i (zlen o)).
    + rewrite zget_take by lia. change (Z.to_nat 0) with 0%nat. rewrite drop_0, <- Ho by ring_arith.
      f_equal. ring_arith.
    + rewrite (zget_ge o) by done. apply zget_ge. etrans; [|done]. rewrite length_take. lia.
  - assert (zlen (lastn (Z.to_nat RINGSIZE) o) = RINGSIZE) as Hz by (unfold lastn; rewrite length_drop; lia).
    assert (forall l, zlen l = RINGSIZE ->
      (forall i, 0 <= i < RINGSIZE -> zget l i = zget buf ((zlen o + i) mod RINGSIZE)) ->
      l = lastn (Z.to_nat RINGSIZE) o) as Hlast.
    { intros l Hll Hg. apply list_eq_zget. intros i.
      destruct (Z.ltb_spec i 0); [by rewrite !zget_neg|].
      destruct (Z.ltb_spec i RINGSIZE); [|rewrite !zget_ge by lia; done].
      rewrite zget_lastn, Hg, <- Ho by lia. f_equal. ring_arith. }
    set (off := zlen o mod RINGSIZE). assert (0 <= off < RINGSIZE) by (unfold off; ring_arith).
    destruct (Z.leb_spec (RINGSIZE + off) RINGSIZE).
    { replace (RINGSIZE + off) with (zlen buf) by lia. rewrite aread_all by done.
      eexists. split; [done|]. cbn [concat]. rewrite app_nil_r. apply Hlast; [done|].
      intros i Hi. f_equal. unfold off in *. ring_arith. }
    destruct (aread buf off (RINGSIZE - off)) as [b|] eqn:E1; [|rewrite aread_Some in E1 by lia; done].
    destruct (aread buf 0 off) as [c|] eqn:E2; [|rewrite aread_Some in E2 by lia; done].
    pose proof (aread_inv _ _ _ _ E1) as (_ & _ & _ & L1). pose proof (aread_inv _ _ _ _ E2) as (_ & _ & _ & L2).
    cbn [mbind option_bind]. eexists. split; [done|]. cbn [concat]. rewrite app_nil_r.
    apply Hlast; [rewrite length_app; lia|]. intros i Hi. destruct (Z.ltb_spec i (RINGSIZE - off)).
    + rewrite zget_app_l by lia. rewrite (aread_get _ _ _ _ _ E1) by lia. f_equal. unfold off in *. ring_arith.
    + rewrite zget_app_r by lia. rewrite (aread_get _ _ _ _ _ E2) by lia. f_equal. unfold off in *. ring_arith.
Qed.

Section svcring.
Context `{HK : !Kern hcall} `{HL : !Locals} `{HC : !Config}.

(** What was read from services. *)
Definition output (t : trace hcall) : list Z :=
  concat ((fun x => match x.1 with Readv _ _ => out x.2 | _ => [] end) <$> t).

(** A read fails or stores what it says it did, within the blocks. *)
Definition reads_ok : Prop := forall t fd lens, Forall (fun n => 0 <= n) lens ->
  let r := kern t (Readv fd lens) in
  s32 (ret r) < 0 /\ out r = [] \/ s32 (ret r) = zlen (out r) /\ zlen (out r) <= foldr Z.add 0 lens.

Lemma output_app t u : output (t ++ u) = output t ++ output u.
Proof. unfold output. by rewrite fmap_app, concat_app. Qed.

Lemma get_proc_wp F E i h t pc Q : procs h !! i = Some pc -> Q pc h t -> xwpf F E (get_proc i) h t Q.
Proof. intros Hi HQ. unfold get_proc. xwp_steps. rewrite Hi. exact HQ. Qed.

Lemma lookup_set_proc h i f pc : procs h !! i = Some pc -> procs (h <| procs ::= alter f i |>) !! i = Some (f pc).
Proof. intros Hi. cbn [upd procs]. by rewrite list_lookup_alter_eq, Hi. Qed.

(** What looking up a service by name depends on, and the connections. *)
Definition same_names (h h' : hub) : Prop :=
  nprocs h' = nprocs h /\ conns h' = conns h /\ p_name <$> procs h' = p_name <$> procs h.

(** A process kept in its slot with the output [o], and [u] added to the trace. *)
Definition ring_after (i : nat) (h0 : hub) (o : list Z) (t : trace hcall) (h : hub) (t' : trace hcall) : Prop :=
  exists pc u, t' = t ++ u /\ procs h !! i = Some pc /\ ring_holds pc (o ++ output u) /\ same_names h0 h.

Lemma same_names_set h i f :
  (forall p, p_name (f p) = p_name p) -> same_names h (h <| procs ::= alter f i |>).
Proof.
  intros Hf. split; [done|]. split; [done|]. cbn [upd procs]. apply list_eq. intros j.
  rewrite !list_lookup_fmap. destruct (decide (i = j)) as [<-|].
  - rewrite list_lookup_alter_eq. destruct (procs h !! i); simpl; [by rewrite Hf|done].
  - by rewrite list_lookup_alter_ne.
Qed.

Lemma same_names_trans h h1 h2 : same_names h h1 -> same_names h1 h2 -> same_names h h2.
Proof. intros (?&?&?) (?&?&?). split_and!; congruence. Qed.

Lemma name_loop_ext n i l l' name :
  p_name <$> l = p_name <$> l' -> name_loop n i l name = name_loop n i l' name.
Proof.
  intros Hl. revert i. induction n as [|n IH]; intros i; [done|]. cbn [name_loop].
  assert (p_name <$> (l !! i) = p_name <$> (l' !! i)) as Hi by (rewrite <- !list_lookup_fmap; by rewrite Hl).
  destruct (l !! i), (l' !! i); try done. cbn [fmap option_fmap option_map] in Hi. injection Hi as Hi.
  rewrite !Some_bind, Hi. destruct (strcmpn_l _ _); [|done]. rewrite !Some_bind. by rewrite IH.
Qed.

Lemma find_by_name_same h h' name : same_names h h' -> find_by_name h' name = find_by_name h name.
Proof. intros (Hn & _ & Hp). unfold find_by_name. destruct name; [done|]. rewrite Hn. by apply name_loop_ext. Qed.

Lemma ring_after_refl i h t pc o :
  procs h !! i = Some pc -> ring_holds pc o -> ring_after i h o t h t.
Proof. intros Hi Hr. exists pc, []. change (output []) with (@nil Z). rewrite !app_nil_r. done. Qed.

Lemma close_proc_ring i h t pc o :
  procs h !! i = Some pc -> ring_holds pc o ->
  xwp (close_proc i) h t (fun _ h' t' => ring_after i h o t h' t').
Proof.
  intros Hi Hr. unfold close_proc. xwp_step. apply (get_proc_wp _ _ _ _ _ pc); [done|]. xwp_steps.
  - by eapply ring_after_refl.
  - unfold del_epoll_fd, xret. xwp_steps; [done|]. unfold set_proc. xwp_steps.
    eexists _, [_; _]. split; [by rewrite <- app_assoc|]. split; [by eapply lookup_set_proc|].
    split; [cbn; rewrite app_nil_r; exact Hr|by apply same_names_set].
Qed.

Lemma read_ring_holds i h t pc o buf :
  reads_ok -> procs h !! i = Some pc -> p_buf pc = Some buf -> ring_holds pc o ->
  xwp (read_ring i (p_fd pc) buf (p_ptr pc)) h t (fun _ h' t' => ring_after i h o t h' t').
Proof.
  intros Hk Hi Hb Hr. pose proof Hr as Hr'. unfold ring_holds in Hr'. rewrite Hb in Hr'. destruct Hr' as [Hat Hp].
  unfold read_ring. rewrite Hp, ring_pos_mod. set (off := zlen o mod RINGSIZE).
  assert (0 <= off < RINGSIZE) as Hoff by (unfold off; ring_arith).
  set (lens := if off =? 0 then [RINGSIZE] else [RINGSIZE - off; off]).
  assert (foldr Z.add 0 lens = RINGSIZE) as Hlens by (unfold lens; zcases; simpl; lia).
  assert (Forall (fun n => 0 <= n) lens) as Hpos by (unfold lens; zcases; repeat constructor; lia).
  xwp_step. xwp_step. cbv beta. specialize (Hk t (p_fd pc) lens Hpos). rewrite Hlens in Hk. cbv zeta in Hk.
  set (r := kern t (Readv (p_fd pc) lens)) in *.
  assert (output [(Readv (p_fd pc) lens, r)] = out r) as Ho by apply app_nil_r.
  xwp_steps; zbool.
  - destruct Hk as [[_ Hk]|[]]; [|lia]. rewrite Hk in Ho. eapply xwp_mono; [by eapply close_proc_ring|].
    intros [] h' t' (pc' & u & -> & H1 & H2 & H3). exists pc', ((Readv (p_fd pc) lens, r) :: u).
    rewrite <- app_assoc. split; [done|]. split; [done|]. split; [|done].
    change ((Readv (p_fd pc) lens, r) :: u) with ([(Readv (p_fd pc) lens, r)] ++ u). by rewrite output_app, Ho.
  - destruct Hk as [[]|[Hk1 Hk2]]; [lia|].
    destruct (ring_store_at buf o (out r)) as (buf' & Hs & Hat'); [done|done|].
    unfold off. rewrite Hs. xwp_steps. unfold set_proc. apply xwp_pure; [|done]. intros x [= <-]. xwp_steps.
    eexists _, [(Readv (p_fd pc) lens, r)]. split; [done|]. split; [by eapply lookup_set_proc|].
    split; [|by apply same_names_set]. rewrite Ho. split; [exact Hat'|]. cbn. by rewrite Hk1, ring_next_pos.
Qed.

Lemma check_proc_holds i h t pc o :
  reads_ok -> procs h !! i = Some pc -> ring_holds pc o ->
  xwp (check_proc i) h t (fun _ h' t' => ring_after i h o t h' t').
Proof.
  intros Hk Hi Hr. unfold check_proc. xwp_step. apply (get_proc_wp _ _ _ _ _ pc); [done|].
  destruct (p_buf pc) as [buf|] eqn:Hb; [by eapply read_ring_holds|].
  pose proof Hr as Hr'. unfold ring_holds in Hr'. rewrite Hb in Hr'. subst o.
  set (c := Mmap RINGSIZE). xwp_step. xwp_step. cbv beta.
  assert (forall h0 h' t', same_names h h0 -> ring_after i h0 [] (t ++ [(c, kern t c)]) h' t' -> ring_after i h [] t h' t') as Ha.
  { intros h0 h' t' Hs (pc' & u & -> & H1 & H2 & H3). exists pc', ([(c, kern t c)] ++ u).
    rewrite <- app_assoc, output_app. split_and!; try done. by eapply same_names_trans. }
  xwp_steps.
  - eapply xwp_mono; [by eapply close_proc_ring|]. intros [] h' t'. by apply Ha.
  - unfold set_proc. xwp_steps. pose (f := fun p => p <| p_buf := Some (repeat 0 (Z.to_nat RINGSIZE)) |> <| p_ptr := 0 |>).
    change (p_fd pc) with (p_fd (f pc)). change 0 with (p_ptr (f pc)) at 2.
    eapply xwp_mono; [apply (read_ring_holds i _ _ (f pc) []); [done|by eapply lookup_set_proc|done|]|].
    + split; [|done]. split; [by rewrite repeat_length|]. intros j ??. simpl in *. lia.
    + intros [] h' t'. apply Ha. by apply same_names_set.
Qed.

(** [n] times the output of process [i] is there to be read. *)
Fixpoint check_procs (n : nat) (i : nat) : H unit :=
  match n with
  | O => mret tt
  | S n => check_proc i;; check_procs n i
  end.

Lemma check_procs_holds n i h t pc o :
  reads_ok -> procs h !! i = Some pc -> ring_holds pc o ->
  xwp (check_procs n i) h t (fun _ h' t' => ring_after i h o t h' t').
Proof.
  intros Hk. revert h t pc o. induction n as [|n IH]; intros h t pc o Hi Hr; cbn [check_procs].
  { xwp_steps. by eapply ring_after_refl. }
  xwp_step. eapply xwp_mono; [by eapply check_proc_holds|]. intros [] h1 t1 (pc1 & u1 & -> & H1 & H2 & H3).
  eapply xwp_mono; [by apply (IH _ _ pc1)|]. intros [] h2 t2 (pc2 & u2 & -> & H4 & H5 & H6).
  exists pc2, (u1 ++ u2). split; [by rewrite app_assoc|]. split; [done|].
  split; [by rewrite output_app, app_assoc|by eapply same_names_trans].
Qed.
(** ** Sending the output to a client *)

(** The header of a message with command 0, without its length. *)
Lemma code_header : exists b, uc_put_hdr (uc_buf_set (junk 50) 50) 0 = Some (Ucbuf b 50) /\
  uc_iov_hdr (Ucbuf b 50) = Some (0, Some (2, 2)) /\ aread b 2 2 = Some [0; 0].
Proof.
  pose proof (junk_length 50) as Hl. destruct (junk 50) as [|a [|b [|c [|d l]]]]; try done.
  cbn [length] in Hl. assert (length l = 46%nat) as Hl' by lia. clear Hl.
  do 46 (destruct l as [|? l]; [done|]). destruct l; [|done].
  eexists. split; [reflexivity|]. split; reflexivity.
Qed.

(** A client can be written to. *)
Definition writable : Prop := forall t fd, 0 < s32 (ret (kern t (Sock (Ppoll fd POLLOUT 1)))).

Lemma send_multi_wp k iov h t cn (Q : Z -> hub -> trace hcall -> Prop) :
  writable -> conns h !! k = Some cn ->
  (forall x r1 r2, Q x h (t ++ [(Sock (Ppoll (c_fd cn) POLLOUT 1), r1);
                                (Sock (Sendmsg (c_fd cn) iov [] MSG_NOSIGNAL), r2)])) ->
  xwp (send_multi k iov) h t Q.
Proof.
  intros Hw Hc HQ. unfold send_multi, get_conn. xwp_step. xwp_step. xwp_step. cbv beta. rewrite Hc.
  apply xwp_pure; [|done]. intros ? [= <-]. cbv zeta. xwp_step.
  set (c1 := Ppoll (c_fd cn) POLLOUT 1). set (c2 := Sendmsg (c_fd cn) iov [] MSG_NOSIGNAL) in *.
  eapply (xwp_embed_run _ _ _ _ _ 0 [(c1, kern (t ++ []) (Sock c1))]).
  { unfold uc_wait_writable. rewrite call_bind. cbv zeta. specialize (Hw (t ++ []) (c_fd cn)).
    cbn [fmap list_fmap]. unfold c1. rewrite (proj2 (Z.ltb_ge _ _)), (proj2 (Z.eqb_neq _ _)) by lia. reflexivity. }
  cbn [fmap list_fmap fst snd]. change (0 <? 0) with false. cbv iota. xwp_step.
  eapply (xwp_embed_run _ _ _ _ _ _ [(c2, _)]); [unfold uc_send_iov; rewrite call_bind; reflexivity|].
  cbn [fmap list_fmap fst snd]. xwp_steps; rewrite <- (app_assoc t [_] [_]); apply HQ.
Qed.

End svcring.

(** C10. A client that asks for the output of a service gets the last 4096 bytes of
    it, or all of it when it is shorter: after any number of reads of its pipe,
    however the kernel cut the output in pieces, the blocks of the ring that are
    sent after the header of the reply make up the end of everything that was
    read, in its order, and a service that wrote nothing gets an empty reply. *)
Theorem getbuf_sends_last `{HK : !Kern hcall} `{HL : !Locals} n i k name msg h t pc cn :
  reads_ok -> writable ->
  procs h !! i = Some pc -> p_buf pc = None -> find_by_name h name = Some (Some i) ->
  conns h !! k = Some cn -> msg_str msg ATTR_NAME = Some (Some name) ->
  xwp (check_procs n i;; cmd_getbuf k msg) h t (fun x h' t' => exists u,
    (x = 0 /\ t' = t ++ u /\ output u = []) \/
    exists r1 r2 blocks,
      t' = t ++ u ++ [(Sock (Ppoll (c_fd cn) POLLOUT 1), r1);
                      (Sock (Sendmsg (c_fd cn) ([0; 0] :: blocks) [] MSG_NOSIGNAL), r2)] /\
      concat blocks = lastn (Z.to_nat RINGSIZE) (output u)).
Proof.
  intros Hk Hw Hi Hb Hn Hc Hm.
  assert (ring_holds pc []) as Hr by (unfold ring_holds; by rewrite Hb).
  xwp_step. eapply xwp_mono; [by eapply check_procs_holds|].
  intros [] h1 t1 (pc1 & u & -> & H1 & H2 & H3). rewrite app_nil_l in H2.
  unfold cmd_getbuf, with_name. xwp_step. rewrite Hm. apply xwp_pure; [|done]. intros ? [= <-].
  unfold xfind. xwp_steps. rewrite (find_by_name_same _ _ _ H3), Hn.
  apply xwp_pure; [|done]. intros ? [= <-]. xwp_step. apply (get_proc_wp _ _ _ _ _ pc1); [done|].
  destruct code_header as (b & Hb1 & Hb2 & Hb3). xwp_step. rewrite Hb1. apply xwp_pure; [|done]. intros ? [= <-].
  unfold ring_holds in H2. destruct (p_buf pc1) as [ring|].
  - destruct H2 as [Hat ->]. destruct (ring_blocks_lastn _ _ Hat) as (bl & Hbl & Hcat).
    xwp_step. rewrite Hb2. apply xwp_pure; [|done]. intros ? [= <-]. cbv beta iota.
    xwp_step. cbn [uc_buf]. rewrite Hb3. apply xwp_pure; [|done]. intros ? [= <-].
    xwp_step. rewrite Hbl. apply xwp_pure; [|done]. intros ? [= <-].
    destruct H3 as (_ & Hcs & _). rewrite <- Hcs in Hc.
    apply (send_multi_wp _ _ _ _ cn); [done|done|]. intros x r1 r2. exists u. right.
    exists r1, r2, bl. by rewrite <- app_assoc.
  - xwp_step. exists u. by left.
Qed.

(** ** A service that writes 6000 bytes *)

Definition demo_name : list Z := [110; 116; 112].
Definition demo_hub : hub :=
  initial <| nprocs := 1 |> <| nconns := 1 |> <| conns ::= alter (fun _ => Conn 7 0) 0%nat |>
    <| procs ::= alter (fun _ => Proc (demo_name ++ repeat 0 13) 100 5 0 P_IN_USE 0 None) 0%nat |>.
(** Every read gets up to 3000 bytes. *)
Definition demo_kern : Kern hcall := fun t c =>
  match c with
  | Readv _ lens => let n := Z.max 0 (Z.min 3000 (foldr Z.add 0 lens)) in
                    Reply n (repeat (zlen t mod 256) (Z.to_nat n))
  | Sock (Ppoll _ _ _) => Reply 1 []
  | _ => Reply 0 []
  end.
(** [CMD_GETBUF] with the name. *)
Definition demo_msg : list Z := [12; 0; 3; 0; 8; 0; 2; 0] ++ demo_name ++ [0].

Lemma getbuf_sends_last_witness :
  xwp (check_procs (HK := demo_kern) 2 0;;
       cmd_getbuf (HK := demo_kern) (HL := some_locals) 0 demo_msg) demo_hub []
    (fun x h' t' => exists u,
    (x = 0 /\ t' = [] ++ u /\ output u = []) \/
    exists r1 r2 blocks,
      t' = [] ++ u ++ [(Sock (Ppoll 7 POLLOUT 1), r1);
                       (Sock (Sendmsg 7 ([0; 0] :: blocks) [] MSG_NOSIGNAL), r2)] /\
      concat blocks = lastn (Z.to_nat RINGSIZE) (output u)).
Proof.
  apply (getbuf_sends_last (HK := demo_kern) (HL := some_locals) 2 0 0 demo_name demo_msg demo_hub []
    (Proc (demo_name ++ repeat 0 13) 100 5 0 P_IN_USE 0 None) (Conn 7 0)).
  - intros t fd lens Hl. right. unfold kern, demo_kern; cbn [ret out]. rewrite repeat_length.
    assert (0 <= foldr Z.add 0 lens) by (induction Hl; simpl; lia).
    split; [rewrite s32_small; lia|lia].
  - intros t fd. reflexivity.
  - reflexivity.
  - reflexivity.
  - reflexivity.
  - reflexivity.
  - reflexivity.
Defined.
