(* ===== verification/SvcTable.v ===== *)
(** * src/svchub: the table of processes

    What the kernel was asked decides which children there are; the table keeps
    track of all the services among them, at most one for each name. *)
From S2P Require Import Prelude Arr Sys Nlusctl Nlsock State Exits Cstr Svchub.

(** ** Children *)

(** The children that were started and not waited for yet. *)
Definition child_step (m : gmap Z job) (x : hcall * reply) : gmap Z job :=
  let pid := s32 (ret x.2) in
  match x.1 with
  | Fork j => if 0 <? pid then <[pid := j]> m else m
  | Waitpid => if 0 <? pid then delete pid m else m
  | _ => m
  end.
Definition children (t : trace hcall) : gmap Z job := foldl child_step ∅ t.

Lemma children_snoc t c r : children (t ++ [(c, r)]) = child_step (children t) (c, r).
Proof. unfold children. by rewrite foldl_app. Qed.

Lemma children_sock t (u : trace sockcall) :
  children (t ++ ((fun x => (Sock x.1, x.2)) <$> u)) = children t.
Proof.
  unfold children. rewrite foldl_app. generalize (foldl child_step ∅ t) as m.
  induction u as [|x u IH]; intros m; [done|]. cbn [fmap list_fmap foldl]. apply IH.
Qed.

(** A call that neither makes nor waits for a child. *)
Definition plain (c : hcall) : bool := match c with Fork _ | Waitpid => false | _ => true end.

Lemma children_plain t c r : plain c = true -> children (t ++ [(c, r)]) = children t.
Proof. intros Hc. rewrite children_snoc. by destruct c. Qed.

(** ** Slots *)

(** The process of the slot runs. *)
Definition live (p : proc) : bool := negb (p_pid p =? 0) && negb (has (p_flags p) P_STATUS).

Definition name_of (p : proc) : list Z := upto_nul (p_name p).

Fixpoint nlive (l : list proc) : Z :=
  match l with [] => 0 | p :: l => (if live p then 1 else 0) + nlive l end.

Lemma nlive_insert l i p p' :
  l !! i = Some p ->
  nlive (<[i := p']> l) + (if live p then 1 else 0) = nlive l + (if live p' then 1 else 0).
Proof.
  revert i. induction l as [|q l IH]; intros [|i] Hi; simpl in Hi; try done.
  - injection Hi as ->. simpl. lia.
  - specialize (IH _ Hi). simpl. lia.
Qed.

Lemma nlive_bounds l : 0 <= nlive l <= zlen l.
Proof. induction l as [|p l IH]; simpl; [lia|]. destruct (live p); lia. Qed.

Section svctable.
Context `{HC : !Config}.

Definition path_of (p : proc) : list Z := INITDIR ++ [47] ++ name_of p.

Record slot_ok (m : gmap Z job) (p : proc) : Prop := {
  so_name : length (p_name p) = 16%nat;
  so_free : p_flags p = 0 -> p_pid p = 0 /\ name_of p = [];
  so_bit : p_flags p <> 0 -> has (p_flags p) P_IN_USE = true;
  so_pid : live p = true -> 0 < p_pid p;
  so_child : live p = true -> exists b, m !! p_pid p = Some (Service (path_of p) b) }.

(** The script [s], if it runs, is the only child that runs a script. *)
Definition scripts_ok (s : Z) (m : gmap Z job) : Prop :=
  (0 < s -> exists path arg, m !! s = Some (Script path arg)) /\
  forall pid path arg, m !! pid = Some (Script path arg) -> pid = s.

Lemma scripts_service s m pid path b :
  m !! pid = None -> scripts_ok s m -> scripts_ok s (<[pid := Service path b]> m).
Proof.
  intros Hn [H1 H2]. split.
  - intros Hs. destruct (H1 Hs) as (path' & arg & Hm). exists path', arg. rewrite lookup_insert_ne; [done|congruence].
  - intros q path' arg Hq. destruct (decide (pid = q)) as [<-|]; [by rewrite lookup_insert_eq in Hq|].
    rewrite lookup_insert_ne in Hq by done. by eapply H2.
Qed.

Lemma scripts_delete s m pid : pid <> s -> scripts_ok s m -> scripts_ok s (delete pid m).
Proof.
  intros Hn [H1 H2]. split.
  - intros Hs. destruct (H1 Hs) as (path & arg & Hm). exists path, arg. by rewrite lookup_delete_ne.
  - intros q path arg [_ Hq]%lookup_delete_Some. by eapply H2.
Qed.

(** The table of processes [l], of which [n] slots were used so far, the count
    [a] and the script [s] agree with the children [m]. *)
Record body (l : list proc) (n a s : Z) (m : gmap Z job) : Prop := {
  b_len : length l = 70%nat;
  b_n : 0 <= n <= NPROCS;
  b_tail : forall i p, l !! i = Some p -> n <= Z.of_nat i -> p_flags p = 0;
  b_slot : forall i p, l !! i = Some p -> slot_ok m p;
  b_uniq : forall i j p q, l !! i = Some p -> l !! j = Some q -> i <> j ->
    live p = true -> live q = true -> p_pid p <> p_pid q;
  b_names : forall i j p q, l !! i = Some p -> l !! j = Some q -> i <> j ->
    name_of p <> [] -> name_of p <> name_of q;
  b_track : forall pid path b, m !! pid = Some (Service path b) ->
    exists i p, l !! i = Some p /\ live p = true /\ p_pid p = pid;
  b_alive : a = nlive l;
  b_script : scripts_ok s m }.

Lemma lookup_set (l : list proc) i j p' q :
  <[i := p']> l !! j = Some q -> (i = j /\ q = p') \/ (i <> j /\ l !! j = Some q).
Proof.
  destruct (decide (i = j)) as [<-|]; intros Hj.
  - left. split; [done|]. destruct (l !! i) eqn:E; [|by rewrite list_insert_ge in Hj; [congruence|by apply lookup_ge_None]].
    rewrite list_lookup_insert_eq in Hj by (eapply lookup_lt_Some; done). congruence.
  - right. by rewrite list_lookup_insert_ne in Hj.
Qed.

Lemma live_zero : live zero_proc = false.
Proof. reflexivity. Qed.

(** The table after a change of slot [i]: what has to be shown. *)
Lemma body_set l n a s m i p p' a' s' m' :
  body l n a s m -> l !! i = Some p -> Z.of_nat i < n ->
  slot_ok m' p' ->
  (forall j q, i <> j -> l !! j = Some q -> live q = true -> m' !! p_pid q = m !! p_pid q) ->
  (forall j q, i <> j -> l !! j = Some q -> live q = true -> live p' = true -> p_pid q <> p_pid p') ->
  (name_of p' = name_of p \/ forall j q, i <> j -> l !! j = Some q -> name_of p' <> [] -> name_of p' <> name_of q) ->
  (forall pid path b, m' !! pid = Some (Service path b) ->
     (live p' = true /\ p_pid p' = pid) \/
     (m !! pid = Some (Service path b) /\ (live p = true -> p_pid p <> pid))) ->
  a' = a - (if live p then 1 else 0) + (if live p' then 1 else 0) ->
  scripts_ok s' m' ->
  body (<[i := p']> l) n a' s' m'.
Proof.
  intros [Hlen Hn Htail Hslot Huniq Hnames Htrack Halive Hscr] Hi Hin Hp' Hm Hpid Hname Htr Ha Hs. split.
  - by rewrite length_insert.
  - done.
  - intros j q [[<- ->]|[? Hj]]%lookup_set Hge; [lia|by eapply Htail].
  - intros j q [[<- ->]|[Hne Hj]]%lookup_set; [done|]. destruct (Hslot _ _ Hj) as [H1 H2 H2' H3 H4].
    split; [done|done|done|done|]. intros Hl. rewrite (Hm _ _ Hne Hj Hl). auto.
  - intros j k q r [[<- ->]|[Hj1 Hj]]%lookup_set [[<- ->]|[Hk1 Hk]]%lookup_set Hne Hlq Hlr; [done| | |by eapply Huniq].
    + apply not_eq_sym. by eapply Hpid.
    + by eapply Hpid.
  - intros j k q r [[<- ->]|[Hj1 Hj]]%lookup_set [[<- ->]|[Hk1 Hk]]%lookup_set Hne Hnm; [done| | |by eapply Hnames].
    + destruct Hname as [He|Hname]; [rewrite He in *; by eapply Hnames|by eapply Hname].
    + destruct Hname as [He|Hname]; [rewrite He; by eapply (Hnames j i)|].
      intros Heq. rewrite Heq in Hnm. by eapply (Hname j q).
  - intros pid path b [[? ?]|[Hmp Hnp]]%Htr.
    + exists i, p'. split; [|done]. apply list_lookup_insert_eq. by eapply lookup_lt_Some.
    + destruct (Htrack _ _ _ Hmp) as (j & q & Hj & Hl & <-). exists j, q. split; [|done].
      rewrite list_lookup_insert_ne; [done|]. intros <-. rewrite Hi in Hj. injection Hj as <-. by apply Hnp.
  - pose proof (nlive_insert l i p p' Hi). lia.
  - done.
Qed.

(** The slot keeps its process. *)
Lemma body_same l n a s m i p p' :
  body l n a s m -> l !! i = Some p -> Z.of_nat i < n ->
  p_name p' = p_name p -> live p' = live p -> p_pid p' = p_pid p -> (p_flags p' = 0 -> p_flags p = 0) ->
  (p_flags p' <> 0 -> has (p_flags p') P_IN_USE = true) ->
  body (<[i := p']> l) n a s m.
Proof.
  intros Hb Hi Hin Hn Hl Hp Hf Hbit. pose proof (b_slot _ _ _ _ _ Hb _ _ Hi) as [H1 H2 H2' H3 H4].
  assert (name_of p' = name_of p) as Hnm by (unfold name_of; by rewrite Hn).
  eapply body_set; [done..|split| | | | | |].
  - by rewrite Hn.
  - rewrite Hp, Hnm. auto.
  - done.
  - rewrite Hl, Hp. done.
  - rewrite Hl, Hp. unfold path_of. rewrite Hnm. done.
  - done.
  - intros j q Hne Hj Hlq Hl'. rewrite Hl in Hl'. rewrite Hp. apply not_eq_sym. by eapply (b_uniq _ _ _ _ _ Hb).
  - by left.
  - intros pid path b Hm. destruct (b_track _ _ _ _ _ Hb _ _ _ Hm) as (j & q & Hj & Hlq & <-).
    destruct (decide (i = j)) as [<-|Hne].
    + rewrite Hi in Hj. injection Hj as <-. left. by rewrite Hl, Hp.
    + right. split; [done|]. intros Hlp. by eapply (b_uniq _ _ _ _ _ Hb).
  - rewrite Hl. lia.
  - apply (b_script _ _ _ _ _ Hb).
Qed.

(** A slot without a process gets other contents without a process. *)
Lemma body_idle l n a s m i p p' :
  body l n a s m -> l !! i = Some p -> Z.of_nat i < n ->
  live p = false -> live p' = false -> length (p_name p') = 16%nat -> (p_flags p' = 0 -> p_pid p' = 0 /\ name_of p' = []) ->
  (p_flags p' <> 0 -> has (p_flags p') P_IN_USE = true) ->
  (name_of p' = name_of p \/ forall j q, i <> j -> l !! j = Some q -> name_of p' <> [] -> name_of p' <> name_of q) ->
  body (<[i := p']> l) n a s m.
Proof.
  intros Hb Hi Hin Hl Hl' Hn Hf Hbit Hnm. eapply body_set; [done..|split| | | | | |]; try done.
  - by rewrite Hl'.
  - by rewrite Hl'.
  - intros. congruence.
  - intros pid path b Hm. right. split; [done|]. by rewrite Hl.
  - rewrite Hl, Hl'. lia.
  - apply (b_script _ _ _ _ _ Hb).
Qed.

(** A slot without a process gets a new one. *)
Lemma body_fork l n a s m i p p' b :
  body l n a s m -> l !! i = Some p -> Z.of_nat i < n -> live p = false ->
  live p' = true -> 0 < p_pid p' -> p_name p' = p_name p -> p_flags p' <> 0 -> has (p_flags p') P_IN_USE = true ->
  m !! p_pid p' = None ->
  body (<[i := p']> l) n (a + 1) s (<[p_pid p' := Service (path_of p) b]> m).
Proof.
  intros Hb Hi Hin Hl Hl' Hp Hn Hf Hbit Hm. pose proof (b_slot _ _ _ _ _ Hb _ _ Hi) as [H1 _ _ _ _].
  assert (name_of p' = name_of p) as Hnm by (unfold name_of; by rewrite Hn).
  assert (forall j q, i <> j -> l !! j = Some q -> live q = true -> p_pid q <> p_pid p') as Hne.
  { intros j q _ Hj Hq He. destruct (so_child _ _ (b_slot _ _ _ _ _ Hb _ _ Hj) Hq) as [b' Hb'].
    rewrite He in Hb'. congruence. }
  eapply body_set; [done..|split| | | | | |].
  - by rewrite Hn.
  - done.
  - done.
  - done.
  - intros _. exists b. rewrite lookup_insert_eq. unfold path_of. by rewrite Hnm.
  - intros j q Hij Hj Hq. rewrite lookup_insert_ne; [done|]. apply not_eq_sym. by eapply Hne.
  - intros. by eapply Hne.
  - by left.
  - intros pid path b' Hpid. destruct (decide (p_pid p' = pid)) as [<-|?]; [by left|].
    rewrite lookup_insert_ne in Hpid by done. right. split; [done|]. by rewrite Hl.
  - rewrite Hl, Hl'. lia.
  - by apply scripts_service, (b_script _ _ _ _ _ Hb).
Qed.

(** The process of a slot was waited for. *)
Lemma body_death l n a s m i p p' :
  body l n a s m -> l !! i = Some p -> Z.of_nat i < n -> live p = true ->
  live p' = false -> p_name p' = p_name p -> (p_flags p' = 0 -> p_pid p' = 0 /\ name_of p' = []) ->
  (p_flags p' <> 0 -> has (p_flags p') P_IN_USE = true) -> p_pid p <> s ->
  body (<[i := p']> l) n (a - 1) s (delete (p_pid p) m).
Proof.
  intros Hb Hi Hin Hl Hl' Hn Hf Hbit Hs. pose proof (b_slot _ _ _ _ _ Hb _ _ Hi) as [H1 _ _ _ _].
  assert (name_of p' = name_of p) as Hnm by (unfold name_of; by rewrite Hn).
  eapply body_set; [done..|split| | | | | |].
  - by rewrite Hn.
  - done.
  - done.
  - by rewrite Hl'.
  - by rewrite Hl'.
  - intros j q Hij Hj Hq. rewrite lookup_delete_ne; [done|]. by eapply (b_uniq _ _ _ _ _ Hb).
  - intros. congruence.
  - by left.
  - intros pid path b Hpid. apply lookup_delete_Some in Hpid as [Hne Hpid]. by right.
  - rewrite Hl, Hl'. lia.
  - by apply scripts_delete, (b_script _ _ _ _ _ Hb).
Qed.

(** A script was started, or a child that is not a service was waited for. *)
Lemma body_children l n a s m s' m' :
  body l n a s m ->
  (forall pid path b, m !! pid = Some (Service path b) <-> m' !! pid = Some (Service path b)) ->
  scripts_ok s' m' ->
  body l n a s' m'.
Proof.
  intros [Hlen Hn Htail Hslot Huniq Hnames Htrack Halive Hscr] Hm Hs. split; try done.
  - intros i p Hi. destruct (Hslot _ _ Hi) as [H1 H2 H2' H3 H4]. split; try done.
    intros [b Hb]%H4. exists b. by apply Hm.
  - intros pid path b Hpid%Hm. by eapply Htrack.
Qed.

(** The kernel's descriptor, the time and the ring do not matter. *)
Definition mild (f : proc -> proc) : Prop :=
  forall p, p_name (f p) = p_name p /\ p_pid (f p) = p_pid p /\ p_flags (f p) = p_flags p.

Lemma alter_insert_proc (l : list proc) i f p : l !! i = Some p -> alter f i l = <[i := f p]> l.
Proof.
  intros Hi. apply list_eq. intros j. destruct (decide (i = j)) as [<-|].
  - rewrite list_lookup_alter_eq, Hi, list_lookup_insert_eq by (by eapply lookup_lt_Some). done.
  - by rewrite list_lookup_alter_ne, list_lookup_insert_ne by done.
Qed.

Lemma live_mild f p : mild f -> live (f p) = live p.
Proof. intros Hf. destruct (Hf p) as (_ & H1 & H2). unfold live. by rewrite H1, H2. Qed.

Lemma body_mild l n a s m i f : mild f -> body l n a s m -> body (alter f i l) n a s m.
Proof.
  intros Hf Hb. destruct (l !! i) as [p|] eqn:Hi.
  2: { replace (alter f i l) with l; [done|]. apply list_eq. intros j. destruct (decide (i = j)) as [<-|].
       - by rewrite list_lookup_alter_eq, Hi.
       - by rewrite list_lookup_alter_ne. }
  rewrite (alter_insert_proc _ _ _ _ Hi). destruct (Hf p) as (H1 & H2 & H3).
  destruct (Z.ltb_spec (Z.of_nat i) n) as [Hin|Hge].
  { eapply body_same; [done..|by apply live_mild|done|congruence|].
    rewrite H3. apply (so_bit _ _ (b_slot _ _ _ _ _ Hb _ _ Hi)). }
  pose proof (live_mild f p Hf) as Hl. pose proof (b_slot _ _ _ _ _ Hb _ _ Hi) as Hs.
  assert (name_of (f p) = name_of p) as Hnm by (unfold name_of; by rewrite H1).
  destruct Hb as [Hlen Hn Htail Hslot Huniq Hnames Htrack Halive Hscr].
  assert (forall j q, <[i := f p]> l !! j = Some q -> exists r, l !! j = Some r /\ live q = live r /\
    p_pid q = p_pid r /\ p_flags q = p_flags r /\ p_name q = p_name r) as Hin.
  { intros j q [[<- ->]|[_ Hj]]%lookup_set; [by exists p|by exists q]. }
  split.
  - by rewrite length_insert.
  - done.
  - intros j q (r & Hj & _ & _ & -> & _)%Hin. by apply Htail.
  - intros j q (r & Hj & E1 & E2 & E3 & E4)%Hin. destruct (Hslot _ _ Hj) as [S1 S2 S2' S3 S4].
    assert (name_of q = name_of r) as E5 by (unfold name_of; by rewrite E4).
    split; rewrite ?E1, ?E2, ?E3, ?E4, ?E5; try done. unfold path_of. by rewrite E5.
  - intros j k q q' (r & Hj & E1 & E2 & _)%Hin (r' & Hk & E1' & E2' & _)%Hin ?. rewrite E1, E1', E2, E2'. by eapply Huniq.
  - intros j k q q' (r & Hj & _ & _ & _ & E4)%Hin (r' & Hk & _ & _ & _ & E4')%Hin ?. unfold name_of.
    rewrite E4, E4'. by eapply Hnames.
  - intros pid path b (j & q & Hj & Hlq & Hq)%Htrack. destruct (decide (i = j)) as [<-|Hne].
    + rewrite Hi in Hj. injection Hj as <-. exists i, (f p).
      rewrite list_lookup_insert_eq by (by eapply lookup_lt_Some). by rewrite Hl, H2.
    + exists j, q. by rewrite list_lookup_insert_ne.
  - pose proof (nlive_insert l i p (f p) Hi). rewrite Hl in *. lia.
  - done.
Qed.
End svctable.

(** ** The hub *)

Section hub.
Context `{HK : !Kern hcall} `{HL : !Locals} `{HC : !Config}.

(** The table agrees with the children. *)
Definition ok (h : hub) (t : trace hcall) : Prop :=
  body (procs h) (nprocs h) (nalive h) (scrpid h) (children t).

(** The slot has no process any more, whatever its pid [z] says: a new one may be
    started, or the slot marked. *)
Definition idle (p : proc) : proc := p <| p_pid := 0 |>.
Definition limbo (i : nat) (z : Z) (h : hub) (t : trace hcall) : Prop :=
  exists p, procs h !! i = Some p /\ Z.of_nat i < nprocs h /\ p_flags p <> 0 /\
    has (p_flags p) P_STATUS = false /\ p_pid p = z /\
    body (<[i := idle p]> (procs h)) (nprocs h) (nalive h) (scrpid h) (children t).

(** Slot [i] may be wiped. *)
Definition wipeable (i : nat) (h : hub) (t : trace hcall) : Prop :=
  exists p, procs h !! i = Some p /\
    body (<[i := zero_proc]> (procs h)) (nprocs h) (nalive h) (scrpid h) (children t).

(** Steps that do not concern the table: they keep the state of the hub, an
    agreement, and an agreement but for one slot. *)
Definition tame : relation (hub * trace hcall) := fun a b =>
  h_state b.1 = h_state a.1 /\ (ok a.1 a.2 -> ok b.1 b.2) /\
  nprocs b.1 = nprocs a.1 /\
  (forall i z, limbo i z a.1 a.2 -> limbo i z b.1 b.2) /\
  forall i, wipeable i a.1 a.2 -> wipeable i b.1 b.2.

#[local] Instance tame_preorder : PreOrder tame.
Proof.
  split; [intros a; by split_and!|]. intros a b c (H1 & H2 & H3 & H4 & H5) (H6 & H7 & H8 & H9 & H10).
  split_and!; [congruence|auto|congruence|auto|auto].
Qed.

Lemma tame_call c : plain c = true -> xkeeps tame (xcall c).
Proof.
  intros Hc. apply xkeeps_call. intros h t r. unfold tame, ok, limbo, wipeable. cbn [fst snd].
  by rewrite children_plain.
Qed.

Lemma tame_embed {A} (m : sys sockcall A) : xkeeps tame (xembed Sock m).
Proof. apply xkeeps_embed. intros h t u. unfold tame, ok, limbo, wipeable. cbn [fst snd]. by rewrite children_sock. Qed.

Lemma alter_insert_eq (l : list proc) i f p : alter f i (<[i := p]> l) = <[i := f p]> l.
Proof.
  destruct (decide (i < length l)%nat).
  - rewrite (alter_insert_proc _ _ _ p) by (by apply list_lookup_insert_eq). by rewrite list_insert_insert_eq.
  - rewrite !list_insert_ge by lia. apply list_eq. intros j. destruct (decide (i = j)) as [<-|].
    + rewrite list_lookup_alter_eq. rewrite lookup_ge_None_2 by lia. done.
    + by rewrite list_lookup_alter_ne.
Qed.

Lemma alter_insert_ne (l : list proc) i j f p : i <> j -> alter f j (<[i := p]> l) = <[i := p]> (alter f j l).
Proof.
  intros Hne. apply list_eq. intros k. destruct (decide (j = k)) as [<-|].
  - rewrite list_lookup_alter_eq, !list_lookup_insert_ne by done. by rewrite list_lookup_alter_eq.
  - rewrite list_lookup_alter_ne by done. destruct (decide (i = k)) as [<-|].
    + destruct (decide (i < length l)%nat).
      * rewrite !list_lookup_insert_eq by (rewrite ?length_alter; lia). done.
      * rewrite !lookup_ge_None_2 by (rewrite ?length_insert, ?length_alter; lia). done.
    + rewrite !list_lookup_insert_ne by done. by rewrite list_lookup_alter_ne.
Qed.

Lemma tame_set_proc j f : mild f -> xkeeps tame (set_proc j f).
Proof.
  intros Hf. apply xkeeps_modify. intros h t. split; [done|]. split; [by apply body_mild|]. split; [done|].
  split; [intros i z (p & Hi & Hin & Hfl & Hst & Hz & Hb)|intros i (p & Hi & Hb)];
    unfold limbo, wipeable; cbn [fst snd upd procs nprocs nalive scrpid] in *.
  2: { destruct (decide (i = j)) as [<-|Hne].
       - exists (f p). rewrite list_lookup_alter_eq, Hi, (alter_insert_proc _ _ _ _ Hi), list_insert_insert_eq. done.
       - exists p. rewrite list_lookup_alter_ne by done. split; [done|]. rewrite <- alter_insert_ne by done.
         by apply body_mild. }
  destruct (Hf p) as (H1 & H2 & H3). destruct (decide (i = j)) as [<-|Hne].
  - exists (f p). rewrite list_lookup_alter_eq, Hi, (alter_insert_proc _ _ _ _ Hi), list_insert_insert_eq, H2, H3.
    split_and!; try done. rewrite <- (list_insert_insert_eq (procs h) i (idle (f p)) (idle p)).
    pose proof (list_lookup_insert_eq _ _ (idle p) (lookup_lt_Some _ _ _ Hi)) as Hi'.
    eapply (body_same _ _ _ _ _ i (idle p)); [done..|exact H1|done|done|by cbn; rewrite H3|].
    cbn. rewrite H3. apply (so_bit _ _ (b_slot _ _ _ _ _ Hb _ _ Hi')).
  - exists p. rewrite list_lookup_alter_ne by done. split_and!; try done.
    rewrite <- alter_insert_ne by done. by apply body_mild.
Qed.

Lemma tame_set_conn i f : xkeeps tame (set_conn i f).
Proof. apply xkeeps_modify. intros h t. by split_and!. Qed.

Lemma tame_set_hub f :
  (forall h, h_state (f h) = h_state h /\ procs (f h) = procs h /\ nprocs (f h) = nprocs h /\
     nalive (f h) = nalive h /\ scrpid (f h) = scrpid h) -> xkeeps tame (set_hub f).
Proof.
  intros Hf. apply xkeeps_modify. intros h t. destruct (Hf h) as (H1 & H2 & H3 & H4 & H5).
  unfold tame, ok, limbo, wipeable. cbn [fst snd]. by rewrite H1, H2, H3, H4, H5.
Qed.

Ltac tame_leaf :=
  first [apply tame_embed | apply tame_set_conn
    | apply tame_call; reflexivity
    | apply tame_set_proc; intros ?; repeat split
    | apply tame_set_hub; intros ?; repeat split].

Hint Extern 0 (xkeeps tame (xcall _)) => tame_leaf : xkeeps.
Hint Extern 0 (xkeeps tame (xembed _ _)) => tame_leaf : xkeeps.
Hint Extern 0 (xkeeps tame (set_proc _ _)) => tame_leaf : xkeeps.
Hint Extern 0 (xkeeps tame (set_conn _ _)) => tame_leaf : xkeeps.
Hint Extern 0 (xkeeps tame (set_hub _)) => tame_leaf : xkeeps.

Tactic Notation "tame_unfold" reference(f) := unfold f, xret, get_proc, get_conn, xfind, fail; xkeeps_steps.

Lemma close_conn_tame i : xkeeps tame (close_conn i).
Proof. unfold del_epoll_fd. tame_unfold close_conn. tame_unfold del_epoll_fd. Qed.
Hint Resolve close_conn_tame : xkeeps.

Lemma notify_tame i uc : xkeeps tame (notify i uc).
Proof. tame_unfold notify. Qed.
Hint Resolve notify_tame : xkeeps.

Lemma notify_dead_tame pid : xkeeps tame (notify_dead pid).
Proof.
  tame_unfold notify_dead. generalize 0%nat as i. induction (Z.to_nat x) as [|n IH]; intros i; cbn [notify_loop].
  - xkeeps_steps.
  - unfold get_conn. xkeeps_steps.
Qed.
Hint Resolve notify_dead_tame : xkeeps.

Lemma add_epoll_fd_tame fd key : xkeeps tame (add_epoll_fd fd key).
Proof. tame_unfold add_epoll_fd. Qed.
Hint Resolve add_epoll_fd_tame : xkeeps.

Lemma save_child_pipe_tame i pipe : xkeeps tame (save_child_pipe i pipe).
Proof. unfold add_proc_fd. tame_unfold save_child_pipe. tame_unfold add_proc_fd. Qed.
Hint Resolve save_child_pipe_tame : xkeeps.

Lemma update_proc_time_tame i : xkeeps tame (update_proc_time i).
Proof. tame_unfold update_proc_time. Qed.
Hint Resolve update_proc_time_tame : xkeeps.

Lemma ran_long_enough_tame i : xkeeps tame (ran_long_enough i).
Proof. tame_unfold ran_long_enough. Qed.
Hint Resolve ran_long_enough_tame : xkeeps.

Lemma flush_ring_buf_tame i : xkeeps tame (flush_ring_buf i).
Proof. tame_unfold flush_ring_buf. Qed.
Hint Resolve flush_ring_buf_tame : xkeeps.

Lemma close_proc_tame i : xkeeps tame (close_proc i).
Proof. tame_unfold close_proc. unfold del_epoll_fd. tame_unfold del_epoll_fd. Qed.
Hint Resolve close_proc_tame : xkeeps.

Lemma check_proc_tame i : xkeeps tame (check_proc i).
Proof. unfold check_proc, read_ring. tame_unfold get_proc. Qed.
Hint Resolve check_proc_tame : xkeeps.

Lemma send_reply_tame i uc : xkeeps tame (send_reply i uc).
Proof. tame_unfold send_reply. Qed.
Hint Resolve send_reply_tame : xkeeps.

Lemma send_multi_tame i iov : xkeeps tame (send_multi i iov).
Proof. tame_unfold send_multi. Qed.
Hint Resolve send_multi_tame : xkeeps.

Lemma send_code_tame i err : xkeeps tame (send_code i err).
Proof. tame_unfold send_code. Qed.
Hint Resolve send_code_tame : xkeeps.

Lemma flush_proc_tame name : xkeeps tame (flush_proc name).
Proof. tame_unfold flush_proc. Qed.
Hint Resolve flush_proc_tame : xkeeps.

Lemma kill_proc_tame name sig : xkeeps tame (kill_proc name sig).
Proof. tame_unfold kill_proc. Qed.
Hint Resolve kill_proc_tame : xkeeps.

Lemma grab_conn_slot_tame : xkeeps tame grab_conn_slot.
Proof.
  unfold grab_conn_slot, get_conn. xkeeps_steps. generalize 0%nat as i.
  induction (Z.to_nat x) as [|n IH]; intros i; xkeeps_steps.
Qed.
Hint Resolve grab_conn_slot_tame : xkeeps.

Lemma check_socket_tame : xkeeps tame check_socket.
Proof. unfold check_socket, add_conn_fd. tame_unfold xret. Qed.
Hint Resolve check_socket_tame : xkeeps.

(** A tame step in a run. *)
Lemma tame_wp {A} (m : H A) h t (Q : A -> hub -> trace hcall -> Prop) :
  xkeeps tame m -> (forall x h' t', tame (h, t) (h', t') -> Q x h' t') -> xwlp m h t Q.
Proof. apply xwp_keeps. Qed.

(** What the kernel is trusted with: a fork succeeds, as long as there are no more
    children than slots and a script, and the new child has a pid that no other
    child has; a child can be sent a signal until it was waited for; [pipe2]
    returns zero or an error; what is stored in memory are bytes. *)
Record sane : Prop := {
  sane_fork : forall t j, (size (children t) <= 71)%nat ->
    let pid := s32 (ret (kern t (Fork j))) in 0 < pid /\ children t !! pid = None;
  sane_kill : forall t pid sig, is_Some (children t !! pid) -> 0 <= s32 (ret (kern t (Kill pid sig)));
  sane_pipe : forall t, s32 (ret (kern t Pipe2)) <= 0;
  sane_bytes : forall t c, bytes (out (kern t c));
  sane_junk : forall n, bytes (junk n) }.

Lemma children_pos t pid j : children t !! pid = Some j -> 0 < pid.
Proof.
  revert pid j. induction t as [|[c r] t IH] using rev_ind; intros pid j Hc.
  { change (children []) with (∅ : gmap Z job) in Hc. by rewrite lookup_empty in Hc. }
  rewrite children_snoc in Hc. unfold child_step in Hc. cbn [fst snd] in Hc. destruct c; try by eapply IH.
  - destruct (Z.ltb_spec 0 (s32 (ret r))); [|by eapply IH].
    apply lookup_insert_Some in Hc as [[<- _]|[_ Hc]]; [done|by eapply IH].
  - destruct (Z.ltb_spec 0 (s32 (ret r))); [|by eapply IH].
    apply lookup_delete_Some in Hc as [_ Hc]. by eapply IH.
Qed.

(** There are no more children than slots, and a script. *)
Lemma body_size l n a s m : body l n a s m -> (size m <= 71)%nat.
Proof.
  intros Hb. rewrite <- size_dom. set (pids := s :: (p_pid <$> l)).
  transitivity (size (list_to_set pids : gset Z)).
  - apply subseteq_size. intros pid Hpid. apply elem_of_dom in Hpid as [[path b|path arg] Hm]; apply elem_of_list_to_set.
    + destruct (b_track _ _ _ _ _ Hb _ _ _ Hm) as (i & p & Hi & _ & <-). apply list_elem_of_further.
      apply list_elem_of_fmap. exists p. split; [done|]. by eapply list_elem_of_lookup_2.
    + destruct (b_script _ _ _ _ _ Hb) as [_ Hone]. rewrite (Hone _ _ _ Hm). apply list_elem_of_here.
  - transitivity (length pids); [|unfold pids; simpl; rewrite length_fmap, (b_len _ _ _ _ _ Hb); lia].
    generalize pids. clear. intros pids. induction pids as [|x l IH]; [by rewrite list_to_set_nil, size_empty|].
    rewrite list_to_set_cons, size_union_alt, size_singleton. transitivity (1 + size (list_to_set l : gset Z))%nat; [|simpl; lia].
    apply Nat.add_le_mono_l, subseteq_size. set_solver.
Qed.

(** ** Flags *)

Lemma has_pow2 f k : 0 <= k -> has f (2 ^ k) = Z.testbit f k.
Proof.
  intros Hk. unfold has. destruct (Z.testbit f k) eqn:E.
  - apply negb_true_iff, Z.eqb_neq. intros H0. assert (Z.testbit (Z.land f (2 ^ k)) k = true) as H1.
    { by rewrite Z.land_spec, E, Z.pow2_bits_true. }
    rewrite H0, Z.bits_0 in H1. done.
  - apply negb_false_iff, Z.eqb_eq. apply Z.bits_inj'. intros n Hn. rewrite Z.land_spec, Z.bits_0.
    destruct (decide (n = k)) as [->|]; [by rewrite E|]. rewrite Z.pow2_bits_false by lia. apply andb_false_r.
Qed.

Lemma has_lor f g k : 0 <= k -> has (Z.lor f g) (2 ^ k) = has f (2 ^ k) || has g (2 ^ k).
Proof. intros. rewrite !has_pow2 by done. apply Z.lor_spec. Qed.

Lemma has_clear f g k :
  0 <= k -> has (Z.land f (Z.lnot g)) (2 ^ k) = has f (2 ^ k) && negb (has g (2 ^ k)).
Proof. intros. rewrite !has_pow2, Z.land_spec, Z.lnot_spec by done. done. Qed.

Lemma has_nonzero f k : 0 <= k -> has f (2 ^ k) = true -> f <> 0.
Proof. intros Hk Hh ->. rewrite has_pow2, Z.bits_0 in Hh by done. done. Qed.

Lemma in_use_lor f g : has f P_IN_USE = true -> has (Z.lor f g) P_IN_USE = true.
Proof. change P_IN_USE with (2 ^ 0). intros Hf. rewrite has_lor by done. by rewrite Hf. Qed.

Lemma in_use_nonzero f : has f P_IN_USE = true -> f <> 0.
Proof. by apply (has_nonzero f 0). Qed.

(** ** Names *)

Definition plain_name (name : list Z) : Prop := Forall (fun c => 0 < c < 256) name.

Lemma upto_nul_plain l : bytes l -> plain_name (upto_nul l).
Proof.
  induction 1 as [|c l Hc Hl IH]; simpl; [constructor|].
  destruct (Z.eqb_spec c 0); [constructor|]. constructor; [lia|done].
Qed.

Lemma upto_nul_app name l : plain_name name -> upto_nul (name ++ 0 :: l) = name.
Proof.
  induction 1 as [|c name Hc Hn IH]; simpl; [done|]. destruct (Z.eqb_spec c 0); [lia|]. by rewrite IH.
Qed.

Lemma upto_nul_whole name : plain_name name -> upto_nul name = name.
Proof. induction 1 as [|c name Hc Hn IH]; simpl; [done|]. destruct (Z.eqb_spec c 0); [lia|]. by rewrite IH. Qed.

Lemma strcmpn_self a : strcmpn_l a (upto_nul a ++ [0]) = Some 0.
Proof.
  induction a as [|c a IH]; [reflexivity|]. cbn [upto_nul].
  destruct (Z.eqb_spec c 0) as [->|Hc]; [reflexivity|]. cbn [app strcmpn_l].
  rewrite Z.sub_diag. simpl. rewrite (proj2 (Z.eqb_neq _ _)) by done. exact IH.
Qed.

Lemma s8_nonzero c : 0 < c < 256 -> s8 c <> 0.
Proof.
  intros Hc. unfold swrap. change (2 ^ (8 - 1)) with 128. change (2 ^ 8) with 256.
  Z.div_mod_to_equations. lia.
Qed.

Lemma strcmpn_nonempty a c name :
  0 < c < 256 -> a <> [] -> strcmpn_l a ((c :: name) ++ [0]) = Some 0 -> upto_nul a <> [].
Proof.
  intros Hc Ha. destruct a as [|ac a]; [done|]. simpl.
  destruct (Z.eqb_spec ac 0) as [->|]; [|done]. rewrite orb_true_r. intros [= H0].
  pose proof (s8_nonzero c Hc). change (s8 0) with 0 in H0. lia.
Qed.

Lemma name_loop_found n i l name k :
  name_loop n i l name = Some (Some k) ->
  (i <= k < i + n)%nat /\ exists p, l !! k = Some p /\ strcmpn_l (p_name p) (name ++ [0]) = Some 0.
Proof.
  revert i. induction n as [|n IH]; intros i; [done|]. cbn [name_loop].
  destruct (l !! i) as [p|] eqn:Hi; [|done]. rewrite Some_bind.
  destruct (strcmpn_l _ _) as [d|] eqn:Hd; [|done]. rewrite Some_bind.
  destruct (Z.eqb_spec d 0) as [->|].
  - intros [= <-]. split; [lia|]. by exists p.
  - intros [? ?]%IH. split; [lia|done].
Qed.

Lemma name_loop_none n i l name :
  name_loop n i l name = Some None ->
  forall k p, (i <= k < i + n)%nat -> l !! k = Some p -> upto_nul (p_name p) <> name.
Proof.
  revert i. induction n as [|n IH]; intros i Hl k p Hk Hp; [lia|]. cbn [name_loop] in Hl.
  destruct (l !! i) as [q|] eqn:Hi; [|done]. rewrite Some_bind in Hl.
  destruct (strcmpn_l _ _) as [d|] eqn:Hd; [|done]. rewrite Some_bind in Hl.
  destruct (Z.eqb_spec d 0) as [->|Hd0]; [done|]. destruct (decide (k = i)) as [->|].
  - rewrite Hi in Hp. injection Hp as ->. intros <-. rewrite strcmpn_self in Hd. congruence.
  - eapply IH; [exact Hl| |done]. lia.
Qed.

Lemma find_found h t name i :
  ok h t -> plain_name name -> find_by_name h name = Some (Some i) ->
  exists p, procs h !! i = Some p /\ Z.of_nat i < nprocs h /\ p_flags p <> 0 /\ has (p_flags p) P_IN_USE = true.
Proof.
  intros Hb Hn Hf. unfold find_by_name in Hf. destruct name as [|c name]; [done|]. inversion Hn; subst.
  apply name_loop_found in Hf as [Hi (p & Hp & Hs)]. exists p. split; [done|].
  pose proof (b_n _ _ _ _ _ Hb) as Hb_n. split; [lia|]. pose proof (b_slot _ _ _ _ _ Hb _ _ Hp) as Hslot.
  assert (p_flags p <> 0) as Hfl.
  { intros H0. destruct (so_free _ _ Hslot H0) as [_ Hnm]. revert Hnm. eapply strcmpn_nonempty; [done| |done].
    intros He. pose proof (so_name _ _ Hslot) as Hl. rewrite He in Hl. done. }
  split; [done|]. by apply (so_bit _ _ Hslot).
Qed.

(** ** Starting a process *)

Lemma get_proc_lookup i h t p (Q : proc -> hub -> trace hcall -> Prop) :
  procs h !! i = Some p -> Q p h t -> xwlp (get_proc i) h t Q.
Proof. intros Hi HQ. unfold get_proc. xwp_steps. rewrite Hi. exact HQ. Qed.

Lemma limbo_plain i z h t c r : plain c = true -> limbo i z h t -> limbo i z h (t ++ [(c, r)]).
Proof. intros Hc. unfold limbo. by rewrite children_plain. Qed.

(** A fork in a slot without a process. *)
Lemma ok_fork i z h t p pid path b r :
  limbo i z h t -> procs h !! i = Some p -> path = path_of p -> s32 (ret r) = pid -> 0 < pid ->
  children t !! pid = None ->
  ok (h <| procs ::= alter (fun p => p <| p_pid := pid |>) i |> <| nalive ::= fun n => s32 (n + 1) |>)
     (t ++ [(Fork (Service path b), r)]).
Proof.
  intros (q & Hi & Hin & Hfl & Hst & _ & Hb) Hp -> Hr Hpid Hfr. rewrite Hi in Hp. injection Hp as ->.
  unfold ok. cbn [upd procs nprocs nalive scrpid]. rewrite children_snoc. unfold child_step. cbn [fst snd].
  rewrite Hr, (proj2 (Z.ltb_lt _ _)) by done. rewrite (alter_insert_proc _ _ _ _ Hi).
  assert (nalive h + 1 = s32 (nalive h + 1)) as <-.
  { rewrite s32_small; [done|]. rewrite (b_alive _ _ _ _ _ Hb).
    pose proof (nlive_bounds (<[i := idle p]> (procs h))) as Hnl. rewrite (b_len _ _ _ _ _ Hb) in Hnl. lia. }
  pose proof (list_lookup_insert_eq _ _ (idle p) (lookup_lt_Some _ _ _ Hi)) as Hi'.
  rewrite <- (list_insert_insert_eq (procs h) i (p <| p_pid := pid |>) (idle p)).
  refine (body_fork _ _ _ _ _ i (idle p) (p <| p_pid := pid |>) b Hb Hi' _ _ _ _ _ _ _ _); try done.
  - unfold live. cbn. rewrite Hst. destruct (Z.eqb_spec pid 0); [lia|done].
  - apply (so_bit _ _ (b_slot _ _ _ _ _ Hb _ _ Hi')). exact Hfl.
Qed.

(** What a function did that leaves slot [i] without a process when it fails. *)
Definition spawned (i : nat) (z : Z) (h : hub) (r : Z) (h' : hub) (t' : trace hcall) : Prop :=
  h_state h' = h_state h /\ nprocs h' = nprocs h /\ if decide (r < 0) then limbo i z h' t' else ok h' t'.

Lemma spawn_proc_wp i z h t :
  sane -> limbo i z h t -> xwlp (spawn_proc i) h t (spawned i z h).
Proof.
  intros Hk Hlim. pose proof Hlim as (p & Hi & _). unfold spawn_proc. xwp_step.
  apply (get_proc_lookup _ _ _ p); [done|]. unfold spawn_path, xret.
  assert (INITDIR ++ [47] ++ upto_nul (p_name p) = path_of p) as -> by done.
  xwp_steps; zbool.
  { unfold spawned. rewrite decide_True by done. split_and!; [done|done|]. by apply limbo_plain. }
  set (t1 := t ++ _). assert (limbo i z h t1) as Hlim1 by by apply limbo_plain.
  apply (get_proc_lookup _ _ _ p); [done|].
  assert (forall r t2 pipe b, 0 <= r -> limbo i z h t2 ->
    xwlp (f ← xcall (Fork (Service (path_of p) b));
          (if s32 (ret f) <? 0 then mret r
           else if s32 (ret f) =? 0 then fail
           else set_proc i (fun p => p <| p_pid := s32 (ret f) |>);;
                set_hub (fun h => h <| nalive ::= fun n => s32 (n + 1) |>);; save_child_pipe i pipe;; mret 0))
      h t2 (spawned i z h)) as Hgo.
  { intros r t2 pipe b Hr Hl2. xwp_step. xwp_step.
    destruct (sane_fork Hk t2 (Service (path_of p) b)) as [Hpid Hfr].
    { destruct Hl2 as (? & _ & _ & _ & _ & _ & Hb2). by eapply body_size. }
    rewrite (proj2 (Z.ltb_ge _ _)), (proj2 (Z.eqb_neq _ _)) by lia. cbv iota.
    unfold set_proc, set_hub. xwp_steps. eapply tame_wp; [apply save_child_pipe_tame|].
    intros _ h' t' (H1 & H2 & H3 & _). cbn [fst snd] in *. xwp_step. unfold spawned. rewrite decide_False by done.
    split_and!; [done|done|]. apply H2. by eapply ok_fork. }
  cbv zeta. apply xwp_if; intros _; [by apply (Hgo _ t1 None false)|].
  xwp_step. xwp_step. cbv beta. apply xwp_if; intros Hpp; zbool; [xwp_step|xwp_step].
  - apply negb_true_iff, Z.eqb_neq in Hpp. pose proof (sane_pipe Hk t1). unfold spawned. rewrite decide_True by lia.
    split_and!; [done|done|]. by apply limbo_plain.
  - apply xwp_pure; [|done]. intros fds _. apply (Hgo 0 _ (Some fds) true); [done|]. by apply limbo_plain.
Qed.

Lemma spawn_time_wp i z h t :
  sane -> limbo i z h t ->
  xwlp (r ← spawn_proc i; (if r <? 0 then mret r else update_proc_time i;; mret r)) h t (spawned i z h).
Proof.
  intros Hk Hl. xwp_step. eapply xwp_mono; [by apply spawn_proc_wp|]. intros r h1 t1 (H1 & H2 & H3).
  xwp_steps; zbool.
  - unfold spawned. by rewrite decide_True in * by done.
  - eapply tame_wp; [apply update_proc_time_tame|]. intros _ h2 t2 (H4 & H5 & H6 & _). cbn [fst snd] in *.
    xwp_step. unfold spawned. rewrite decide_False in * by lia. split_and!; [congruence|congruence|auto].
Qed.

Lemma limbo_zero i h t : limbo i 0 h t -> ok h t.
Proof.
  intros (p & Hi & _ & _ & _ & Hz & Hb). unfold ok.
  assert (<[i := idle p]> (procs h) = procs h) as <-; [|done].
  apply list_insert_id. rewrite Hi. unfold idle. destruct p. cbn in *. by subst.
Qed.

Lemma spawned_ok i h r h' t' : spawned i 0 h r h' t' -> ok h' t'.
Proof. intros (_ & _ & Hx). case_decide; [by eapply limbo_zero|done]. Qed.

(** What the commands do to the table. *)
Definition keeps_ok (h : hub) (h' : hub) (t' : trace hcall) : Prop := h_state h' = h_state h /\ ok h' t'.

Lemma restart_spawn_wp i h t :
  sane -> limbo i 0 h t -> xwlp (restart_spawn i) h t (fun _ h' t' => keeps_ok h h' t').
Proof.
  intros Hk Hl. pose proof Hl as (p & Hi & _). unfold restart_spawn. xwp_step.
  apply (get_proc_lookup _ _ _ p); [done|]. xwp_step.
  apply tame_wp; [destruct (p_buf p); xkeeps_steps|]. intros r h1 t1 (H1 & _ & H2 & H3 & _). cbn [fst snd] in *.
  apply H3 in Hl. xwp_step; [xwp_step; split; [done|by eapply limbo_zero]|].
  eapply xwp_mono; [by apply (spawn_time_wp _ 0)|]. intros r2 h2 t2 Hs. split; [|by eapply spawned_ok].
  destruct Hs as (-> & _). done.
Qed.

(** A process that is not there, with its flags cleared. *)
Lemma ok_cleared i h t p g :
  ok h t -> procs h !! i = Some p -> Z.of_nat i < nprocs h -> has (p_flags p) P_IN_USE = true -> live p = false ->
  has g P_IN_USE = false -> has (Z.land (p_flags p) (Z.lnot g)) P_STATUS = false ->
  limbo i 0 (h <| procs ::= alter (fun p => p <| p_flags ::= fun f => Z.land f (Z.lnot g) |> <| p_pid := 0 |>) i |>) t.
Proof.
  intros Hb Hi Hin Hbit Hl Hg Hst. unfold limbo. cbn [upd procs nprocs nalive scrpid].
  rewrite (alter_insert_proc _ _ _ _ Hi). set (p' := p <| p_flags ::= _ |> <| p_pid := 0 |>).
  assert (has (p_flags p') P_IN_USE = true) as Hbit'.
  { change (has (Z.land (p_flags p) (Z.lnot g)) (2 ^ 0) = true). rewrite has_clear by done.
    change (2 ^ 0) with P_IN_USE. by rewrite Hbit, Hg. }
  assert (p_flags p' <> 0) as Hnz by by apply in_use_nonzero.
  exists p'. rewrite list_lookup_insert_eq by (by eapply lookup_lt_Some). split_and!; try done.
  rewrite list_insert_insert_eq. pose proof (b_slot _ _ _ _ _ Hb _ _ Hi) as Hs.
  eapply body_idle; [done..|exact (so_name _ _ Hs)|done|done|by left].
Qed.

Lemma restart_proc_wp i flags h t p :
  sane -> ok h t -> procs h !! i = Some p -> Z.of_nat i < nprocs h -> has (p_flags p) P_IN_USE = true ->
  xwlp (restart_proc i flags) h t (fun _ h' t' => keeps_ok h h' t').
Proof.
  intros Hk Hb Hi Hin Hbit. unfold restart_proc. apply xwp_if; intros _; [by xwp_step|]. xwp_step.
  apply (get_proc_lookup _ _ _ p); [done|].
  apply xwp_if; intros Hst; [|apply xwp_if; intros Hpid; [by xwp_step|]].
  - unfold set_proc. xwp_steps. eapply xwp_mono; [apply restart_spawn_wp; [done|]|done].
    apply (ok_cleared _ _ _ p); try done.
    + unfold live. by rewrite Hst, andb_false_r.
    + change P_STATUS with (2 ^ 2). rewrite has_clear by done. apply andb_false_r.
  - apply restart_spawn_wp; [done|]. exists p. apply negb_false_iff, Z.eqb_eq in Hpid.
    split_and!; try done; [by apply in_use_nonzero|].
    replace (<[i := idle p]> (procs h)) with (procs h); [done|]. symmetry. apply list_insert_id.
    rewrite Hi. unfold idle. destruct p. cbn in *. by subst.
Qed.

Lemma first_proc_found f l i n k :
  first_proc f l i n = Some (Some k) -> (i <= k < i + n)%nat /\ exists p, l !! k = Some p /\ f p = true.
Proof.
  revert i. induction n as [|n IH]; intros i; [done|]. cbn [first_proc].
  destruct (l !! i) as [p|] eqn:Hi; [|done]. rewrite Some_bind. destruct (f p) eqn:Hf.
  - intros [= <-]. split; [lia|]. by exists p.
  - intros [? ?]%IH. split; [lia|done].
Qed.

Lemma first_proc_none f l i n :
  first_proc f l i n = Some None -> forall k p, (i <= k < i + n)%nat -> l !! k = Some p -> f p = false.
Proof.
  revert i. induction n as [|n IH]; intros i Hl k p Hk Hp; [lia|]. cbn [first_proc] in Hl.
  destruct (l !! i) as [q|] eqn:Hi; [|done]. rewrite Some_bind in Hl. destruct (f q) eqn:Hf; [done|].
  destruct (decide (k = i)) as [->|]; [congruence|]. eapply IH; [exact Hl| |done]. lia.
Qed.

(** A slot to start a process in. *)
Definition free_slot (i : nat) (h : hub) : Prop :=
  exists p, procs h !! i = Some p /\ Z.of_nat i < nprocs h /\ live p = false.

Lemma grab_proc_slot_wp h t :
  ok h t -> xwlp grab_proc_slot h t (fun r h' t' => h_state h' = h_state h /\ ok h' t' /\
    procs h' = procs h /\ match r with Some i => free_slot i h' | None => True end).
Proof.
  intros Hb. pose proof (b_n _ _ _ _ _ Hb) as Hbn. unfold grab_proc_slot. xwp_steps.
  apply xwp_pure; [|done]. intros [i|] Hf.
  - apply first_proc_found in Hf as [Hi (p & Hp & Hfl%Z.eqb_eq)]. xwp_step. split_and!; try done.
    exists p. split_and!; [done|lia|]. unfold live.
    destruct (so_free _ _ (b_slot _ _ _ _ _ Hb _ _ Hp) Hfl) as [-> _]. done.
  - xwp_step; [by xwp_step|]. zbool. unfold set_hub, NPROCS in *. xwp_steps.
    destruct (procs h !! Z.to_nat (nprocs h)) as [p|] eqn:Hp.
    2: { apply lookup_ge_None in Hp. rewrite (b_len _ _ _ _ _ Hb) in Hp. lia. }
    split_and!; try done.
    + destruct Hb as [Hlen Hn Htail Hslot Huniq Hnames Htrack Halive Hscr]. split; try done; cbn in *; [unfold NPROCS; lia|].
      intros. eapply Htail; [done|lia].
    + exists p. cbn. split_and!; [done|lia|]. unfold live.
      pose proof (b_tail _ _ _ _ _ Hb _ _ Hp ltac:(lia)) as Hfl.
      destruct (so_free _ _ (b_slot _ _ _ _ _ Hb _ _ Hp) Hfl) as [-> _]. done.
Qed.

Lemma wipe_ok i h t (Q : unit -> hub -> trace hcall -> Prop) :
  wipeable i h t ->
  (forall h', h_state h' = h_state h -> nprocs h' = nprocs h -> ok h' t -> procs h' = <[i := zero_proc]> (procs h) -> Q tt h' t) ->
  xwlp (set_proc i (fun _ => zero_proc)) h t Q.
Proof.
  intros (p & Hi & Hb) HQ. unfold set_proc. xwp_steps. apply HQ; try done; unfold ok; cbn [upd procs nprocs nalive scrpid];
    by rewrite (alter_insert_proc _ _ _ _ Hi).
Qed.

Lemma free_wipeable i h t : ok h t -> free_slot i h -> wipeable i h t.
Proof.
  intros Hb (p & Hi & Hin & Hl). exists p. split; [done|].
  eapply body_idle; [done..|by right].
Qed.

Lemma limbo_wipeable i z h t : limbo i z h t -> wipeable i h t.
Proof.
  intros (p & Hi & Hin & _ & _ & _ & Hb). exists p. split; [done|].
  rewrite <- (list_insert_insert_eq (procs h) i zero_proc (idle p)).
  pose proof (list_lookup_insert_eq _ _ (idle p) (lookup_lt_Some _ _ _ Hi)) as Hi'.
  eapply body_idle; [done..|by right].
Qed.

Lemma name_padded name nm :
  awrite (repeat 0 16) 0 name = Some nm -> plain_name name -> length nm = 16%nat /\ upto_nul nm = name.
Proof.
  assert (length (repeat 0 16) = 16%nat /\ Forall (fun c => c = 0) (repeat 0 16)) as [Hz Hz0] by by repeat constructor.
  revert Hz Hz0. generalize (repeat 0 16) as z. intros z Hz Hz0 Hw Hn.
  pose proof (awrite_inv _ _ _ _ Hw) as (_ & Hl & Hl'). split; [lia|].
  rewrite awrite_Some in Hw by lia. injection Hw as <-.
  change (take (Z.to_nat 0) z) with (@nil Z). cbn [app]. rewrite Z.add_0_l, Nat2Z.id.
  destruct (drop (length name) z) as [|c l] eqn:Hd.
  - rewrite app_nil_r. by apply upto_nul_whole.
  - assert (Forall (fun c => c = 0) (drop (length name) z)) as Hd0 by by apply Forall_drop.
    rewrite Hd in Hd0. inversion Hd0; subst. by apply upto_nul_app.
Qed.

(** No process has the name. *)
Definition fresh_name (name : list Z) (i : nat) (h : hub) : Prop :=
  forall j q, i <> j -> procs h !! j = Some q -> name <> [] -> name <> name_of q.

Lemma prep_and_start_wp i name flags h t :
  sane -> ok h t -> free_slot i h -> plain_name name -> fresh_name name i h -> has flags P_STATUS = false ->
  xwlp (prep_and_start i name flags) h t (fun r h' t' => h_state h' = h_state h /\
    if decide (r < 0) then wipeable i h' t' else ok h' t').
Proof.
  intros Hk Hb Hfree Hn Hfresh Hst. pose proof Hfree as (p & Hi & Hin & Hl). unfold prep_and_start. xwp_step.
  apply wipe_ok; [by apply free_wipeable|]. intros h1 S1 N1 Hb1 P1.
  assert (procs h1 !! i = Some zero_proc) as Hi1 by (rewrite P1; apply list_lookup_insert_eq; by eapply lookup_lt_Some).
  assert (free_slot i h1) as Hfree1 by (exists zero_proc; split_and!; [done|by rewrite N1|done]).
  xwp_step; [xwp_step; split; [done|]; by apply free_wipeable|].
  xwp_step. apply xwp_pure; [|done]. intros nm Hnm. apply name_padded in Hnm as [Hnl Hnm]; [|done].
  unfold set_proc. xwp_step. xwp_step.
  pose (p' := Proc nm 0 (-1) 0 (Z.lor P_IN_USE flags) 0 None).
  assert (has (Z.lor P_IN_USE flags) P_IN_USE = true) as Hbit by by apply in_use_lor.
  eapply xwp_mono; [apply (spawn_time_wp i 0); [done|]|].
  - exists p'. cbn [upd procs nprocs nalive scrpid]. rewrite (alter_insert_proc _ _ _ _ Hi1).
    change (zero_proc <| p_flags := _ |> <| p_fd := _ |> <| p_name := _ |>) with p'.
    rewrite list_lookup_insert_eq by (by eapply lookup_lt_Some). split_and!; [done|by rewrite N1|by apply in_use_nonzero| |done|].
    + change P_STATUS with (2 ^ 2). change (p_flags p') with (Z.lor P_IN_USE flags). rewrite has_lor by done.
      change (2 ^ 2) with P_STATUS. by rewrite Hst.
    + rewrite list_insert_insert_eq. change (idle p') with p'.
      eapply body_idle; [done..|by rewrite N1|done|done|exact Hnl|by intros ?%in_use_nonzero|done|].
      right. intros j q Hij Hj. change (name_of p') with (upto_nul nm). rewrite Hnm.
      apply (Hfresh j q Hij). rewrite P1, list_lookup_insert_ne in Hj by done. done.
  - intros r h2 t2 (S2 & N2 & Hx). split; [by rewrite S2|]. case_decide; [by eapply limbo_wipeable|done].
Qed.

Lemma start_proc_wp name flags h t :
  sane -> ok h t -> plain_name name -> has flags P_STATUS = false ->
  xwlp (start_proc name flags) h t (fun _ h' t' => keeps_ok h h' t').
Proof.
  intros Hk Hb Hn Hst. unfold start_proc, xfind. xwp_steps. apply xwp_pure; [|done]. intros [i|] Hf.
  - destruct (find_found _ _ _ _ Hb Hn Hf) as (p & Hi & Hin & _ & Hbit). by eapply restart_proc_wp.
  - xwp_step. eapply xwp_mono; [by apply grab_proc_slot_wp|]. intros [i|] h1 t1 (S1 & Hb1 & P1 & Hfree); [|by xwp_step].
    xwp_step. eapply xwp_mono; [apply prep_and_start_wp; try done|].
    + intros j q Hij Hj Hne. rewrite P1 in Hj. pose proof (b_n _ _ _ _ _ Hb) as Hbn.
      destruct (Z.ltb_spec (Z.of_nat j) (nprocs h)) as [Hlt|Hge].
      * unfold find_by_name in Hf. destruct name; [done|]. apply not_eq_sym.
        eapply (name_loop_none _ _ _ _ Hf j q); [lia|done].
      * destruct (so_free _ _ (b_slot _ _ _ _ _ Hb _ _ Hj) (b_tail _ _ _ _ _ Hb _ _ Hj Hge)) as [_ ->]. done.
    + intros r h2 t2 [S2 Hx]. xwp_step; zbool; [|xwp_step].
      * rewrite decide_True in Hx by done. xwp_step. apply wipe_ok; [done|]. intros h3 S3 _ Hb3 _. xwp_step.
        split; [congruence|done].
      * rewrite decide_False in Hx by lia. split; [congruence|done].
Qed.

(** The flags of a running process get another bit. *)
Lemma ok_flag i h t p g :
  ok h t -> procs h !! i = Some p -> Z.of_nat i < nprocs h -> has (p_flags p) P_IN_USE = true ->
  has g P_STATUS = false ->
  ok (h <| procs ::= alter (fun p => p <| p_flags ::= fun f => Z.lor f g |>) i |>) t.
Proof.
  intros Hb Hi Hin Hbit Hg. unfold ok. cbn [upd procs nprocs nalive scrpid]. rewrite (alter_insert_proc _ _ _ _ Hi).
  assert (has (Z.lor (p_flags p) g) P_IN_USE = true) as Hbit' by by apply in_use_lor.
  eapply body_same; [done..| | | |].
  - unfold live. cbn [p_pid p_flags upd]. change P_STATUS with (2 ^ 2) in *. by rewrite has_lor, Hg, orb_false_r by done.
  - done.
  - by intros ?%in_use_nonzero.
  - done.
Qed.

Lemma stop_proc_wp name h t :
  ok h t -> plain_name name -> xwlp (stop_proc name) h t (fun _ h' t' => keeps_ok h h' t').
Proof.
  intros Hb Hn. unfold stop_proc, xfind, xret, set_proc. xwp_steps. apply xwp_pure; [|done]. intros [i|] Hf; [|by xwp_step].
  destruct (find_found _ _ _ _ Hb Hn Hf) as (p & Hi & Hin & _ & Hbit).
  xwp_step. apply (get_proc_lookup _ _ _ p); [done|].
  assert (ok (h <| procs ::= alter (fun q => q <| p_flags := Z.lor (p_flags p) P_KILLED |>) i |>) t) as Hb'.
  { pose proof (ok_flag _ _ _ _ P_KILLED Hb Hi Hin Hbit eq_refl) as Hx. unfold ok in *.
    cbn [upd procs nprocs nalive scrpid] in *.
    rewrite (alter_insert_proc _ _ _ _ Hi) in Hx. by rewrite (alter_insert_proc _ _ _ _ Hi). }
  xwp_steps; split; try done; unfold ok in *; by rewrite ?children_plain.
Qed.

Lemma remove_proc_wp name h t :
  ok h t -> plain_name name -> xwlp (remove_proc name) h t (fun _ h' t' => keeps_ok h h' t').
Proof.
  intros Hb Hn. unfold remove_proc, xfind, xret. xwp_steps. apply xwp_pure; [|done]. intros [i|] Hf; [|by xwp_step].
  destruct (find_found _ _ _ _ Hb Hn Hf) as (p & Hi & Hin & _ & Hbit).
  xwp_step. apply (get_proc_lookup _ _ _ p); [done|]. apply xwp_if; intros Hc; [by xwp_step|].
  assert (free_slot i h) as Hfree by by exists p.
  xwp_step. apply tame_wp; [apply flush_ring_buf_tame|]. intros r h1 t1 (H1 & H2 & _ & _ & H3). cbn [fst snd] in *.
  xwp_step; [xwp_step; by split; auto|]. unfold wipe_proc_slot. xwp_step.
  apply wipe_ok; [by apply H3, free_wipeable|]. intros h2 S2 _ Hb2 _. xwp_step. split; [congruence|done].
Qed.

(** ** The death of a process *)

(** The slot without a process is marked as such. *)
Lemma limbo_mark i z h t f :
  limbo i z h t ->
  (forall p, p_name (f p) = p_name p /\ live (f p) = false /\
     (has (p_flags p) P_IN_USE = true -> has (p_flags (f p)) P_IN_USE = true)) ->
  ok (h <| procs ::= alter f i |>) t.
Proof.
  intros (p & Hi & Hin & Hfl & _ & _ & Hb) Hf. destruct (Hf p) as (H1 & H2 & H3).
  unfold ok. cbn [upd procs nprocs nalive scrpid]. rewrite (alter_insert_proc _ _ _ _ Hi).
  rewrite <- (list_insert_insert_eq (procs h) i (f p) (idle p)).
  pose proof (list_lookup_insert_eq _ _ (idle p) (lookup_lt_Some _ _ _ Hi)) as Hi'.
  pose proof (b_slot _ _ _ _ _ Hb _ _ Hi') as Hs. pose proof (H3 (so_bit _ _ Hs Hfl)) as Hbit.
  eapply body_idle; [done..|rewrite H1; exact (so_name _ _ Hs)|by intros ?%in_use_nonzero|done|].
  left. unfold name_of. by rewrite H1.
Qed.

Lemma mark_died_wp i z status h t (Q : unit -> hub -> trace hcall -> Prop) :
  limbo i z h t -> (forall h', h_state h' = h_state h -> ok h' t -> Q tt h' t) ->
  xwlp (mark_died i status) h t Q.
Proof.
  intros Hl HQ. unfold mark_died, set_proc. xwp_steps. apply HQ; [done|]. eapply limbo_mark; [done|].
  intros p. split_and!; [done| |apply in_use_lor].
  unfold live. cbn [p_pid p_flags upd]. change P_STATUS with (2 ^ 2). rewrite has_lor by done.
  rewrite (orb_comm _ (has _ _)). apply andb_false_r.
Qed.

Lemma proc_died_wp i status h t p :
  sane -> procs h !! i = Some p -> Z.of_nat i < nprocs h -> live p = true ->
  has (p_flags p) P_IN_USE = true ->
  body (<[i := idle p]> (procs h)) (nprocs h) (nalive h - 1) (scrpid h) (children t) ->
  xwlp (proc_died i status) h t (fun _ h' t' => keeps_ok h h' t').
Proof.
  intros Hk Hi Hin Hl Hbit Hb. unfold proc_died, set_hub. xwp_step. apply (get_proc_lookup _ _ _ p); [done|].
  cbv zeta. xwp_step. xwp_step. set (h1 := h <| nalive ::= _ |>).
  assert (limbo i (p_pid p) h1 t) as Hl1.
  { exists p. unfold live in Hl. apply andb_true_iff in Hl as [_ Hl%negb_true_iff].
    split_and!; try done; [by apply in_use_nonzero|]. unfold h1. cbn [upd procs nprocs nalive scrpid].
    pose proof (nlive_bounds (<[i := idle p]> (procs h))) as Hnl. rewrite (b_len _ _ _ _ _ Hb) in Hnl.
    pose proof (b_alive _ _ _ _ _ Hb). by rewrite s32_small by lia. }
  xwp_step. apply tame_wp; [apply close_proc_tame|]. intros _ h2 t2 (S2 & _ & _ & L2 & _). cbn [fst snd] in *.
  apply L2 in Hl1. pose proof Hl1 as (q & Hq & _). xwp_step. apply (get_proc_lookup _ _ _ q); [done|].
  assert (h_state h2 = h_state h) as S2' by done.
  apply xwp_if; intros _; [|apply xwp_if; intros _; [|apply xwp_if; intros _]].
  - unfold mark_stopped, set_proc. xwp_step. xwp_step.
    apply tame_wp; [apply notify_dead_tame|]. intros _ h3 t3 (S3 & O3 & _). cbn [fst snd] in *.
    split; [by rewrite S3|]. apply O3. eapply limbo_mark; [done|]. intros r. split_and!; [done|done|].
    cbn [p_flags upd]. change P_IN_USE with (2 ^ 0). rewrite has_clear by done. intros ->. done.
  - xwp_step. apply tame_wp; [apply flush_ring_buf_tame|]. intros _ h3 t3 (S3 & _ & _ & L3 & _). cbn [fst snd] in *.
    unfold wipe_proc_slot. apply wipe_ok; [eapply limbo_wipeable; by apply L3|]. intros h4 S4 _ Hb4 _.
    split; [congruence|done].
  - eapply mark_died_wp; [done|]. intros h3 S3 Hb3. split; [congruence|done].
  - xwp_step. apply tame_wp; [apply ran_long_enough_tame|]. intros long h3 t3 (S3 & _ & _ & L3 & _). cbn [fst snd] in *.
    apply L3 in Hl1. apply xwp_if; intros _.
    { eapply mark_died_wp; [done|]. intros h4 S4 Hb4. split; [congruence|done]. }
    xwp_step. eapply xwp_mono; [by apply (spawn_proc_wp _ (p_pid p))|]. intros r h4 t4 (S4 & _ & Hx).
    xwp_step; zbool; [rewrite decide_True in Hx by done|rewrite decide_False in Hx by lia].
    + eapply mark_died_wp; [done|]. intros h5 S5 Hb5. split; [congruence|done].
    + xwp_step. split; [congruence|done].
Qed.

(** ** Scripts *)

Lemma ok_plain h t c r : plain c = true -> ok h t -> ok h (t ++ [(c, r)]).
Proof. intros Hc. unfold ok. by rewrite children_plain. Qed.

Lemma spawn_script_wp name arg h t :
  sane -> ok h t -> xwlp (spawn_script name arg) h t (fun _ h' t' => keeps_ok h h' t').
Proof.
  intros Hk Hb. unfold spawn_script, xret, set_hub. xwp_step. xwp_step. xwp_step. cbv beta. xwp_step.
  set (t1 := t ++ _). assert (ok h t1) as Hb1 by by apply ok_plain.
  xwp_step; [by xwp_step|]. xwp_step. xwp_step. xwp_step; [by xwp_step|].
  xwp_step. xwp_step. xwp_step. cbv beta. xwp_step. set (c := Fork _).
  destruct (sane_fork Hk t1 (Script (BOOTDIR ++ [47] ++ name) arg)) as [Hpid Hfr];
    [by eapply body_size|]. fold c in Hpid, Hfr.
  rewrite (proj2 (Z.ltb_ge _ _)), (proj2 (Z.eqb_neq _ _)) by lia. cbv iota. xwp_steps. split; [done|].
  unfold ok. cbn [upd procs nprocs nalive scrpid]. rewrite children_snoc. unfold child_step, c. cbn [fst snd]. fold c.
  rewrite (proj2 (Z.ltb_lt _ _)) by done. eapply body_children; [exact Hb1| |].
  - intros pid path b. destruct (decide (pid = s32 (ret (kern t1 c)))) as [->|Hne].
    + rewrite lookup_insert_eq, Hfr. split; discriminate.
    + by rewrite lookup_insert_ne.
  - split; [intros _; eexists _, _; apply lookup_insert_eq|]. intros pid path arg' Hm.
    apply lookup_insert_Some in Hm as [[<- _]|[_ Hm]]; [done|].
    apply (b_script _ _ _ _ _ Hb1) in Hm as He. subst pid. apply children_pos in Hm. lia.
Qed.

(** ** The state of the hub *)

Definition stay : relation (hub * trace hcall) := fun a b => h_state b.1 = h_state a.1.

#[local] Instance stay_preorder : PreOrder stay.
Proof. split; [by intros a|]. intros a b c. unfold stay. congruence. Qed.

Lemma tame_stay {A} (m : H A) : xkeeps tame m -> xkeeps stay m.
Proof. intros Hm h t. eapply xwp_mono; [apply Hm|]. intros x h' t' (Hs & _). exact Hs. Qed.

Lemma stay_call c : xkeeps stay (xcall c).
Proof. by apply xkeeps_call. Qed.

Lemma stay_proc i f : xkeeps stay (set_proc i f).
Proof. by apply xkeeps_modify. Qed.

Lemma stay_hub f : (forall h, h_state (f h) = h_state h) -> xkeeps stay (set_hub f).
Proof. intros Hf. apply xkeeps_modify. intros h t. apply Hf. Qed.

Hint Resolve stay_call stay_proc : xkeeps.
Hint Extern 0 (xkeeps stay (set_hub _)) => apply stay_hub; reflexivity : xkeeps.
Hint Extern 4 (xkeeps stay _) => apply tame_stay; solve [eauto with xkeeps] : xkeeps.

Tactic Notation "stay_unfold" reference(f) := unfold f, xret, get_proc, get_conn, xfind, fail; xkeeps_steps.

Lemma spawn_path_stay i path : xkeeps stay (spawn_path i path).
Proof. stay_unfold spawn_path. Qed.
Hint Resolve spawn_path_stay : xkeeps.
Lemma spawn_proc_stay i : xkeeps stay (spawn_proc i).
Proof. stay_unfold spawn_proc. Qed.
Hint Resolve spawn_proc_stay : xkeeps.
Lemma restart_proc_stay i flags : xkeeps stay (restart_proc i flags).
Proof. unfold restart_proc. stay_unfold restart_spawn. Qed.
Hint Resolve restart_proc_stay : xkeeps.
Lemma grab_proc_slot_stay : xkeeps stay grab_proc_slot.
Proof. stay_unfold grab_proc_slot. Qed.
Hint Resolve grab_proc_slot_stay : xkeeps.
Lemma start_proc_stay name flags : xkeeps stay (start_proc name flags).
Proof. unfold start_proc. stay_unfold prep_and_start. Qed.
Hint Resolve start_proc_stay : xkeeps.
Lemma stop_proc_stay name : xkeeps stay (stop_proc name).
Proof. stay_unfold stop_proc. Qed.
Hint Resolve stop_proc_stay : xkeeps.
Lemma remove_proc_stay name : xkeeps stay (remove_proc name).
Proof. unfold remove_proc. stay_unfold wipe_proc_slot. Qed.
Hint Resolve remove_proc_stay : xkeeps.
Lemma proc_died_stay i status : xkeeps stay (proc_died i status).
Proof. unfold proc_died, mark_stopped, mark_died. stay_unfold wipe_proc_slot. Qed.
Hint Resolve proc_died_stay : xkeeps.
Lemma spawn_script_stay name arg : xkeeps stay (spawn_script name arg).
Proof. stay_unfold spawn_script. Qed.
Hint Resolve spawn_script_stay : xkeeps.

(** Until the shutdown script is started, the table agrees with the children. *)
Definition inv (h : hub) (t : trace hcall) : Prop := h_state h = S_SHUTDOWN \/ ok h t.

Definition good : relation (hub * trace hcall) := fun a b => inv a.1 a.2 -> inv b.1 b.2.

#[local] Instance good_preorder : PreOrder good.
Proof. split; [by intros ??|]. intros a b c H1 H2 Ha. by apply H2, H1. Qed.

Lemma tame_good {A} (m : H A) : xkeeps tame m -> xkeeps good m.
Proof.
  intros Hm h t. eapply xwp_mono; [apply Hm|]. intros x h' t' (Hs & Hb & _) [Hi|Hi]; [left|right; auto].
  cbn [fst snd] in *. congruence.
Qed.

Lemma stay_good {A} (m : H A) :
  xkeeps stay m -> (forall h t, ok h t -> xwlp m h t (fun _ h' t' => keeps_ok h h' t')) -> xkeeps good m.
Proof.
  intros Hs Hm h t. apply xwp_impl. intros [Hi|Hi].
  - eapply xwp_mono; [apply Hs|]. intros x h' t' Hst. left. unfold stay in Hst. cbn [fst snd] in *. congruence.
  - eapply xwp_mono; [by apply Hm|]. intros x h' t' [_ Hb]. by right.
Qed.

Lemma start_proc_good name flags :
  sane -> plain_name name -> has flags P_STATUS = false -> xkeeps good (start_proc name flags).
Proof. intros. apply stay_good; [apply start_proc_stay|]. intros. by apply start_proc_wp. Qed.

Lemma stop_proc_good name : plain_name name -> xkeeps good (stop_proc name).
Proof. intros. apply stay_good; [apply stop_proc_stay|]. intros. by apply stop_proc_wp. Qed.

Lemma remove_proc_good name : plain_name name -> xkeeps good (remove_proc name).
Proof. intros. apply stay_good; [apply remove_proc_stay|]. intros. by apply remove_proc_wp. Qed.

Lemma spawn_script_good name arg : sane -> xkeeps good (spawn_script name arg).
Proof. intros. apply stay_good; [apply spawn_script_stay|]. intros. by apply spawn_script_wp. Qed.

(** ** Stopping *)

Lemma each_running_ok f n i h t :
  (forall h t i pc, ok h t -> procs h !! i = Some pc -> live pc = true -> p_flags pc <> 0 ->
     xwlp (f i pc) h t (fun _ h' t' => keeps_ok h h' t')) ->
  ok h t -> xwlp (each_running f n i) h t (fun _ h' t' => keeps_ok h h' t').
Proof.
  intros Hf. revert i h t. induction n as [|n IH]; intros i h t Hb; cbn [each_running]; [by xwp_step|].
  unfold get_proc. xwp_steps. apply xwp_pure; [|done]. intros pc Hpc. xwp_step.
  eapply (xwp_mono _ _ _ (fun _ h' t' => keeps_ok h h' t')).
  - apply xwp_if; intros H1; [by xwp_step|]. apply xwp_if; intros H2; [by xwp_step|]. zbool.
    apply Hf; [done|done| |done]. unfold live. rewrite H2, (proj2 (Z.eqb_neq _ _)) by done. done.
  - intros _ h1 t1 [S1 Hb1]. eapply xwp_mono; [by apply IH|]. intros _ h2 t2 [S2 Hb2]. split; [congruence|done].
Qed.

Lemma live_lt h t i p : ok h t -> procs h !! i = Some p -> live p = true ->
  Z.of_nat i < nprocs h /\ has (p_flags p) P_IN_USE = true.
Proof.
  intros Hb Hi Hl. pose proof (b_slot _ _ _ _ _ Hb _ _ Hi) as Hs. assert (p_flags p <> 0) as Hfl.
  { intros H0. destruct (so_free _ _ Hs H0) as [Hp _]. unfold live in Hl. by rewrite Hp in Hl. }
  split; [|by apply (so_bit _ _ Hs)]. destruct (Z.ltb_spec (Z.of_nat i) (nprocs h)); [done|].
  pose proof (b_tail _ _ _ _ _ Hb _ _ Hi). lia.
Qed.

Lemma stop_all_procs_wp h t : sane -> ok h t -> xwlp stop_all_procs h t (fun _ h' t' => keeps_ok h h' t').
Proof.
  intros Hk Hb. unfold stop_all_procs, stop_con_shell, xret, set_proc, set_hub. xwp_step. xwp_step. xwp_step.
  eapply xwp_mono; [apply each_running_ok; [|done]|].
  - clear. intros h t i pc Hb Hi Hl Hfl. destruct (live_lt _ _ _ _ Hb Hi Hl) as [Hin Hbit].
    xwp_steps; split; try done; [by apply ok_plain|]. eapply ok_flag; [by apply ok_plain|done..].
  - intros _ h1 t1 [S1 Hb1]. xwp_steps; zbool; try (split; [done|]); try done; [by apply ok_plain|].
    destruct (b_script _ _ _ _ _ Hb1) as [(path & arg & Hs) _]; [lia|].
    pose proof (sane_kill Hk t1 (scrpid h1) SIGTERM (ex_intro _ _ Hs)). lia.
Qed.

Lemma command_stop_good mode : sane -> xkeeps good (command_stop mode).
Proof.
  intros Hk h t. apply xwp_impl. intros Hi. unfold command_stop, arm_shutdown_timer, xret, set_hub. xwp_steps; [done|].
  assert (ok h t) as Hb.
  { destruct Hi as [Hi|Hi]; [|done]. cbn [fst snd] in Hi. by rewrite Hi in *. }
  eapply xwp_mono; [by apply stop_all_procs_wp|]. intros _ h1 t1 [_ Hb1]. xwp_steps. right. by apply ok_plain.
Qed.

Lemma xwlp_true {A} (m : H A) h t : xwlp m h t (fun _ _ _ => True).
Proof. unfold xwpf. by destruct (m h t) as [[[[x|] h'] t']|]. Qed.

Definition down (h : hub) : Prop := h_state h = S_SHUTDOWN.

Lemma spawn_shutdown_down h t : xwlp spawn_shutdown h t (fun _ h' _ => down h').
Proof.
  unfold spawn_shutdown, close_socket, xret, set_hub. xwp_steps.
  eapply xwp_keeps; [apply spawn_script_stay|]. intros r h1 t1 Hs. xwp_steps; [|done]. exact Hs.
Qed.

Lemma force_shutdown_down h t : xwlp force_shutdown h t (fun _ h' _ => down h').
Proof.
  unfold force_shutdown. xwp_step. xwp_step. xwp_step. eapply xwp_mono; [apply xwlp_true|]. intros _ h1 t1 _.
  xwp_step. xwp_step. xwp_step. eapply xwp_mono; [apply xwlp_true|]. intros _ h2 t2 _. apply spawn_shutdown_down.
Qed.

Lemma handle_alarm_good : xkeeps good handle_alarm.
Proof.
  intros h t. apply xwp_impl. intros Hi. cbn [fst snd] in *.
  unfold handle_alarm, arm_shutdown_timer, xret, set_hub. xwp_steps; [done| |].
  - destruct Hi as [Hi|Hi]; [by left|right]. by apply ok_plain.
  - eapply xwp_mono; [apply force_shutdown_down|]. intros x h' t' Hd. by left.
Qed.

Lemma signal_stop_good script : sane -> xkeeps good (signal_stop script).
Proof.
  intros Hk h t. apply xwp_impl. intros Hi. cbn [fst snd] in *. unfold signal_stop. xwp_steps.
  - eapply xwp_mono; [apply force_shutdown_down|]. intros x h' t' Hd. by left.
  - done.
  - eapply xwp_mono; [by apply command_stop_good|]. intros x h' t' Hg. xwp_step. by apply Hg.
Qed.

(** The script, or the shell, was waited for. *)
Lemma script_exit_wp status h t :
  sane -> (down h \/ ok (h <| scrpid := 0 |>) t) -> xwlp (script_exit status) h t (fun _ h' t' => inv h' t').
Proof.
  intros Hk Hi. unfold script_exit, set_hub. xwp_step. xwp_step. xwp_step. xwp_step. set (h0 := h <| _ := _ |> <| _ := _ |>).
  assert (h_state h = S_SHUTDOWN \/ inv h0 t) as [->|Hi0].
  { destruct Hi as [Hi|Hi]; [by left|]. right. by right. }
  { change (S_SHUTDOWN =? S_STARTUP) with false. change (S_SHUTDOWN =? S_SHUTDOWN) with true. cbv iota.
    unfold shutdown_exit, fail. xwp_step. }
  apply xwp_if; intros _; [|apply xwp_if; intros _; [done|apply xwp_if; intros _; [|by xwp_step]]].
  - unfold startup_done, set_hub. apply xwp_if; intros _; [done|]. xwp_step. xwp_step.
    set (h1 := h0 <| h_state := _ |>). assert (inv h1 t) as Hi1.
    { destruct Hi0 as [Hi0|Hi0]; [done|by right]. }
    xwp_step. eapply xwp_mono; [by apply spawn_script_good|]. intros r h2 t2 Hg. xwp_step. by apply Hg.
  - unfold shell_exit. xwp_step. eapply xwp_mono; [by apply command_stop_good|]. intros r h2 t2 Hg.
    xwp_steps; [|done]. by apply Hg.
Qed.

Lemma children_reaped t r :
  0 < s32 (ret r) -> children (t ++ [(Waitpid, r)]) = delete (s32 (ret r)) (children t).
Proof. intros Hp. rewrite children_snoc. unfold child_step. cbn [fst snd]. by rewrite (proj2 (Z.ltb_lt _ _)). Qed.

(** The child that was waited for is handled. *)
Lemma reap_one_wp h t r status :
  sane -> inv h t -> 0 < s32 (ret r) ->
  xwlp (if s32 (ret r) =? scrpid h then script_exit status
        else h ← xget id; o ← xpure (find_by_pid h (s32 (ret r)));
             match o with Some i => proc_died i status | None => mret tt end)
    h (t ++ [(Waitpid, r)]) (fun _ h' t' => inv h' t').
Proof.
  intros Hk Hi Hr. set (pid := s32 (ret r)) in *. set (t1 := t ++ _).
  destruct Hi as [Hdown|Hb].
  { apply xwp_if; intros _; [apply script_exit_wp; [done|by left]|]. xwp_steps. apply xwp_pure; [|done]. intros [i|] _.
    - eapply xwp_keeps; [apply proc_died_stay|]. intros _ h' t' Hs. left. unfold stay in Hs. cbn [fst snd] in *. congruence.
    - xwp_step. by left. }
  assert (children t1 = delete pid (children t)) as Hc by by apply children_reaped.
  apply xwp_if; intros Hscr; zbool.
  - apply script_exit_wp; [done|]. right. unfold ok. cbn [upd procs nprocs nalive scrpid]. rewrite Hc.
    destruct (b_script _ _ _ _ _ Hb) as [(path & arg & Hs) Hone]; [lia|]. rewrite <- Hscr in Hs.
    eapply body_children; [exact Hb| |split; [lia|]].
    2: { intros q path' arg' [Hq Hm]%lookup_delete_Some. apply Hone in Hm. congruence. } intros q path' b. destruct (decide (pid = q)) as [<-|Hne].
    + rewrite lookup_delete_eq, Hs. split; discriminate.
    + by rewrite lookup_delete_ne.
  - xwp_steps. apply xwp_pure; [|done]. intros [i|] Hf; unfold find_by_pid in Hf; cbn [id] in Hf;
      rewrite (proj2 (Z.leb_gt _ _)) in Hf by done; pose proof (b_n _ _ _ _ _ Hb) as Hbn.
    + apply first_proc_found in Hf as [Hif (p & Hp & [Hst Hpid]%andb_true_iff)]. apply Z.eqb_eq in Hpid.
      assert (live p = true) as Hl by (unfold live; rewrite Hst, Hpid, (proj2 (Z.eqb_neq _ _)) by lia; done).
      destruct (live_lt _ _ _ _ Hb Hp Hl) as [Hin Hbit].
      eapply xwp_mono; [apply (proc_died_wp _ _ _ _ p); try done|].
      * rewrite Hc, <- Hpid. eapply (body_death _ _ _ _ _ _ p); [done..|by intros ?%in_use_nonzero|done|]. by rewrite Hpid.
      * intros _ h' t' [_ Hb']. by right.
    + xwp_step. right. unfold ok. rewrite Hc. eapply body_children; [exact Hb| |].
      * intros q path b. destruct (decide (pid = q)) as [<-|Hne]; [|by rewrite lookup_delete_ne].
        rewrite lookup_delete_eq. split; [|done]. intros Hm. exfalso.
        destruct (b_track _ _ _ _ _ Hb _ _ _ Hm) as (i & p & Hp & Hl & Hpid).
        destruct (live_lt _ _ _ _ Hb Hp Hl) as [Hin _].
        assert (negb (has (p_flags p) P_STATUS) && (p_pid p =? pid) = false) as Hx.
        { eapply (first_proc_none _ _ _ _ Hf i p); [lia|done]. }
        unfold live in Hl. apply andb_true_iff in Hl as [_ Hl]. rewrite Hl, Hpid, Z.eqb_refl in Hx. done.
      * by apply scripts_delete, (b_script _ _ _ _ _ Hb).
Qed.

Lemma reap_good fuel : sane -> forall st, xkeeps good (reap fuel st).
Proof.
  intros Hk. induction fuel as [|fuel IH]; intros st h t; apply xwp_impl; intros Hi; cbn [fst snd] in Hi;
    cbn [reap]; xwp_step; xwp_step; cbv beta; xwp_step; (apply xwp_pure; [|done]); intros st' _;
    cbv zeta; (apply xwp_if; intros Hp; zbool);
    try (xwp_step; cbn [fst snd]; destruct Hi as [Hi|Hi]; [by left|]; right; unfold ok; rewrite children_snoc; unfold child_step;
         cbn [fst snd]; rewrite (proj2 (Z.ltb_ge _ _)) by done; exact Hi).
  - exact I.
  - xwp_step. apply xwp_pure; [|done]. intros v _. cbv zeta. xwp_step. xwp_step. cbv beta. xwp_step.
    eapply xwp_mono; [by apply reap_one_wp|]. intros x h' t' Hi'. eapply xwp_mono; [apply IH|].
    intros y h2 t2 Hg. by apply Hg.
Qed.

Lemma check_children_good fuel : sane -> xkeeps good (check_children fuel).
Proof.
  intros Hk h t. apply xwp_impl. intros Hi. cbn [fst snd] in Hi. unfold check_children. xwp_step.
  eapply xwp_mono; [by apply reap_good|]. intros x h1 t1 Hg. specialize (Hg Hi). xwp_steps; [done|exact I|].
  eapply xwp_mono; [apply spawn_shutdown_down|]. intros y h2 t2 Hd. by left.
Qed.

(** ** Events *)

Lemma uc_recv_wp fd n h t (Q : Z * list Z -> hub -> trace hcall -> Prop) :
  sane -> (forall x buf t', bytes buf -> (inv h t -> inv h t') -> Q (x, buf) h t') ->
  xwlp (xembed Sock (uc_recv fd (junk n) (Z.of_nat n))) h t Q.
Proof.
  intros Hk HQ. unfold xwpf, xembed, uc_recv. cbv zeta. rewrite call_bind.
  match goal with |- context [kern ?u ?c] => set (r := kern u c); pose proof (sane_bytes Hk u c) as Hb end.
  fold r in Hb. destruct (awrite (junk n) 2 _) as [buf|] eqn:Hw; [|done].
  change ((lift (Some buf) ≫= ?f) ?k ?u) with (f buf k u). cbn [mret sys_ret mbind option_bind].
  apply HQ.
  - eapply bytes_awrite; [done|apply (sane_junk Hk)|by apply Forall_take].
  - intros [Hi|Hi]; [by left|right]. unfold ok. by rewrite children_sock.
Qed.

Hint Extern 4 (xkeeps good _) => apply tame_good; solve [eauto with xkeeps] : xkeeps.

Lemma with_name_good msg f :
  bytes msg -> (forall name, plain_name name -> xkeeps good (f name)) -> xkeeps good (with_name msg f).
Proof.
  intros Hm Hf. unfold with_name. intros h t. xwp_step. apply xwp_pure; [|done]. intros [name|] Hn; [|xwp_step; by intros ?].
  apply Hf. unfold msg_str in Hn. apply bind_Some_inv in Hn as (p & _ & Hn). destruct p; [|done]. injection Hn as <-.
  by apply upto_nul_plain, Forall_drop.
Qed.

Lemma dispatch_good i msg : sane -> bytes msg -> xkeeps good (dispatch i msg).
Proof.
  intros Hk Hm. unfold dispatch. apply xkeeps_bind; [apply _|xkeeps_steps|intros cmd].
  repeat (match goal with |- xkeeps _ (if ?b then _ else _) => destruct b end);
    unfold cmd_list, cmd_shutdown, cmd_reboot, cmd_poweroff, cmd_status, cmd_getbuf, cmd_flush, cmd_remove, cmd_stop,
      cmd_sighup, cmd_start, cmd_spawn, cmd_stout, common_start, xfind, get_proc;
    try (apply with_name_good; [done|intros name Hn]);
    try (apply xkeeps_bind; [apply _|by apply command_stop_good || by apply stop_proc_good|intros ?]);
    try (by apply start_proc_good); try (by apply remove_proc_good); xkeeps_steps.
Qed.

Lemma check_conn_good i : sane -> xkeeps good (check_conn i).
Proof.
  intros Hk h t. apply xwp_impl. intros Hi. cbn [fst snd] in *. unfold check_conn, get_conn. xwp_steps.
  apply xwp_pure; [|done]. intros cn _. xwp_step. apply (uc_recv_wp _ 200); [done|]. intros x buf t1 Hbuf Hi1.
  apply Hi1 in Hi. clear Hi1. cbv beta iota.
  assert (forall h t, inv h t -> xwlp (close_conn i) h t (fun _ h' t' => inv h' t')) as Hclose.
  { intros h1 t2 H1. eapply xwp_mono; [apply tame_good, close_conn_tame|]. intros y h2 t3 Hg. by apply Hg. }
  apply xwp_if; intros _; [by apply Hclose|]. xwp_step. apply xwp_pure; [|done]. intros [buf' m] Hm.
  destruct m; [|by apply Hclose]. xwp_step.
  eapply xwp_mono; [apply dispatch_good; [done|]|].
  - unfold uc_msg in Hm. destruct (_ <? _); [by injection Hm as <-|]. apply bind_Some_inv in Hm as (b & Hb & Hm).
    injection Hm as <-. by eapply bytes_awrite, bytes_le_bytes.
  - intros r h2 t2 Hg. specialize (Hg Hi). apply xwp_if; intros _; [by xwp_step|]. xwp_step.
    eapply xwp_mono; [apply tame_good, send_code_tame|]. intros y h3 t3 Hg3. specialize (Hg3 Hg).
    apply xwp_if; intros _; [by xwp_step|by apply Hclose].
Qed.

Lemma wait_poll_good fuel : sane -> xkeeps good (wait_poll fuel).
Proof.
  intros Hk. pose proof (check_children_good fuel Hk). pose proof (fun i => check_conn_good i Hk).
  pose proof (fun script => signal_stop_good script Hk). pose proof handle_alarm_good.
  unfold wait_poll, process_misc, process_sigfd, process_ctlfd, process_proc, process_conn, check_signal, fail.
  xkeeps_steps.
Qed.

(** At the start there is no process and no child. *)
Lemma ok_initial : ok initial [].
Proof.
  assert (forall i p, procs initial !! i = Some p -> p = zero_proc) as Hz.
  { intros i p Hi. change (procs initial) with (repeat zero_proc 70) in Hi.
    assert (Forall (fun p => p = zero_proc) (repeat zero_proc 70)) as Hall by by repeat constructor.
    by apply (Forall_lookup_1 _ _ _ _ Hall) in Hi. }
  split.
  - reflexivity.
  - done.
  - by intros i p ->%Hz.
  - intros i p ->%Hz. by split.
  - by intros i j p q ->%Hz.
  - by intros i j p q ->%Hz.
  - intros pid path b Hm. change (children []) with (∅ : gmap Z job) in Hm. by rewrite lookup_empty in Hm.
  - reflexivity.
  - done.
Qed.

(** Steps that keep the agreement, whatever the state. *)
Definition agree : relation (hub * trace hcall) := fun a b => ok a.1 a.2 -> ok b.1 b.2.

#[local] Instance agree_preorder : PreOrder agree.
Proof. split; [by intros ??|]. intros a b c H1 H2 Ha. by apply H2, H1. Qed.

Lemma tame_agree {A} (m : H A) : xkeeps tame m -> xkeeps agree m.
Proof. intros Hm h t. eapply xwp_mono; [apply Hm|]. by intros x h' t' (_ & Hb & _). Qed.

Lemma agree_set_hub f :
  (forall h, procs (f h) = procs h /\ nprocs (f h) = nprocs h /\ nalive (f h) = nalive h /\ scrpid (f h) = scrpid h) ->
  xkeeps agree (set_hub f).
Proof.
  intros Hf. apply xkeeps_modify. intros h t. destruct (Hf h) as (H1 & H2 & H3 & H4).
  unfold agree, ok. cbn [fst snd]. by rewrite H1, H2, H3, H4.
Qed.

Hint Extern 4 (xkeeps agree _) => apply tame_agree; solve [eauto with xkeeps] : xkeeps.
Hint Extern 0 (xkeeps agree (set_hub _)) => apply agree_set_hub; intros ?; repeat split : xkeeps.

Lemma main_init_agree arg : sane -> xkeeps agree (main_init arg).
Proof.
  intros Hk. assert (forall name, xkeeps agree (spawn_script name arg)).
  { intros name h t. apply xwp_impl. intros Hb. eapply xwp_mono; [by apply spawn_script_wp|]. by intros x h' t' [_ ?]. }
  unfold main_init, prepare_epoll, setup_signals, open_socket, add_sock_fd, start_script, xret, fail.
  xkeeps_steps.
Qed.

Lemma reachable_inv h t : sane -> reachable h t -> inv h t.
Proof.
  intros Hk. induction 1 as [arg h t Hrun|h t fuel h' t' Hr IH Hrun].
  - right. pose proof (main_init_agree arg Hk initial []) as Hx. unfold xwpf in Hx. rewrite Hrun in Hx.
    apply Hx, ok_initial.
  - pose proof (wait_poll_good fuel Hk h t) as Hx. unfold xwpf in Hx. rewrite Hrun in Hx. by apply Hx.
Qed.

End hub.


(** ** A supervisor that starts a service *)

(** The smallest pid from 1 to 72 that no child has. *)
Definition free_pid (m : gmap Z job) : Z :=
  match List.find (fun pid => bool_decide (m !! pid = None)) (Z.of_nat <$> seq 1 72) with Some pid => pid | None => 0 end.

Lemma free_pid_free m : (size m <= 71)%nat -> 0 < free_pid m < 73 /\ m !! free_pid m = None.
Proof.
  intros Hm. unfold free_pid. destruct (List.find _ _) as [pid|] eqn:Hf.
  - apply find_some in Hf as [Hin Hn]. apply bool_decide_eq_true in Hn. split; [|done].
    apply list_elem_of_In, list_elem_of_fmap in Hin as (k & -> & Hk%elem_of_seq). lia.
  - exfalso. assert (list_to_set (Z.of_nat <$> seq 1 72) ⊆ dom m) as Hsub.
    { intros pid Hpid%elem_of_list_to_set%list_elem_of_In. eapply find_none in Hf; [|exact Hpid].
      apply bool_decide_eq_false in Hf. apply elem_of_dom. by destruct (m !! pid); [eexists|]. }
    apply subseteq_size in Hsub. rewrite size_dom, size_list_to_set in Hsub.
    + rewrite length_fmap, length_seq in Hsub. lia.
    + apply NoDup_fmap_2; [apply _|apply NoDup_seq].
Qed.

(** How many times the hub waited. *)
Definition waits (t : trace hcall) : nat :=
  length (List.filter (fun x => match x.1 with EpollWait _ => true | _ => false end) t).

(** First the startup script ends, then a client connects and starts the service
    [ntp]. *)
Definition svc_kern : Kern hcall := fun t c =>
  match c with
  | EpollWait _ =>
      match waits t with
      | O => Reply 1 [1; 0; 0; 0; 1; 0; 0; 0; 0; 0; 0; 0]
      | S O => Reply 1 [1; 0; 0; 0; 2; 0; 0; 0; 0; 0; 0; 0]
      | _ => Reply 1 [1; 0; 0; 0; 0; 0; 1; 0; 0; 0; 0; 0]
      end
  | Read _ _ => Reply 128 (17 :: repeat 0 127)
  | Waitpid =>
      if existsb (fun x => match x.1 with Waitpid => true | _ => false end) t then Reply 0 [] else Reply 1 [0; 0; 0; 0]
  | Accept _ => Reply 6 []
  | Sock (Recvmsg _ _ _ _) => Reply 10 [16; 0; 8; 0; 2; 0; 110; 116; 112; 0]
  | Sock (Ppoll _ _ _) => Reply 1 []
  | Fork _ => Reply (free_pid (children t)) []
  | Pipe2 => Reply 0 [7; 0; 0; 0; 8; 0; 0; 0]
  | Clock => Reply 0 (repeat 0 16)
  | _ => Reply 0 []
  end.
Definition svc_config : Config :=
  {| INITDIR := [47; 105]; BOOTDIR := [47; 98]; CONTROL := [47; 115] |}.

Lemma svc_kern_sane : sane (HK := svc_kern) (HL := some_locals).
Proof.
  split.
  - intros t j Ht. unfold kern, svc_kern; cbn [ret]. cbv zeta.
    destruct (free_pid_free _ Ht) as [H1 H2]. rewrite s32_small by lia. split; [lia|done].
  - by intros t pid sig _.
  - by intros t.
  - intros t c. unfold kern, svc_kern. destruct c; try (by repeat constructor).
    + by destruct (waits t) as [|[|n]]; repeat constructor.
    + destruct (existsb _ t); by repeat constructor.
    + destruct c; by repeat constructor.
  - intros n. unfold junk, some_locals. apply Forall_forall. intros x Hx%list_elem_of_In%repeat_spec. subst. done.
Qed.

#[local] Existing Instances svc_kern some_locals svc_config.

(** The state after the start and after [n] events. *)
Fixpoint svc_run (n : nat) : option (option unit * hub * trace hcall) :=
  match n with
  | O => main_init None initial []
  | S n =>
      match svc_run n with
      | Some (Some tt, h, t) => wait_poll 5 h t
      | o => o
      end
  end.

Lemma svc_run_reachable n h t : svc_run n = Some (Some tt, h, t) -> reachable h t.
Proof.
  revert h t. induction n as [|n IH]; intros h t Hr; cbn [svc_run] in Hr; [by eapply reach_init|].
  destruct (svc_run n) as [[[[[]|] h1] t1]|]; try done. eapply reach_poll; [by apply IH|exact Hr].
Qed.

Definition svc_end : hub * trace hcall :=
  match svc_run 3 with Some (_, h, t) => (h, t) | None => (initial, []) end.

Lemma svc_end_reachable :
  reachable svc_end.1 svc_end.2 /\ h_state svc_end.1 <> S_SHUTDOWN /\ nalive svc_end.1 = 1.
Proof.
  assert (svc_run 3 = Some (Some tt, svc_end.1, svc_end.2)) as Hr by by vm_compute.
  split; [by eapply svc_run_reachable|]. by split; vm_compute.
Qed.

