(* ===== verification/Svclimits.v ===== *)
(** * src/svchub: where the supervisor deviates from its intent

    Facts about the operations of [Svchub] that a reader of the documentation
    would not expect. *)
From S2P Require Import Prelude Arr Sys Nlusctl Nlsock State Exits Cstr Svchub.

Section limits.
Context `{HK : !Kern hcall} `{HL : !Locals} `{HC : !Config}.

(** When the child cannot be forked [spawn_path] returns what the call before it
    returned: the client is told that the service was started. *)
Lemma spawn_path_fork_fails i path pc h t :
  procs h !! i = Some pc ->
  (forall t, 0 <= s32 (ret (kern t (Access path)))) ->
  (forall t, s32 (ret (kern t Pipe2)) = 0) ->
  (forall t j, s32 (ret (kern t (Fork j))) < 0) ->
  xwlp (spawn_path i path) h t (fun r h' _ => 0 <= r /\ h' = h).
Proof.
  intros Hi Ha Hp Hf. unfold spawn_path, get_proc, xret. xwp_steps; zbool.
  - pose proof (Ha t). lia.
  - rewrite Hi. apply xwp_pure; [|done]. intros ? [= <-]. cbv zeta. apply xwp_if; intros _.
    + xwp_step. xwp_step. cbv beta. match goal with |- context [Fork ?j] => pose proof (Hf (t ++ [(Access path, kern t (Access path))]) j) as Hfj end.
      rewrite (proj2 (Z.ltb_lt _ _)) by done. by xwp_step.
    + xwp_step. xwp_step. cbv beta. rewrite Hp, Z.eqb_refl. cbv iota. change (negb true) with false. cbv iota.
      xwp_step. apply xwp_pure; [|done]. intros fds _. xwp_step. xwp_step. cbv beta.
      rewrite (proj2 (Z.ltb_lt _ _)) by apply Hf. by xwp_step.
Qed.

(** A service that ended without any output cannot be removed from the table. *)
Lemma remove_needs_output name i pc h t :
  find_by_name h name = Some (Some i) -> procs h !! i = Some pc ->
  (p_pid pc = 0 \/ has (p_flags pc) P_STATUS = true) -> p_buf pc = None ->
  remove_proc name h t = Some (Some (- ENODATA), h, t).
Proof.
  intros Hf Hi Hs Hb. unfold remove_proc, xfind, flush_ring_buf, get_proc, mbind, xprog_bind, xget, xpure.
  rewrite Hf. cbn. rewrite Hi. cbn. replace (negb (p_pid pc =? 0) && negb (has (p_flags pc) P_STATUS)) with false.
  - rewrite Hi. cbn. by rewrite Hb.
  - destruct Hs as [-> | ->]; [done|]. by rewrite andb_false_r.
Qed.

(** When the console shell ends after the services were told to stop, the state
    is lost and the alarm that is to kill those that hang does nothing. *)
Lemma shell_end_disarms status h t :
  h_state h = S_STOPPING ->
  (script_exit status;; handle_alarm) h t = Some (Some tt, h <| scrpid := 0 |> <| h_state := 0 |>, t).
Proof.
  intros Hs. unfold script_exit, handle_alarm, mbind, xprog_bind, xget, set_hub, xmodify, mret, xprog_ret. by rewrite Hs.
Qed.

(** A name of 16 bytes is sent with the bytes of the pid that follow it in the
    record. *)
Lemma list_long_name :
  strnlen_l (name_mem (Proc (repeat 97 16) 0x01020304 5 0 P_IN_USE 0 None)) 1024 = Some 21.
Proof. reflexivity. Qed.
End limits.
