(* ===== verification/Lzma.v ===== *)
(** * lib/lzma.c: the LZMA decoder

    The decoder works on buffers of its caller: a pointer into the input or the
    output is an address, and the bytes are those from [srcbuf] and from
    [dstbuf] on.  The models of the bit probabilities are one array, in the
    order of the fields of the structure; an array inside of it is known by its
    place and its size, and an access outside of the size it was declared with
    is a fault, like one outside of the buffers. *)
From S2P Require Import Prelude Arr Sys State.

Definition LZMA_SIZE : Z := 30000.

Definition LZMA_STREAM_END : Z := 1.
Definition LZMA_NEED_INPUT : Z := 2.
Definition LZMA_NEED_OUTPUT : Z := 3.
Definition LZMA_OUTPUT_OVER : Z := 4.
Definition LZMA_INPUT_OVER : Z := 5.
Definition LZMA_INVALID_REF : Z := 6.
Definition LZMA_RANGE_CHECK : Z := 7.

Definition STATES : Z := 12.
Definition PSTATES : Z := 4.
Definition DSTATES : Z := 4.
Definition DISLOTS : Z := 64.
Definition LCONTEXT : Z := 8.
Definition ALIGN_BITS : Z := 4.
Definition DIST_MODEL_START : Z := 4.
Definition DIST_MODEL_END : Z := 14.

Definition STATE_LIT_LIT : Z := 0.
Definition STATE_SHORTREP_LIT_LIT : Z := 3.
Definition STATE_SHORTREP_LIT : Z := 6.
Definition STATE_LIT_MATCH : Z := 7.
Definition STATE_LIT_LONGREP : Z := 8.
Definition STATE_LIT_SHORTREP : Z := 9.
Definition STATE_NONLIT_MATCH : Z := 10.
Definition STATE_NONLIT_REP : Z := 11.
Definition STATE_INVALID : Z := 13.
Definition STATE_INITIAL : Z := 14.

(** ** The models of the bits *)

(** An array of models inside of the structure. *)
Record arr := Arr { a_base : Z; a_size : Z }.

(** [&a[i]] *)
Definition elem (a : arr) (i : Z) : option Z :=
  if (0 <=? i) && (i <? a_size a) then Some (a_base a + i) else None.

(** [a[i]], [a] being an array of [n] arrays of [w] models from [base] on *)
Definition row (base n w i : Z) : option arr :=
  if (0 <=? i) && (i <? n) then Some (Arr (base + i * w) w) else None.

(** The members of [struct private], and of a [lenmodel] at [lm]. *)
Definition bit1 (s : Z) : option arr := row 0 STATES PSTATES s.
Definition bit2 : arr := Arr 48 STATES.
Definition bit3 : arr := Arr 60 STATES.
Definition bit4 : arr := Arr 72 STATES.
Definition bit5 : arr := Arr 84 STATES.
Definition shrt (s : Z) : option arr := row 96 STATES PSTATES s.
Definition literal (l : Z) : option arr := row 144 LCONTEXT 0x300 l.
Definition dislot (d : Z) : option arr := row 6288 DSTATES DISLOTS d.
Definition dispec : arr := Arr 6544 115.
Definition align : arr := Arr 6659 16.
Definition matchlen : Z := 6675.
Definition replen : Z := 6997.
Definition NMODELS : Z := 7319.

Definition choice1 (lm : Z) : Z := lm.
Definition choice2 (lm : Z) : Z := lm + 1.
Definition low (lm p : Z) : option arr := row (lm + 2) PSTATES 8 p.
Definition mid (lm p : Z) : option arr := row (lm + 34) PSTATES 8 p.
Definition high (lm : Z) : arr := Arr (lm + 66) 256.

(** ** The state *)

(** [lib/lzma.c: private] with the [struct lzma] of the header in front, and the
    bytes of the two buffers *)
Record lzma := Lzma {
  srcbuf : Z; srcptr : Z; srchwm : Z; srcend : Z;
  dstbuf : Z; dstptr : Z; dsthwm : Z; dstend : Z;
  src : list Z; dst : list Z;
  z_state : Z; pos_state : Z; error : Z;
  code : Z; range : Z;
  rep : list Z; probs : list Z }.
#[export] Instance eta_lzma : Eta lzma :=
  rd_pure Lzma <*> srcbuf <*> srcptr <*> srchwm <*> srcend <*> dstbuf <*> dstptr <*> dsthwm <*> dstend
    <*> src <*> dst <*> z_state <*> pos_state <*> error <*> code <*> range <*> rep <*> probs.

(** Computations that change the state, and may fault. *)
Definition lz (A : Type) := lzma -> option (A * lzma).

#[export] Instance lz_ret : MRet lz := fun A x z => Some (x, z).
#[export] Instance lz_bind : MBind lz := fun A B f m z =>
  match m z with Some (x, z) => f x z | None => None end.

Definition zof {A} (f : lzma -> A) : lz A := fun z => Some (f z, z).
Definition zset (f : lzma -> lzma) : lz unit := fun z => Some (tt, f z).
Definition zopt {A} (o : option A) : lz A := fun z => x ← o; Some (x, z).

(** [lib/lzma.c: error] *)
Definition set_error (err : Z) : lz unit := zset (fun z => z <| error := err |>).
(** [lib/lzma.c: byte_error] *)
Definition byte_error (err : Z) : lz Z := set_error err;; mret 0.
(** [lib/lzma.c: state_error] *)
Definition state_error (err : Z) : lz Z := set_error err;; mret STATE_INVALID.

(** [lib/lzma.c: put_byte] *)
Definition put_byte (c : Z) : lz unit :=
  z ← zof id;
  let ptr := dstptr z in
  if dstend z <=? ptr then set_error LZMA_OUTPUT_OVER
  else
    zset (fun z => z <| pos_state ::= fun p => Z.land (p + 1) 3 |>);;
    d ← zopt (zput (dst z) (ptr - dstbuf z) c);
    zset (fun z => z <| dst := d |> <| dstptr := ptr + 1 |>).

(** [lib/lzma.c: get_byte] *)
Definition get_byte : lz Z :=
  z ← zof id;
  let ptr := srcptr z in
  if srcend z <=? ptr then byte_error LZMA_INPUT_OVER
  else
    zset (fun z => z <| srcptr := ptr + 1 |>);;
    zopt (zget (src z) (ptr - srcbuf z)).

(** [lib/lzma.c: peek_back] *)
Definition peek_back (i : Z) : lz Z :=
  z ← zof id;
  let at_ := dstptr z - i - 1 in
  if (at_ <? dstbuf z) || (dstptr z <=? at_) then
    (if negb (i =? 0) then _ ← byte_error LZMA_INVALID_REF; mret tt else mret tt);;
    mret 0
  else zopt (zget (dst z) (at_ - dstbuf z)).

(** [lib/lzma.c: check_buffers 195-196] *)
Fixpoint read_code (n : nat) (c : Z) : lz Z :=
  match n with
  | O => mret c
  | S n => b ← get_byte; read_code n (Z.lor (u32 (Z.shiftl c 8)) b)
  end.

(** [lib/lzma.c: check_buffers] *)
Definition check_buffers : lz unit :=
  z ← zof id;
  if (srcbuf z =? 0) || (srcptr z =? 0) || (srcend z =? 0) then set_error LZMA_INPUT_OVER
  else if (dstbuf z =? 0) || (dstptr z =? 0) || (dstend z =? 0) then set_error LZMA_OUTPUT_OVER
  else if negb (z_state z =? STATE_INITIAL) then mret tt
  else
    c ← read_code 4 0;
    zset (fun z => z <| code := c |> <| z_state := STATE_LIT_LIT |> <| range := 0xFFFFFFFF |>).

(** [lib/lzma.c: init_probs] *)
Definition init_probs (a : arr) (p : list Z) : option (list Z) :=
  awrite p (a_base a) (repeat (Z.shiftl 1 10) (Z.to_nat (a_size a))).

(** [lib/lzma.c: init_lenmodel] *)
Definition init_lenmodel (lm : Z) (p : list Z) : option (list Z) :=
  p ← init_probs (Arr (choice1 lm) 1) p;
  p ← init_probs (Arr (choice2 lm) 1) p;
  p ← init_probs (Arr (lm + 2) (PSTATES * 8)) p;
  p ← init_probs (Arr (lm + 34) (PSTATES * 8)) p;
  init_probs (high lm) p.

(** [lib/lzma.c: init_private 214-227] the models *)
Definition init_models (p : list Z) : option (list Z) :=
  p ← init_probs (Arr 0 (STATES * PSTATES)) p;
  p ← init_probs bit2 p;
  p ← init_probs bit3 p;
  p ← init_probs bit4 p;
  p ← init_probs bit5 p;
  p ← init_probs (Arr 96 (STATES * PSTATES)) p;
  p ← init_probs (Arr 144 (LCONTEXT * 0x300)) p;
  p ← init_probs (Arr 6288 (DSTATES * DISLOTS)) p;
  p ← init_probs dispec p;
  p ← init_probs align p;
  p ← init_lenmodel matchlen p;
  init_lenmodel replen p.

(** [lib/lzma.c: init_private] *)
Definition init_private : lz unit :=
  zset (fun z => z <| error := 0 |> <| z_state := STATE_INITIAL |> <| pos_state := 0 |>
                   <| rep := [0; 0; 0; 0] |>);;
  p ← zof probs;
  p ← zopt (init_models p);
  zset (fun z => z <| probs := p |>).

(** [lib/lzma.c: normalize] *)
Definition normalize : lz unit :=
  r ← zof range;
  if 0x00FFFFFF <? r then mret tt
  else
    zset (fun z => z <| range ::= fun r => u32 (Z.shiftl r 8) |>);;
    c ← zof code;
    b ← get_byte;
    zset (fun z => z <| code := Z.lor (u32 (Z.shiftl c 8)) b |>).

(** [lib/lzma.c: dec_bit] [bm] is the place of the model *)
Definition dec_bit (bm : Z) : lz Z :=
  p ← zof probs;
  probability ← zopt (zget p bm);
  z ← zof id;
  let bound := u32 (Z.shiftr (range z) 11 * probability) in
  bit ← (if code z <? bound then
           p ← zopt (zput p bm (u32 (probability + Z.shiftr (u32 (Z.shiftl 1 11 - probability)) 5)));
           zset (fun z => z <| range := bound |> <| probs := p |>);;
           mret 0
         else
           p ← zopt (zput p bm (u32 (probability - Z.shiftr probability 5)));
           zset (fun z => z <| range := u32 (range z - bound) |> <| code := u32 (code z - bound) |> <| probs := p |>);;
           mret 1);
  normalize;;
  mret bit.

(** [lib/lzma.c: dec_direct] [i] bits left *)
Fixpoint dec_direct_loop (i : nat) (ret : Z) : lz Z :=
  match i with
  | O => mret ret
  | S i =>
      zset (fun z => z <| range ::= fun r => Z.shiftr r 1 |>);;
      let ret := u32 (Z.shiftl ret 1) in
      z ← zof id;
      ret ← (if range z <=? code z then
               zset (fun z => z <| code := u32 (code z - range z) |>);; mret (Z.lor ret 1)
             else mret ret);
      normalize;;
      dec_direct_loop i ret
  end.
Definition dec_direct (limit : Z) : lz Z := dec_direct_loop (Z.to_nat limit) 0.

(** [lib/lzma.c: range_check] *)
Definition range_check (i size : Z) : lz Z :=
  if i <? size then mret 0 else set_error LZMA_RANGE_CHECK;; mret (-1).

(** [bma[i]] for [dec_bit] *)
Definition dec_elem (bma : arr) (i : Z) : lz Z := bm ← zopt (elem bma i); dec_bit bm.

(** [lib/lzma.c: dec_tree 294-298] [k] rounds left; [None] is the early return *)
Fixpoint dec_tree_loop (k : nat) (bma : arr) (bms ret : Z) : lz (option Z) :=
  match k with
  | O => mret (Some ret)
  | S k =>
      c ← range_check ret bms;
      if negb (c =? 0) then mret None
      else b ← dec_elem bma ret; dec_tree_loop k bma bms (Z.lor (u32 (Z.shiftl ret 1)) b)
  end.

(** [lib/lzma.c: dec_tree] *)
Definition dec_tree (bma : arr) (bms n : Z) : lz Z :=
  r ← dec_tree_loop (Z.to_nat n) bma bms 1;
  match r with
  | None => mret 0
  | Some ret => mret (u32 (ret - Z.shiftl 1 n))
  end.

(** [lib/lzma.c: dec_rtree 306-311] [n] bits left *)
Fixpoint rtree_loop (n : nat) (sym ret : Z) : Z :=
  match n with
  | O => ret
  | S n => rtree_loop n (Z.shiftr sym 1) (Z.lor (u32 (Z.shiftl ret 1)) (Z.land sym 1))
  end.

(** [lib/lzma.c: dec_rtree] *)
Definition dec_rtree (bma : arr) (bms n : Z) : lz Z :=
  sym ← dec_tree bma bms n;
  mret (rtree_loop (Z.to_nat n) sym 0).

(** [lib/lzma.c: dec_match 334-339] the rest of the bits, in at most [k] rounds *)
Fixpoint dec_match_rest (k : nat) (bma : arr) (bms ret : Z) : lz (option Z) :=
  if ret <? 0x100 then
    match k with
    | O => zopt None
    | S k =>
        c ← range_check ret bms;
        if negb (c =? 0) then mret None
        else b ← dec_elem bma ret; dec_match_rest k bma bms (Z.lor (u32 (Z.shiftl ret 1)) b)
    end
  else mret (Some ret).

(** [lib/lzma.c: dec_match 320-342] [k] rounds left of 8 *)
Fixpoint dec_match_loop (k : nat) (bma : arr) (bms mbyte ret : Z) : lz (option Z) :=
  match k with
  | O => mret (Some ret)
  | S k =>
      let matchbit := Z.land (Z.shiftr mbyte (Z.of_nat k)) 1 in
      let off := u32 (ret + u32 (Z.shiftl matchbit 8) + 0x100) in
      c ← range_check off bms;
      if negb (c =? 0) then mret None
      else
        bit ← dec_elem bma off;
        let ret := Z.lor (u32 (Z.shiftl ret 1)) bit in
        if matchbit =? bit then dec_match_loop k bma bms mbyte ret
        else dec_match_rest 8 bma bms ret
  end.

(** [lib/lzma.c: dec_match] *)
Definition dec_match (bma : arr) (bms mbyte : Z) : lz Z :=
  r ← dec_match_loop 8 bma bms mbyte 1;
  match r with None => mret 0 | Some ret => mret (Z.land ret 0xFF) end.

(** [lib/lzma.c: dec_length] *)
Definition dec_length (lm pstate : Z) : lz Z :=
  b ← dec_bit (choice1 lm);
  if b =? 0 then a ← zopt (low lm pstate); dec_tree a (a_size a) 3
  else
    b ← dec_bit (choice2 lm);
    if b =? 0 then a ← zopt (mid lm pstate); r ← dec_tree a (a_size a) 3; mret (u32 (Z.shiftl 1 3 + r))
    else r ← dec_tree (high lm) (a_size (high lm)) 8; mret (u32 (Z.shiftl 1 3 + Z.shiftl 1 3 + r)).

(** [lib/lzma.c: is_lit] *)
Definition is_lit (state : Z) : bool := state <=? STATE_SHORTREP_LIT.

(** [lib/lzma.c: inflate_literal] *)
Definition inflate_literal (state : Z) : lz Z :=
  b ← peek_back 0;
  let lstate := Z.shiftr b 5 in
  c ← range_check (u32 lstate) LCONTEXT;
  if negb (c =? 0) then mret state
  else
    bma ← zopt (literal lstate);
    c ← (if is_lit state then dec_tree bma (a_size bma) 8
         else
           r ← zof rep;
           r0 ← zopt (zget r 0);
           m ← peek_back (u32 r0);
           dec_match bma (a_size bma) m);
    put_byte (u8 c);;
    mret (if state <=? STATE_SHORTREP_LIT_LIT then STATE_LIT_LIT
          else if state <=? STATE_LIT_SHORTREP then state - 3
          else state - 6).

(** [lib/lzma.c: repeat_from_dict] *)
Fixpoint repeat_loop (n : nat) (rep : Z) : lz unit :=
  match n with
  | O => mret tt
  | S n => c ← peek_back rep; put_byte c;; repeat_loop n rep
  end.
Definition repeat_from_dict (state rep n : Z) : lz Z := repeat_loop (Z.to_nat n) rep;; mret state.

(** [pz->rep[i] = pz->rep[j]], [pz->rep[i] = x] *)
Definition set_rep (i x : Z) : lz unit :=
  r ← zof rep; r ← zopt (zput r i x); zset (fun z => z <| rep := r |>).
Definition copy_rep (i j : Z) : lz unit :=
  r ← zof rep; x ← zopt (zget r j); set_rep i x.

(** [lib/lzma.c: inflate_match 411-440] the distance, or the state to return *)
Definition dec_dist (len dislot : Z) : lz (Z + Z) :=
  if dislot <? DIST_MODEL_START then mret (inl (u32 dislot))
  else
    let limit := Z.shiftr dislot 1 - 1 in
    let rep := u32 (s32 (Z.shiftl (2 + Z.land dislot 1) limit)) in
    if dislot <? DIST_MODEL_END then
      let off := u32 (rep - dislot) in
      let bms := u32 (a_size dispec - off) in
      let bma := Arr (a_base dispec + off) (a_size dispec - off) in
      c ← range_check off (a_size dispec);
      if negb (c =? 0) then s ← state_error LZMA_RANGE_CHECK; mret (inr s)
      else tree ← dec_rtree bma bms limit; mret (inl (u32 (rep + tree)))
    else
      dbits ← dec_direct (limit - ALIGN_BITS);
      rtree ← dec_rtree align (a_size align) ALIGN_BITS;
      let dbits := s32 (Z.shiftl (s32 dbits) ALIGN_BITS) in
      let rep := Z.lor (Z.lor rep (u32 dbits)) (u32 rtree) in
      if rep =? 0xFFFFFFFF then
        if negb (len =? 2) then s ← state_error LZMA_RANGE_CHECK; mret (inr s)
        else s ← state_error LZMA_STREAM_END; mret (inr s)
      else mret (inl rep).

(** [lib/lzma.c: inflate_match] *)
Definition inflate_match (state pstate : Z) : lz Z :=
  copy_rep 3 2;; copy_rep 2 1;; copy_rep 1 0;;
  l ← dec_length matchlen pstate;
  let len := u32 (2 + l) in
  let dstate := if u32 (len - 2) <? DSTATES - 1 then u32 (len - 2) else DSTATES - 1 in
  a ← zopt (dislot dstate);
  slot ← dec_tree a (a_size a) 6;
  d ← dec_dist len (s32 slot);
  match d with
  | inr s => mret s
  | inl rep =>
      set_rep 0 (s32 rep);;
      repeat_from_dict (if is_lit state then STATE_LIT_MATCH else STATE_NONLIT_MATCH) rep len
  end.

(** [lib/lzma.c: inflate_shortrep] *)
Definition inflate_shortrep (state : Z) : lz Z :=
  r ← zof rep;
  r0 ← zopt (zget r 0);
  repeat_from_dict (if is_lit state then STATE_LIT_SHORTREP else STATE_NONLIT_REP) (u32 r0) 1.

(** [lib/lzma.c: inflate_longrep] *)
Definition inflate_longrep (state pstate n : Z) : lz Z :=
  r ← zof rep;
  rn ← zopt (zget r n);
  (if 2 <? n then copy_rep 3 2 else mret tt);;
  (if 1 <? n then copy_rep 2 1 else mret tt);;
  (if 0 <? n then copy_rep 1 0 else mret tt);;
  set_rep 0 rn;;
  l ← dec_length replen pstate;
  repeat_from_dict (if is_lit state then STATE_LIT_LONGREP else STATE_NONLIT_REP) (u32 rn) (u32 (2 + l)).

(** [lib/lzma.c: lzma_inflate 489-505] one packet *)
Definition inflate_packet (s p : Z) : lz Z :=
  a ← zopt (bit1 s);
  b ← dec_elem a p;
  if b =? 0 then inflate_literal s
  else
    b ← dec_elem bit2 s;
    if b =? 0 then inflate_match s p
    else
      b ← dec_elem bit3 s;
      if b =? 0 then
        a ← zopt (shrt s);
        b ← dec_elem a p;
        if b =? 0 then inflate_shortrep s else inflate_longrep s p 0
      else
        b ← dec_elem bit4 s;
        if b =? 0 then inflate_longrep s p 1
        else
          b ← dec_elem bit5 s;
          if b =? 0 then inflate_longrep s p 2 else inflate_longrep s p 3.

(** [lib/lzma.c: lzma_inflate 480-513] the loop, in at most [fuel] rounds *)
Fixpoint inflate_loop (fuel : nat) : lz Z :=
  err ← zof error;
  if negb (err =? 0) then mret err
  else
    match fuel with
    | O => zopt None
    | S fuel =>
        p ← zof pos_state;
        s ← zof z_state;
        c ← range_check (u32 s) 12;
        if negb (c =? 0) then inflate_loop fuel
        else
          c ← range_check (u32 p) 4;
          if negb (c =? 0) then inflate_loop fuel
          else
            s ← inflate_packet s p;
            zset (fun z => z <| z_state := s |>);;
            z ← zof id;
            if srchwm z <? srcptr z then mret LZMA_NEED_INPUT
            else if dsthwm z <? dstptr z then mret LZMA_NEED_OUTPUT
            else inflate_loop fuel
    end.

(** [lib/lzma.c: lzma_inflate] *)
Definition lzma_inflate (fuel : nat) : lz Z := check_buffers;; inflate_loop fuel.

(** The size of [struct private]. *)
Definition sizeof_private : Z := 64 + 12 + 8 + 16 + 4 * NMODELS.

(** [lib/lzma.c: lzma_create] on memory with the contents [z]; the size given to
    [memzero] is that of the pointer, which covers [srcbuf] only *)
Definition lzma_create (len : Z) (z : lzma) : option (option lzma) :=
  if len <? sizeof_private then Some None
  else '(_, z) ← init_private (z <| srcbuf := 0 |>); Some (Some z).
