(* ===== verification/LzmaSafe.v ===== *)
(** * lib/lzma.c: safety, termination and the margins of the buffers

    Every step of the decoder takes a bounded number of input bytes and makes a
    bounded number of output bytes; a packet makes at least one or ends in an
    error.  [takes] states that of a computation, and its rules add it up. *)
From S2P Require Import Prelude Arr Sys State Lzma.

(** The buffers contain the pointers. *)
Record placed (z : lzma) : Prop := {
  pl_probs : zlen (probs z) = NMODELS;
  pl_rep : zlen (rep z) = 4;
  pl_src : srcbuf z <= srcptr z;
  pl_srcend : srcend z <= srcbuf z + zlen (src z);
  pl_dst : dstbuf z <= dstptr z <= dstbuf z + zlen (dst z);
  pl_dstend : dstend z <= dstbuf z + zlen (dst z);
  pl_bytes : bytes (dst z);
  pl_state : 0 <= z_state z < 16 /\ 0 <= pos_state z < 4 }.

(** From [z] to [z'] at most [k] bytes were read, at least [l] bytes were written
    unless there was an error, and at most [n]; an overrun was reported only
    where that many do not fit. *)
Record moves (k l n : Z) (z z' : lzma) : Prop := {
  mv_src : (srcbuf z', srchwm z', srcend z', src z') = (srcbuf z, srchwm z, srcend z, src z);
  mv_dst : (dstbuf z', dsthwm z', dstend z', length (dst z')) = (dstbuf z, dsthwm z, dstend z, length (dst z));
  mv_read : srcptr z <= srcptr z' <= srcptr z + k /\ srcptr z' <= Z.max (srcptr z) (srcend z);
  mv_wrote : dstptr z <= dstptr z' <= dstptr z + n /\ dstptr z' <= Z.max (dstptr z) (dstend z);
  mv_frame : forall p, p < dstptr z \/ dstptr z' <= p -> zget (dst z') (p - dstbuf z) = zget (dst z) (p - dstbuf z);
  mv_least : error z' = 0 -> dstptr z + l <= dstptr z';
  mv_error : error z <> 0 -> error z' <> 0;
  mv_code : error z' = error z \/ 1 <= error z' <= 7;
  mv_in : error z' = LZMA_INPUT_OVER -> error z = LZMA_INPUT_OVER \/ srcend z < srcptr z + k;
  mv_out : error z' = LZMA_OUTPUT_OVER -> error z = LZMA_OUTPUT_OVER \/ dstend z < dstptr z + n }.

Definition at_ (k l n : Z) (z z' : lzma) : Prop := placed z' /\ moves k l n z z'.

(** A change of a few fields moves as it should. *)
Ltac moves_fields :=
  cbn [id] in *; split; split; cbn; unfold LZMA_INPUT_OVER, LZMA_OUTPUT_OVER, LZMA_INVALID_REF in *;
  try done; try lia; auto.

Lemma moves_refl z : moves 0 0 0 z z.
Proof. split; try done; try lia; auto. Qed.

Lemma moves_trans k l n k' l' n' z1 z2 z3 :
  moves k l n z1 z2 -> moves k' l' n' z2 z3 -> moves (k + k') (l + l') (n + n') z1 z3.
Proof.
  intros [H1 H2 H3 H4 H5 H6 H7 H8 H9 H10] [G1 G2 G3 G4 G5 G6 G7 G8 G9 G10].
  pose proof H1 as [= _ _ E3 _]. pose proof H2 as [= E5 _ E7 _]. split.
  - by rewrite G1.
  - by rewrite G2.
  - rewrite E3 in *. clear -H3 G3. lia.
  - rewrite E7 in *. clear -H4 G4. lia.
  - intros p Hp. transitivity (zget (dst z2) (p - dstbuf z1)).
    + rewrite <- E5. apply G5. clear -Hp H4 G4. lia.
    + apply H5. clear -Hp H4 G4. lia.
  - intros E. assert (error z2 = 0) as E2 by (destruct (decide (error z2 = 0)) as [|Hn]; [done|by apply G7 in Hn]).
    specialize (G6 E). specialize (H6 E2). clear -G6 H6. lia.
  - auto.
  - destruct G8 as [->|]; [done|by right].
  - intros E. rewrite E3 in *. destruct (G9 E) as [E'|]; [destruct (H9 E')|]; [by left|right; clear -H G3; lia|right; clear -H H3; lia].
  - intros E. rewrite E7 in *. destruct (G10 E) as [E'|]; [destruct (H10 E')|]; [by left|right; clear -H G4; lia|right; clear -H H4; lia].
Qed.

Lemma moves_le k l n k' l' n' z z' :
  moves k l n z z' -> k <= k' -> l' <= l -> n <= n' -> moves k' l' n' z z'.
Proof.
  intros [H1 H2 H3 H4 H5 H6 H7 H8 H9 H10] Hk Hl Hn. split; [done|done|lia|lia|done| |done|done| |].
  - intros E. specialize (H6 E). lia.
  - intros E. destruct (H9 E); [by left|right; lia].
  - intros E. destruct (H10 E); [by left|right; lia].
Qed.

(** ** Computations *)

(** [m] does not fault, and ends in [Q]. *)
Definition lwp {A} (m : lz A) (z : lzma) (Q : A -> lzma -> Prop) : Prop :=
  match m z with Some (x, z) => Q x z | None => False end.

Definition takes (k l n : Z) {A} (m : lz A) (P : A -> Prop) : Prop :=
  forall z, placed z -> lwp m z (fun x z' => at_ k l n z z' /\ P x).

Lemma lwp_ret {A} (x : A) z (Q : A -> lzma -> Prop) : Q x z -> lwp (mret x) z Q.
Proof. done. Qed.

Lemma lwp_bind {A B} (m : lz A) (f : A -> lz B) z Q :
  lwp m z (fun x z => lwp (f x) z Q) -> lwp (m ≫= f) z Q.
Proof. unfold lwp, mbind, lz_bind. by destruct (m z) as [[x z']|]. Qed.

Lemma lwp_of {A} (f : lzma -> A) z (Q : A -> lzma -> Prop) : Q (f z) z -> lwp (zof f) z Q.
Proof. done. Qed.

Lemma lwp_set f z (Q : unit -> lzma -> Prop) : Q tt (f z) -> lwp (zset f) z Q.
Proof. done. Qed.

Lemma lwp_opt {A} (o : option A) z (Q : A -> lzma -> Prop) :
  is_Some o -> (forall x, o = Some x -> Q x z) -> lwp (zopt o) z Q.
Proof. intros [x ->]. unfold lwp, zopt. simpl. auto. Qed.

Lemma lwp_if {A} (b : bool) (m n : lz A) z Q :
  (b = true -> lwp m z Q) -> (b = false -> lwp n z Q) -> lwp (if b then m else n) z Q.
Proof. destruct b; auto. Qed.

Lemma lwp_mono {A} (m : lz A) z (P Q : A -> lzma -> Prop) :
  lwp m z P -> (forall x z, P x z -> Q x z) -> lwp m z Q.
Proof. unfold lwp. destruct (m z) as [[x z']|]; auto. Qed.

Lemma lwp_run {A} (m : lz A) z Q : lwp m z Q <-> exists x z', m z = Some (x, z') /\ Q x z'.
Proof.
  unfold lwp. destruct (m z) as [[x z']|].
  - split; [by exists x, z'|]. by intros (? & ? & [= <- <-] & ?).
  - split; [done|]. by intros (? & ? & ? & _).
Qed.

(** A computation in the middle of another. *)
Lemma lwp_takes {A} (m : lz A) k l n k' l' n' P z0 z (Q : A -> lzma -> Prop) :
  at_ k l n z0 z -> takes k' l' n' m P ->
  (forall x z', P x -> at_ (k + k') (l + l') (n + n') z0 z' -> Q x z') -> lwp m z Q.
Proof.
  intros [Hp Hm] Ht HQ. eapply lwp_mono; [by apply Ht|]. intros x z' [[Hp' Hm'] HP].
  apply HQ; [done|]. split; [done|]. by eapply moves_trans.
Qed.

Lemma at_refl z : placed z -> at_ 0 0 0 z z.
Proof. intros. split; [done|apply moves_refl]. Qed.

Lemma at_le k l n k' l' n' z z' : at_ k l n z z' -> k <= k' -> l' <= l -> n <= n' -> at_ k' l' n' z z'.
Proof. intros [Hp Hm] Hk Hl Hn. split; [done|by eapply moves_le]. Qed.

Lemma takes_le {A} (m : lz A) k l n k' l' n' (P : A -> Prop) :
  takes k l n m P -> k <= k' -> l' <= l -> n <= n' -> takes k' l' n' m P.
Proof. intros Ht Hk Hl Hn z Hz. eapply lwp_mono; [by apply Ht|]. intros x z' [Ha Hx]. split; [by eapply at_le|done]. Qed.

(** A change that concerns neither the buffers nor the sizes. *)
Definition same_buffers (z z' : lzma) : Prop :=
  srcbuf z' = srcbuf z /\ srcptr z' = srcptr z /\ srchwm z' = srchwm z /\ srcend z' = srcend z /\ src z' = src z /\
  dstbuf z' = dstbuf z /\ dstptr z' = dstptr z /\ dsthwm z' = dsthwm z /\ dstend z' = dstend z /\ dst z' = dst z /\
  error z' = error z /\ zlen (rep z') = zlen (rep z) /\ zlen (probs z') = zlen (probs z) /\
  z_state z' = z_state z /\ pos_state z' = pos_state z.

Lemma at_same k l n z0 z z' : at_ k l n z0 z -> same_buffers z z' -> at_ k l n z0 z'.
Proof.
  intros [Hp Hm] (E1 & E2 & E3 & E4 & E5 & E6 & E7 & E8 & E9 & E10 & E11 & E12 & E13 & E14 & E15).
  split; [destruct Hp as [P1 P2 P3 P4 P5 P6 P7 P8]|destruct Hm as [H1 H2 H3 H4 H5 H6 H7 H8 H9 H10]]; split;
    rewrite ?E1, ?E2, ?E3, ?E4, ?E5, ?E6, ?E7, ?E8, ?E9, ?E10, ?E11, ?E12, ?E13, ?E14, ?E15; done.
Qed.

Lemma lwp_set_at f k l n z0 z (Q : unit -> lzma -> Prop) :
  at_ k l n z0 z -> same_buffers z (f z) -> (forall z', at_ k l n z0 z' -> Q tt z') -> lwp (zset f) z Q.
Proof. intros Ha Hs HQ. apply HQ. by eapply at_same. Qed.

Lemma takes_error err :
  (1 <=? err) && (err <=? 7) && negb (err =? LZMA_INPUT_OVER) && negb (err =? LZMA_OUTPUT_OVER) = true -> takes 0 1 0 (set_error err) (fun _ => True).
Proof.
  rewrite !andb_true_iff, !negb_true_iff. intros [[[He1 He2] Hi] Ho]. zbool. intros z [H1 H2 H3 H4 H5 H6 H7 H8]. apply lwp_set. split; [|done].
  moves_fields. Qed.

Ltac lz_step :=
  lazymatch goal with
  | |- lwp (mret _) _ _ => apply lwp_ret
  | |- lwp (mbind _ _) _ _ => apply lwp_bind
  | |- lwp (zof _) _ _ => apply lwp_of
  | |- lwp (if _ then _ else _) _ _ => apply lwp_if; intros ?
  | |- lwp (let _ := _ in _) _ _ => cbv zeta
  end.
Ltac lz_steps := repeat (lz_step; cbv beta).

(** The call of something that takes little. *)
Tactic Notation "lz_call" uconstr(lem) :=
  eapply lwp_takes; [eassumption|eapply lem|intros ? ? ? ?; cbv beta in *; try (match goal with H : at_ _ _ _ _ ?z, H' : at_ _ _ _ _ ?z' |- lwp _ ?z' _ => clear H end)].

Lemma lwp_start {A} (m : lz A) k l n P :
  (forall z0 z, at_ 0 0 0 z0 z -> lwp m z (fun x z' => at_ k l n z0 z' /\ P x)) -> takes k l n m P.
Proof. intros Hm z Hz. apply Hm. by apply at_refl. Qed.

Lemma put_byte_takes c : 0 <= c < 256 -> takes 0 1 1 (put_byte c) (fun _ => True).
Proof.
  intros Hc z [H1 H2 H3 H4 H5 H6 H7 H8]. unfold put_byte. lz_steps; zbool; cbn [id] in *.
  - apply lwp_set. split; [|done]. moves_fields.
  - assert (0 <= Z.land (pos_state z + 1) 3 < 4) as Hps.
    { change 3 with (Z.ones 2). rewrite Z.land_ones by lia. by apply Z.mod_pos_bound. }
    apply lwp_set. lz_step. cbn [id]. apply lwp_opt; [rewrite zput_Some by (cbn; lia); by eexists|].
    intros d Hd. apply lwp_set. split; [|done]. pose proof (zput_length _ _ _ _ Hd) as Hl.
    assert (bytes d) as Hb.
    { unfold zput in Hd. destruct (_ && _); [|done]. injection Hd as <-. by apply Forall_insert. }
    split; split; cbn; rewrite ?Hl; try done; try lia; auto.
    intros p Hp. rewrite (zput_get _ _ _ _ _ Hd). apply decide_False. lia.
Qed.

Lemma get_byte_takes : takes 1 0 0 get_byte (fun _ => True).
Proof.
  intros z [H1 H2 H3 H4 H5 H6 H7 H8]. unfold get_byte. lz_steps; zbool; cbn [id] in *.
  - unfold byte_error. lz_steps. apply lwp_set, lwp_ret. split; [|done]. moves_fields.
  - apply lwp_set. cbn [id]. apply lwp_opt; [apply zget_lt_is_Some; cbn; lia|]. intros c _. split; [|done].
    moves_fields.
Qed.

Lemma peek_back_takes i : 0 <= i -> takes 0 0 0 (peek_back i) (fun c => 0 <= c < 256).
Proof.
  intros Hi. apply lwp_start. intros z0 z Ha. unfold peek_back. lz_step. lz_step. cbv beta. lz_steps.
  - unfold byte_error. lz_steps. lz_call takes_error; [done|]. lz_steps. split; [eapply at_le; [eassumption|lia..]|lia].
  - split; [done|lia].
  - zbool. destruct Ha as [Hp Hm]. pose proof Hp as [H1 H2 H3 H4 H5 H6 H7 H8]. cbn [id] in *.
    apply lwp_opt; [apply zget_lt_is_Some; lia|]. intros c Hc. split; [by split|].
    unfold zget in Hc. case_decide; [|done]. by apply (Forall_lookup_1 _ _ _ _ H7 Hc).
Qed.

Ltac lz_done := split; [eapply at_le; [eassumption|lia..]|try done].

(** A change of other fields in the middle. *)
Ltac lz_set :=
  lazymatch goal with
  | H : at_ _ _ _ _ ?z |- lwp (zset _) ?z _ =>
      eapply lwp_set_at; [exact H|repeat split; cbn [id] in *; cbn; try lia|]; clear H; intros ? ?; cbv beta
  end.

Lemma normalize_takes : takes 1 0 0 normalize (fun _ => True).
Proof.
  apply lwp_start. intros z0 z Ha. unfold normalize. lz_steps; [lz_done|].
  lz_set. lz_steps. lz_call get_byte_takes. lz_set. lz_done.
Qed.

Lemma at_probs k l n z0 z : at_ k l n z0 z -> zlen (probs z) = NMODELS.
Proof. intros [Hp _]. apply (pl_probs _ Hp). Qed.

Lemma zput_is_Some {A} (l : list A) i x : 0 <= i < zlen l -> is_Some (zput l i x).
Proof. intros. rewrite zput_Some by done. by eexists. Qed.

Lemma dec_bit_takes bm : 0 <= bm < NMODELS -> takes 1 0 0 (dec_bit bm) (fun b => b = 0 \/ b = 1).
Proof.
  intros Hbm. apply lwp_start. intros z0 z Ha. unfold dec_bit. pose proof (at_probs _ _ _ _ _ Ha) as Hl.
  lz_steps. apply lwp_opt; [apply zget_lt_is_Some; lia|]. intros p _. lz_steps.
  - apply lwp_opt; [apply zput_is_Some; lia|]. intros q Hq%zput_length.
    lz_step. lz_set. lz_steps. lz_call normalize_takes. lz_steps. lz_done. by left.
  - apply lwp_opt; [apply zput_is_Some; lia|]. intros q Hq%zput_length.
    lz_step. lz_set. lz_steps. lz_call normalize_takes. lz_steps. lz_done. by right.
Qed.

Lemma dec_elem_takes a i :
  0 <= a_base a -> a_base a + a_size a <= NMODELS -> 0 <= i < a_size a -> takes 1 0 0 (dec_elem a i) (fun b => b = 0 \/ b = 1).
Proof.
  intros Hb Hs Hi. apply lwp_start. intros z0 z Ha. unfold dec_elem, elem. lz_steps. apply lwp_opt.
  - zcases. by eexists.
  - intros bm Hbm. revert Hbm. zcases; try done. intros [= <-]. lz_call dec_bit_takes; [lia|]. by lz_done.
Qed.

Lemma lwp_range_check i size k l n z0 z (Q : Z -> lzma -> Prop) :
  at_ k l n z0 z -> (i < size -> Q 0 z) -> (size <= i -> forall z', at_ k (l + 1) n z0 z' -> Q (-1) z') -> lwp (range_check i size) z Q.
Proof.
  intros Ha H1 H2. unfold range_check. lz_steps; zbool; [by apply H1|].
  lz_call takes_error; [done|]. lz_steps. apply H2; [done|]. eapply at_le; [eassumption|lia..].
Qed.

Ltac lz_check := eapply lwp_range_check; [eassumption|intros ?|intros ? ? ?]; cbn [negb Z.eqb].

(** A reference one byte back at the start of the output is not an error. *)
Lemma peek_back_start z : dstptr z = dstbuf z -> peek_back 0 z = Some (0, z).
Proof.
  intros Hd. unfold peek_back, mbind, lz_bind, zof. cbn [id]. cbv zeta. rewrite Hd.
  rewrite (proj2 (Z.ltb_lt _ _)) by lia. reflexivity.
Qed.

(** ** Groups of bits *)

(** [(ret << 1) | bit] *)
Lemma push_bit ret b : 0 <= ret < 2 ^ 31 -> b = 0 \/ b = 1 -> Z.lor (u32 (Z.shiftl ret 1)) b = 2 * ret + b.
Proof.
  intros Hr Hb. rewrite Z.shiftl_mul_pow2 by lia. rewrite u32_small by lia.
  change (2 ^ 1) with 2. rewrite Z.mul_comm. destruct ret as [|p|p]; [by destruct Hb as [-> | ->]| |lia]. by destruct Hb as [-> | ->].
Qed.

(** An array inside of the models. *)
Definition inside (a : arr) : Prop := 0 <= a_base a /\ a_base a + a_size a <= NMODELS.

Lemma lor_bound a b w : 0 <= a < 2 ^ w -> 0 <= b < 2 ^ w -> 0 <= Z.lor a b < 2 ^ w.
Proof.
  intros Ha Hb. assert (0 <= Z.lor a b) as Hn by (apply Z.lor_nonneg; lia). split; [done|].
  destruct (decide (0 <= w)) as [Hw|]; [|rewrite Z.pow_neg_r in *; lia].
  destruct (decide (Z.lor a b = 0)) as [->|]; [by apply Z.pow_pos_nonneg|].
  apply Z.log2_lt_pow2; [lia|]. rewrite Z.log2_lor by lia.
  assert (0 < w) by (destruct (decide (w = 0)) as [->|]; [|lia]; assert (a = 0 /\ b = 0) as [-> ->] by lia; done).
  assert (forall c, 0 <= c < 2 ^ w -> Z.log2 c < w) as Hl.
  { intros c Hc. destruct (decide (c = 0)) as [->|]; [done|]. apply Z.log2_lt_pow2; lia. }
  apply Hl in Ha, Hb. lia.
Qed.

Lemma pow2_next d : 0 <= d -> 2 ^ (d + 1) = 2 * 2 ^ d.
Proof. intros. rewrite Z.pow_add_r by lia. change (2 ^ 1) with 2. lia. Qed.

Lemma dec_direct_loop_takes i ret :
  0 <= ret < 2 ^ 32 -> takes (Z.of_nat i) 0 0 (dec_direct_loop i ret) (fun r => 0 <= r < 2 ^ 32).
Proof.
  revert ret. induction i as [|i IH]; intros ret Hr; apply lwp_start; intros z0 z Ha; cbn [dec_direct_loop].
  { lz_steps. by lz_done. }
  assert (0 <= u32 (Z.shiftl ret 1) < 2 ^ 32) by (apply uwrap_range; lia).
  lz_step. lz_set. lz_steps.
  - lz_set. lz_steps. lz_call normalize_takes. lz_call IH; [by apply lor_bound|]. by lz_done.
  - lz_call normalize_takes. lz_call IH; [done|]. by lz_done.
Qed.

Lemma dec_direct_takes limit : takes (Z.max 0 limit) 0 0 (dec_direct limit) (fun r => 0 <= r < 2 ^ 32).
Proof. eapply takes_le; [by apply dec_direct_loop_takes|lia..]. Qed.

(** The tree: the index that [k] more bits lead to. *)
Lemma dec_tree_loop_takes a bms k n ret :
  inside a -> bms <= a_size a -> Z.of_nat k <= n <= 8 -> 2 ^ (n - Z.of_nat k) <= ret < 2 ^ (n - Z.of_nat k + 1) ->
  takes (Z.of_nat k) 0 0 (dec_tree_loop k a bms ret) (fun r => forall x, r = Some x -> 2 ^ n <= x < 2 ^ (n + 1)).
Proof.
  intros [Ha1 Ha2] Hbms. revert ret. induction k as [|k IH]; intros ret Hn Hr; apply lwp_start; intros z0 z Ha; cbn [dec_tree_loop].
  { lz_steps. lz_done. intros x [= <-]. by rewrite Z.sub_0_r in Hr. }
  assert (2 ^ (n - Z.of_nat (S k) + 1) <= 2 ^ 8) by (apply Z.pow_le_mono_r; lia).
  assert (0 < 2 ^ (n - Z.of_nat (S k))) by (apply Z.pow_pos_nonneg; lia).
  lz_step. lz_check.
  - lz_step. lz_call dec_elem_takes; [lia..|].
    rewrite push_bit by (done || lia). lz_call IH; [lia| |by lz_done].
    replace (n - Z.of_nat k) with (n - Z.of_nat (S k) + 1) by lia. rewrite !pow2_next in * by lia. lia.
  - lz_steps. by lz_done.
Qed.

Lemma dec_tree_takes a bms n :
  inside a -> bms <= a_size a -> 0 <= n <= 8 -> takes n 0 0 (dec_tree a bms n) (fun r => 0 <= r < 2 ^ n).
Proof.
  intros Hin Hbms Hn. apply lwp_start. intros z0 z Ha. unfold dec_tree. lz_step.
  assert (0 < 2 ^ n) by (apply Z.pow_pos_nonneg; lia).
  lz_call (dec_tree_loop_takes a bms _ n); [done|done|lia|rewrite Z2Nat.id, Z.sub_diag by lia; lia|].
  destruct x as [x|]; lz_steps; lz_done. specialize (H0 x eq_refl).
  rewrite Z.shiftl_1_l. replace (n + 1) with (Z.succ n) in * by lia. rewrite Z.pow_succ_r in * by lia.
  assert (2 ^ n <= 2 ^ 8) by (apply Z.pow_le_mono_r; lia). rewrite u32_small; lia.
Qed.

Lemma land_1 x : Z.land x 1 = 0 \/ Z.land x 1 = 1.
Proof.
  change (Z.land x 1) with (Z.land x (Z.ones 1)). rewrite Z.land_ones by lia. change (2 ^ 1) with 2.
  Z.div_mod_to_equations. lia.
Qed.

Lemma rtree_loop_bound n sym ret k :
  0 <= k -> Z.of_nat n + k <= 8 -> 0 <= ret < 2 ^ k -> 0 <= rtree_loop n sym ret < 2 ^ (Z.of_nat n + k).
Proof.
  revert sym ret k. induction n as [|n IH]; intros sym ret k Hk Hn Hr; cbn [rtree_loop]; [done|].
  assert (2 ^ k <= 2 ^ 8) by (apply Z.pow_le_mono_r; lia).
  assert (Z.land sym 1 = 0 \/ Z.land sym 1 = 1) as Hb.
  { apply land_1. }
  rewrite push_bit by (done || lia). replace (Z.of_nat (S n) + k) with (Z.of_nat n + (k + 1)) by lia.
  apply IH; [lia..|]. rewrite pow2_next by lia. lia.
Qed.

Lemma dec_rtree_takes a bms n :
  inside a -> bms <= a_size a -> 0 <= n <= 8 -> takes n 0 0 (dec_rtree a bms n) (fun r => 0 <= r < 2 ^ n).
Proof.
  intros Hin Hbms Hn. apply lwp_start. intros z0 z Ha. unfold dec_rtree. lz_step.
  lz_call dec_tree_takes; [done..|]. lz_step. lz_done.
  pose proof (rtree_loop_bound (Z.to_nat n) x 0 0) as Hr. rewrite Z2Nat.id, Z.add_0_r in Hr by lia. apply Hr; [lia|lia|done].
Qed.

Lemma dec_match_rest_takes a bms fuel k ret :
  inside a -> bms <= a_size a -> 0 <= Z.of_nat k <= 8 -> (k <= fuel)%nat ->
  2 ^ (8 - Z.of_nat k) <= ret < 2 ^ (8 - Z.of_nat k + 1) ->
  takes (Z.of_nat k) 0 0 (dec_match_rest fuel a bms ret) (fun r => forall x, r = Some x -> 2 ^ 8 <= x < 2 ^ 9).
Proof.
  intros [Ha1 Ha2] Hbms. revert k ret. induction fuel as [|fuel IH]; intros k ret Hn Hk Hr; apply lwp_start; intros z0 z Ha; cbn [dec_match_rest].
  { assert (k = 0%nat) as -> by lia. change (2 ^ (8 - Z.of_nat 0)) with 256 in Hr. zcases.
    lz_step. lz_done. intros x [= <-]. exact Hr. }
  destruct k as [|k].
  { change (2 ^ (8 - Z.of_nat 0)) with 256 in Hr. zcases. lz_step. lz_done. intros x [= <-]. exact Hr. }
  assert (2 ^ (8 - Z.of_nat (S k) + 1) <= 2 ^ 8) by (apply Z.pow_le_mono_r; lia).
  assert (0 < 2 ^ (8 - Z.of_nat (S k))) by (apply Z.pow_pos_nonneg; lia).
  lz_steps; zbool; [|lia]. lz_check.
  - lz_step. lz_call dec_elem_takes; [lia..|].
    rewrite push_bit by (done || lia). lz_call (IH k); [lia..| |by lz_done].
    replace (8 - Z.of_nat k) with (8 - Z.of_nat (S k) + 1) by lia. rewrite !pow2_next in * by lia. lia.
  - lz_steps. by lz_done.
Qed.

Lemma dec_match_loop_takes a bms k mbyte ret :
  inside a -> a_size a = 0x300 -> bms = a_size a -> Z.of_nat k <= 8 -> 
  2 ^ (8 - Z.of_nat k) <= ret < 2 ^ (8 - Z.of_nat k + 1) ->
  takes (Z.of_nat k) 0 0 (dec_match_loop k a bms mbyte ret) (fun r => forall x, r = Some x -> 2 ^ 8 <= x < 2 ^ 9).
Proof.
  intros Hin Hs Hbms. pose proof Hin as [Ha1 Ha2]. revert ret. induction k as [|k IH]; intros ret Hn Hr; apply lwp_start; intros z0 z Ha; cbn [dec_match_loop].
  { lz_step. lz_done. intros x [= <-]. exact Hr. }
  assert (2 ^ (8 - Z.of_nat (S k) + 1) <= 2 ^ 8) by (apply Z.pow_le_mono_r; lia).
  assert (0 < 2 ^ (8 - Z.of_nat (S k))) by (apply Z.pow_pos_nonneg; lia).
  cbv zeta. set (mb := Z.land (Z.shiftr mbyte (Z.of_nat k)) 1).
  assert (mb = 0 \/ mb = 1) as Hb.
  { apply land_1. }
  assert (u32 (ret + u32 (Z.shiftl mb 8) + 0x100) = ret + 256 * mb + 256) as ->.
  { rewrite Z.shiftl_mul_pow2 by lia. change (2 ^ 8) with 256 in *. rewrite !u32_small by (rewrite ?u32_small; lia). lia. }
  lz_step. lz_check.
  - lz_step. lz_call dec_elem_takes; [lia..|].
    rewrite push_bit by (done || lia).
    assert (2 ^ (8 - Z.of_nat k) <= 2 * ret + x < 2 ^ (8 - Z.of_nat k + 1)).
    { replace (8 - Z.of_nat k) with (8 - Z.of_nat (S k) + 1) by lia. rewrite !pow2_next in * by lia. lia. }
    lz_step.
    + lz_call IH; [lia|done|by lz_done].
    + lz_call (dec_match_rest_takes a bms 8 k); [done|lia..|done|by lz_done].
  - lz_steps. by lz_done.
Qed.

Lemma land_255 r : 0 <= Z.land r 0xFF < 256.
Proof. change 0xFF with (Z.ones 8). rewrite Z.land_ones by lia. by apply Z.mod_pos_bound. Qed.

Lemma dec_match_takes a bms mbyte :
  inside a -> a_size a = 0x300 -> bms = a_size a -> takes 8 0 0 (dec_match a bms mbyte) (fun r => 0 <= r < 256).
Proof.
  intros Hin Hs Hbms. apply lwp_start. intros z0 z Ha. unfold dec_match. lz_step.
  lz_call (dec_match_loop_takes a bms 8); [done..|]. destruct x as [x|]; lz_steps; lz_done. apply land_255.
Qed.

(** Arrays of the structure. *)
Lemma row_inside base n w i a :
  0 <= base -> 0 <= w -> base + n * w <= NMODELS -> row base n w i = Some a -> inside a /\ a_size a = w.
Proof.
  unfold row, inside. intros Hb Hw Hn. destruct (_ && _) eqn:E; [|done]. intros [= <-]. zbool. simpl. nia.
Qed.

Lemma row_Some base n w i : 0 <= i < n -> is_Some (row base n w i).
Proof. intros. unfold row. zcases. by eexists. Qed.

Lemma dec_length_takes lm pstate :
  0 <= lm -> lm + 322 <= NMODELS -> 0 <= pstate < 4 -> takes 10 0 0 (dec_length lm pstate) (fun r => 0 <= r <= 271).
Proof.
  intros Hl1 Hl2 Hp. apply lwp_start. intros z0 z Ha. unfold dec_length, choice1, choice2.
  lz_step. lz_call dec_bit_takes; [lia|]. lz_steps.
  { apply lwp_opt; [by apply row_Some|]. intros a Har.
    apply row_inside in Har as [Hin Hs]; [|unfold PSTATES; lia..].
    lz_call dec_tree_takes; [done..|]. lz_done. change (2 ^ 3) with 8 in *. lia. }
  lz_call dec_bit_takes; [lia|]. lz_steps.
  - apply lwp_opt; [by apply row_Some|]. intros a Har.
    apply row_inside in Har as [Hin Hs]; [|unfold PSTATES; lia..].
    lz_step. lz_call dec_tree_takes; [done..|]. lz_step. lz_done. change (2 ^ 3) with 8 in *. change (Z.shiftl 1 3) with 8.
    rewrite u32_small; lia.
  - lz_call dec_tree_takes; [unfold high, inside; cbn; lia|done|done|]. lz_step. lz_done.
    change (2 ^ 8) with 256 in *. change (Z.shiftl 1 3) with 8. rewrite u32_small; lia.
Qed.

(** ** Packets *)

Lemma repeat_loop_takes n r :
  0 <= r -> takes 0 (Z.of_nat n) (Z.of_nat n) (repeat_loop n r) (fun _ => True).
Proof.
  intros Hr. induction n as [|n IH]; apply lwp_start; intros z0 z Ha; cbn [repeat_loop].
  { lz_steps. by lz_done. }
  lz_step. lz_call peek_back_takes; [done|]. lz_step. lz_call put_byte_takes; [done|]. lz_call IH. by lz_done.
Qed.

Lemma repeat_from_dict_takes s r n :
  0 <= s < 16 -> 0 <= r -> 0 <= n -> takes 0 n n (repeat_from_dict s r n) (fun s => 0 <= s < 16).
Proof.
  intros Hs Hr Hn. apply lwp_start. intros z0 z Ha. unfold repeat_from_dict. lz_step.
  lz_call repeat_loop_takes; [done|]. lz_step. by lz_done.
Qed.

Lemma at_rep k l n z0 z : at_ k l n z0 z -> zlen (rep z) = 4.
Proof. intros [Hp _]. apply (pl_rep _ Hp). Qed.

Lemma set_rep_takes i x : 0 <= i < 4 -> takes 0 0 0 (set_rep i x) (fun _ => True).
Proof.
  intros Hi. apply lwp_start. intros z0 z Ha. unfold set_rep. pose proof (at_rep _ _ _ _ _ Ha) as Hl.
  lz_steps. apply lwp_opt; [apply zput_is_Some; lia|]. intros r Hr%zput_length. lz_set. by lz_done.
Qed.

Lemma copy_rep_takes i j : 0 <= i < 4 -> 0 <= j < 4 -> takes 0 0 0 (copy_rep i j) (fun _ => True).
Proof.
  intros Hi Hj. apply lwp_start. intros z0 z Ha. unfold copy_rep. pose proof (at_rep _ _ _ _ _ Ha) as Hl.
  lz_steps. apply lwp_opt; [apply zget_lt_is_Some; lia|]. intros r _. lz_call set_rep_takes; [done|]. by lz_done.
Qed.

(** A place in the distances. *)
Ltac lz_rep :=
  match goal with
  | H : at_ _ _ _ _ ?z |- lwp (zopt (zget (rep ?z) _)) ?z _ =>
      apply lwp_opt; [apply zget_lt_is_Some; rewrite (at_rep _ _ _ _ _ H); lia|intros ? _]
  end.

Lemma inflate_literal_takes s : 0 <= s < 12 -> takes 8 1 1 (inflate_literal s) (fun s => 0 <= s < 16).
Proof.
  intros Hst. apply lwp_start. intros z0 z Ha. unfold inflate_literal. lz_step. lz_call peek_back_takes; [lia|]. lz_step.
  assert (0 <= Z.shiftr x 5 < 8) by (rewrite Z.shiftr_div_pow2 by lia; change (2 ^ 5) with 32; Z.div_mod_to_equations; lia).
  rewrite u32_small by lia. lz_check; [|lz_step; lz_done; lia].
  lz_step. apply lwp_opt; [by apply row_Some|]. intros a Har.
  apply row_inside in Har as [Hin Hs]; [|unfold LCONTEXT, NMODELS; lia..].
  assert (takes 8 0 0 (if is_lit s then dec_tree a (a_size a) 8
         else r ← zof rep; r0 ← zopt (zget r 0); m ← peek_back (u32 r0); dec_match a (a_size a) m) (fun _ => True)) as Ht.
  { apply lwp_start. intros z1 z2 Ha2. lz_steps.
    - lz_call dec_tree_takes; [done..|]. by lz_done.
    - lz_rep. lz_step. lz_call peek_back_takes; [apply uwrap_range; lia|].
      lz_call dec_match_takes; [done..|]. by lz_done. }
  lz_step. lz_call Ht. lz_step. lz_call put_byte_takes; [apply uwrap_range; lia|]. lz_step. lz_done.
  unfold STATE_SHORTREP_LIT_LIT, STATE_LIT_SHORTREP, STATE_LIT_LIT. zcases; lia.
Qed.

(** The distance, or an error. *)
Lemma lwp_dec_dist len slot k l n z0 z (Q : Z + Z -> lzma -> Prop) :
  at_ k l n z0 z -> 0 <= slot < 64 ->
  (forall r z', 0 <= r < 2 ^ 32 -> at_ (k + 30) l n z0 z' -> Q (inl r) z') ->
  (forall z', at_ (k + 30) (l + 1) n z0 z' -> Q (inr STATE_INVALID) z') ->
  lwp (dec_dist len slot) z Q.
Proof.
  intros Ha Hslot H1 H2. unfold dec_dist, state_error, DIST_MODEL_START, DIST_MODEL_END, ALIGN_BITS. lz_steps; zbool.
  - apply H1; [apply uwrap_range; lia|]. eapply at_le; [eassumption|lia..].
  - assert (forall slot, 4 <= slot < 14 -> 0 <= u32 (u32 (s32 (Z.shiftl (2 + Z.land slot 1) (Z.shiftr slot 1 - 1))) - slot) < 115 /\
      u32 (a_size dispec - u32 (u32 (s32 (Z.shiftl (2 + Z.land slot 1) (Z.shiftr slot 1 - 1))) - slot)) <=
      a_size dispec - u32 (u32 (s32 (Z.shiftl (2 + Z.land slot 1) (Z.shiftr slot 1 - 1))) - slot) /\
      0 <= Z.shiftr slot 1 - 1 <= 8) as Hall.
    { change 14 with (4 + 10). refine (Prelude.range_check _ 4 10 _). by vm_compute. }
    destruct (Hall slot ltac:(lia)) as (Ho & Hb & Hl). clear Hall.
    set (off := u32 (_ - slot)) in *. lz_check.
    + lz_step. lz_call dec_rtree_takes; [unfold inside, dispec, NMODELS in *; cbn in *; lia|done|done|].
      lz_step. apply H1; [apply uwrap_range; lia|]. eapply at_le; [eassumption|lia..].
    + lz_step. lz_step. lz_call takes_error; [done|]. lz_steps. apply H2. eapply at_le; [eassumption|lia..].
  - assert (0 <= Z.shiftr slot 1 < 32) by (rewrite Z.shiftr_div_pow2 by lia; change (2 ^ 1) with 2; Z.div_mod_to_equations; lia).
    lz_call dec_direct_takes. lz_step. lz_call dec_rtree_takes; [unfold inside, align, NMODELS; cbn; lia|done|done|].
    lz_steps; [lz_call takes_error; [done|]; lz_steps..|].
    + apply H2. eapply at_le; [eassumption|lia..].
    + apply H2. eapply at_le; [eassumption|lia..].
    + apply H1; [|eapply at_le; [eassumption|lia..]].
      repeat apply lor_bound; apply uwrap_range; lia.
Qed.

Lemma inflate_match_takes s p : 0 <= p < 4 -> takes 46 1 273 (inflate_match s p) (fun s => 0 <= s < 16).
Proof.
  intros Hp. apply lwp_start. intros z0 z Ha. unfold inflate_match.
  do 3 (lz_step; lz_call copy_rep_takes; [lia..|]). lz_step.
  lz_call dec_length_takes; [unfold matchlen, NMODELS; lia..|]. cbv zeta.
  rewrite !u32_small by lia. lz_step. apply lwp_opt.
  { apply row_Some. unfold DSTATES. zcases. }
  intros a Har. apply row_inside in Har as [Hin Hs]; [|unfold DSTATES, DISLOTS, NMODELS; lia..].
  lz_step. lz_call dec_tree_takes; [done..|]. change (2 ^ 6) with 64 in *. rewrite s32_small by lia.
  lz_step. eapply lwp_dec_dist; [eassumption|lia| |].
  - intros r z2 Hr Ha2. lz_step. lz_call set_rep_takes; [lia|].
    lz_call repeat_from_dict_takes; [by destruct (is_lit s)|lia..|]. by lz_done.
  - intros z2 Ha2. lz_step. by lz_done.
Qed.

Lemma inflate_shortrep_takes s : takes 0 1 1 (inflate_shortrep s) (fun s => 0 <= s < 16).
Proof.
  apply lwp_start. intros z0 z Ha. unfold inflate_shortrep. lz_steps. lz_rep.
  lz_call repeat_from_dict_takes; [by destruct (is_lit s)|apply uwrap_range; lia|lia|]. by lz_done.
Qed.

Lemma inflate_longrep_takes s p n : 0 <= p < 4 -> 0 <= n < 4 -> takes 10 1 273 (inflate_longrep s p n) (fun s => 0 <= s < 16).
Proof.
  intros Hp Hn. apply lwp_start. intros z0 z Ha. unfold inflate_longrep. lz_steps. lz_rep.
  assert (forall (b : bool) i j, 0 <= i < 4 -> 0 <= j < 4 -> takes 0 0 0 (if b then copy_rep i j else mret tt) (fun _ => True)) as Hc.
  { intros [] i j Hi Hj; [by apply copy_rep_takes|]. apply lwp_start. intros. lz_step. by lz_done. }
  do 3 (lz_step; lz_call Hc; [lia..|]). lz_step. lz_call set_rep_takes; [lia|]. lz_step.
  lz_call dec_length_takes; [unfold replen, NMODELS; lia..|].
  lz_call repeat_from_dict_takes; [by destruct (is_lit s)|apply uwrap_range; lia|rewrite u32_small; lia|].
  rewrite !u32_small in * by lia. by lz_done.
Qed.

(** A packet takes at most 48 bytes, makes at least one and at most 273. *)
Lemma inflate_packet_takes s p : 0 <= s < 12 -> 0 <= p < 4 -> takes 48 1 273 (inflate_packet s p) (fun s => 0 <= s < 16).
Proof.
  intros Hs Hp. apply lwp_start. intros z0 z Ha. unfold inflate_packet.
  assert (forall k, 48 <= k -> k + 12 <= 108 -> takes 1 0 0 (dec_elem (Arr k STATES) s) (fun b => b = 0 \/ b = 1)) as He.
  { intros k H1 H2. apply dec_elem_takes; cbn; [lia|unfold NMODELS, STATES; lia|done]. }
  lz_step. apply lwp_opt; [by apply row_Some|]. intros a Har.
  apply row_inside in Har as [[Hi1 Hi2] Has]; [|unfold STATES, PSTATES, NMODELS; lia..].
  lz_step. lz_call dec_elem_takes; [done|done|rewrite Has; done|]. lz_step.
  { lz_call inflate_literal_takes; [done|]. by lz_done. }
  lz_step. lz_call He; [lia..|]. lz_step.
  { lz_call inflate_match_takes; [done|]. by lz_done. }
  lz_step. lz_call He; [lia..|]. lz_step.
  - lz_step. apply lwp_opt; [by apply row_Some|]. intros b Hbr.
    apply row_inside in Hbr as [[Hj1 Hj2] Hbs]; [|unfold STATES, PSTATES, NMODELS; lia..].
    lz_step. lz_call dec_elem_takes; [done|done|rewrite Hbs; done|]. lz_step.
    + lz_call inflate_shortrep_takes. by lz_done.
    + lz_call inflate_longrep_takes; [done|lia|]. by lz_done.
  - lz_step. lz_call He; [lia..|]. lz_step; [lz_call inflate_longrep_takes; [done|lia|]; by lz_done|].
    lz_step. lz_call He; [lia..|]. lz_step; (lz_call inflate_longrep_takes; [done|lia|]; by lz_done).
Qed.

(** ** The loop *)

(** Some input was read and some output was written. *)
Definition goes (z z' : lzma) : Prop := placed z' /\ exists k n, moves k 0 n z z'.

Lemma goes_trans z1 z2 z3 : goes z1 z2 -> goes z2 z3 -> goes z1 z3.
Proof. intros [_ (k & n & H1)] [Hp (k' & n' & H2)]. split; [done|]. eexists _, _. by apply (moves_trans _ _ _ _ _ _ _ _ _ H1 H2). Qed.

Lemma at_goes k l n z z' : at_ k l n z z' -> 0 <= l -> goes z z'.
Proof. intros [Hp Hm] Hl. split; [done|]. exists k, n. by eapply moves_le. Qed.

(** What the result says. *)
Definition outcome (r : Z) (z : lzma) : Prop :=
  (error z = 0 /\ r = LZMA_NEED_INPUT /\ srchwm z < srcptr z) \/
  (error z = 0 /\ r = LZMA_NEED_OUTPUT /\ srcptr z <= srchwm z /\ dsthwm z < dstptr z) \/
  (error z <> 0 /\ r = LZMA_NEED_INPUT /\ srchwm z < srcptr z) \/
  (error z <> 0 /\ r = LZMA_NEED_OUTPUT /\ dsthwm z < dstptr z) \/
  (error z <> 0 /\ r = error z).

(** Before a packet: its input and its output fit between the marks and the ends. *)
Definition no_overrun (z : lzma) : Prop := error z <> LZMA_INPUT_OVER /\ error z <> LZMA_OUTPUT_OVER.
Definition margin (z : lzma) : Prop :=
  srcptr z <= srchwm z + 4 /\ dstptr z <= dsthwm z /\ srchwm z + 52 <= srcend z /\ dsthwm z + 273 <= dstend z /\ no_overrun z.
Definition within (z : lzma) : Prop :=
  srcptr z <= srchwm z + 52 /\ dstptr z <= dsthwm z + 273 /\ no_overrun z.

Lemma margin_packet z z' : margin z -> at_ 48 1 273 z z' -> within z'.
Proof.
  intros (H1 & H2 & H3 & H4 & H5 & H6) [_ [[= _ M1 M2 _] [= _ M3 M4 _] M5 M6 _ _ _ _ M7 M8]].
  unfold within, no_overrun. rewrite M1, M3. repeat split; lia.
Qed.

Lemma at_state k l n z0 z s : at_ k l n z0 z -> 0 <= s < 16 -> at_ k l n z0 (z <| z_state := s |>).
Proof.
  intros [[P1 P2 P3 P4 P5 P6 P7 [P8 P9]] [H1 H2 H3 H4 H5 H6 H7 H8 H9 H10]] Hs. by split; split.
Qed.

Lemma inflate_loop_ok fuel z :
  placed z -> Z.max 0 (dstend z - dstptr z) < Z.of_nat fuel ->
  lwp (inflate_loop fuel) z (fun r z' => goes z z' /\ outcome r z' /\ (margin z -> within z')).
Proof.
  revert z. induction fuel as [|fuel IH]; intros z Hz Hfuel; [lia|].
  assert (forall z z', margin z -> error z <> 0 -> z' = z -> within z') as Hstay.
  { intros z1 z2 (H1 & H2 & H3 & H4 & H5) _ ->. split_and!; [lia|lia|done..]. }
  assert (forall z, placed z -> error z <> 0 ->
    lwp (inflate_loop fuel) z (fun r z' => z' = z /\ r = error z)) as Herr.
  { intros z1 _ He. destruct fuel; cbn [inflate_loop]; lz_step; lz_step; lz_step; try done; apply negb_false_iff, Z.eqb_eq in H; done. }
  cbn [inflate_loop]. lz_step. lz_step. lz_step.
  { lz_step. apply negb_true_iff, Z.eqb_neq in H. split; [by split; [|exists 0, 0; apply moves_refl]|].
    split; [right; right; by right; right|]. intros Hm. by eapply Hstay. }
  apply negb_false_iff, Z.eqb_eq in H. pose proof (at_refl z Hz) as Ha. pose proof (pl_state _ Hz) as [Hs Hp].
  assert (forall z1, at_ 48 1 273 z z1 -> error z1 <> 0 ->
    lwp (inflate_loop fuel) z1 (fun r z' => goes z z' /\ outcome r z' /\ (margin z -> within z'))) as Hend.
  { intros z1 Ha1 He. eapply lwp_mono; [apply Herr; [apply Ha1|done]|]. intros r z' [-> ->].
    split; [by eapply at_goes|]. split; [by right; right; right; right|]. intros Hm. by eapply margin_packet. }
  lz_steps. rewrite !u32_small by lia. lz_check; [|apply Hend; [by eapply at_le|]].
  2: { destruct H1 as [_ [_ _ _ M1 _ M2 _ _ _ _]]. intros E. specialize (M2 E). lia. }
  lz_step. lz_check; [|lia]. lz_step. lz_call inflate_packet_takes; [lia|done|].
  match goal with Hx : at_ _ _ _ _ _ |- _ => rename Hx into Hpk end. apply (at_state _ _ _ _ _ x) in Hpk; [|done]. lz_step. apply lwp_set. set (z1 := z' <| _ := _ |>) in *.
  assert (at_ 48 1 273 z z1) as Ha1 by (eapply at_le; [exact Hpk|lia..]). clearbody z1. lz_steps; zbool; cbn [id] in *.
  - split; [by eapply at_goes|]. split; [|intros Hm; by eapply margin_packet].
    destruct (decide (error z1 = 0)); [by left|right; right; by left].
  - split; [by eapply at_goes|]. split; [|intros Hm; by eapply margin_packet].
    destruct (decide (error z1 = 0)); [right; by left|right; right; right; by left].
  - destruct (decide (error z1 = 0)) as [He|He]; [|by apply Hend].
    pose proof Ha1 as [Hp1 [[= _ M1 M2 _] [= _ M3 M4 _] _ M5 _ M6 _ _ _ _]]. specialize (M6 He).
    eapply lwp_mono; [apply IH; [done|lia]|]. intros r z2 (G1 & G2 & G3). split; [|split; [done|]].
    + eapply goes_trans; [by eapply at_goes|done].
    + intros Hm. apply G3. destruct (margin_packet _ _ Hm Ha1) as (_ & _ & W). destruct Hm as (W1 & W2 & W3 & W4 & W5).
      unfold margin. rewrite M1, M2, M3, M4. split_and!; try lia. done.
Qed.

(** ** The whole call *)

(** No pointer is NULL. *)
Definition given (z : lzma) : Prop :=
  srcbuf z <> 0 /\ srcptr z <> 0 /\ srcend z <> 0 /\ dstbuf z <> 0 /\ dstptr z <> 0 /\ dstend z <> 0.

Lemma read_code_takes n c : takes (Z.of_nat n) 0 0 (read_code n c) (fun _ => True).
Proof.
  revert c. induction n as [|n IH]; intros c; apply lwp_start; intros z0 z Ha; cbn [read_code]; lz_step.
  { by lz_done. }
  lz_call get_byte_takes. lz_call IH. by lz_done.
Qed.

Lemma check_buffers_takes z :
  placed z -> given z -> lwp check_buffers z (fun _ z' => at_ 4 0 0 z z').
Proof.
  intros Hz (H1 & H2 & H3 & H4 & H5 & H6). pose proof (at_refl z Hz) as Ha. unfold check_buffers. lz_step. lz_step. cbn [id].
  rewrite (proj2 (Z.eqb_neq _ _) H1), (proj2 (Z.eqb_neq _ _) H2), (proj2 (Z.eqb_neq _ _) H3), (proj2 (Z.eqb_neq _ _) H4),
    (proj2 (Z.eqb_neq _ _) H5), (proj2 (Z.eqb_neq _ _) H6). cbn [orb]. lz_steps.
  - by eapply at_le.
  - lz_call read_code_takes. apply lwp_set. match goal with Hx : at_ _ _ _ _ _ |- _ => rename Hx into Hc end.
    apply (at_state _ _ _ _ _ STATE_LIT_LIT) in Hc; [|done]. eapply at_same; [exact Hc|by repeat split].
Qed.

Lemma lzma_inflate_ok fuel z :
  placed z -> given z -> Z.max 0 (dstend z - dstptr z) < Z.of_nat fuel ->
  lwp (lzma_inflate fuel) z (fun r z' => goes z z' /\ outcome r z' /\
    (srcptr z <= srchwm z -> dstptr z <= dsthwm z -> srchwm z + 52 <= srcend z -> dsthwm z + 273 <= dstend z ->
     no_overrun z -> within z')).
Proof.
  intros Hz Hg Hf. unfold lzma_inflate. lz_step. eapply lwp_mono; [by apply check_buffers_takes|]. intros [] z1 Ha.
  pose proof Ha as [Hp1 [[= _ M1 M2 _] [= _ M3 M4 _] M5 M6 _ _ _ _ M7 M8]].
  eapply lwp_mono; [apply inflate_loop_ok; [done|lia]|]. intros r z2 (G1 & G2 & G3). split; [|split; [done|]].
  { eapply goes_trans; [by eapply at_goes|done]. }
  intros W1 W2 W3 W4 [W5 W6]. apply G3. unfold margin, no_overrun. rewrite M1, M2, M3, M4. split_and!; lia.
Qed.

(** C5. The decoder is safe and returns for every input, however malformed: for
    buffers that contain its pointers, one round of the loop for each byte of
    room in the output and one more are enough.  No array or buffer is accessed
    outside of its bounds, the pointers only move forward and not past the
    ends, no byte of the output is changed but those between the old and the
    new position, and the result says why the decoder stopped: the error it
    keeps, or the mark that was passed. *)
Theorem lzma_inflate_terminates fuel z :
  placed z -> given z -> 0 <= error z <= 7 -> Z.max 0 (dstend z - dstptr z) < Z.of_nat fuel ->
  exists r z', lzma_inflate fuel z = Some (r, z') /\ placed z' /\
    1 <= r <= 7 /\ outcome r z' /\
    (srcbuf z', srchwm z', srcend z', src z') = (srcbuf z, srchwm z, srcend z, src z) /\
    (dstbuf z', dsthwm z', dstend z', length (dst z')) = (dstbuf z, dsthwm z, dstend z, length (dst z)) /\
    srcptr z <= srcptr z' <= Z.max (srcptr z) (srcend z) /\
    dstptr z <= dstptr z' <= Z.max (dstptr z) (dstend z) /\
    forall p, p < dstptr z \/ dstptr z' <= p -> zget (dst z') (p - dstbuf z) = zget (dst z) (p - dstbuf z).
Proof.
  intros Hz Hg He Hf. destruct (proj1 (lwp_run _ _ _) (lzma_inflate_ok fuel z Hz Hg Hf)) as (r & z' & Hr & [Hp (k & n & Hm)] & Ho & _).
  exists r, z'. destruct Hm as [H1 H2 H3 H4 H5 _ _ H8 _ _]. split_and!; try done; try lia.
  - unfold outcome, LZMA_NEED_INPUT, LZMA_NEED_OUTPUT in Ho. lia.
  - unfold outcome, LZMA_NEED_INPUT, LZMA_NEED_OUTPUT in Ho. lia.
Qed.

(** C6. The marks work as the header of the library promises: when 52 bytes of
    input lie between the input mark and its end and 273 bytes of room between
    the output mark and its end, a call that starts at or before the marks
    never runs into an end, so it can always be continued after the buffers
    were moved, and it passes the marks by no more than that. *)
Theorem lzma_inflate_margins fuel z :
  placed z -> given z -> no_overrun z -> Z.max 0 (dstend z - dstptr z) < Z.of_nat fuel ->
  srcptr z <= srchwm z -> dstptr z <= dsthwm z -> srchwm z + 52 <= srcend z -> dsthwm z + 273 <= dstend z ->
  exists r z', lzma_inflate fuel z = Some (r, z') /\
    r <> LZMA_INPUT_OVER /\ r <> LZMA_OUTPUT_OVER /\ no_overrun z' /\
    srcptr z' <= srchwm z + 52 /\ dstptr z' <= dsthwm z + 273.
Proof.
  intros Hz Hg Hn Hf H1 H2 H3 H4.
  destruct (proj1 (lwp_run _ _ _) (lzma_inflate_ok fuel z Hz Hg Hf)) as (r & z' & Hr & [Hp (k & n & Hm)] & Ho & Hw).
  destruct (Hw H1 H2 H3 H4 Hn) as (W1 & W2 & W3 & W4). pose proof (mv_src _ _ _ _ _ Hm) as [= _ E1 E2 _].
  pose proof (mv_dst _ _ _ _ _ Hm) as [= _ E3 E4 _]. rewrite E1 in W1. rewrite E3 in W2.
  exists r, z'. unfold outcome, no_overrun, LZMA_INPUT_OVER, LZMA_OUTPUT_OVER, LZMA_NEED_INPUT, LZMA_NEED_OUTPUT in *.
  split_and!; try done; lia.
Qed.

(** ** A stream *)

(** The first [n] models were set. *)
Definition filled (n : Z) (p : list Z) : Prop :=
  zlen p = NMODELS /\ take (Z.to_nat n) p = repeat 1024 (Z.to_nat n).

Lemma init_probs_fills n m p :
  0 <= n -> 0 <= m -> n + m <= NMODELS -> filled n p -> yields (init_probs (Arr n m) p) (filled (n + m)).
Proof.
  intros Hn Hm Hk [Hp Ht]. unfold init_probs. cbn [a_base a_size]. rewrite awrite_Some by (rewrite ?repeat_length; lia).
  unfold yields, filled. rewrite Ht, !length_app, !repeat_length, length_drop. split; [lia|].
  rewrite app_assoc, take_app_le by (rewrite length_app, !repeat_length; lia).
  rewrite take_ge by (rewrite length_app, !repeat_length; lia). rewrite Z2Nat.inj_add by lia. by rewrite repeat_app.
Qed.

Lemma init_lenmodel_fills lm p :
  0 <= lm -> lm + 322 <= NMODELS -> filled lm p -> yields (init_lenmodel lm p) (filled (lm + 322)).
Proof.
  intros H1 H2 Hp. unfold init_lenmodel, choice1, choice2, high, PSTATES.
  do 4 (eapply yields_bind; [eapply init_probs_fills; [..|eassumption]; lia|];
        clear p Hp; intros p Hp; rewrite <- ?Z.add_assoc in Hp; cbn [Z.mul Z.add Pos.mul Pos.add Pos.succ] in Hp).
  replace (lm + 322) with (lm + 66 + 256) by lia. apply init_probs_fills; [lia..|done].
Qed.

Lemma init_models_fills p : zlen p = NMODELS -> yields (init_models p) (filled NMODELS).
Proof.
  intros Hl. assert (filled 0 p) as Hp by done. clear Hl. unfold init_models, bit2, bit3, bit4, bit5, dispec, align.
  do 10 (eapply yields_bind; [eapply init_probs_fills; [..|eassumption]; done|];
         clear p Hp; intros p Hp; match type of Hp with filled ?n _ => let m := eval vm_compute in n in change n with m in Hp end).
  eapply yields_bind; [eapply init_lenmodel_fills; [..|eassumption]; done|]. clear p Hp. intros p Hp.
  by apply (init_lenmodel_fills replen).
Qed.

(** [lzma_create] makes a decoder that is ready for a buffer. *)
Lemma lzma_create_fresh len z :
  sizeof_private <= len -> zlen (probs z) = NMODELS ->
  lzma_create len z = Some (Some (z <| srcbuf := 0 |> <| error := 0 |> <| z_state := STATE_INITIAL |> <| pos_state := 0 |>
    <| rep := [0; 0; 0; 0] |> <| probs := repeat 1024 (Z.to_nat NMODELS) |>)).
Proof.
  intros Hl Hz. unfold lzma_create. rewrite (proj2 (Z.ltb_ge _ _)) by done.
  destruct (yields_inv _ _ (init_models_fills _ Hz)) as (q & Hq & Hlq & Ht).
  unfold init_private, mbind, lz_bind, zset, zof, zopt. cbn [probs upd]. rewrite Hq. cbn.
  rewrite take_ge in Ht by lia. by rewrite <- Ht.
Qed.

(** A compressed line: [abcabcabcabc hello hello hello] and so on. *)
Definition sample : list Z :=
  [48; 152; 136; 167; 234; 75; 177; 154; 95; 205; 182; 196; 153; 115; 14; 100; 161; 116; 70; 252; 68; 123; 201;
   179; 117; 255; 255; 251; 88; 160; 0].
Definition sample_text : list Z :=
  [97; 98; 99; 97; 98; 99; 97; 98; 99; 97; 98; 99; 32; 104; 101; 108; 108; 111; 32; 104; 101; 108; 108; 111; 32;
   104; 101; 108; 108; 111; 44; 32; 97; 98; 99; 97; 98; 99; 97; 98; 99; 97; 98; 99; 33; 32] ++ repeat 120 33.

(** A new decoder with buffers: the input at 4096, with 60 bytes after it, the
    output at 8192. *)
Definition demo_lzma : lzma :=
  Lzma 4096 4096 (4096 + 31) (4096 + 91) 8192 8192 (8192 + 100) (8192 + 400) (sample ++ repeat 0 60) (repeat 0 400)
    STATE_INITIAL 0 0 0 0 [0; 0; 0; 0] (repeat 1024 (Z.to_nat NMODELS)).

Lemma demo_placed : placed demo_lzma.
Proof. split; try by vm_compute. apply (bool_decide_unpack _). by vm_compute. Qed.

(** The sample is decompressed. *)
Lemma demo_inflates :
  match lzma_inflate 100 demo_lzma with
  | Some (r, z) => r = LZMA_STREAM_END /\ take 79 (dst z) = sample_text /\ dstptr z = dstbuf z + 79
  | None => False
  end.
Proof. by vm_compute. Qed.

Lemma lzma_inflate_terminates_witness :
  exists r z', lzma_inflate 500 demo_lzma = Some (r, z') /\ placed z' /\ 1 <= r <= 7 /\
    4096 <= srcptr z' <= 4096 + 91 /\ 8192 <= dstptr z' <= 8192 + 400.
Proof.
  destruct (lzma_inflate_terminates 500 demo_lzma demo_placed) as (r & z' & H1 & H2 & H3 & _ & _ & _ & H4 & H5 & _).
  - by repeat split.
  - by split.
  - done.
  - exists r, z'. exact (conj H1 (conj H2 (conj H3 (conj H4 H5)))).
Defined.

Lemma lzma_inflate_margins_witness :
  exists r z', lzma_inflate 500 demo_lzma = Some (r, z') /\ r <> LZMA_INPUT_OVER /\ r <> LZMA_OUTPUT_OVER /\
    srcptr z' <= 4096 + 31 + 52 /\ dstptr z' <= 8192 + 100 + 273.
Proof.
  assert (given demo_lzma) as Hg by by repeat split. assert (no_overrun demo_lzma) as Hn by by split.
  destruct (lzma_inflate_margins 500 demo_lzma demo_placed Hg Hn ltac:(by vm_compute) ltac:(by vm_compute)
    ltac:(by vm_compute) ltac:(by vm_compute) ltac:(by vm_compute)) as (r & z' & H1 & H2 & H3 & _ & H4 & H5).
  exists r, z'. exact (conj H1 (conj H2 (conj H3 (conj H4 H5)))).
Defined.
