(* ===== verification/LzmaSpec.v ===== *)
(** * The LZMA format

    What a stream means: a list of packets, each of which extends the output.
    A packet is a sequence of bits, most of them with a model of their
    probability; the range coder turns the sequence of all the bits into a
    number inside of an interval, of which the stream has the digits.  The
    definitions are those of the format, with the parameters the decoder is
    made for (3 bits of context for literals, 2 bits of the position), and do
    not refer to the code except for the places of the models. *)
From S2P Require Import Prelude Arr.

(** ** The range coder *)

(** A bit with the model at a place, or without a model. *)
Inductive decision := Bit (bm b : Z) | Direct (b : Z).

(** The interval from [low] on with the width [range], in units of the digit
    [k]. *)
Record coder := Coder { models : list Z; low : Z; width : Z; shifts : nat }.

Definition shift (e : coder) : coder :=
  if width e <? 2 ^ 24 then Coder (models e) (low e * 256) (width e * 256) (S (shifts e)) else e.

Definition code_bit (e : coder) (d : decision) : coder :=
  shift match d with
        | Bit bm b =>
            let p := match zget (models e) bm with Some p => p | None => 0 end in
            let bound := width e / 2048 * p in
            if b =? 0 then Coder (<[Z.to_nat bm := p + (2048 - p) / 32]> (models e)) (low e) bound (shifts e)
            else Coder (<[Z.to_nat bm := p - p / 32]> (models e)) (low e + bound) (width e - bound) (shifts e)
        | Direct b =>
            let half := width e / 2 in
            Coder (models e) (low e + b * half) half (shifts e)
        end.

Definition coder0 : coder := Coder (repeat 1024 (Z.to_nat 7319)) 0 0xFFFFFFFF 0.

(** The digits of the low end of the interval. *)
Definition code_bits (ds : list decision) : list Z :=
  let e := foldl code_bit coder0 ds in digits 256 (4 + shifts e) (low e).

(** ** Numbers as bits *)

(** Bit [k] of [v]. *)
Definition bit (k : nat) (v : Z) : Z := v / 2 ^ Z.of_nat k mod 2.

(** The [k] low bits of [sym], the highest first, with the models of a tree; [m]
    is the node. *)
Fixpoint tree_bits (base : Z) (k : nat) (m sym : Z) : list decision :=
  match k with
  | O => []
  | S k => let b := bit k sym in Bit (base + m) b :: tree_bits base k (2 * m + b) sym
  end.

(** The lowest first. *)
Fixpoint rtree_bits (base : Z) (k : nat) (m sym : Z) : list decision :=
  match k with
  | O => []
  | S k => let b := sym mod 2 in Bit (base + m) b :: rtree_bits base k (2 * m + b) (sym / 2)
  end.

(** A literal where a byte [mbyte] was expected. *)
Fixpoint match_bits (base : Z) (k : nat) (m mbyte c : Z) : list decision :=
  match k with
  | O => []
  | S k =>
      let mb := bit k mbyte in
      let b := bit k c in
      Bit (base + (0x100 + 0x100 * mb + m)) b ::
        if mb =? b then match_bits base k (2 * m + b) mbyte c else tree_bits base k (2 * m + b) c
  end.

Fixpoint direct_bits (k : nat) (v : Z) : list decision :=
  match k with
  | O => []
  | S k => Direct (bit k v) :: direct_bits k v
  end.

(** A length, with the models at [lm], at position [p]. *)
Definition length_bits (lm p len : Z) : list decision :=
  let l := len - 2 in
  if l <? 8 then Bit lm 0 :: tree_bits (lm + 2 + p * 8) 3 1 l
  else if l <? 16 then Bit lm 1 :: Bit (lm + 1) 0 :: tree_bits (lm + 34 + p * 8) 3 1 (l - 8)
  else Bit lm 1 :: Bit (lm + 1) 1 :: tree_bits (lm + 66) 8 1 (l - 16).

(** The slot of a distance: its two highest bits and their place. *)
Definition slot_of (d : Z) : Z :=
  if d <? 4 then d else 2 * Z.log2 d + d / 2 ^ (Z.log2 d - 1) mod 2.

Definition dist_bits (len d : Z) : list decision :=
  let slot := slot_of d in
  let n := slot / 2 - 1 in
  let base := (2 + slot mod 2) * 2 ^ n in
  tree_bits (6288 + Z.min (len - 2) 3 * 64) 6 1 slot ++
  if slot <? 4 then []
  else if slot <? 14 then rtree_bits (6544 + (base - slot)) (Z.to_nat n) 1 (d - base)
  else direct_bits (Z.to_nat (n - 4)) ((d - base) / 16) ++ rtree_bits 6659 4 1 ((d - base) mod 16).

(** ** Packets *)

Inductive packet :=
  | Lit (c : Z)
  | Match (len d : Z)
  | ShortRep
  | LongRep (n : nat) (len : Z).

(** The state (0 to 11), the last four distances and the output. *)
Record lstate := Lstate { l_state : Z; l_reps : list Z; l_out : list Z }.

Definition lstate0 : lstate := Lstate 0 [0; 0; 0; 0] [].

Definition dist (st : lstate) (n : nat) : Z := default 0 (l_reps st !! n).

(** The byte [d + 1] places back. *)
Definition back (out : list Z) (d : Z) : Z := default 0 (zget out (zlen out - 1 - d)).

(** [n] times the byte [d + 1] places back. *)
Fixpoint copy (n : nat) (d : Z) (out : list Z) : list Z :=
  match n with O => out | S n => copy n d (out ++ [back out d]) end.

(** The distance [n] moves to the front. *)
Definition to_front (n : nat) (l : list Z) : list Z := default 0 (l !! n) :: take n l ++ drop (S n) l.

Definition step (st : lstate) (p : packet) : lstate :=
  let s := l_state st in
  let out := l_out st in
  match p with
  | Lit c => Lstate (if s <? 4 then 0 else if s <? 10 then s - 3 else s - 6) (l_reps st) (out ++ [c])
  | Match len d => Lstate (if s <? 7 then 7 else 10) (d :: take 3 (l_reps st)) (copy (Z.to_nat len) d out)
  | ShortRep => Lstate (if s <? 7 then 9 else 11) (l_reps st) (copy 1 (dist st 0) out)
  | LongRep n len =>
      Lstate (if s <? 7 then 8 else 11) (to_front n (l_reps st)) (copy (Z.to_nat len) (dist st n) out)
  end.

(** The packet may follow: what it refers to is there. *)
Definition packet_ok (st : lstate) (p : packet) : bool :=
  let n := zlen (l_out st) in
  match p with
  | Lit c => (0 <=? c) && (c <? 256)
  | Match len d => (2 <=? len) && (len <=? 273) && (0 <=? d) && (d <? n) && (d <? 0xFFFFFFFF)
  | ShortRep => dist st 0 <? n
  | LongRep k len => (k <? 4)%nat && (2 <=? len) && (len <=? 273) && (dist st k <? n)
  end.

Definition packet_bits (st : lstate) (p : packet) : list decision :=
  let s := l_state st in
  let pos := zlen (l_out st) mod 4 in
  match p with
  | Lit c =>
      let base := 144 + back (l_out st) 0 / 32 * 0x300 in
      Bit (s * 4 + pos) 0 ::
        (if s <? 7 then tree_bits base 8 1 c else match_bits base 8 1 (back (l_out st) (dist st 0)) c)
  | Match len d => Bit (s * 4 + pos) 1 :: Bit (48 + s) 0 :: length_bits 6675 pos len ++ dist_bits len d
  | ShortRep => [Bit (s * 4 + pos) 1; Bit (48 + s) 1; Bit (60 + s) 0; Bit (96 + s * 4 + pos) 0]
  | LongRep n len =>
      Bit (s * 4 + pos) 1 :: Bit (48 + s) 1 ::
        (match n with
         | 0%nat => [Bit (60 + s) 0; Bit (96 + s * 4 + pos) 1]
         | 1%nat => [Bit (60 + s) 1; Bit (72 + s) 0]
         | 2%nat => [Bit (60 + s) 1; Bit (72 + s) 1; Bit (84 + s) 0]
         | _ => [Bit (60 + s) 1; Bit (72 + s) 1; Bit (84 + s) 1]
         end) ++ length_bits 6997 pos len
  end.

(** The mark of the end: a match with a distance that cannot be. *)
Definition end_bits (st : lstate) : list decision :=
  let s := l_state st in
  let pos := zlen (l_out st) mod 4 in
  Bit (s * 4 + pos) 1 :: Bit (48 + s) 0 :: length_bits 6675 pos 2 ++ dist_bits 2 0xFFFFFFFF.

Fixpoint packets_ok (st : lstate) (ps : list packet) : bool :=
  match ps with [] => true | p :: ps => packet_ok st p && packets_ok (step st p) ps end.

Fixpoint packets_bits (st : lstate) (ps : list packet) : list decision :=
  match ps with [] => end_bits st | p :: ps => packet_bits st p ++ packets_bits (step st p) ps end.

(** The stream and the text of a list of packets. *)
Definition encode (ps : list packet) : list Z := code_bits (packets_bits lstate0 ps).
Definition text (ps : list packet) : list Z := l_out (foldl step lstate0 ps).
