(* ===== verification/LzmaCode.v ===== *)
(** * lib/lzma.c: what the decoder decodes

    The decoder turns the stream of any list of packets of [LzmaSpec] into its
    text.  [promises z ds]: the input that is left makes the decisions [ds].
    [decodes m ds x]: [m] uses up the decisions [ds] and returns [x]; the rules
    for it hide the range coder from the proofs about packets. *)
From S2P Require Import Prelude Arr Sys State Lzma LzmaSpec LzmaSafe.

(** ** Intervals *)

(** The number [V] of [4 + n] digits lies in the interval. *)
Definition fits (V : Z) (n : nat) (e : coder) : Prop :=
  (shifts e <= n)%nat /\ let u := 256 ^ Z.of_nat (n - shifts e) in LzmaSpec.low e * u <= V < (LzmaSpec.low e + width e) * u.

Definition fair (p : Z) : Prop := 31 <= p <= 2017.

Record good (e : coder) : Prop := {
  gd_models : zlen (models e) = NMODELS;
  gd_fair : Forall fair (models e);
  gd_width : 2 ^ 24 <= width e < 2 ^ 32;
  gd_low : 0 <= LzmaSpec.low e }.

Definition valid (d : decision) : Prop :=
  match d with Bit bm b => 0 <= bm < NMODELS /\ (b = 0 \/ b = 1) | Direct b => b = 0 \/ b = 1 end.

(** The interval before the shift. *)
Definition narrow (e : coder) (d : decision) : coder :=
  match d with
  | Bit bm b =>
      let p := match zget (models e) bm with Some p => p | None => 0 end in
      let bound := width e / 2048 * p in
      if b =? 0 then Coder (<[Z.to_nat bm := p + (2048 - p) / 32]> (models e)) (LzmaSpec.low e) bound (shifts e)
      else Coder (<[Z.to_nat bm := p - p / 32]> (models e)) (LzmaSpec.low e + bound) (width e - bound) (shifts e)
  | Direct b =>
      let half := width e / 2 in Coder (models e) (LzmaSpec.low e + b * half) half (shifts e)
  end.

Lemma code_bit_narrow e d : code_bit e d = shift (narrow e d).
Proof. by destruct d. Qed.

Lemma good_get e bm : good e -> 0 <= bm < NMODELS -> exists p, zget (models e) bm = Some p /\ fair p.
Proof.
  intros [Hl Hf _ _] Hb. rewrite <- Hl in Hb. destruct (zget_lt_is_Some _ _ Hb) as [p Hp]. exists p. split; [done|].
  unfold zget in Hp. case_decide; [|done]. by apply (Forall_lookup_1 _ _ _ _ Hf Hp).
Qed.

Lemma bound_range w p : 2 ^ 24 <= w < 2 ^ 32 -> fair p -> 2 ^ 16 <= w / 2048 * p /\ w / 2048 * p + 2 ^ 16 <= w.
Proof.
  intros Hw Hp. unfold fair in Hp. pose proof (Z.div_mod w 2048 ltac:(lia)). pose proof (Z.mod_pos_bound w 2048 ltac:(lia)).
  set (q := w / 2048) in *. assert (2 ^ 13 <= q) by lia. nia.
Qed.

(** What the narrowed interval is like. *)
Record narrowed (e e' : coder) : Prop := {
  nr_shifts : shifts e' = shifts e;
  nr_models : zlen (models e') = NMODELS;
  nr_fair : Forall fair (models e');
  nr_width : 2 ^ 16 <= width e' < 2 ^ 32;
  nr_low : LzmaSpec.low e <= LzmaSpec.low e';
  nr_high : LzmaSpec.low e' + width e' <= LzmaSpec.low e + width e }.

Lemma narrow_narrowed e d : good e -> valid d -> narrowed e (narrow e d).
Proof.
  intros Hg Hd. destruct d as [bm b|b]; cbn [valid narrow] in *.
  - destruct Hd as [Hbm Hb]. destruct (good_get _ _ Hg Hbm) as (p & -> & Hp). destruct Hg as [H1 H2 H3 H4].
    pose proof (bound_range _ _ H3 Hp) as [B1 B2]. set (bound := _ * p) in *. unfold fair in *.
    destruct Hb as [-> | ->]; cbn [Z.eqb]; split; cbn [models LzmaSpec.low width shifts]; try lia; rewrite ?length_insert; try done;
      apply Forall_insert; try done; unfold fair; Z.div_mod_to_equations; lia.
  - destruct Hg as [H1 H2 H3 H4]. split; cbn [models LzmaSpec.low width shifts]; try done; destruct Hd as [-> | ->]; Z.div_mod_to_equations; lia.
Qed.

Lemma shift_good e e' : good e -> narrowed e e' -> good (shift e').
Proof.
  intros [H1 H2 H3 H4] [N1 N2 N3 N4 N5 N6]. unfold shift. destruct (Z.ltb_spec (width e') (2 ^ 24)); split; cbn; try done; lia.
Qed.

Lemma shift_fits V n e : fits V n (shift e) -> fits V n e.
Proof.
  unfold shift. destruct (Z.ltb_spec (width e) (2 ^ 24)); [|done]. unfold fits. cbn [shifts LzmaSpec.low width].
  intros [Hn Hf]. split; [lia|]. replace (n - shifts e)%nat with (S (n - S (shifts e))) by lia.
  rewrite Nat2Z.inj_succ, Z.pow_succ_r by lia. cbv zeta in *. lia.
Qed.

Lemma narrowed_fits V n e e' : narrowed e e' -> fits V n e' -> fits V n e.
Proof.
  intros [N1 N2 N3 N4 N5 N6]. unfold fits. rewrite N1. intros [Hn Hf]. split; [done|]. cbv zeta in *.
  set (u := 256 ^ _) in *. assert (0 < u) by (apply Z.pow_pos_nonneg; lia). nia.
Qed.

Lemma code_bit_good e d : good e -> valid d -> good (code_bit e d).
Proof. intros Hg Hd. rewrite code_bit_narrow. eapply shift_good; [done|by apply narrow_narrowed]. Qed.

Lemma code_bit_fits V n e d : good e -> valid d -> fits V n (code_bit e d) -> fits V n e.
Proof.
  intros Hg Hd. rewrite code_bit_narrow. intros Hf%shift_fits. eapply narrowed_fits; [by apply narrow_narrowed|done].
Qed.

Lemma code_bits_fits V n ds e :
  good e -> Forall valid ds -> fits V n (foldl code_bit e ds) -> fits V n e.
Proof.
  intros Hg Hds. revert e Hg. induction Hds as [|d ds Hd Hds IH]; intros e Hg Hf; [done|]. cbn [foldl] in Hf.
  eapply code_bit_fits; [done..|]. apply IH; [by apply code_bit_good|done].
Qed.

(** ** The decoder inside of the interval *)

(** What decoding bits leaves alone. *)
Definition rest (z : lzma) :=
  (srcbuf z, srchwm z, srcend z, src z, dstbuf z, dstptr z, dsthwm z, dstend z, dst z,
   z_state z, pos_state z, error z, rep z).

(** Or of a shifted number. *)
Lemma push_byte c x : 0 <= c < 2 ^ 24 -> 0 <= x < 256 -> Z.lor (u32 (Z.shiftl c 8)) x = c * 256 + x.
Proof.
  intros Hc Hx. rewrite Z.shiftl_mul_pow2 by lia. change (2 ^ 8) with 256. rewrite u32_small by lia.
  apply (lor_disjoint _ _ 8); [lia| |done]. change (2 ^ 8) with 256. apply Z.mod_mul. lia.
Qed.

Section stream.
(** The stream has the digits of [V] from the address [b] on. *)
Context (V : Z) (n : nat) (b : Z).

Definition unit_at (k : nat) : Z := 256 ^ Z.of_nat (n - k).

Record tracks (z : lzma) (e : coder) : Prop := {
  tr_models : probs z = models e;
  tr_width : range z = width e;
  tr_code : code z = V / unit_at (shifts e) - LzmaSpec.low e;
  tr_ptr : srcptr z = b + 4 + Z.of_nat (shifts e);
  tr_end : b + 4 + Z.of_nat n <= srcend z;
  tr_src : forall i, (i < 4 + n)%nat ->
    zget (src z) (b - srcbuf z + Z.of_nat i) = Some (V / 256 ^ Z.of_nat (4 + n - 1 - i) mod 256) }.

Lemma unit_pos k : 0 < unit_at k.
Proof. apply Z.pow_pos_nonneg; lia. Qed.

Lemma fits_code e : fits V n e -> 0 <= V / unit_at (shifts e) - LzmaSpec.low e < width e.
Proof.
  intros [_ Hf]. cbv zeta in Hf. fold (unit_at (shifts e)) in Hf. pose proof (unit_pos (shifts e)).
  assert (LzmaSpec.low e <= V / unit_at (shifts e)) by (apply Z.div_le_lower_bound; lia).
  assert (V / unit_at (shifts e) < LzmaSpec.low e + width e) by (apply Z.div_lt_upper_bound; lia). lia.
Qed.

Lemma lzma_run_bind {A B} (m : lz A) (f : A -> lz B) z x z' : m z = Some (x, z') -> (m ≫= f) z = f x z'.
Proof. unfold mbind, lz_bind. by intros ->. Qed.

Lemma normalize_tracks z e :
  tracks z e -> fits V n (shift e) -> 2 ^ 16 <= width e < 2 ^ 32 ->
  exists z', normalize z = Some (tt, z') /\ tracks z' (shift e) /\ rest z' = rest z.
Proof.
  intros [T1 T2 T3 T4 T5 T6] Hf Hw. pose proof (fits_code _ (shift_fits _ _ _ Hf)) as Hc.
  unfold normalize. rewrite (lzma_run_bind _ _ _ (range z) z) by done. rewrite T2. change 0x00FFFFFF with (2 ^ 24 - 1).
  destruct (Z.ltb_spec (2 ^ 24 - 1) (width e)) as [Hlt|Hge].
  { exists z. split; [done|]. unfold shift. rewrite (proj2 (Z.ltb_ge _ _)) by lia. by split; [split|]. }
  unfold shift in *. rewrite (proj2 (Z.ltb_lt _ _)) in * by lia. destruct Hf as [Hn _]. cbn [shifts] in Hn.
  pose proof (T6 (4 + shifts e)%nat ltac:(lia)) as Hx. set (x := V / _ mod 256) in Hx.
  assert (0 <= x < 256) as Hxr by by apply Z.mod_pos_bound.
  eexists. split; [|split].
  - unfold mbind, lz_bind, zset, zof, get_byte, zopt. cbn [srcend srcptr srcbuf src upd id].
    unfold mbind, lz_bind, zset, zof, zopt. cbn. rewrite T4. rewrite (proj2 (Z.leb_gt _ _)) by lia.
    cbn. replace (b + 4 + Z.of_nat (shifts e) - srcbuf z) with (b - srcbuf z + Z.of_nat (4 + shifts e)) by lia.
    rewrite Hx. cbn. reflexivity.
  - split; cbn; try done; try lia.
    + rewrite T2, Z.shiftl_mul_pow2, u32_small by (change (2 ^ 8) with 256; lia). done.
    + rewrite T3, push_byte by lia. unfold x. unfold unit_at.
      replace (n - shifts e)%nat with (S (n - S (shifts e))) by lia.
      replace (4 + n - 1 - (4 + shifts e))%nat with (n - S (shifts e))%nat by lia.
      rewrite Nat2Z.inj_succ, Z.pow_succ_r by lia. set (u := 256 ^ _). assert (0 < u) by (apply Z.pow_pos_nonneg; lia).
      rewrite (Z.mul_comm 256), <- Z.div_div by lia. pose proof (Z.div_mod (V / u) 256 ltac:(lia)). lia.
  - done.
Qed.

Lemma dec_bit_eq bm z p :
  zget (probs z) bm = Some p ->
  let bound := u32 (Z.shiftr (range z) 11 * p) in
  dec_bit bm z =
  if code z <? bound then
    (normalize;; mret 0) (z <| range := bound |>
      <| probs := <[Z.to_nat bm := u32 (p + Z.shiftr (u32 (Z.shiftl 1 11 - p)) 5)]> (probs z) |>)
  else
    (normalize;; mret 1) (z <| range := u32 (range z - bound) |> <| code := u32 (code z - bound) |>
      <| probs := <[Z.to_nat bm := u32 (p - Z.shiftr p 5)]> (probs z) |>).
Proof.
  intros Hp bound. pose proof (zget_Some_lt _ _ _ Hp) as Hlt. unfold dec_bit, mbind, lz_bind, zof, zopt, zset.
  rewrite Hp, Some_bind. cbv beta iota. cbn [id]. fold bound.
  destruct (code z <? bound); rewrite zput_Some, Some_bind by done; reflexivity.
Qed.

Lemma dec_bit_tracks z e bm c :
  tracks z e -> good e -> valid (Bit bm c) -> fits V n (code_bit e (Bit bm c)) ->
  exists z', dec_bit bm z = Some (c, z') /\ tracks z' (code_bit e (Bit bm c)) /\ rest z' = rest z.
Proof.
  intros Ht Hg Hd Hf. pose proof Ht as [T1 T2 T3 T4 T5 T6]. pose proof (narrow_narrowed _ _ Hg Hd) as Hnr.
  rewrite code_bit_narrow in *. pose proof (shift_fits _ _ _ Hf) as Hf'. pose proof (narrowed_fits _ _ _ _ Hnr Hf') as Hfe.
  destruct Hd as [Hbm Hb]. destruct (good_get _ _ Hg Hbm) as (p & Hp & Hfp). pose proof Hg as [G1 G2 G3 G4].
  pose proof (fits_code _ Hfe) as Hce. pose proof (fits_code _ Hf') as Hc'. rewrite (nr_shifts _ _ Hnr) in Hc'.
  cbn [narrow] in *. rewrite Hp in *. pose proof (bound_range _ _ G3 Hfp) as [B1 B2]. set (bound := _ * p) in *.
  assert (u32 (Z.shiftr (range z) 11 * p) = bound) as Hbd.
  { rewrite T2, Z.shiftr_div_pow2 by lia. change (2 ^ 11) with 2048. apply u32_small. lia. }
  assert (Z.shiftr p 5 = p / 32) as H5 by (rewrite Z.shiftr_div_pow2 by lia; done).
  unfold fair in Hfp. assert (Z.shiftr (u32 (Z.shiftl 1 11 - p)) 5 = (2048 - p) / 32) as H6.
  { change (Z.shiftl 1 11) with 2048. rewrite u32_small, Z.shiftr_div_pow2 by lia. done. }
  rewrite <- T1 in Hp. rewrite (dec_bit_eq _ _ _ Hp), Hbd, H5, H6, T1, T2, T3. cbv zeta.
  assert (u32 (p - p / 32) = p - p / 32) as -> by (apply u32_small; Z.div_mod_to_equations; lia).
  assert (u32 (p + (2048 - p) / 32) = p + (2048 - p) / 32) as -> by (apply u32_small; Z.div_mod_to_equations; lia).
  rewrite (u32_small (width e - bound)) by lia.
  assert (forall x z1 e1, tracks z1 e1 -> fits V n (shift e1) -> 2 ^ 16 <= width e1 < 2 ^ 32 -> rest z1 = rest z ->
    exists z', ((normalize;; mret x) : lz Z) z1 = Some (x, z') /\ tracks z' (shift e1) /\ rest z' = rest z) as Hnorm.
  { intros x z1 e1 Ht1 Hf1 Hw1 Hr1. destruct (normalize_tracks _ _ Ht1 Hf1 Hw1) as (z2 & Hz2 & Ht2 & Hr2).
    exists z2. split; [by erewrite lzma_run_bind by exact Hz2|]. split; [done|congruence]. }
  destruct Hb as [-> | ->]; cbn [Z.eqb] in *; cbn [LzmaSpec.low width] in Hc'.
  - rewrite (proj2 (Z.ltb_lt _ _)) by lia. apply Hnorm; [|done|exact (nr_width _ _ Hnr)|done]. by split.
  - rewrite (proj2 (Z.ltb_ge _ _)) by lia. apply Hnorm; [|done|exact (nr_width _ _ Hnr)|done].
    split; try done; cbn. rewrite u32_small by lia. lia.
Qed.

Lemma dec_direct_tracks z e c k ret :
  tracks z e -> good e -> valid (Direct c) -> fits V n (code_bit e (Direct c)) -> 0 <= ret < 2 ^ 31 ->
  exists z', dec_direct_loop (S k) ret z = dec_direct_loop k (2 * ret + c) z' /\
    tracks z' (code_bit e (Direct c)) /\ rest z' = rest z.
Proof.
  intros Ht Hg Hd Hf Hret. pose proof Ht as [T1 T2 T3 T4 T5 T6]. pose proof (narrow_narrowed _ _ Hg Hd) as Hnr.
  rewrite code_bit_narrow in *. pose proof (shift_fits _ _ _ Hf) as Hf'. pose proof (narrowed_fits _ _ _ _ Hnr Hf') as Hfe.
  pose proof Hg as [G1 G2 G3 G4]. pose proof (fits_code _ Hfe) as Hce. pose proof (fits_code _ Hf') as Hc'.
  cbn [narrow shifts LzmaSpec.low width] in *. set (half := width e / 2) in *.
  assert (2 ^ 23 <= half < 2 ^ 31) by (unfold half; clear -G3; Z.div_mod_to_equations; lia).
  assert (Z.shiftr (range z) 1 = half) as Hh by (rewrite T2, Z.shiftr_div_pow2 by lia; done).
  cbn [dec_direct_loop]. erewrite lzma_run_bind by (unfold zset; reflexivity). cbv zeta. erewrite lzma_run_bind by (unfold zof; reflexivity).
  cbn [id]. set (z1 := z <| range ::= fun r => Z.shiftr r 1 |>).
  assert (range z1 = half) as -> by exact Hh. assert (code z1 = V / unit_at (shifts e) - LzmaSpec.low e) as -> by exact T3.
  assert (exists z2, (if half <=? V / unit_at (shifts e) - LzmaSpec.low e
       then zset (fun z0 => z0 <| code := u32 (code z0 - range z0) |>);; mret (Z.lor (u32 (Z.shiftl ret 1)) 1)
       else mret (u32 (Z.shiftl ret 1))) z1 = Some (2 * ret + c, z2) /\
     tracks z2 (Coder (models e) (LzmaSpec.low e + c * half) half (shifts e)) /\ rest z2 = rest z) as (z2 & Hz2 & Ht2 & Hr2).
  { destruct Hd as [-> | ->].
    - rewrite (proj2 (Z.leb_gt _ _)) by lia. exists z1. split; [|split; [|done]].
      + rewrite <- (push_bit ret 0) by auto. by rewrite Z.lor_0_r.
      + split; try done. cbn. rewrite T3. lia.
    - rewrite (proj2 (Z.leb_le _ _)) by lia. eexists. split; [|split].
      + rewrite (push_bit ret 1) by auto. by erewrite lzma_run_bind by (unfold zset; reflexivity).
      + split; try done. cbn. rewrite T3, Hh, u32_small by lia. lia.
      + done. }
  erewrite lzma_run_bind by exact Hz2.
  destruct (normalize_tracks _ _ Ht2 Hf (nr_width _ _ Hnr)) as (z3 & Hz3 & Ht3 & Hr3).
  exists z3. split; [by erewrite lzma_run_bind by exact Hz3|]. split; [done|congruence].
Qed.

(** ** Decisions *)

(** The interval that all the decisions lead to. *)
Context (fin : coder) (Hfin : fits V n fin).

(** The input that is left makes the decisions [ds]. *)
Definition promises (z : lzma) (ds : list decision) : Prop :=
  exists e, tracks z e /\ good e /\ foldl code_bit e ds = fin /\ Forall valid ds.

(** [m] takes the decisions [ds] and returns [x]. *)
Definition decodes {A} (m : lz A) (ds : list decision) (x : A) : Prop :=
  forall z ds', promises z (ds ++ ds') -> exists z', m z = Some (x, z') /\ promises z' ds' /\ rest z' = rest z.

Lemma decodes_ret {A} (x : A) : decodes (mret x) [] x.
Proof. intros z ds' Hp. by exists z. Qed.

Lemma decodes_bind {A B} (m : lz A) (f : A -> lz B) ds1 ds2 x y :
  decodes m ds1 x -> decodes (f x) ds2 y -> decodes (m ≫= f) (ds1 ++ ds2) y.
Proof.
  intros Hm Hf z ds' Hp. rewrite <- app_assoc in Hp. destruct (Hm _ _ Hp) as (z1 & H1 & Hp1 & R1).
  destruct (Hf _ _ Hp1) as (z2 & H2 & Hp2 & R2). exists z2. split; [by erewrite lzma_run_bind by exact H1|].
  split; [done|congruence].
Qed.

(** A step without decisions. *)
Lemma decodes_bind0 {A B} (m : lz A) (f : A -> lz B) ds x y :
  decodes m [] x -> decodes (f x) ds y -> decodes (m ≫= f) ds y.
Proof. apply (decodes_bind m f []). Qed.

Lemma decodes_bit bm c : decodes (dec_bit bm) [Bit bm c] c.
Proof.
  intros z ds' (e & Ht & Hg & Hf & Hv). cbn [app foldl] in *. inversion_clear Hv as [|?? Hd Hds].
  pose proof Hfin as HfE. rewrite <- Hf in HfE. pose proof (code_bits_fits _ _ _ _ (code_bit_good _ _ Hg Hd) Hds HfE) as Hf1.
  destruct (dec_bit_tracks _ _ _ _ Ht Hg Hd Hf1) as (z' & Hz & Ht' & Hr). exists z'. split; [done|]. split; [|done].
  exists (code_bit e (Bit bm c)). split; [done|]. split; [by apply code_bit_good|done].
Qed.

Lemma decodes_opt {A B} (o : option A) x (f : A -> lz B) ds y :
  o = Some x -> decodes (f x) ds y -> decodes (zopt o ≫= f) ds y.
Proof. intros -> Hf. apply (decodes_bind0 _ _ _ x); [|done]. intros z ds' Hp. by exists z. Qed.

Lemma decodes_elem a i bm c : 0 <= i < a_size a -> bm = a_base a + i -> decodes (dec_elem a i) [Bit bm c] c.
Proof.
  intros Hi ->. unfold dec_elem. eapply decodes_opt; [|apply decodes_bit]. unfold elem. zcases. done.
Qed.

Lemma decodes_check i size : i < size -> decodes (range_check i size) [] 0.
Proof. intros Hi. unfold range_check. rewrite (proj2 (Z.ltb_lt _ _)) by done. apply decodes_ret. Qed.

Lemma decodes_direct k ret v :
  0 <= ret -> ret * 2 ^ Z.of_nat k + 2 ^ Z.of_nat k <= 2 ^ 31 ->
  decodes (dec_direct_loop k ret) (direct_bits k v) (ret * 2 ^ Z.of_nat k + v mod 2 ^ Z.of_nat k).
Proof.
  revert ret. induction k as [|k IH]; intros ret Hr Hk.
  { cbn [dec_direct_loop direct_bits]. change (2 ^ Z.of_nat 0) with 1. rewrite Z.mod_1_r, Z.mul_1_r, Z.add_0_r. apply decodes_ret. }
  cbn [direct_bits]. intros z ds' (e & Ht & Hg & Hf & Hv). cbn [app foldl] in *. inversion_clear Hv as [|?? Hd Hds].
  pose proof Hfin as HfE. rewrite <- Hf in HfE. pose proof (code_bits_fits _ _ _ _ (code_bit_good _ _ Hg Hd) Hds HfE) as Hf1.
  rewrite Nat2Z.inj_succ, Z.pow_succ_r in * by lia. set (u := 2 ^ Z.of_nat k) in *.
  assert (0 < u) by (apply Z.pow_pos_nonneg; lia).
  destruct (dec_direct_tracks z e (bit k v) k ret Ht Hg Hd Hf1 ltac:(nia)) as (z1 & -> & Ht1 & Hr1).
  assert (ret * (2 * u) + v mod (2 * u) = (2 * ret + bit k v) * u + v mod u) as ->.
  { unfold bit. fold u. rewrite (Z.mul_comm 2 u), (Z.rem_mul_r v u 2) by lia. lia. }
  assert (bit k v = 0 \/ bit k v = 1) as Hb.
  { unfold bit. pose proof (Z.mod_pos_bound (v / 2 ^ Z.of_nat k) 2). lia. }
  destruct (IH (2 * ret + bit k v) ltac:(lia) ltac:(nia) z1 ds') as (z2 & H2 & Hp2 & Hr2).
  { exists (code_bit e (Direct (bit k v))). split; [done|]. split; [by apply code_bit_good|done]. }
  exists z2. split; [done|]. split; [done|congruence].
Qed.

(** ** Groups of bits *)

Lemma decodes_last {A B} (m : lz A) (f : A -> lz B) ds x y :
  decodes m ds x -> decodes (f x) [] y -> decodes (m ≫= f) ds y.
Proof. intros Hm Hf. rewrite <- (app_nil_r ds). by eapply decodes_bind. Qed.

Lemma decodes_cons {A B} (m : lz A) (f : A -> lz B) d ds x y :
  decodes m [d] x -> decodes (f x) ds y -> decodes (m ≫= f) (d :: ds) y.
Proof. intros Hm Hf. by apply (decodes_bind m f [d] ds x). Qed.

Lemma bit_01 k v : bit k v = 0 \/ bit k v = 1.
Proof. unfold bit. pose proof (Z.mod_pos_bound (v / 2 ^ Z.of_nat k) 2). lia. Qed.

(** One more bit of a number. *)
Lemma mod_bit k v : v mod 2 ^ Z.of_nat (S k) = bit k v * 2 ^ Z.of_nat k + v mod 2 ^ Z.of_nat k.
Proof.
  rewrite Nat2Z.inj_succ, Z.pow_succ_r by lia. assert (0 < 2 ^ Z.of_nat k) by (apply Z.pow_pos_nonneg; lia).
  unfold bit. rewrite (Z.mul_comm 2), Z.rem_mul_r by lia. lia.
Qed.

Lemma pow2_S k : 2 ^ Z.of_nat (S k) = 2 * 2 ^ Z.of_nat k.
Proof. by rewrite Nat2Z.inj_succ, Z.pow_succ_r by lia. Qed.

Lemma pow2_pos k : 0 < 2 ^ Z.of_nat k.
Proof. apply Z.pow_pos_nonneg; lia. Qed.

Lemma decodes_tree_loop a bms k m sym :
  bms = a_size a -> 1 <= m -> (m + 1) * 2 ^ Z.of_nat k <= 2 * a_size a -> a_size a <= 2 ^ 30 ->
  decodes (dec_tree_loop k a bms m) (tree_bits (a_base a) k m sym) (Some (m * 2 ^ Z.of_nat k + sym mod 2 ^ Z.of_nat k)).
Proof.
  intros ->. revert m. induction k as [|k IH]; intros m Hm Hk Ha; cbn [dec_tree_loop tree_bits].
  { change (2 ^ Z.of_nat 0) with 1. rewrite Z.mod_1_r, Z.mul_1_r, Z.add_0_r. apply decodes_ret. }
  pose proof (pow2_pos k). rewrite pow2_S in Hk. pose proof (bit_01 k sym) as Hb.
  eapply decodes_bind0; [apply decodes_check; nia|]. cbn [negb Z.eqb].
  eapply decodes_cons; [apply decodes_elem; [nia|done]|]. rewrite push_bit by (done || nia).
  rewrite mod_bit, pow2_S.
  replace (m * (2 * 2 ^ Z.of_nat k) + (bit k sym * 2 ^ Z.of_nat k + sym mod 2 ^ Z.of_nat k))
    with ((2 * m + bit k sym) * 2 ^ Z.of_nat k + sym mod 2 ^ Z.of_nat k) by ring.
  apply IH; [lia|nia|done].
Qed.

Lemma decodes_tree a bms k sym :
  bms = a_size a -> (k <= 8)%nat -> 2 ^ Z.of_nat k <= a_size a <= 2 ^ 30 -> 0 <= sym < 2 ^ Z.of_nat k ->
  decodes (dec_tree a bms (Z.of_nat k)) (tree_bits (a_base a) k 1 sym) sym.
Proof.
  intros Hb Hk Ha Hs. unfold dec_tree. rewrite Nat2Z.id. eapply decodes_last; [by apply decodes_tree_loop; lia|].
  cbv beta iota. rewrite Z.shiftl_1_l, Z.mod_small by done.
  assert (2 ^ Z.of_nat k <= 2 ^ 8) by (apply Z.pow_le_mono_r; lia).
  rewrite u32_small by lia. replace (_ - _) with sym by lia. apply decodes_ret.
Qed.

(** The bits in the other order. *)
Fixpoint rev_bits (k : nat) (sym : Z) : Z :=
  match k with O => 0 | S k => sym mod 2 * 2 ^ Z.of_nat k + rev_bits k (sym / 2) end.

Lemma rev_bits_bound k sym : 0 <= rev_bits k sym < 2 ^ Z.of_nat k.
Proof.
  revert sym. induction k as [|k IH]; intros sym; [by simpl|]. cbn [rev_bits]. rewrite pow2_S.
  specialize (IH (sym / 2)). pose proof (Z.mod_pos_bound sym 2). nia.
Qed.

Lemma tree_bits_low base k m s x : tree_bits base k m (x * 2 ^ Z.of_nat k + s) = tree_bits base k m s.
Proof.
  revert m x. induction k as [|k IH]; intros m x; [done|]. cbn [tree_bits].
  replace (x * 2 ^ Z.of_nat (S k) + s) with ((2 * x) * 2 ^ Z.of_nat k + s) by (rewrite pow2_S; ring).
  rewrite IH. assert (bit k (2 * x * 2 ^ Z.of_nat k + s) = bit k s) as ->; [|done].
  unfold bit. pose proof (pow2_pos k). rewrite Z.add_comm, Z.div_add by lia.
  rewrite (Z.mul_comm 2 x). apply Z.mod_add. lia.
Qed.

Lemma rtree_tree base k m sym : rtree_bits base k m sym = tree_bits base k m (rev_bits k sym).
Proof.
  revert m sym. induction k as [|k IH]; intros m sym; [done|]. cbn [rtree_bits tree_bits rev_bits].
  rewrite tree_bits_low, IH. assert (bit k (sym mod 2 * 2 ^ Z.of_nat k + rev_bits k (sym / 2)) = sym mod 2) as ->; [|done].
  unfold bit. pose proof (pow2_pos k). pose proof (rev_bits_bound k (sym / 2)).
  rewrite Z.div_add_l, (Z.div_small (rev_bits _ _)), Z.add_0_r by lia. apply Z.mod_mod. lia.
Qed.

Lemma rtree_rev k sym : (k <= 5)%nat -> 0 <= sym < 2 ^ Z.of_nat k -> rtree_loop k (rev_bits k sym) 0 = sym.
Proof.
  intros Hk Hs. change sym with (0 + sym) in Hs. rewrite Z.add_0_l in Hs.
  do 6 (destruct k as [|k]; [revert sym Hs; match goal with |- forall s, 0 <= s < ?u -> _ => change u with (0 + u) end;
    refine (Prelude.range_check _ 0 _ _); by vm_compute|]). lia.
Qed.

Lemma decodes_rtree a bms k sym :
  bms = a_size a -> (k <= 5)%nat -> 2 ^ Z.of_nat k <= a_size a <= 2 ^ 30 -> 0 <= sym < 2 ^ Z.of_nat k ->
  decodes (dec_rtree a bms (Z.of_nat k)) (rtree_bits (a_base a) k 1 sym) sym.
Proof.
  intros Hb Hk Ha Hs. unfold dec_rtree. rewrite rtree_tree.
  eapply decodes_last; [apply decodes_tree; [done|lia|done|apply rev_bits_bound]|].
  rewrite Nat2Z.id, rtree_rev by done. apply decodes_ret.
Qed.

Lemma decodes_match_rest a fuel k m c :
  a_size a = 0x300 -> (k <= fuel)%nat -> (k <= 8)%nat ->
  2 ^ 8 <= m * 2 ^ Z.of_nat k /\ (m + 1) * 2 ^ Z.of_nat k <= 2 ^ 9 ->
  decodes (dec_match_rest fuel a (a_size a) m) (tree_bits (a_base a) k m c) (Some (m * 2 ^ Z.of_nat k + c mod 2 ^ Z.of_nat k)).
Proof.
  intros Ha. revert fuel m. induction k as [|k IH]; intros fuel m Hf Hk Hm; cbn [tree_bits].
  { change (2 ^ Z.of_nat 0) with 1 in *. rewrite Z.mul_1_r in *. rewrite Z.mod_1_r, Z.add_0_r.
    destruct fuel; cbn [dec_match_rest]; rewrite (proj2 (Z.ltb_ge _ _)) by lia; apply decodes_ret. }
  pose proof (pow2_pos k). rewrite pow2_S in Hm. pose proof (bit_01 k c) as Hb. destruct fuel as [|fuel]; [lia|].
  cbn [dec_match_rest]. rewrite (proj2 (Z.ltb_lt _ _)) by nia.
  eapply decodes_bind0; [apply decodes_check; nia|]. cbn [negb Z.eqb].
  eapply decodes_cons; [apply decodes_elem; [nia|done]|]. rewrite push_bit by (done || nia).
  rewrite mod_bit, pow2_S.
  replace (m * (2 * 2 ^ Z.of_nat k) + (bit k c * 2 ^ Z.of_nat k + c mod 2 ^ Z.of_nat k))
    with ((2 * m + bit k c) * 2 ^ Z.of_nat k + c mod 2 ^ Z.of_nat k) by ring.
  apply IH; [lia|lia|nia].
Qed.

Lemma shiftr_bit k v : Z.land (Z.shiftr v (Z.of_nat k)) 1 = bit k v.
Proof.
  change 1 with (Z.ones 1). rewrite Z.land_ones, Z.shiftr_div_pow2 by lia. done.
Qed.

Lemma decodes_match_loop a k m mbyte c :
  a_size a = 0x300 -> (k <= 8)%nat -> 2 ^ 8 <= m * 2 ^ Z.of_nat k /\ (m + 1) * 2 ^ Z.of_nat k <= 2 ^ 9 ->
  decodes (dec_match_loop k a (a_size a) mbyte m) (match_bits (a_base a) k m mbyte c)
    (Some (m * 2 ^ Z.of_nat k + c mod 2 ^ Z.of_nat k)).
Proof.
  intros Ha. revert m. induction k as [|k IH]; intros m Hk Hm; cbn [match_bits dec_match_loop].
  { change (2 ^ Z.of_nat 0) with 1. rewrite Z.mod_1_r, Z.mul_1_r, Z.add_0_r. apply decodes_ret. }
  pose proof (pow2_pos k). rewrite pow2_S in Hm. pose proof (bit_01 k c) as Hb. pose proof (bit_01 k mbyte) as Hmb.
  cbv zeta. rewrite shiftr_bit.
  assert (u32 (m + u32 (Z.shiftl (bit k mbyte) 8) + 0x100) = 0x100 + 0x100 * bit k mbyte + m) as ->.
  { rewrite Z.shiftl_mul_pow2 by lia. change (2 ^ 8) with 256 in *. rewrite !u32_small by (rewrite ?u32_small; nia). lia. }
  eapply decodes_bind0; [apply decodes_check; nia|]. cbn [negb Z.eqb].
  eapply decodes_cons; [apply decodes_elem; [nia|done]|]. rewrite push_bit by (done || nia).
  rewrite mod_bit, pow2_S.
  replace (m * (2 * 2 ^ Z.of_nat k) + (bit k c * 2 ^ Z.of_nat k + c mod 2 ^ Z.of_nat k))
    with ((2 * m + bit k c) * 2 ^ Z.of_nat k + c mod 2 ^ Z.of_nat k) by ring.
  destruct (bit k mbyte =? bit k c); [apply IH; [lia|nia]|apply decodes_match_rest; [done|lia|lia|nia]].
Qed.

Lemma decodes_match a mbyte c :
  a_size a = 0x300 -> 0 <= c < 256 -> decodes (dec_match a (a_size a) mbyte) (match_bits (a_base a) 8 1 mbyte c) c.
Proof.
  intros Ha Hc. unfold dec_match. eapply decodes_last; [by apply decodes_match_loop|]. cbv beta iota.
  change (2 ^ Z.of_nat 8) with 256. rewrite Z.mod_small by done. change 0xFF with (Z.ones 8).
  rewrite Z.land_ones by lia. change (2 ^ 8) with 256. rewrite Z.add_comm, Z.mod_add, Z.mod_small by lia. apply decodes_ret.
Qed.

Lemma decodes_length lm p len :
  0 <= p < 4 -> 2 <= len <= 273 -> decodes (dec_length lm p) (length_bits lm p len) (len - 2).
Proof.
  intros Hp Hl. assert (forall base, row base PSTATES 8 p = Some (Arr (base + p * 8) 8)) as Hrow.
  { intros base. unfold row, PSTATES. zcases. done. }
  unfold dec_length, length_bits, choice1, choice2, LzmaSpec.low, Lzma.low, mid. cbv zeta. rewrite !Hrow.
  destruct (Z.ltb_spec (len - 2) 8); [|destruct (Z.ltb_spec (len - 2) 16)].
  - eapply decodes_cons; [apply decodes_bit|]. cbn [Z.eqb]. eapply decodes_opt; [done|].
    apply (decodes_tree (Arr _ 8) _ 3); [done|lia|done|]. change (2 ^ Z.of_nat 3) with 8. lia.
  - eapply decodes_cons; [apply decodes_bit|]. cbn [Z.eqb]. eapply decodes_cons; [apply decodes_bit|]. cbn [Z.eqb].
    eapply decodes_opt; [done|]. eapply decodes_last.
    + apply (decodes_tree (Arr _ 8) _ 3 (len - 2 - 8)); [done|lia|done|]. change (2 ^ Z.of_nat 3) with 8. lia.
    + change (Z.shiftl 1 3) with 8. rewrite u32_small by lia. replace (8 + _) with (len - 2) by lia. apply decodes_ret.
  - eapply decodes_cons; [apply decodes_bit|]. cbn [Z.eqb]. eapply decodes_cons; [apply decodes_bit|]. cbn [Z.eqb].
    eapply decodes_last.
    + apply (decodes_tree (high lm) _ 8 (len - 2 - 16)); [done|lia|done|]. change (2 ^ Z.of_nat 8) with 256. lia.
    + change (Z.shiftl 1 3) with 8. rewrite u32_small by lia. replace (8 + 8 + _) with (len - 2) by lia. apply decodes_ret.
Qed.

(** ** Distances *)

(** The slot of a distance, and what it leaves. *)
Lemma slot_spec d :
  4 <= d < 2 ^ 32 ->
  let slot := slot_of d in
  let k := slot / 2 - 1 in
  let base := (2 + slot mod 2) * 2 ^ k in
  4 <= slot < 64 /\ 1 <= k <= 30 /\ base <= d < base + 2 ^ k /\ base + 2 ^ k <= 2 ^ 32.
Proof.
  intros Hd. cbv zeta. unfold slot_of. rewrite (proj2 (Z.ltb_ge _ _)) by lia.
  pose proof (Z.log2_spec d ltac:(lia)) as [L1 L2]. set (L := Z.log2 d) in *.
  assert (2 <= L) as HL by (apply Z.log2_le_pow2; lia). assert (L < 32) as HL2 by (apply Z.log2_lt_pow2; lia).
  set (c := d / 2 ^ (L - 1) mod 2). assert (c = 0 \/ c = 1) as Hc.
  { unfold c. pose proof (Z.mod_pos_bound (d / 2 ^ (L - 1)) 2). lia. }
  assert ((2 * L + c) / 2 = L) as -> by (Z.div_mod_to_equations; lia).
  assert ((2 * L + c) mod 2 = c) as -> by (Z.div_mod_to_equations; lia).
  assert (0 < 2 ^ (L - 1)) as Hu by (apply Z.pow_pos_nonneg; lia).
  assert (2 ^ L = 2 * 2 ^ (L - 1)) as E1 by (rewrite <- Z.pow_succ_r by lia; f_equal; lia).
  assert (2 ^ Z.succ L = 4 * 2 ^ (L - 1)) as E2 by (rewrite Z.pow_succ_r by lia; lia).
  assert (2 ^ (L - 1) <= 2 ^ 30) by (apply Z.pow_le_mono_r; lia).
  assert (d / 2 ^ (L - 1) = 2 + c) as Hq.
  { assert (2 <= d / 2 ^ (L - 1)) by (apply Z.div_le_lower_bound; lia).
    assert (d / 2 ^ (L - 1) < 4) by (apply Z.div_lt_upper_bound; lia). unfold c. Z.div_mod_to_equations. lia. }
  pose proof (Z.div_mod d (2 ^ (L - 1)) ltac:(lia)) as Hdm. rewrite Hq in Hdm.
  pose proof (Z.mod_pos_bound d (2 ^ (L - 1)) Hu). split_and!; lia.
Qed.

(** The state as the decoder knows it from the slot. *)
Lemma slot_code slot :
  4 <= slot < 64 ->
  Z.shiftr slot 1 - 1 = slot / 2 - 1 /\
  u32 (s32 (Z.shiftl (2 + Z.land slot 1) (Z.shiftr slot 1 - 1))) = (2 + slot mod 2) * 2 ^ (slot / 2 - 1).
Proof.
  revert slot. change 64 with (4 + 60). refine (Prelude.range_check _ 4 60 _). by vm_compute.
Qed.

(** The models of the middle slots. *)
Lemma slot_middle slot :
  4 <= slot < 14 ->
  let base := (2 + slot mod 2) * 2 ^ (slot / 2 - 1) in
  1 <= slot / 2 - 1 <= 5 /\ 0 <= base - slot < 115 /\ 2 ^ (slot / 2 - 1) <= 115 - (base - slot) /\ base + 2 ^ (slot / 2 - 1) < 2 ^ 32.
Proof.
  cbv zeta. revert slot. change 14 with (4 + 10). refine (Prelude.range_check _ 4 10 _). by vm_compute.
Qed.

Lemma lor_parts base k dbits r :
  4 <= k -> base mod 2 ^ k = 0 -> 0 <= dbits < 2 ^ (k - 4) -> 0 <= r < 16 ->
  Z.lor (Z.lor base (dbits * 16)) r = base + dbits * 16 + r.
Proof.
  intros Hk Hb Hd Hr. assert (2 ^ k = 2 ^ (k - 4) * 16) as E.
  { change 16 with (2 ^ 4). rewrite <- Z.pow_add_r by lia. f_equal. lia. }
  rewrite (lor_disjoint base (dbits * 16) k) by lia. apply (lor_disjoint _ r 4); [lia| |done].
  change (2 ^ 4) with 16. assert (base mod 16 = 0) as H0.
  { rewrite E in Hb. apply Z.mod_divide in Hb as [q ->]; [|lia]. rewrite Z.mul_assoc. apply Z.mod_mul. lia. }
  rewrite Z.mod_add by lia. done.
Qed.

(** The decisions after the slot. *)
Definition tail_bits (d : Z) : list decision :=
  let slot := slot_of d in
  let n := slot / 2 - 1 in
  let base := (2 + slot mod 2) * 2 ^ n in
  if slot <? 4 then []
  else if slot <? 14 then rtree_bits (6544 + (base - slot)) (Z.to_nat n) 1 (d - base)
  else direct_bits (Z.to_nat (n - 4)) ((d - base) / 16) ++ rtree_bits 6659 4 1 ((d - base) mod 16).

(** What [dec_dist] does with the distance. *)
Definition dist_result (len rep : Z) : lz (Z + Z) :=
  if rep =? 0xFFFFFFFF then
    if negb (len =? 2) then s ← state_error LZMA_RANGE_CHECK; mret (inr s)
    else s ← state_error LZMA_STREAM_END; mret (inr s)
  else mret (inl rep).

Lemma slot_of_small d : 0 <= d < 4 -> slot_of d = d.
Proof. intros. unfold slot_of. by rewrite (proj2 (Z.ltb_lt _ _)) by lia. Qed.

Lemma dec_dist_run len d z ds' :
  0 <= d < 2 ^ 32 -> promises z (tail_bits d ++ ds') ->
  exists z', dec_dist len (slot_of d) z = dist_result len d z' /\ promises z' ds' /\ rest z' = rest z.
Proof.
  intros Hd. destruct (decide (d < 4)) as [Hlt|Hge].
  { unfold tail_bits, dec_dist, DIST_MODEL_START. rewrite slot_of_small by lia. cbv zeta.
    rewrite (proj2 (Z.ltb_lt _ _)) by lia. intros Hp. exists z. split; [|done]. rewrite u32_small by lia.
    unfold dist_result. by rewrite (proj2 (Z.eqb_neq _ _)) by lia. }
  destruct (slot_spec d ltac:(lia)) as (S1 & S2 & S3 & S4). destruct (slot_code _ S1) as [C1 C2].
  pose proof (slot_middle (slot_of d)) as Hmid. cbv zeta in *. unfold tail_bits, dec_dist, DIST_MODEL_START, DIST_MODEL_END. cbv zeta.
  rewrite C2, C1. set (slot := slot_of d) in *. set (k := slot / 2 - 1) in *. set (base := _ * 2 ^ k) in *.
  rewrite !(proj2 (Z.ltb_ge slot 4)) by lia. destruct (Z.ltb_spec slot 14) as [H14|H14].
  - destruct (Hmid ltac:(lia)) as (M1 & M2 & M3 & M4). unfold dispec. cbn [a_base a_size].
    rewrite (u32_small (base - slot)) by lia. rewrite (u32_small (115 - _)) by lia. intros Hp.
    unfold Lzma.range_check. rewrite (proj2 (Z.ltb_lt _ _)) by lia. erewrite lzma_run_bind by reflexivity. cbn [negb Z.eqb].
    pose proof (decodes_rtree (Arr (6544 + (base - slot)) (115 - (base - slot))) (115 - (base - slot)) (Z.to_nat k) (d - base)) as D.
    rewrite Z2Nat.id in D by lia. destruct (D eq_refl ltac:(lia) ltac:(cbn; lia) ltac:(lia) z ds' Hp) as (z' & Hz & Hp' & Hr).
    exists z'. split; [|done]. erewrite lzma_run_bind by exact Hz.
    replace (base + (d - base)) with d by lia. rewrite u32_small by lia. unfold dist_result.
    by rewrite (proj2 (Z.eqb_neq _ _)) by lia.
  - assert (6 <= k) as Hk by (unfold k; Z.div_mod_to_equations; lia). intros Hp. rewrite <- app_assoc in Hp. unfold ALIGN_BITS, dec_direct.
    assert (2 ^ k = 2 ^ (k - 4) * 16) as E by (change 16 with (2 ^ 4); rewrite <- Z.pow_add_r by lia; f_equal; lia).
    assert (2 ^ (k - 4) <= 2 ^ 26) as Hk4 by (apply Z.pow_le_mono_r; lia).
    assert (base mod 2 ^ k = 0) as Hbm by (apply Z.mod_mul; lia). clearbody base k.
    assert (0 <= (d - base) / 16 < 2 ^ (k - 4)) as Hq by (split; [apply Z.div_pos|apply Z.div_lt_upper_bound]; lia).
    pose proof (decodes_direct (Z.to_nat (k - 4)) 0 ((d - base) / 16)) as D. rewrite Z2Nat.id, Z.mod_small in D by lia.
    destruct (D ltac:(lia) ltac:(lia) z _ Hp) as (z1 & H1 & Hp1 & R1). clear D.
    pose proof (Z.mod_pos_bound (d - base) 16 ltac:(lia)) as Hr16.
    destruct (decodes_rtree align 16 4 ((d - base) mod 16) eq_refl ltac:(lia) ltac:(cbn; lia) Hr16 z1 _ Hp1) as (z2 & H2 & Hp2 & R2).
    exists z2. split; [|split; [done|congruence]]. erewrite lzma_run_bind by exact H1. erewrite lzma_run_bind by exact H2.
    rewrite Z.mul_0_l, Z.add_0_l, Z.shiftl_mul_pow2 by lia. change (2 ^ 4) with 16.
    rewrite (s32_small ((d - base) / 16)) by lia. rewrite s32_small by lia. rewrite !u32_small by lia.
    rewrite (lor_parts _ k) by lia. pose proof (Z.div_mod (d - base) 16 ltac:(lia)).
    replace (base + (d - base) / 16 * 16 + (d - base) mod 16) with d by lia. reflexivity.
Qed.

(** ** The output *)

(** The output and the distances of the decoder are those of the state. *)
Record holds (st : lstate) (z : lzma) : Prop := {
  h_pos : pos_state z = zlen (l_out st) mod 4;
  h_error : error z = 0;
  h_rep : rep z = s32 <$> l_reps st;
  h_ptr : dstptr z = dstbuf z + zlen (l_out st);
  h_out : take (length (l_out st)) (dst z) = l_out st;
  h_room : dstend z <= dstbuf z + zlen (dst z) }.

Record lst_ok (st : lstate) : Prop := {
  ls_state : 0 <= l_state st < 12;
  ls_reps : length (l_reps st) = 4%nat;
  ls_range : Forall (fun r => 0 <= r < 2 ^ 32) (l_reps st);
  ls_out : bytes (l_out st);
  ls_match : 7 <= l_state st -> dist st 0 < zlen (l_out st) }.

(** What stays from packet to packet. *)
Definition setting (z : lzma) :=
  (srcbuf z, srchwm z, srcend z, src z, dstbuf z, dsthwm z, dstend z, length (dst z), z_state z).

Lemma holds_rest st z z' : rest z' = rest z -> holds st z -> holds st z'.
Proof. unfold rest. intros [= R1 R2 R3 R4 R5 R6 R7 R8 R9 R10 R11 R12 R13] [H1 H2 H3 H4 H5 H6]. split; congruence. Qed.

Lemma setting_rest z z' : rest z' = rest z -> setting z' = setting z.
Proof. unfold rest, setting. intros [= R1 R2 R3 R4 R5 R6 R7 R8 R9 R10 R11 R12 R13]. congruence. Qed.

Lemma promises_same z z' ds :
  probs z' = probs z -> range z' = range z -> code z' = code z -> srcptr z' = srcptr z -> srcend z' = srcend z ->
  src z' = src z -> srcbuf z' = srcbuf z -> promises z ds -> promises z' ds.
Proof.
  intros H1 H2 H3 H4 H5 H6 H7 (e & [T1 T2 T3 T4 T5 T6] & Hg). exists e. split; [|done].
  split; rewrite ?H1, ?H2, ?H3, ?H4, ?H5, ?H6, ?H7; done.
Qed.

Lemma peek_back_run st z d :
  holds st z -> 0 <= d -> d < zlen (l_out st) \/ d = 0 -> peek_back d z = Some (back (l_out st) d, z).
Proof.
  intros [H1 H2 H3 H4 H5 H6] Hd Hlt. unfold peek_back. erewrite lzma_run_bind by reflexivity. cbn [id]. cbv zeta.
  rewrite H4. destruct (Z.ltb_spec (dstbuf z + zlen (l_out st) - d - 1) (dstbuf z)) as [Hb|Hb].
  - assert (d = 0 /\ l_out st = []) as [-> ->] by (destruct (l_out st); [split; [lia|done]|cbn [length] in *; lia]). done.
  - rewrite (proj2 (Z.leb_gt _ _)) by lia. cbn [orb]. unfold zopt, back.
    replace (dstbuf z + zlen (l_out st) - d - 1 - dstbuf z) with (zlen (l_out st) - 1 - d) by lia.
    destruct (zget_lt_is_Some (l_out st) (zlen (l_out st) - 1 - d)) as [c Hc]; [lia|]. rewrite Hc.
    rewrite <- (zget_take (dst z) (length (l_out st))) by lia. by rewrite H5, Hc.
Qed.

Lemma put_byte_run st z c ds :
  holds st z -> promises z ds -> dstptr z < dstend z ->
  exists z', put_byte c z = Some (tt, z') /\ holds (Lstate (l_state st) (l_reps st) (l_out st ++ [c])) z' /\
    promises z' ds /\ setting z' = setting z.
Proof.
  intros [H1 H2 H3 H4 H5 H6] Hp Hlt. unfold put_byte. erewrite lzma_run_bind by reflexivity. cbn [id]. cbv zeta.
  rewrite (proj2 (Z.leb_gt _ _)) by lia. erewrite lzma_run_bind by reflexivity.
  assert (length (l_out st) < length (dst z))%nat as Hl by lia.
  erewrite lzma_run_bind by (unfold zopt; rewrite zput_Some by (cbn; lia); reflexivity). unfold zset.
  eexists. split; [reflexivity|]. replace (Z.to_nat (dstptr z - dstbuf z)) with (length (l_out st)) by lia. split; [|split].
  - split; cbn [upd pos_state error rep dstptr dstbuf dst dstend l_out l_reps]; rewrite ?length_app, ?length_insert; cbn [length]; try done; try lia.
    + rewrite H1. change 3 with (Z.ones 2). rewrite Z.land_ones by lia. change (2 ^ 2) with 4. Z.div_mod_to_equations. lia.
    + rewrite Nat.add_1_r, (take_S_r _ _ c) by (apply list_lookup_insert_eq; lia). by rewrite take_insert_ge, H5.
  - by eapply promises_same; [..|exact Hp].
  - unfold setting. cbn. by rewrite length_insert.
Qed.

(** The decoder is in the state [st], with the decisions [ds] to come; [z0] is
    where the packet started. *)
Definition ready (st : lstate) (z0 z : lzma) (ds : list decision) : Prop :=
  holds st z /\ promises z ds /\ setting z = setting z0.

Lemma lwp_decodes {A} (m : lz A) ds1 x st z0 z ds2 (Q : A -> lzma -> Prop) :
  decodes m ds1 x -> ready st z0 z (ds1 ++ ds2) -> (forall z', ready st z0 z' ds2 -> Q x z') -> lwp m z Q.
Proof.
  intros Hm (Hh & Hp & Hs) HQ. destruct (Hm _ _ Hp) as (z' & Hz & Hp' & Hr). unfold lwp. rewrite Hz. apply HQ.
  split; [by eapply holds_rest|]. split; [done|]. by rewrite (setting_rest _ _ Hr).
Qed.

Lemma ready_room st z0 z ds x :
  ready st z0 z ds -> dstbuf z0 + x <= dstend z0 -> dstbuf z + x <= dstend z.
Proof. intros (_ & _ & Hs) Hx. unfold setting in Hs. injection Hs as _ _ _ _ Hb _ He _ _. lia. Qed.

Lemma lwp_peek st z0 z ds d (Q : Z -> lzma -> Prop) :
  ready st z0 z ds -> 0 <= d -> d < zlen (l_out st) \/ d = 0 -> Q (back (l_out st) d) z -> lwp (peek_back d) z Q.
Proof. intros (Hh & _ & _) Hd Hl HQ. unfold lwp. by rewrite (peek_back_run _ _ _ Hh Hd Hl). Qed.

Lemma lwp_put st z0 z ds c (Q : unit -> lzma -> Prop) :
  ready st z0 z ds -> dstbuf z0 + (zlen (l_out st) + 1) <= dstend z0 ->
  (forall z', ready (Lstate (l_state st) (l_reps st) (l_out st ++ [c])) z0 z' ds -> Q tt z') -> lwp (put_byte c) z Q.
Proof.
  intros Hr Hx HQ. pose proof (ready_room _ _ _ _ _ Hr Hx) as Hroom. destruct Hr as (Hh & Hp & Hs).
  destruct (put_byte_run st z c ds Hh Hp) as (z' & Hz & Hh' & Hp' & Hs').
  { rewrite (h_ptr _ _ Hh). lia. }
  unfold lwp. rewrite Hz. apply HQ. split; [done|]. split; [done|congruence].
Qed.

Lemma length_copy k d out : zlen (copy k d out) = zlen out + Z.of_nat k.
Proof. revert out. induction k as [|k IH]; intros out; cbn [copy]; [lia|]. rewrite IH, length_app. cbn [length]. lia. Qed.

Lemma lwp_repeat k st z0 z ds d (Q : unit -> lzma -> Prop) :
  ready st z0 z ds -> 0 <= d < zlen (l_out st) -> dstbuf z0 + (zlen (l_out st) + Z.of_nat k) <= dstend z0 ->
  (forall z', ready (Lstate (l_state st) (l_reps st) (copy k d (l_out st))) z0 z' ds -> Q tt z') ->
  lwp (repeat_loop k d) z Q.
Proof.
  revert st z. induction k as [|k IH]; intros st z Hr Hd Hx HQ; cbn [repeat_loop copy] in *.
  { apply lwp_ret, HQ. by destruct st. }
  apply lwp_bind. eapply lwp_peek; [exact Hr|lia|lia|]. apply lwp_bind. eapply lwp_put; [exact Hr|lia|]. intros z' Hr'.
  eapply IH; [exact Hr'|cbn [l_out]; rewrite length_app; lia|cbn [l_out]; rewrite length_app; cbn [length]; lia|]. done.
Qed.

Lemma u32_s32 x : 0 <= x < 2 ^ 32 -> u32 (s32 x) = x.
Proof. intros Hx. unfold uwrap, swrap. change (2 ^ (32 - 1)) with 2147483648. change (2 ^ 32) with 4294967296 in *. Z.div_mod_to_equations. lia. Qed.

Lemma lwp_set_rep st z0 z ds (i : nat) x (Q : unit -> lzma -> Prop) :
  ready st z0 z ds -> (i < length (l_reps st))%nat ->
  (forall z', ready (Lstate (l_state st) (<[i := x]> (l_reps st)) (l_out st)) z0 z' ds -> Q tt z') ->
  lwp (set_rep (Z.of_nat i) (s32 x)) z Q.
Proof.
  intros (Hh & Hp & Hs) Hi HQ. unfold set_rep. lz_steps. rewrite (h_rep _ _ Hh).
  apply lwp_opt; [apply zput_is_Some; rewrite length_fmap; lia|]. intros r Hr. apply lwp_set, HQ.
  rewrite zput_Some in Hr by (rewrite length_fmap; lia). injection Hr as <-. rewrite Nat2Z.id.
  split; [|split].
  - destruct Hh as [H1 H2 H3 H4 H5 H6]. split; try done. cbn. by rewrite list_fmap_insert.
  - by eapply promises_same; [..|exact Hp].
  - exact Hs.
Qed.

Lemma rep_get st z0 z ds (i : nat) :
  ready st z0 z ds -> (i < length (l_reps st))%nat -> zget (rep z) (Z.of_nat i) = Some (s32 (dist st i)).
Proof.
  intros (Hh & _ & _) Hi. rewrite (h_rep _ _ Hh), zget_nat, list_lookup_fmap. unfold dist.
  destruct (lookup_lt_is_Some_2 _ _ Hi) as [x ->]. done.
Qed.

Lemma lwp_copy_rep st z0 z ds (i j : nat) (Q : unit -> lzma -> Prop) :
  ready st z0 z ds -> (i < length (l_reps st))%nat -> (j < length (l_reps st))%nat ->
  (forall z', ready (Lstate (l_state st) (<[i := dist st j]> (l_reps st)) (l_out st)) z0 z' ds -> Q tt z') ->
  lwp (copy_rep (Z.of_nat i) (Z.of_nat j)) z Q.
Proof.
  intros Hr Hi Hj HQ. unfold copy_rep. lz_steps. rewrite (rep_get _ _ _ _ _ Hr Hj).
  apply lwp_opt; [by eexists|]. intros ? [= <-]. by eapply lwp_set_rep.
Qed.

(** ** Packets *)

Lemma back_byte out d : bytes out -> 0 <= back out d < 256.
Proof.
  intros Hb. unfold back, zget. case_decide; [|done]. destruct (out !! _) as [c|] eqn:Hc; [|done].
  by apply (Forall_lookup_1 _ _ _ _ Hb Hc).
Qed.

Lemma dist_range st i : lst_ok st -> (i < 4)%nat -> 0 <= dist st i < 2 ^ 32.
Proof.
  intros Hok Hi. unfold dist. rewrite <- (ls_reps _ Hok) in Hi. destruct (lookup_lt_is_Some_2 _ _ Hi) as [x Hx]. rewrite Hx.
  by apply (Forall_lookup_1 _ _ _ _ (ls_range _ Hok) Hx).
Qed.

Lemma lwp_check i size z (Q : Z -> lzma -> Prop) : i < size -> Q 0 z -> lwp (Lzma.range_check i size) z Q.
Proof. intros Hi HQ. unfold Lzma.range_check. rewrite (proj2 (Z.ltb_lt _ _)) by done. by apply lwp_ret. Qed.

(** The literal itself. *)
Definition lit_bits (st : lstate) (c : Z) : list decision :=
  let base := 144 + back (l_out st) 0 / 32 * 0x300 in
  if l_state st <? 7 then tree_bits base 8 1 c else match_bits base 8 1 (back (l_out st) (dist st 0)) c.

Lemma inflate_literal_run st z0 z c ds :
  lst_ok st -> 0 <= c < 256 -> ready st z0 z (lit_bits st c ++ ds) -> dstbuf z0 + (zlen (l_out st) + 1) <= dstend z0 ->
  lwp (inflate_literal (l_state st)) z (fun x z' => x = l_state (step st (Lit c)) /\ ready (step st (Lit c)) z0 z' ds).
Proof.
  intros Hok Hc Hr Hroom. pose proof (back_byte (l_out st) 0 (ls_out _ Hok)) as Hb. unfold inflate_literal, lit_bits in *. cbv zeta in *.
  lz_step. eapply lwp_peek; [exact Hr|lia|by right|]. set (y := back (l_out st) 0) in *.
  assert (Z.shiftr y 5 = y / 32) as -> by (rewrite Z.shiftr_div_pow2 by lia; done).
  assert (0 <= y / 32 < 8) by (Z.div_mod_to_equations; lia). rewrite u32_small by lia.
  lz_step. apply lwp_check; [unfold LCONTEXT; lia|]. cbn [negb Z.eqb]. lz_step. apply lwp_opt; [by apply row_Some|]. intros a Ha.
  assert (a = Arr (144 + y / 32 * 0x300) 0x300) as ->.
  { unfold literal, row, LCONTEXT in Ha. rewrite (proj2 (Z.leb_le _ _)), (proj2 (Z.ltb_lt _ _)) in Ha by lia. by injection Ha as <-. }
  lz_step. unfold is_lit, STATE_SHORTREP_LIT.
  assert (forall z', ready st z0 z' ds -> lwp (put_byte (u8 c);; mret (if l_state st <=? STATE_SHORTREP_LIT_LIT then STATE_LIT_LIT
          else if l_state st <=? STATE_LIT_SHORTREP then l_state st - 3 else l_state st - 6)) z'
     (fun x z'0 => x = l_state (step st (Lit c)) /\ ready (step st (Lit c)) z0 z'0 ds)) as Hput.
  { intros z' Hr'. lz_step. rewrite uwrap_small by lia. eapply lwp_put; [exact Hr'|done|]. intros z2 Hr2. lz_step.
    split; [|by destruct Hr2 as ([]&?&?)]. cbn [step l_state]. unfold STATE_SHORTREP_LIT_LIT, STATE_LIT_SHORTREP, STATE_LIT_LIT. zcases; lia. }
  destruct (Z.leb_spec (l_state st) 6) as [Hs|Hs].
  - rewrite (proj2 (Z.ltb_lt _ _)) in Hr by lia.
    eapply lwp_decodes; [apply (decodes_tree (Arr _ 0x300) _ 8 c); [done|lia|done|change (2 ^ Z.of_nat 8) with 256; lia]|exact Hr|exact Hput].
  - rewrite (proj2 (Z.ltb_ge _ _)) in Hr by lia. lz_steps.
    pose proof (rep_get _ _ _ _ 0 Hr ltac:(rewrite (ls_reps _ Hok); lia)) as Hg. change (Z.of_nat 0) with 0 in Hg.
    rewrite Hg. apply lwp_opt; [by eexists|]. intros ? [= <-].
    pose proof (dist_range _ 0 Hok ltac:(lia)) as Hd. rewrite u32_s32 by done. lz_step.
    eapply lwp_peek; [exact Hr|lia|left; apply (ls_match _ Hok); lia|].
    eapply lwp_decodes; [by apply (decodes_match (Arr _ 0x300) _ c)|exact Hr|exact Hput].
Qed.

(** The distances are four. *)
Lemma reps_four st : lst_ok st -> exists a c d e, l_reps st = [a; c; d; e].
Proof.
  intros Hok. pose proof (ls_reps _ Hok) as Hl. destruct (l_reps st) as [|a [|c [|d [|e [|]]]]]; try done. by exists a, c, d, e.
Qed.

Lemma dist_bits_tail len d :
  dist_bits len d = tree_bits (6288 + Z.min (len - 2) 3 * 64) 6 1 (slot_of d) ++ tail_bits d.
Proof. reflexivity. Qed.

(** The head of a match: up to the result of the distance. *)
Lemma inflate_match_head st z0 z len d ds (Q : Z -> lzma -> Prop) :
  lst_ok st -> 2 <= len <= 273 -> 0 <= d < 2 ^ 32 ->
  ready st z0 z (length_bits 6675 (zlen (l_out st) mod 4) len ++ dist_bits len d ++ ds) ->
  (forall z', ready (Lstate (l_state st) (dist st 0 :: take 3 (l_reps st)) (l_out st)) z0 z' ds ->
     lwp (r ← dist_result len d;
          match r with
          | inr s => mret s
          | inl rep =>
              set_rep 0 (s32 rep);;
              repeat_from_dict (if is_lit (l_state st) then STATE_LIT_MATCH else STATE_NONLIT_MATCH) rep len
          end) z' Q) ->
  lwp (inflate_match (l_state st) (zlen (l_out st) mod 4)) z Q.
Proof.
  intros Hok Hlen Hd Hr HQ. destruct (reps_four _ Hok) as (r0 & r1 & r2 & r3 & Hreps). unfold inflate_match.
  pose proof (Z.mod_pos_bound (zlen (l_out st)) 4 ltac:(lia)) as Hpos.
  lz_step. eapply (lwp_copy_rep _ _ _ _ 3 2); [exact Hr|rewrite Hreps; cbn; lia..|]. clear Hr. intros z1 Hr.
  lz_step. eapply (lwp_copy_rep _ _ _ _ 2 1); [exact Hr|cbn; rewrite Hreps; cbn; lia..|]. clear Hr. intros z2 Hr.
  lz_step. eapply (lwp_copy_rep _ _ _ _ 1 0); [exact Hr|cbn; rewrite Hreps; cbn; lia..|]. clear Hr. intros z3 Hr.
  match type of Hr with ready (Lstate ?s ?l ?o) _ _ _ =>
    change s with (l_state st) in Hr; change o with (l_out st) in Hr;
    replace l with [r0; r0; r1; r2] in Hr by (unfold dist; cbn [l_reps]; rewrite Hreps; reflexivity) end.
  replace (dist st 0 :: take 3 (l_reps st)) with [r0; r0; r1; r2] in HQ by (unfold dist; rewrite Hreps; reflexivity).
  lz_step. eapply lwp_decodes; [by apply decodes_length|exact Hr|]. clear Hr. intros z4 Hr. cbv zeta.
  replace (2 + (len - 2)) with len by lia. rewrite (u32_small len), (u32_small (len - 2)) by lia.
  lz_step. unfold DSTATES. assert ((if len - 2 <? 4 - 1 then len - 2 else 4 - 1) = Z.min (len - 2) 3) as -> by (zcases; lia).
  apply lwp_opt; [apply row_Some; unfold DSTATES; lia|]. intros a Ha.
  assert (a = Arr (6288 + Z.min (len - 2) 3 * 64) 64) as ->.
  { unfold dislot, row, DSTATES, DISLOTS in Ha. rewrite (proj2 (Z.leb_le _ _)), (proj2 (Z.ltb_lt _ _)) in Ha by lia. by injection Ha as <-. }
  assert (0 <= slot_of d < 64) as Hslot.
  { destruct (decide (d < 4)); [rewrite slot_of_small; lia|]. pose proof (slot_spec d ltac:(lia)). cbv zeta in *. lia. }
  rewrite dist_bits_tail, <- app_assoc in Hr.
  lz_step. eapply lwp_decodes; [apply (decodes_tree (Arr _ 64) _ 6 (slot_of d)); [done|lia|done|exact Hslot]|exact Hr|].
  clear Hr. intros z5 (Hh & Hp & Hs). rewrite s32_small by lia. destruct (dec_dist_run len d z5 ds Hd Hp) as (z6 & Hz6 & Hp6 & Hr6).
  assert (ready (Lstate (l_state st) [r0; r0; r1; r2] (l_out st)) z0 z6 ds) as Hready.
  { split; [by eapply holds_rest|]. split; [done|]. by rewrite (setting_rest _ _ Hr6). }
  specialize (HQ _ Hready). revert HQ. unfold lwp at 1 2. unfold mbind, lz_bind. rewrite Hz6. done.
Qed.

(** Repeating at the end of a packet. *)
Lemma lwp_repeat_from st st' z0 z ds s d len :
  ready st z0 z ds -> 0 <= d < zlen (l_out st) -> 0 <= len -> dstbuf z0 + (zlen (l_out st) + len) <= dstend z0 ->
  st' = Lstate s (l_reps st) (copy (Z.to_nat len) d (l_out st)) ->
  lwp (repeat_from_dict s d len) z (fun x z' => x = l_state st' /\ ready st' z0 z' ds).
Proof.
  intros Hr Hd Hl Hroom ->. unfold repeat_from_dict. lz_step. eapply lwp_repeat; [exact Hr|done|lia|]. intros z' Hr'. lz_step.
  split; [done|]. by destruct Hr' as ([]&?&?).
Qed.

Lemma ready_state st s z0 z ds : ready st z0 z ds -> ready (Lstate s (l_reps st) (l_out st)) z0 z ds.
Proof. intros ([]&?&?). by split. Qed.

Lemma inflate_match_run st z0 z len d ds :
  lst_ok st -> packet_ok st (Match len d) = true ->
  ready st z0 z (length_bits 6675 (zlen (l_out st) mod 4) len ++ dist_bits len d ++ ds) ->
  dstbuf z0 + (zlen (l_out st) + len) <= dstend z0 ->
  lwp (inflate_match (l_state st) (zlen (l_out st) mod 4)) z
    (fun x z' => x = l_state (step st (Match len d)) /\ ready (step st (Match len d)) z0 z' ds).
Proof.
  intros Hok Hp Hr Hroom. cbn [packet_ok] in Hp. cbv zeta in Hp. zbool. eapply (inflate_match_head st z0 z len d); [done|lia|lia|exact Hr|].
  clear Hr z. intros z Hr. unfold dist_result. rewrite (proj2 (Z.eqb_neq _ _)) by lia. lz_step. lz_step. lz_step.
  eapply (lwp_set_rep _ _ _ _ 0); [exact Hr|cbn; lia|]. clear Hr z. intros z Hr.
  eapply lwp_repeat_from; [exact Hr|done|lia|done|]. cbn [step l_reps l_out insert list_insert].
  unfold is_lit, STATE_SHORTREP_LIT, STATE_LIT_MATCH, STATE_NONLIT_MATCH. f_equal. zcases.
Qed.

Lemma inflate_end_run st z0 z ds :
  lst_ok st -> ready st z0 z (length_bits 6675 (zlen (l_out st) mod 4) 2 ++ dist_bits 2 0xFFFFFFFF ++ ds) ->
  lwp (inflate_match (l_state st) (zlen (l_out st) mod 4)) z
    (fun x z' => x = STATE_INVALID /\ exists st1 z1, l_out st1 = l_out st /\ ready st1 z0 z1 ds /\ z' = z1 <| error := LZMA_STREAM_END |>).
Proof.
  intros Hok Hr. eapply (inflate_match_head st z0 z 2 0xFFFFFFFF); [done|lia|lia|exact Hr|]. clear Hr z. intros z Hr.
  unfold dist_result, state_error, set_error. cbn [Z.eqb Pos.eqb negb]. lz_steps. apply lwp_set. lz_steps.
  split; [done|]. eexists _, z. split; [|split; [exact Hr|reflexivity]]. reflexivity.
Qed.

Lemma inflate_shortrep_run st z0 z ds :
  lst_ok st -> dist st 0 < zlen (l_out st) -> ready st z0 z ds -> dstbuf z0 + (zlen (l_out st) + 1) <= dstend z0 ->
  lwp (inflate_shortrep (l_state st)) z (fun x z' => x = l_state (step st ShortRep) /\ ready (step st ShortRep) z0 z' ds).
Proof.
  intros Hok Hd Hr Hroom. unfold inflate_shortrep. lz_steps. pose proof (dist_range _ 0 Hok ltac:(lia)).
  pose proof (rep_get _ _ _ _ 0 Hr ltac:(rewrite (ls_reps _ Hok); lia)) as Hg. change (Z.of_nat 0) with 0 in Hg.
  rewrite Hg. apply lwp_opt; [by eexists|]. intros ? [= <-]. rewrite u32_s32 by done.
  eapply lwp_repeat_from; [exact Hr|lia|lia|done|]. cbn [step]. change (Z.to_nat 1) with 1%nat.
  unfold is_lit, STATE_SHORTREP_LIT, STATE_LIT_SHORTREP, STATE_NONLIT_REP. f_equal. zcases.
Qed.

Lemma lwp_copy_if st z0 z ds (c : bool) (i j : nat) (Q : unit -> lzma -> Prop) :
  ready st z0 z ds -> (i < length (l_reps st))%nat -> (j < length (l_reps st))%nat ->
  (forall z', ready (Lstate (l_state st) (if c then <[i := dist st j]> (l_reps st) else l_reps st) (l_out st)) z0 z' ds -> Q tt z') ->
  lwp (if c then copy_rep (Z.of_nat i) (Z.of_nat j) else mret tt) z Q.
Proof.
  intros Hr Hi Hj HQ. destruct c; [by eapply lwp_copy_rep|]. apply lwp_ret, HQ. by destruct st.
Qed.

Lemma inflate_longrep_run st z0 z (k : nat) len ds :
  lst_ok st -> packet_ok st (LongRep k len) = true ->
  ready st z0 z (length_bits 6997 (zlen (l_out st) mod 4) len ++ ds) ->
  dstbuf z0 + (zlen (l_out st) + len) <= dstend z0 ->
  lwp (inflate_longrep (l_state st) (zlen (l_out st) mod 4) (Z.of_nat k)) z
    (fun x z' => x = l_state (step st (LongRep k len)) /\ ready (step st (LongRep k len)) z0 z' ds).
Proof.
  intros Hok Hp Hr Hroom. cbn [packet_ok] in Hp. cbv zeta in Hp. rewrite !andb_true_iff, Nat.ltb_lt in Hp. destruct Hp as [[[Hk Hl1] Hl2] Hd]. zbool.
  pose proof (dist_range _ k Hok Hk) as Hdr. destruct (reps_four _ Hok) as (r0 & r1 & r2 & r3 & Hreps).
  pose proof (Z.mod_pos_bound (zlen (l_out st)) 4 ltac:(lia)) as Hpos.
  unfold inflate_longrep. lz_steps. rewrite (rep_get _ _ _ _ k Hr) by (rewrite (ls_reps _ Hok); lia).
  apply lwp_opt; [by eexists|]. intros ? [= <-].
  assert (forall z', ready (Lstate (l_state st) (to_front k (l_reps st)) (l_out st)) z0 z'
       (length_bits 6997 (zlen (l_out st) mod 4) len ++ ds) ->
     lwp (l ← dec_length replen (zlen (l_out st) mod 4);
          repeat_from_dict (if is_lit (l_state st) then STATE_LIT_LONGREP else STATE_NONLIT_REP) (u32 (s32 (dist st k))) (u32 (2 + l)))
       z' (fun x z' => x = l_state (step st (LongRep k len)) /\ ready (step st (LongRep k len)) z0 z' ds)) as Hend.
  { intros z1 Hr1. lz_step. eapply lwp_decodes; [by apply (decodes_length replen)|exact Hr1|]. intros z2 Hr2.
    replace (2 + (len - 2)) with len by lia. rewrite (u32_small len) by lia. rewrite u32_s32 by done.
    eapply lwp_repeat_from; [exact Hr2|cbn [l_out]; lia|lia|done|]. cbn [step l_reps l_out].
    unfold is_lit, STATE_SHORTREP_LIT, STATE_LIT_LONGREP, STATE_NONLIT_REP. f_equal. zcases. }
  lz_step. eapply (lwp_copy_if _ _ _ _ _ 3 2); [exact Hr|cbn; rewrite ?Hreps; cbn; lia..|]. clear Hr z. intros z Hr.
  lz_step. eapply (lwp_copy_if _ _ _ _ _ 2 1); [exact Hr|cbn; rewrite ?Hreps; destruct (2 <? _); cbn; lia..|]. clear Hr z. intros z Hr.
  lz_step. eapply (lwp_copy_if _ _ _ _ _ 1 0); [exact Hr|cbn; rewrite ?Hreps; destruct (2 <? _), (1 <? _); cbn; lia..|]. clear Hr z. intros z Hr.
  lz_step. eapply (lwp_set_rep _ _ _ _ 0); [exact Hr|cbn; rewrite ?Hreps; destruct (2 <? _), (1 <? _), (0 <? _); cbn; lia|].
  clear Hr z. intros z Hr. apply Hend. revert Hr. cbn [l_state l_out l_reps]. unfold dist, to_front. cbn [l_reps]. rewrite Hreps.
  do 4 (destruct k as [|k]; [by intros Hr|]). lia.
Qed.

Lemma lwp_elem st z0 z a i bm c ds (Q : Z -> lzma -> Prop) :
  ready st z0 z (Bit bm c :: ds) -> 0 <= i < a_size a -> bm = a_base a + i ->
  (forall z', ready st z0 z' ds -> Q c z') -> lwp (dec_elem a i) z Q.
Proof. intros Hr Hi Hbm HQ. eapply (lwp_decodes _ [Bit bm c]); [by apply decodes_elem|exact Hr|exact HQ]. Qed.

Lemma row4 base s : 0 <= s < 12 -> row base STATES PSTATES s = Some (Arr (base + s * 4) 4).
Proof. intros Hs. unfold row, STATES, PSTATES. by rewrite (proj2 (Z.leb_le _ _)), (proj2 (Z.ltb_lt _ _)) by lia. Qed.

Ltac lz_elem Hr := (eapply lwp_elem; [exact Hr|unfold bit2, bit3, bit4, bit5, STATES; cbn; lia..|]; clear Hr; intros ? Hr; cbn [Z.eqb]).

Lemma inflate_packet_run st z0 z p ds :
  lst_ok st -> packet_ok st p = true -> ready st z0 z (packet_bits st p ++ ds) ->
  dstbuf z0 + zlen (l_out (step st p)) <= dstend z0 ->
  lwp (inflate_packet (l_state st) (zlen (l_out st) mod 4)) z
    (fun x z' => x = l_state (step st p) /\ ready (step st p) z0 z' ds).
Proof.
  intros Hok Hp Hr Hroom. pose proof (ls_state _ Hok) as Hs. pose proof (Z.mod_pos_bound (zlen (l_out st)) 4 ltac:(lia)) as Hpos.
  unfold inflate_packet, bit1, shrt. rewrite !row4 by done. lz_step. apply lwp_opt; [by eexists|]. intros ? [= <-].
  destruct p as [c|len d| |k len]; cbn [packet_bits] in Hr; cbv zeta in Hr; cbn [app] in Hr; lz_step.
  - lz_elem Hr. cbn [step l_out] in Hroom. rewrite length_app in Hroom. cbn [packet_ok] in Hp. cbv zeta in Hp. zbool.
    eapply inflate_literal_run; [done|done|exact Hr|cbn [length] in Hroom; lia].
  - lz_elem Hr. lz_step. lz_elem Hr. cbn [step l_out] in Hroom. rewrite length_copy in Hroom.
    pose proof Hp as Hp'. cbn [packet_ok] in Hp'. cbv zeta in Hp'. zbool. rewrite <- app_assoc in Hr.
    eapply inflate_match_run; [done|done|exact Hr|lia].
  - lz_elem Hr. lz_step. lz_elem Hr. lz_step. lz_elem Hr. lz_step. apply lwp_opt; [by eexists|]. intros ? [= <-]. lz_step. lz_elem Hr.
    cbn [step l_out] in Hroom. rewrite length_copy in Hroom. cbn [packet_ok] in Hp. zbool.
    eapply inflate_shortrep_run; [done|done|exact Hr|lia].
  - lz_elem Hr. lz_step. lz_elem Hr. cbn [step l_out] in Hroom. rewrite length_copy in Hroom.
    pose proof Hp as Hp'. cbn [packet_ok] in Hp'. cbv zeta in Hp'. rewrite !andb_true_iff, Nat.ltb_lt in Hp'.
    destruct Hp' as [[[Hk Hl1] Hl2] Hd]. zbool.
    assert (forall z', ready st z0 z' (length_bits 6997 (zlen (l_out st) mod 4) len ++ ds) ->
      lwp (inflate_longrep (l_state st) (zlen (l_out st) mod 4) (Z.of_nat k)) z'
        (fun x z' => x = l_state (step st (LongRep k len)) /\ ready (step st (LongRep k len)) z0 z' ds)) as Hend.
    { intros z3 Hr3. eapply inflate_longrep_run; [done|done|exact Hr3|lia]. }
    lz_step. destruct k as [|[|[|[|k]]]]; [..|lia]; cbn [app] in Hr.
    + lz_elem Hr. lz_step. apply lwp_opt; [by eexists|]. intros ? [= <-]. lz_step. lz_elem Hr. by apply Hend.
    + lz_elem Hr. lz_step. lz_elem Hr. by apply Hend.
    + lz_elem Hr. lz_step. lz_elem Hr. lz_step. lz_elem Hr. by apply Hend.
    + lz_elem Hr. lz_step. lz_elem Hr. lz_step. lz_elem Hr. by apply Hend.
Qed.

Lemma inflate_packet_end st z0 z ds :
  lst_ok st -> ready st z0 z (end_bits st ++ ds) ->
  lwp (inflate_packet (l_state st) (zlen (l_out st) mod 4)) z
    (fun x z' => x = STATE_INVALID /\ exists st1 z1, l_out st1 = l_out st /\ ready st1 z0 z1 ds /\ z' = z1 <| error := LZMA_STREAM_END |>).
Proof.
  intros Hok Hr. pose proof (ls_state _ Hok) as Hs. pose proof (Z.mod_pos_bound (zlen (l_out st)) 4 ltac:(lia)) as Hpos.
  unfold inflate_packet, bit1, shrt. rewrite !row4 by done. lz_step. apply lwp_opt; [by eexists|]. intros ? [= <-].
  unfold end_bits in Hr. cbv zeta in Hr. cbn [app] in Hr. lz_step. lz_elem Hr. lz_step. lz_elem Hr.
  rewrite <- app_assoc in Hr. by apply inflate_end_run.
Qed.

(** ** The loop *)

Lemma copy_bytes k d out : bytes out -> bytes (copy k d out).
Proof.
  revert out. induction k as [|k IH]; intros out Hb; cbn [copy]; [done|]. apply IH, Forall_app_2; [done|].
  repeat constructor; by apply back_byte.
Qed.

Lemma step_ok st p : lst_ok st -> packet_ok st p = true -> lst_ok (step st p).
Proof.
  intros Hok Hp. pose proof Hok as [Hs Hl Hr Ho Hm]. destruct (reps_four _ Hok) as (r0 & r1 & r2 & r3 & Hreps).
  assert (forall k, (k < 4)%nat -> 0 <= dist st k < 2 ^ 32) as Hd by (intros; by apply dist_range).
  destruct p as [c|len d| |k len]; cbn [packet_ok step] in *; cbv zeta in Hp;
    rewrite ?andb_true_iff, ?Nat.ltb_lt in Hp; destruct_and?; zbool.
  - split; cbn [l_state l_reps l_out]; try done; [zcases; lia|by apply Forall_app_2; [|repeat constructor]|].
    intros H7. exfalso. revert H7. zcases; lia.
  - split; cbn [l_state l_reps l_out]; [zcases; lia|by rewrite Hreps| |by apply copy_bytes|].
    + rewrite Hreps in *. cbn [take firstn]. inversion_clear Hr as [|??? Hr1]. inversion_clear Hr1 as [|??? Hr2].
      inversion_clear Hr2. repeat constructor; try done; lia.
    + intros _. rewrite length_copy. unfold dist. cbn. lia.
  - split; cbn [l_state l_reps l_out]; [zcases; lia|done..|by apply copy_bytes|].
    intros _. change (dist (Lstate _ _ _) 0) with (dist st 0). rewrite length_copy. lia.
  - pose proof Hr as Hall. rewrite Hreps in Hall. apply Forall_cons in Hall as [B0 Hall]. apply Forall_cons in Hall as [B1 Hall].
    apply Forall_cons in Hall as [B2 Hall]. apply Forall_cons in Hall as [B3 _].
    split; cbn [l_state l_reps l_out]; [zcases; lia| | |by apply copy_bytes|].
    + unfold to_front. rewrite Hreps. do 4 (destruct k as [|k]; [done|]). lia.
    + unfold to_front. rewrite Hreps. do 4 (destruct k as [|k]; [repeat (apply Forall_cons_2; [done|]); apply Forall_nil_2|]). lia.
    + intros _. rewrite length_copy. unfold dist at 1, to_front. cbn [l_reps lookup list_lookup default].
      change (default 0 (l_reps st !! k)) with (dist st k). unfold id. lia.
Qed.

Lemma out_grows ps st : zlen (l_out st) <= zlen (l_out (foldl step st ps)).
Proof.
  revert st. induction ps as [|p ps IH]; intros st; cbn [foldl]; [lia|]. specialize (IH (step st p)).
  assert (zlen (l_out st) <= zlen (l_out (step st p))); [|lia].
  destruct p; cbn [step l_out]; rewrite ?length_app, ?length_copy; lia.
Qed.

Lemma promises_ptr z ds : promises z ds -> srcptr z <= b + 4 + Z.of_nat n.
Proof.
  intros (e & Ht & Hg & Hf & Hv). rewrite (tr_ptr _ _ Ht). pose proof Hfin as HfE. rewrite <- Hf in HfE.
  destruct (code_bits_fits _ _ _ _ Hg Hv HfE) as [Hn _]. lia.
Qed.

Lemma inflate_packets ps fuel st z :
  lst_ok st -> packets_ok st ps = true -> holds st z -> z_state z = l_state st -> promises z (packets_bits st ps) ->
  let T := l_out (foldl step st ps) in
  dstbuf z + zlen T <= dstend z -> dstbuf z + zlen T <= dsthwm z -> b + 4 + Z.of_nat n <= srchwm z ->
  (length ps + 1 < fuel)%nat ->
  lwp (inflate_loop fuel) z (fun r z' => r = LZMA_STREAM_END /\ take (length T) (dst z') = T /\
    dstptr z' = dstbuf z + zlen T /\ srcptr z' = b + 4 + Z.of_nat (shifts fin)).
Proof.
  revert fuel st z. induction ps as [|p ps IH]; intros fuel st z Hok Hps Hh Hst Hp T HT1 HT2 Hsrc Hfuel; (destruct fuel as [|fuel]; [cbn in Hfuel; lia|]);
    pose proof (ls_state _ Hok) as Hs; pose proof (Z.mod_pos_bound (zlen (l_out st)) 4 ltac:(lia)) as Hpos; cbn [inflate_loop];
    lz_step; lz_step; rewrite (h_error _ _ Hh); cbn [Z.eqb negb]; lz_step; lz_step; lz_step; lz_step; rewrite Hst, (h_pos _ _ Hh), !u32_small by lia;
    lz_step; (apply lwp_check; [lia|]); cbn [negb Z.eqb]; lz_step; (apply lwp_check; [lia|]); cbn [negb Z.eqb]; lz_step.
  - cbn [packets_bits foldl] in *. rewrite <- (app_nil_r (end_bits st)) in Hp.
    eapply lwp_mono; [by apply (inflate_packet_end _ z); [|split; [exact Hh|split; [exact Hp|done]]]|].
    intros x z' (-> & st1 & z1 & Ho & (Hh1 & Hp1 & Hs1) & ->). lz_step. apply lwp_set. lz_step. lz_step. cbn [id].
    pose proof (promises_ptr _ _ Hp1) as Hptr. injection Hs1 as _ Hhwm _ _ Hdb Hdh _ _ _.
    pose proof (h_ptr _ _ Hh1) as Hdp. rewrite Ho in Hdp. subst T.
    rewrite (proj2 (Z.ltb_ge _ _)) by (cbn; lia). rewrite (proj2 (Z.ltb_ge _ _)) by (cbn; lia).
    destruct fuel as [|fuel]; [cbn in Hfuel; lia|]. cbn [inflate_loop]. lz_step. lz_step. cbn [error upd]. 
    change (negb (LZMA_STREAM_END =? 0)) with true. cbv iota. lz_step. split; [done|].
    pose proof (h_out _ _ Hh1) as Htk. rewrite Ho in Htk. split; [exact Htk|]. split; [cbn; lia|].
    destruct Hp1 as (e & Ht & _ & Hf & _). cbn [foldl] in Hf. subst e. exact (tr_ptr _ _ Ht).
  - cbn [packets_ok packets_bits foldl] in *. apply andb_true_iff in Hps as [Hp1 Hps].
    pose proof (out_grows ps (step st p)) as Hgrow. fold T in Hgrow.
    eapply lwp_mono; [by apply (inflate_packet_run _ z); [done|done|split; [exact Hh|split; [exact Hp|done]]|lia]|].
    intros x z' (-> & Hh1 & Hp2 & Hs1). lz_step. apply lwp_set. lz_step. lz_step. cbn [id].
    pose proof (promises_ptr _ _ Hp2) as Hptr. injection Hs1 as _ Hhwm _ _ Hdb Hdh Hde _ _. pose proof (h_ptr _ _ Hh1) as Hdp.
    rewrite (proj2 (Z.ltb_ge _ _)) by (cbn; lia). rewrite (proj2 (Z.ltb_ge _ _)) by (cbn; lia).
    eapply lwp_mono; [apply (IH fuel (step st p)); [by apply step_ok|done| |done| | | | |]|].
    + destruct Hh1 as [A1 A2 A3 A4 A5 A6]. by split.
    + by eapply promises_same; [..|exact Hp2].
    + cbn. fold T. lia.
    + cbn. fold T. lia.
    + cbn. lia.
    + cbn in Hfuel. lia.
    + cbn. fold T. rewrite Hdb. done.
Qed.
End stream.

(** ** Streams *)

Lemma tree_bits_valid base k m sym :
  0 <= base -> 1 <= m -> 2 * base + (m + 1) * 2 ^ Z.of_nat k <= 2 * NMODELS -> Forall valid (tree_bits base k m sym).
Proof.
  intros Hb. revert m. induction k as [|k IH]; intros m Hm Hk; cbn [tree_bits]; [done|].
  rewrite pow2_S in Hk. pose proof (pow2_pos k). pose proof (bit_01 k sym).
  constructor; [split; [nia|done]|]. apply IH; [lia|nia].
Qed.

Lemma rtree_bits_valid base k m sym :
  0 <= base -> 1 <= m -> 2 * base + (m + 1) * 2 ^ Z.of_nat k <= 2 * NMODELS -> Forall valid (rtree_bits base k m sym).
Proof. intros. rewrite rtree_tree. by apply tree_bits_valid. Qed.

Lemma match_bits_valid base k m mbyte c :
  0 <= base -> 1 <= m -> base + 0x300 <= NMODELS -> (m + 1) * 2 ^ Z.of_nat k <= 512 -> Forall valid (match_bits base k m mbyte c).
Proof.
  intros Hb. revert m. induction k as [|k IH]; intros m Hm Hn Hk; cbn [match_bits]; [done|].
  rewrite pow2_S in Hk. pose proof (pow2_pos k). pose proof (bit_01 k mbyte). pose proof (bit_01 k c).
  constructor; [split; [nia|done]|]. destruct (_ =? _); [apply IH; [lia|lia|nia]|apply tree_bits_valid; [lia|lia|nia]].
Qed.

Lemma direct_bits_valid k v : Forall valid (direct_bits k v).
Proof. induction k as [|k IH]; cbn [direct_bits]; [done|]. constructor; [apply bit_01|done]. Qed.

Lemma length_bits_valid lm p len :
  0 <= lm -> lm + 322 <= NMODELS -> 0 <= p < 4 -> Forall valid (length_bits lm p len).
Proof.
  intros H1 H2 Hp. unfold length_bits. cbv zeta. unfold NMODELS in *.
  assert (forall c, c = 0 \/ c = 1 -> valid (Bit lm c) /\ valid (Bit (lm + 1) c)) as Hv.
  { intros c Hc. split; (split; [unfold NMODELS; lia|done]). }
  destruct (_ <? 8); [|destruct (_ <? 16)]; repeat (apply Forall_cons_2; [apply Hv; by auto|]);
    apply tree_bits_valid; try lia; unfold NMODELS; cbn; lia.
Qed.

Lemma dist_bits_valid len d : 2 <= len -> 0 <= d < 2 ^ 32 -> Forall valid (dist_bits len d).
Proof.
  intros Hl Hd. rewrite dist_bits_tail. apply Forall_app_2; [apply tree_bits_valid; unfold NMODELS; cbn; lia|].
  unfold tail_bits. cbv zeta. destruct (Z.ltb_spec (slot_of d) 4); [done|].
  destruct (Z.ltb_spec (slot_of d) 14) as [H14|].
  - pose proof (slot_middle (slot_of d) ltac:(lia)) as (M1 & M2 & M3 & _). apply rtree_bits_valid; [lia|lia|].
    rewrite Z2Nat.id by lia. unfold NMODELS. lia.
  - apply Forall_app_2; [apply direct_bits_valid|]. apply rtree_bits_valid; unfold NMODELS; cbn; lia.
Qed.

Lemma head_valid st c :
  lst_ok st -> c = 0 \/ c = 1 ->
  valid (Bit (l_state st * 4 + zlen (l_out st) mod 4) c) /\ valid (Bit (48 + l_state st) c) /\ valid (Bit (60 + l_state st) c) /\
  valid (Bit (72 + l_state st) c) /\ valid (Bit (84 + l_state st) c) /\ valid (Bit (96 + l_state st * 4 + zlen (l_out st) mod 4) c).
Proof.
  intros Hok Hc. pose proof (ls_state _ Hok). pose proof (Z.mod_pos_bound (zlen (l_out st)) 4 ltac:(lia)).
  unfold valid, NMODELS. split_and!; try done; lia.
Qed.

Lemma packet_bits_valid st p : lst_ok st -> packet_ok st p = true -> Forall valid (packet_bits st p).
Proof.
  intros Hok Hp. pose proof (Z.mod_pos_bound (zlen (l_out st)) 4 ltac:(lia)) as Hpos.
  destruct (head_valid st 0 Hok (or_introl eq_refl)) as (A1 & A2 & A3 & A4 & A5 & A6).
  destruct (head_valid st 1 Hok (or_intror eq_refl)) as (B1 & B2 & B3 & B4 & B5 & B6).
  destruct p as [c|len d| |k len]; cbn [packet_bits packet_ok] in *; cbv zeta in *; rewrite ?andb_true_iff in Hp; destruct_and?; zbool.
  - constructor; [done|]. pose proof (back_byte (l_out st) 0 (ls_out _ Hok)).
    assert (0 <= back (l_out st) 0 / 32 < 8) by (Z.div_mod_to_equations; lia).
    destruct (_ <? 7); [apply tree_bits_valid|apply match_bits_valid]; unfold NMODELS; cbn; lia.
  - do 2 (constructor; [done|]). apply Forall_app_2; [apply length_bits_valid; unfold NMODELS; lia|apply dist_bits_valid; lia].
  - by repeat (apply Forall_cons_2; [done|]).
  - do 2 (constructor; [done|]). apply Forall_app_2; [|apply length_bits_valid; unfold NMODELS; lia].
    by destruct k as [|[|[|k]]]; repeat (apply Forall_cons_2; [done|]).
Qed.

Lemma packets_bits_valid ps st : lst_ok st -> packets_ok st ps = true -> Forall valid (packets_bits st ps).
Proof.
  revert st. induction ps as [|p ps IH]; intros st Hok Hp; cbn [packets_bits packets_ok] in *.
  - destruct (head_valid st 0 Hok (or_introl eq_refl)) as (_ & A2 & _). destruct (head_valid st 1 Hok (or_intror eq_refl)) as (B1 & _).
    pose proof (Z.mod_pos_bound (zlen (l_out st)) 4 ltac:(lia)) as Hpos. unfold end_bits. cbv zeta.
    do 2 (constructor; [done|]). apply Forall_app_2; [apply length_bits_valid; unfold NMODELS; lia|apply dist_bits_valid; lia].
  - apply andb_true_iff in Hp as [Hp Hps]. apply Forall_app_2; [by apply packet_bits_valid|]. apply IH; [by apply step_ok|done].
Qed.

Lemma good_coder0 : good coder0.
Proof.
  split; cbn [models width LzmaSpec.low coder0]; [by vm_compute| |lia|lia].
  apply Forall_forall. intros x Hx%list_elem_of_In%repeat_spec. subst x. unfold fair. lia.
Qed.

Lemma lst_ok0 : lst_ok lstate0.
Proof. split; cbn; [lia|done|repeat constructor; lia|constructor|lia]. Qed.

(** The digits of a number. *)
Lemma digits_lookup k (v : Z) i :
  (i < k)%nat -> 0 <= v -> zget (digits 256 k v) (Z.of_nat i) = Some (v / 256 ^ Z.of_nat (k - 1 - i) mod 256).
Proof.
  revert v. induction k as [|k IH]; intros v Hi Hv; [lia|]. cbn [digits].
  destruct (decide (i = k)) as [->|].
  - rewrite zget_app_r by (rewrite length_digits; lia). rewrite length_digits, Z.sub_diag.
    replace (S k - 1 - k)%nat with 0%nat by lia. change (256 ^ Z.of_nat 0) with 1. by rewrite Z.div_1_r.
  - rewrite zget_app_l by (rewrite length_digits; lia). rewrite IH by (try apply Z.div_pos; lia).
    replace (S k - 1 - i)%nat with (S (k - 1 - i)) by lia. rewrite Nat2Z.inj_succ, Z.pow_succ_r by lia.
    rewrite Z.div_div by (try apply Z.pow_pos_nonneg; lia). done.
Qed.

Lemma get_byte_run z x :
  srcptr z < srcend z -> zget (src z) (srcptr z - srcbuf z) = Some x -> get_byte z = Some (x, z <| srcptr := srcptr z + 1 |>).
Proof.
  intros Hlt Hx. unfold get_byte. erewrite lzma_run_bind by reflexivity. cbn [id]. cbv zeta.
  rewrite (proj2 (Z.leb_gt _ _)) by lia. erewrite lzma_run_bind by reflexivity. unfold zopt. cbn. by rewrite Hx.
Qed.

Lemma read_code_run V n b k i z :
  0 <= V -> (i + k <= 4)%nat -> V < 256 ^ Z.of_nat (4 + n) ->
  (forall j, (j < 4 + n)%nat -> zget (src z) (b - srcbuf z + Z.of_nat j) = Some (V / 256 ^ Z.of_nat (4 + n - 1 - j) mod 256)) ->
  srcptr z = b + Z.of_nat i -> b + 4 + Z.of_nat n <= srcend z ->
  read_code k (V / 256 ^ Z.of_nat (4 + n - i)) z =
    Some (V / 256 ^ Z.of_nat (4 + n - i - k), z <| srcptr := b + Z.of_nat (i + k) |>).
Proof.
  intros HV. revert i z. induction k as [|k IH]; intros i z Hik Hlt Hsrc Hptr Hend; cbn [read_code].
  { rewrite Nat.sub_0_r, Nat.add_0_r, <- Hptr. unfold mret, lz_ret. by destruct z. }
  pose proof (Hsrc i ltac:(lia)) as Hx. replace (b - srcbuf z + Z.of_nat i) with (srcptr z - srcbuf z) in Hx by lia.
  erewrite lzma_run_bind by (apply get_byte_run; [lia|exact Hx]).
  replace (4 + n - 1 - i)%nat with (4 + n - i - 1)%nat by lia.
  set (m := (4 + n - i - 1)%nat). assert (256 ^ Z.of_nat (4 + n - i) = 256 ^ Z.of_nat m * 256) as Hpow.
  { replace (4 + n - i)%nat with (S m) by lia. rewrite Nat2Z.inj_succ, Z.pow_succ_r by lia. lia. }
  assert (0 < 256 ^ Z.of_nat m) by (apply Z.pow_pos_nonneg; lia).
  assert (Z.lor (u32 (Z.shiftl (V / 256 ^ Z.of_nat (4 + n - i)) 8)) (V / 256 ^ Z.of_nat m mod 256) = V / 256 ^ Z.of_nat m) as ->.
  { rewrite Hpow, <- Z.div_div by lia. pose proof (Z.mod_pos_bound (V / 256 ^ Z.of_nat m) 256 ltac:(lia)).
    pose proof (Z.div_mod (V / 256 ^ Z.of_nat m) 256 ltac:(lia)).
    rewrite push_byte; [lia| |done]. split; [apply Z.div_pos; [apply Z.div_pos; lia|lia]|].
    rewrite Z.div_div by lia. apply Z.div_lt_upper_bound; [lia|]. rewrite <- Hpow.
    eapply Z.lt_le_trans; [exact Hlt|]. change (2 ^ 24) with (256 ^ 3). rewrite <- Z.pow_add_r by lia. apply Z.pow_le_mono_r; lia. }
  replace m with (4 + n - S i)%nat by lia. rewrite IH; [|lia|done|exact Hsrc|cbn; lia|exact Hend].
  f_equal. f_equal; [do 2 f_equal; lia|]. replace (S i + k)%nat with (i + S k)%nat by lia. by destruct z.
Qed.

(** A decoder as [lzma_create] makes it. *)
Definition fresh (z : lzma) : Prop :=
  error z = 0 /\ z_state z = STATE_INITIAL /\ pos_state z = 0 /\ rep z = [0; 0; 0; 0] /\
  probs z = repeat 1024 (Z.to_nat NMODELS).

Lemma start_run V n z :
  0 <= V -> V < 256 ^ Z.of_nat (4 + n) -> given z -> z_state z = STATE_INITIAL ->
  (forall j, (j < 4 + n)%nat -> zget (src z) (srcptr z - srcbuf z + Z.of_nat j) = Some (V / 256 ^ Z.of_nat (4 + n - 1 - j) mod 256)) ->
  srcptr z + 4 + Z.of_nat n <= srcend z ->
  check_buffers z = Some (tt, z <| srcptr := srcptr z + 4 |> <| code := V / 256 ^ Z.of_nat n |> <| z_state := STATE_LIT_LIT |>
    <| range := 0xFFFFFFFF |>).
Proof.
  intros HV Hlt (H1 & H2 & H3 & H4 & H5 & H6) Hst Hsrc Hend. unfold check_buffers. erewrite lzma_run_bind by reflexivity. cbn [id].
  rewrite (proj2 (Z.eqb_neq _ _) H1), (proj2 (Z.eqb_neq _ _) H2), (proj2 (Z.eqb_neq _ _) H3), (proj2 (Z.eqb_neq _ _) H4),
    (proj2 (Z.eqb_neq _ _) H5), (proj2 (Z.eqb_neq _ _) H6), Hst, Z.eqb_refl. cbn [orb negb].
  pose proof (read_code_run V n (srcptr z) 4 0 z HV ltac:(lia) Hlt Hsrc ltac:(lia) Hend) as Hrun.
  rewrite Nat.sub_0_r, Z.div_small in Hrun by lia. replace (4 + n - 4)%nat with n in Hrun by lia.
  erewrite lzma_run_bind by exact Hrun. unfold zset. by destruct z.
Qed.

(** C4. The decoder decodes: whatever the packets a stream was made of - literals,
    matches, repeated distances, in any number and order, each of which refers
    to what was output before it - a new decoder that is given the stream turns
    it into the text of the packets, reports the end of the stream, and stops
    after the last byte of the stream and of the text. *)
Theorem lzma_inflate_decodes ps fuel z pre post :
  packets_ok lstate0 ps = true -> fresh z -> given z ->
  src z = pre ++ encode ps ++ post -> srcptr z = srcbuf z + zlen pre ->
  srcptr z + zlen (encode ps) <= srcend z -> srcptr z + zlen (encode ps) <= srchwm z ->
  dstptr z = dstbuf z -> dstend z <= dstbuf z + zlen (dst z) ->
  dstbuf z + zlen (text ps) <= dstend z -> dstbuf z + zlen (text ps) <= dsthwm z ->
  (length ps + 1 < fuel)%nat ->
  exists z', lzma_inflate fuel z = Some (LZMA_STREAM_END, z') /\
    take (length (text ps)) (dst z') = text ps /\
    dstptr z' = dstbuf z + zlen (text ps) /\ srcptr z' = srcptr z + zlen (encode ps).
Proof.
  intros Hps (F1 & F2 & F3 & F4 & F5) Hg Hsrc Hptr He1 He2 Hd1 Hd2 Ht1 Ht2 Hfuel.
  set (ds := packets_bits lstate0 ps). set (fin := foldl code_bit coder0 ds).
  assert (Forall valid ds) as Hv by (apply packets_bits_valid; [apply lst_ok0|done]).
  assert (fits (LzmaSpec.low fin) (shifts fin) fin) as Hfin.
  { split; [done|]. rewrite Nat.sub_diag. cbv zeta. change (256 ^ Z.of_nat 0) with 1.
    assert (good fin) as [_ _ Hw _]; [|lia]. unfold fin. clear -Hv. revert Hv. generalize ds, coder0, good_coder0. intros l e Hge Hv.
    revert e Hge. induction Hv as [|d l Hd Hl IH]; intros e Hge; [done|]. by apply IH, code_bit_good. }
  set (V := LzmaSpec.low fin) in *. set (n := shifts fin) in *.
  assert (encode ps = digits 256 (4 + n) V) as Henc by done. assert (zlen (encode ps) = 4 + Z.of_nat n) as Hlen by (rewrite Henc, length_digits; lia).
  destruct (code_bits_fits _ _ _ _ good_coder0 Hv Hfin) as [_ Hf0]. cbv zeta in Hf0. cbn [shifts LzmaSpec.low width coder0] in Hf0.
  rewrite Nat.sub_0_r in Hf0. assert (0 < 256 ^ Z.of_nat n) as Hu by (apply Z.pow_pos_nonneg; lia).
  assert (V < 256 ^ Z.of_nat (4 + n)) as HV.
  { rewrite Nat2Z.inj_add, Z.pow_add_r by lia. change (256 ^ Z.of_nat 4) with (2 ^ 32). lia. }
  assert (forall j, (j < 4 + n)%nat -> zget (src z) (srcptr z - srcbuf z + Z.of_nat j) = Some (V / 256 ^ Z.of_nat (4 + n - 1 - j) mod 256)) as Hdig.
  { intros j Hj. rewrite Hsrc, Hptr. replace (srcbuf z + zlen pre - srcbuf z + Z.of_nat j) with (zlen pre + Z.of_nat j) by lia.
    rewrite zget_app_r by lia. replace (zlen pre + Z.of_nat j - zlen pre) with (Z.of_nat j) by lia.
    rewrite zget_app_l by (rewrite Hlen; lia). rewrite Henc. apply digits_lookup; lia. }
  pose proof (start_run V n z ltac:(lia) HV Hg F2 Hdig ltac:(lia)) as Hstart.
  unfold lzma_inflate. erewrite lzma_run_bind by exact Hstart. set (z1 := z <| srcptr := _ |> <| _ := _ |> <| _ := _ |> <| _ := _ |>).
  destruct (proj1 (lwp_run (inflate_loop fuel) z1 _) (inflate_packets V n (srcptr z) fin Hfin ps fuel lstate0 z1 lst_ok0 Hps
    ltac:(split; try done; cbn; lia) eq_refl
    ltac:(exists coder0; split; [split; try done; cbn; try lia; unfold unit_at; rewrite ?Nat.sub_0_r, ?Z.sub_0_r; done|split; [apply good_coder0|done]])
    Ht1 Ht2 ltac:(cbn; lia) Hfuel)) as (r & z' & Hr & -> & Htk & Hdp & Hsp).
  exists z'. split; [exact Hr|]. split; [exact Htk|]. split; [exact Hdp|]. rewrite Hsp, Hlen. fold n. lia.
Qed.

(** Some packets: all the kinds, a copy that overlaps itself, a literal after a
    match. *)
Definition demo_packets : list packet :=
  [Lit 97; Lit 98; Lit 99; Match 9 2; Lit 32; Lit 104; Lit 101; Lit 108; ShortRep; Lit 111; LongRep 0 20; Match 30 1;
   LongRep 2 13; Lit 33; LongRep 3 2; LongRep 1 5; ShortRep].

Definition demo_decoder : lzma :=
  demo_lzma <| src := encode demo_packets |> <| srcend := 4096 + 29 |> <| srchwm := 4096 + 29 |>.

Lemma demo_decoder_fits :
  src demo_decoder = [] ++ encode demo_packets ++ [] /\ zlen (encode demo_packets) = 29 /\ zlen (text demo_packets) = 90.
Proof. by split_and!; vm_compute. Qed.

Lemma lzma_inflate_decodes_witness :
  exists z', lzma_inflate 100 demo_decoder = Some (LZMA_STREAM_END, z') /\
    take (length (text demo_packets)) (dst z') = text demo_packets.
Proof.
  destruct demo_decoder_fits as (H1 & H2 & H3).
  destruct (lzma_inflate_decodes demo_packets 100 demo_decoder [] [] ltac:(by vm_compute) ltac:(by repeat split) ltac:(by repeat split)
    H1 eq_refl ltac:(rewrite H2; by vm_compute) ltac:(rewrite H2; by vm_compute) eq_refl ltac:(by vm_compute)
    ltac:(rewrite H3; by vm_compute) ltac:(rewrite H3; by vm_compute) ltac:(cbn; lia)) as (z' & Hz & Ht & _).
  exists z'. exact (conj Hz Ht).
Defined.
