(* ===== verification/Util.v ===== *)
(** * lib/util and lib/output.c: paths, environment, execution, output

    The parts that look at memory are functions of it.  The parts that call the
    kernel are written for any program: [W] makes the call that writes, [X] the
    one that executes a file. *)
From stdpp Require Import strings.
From S2P Require Import Prelude Mem Str Arr Sys Nlusctl Nlsock State Exits Cstr.

(** Integers and pointers in memory. *)
Definition ld32 (m : mem) (p : ptr) : option Z := le_value <$> peek m p 4.
Definition ld64 (m : mem) (p : ptr) : option Z := le_value <$> peek m p 8.
Definition stn (m : mem) (p : ptr) (l : list Z) : option mem :=
  _ ← peek m p (length l); Some (poke m p l).
Definition st32 (m : mem) (p : ptr) (v : Z) : option mem := stn m p (le_bytes 4 v).
Definition st64 (m : mem) (p : ptr) (v : Z) : option mem := stn m p (le_bytes 8 v).

(** The string at [p]. *)
Definition cstr (m : mem) (p : ptr) : option (list Z) := n ← strlen m p; peek m p (Z.to_nat n).

(** A string that may be NULL. *)
Definition ostr (m : mem) (p : ptr) : option (option (list Z)) :=
  if p =? 0 then Some None else Some <$> cstr m p.

(** The strings of an array of pointers that ends with NULL. *)
Fixpoint strv (fuel : nat) (m : mem) (pp : ptr) : option (list (list Z)) :=
  match fuel with
  | O => None
  | S fuel =>
      p ← ld64 m pp;
      if p =? 0 then Some []
      else s ← cstr m p; l ← strv fuel m (pp + 8); Some (s :: l)
  end.
Definition strs (m : mem) (pp : ptr) : option (list (list Z)) := strv (str_fuel m) m pp.

(** [lib/util/basename.c: basename] *)
Fixpoint basename_loop (fuel : nat) (m : mem) (p q : ptr) : option ptr :=
  match fuel with
  | O => None
  | S fuel =>
      c ← ld8 m p;
      if negb (c =? 0) then basename_loop fuel m (p + 1) (if c =? 47 then p + 1 else q)
      else Some q
  end.
Definition basename (m : mem) (path : ptr) : option ptr := basename_loop (str_fuel m) m path path.

(** [lib/string/strncmp.c: strncmp] against a constant, with its terminating zero *)
Fixpoint strncmp_k (m : mem) (p : ptr) (key : list Z) (n : Z) : option Z :=
  match key with
  | [] => None
  | y :: key =>
      x ← ld8 m p;
      if negb (x =? 0) then
        let n := n - 1 in
        if (0 <? n) && (x =? y) then strncmp_k m (p + 1) key n else Some (s8 x - s8 y)
      else Some (s8 x - s8 y)
  end.

(** [lib/util/getenv.c: getenv 14-16] *)
Fixpoint getenv_loop (fuel : nat) (m : mem) (pp : ptr) (key : list Z) : option ptr :=
  match fuel with
  | O => None
  | S fuel =>
      p ← ld64 m pp;
      if p =? 0 then Some 0
      else
        d ← (if zlen key =? 0 then Some 0 else strncmp_k m p (key ++ [0]) (zlen key));
        if negb (d =? 0) then getenv_loop fuel m (pp + 8) key
        else
          c ← ld8 m (p + zlen key);
          if c =? 61 then Some (p + zlen key + 1) else getenv_loop fuel m (pp + 8) key
  end.

(** [lib/util/getenv.c: getenv] the key is a constant *)
Definition getenv (m : mem) (envp : ptr) (key : list Z) : option ptr :=
  if 1024 <=? zlen key then Some 0 else getenv_loop (str_fuel m) m envp key.

Section calls.
Context {St Cl : Type} `{HK : !Kern Cl}.
Context (W : Z -> list Z -> Cl) (X : list Z -> list (list Z) -> list (list Z) -> Cl) (ram : St -> mem).

Abbreviation M := (xprog St Cl).

(** [lib/util/writeall.c: writeall 13-23] *)
Fixpoint writeall_loop (fuel : nat) (fd : Z) (buf : list Z) (wr : Z) : M Z :=
  if 0 <? zlen buf then
    match fuel with
    | O => xpure None
    | S fuel =>
        r ← xcall (W fd buf);
        let wr := s64 (ret r) in
        let wr := if wr =? 0 then -32 else wr in
        if wr <? 0 then mret wr
        else writeall_loop fuel fd (drop (Z.to_nat wr) buf) wr
    end
  else mret wr.

(** [lib/util/writeall.c: writeall] *)
Definition writeall (fd : Z) (buf : list Z) : M Z := writeall_loop (length buf) fd buf 0.

Definition ld {A} (f : mem -> option A) : M A := fun s t => x ← f (ram s); Some (Some x, s, t).

(** A call of [execve] for a path, an array of arguments and the environment. *)
Definition sys_execve (path : list Z) (argv envp : ptr) : M Z :=
  av ← ld (fun m => strs m argv);
  ev ← ld (fun m => strs m envp);
  r ← xcall (X path av ev);
  mret (s64 (ret r)).

(** [lib/util/execvp.c: execvpe_at] the path is put together in a buffer that
    fits it *)
Definition execvpe_at (argv envp file fend dir dend : ptr) : M Z :=
  let len := strelen file fend + strelen dir dend + 2 in
  d ← ld (fun m => peek m dir (Z.to_nat (strelen dir dend)));
  f ← ld (fun m => peek m file (Z.to_nat (strelen file fend)));
  sys_execve (take (Z.to_nat (len - 1)) (d ++ [47] ++ f)) argv envp.

(** [lib/util/execvp.c: execvpe 46-56] the directories of the path *)
Fixpoint execvpe_loop (fuel : nat) (file fend argv envp p e : ptr) : M Z :=
  if p <? e then
    match fuel with
    | O => xpure None
    | S fuel =>
        q ← ld (fun m => strecbrk m p e 58);
        r ← execvpe_at argv envp file fend p q;
        let r := s32 r in
        if negb (r =? -13) && negb (r =? -2) && negb (r =? -20) then mret r
        else execvpe_loop fuel file fend argv envp (q + 1) e
    end
  else mret (-2).

(** [lib/util/execvp.c: execvpe] *)
Definition execvpe (file argv envp : ptr) : M Z :=
  fend ← ld (fun m => strpend m file);
  if file =? 0 then mret (-14)
  else if fend =? 0 then mret (-36)
  else if fend =? file then mret (-2)
  else
    slash ← ld (fun m => strecbrk m file fend 47);
    if slash <? fend then path ← ld (fun m => cstr m file); sys_execve path argv envp
    else
      p ← ld (fun m => getenv m envp (text "PATH"));
      e ← ld (fun m => strpend m p);
      if p =? 0 then mret (-2)
      else if e =? 0 then mret (-36)
      else execvpe_loop (Z.to_nat (e - p)) file fend argv envp p e.

End calls.
