(* ===== verification/Msh.v ===== *)
(** * src/msh: the script interpreter

    State, heap, arguments, variables and parser of msh (msh_common.c,
    msh_parser.c, msh.c).  Its memory is the byte memory of [Mem], so strings are
    compared and copied with the routines of [Str].  What a command does is in
    [MshCmd]; the parser looks commands up in a table, which is the class
    [Builtins] here. *)
From stdpp Require Import strings.
From S2P Require Import Prelude Mem Str Fmt Parse Arr Sys Nlusctl Nlsock State Exits Cstr Util.

(** ** State *)

(** [src/msh/msh.h: sh] with the memory of the process.  Pointers are addresses. *)
Record sh := Sh {
  file : ptr; line : Z;
  errfd : Z; sigfd : Z;
  environ : ptr; customenvp : Z;
  topargc : Z; topargp : Z; topargv : ptr;
  state : Z;
  argc : Z; argp : Z; argv : ptr;
  heap : ptr; asep : ptr; hptr : ptr; hend : ptr; var : ptr;
  ram : mem }.

#[export] Instance eta_sh : Eta sh :=
  rd_pure Sh <*> file <*> line <*> errfd <*> sigfd <*> environ <*> customenvp
    <*> topargc <*> topargp <*> topargv <*> state <*> argc <*> argp <*> argv
    <*> heap <*> asep <*> hptr <*> hend <*> var <*> ram.

(** The system calls of msh.  Strings and arrays of strings are passed by
    content; NULL is [None].  [Report] is the write of an error message, whose
    text is made of the parts of the argument. *)
Inductive mcall :=
  | Brk (addr : Z)
  | Report (fd : Z) (file : option (list Z)) (line : Z) (err arg : option (list Z)) (ret : Z)
  | Exit (code : Z)
  | Getpid
  | Fork
  | Execve (path : list Z) (argv envp : list (list Z))
  | Kill (pid sig : Z)
  | Waitpid (pid flags : Z)
  | Signalfd (fd : Z) (mask : Z) (flags : Z)
  | Sigprocmask (how mask : Z)
  | Open (path : list Z) (flags mode : Z)
  | Read (fd n : Z)
  | Write (fd : Z) (data : list Z)
  | Close (fd : Z)
  | Dup2 (fd tofd : Z)
  | Fcntl3 (fd cmd arg : Z)
  | Fstat (fd : Z)
  | Stat (path : list Z)
  | Unlink (path : list Z)
  | Chdir (path : list Z)
  | Chroot (path : list Z)
  | Mkdir (path : list Z) (mode : Z)
  | Chown (path : list Z) (uid gid : Z)
  | Mount (source : option (list Z)) (target : list Z) (fstype : option (list Z))
      (flags : Z) (data : option (list Z))
  | Umask (mask : Z)
  | Setresuid (r e s : Z)
  | Setresgid (r e s : Z)
  | Setgroups (gids : list Z)
  | Prlimit (pid res cur max : Z)
  | Prctl (opt a2 a3 a4 a5 : Z)
  | Capget (version pid : Z)
  | Capset (version pid : Z) (data : list Z)
  | Seccomp (mode flags len buf : Z)
  | Mmap (len prot flags fd : Z)
  | Munmap (addr len : Z)
  | Setpriority (which who prio : Z)
  | Setaffinity (pid : Z) (mask : list Z)
  | Setscheduler (pid policy priority : Z)
  | Nanosleep (sec nsec : Z)
  | Inotify_init1 (flags : Z)
  | Inotify_add_watch (fd : Z) (path : list Z) (mask : Z)
  | Inotify_rm_watch (fd wd : Z)
  | Ppoll (fd events : Z) (ts : Z * Z).

Section msh.
Context `{HK : !Kern mcall} `{HL : !Locals}.

Definition M := xprog sh mcall.

(** ** Memory *)

(** Read from the memory, change it. *)
Definition rd {A} (f : mem -> option A) : M A := fun s t => x ← f (ram s); Some (Some x, s, t).
Definition wr (f : mem -> option mem) : M unit := fun s t =>
  m ← f (ram s); Some (Some tt, s <| ram := m |>, t).

(** ** Errors (msh_common.c) *)

(** [src/msh/msh_common.c: report] the text is not modelled, only its parts *)
Definition report (err arg : option (list Z)) (r : Z) : M unit :=
  fd ← xget errfd;
  f ← xget file; f ← rd (fun m => ostr m f);
  ln ← xget line;
  _ ← xcall (Report fd f ln err arg r); mret tt.

(** [src/msh/msh_common.c: exit_fail] *)
Definition exit_fail {A} : M A := _ ← xcall (Exit 0xFF); xexit.

(** [src/msh/msh_common.c: error] with the argument in a local array, or NULL *)
Definition error_l {A} (err arg : option (list Z)) (r : Z) : M A := report err arg r;; exit_fail.

(** [src/msh/msh_common.c: quit] *)
Definition quit {A} (err : option (list Z)) (arg : ptr) (r : Z) : M A :=
  xmodify (fun c => c <| file := 0 |>);;
  a ← rd (fun m => ostr m arg); error_l err a r.

(** [src/msh/msh_common.c: error] *)
Definition error {A} (err : option (list Z)) (arg : ptr) (r : Z) : M A :=
  a ← rd (fun m => ostr m arg); error_l err a r.

(** [src/msh/msh_common.c: fatal] *)
Definition fatal {A} (err : list Z) (arg : ptr) : M A :=
  a ← rd (fun m => ostr m arg); error_l (Some err) a 0.

(** [src/msh/msh_common.c: check] *)
Definition check (msg : option (list Z)) (arg : ptr) (r : Z) : M unit :=
  if r <? 0 then error msg arg r else mret tt.

(** ** Heap (msh_common.c) *)

(** [lib/sys/mman.h: mmap_error] *)
Definition mmap_error (p : Z) : Z :=
  let r := s64 p in if 0 <=? r then 0 else if r <? -2048 then 0 else r.

(** [lib/sys/mman.h: brk_error] *)
Definition brk_error (brk e : Z) : Z :=
  let r := mmap_error brk in
  if negb (r =? 0) then r
  else let r := mmap_error e in
  if negb (r =? 0) then r
  else if e <=? brk then -22 else 0.

Definition PAGE : Z := 4096.

(** [lib/sys/mman.h: pagealign] *)
Definition pagealign (sz : Z) : Z := Z.land (u64 (sz + PAGE - 1)) (2 ^ 64 - PAGE).

(** [(n + 3) & ~3] *)
Definition align4 (n : Z) : Z := (n + 3) / 4 * 4.

(** [lib/sys/mman.h: sys_brk] what the kernel adds to the heap, from [e] up to
    the break it returns, has arbitrary contents *)
Definition sys_brk (addr : Z) : M Z := r ← xcall (Brk addr); mret (u64 (ret r)).
Definition grown (e new : Z) (c : sh) : sh :=
  c <| hend := new |> <| ram ::= fun m => poke m e (junk (Z.to_nat (new - e))) |>.

(** [src/msh/msh_common.c: heap_init] *)
Definition heap_init : M unit :=
  brk ← sys_brk 0;
  e ← sys_brk (u64 (brk + 4096));
  if negb (brk_error brk e =? 0) then quit (Some (text "heap init failed")) 0 0
  else
    xmodify (fun c => c <| heap := brk |> <| asep := brk |> <| hptr := brk |>);;
    xmodify (grown brk e).

(** [src/msh/msh_common.c: heap_extend] *)
Definition heap_extend : M unit :=
  e ← xget hend;
  new ← sys_brk (u64 (e + PAGE));
  if negb (brk_error e new =? 0) then fatal (text "cannot allocate memory") 0
  else xmodify (grown e new).

(** [src/msh/msh_common.c: heap_alloc] *)
Definition heap_alloc (len : Z) : M ptr :=
  p ← xget hptr;
  e ← xget hend;
  let newptr := p + len in
  (if newptr <=? e then mret tt
   else
     let need := s32 (pagealign (newptr - e)) in
     newend ← sys_brk (u64 (e + need));
     if negb (brk_error e newend =? 0) then fatal (text "cannot allocate memory") 0
     else xmodify (grown e newend));;
  xmodify (fun c => c <| hptr := newptr |>);;
  mret p.

(** ** Variables (msh_common.c) *)

(** [src/msh/msh.h: EV_SIZE 5-10] *)
Definition EV_SIZE : Z := 0xFFFF.
Definition EV_ENVP : Z := 2 ^ 16.
Definition EV_SVAR : Z := 2 ^ 17.
Definition EV_REF : Z := 2 ^ 24.

(** [sizeof(struct env)] *)
Definition env_size : Z := 4.

Definition has (key flag : Z) : bool := negb (Z.land key flag =? 0).

(** What a key says of the size of its entry. *)
Definition key_size (key : Z) : Z := if has key EV_REF then env_size else Z.land key EV_SIZE.

(** [src/msh/msh_common.c: env_first] *)
Definition env_first : M ptr :=
  p ← xget heap;
  e ← xget asep;
  if e <? p + env_size then mret 0
  else
    key ← rd (fun m => ld32 m p);
    let size := key_size key in
    if size <? env_size then mret 0
    else if e <? p + size then mret 0
    else mret p.

(** [src/msh/msh_common.c: env_next] the size is that of the entry before *)
Definition env_next (ev : ptr) : M ptr :=
  s ← xget heap;
  e ← xget asep;
  if (ev <? s) || (e <=? ev) then mret 0
  else
    key ← rd (fun m => ld32 m ev);
    let p := ev + key_size key in
    if e <? p + env_size then mret 0
    else if e <? p + key_size key then mret 0
    else mret p.

(** [src/msh/msh_common.c: env_value] *)
Definition env_value (ev : ptr) (type : Z) : M ptr :=
  key ← rd (fun m => ld32 m ev);
  if negb (has key type) then mret 0
  else if negb (has key EV_REF) then mret (ev + env_size)
  else
    env ← xget environ;
    rd (fun m => ld64 m (env + 8 * Z.land key EV_SIZE)).

(** The loop over all entries that several functions have; [body] ends it with
    a result. *)
Fixpoint env_loop {A} (fuel : nat) (body : ptr -> M (option A)) (ev : ptr) : M (option A) :=
  if ev =? 0 then mret None
  else
    match fuel with
    | O => xpure None
    | S fuel =>
        r ← body ev;
        match r with
        | Some x => mret (Some x)
        | None => ev ← env_next ev; env_loop fuel body ev
        end
    end.
Definition env_each {A} (body : ptr -> M (option A)) : M (option A) :=
  s ← xget heap; e ← xget asep;
  ev ← env_first;
  env_loop (S (Z.to_nat (e - s))) body ev.

(** The same loop without an early end, for functions that count or collect. *)
Fixpoint fold_loop {B} (fuel : nat) (body : ptr -> B -> M B) (ev : ptr) (x : B) : M B :=
  if ev =? 0 then mret x
  else
    match fuel with
    | O => xpure None
    | S fuel => x ← body ev x; ev ← env_next ev; fold_loop fuel body ev x
    end.
Definition env_fold {B} (body : ptr -> B -> M B) (x : B) : M B :=
  s ← xget heap; e ← xget asep;
  ev ← env_first;
  fold_loop (S (Z.to_nat (e - s))) body ev x.

(** ** Arguments of the commands (msh_common.c) *)

(** [ctx->argv[i]] *)
Definition arg_at (i : Z) : M ptr := av ← xget argv; rd (fun m => ld64 m (av + 8 * i)).

(** [src/msh/msh_common.c: got_more_arguments] *)
Definition got_more_arguments : M bool := p ← xget argp; c ← xget argc; mret (p <? c).

(** [src/msh/msh_common.c: no_more_arguments] *)
Definition no_more_arguments : M unit :=
  p ← xget argp; c ← xget argc;
  if p <? c then fatal (text "too many arguments") 0 else mret tt.

(** [src/msh/msh_common.c: need_some_arguments] *)
Definition need_some_arguments : M unit :=
  p ← xget argp; c ← xget argc;
  if c <=? p then fatal (text "argument required") 0 else mret tt.

(** [src/msh/msh_common.c: argsleft] *)
Definition argsleft : M ptr := p ← xget argp; av ← xget argv; mret (av + 8 * p).

(** [ctx->argv[ctx->argp++]] *)
Definition take_arg : M ptr :=
  p ← xget argp; a ← arg_at p; xmodify (fun c => c <| argp := p + 1 |>);; mret a.

(** [src/msh/msh_common.c: next] *)
Definition next : M ptr :=
  p ← xget argp; c ← xget argc;
  if c <=? p then mret 0 else take_arg.

(** [src/msh/msh_common.c: shift] *)
Definition shift : M ptr :=
  p ← xget argp; c ← xget argc;
  if c <=? p then fatal (text "too few arguments") 0 else take_arg.

(** [src/msh/msh_common.c: dash_opts] *)
Definition dash_opts : M ptr :=
  p ← xget argp; c ← xget argc;
  if c <=? p then mret 0
  else
    lead ← arg_at p;
    b ← rd (fun m => ld8 m lead);
    if negb (b =? 45) then mret 0
    else xmodify (fun c => c <| argp := p + 1 |>);; mret (lead + 1).

(** The result of a parser of numbers: the value, unless nothing or not all of
    the string was a number. *)
Definition whole (p : mem -> ptr -> Z -> option (ptr * Z)) (str : ptr) : M (option Z) :=
  rd (fun m =>
    '(q, n) ← p m str 0;
    if q =? 0 then Some None
    else c ← ld8 m q; Some (if negb (c =? 0) then None else Some n)).

(** [src/msh/msh_common.c: shift_int] *)
Definition shift_int : M Z :=
  str ← shift;
  r ← whole parseint str;
  match r with None => fatal (text "invalid number:") str | Some n => mret n end.

(** [src/msh/msh_common.c: shift_u64] *)
Definition shift_u64 : M Z :=
  str ← shift;
  r ← whole parseu64 str;
  match r with None => fatal (text "invalid number:") str | Some n => mret n end.

(** [src/msh/msh_common.c: shift_oct] *)
Definition shift_oct : M Z :=
  str ← shift;
  c ← rd (fun m => ld8 m str);
  if negb (c =? 48) then fatal (text "invalid octal:") str
  else
    r ← whole parseoct str;
    match r with None => fatal (text "invalid octal:") str | Some n => mret n end.

(** ** Parser (msh_parser.c) *)

(** [src/msh/msh_parser.c: NIL 13-33] *)
Definition NIL : Z := 0.
Definition SEP : Z := 1.
Definition ARG : Z := 2.
Definition NIBSL : Z := 3.
Definition SEBSL : Z := 4.
Definition ARBSL : Z := 5.
Definition VSIGN : Z := 6.
Definition VCONT : Z := 7.
Definition COMMT : Z := 8.
Definition DQUOT : Z := 9.
Definition DQBSL : Z := 10.
Definition DQVSG : Z := 11.
Definition DQVCN : Z := 12.
Definition SQUOT : Z := 13.
Definition SQBSL : Z := 14.
Definition TRAIL : Z := 15.

(** The table of commands: [struct cmd], with the names as they are. *)
Class Builtins := builtins : list (list Z * M unit).
Context `{HB : !Builtins}.

(** [src/msh/msh_parser.c: builtin 51-55] *)
Fixpoint builtin_loop (tbl : list (list Z * M unit)) (name : list Z) : option (option (M unit)) :=
  match tbl with
  | [] => Some None
  | (cc, func) :: tbl =>
      d ← strncmp_l (padded 12 cc) (name ++ [0]) 12;
      if d =? 0 then Some (Some func) else builtin_loop tbl name
  end.

(** [src/msh/msh_parser.c: builtin] *)
Definition builtin (name : ptr) : M (option (M unit)) :=
  s ← rd (fun m => cstr m name); xpure (builtin_loop builtins s).

(** [src/msh/msh_parser.c: command] *)
Definition command (n : Z) (av : ptr) : M unit :=
  if n <=? 0 then mret tt
  else
    xmodify (fun c => c <| argc := n |> <| argp := 1 |> <| argv := av |>);;
    lead ← rd (fun m => ld64 m av);
    cc ← builtin lead;
    match cc with
    | None => fatal (text "unknown command") lead
    | Some func => func;; xmodify (fun c => c <| argc := 0 |> <| argv := 0 |>)
    end.

(** [src/msh/msh_parser.c: advance] *)
Fixpoint advance_loop (fuel : nat) (m : mem) (p e : ptr) : option ptr :=
  if p <? e then
    match fuel with
    | O => None
    | S fuel => c ← ld8 m p; if c =? 0 then Some p else advance_loop fuel m (p + 1) e
    end
  else Some 0.
Definition advance (m : mem) (p e : ptr) : option ptr := advance_loop (Z.to_nat (e - p)) m p e.

(** [src/msh/msh_parser.c: count_args] *)
Fixpoint count_loop (fuel : nat) (m : mem) (p e : ptr) (count : Z) : option Z :=
  if p <? e then
    match fuel with
    | O => None
    | S fuel =>
        q ← advance m p e;
        if q =? 0 then Some count else count_loop fuel m (q + 1) e (s32 (count + 1))
    end
  else Some count.
Definition count_args (m : mem) (p e : ptr) : option Z := count_loop (Z.to_nat (e - p)) m p e 0.

(** [src/msh/msh_parser.c: index_args] *)
Fixpoint index_loop (fuel : nat) (m : mem) (p e : ptr) (av : ptr) (n i : Z) : option (mem * Z) :=
  if p <? e then
    match fuel with
    | O => None
    | S fuel =>
        q ← advance m p e;
        if (q =? 0) || (n <=? i) then Some (m, i)
        else m ← st64 m (av + 8 * i) p; index_loop fuel m (q + 1) e av n (i + 1)
    end
  else Some (m, i).
Definition index_args (m : mem) (p e : ptr) (av : ptr) (n : Z) : option mem :=
  '(m, i) ← index_loop (Z.to_nat (e - p)) m p e av n 0;
  st64 m (av + 8 * i) 0.

(** [src/msh/msh_parser.c: execute] *)
Definition execute : M unit :=
  p ← xget asep;
  e ← xget hptr;
  n ← rd (fun m => count_args m p e);
  let size := s32 ((n + 1) * 8) in
  if n =? 0 then mret tt
  else
    av ← heap_alloc size;
    wr (fun m => index_args m p e av n);;
    command n av;;
    xmodify (fun c => c <| hptr := asep c |>).

(** [src/msh/msh_parser.c: isspace] *)
Definition isspace (c : Z) : bool := (c =? 32) || (c =? 9) || (c =? 10).
(** [src/msh/msh_parser.c: isalpha] *)
Definition isalpha (c : Z) : bool := ((97 <=? c) && (c <=? 122)) || ((65 <=? c) && (c <=? 90)).
(** [src/msh/msh_parser.c: isnumer] *)
Definition isnumer (c : Z) : bool := (48 <=? c) && (c <=? 57).
(** [src/msh/msh_parser.c: isalnum] *)
Definition isalnum (c : Z) : bool := isalpha c || isnumer c.

(** [src/msh/msh_parser.c: push_char] *)
Definition push_char (c : Z) : M unit :=
  p ← xget hptr;
  e ← xget hend;
  xwhen (e <=? p) heap_extend;;
  wr (fun m => st8 m p c);;
  xmodify (fun x => x <| hptr := p + 1 |>).

(** [src/msh/msh_parser.c: push_esc] *)
Definition push_esc (c : Z) : M unit :=
  push_char (if c =? 116 then 9 else if c =? 110 then 10 else c).

(** [src/msh/msh_parser.c: push_end] *)
Definition push_end : M unit := push_char 0.

(** [src/msh/msh_parser.c: push_var] *)
Definition push_var (c : Z) : M unit :=
  xmodify (fun x => x <| var := hptr x |>);; push_char c.

(** [src/msh/msh_parser.c: valueof] *)
Definition valueof (name : ptr) : M ptr :=
  nlen ← rd (fun m => strlen m name);
  let nlen := s32 nlen in
  r ← env_each (fun ev =>
    v ← env_value ev EV_SVAR;
    if v =? 0 then mret None
    else
      d ← rd (fun m => strncmp m v name nlen);
      if negb (d =? 0) then mret None
      else
        c ← rd (fun m => ld8 m (v + nlen));
        mret (if negb (c =? 61) then None else Some (v + nlen + 1)));
  mret (default 0 r).

(** [src/msh/msh_parser.c: subst_var] *)
Definition subst_var : M unit :=
  v ← xget var;
  if v =? 0 then fatal (text "internal var end w/o var") 0
  else
    push_end;;
    val ← valueof v;
    if val =? 0 then fatal (text "undefined variable") v
    else
      xmodify (fun c => c <| hptr := v |>);;
      vlen ← rd (fun m => strlen m val);
      spc ← heap_alloc (s32 vlen);
      wr (fun m => fst <$> memcpy m spc val vlen).

(** [src/msh/msh_parser.c: undefined_special] *)
Definition undefined_special (c : Z) : M unit :=
  error_l (Some (text "undefined special variable")) (Some [36; c]) 0.

(** [src/msh/msh_parser.c: subst_special] *)
Definition subst_special (c : Z) : M unit :=
  if c =? 36 then
    pid ← xcall Getpid;
    let buf := take 32 (dec_signed (s32 (ret pid))) in
    spc ← heap_alloc (zlen buf);
    wr (fun m => stn m spc buf)
  else if (48 <=? c) && (c <=? 57) then
    let idx := (c - 48) + 1 in
    n ← xget topargc;
    xwhen (n <=? idx) (undefined_special c);;
    av ← xget topargv;
    arg ← rd (fun m => ld64 m (av + 8 * idx));
    len ← rd (fun m => strlen m arg);
    let len := s32 len in
    spc ← heap_alloc len;
    wr (fun m => fst <$> memcpy m spc arg len)
  else undefined_special c.

(** *** State handlers *)

(** [src/msh/msh_parser.c: parse_nil] *)
Definition parse_nil (c : Z) : M Z :=
  if c =? 10 then mret NIL
  else if isspace c then mret NIL
  else if c =? 35 then mret COMMT
  else if c =? 92 then mret NIBSL
  else if (c =? 34) || (c =? 39) then fatal (text "quoted command") 0
  else if c =? 36 then fatal (text "indirect command") 0
  else push_char c;; mret ARG.

(** [src/msh/msh_parser.c: parse_sep] *)
Definition parse_sep (c : Z) : M Z :=
  if c =? 10 then execute;; mret NIL
  else if c =? 35 then execute;; mret COMMT
  else if isspace c then mret SEP
  else if c =? 92 then mret SEBSL
  else if c =? 34 then mret DQUOT
  else if c =? 39 then mret SQUOT
  else if c =? 36 then mret VSIGN
  else push_char c;; mret ARG.

(** [src/msh/msh_parser.c: parse_arg] *)
Definition parse_arg (c : Z) : M Z :=
  if c =? 36 then mret VSIGN
  else if c =? 92 then mret ARBSL
  else if c =? 35 then push_end;; execute;; mret COMMT
  else if c =? 10 then push_end;; execute;; mret NIL
  else if isspace c then push_end;; mret SEP
  else if (c =? 34) || (c =? 39) then fatal (text "misplaced quotes") 0
  else push_char c;; mret ARG.

(** [src/msh/msh_parser.c: parse_nibsl] *)
Definition parse_nibsl (c : Z) : M Z :=
  if c =? 10 then mret NIL else push_esc c;; mret NIL.

(** [src/msh/msh_parser.c: parse_sebsl] *)
Definition parse_sebsl (c : Z) : M Z :=
  if c =? 10 then mret SEP else push_esc c;; mret ARG.

(** [src/msh/msh_parser.c: parse_arbsl] *)
Definition parse_arbsl (c : Z) : M Z := push_esc c;; mret ARG.

(** [src/msh/msh_parser.c: parse_vsign] *)
Definition parse_vsign (c : Z) : M Z :=
  if isalpha c then push_var c;; mret VCONT
  else if negb (isspace c) then subst_special c;; mret ARG
  else fatal (text "missing variable name") 0.

(** [src/msh/msh_parser.c: parse_vcont] *)
Definition parse_vcont (c : Z) : M Z :=
  if isalnum c then push_char c;; mret VCONT
  else subst_var;; parse_arg c.

(** [src/msh/msh_parser.c: parse_commt] *)
Definition parse_commt (c : Z) : M Z := mret (if c =? 10 then SEP else COMMT).

(** [src/msh/msh_parser.c: parse_dquot] *)
Definition parse_dquot (c : Z) : M Z :=
  if c =? 34 then push_end;; mret TRAIL
  else if c =? 36 then mret DQVSG
  else if c =? 92 then mret DQBSL
  else push_char c;; mret DQUOT.

(** [src/msh/msh_parser.c: parse_dqvsg] *)
Definition parse_dqvsg (c : Z) : M Z :=
  if isalpha c then push_var c;; mret DQVCN
  else if negb (isspace c) then subst_special c;; mret DQUOT
  else fatal (text "missing variable name") 0.

(** [src/msh/msh_parser.c: parse_dqvcn] *)
Definition parse_dqvcn (c : Z) : M Z :=
  if isalnum c then push_char c;; mret DQVCN
  else subst_var;; parse_dquot c.

(** [src/msh/msh_parser.c: parse_dqbsl] *)
Definition parse_dqbsl (c : Z) : M Z :=
  (if c =? 10 then mret tt else push_esc c);; mret DQUOT.

(** [src/msh/msh_parser.c: parse_squot] *)
Definition parse_squot (c : Z) : M Z :=
  if c =? 92 then mret SQBSL
  else if c =? 39 then push_end;; mret TRAIL
  else push_char c;; mret SQUOT.

(** [src/msh/msh_parser.c: parse_sqbsl] *)
Definition parse_sqbsl (c : Z) : M Z :=
  (if c =? 10 then mret tt else push_esc c);; mret SQUOT.

(** [src/msh/msh_parser.c: parse_trail] *)
Definition parse_trail (c : Z) : M Z :=
  if c =? 10 then execute;; mret NIL
  else if c =? 35 then execute;; mret COMMT
  else if isspace c then mret SEP
  else fatal (text "trailing characters after quote") 0.

(** [src/msh/msh_parser.c: table] in the order of the states *)
Definition table : list (Z -> M Z) :=
  [parse_nil; parse_sep; parse_arg; parse_nibsl; parse_sebsl; parse_arbsl; parse_vsign;
   parse_vcont; parse_commt; parse_dquot; parse_dqbsl; parse_dqvsg; parse_dqvcn;
   parse_squot; parse_sqbsl; parse_trail].

(** [src/msh/msh_parser.c: dispatch] *)
Definition dispatch (c : Z) : M unit :=
  st ← xget state;
  match zget table st with
  | None => fatal (text "internal state error") 0
  | Some cc => st ← cc c; xmodify (fun x => x <| state := st |>)
  end.

(** [src/msh/msh_parser.c: parse] the characters of the buffer *)
Fixpoint parse (buf : list Z) : M unit :=
  match buf with
  | [] => mret tt
  | c :: buf =>
      if c =? 0 then fatal (text "stray NUL in script") 0
      else
        dispatch c;;
        xwhen (c =? 10) (xmodify (fun x => x <| line ::= fun n => s32 (n + 1) |>));;
        parse buf
  end.

(** [src/msh/msh_parser.c: parse_finish] *)
Definition parse_finish : M unit :=
  st ← xget state;
  a ← xget asep; p ← xget hptr;
  if a =? p then mret tt
  else if st =? NIL then mret tt
  else
    (if st =? SEP then mret tt
     else if st =? ARG then push_end
     else if st =? TRAIL then mret tt
     else fatal (text "unexpected EOF") 0);;
    execute.

(** ** Scripts (msh.c) *)

(** [src/msh/msh.c: parse_file 19-23] without fuel the run is cut off *)
Fixpoint read_loop (fuel : nat) (fd : Z) : M unit :=
  match fuel with
  | O => xexit
  | S fuel =>
      r ← xcall (Read fd 2048);
      let n := s32 (ret r) in
      if 0 <? n then buf ← xpure (filled 2048 r); buf ← xpure (aread buf 0 n); parse buf;; read_loop fuel fd
      else if n <? 0 then quit (Some (text "read")) 0 n else mret tt
  end.

(** [src/msh/msh.c: parse_file] *)
Definition parse_file (fuel : nat) (name : ptr) : M unit :=
  s ← rd (fun m => cstr m name);
  r ← xcall (Open s (2 ^ 19) 0);
  let fd := s32 (ret r) in
  if fd <? 0 then quit None name fd
  else
    xmodify (fun c => c <| file := name |> <| line := 1 |>);;
    read_loop fuel fd;;
    parse_finish.

(** [src/msh/msh.c: parse_str] *)
Definition parse_str (str : ptr) : M unit :=
  buf ← rd (fun m => cstr m str); parse buf;; parse_finish.

(** [src/msh/msh.c: parseopts] *)
Definition parseopts (str : ptr) : M Z :=
  c ← rd (fun m => ld8 m str);
  if c =? 0 then mret 0
  else if c =? 99 then mret 1
  else fatal (text "unknown options") str.

(** What [main] sets before it looks at its arguments. *)
Definition blank (ac : Z) (av : ptr) (m : mem) : sh :=
  Sh 0 0 2 (-1) (av + 8 * (ac + 1)) 0 0 0 0 0 0 0 0 0 0 0 0 0 m.

(** [src/msh/msh.c: main] *)
Definition main (fuel : nat) (ac : Z) (av : ptr) : M unit :=
  '(opts, i) ← (if 1 <? ac then
                  a ← rd (fun m => ld64 m (av + 8));
                  c ← rd (fun m => ld8 m a);
                  if c =? 45 then o ← parseopts (a + 1); mret (o, 2) else mret (0, 1)
                else mret (0, 1));
  if ac <=? i then fatal (text "script name required") 0
  else
    script ← rd (fun m => ld64 m (av + 8 * i));
    xmodify (fun c => c <| topargc := ac |> <| topargp := i + 1 |> <| topargv := av |>
                        <| customenvp := -1 |>);;
    heap_init;;
    if opts =? 0 then parse_file fuel script else parse_str script.

End msh.
