(* ===== verification/MshMem.v ===== *)
(** * src/msh: the layout of the memory

    The heap of msh is the list of the variables followed by the words of the
    command that is being parsed.  The operations of [Msh] on it, from what the
    layout is before to what it is after. *)
From stdpp Require Import strings.
From S2P Require Import Prelude Mem Str Fmt Parse Arr Sys Nlusctl Nlsock State Exits Cstr Util Msh.

(** ** Memory *)

(** Both memories have the same bytes from [lo] up to [hi]. *)
Definition agree (m m' : mem) (lo hi : Z) : Prop := forall a, lo <= a < hi -> m' !! a = m !! a.

Lemma agree_sub m m' lo hi lo' hi' : agree m m' lo hi -> lo <= lo' -> hi' <= hi -> agree m m' lo' hi'.
Proof. intros H ?? a Ha. apply H. lia. Qed.

Lemma agree_trans m1 m2 m3 lo hi : agree m1 m2 lo hi -> agree m2 m3 lo hi -> agree m1 m3 lo hi.
Proof. intros H1 H2 a Ha. by rewrite H2, H1. Qed.

Lemma agree_poke m p l lo hi : p + zlen l <= lo \/ hi <= p -> agree m (poke m p l) lo hi.
Proof. intros Hd a Ha. apply lookup_poke_out. lia. Qed.

Lemma agree_insert (m : mem) p b lo hi : ~ (lo <= p < hi) -> agree m (<[p := b]> m) lo hi.
Proof. intros Hd. apply (agree_poke m p [b]). simpl. lia. Qed.

Lemma bytes_at_agree m m' p l : agree m m' p (p + zlen l) -> bytes_at m p l -> bytes_at m' p l.
Proof.
  rewrite !bytes_at_zget. intros Ha H i b Hi. pose proof (zget_Some_lt _ _ _ Hi).
  rewrite Ha by lia. by apply H.
Qed.

Lemma cstr_at_agree m m' p s : agree m m' p (p + zlen s + 1) -> cstr_at m p s -> cstr_at m' p s.
Proof.
  intros Ha [Hb Hs]. split; [|done]. eapply bytes_at_agree; [|done].
  eapply agree_sub; [done|lia|]. rewrite length_app. simpl. lia.
Qed.

Lemma mapped_agree m m' p n : agree m m' p (p + n) -> mapped m p n -> mapped m' p n.
Proof. intros Ha H a Hr. rewrite Ha by done. by apply H. Qed.

Lemma ld32_spec m p v : bytes_at m p (le_bytes 4 v) -> ld32 m p = Some (u32 v).
Proof.
  intros H. unfold ld32. rewrite (proj2 (peek_Some m p 4 (le_bytes 4 v))) by (by rewrite length_le_bytes).
  cbn [fmap option_fmap option_map]. by rewrite le_value_bytes.
Qed.

Lemma ld64_spec m p v : bytes_at m p (le_bytes 8 v) -> ld64 m p = Some (u64 v).
Proof.
  intros H. unfold ld64. rewrite (proj2 (peek_Some m p 8 (le_bytes 8 v))) by (by rewrite length_le_bytes).
  cbn [fmap option_fmap option_map]. by rewrite le_value_bytes.
Qed.

Lemma stn_spec m p l : mapped m p (zlen l) -> stn m p l = Some (poke m p l).
Proof. intros H. unfold stn. by destruct (peek_mapped m p (length l) H) as [k ->]. Qed.

Lemma cstr_spec m p s : cstr_at m p s -> cstr m p = Some s.
Proof.
  intros H. unfold cstr. rewrite (strlen_spec _ _ s H). cbn [mbind option_bind]. rewrite Nat2Z.id.
  apply peek_Some. split; [done|]. destruct H as [H _]. by apply bytes_at_app in H as [H _].
Qed.

Lemma cstr_at_nonneg m p s b : cstr_at m p s -> b ∈ s ++ [0] -> 0 <= b < 256.
Proof.
  intros [_ Hs] [Hb|Hb%list_elem_of_singleton]%elem_of_app; [|lia].
  rewrite Forall_forall in Hs. specialize (Hs _ Hb). lia.
Qed.

Lemma str_bytes (s : list Z) : is_str s -> is_bytes s.
Proof. intros. eapply Forall_impl; [done|]. simpl. lia. Qed.

Lemma memcpy_spec m d s l n :
  n = zlen l -> is_bytes l -> bytes_at m s l -> mapped m d n -> d + n <= s \/ s + n <= d ->
  fst <$> memcpy m d s n = Some (poke m d l).
Proof.
  intros -> Hl Hs Hd Hap. unfold memcpy. rewrite Nat2Z.id.
  rewrite (memcpy_loop_spec (length l) m d s l); [done|done|by apply peek_Some|done|lia].
Qed.

(** ** The monad *)

Section rules.
Context `{HK : !Kern mcall} `{HL : !Locals}.
Context {F : Prop} {E : sh -> trace mcall -> Prop}.

Lemma xwp_rd {A} (f : mem -> option A) x c t (Q : A -> sh -> trace mcall -> Prop) :
  f (ram c) = Some x -> Q x c t -> xwpf F E (rd f) c t Q.
Proof. intros Hf HQ. unfold xwpf, rd. by rewrite Hf. Qed.

Lemma xwp_wr (f : mem -> option mem) m c t (Q : unit -> sh -> trace mcall -> Prop) :
  f (ram c) = Some m -> Q tt (c <| ram := m |>) t -> xwpf F E (wr f) c t Q.
Proof. intros Hf HQ. unfold xwpf, wr. by rewrite Hf. Qed.
End rules.

(** ** Variables *)

(** An entry of the list of variables: what it is good for, and its text, or the
    number of a string in the original environment. *)
Record ent := Ent { e_envp : bool; e_svar : bool; e_val : list Z + Z }.

Definition esize (x : ent) : Z :=
  match e_val x with inl s => align4 (env_size + zlen s + 1) | inr _ => env_size end.

Definition ekey (x : ent) : Z :=
  (if e_envp x then EV_ENVP else 0) + (if e_svar x then EV_SVAR else 0) +
  match e_val x with inl _ => esize x | inr i => EV_REF + i end.

(** Sizes and numbers are in range; [n] is the length of the environment. *)
Definition ent_ok (n : Z) (x : ent) : Prop :=
  match e_val x with
  | inl s => esize x <= EV_SIZE /\ is_str s
  | inr i => 0 <= i <= EV_SIZE /\ i < n
  end.

Definition ent_at (m : mem) (p : ptr) (x : ent) : Prop :=
  bytes_at m p (le_bytes 4 (ekey x)) /\
  match e_val x with inl s => cstr_at m (p + env_size) s | inr _ => True end.

Fixpoint tsize (l : list ent) : Z := match l with [] => 0 | x :: l => esize x + tsize l end.

Fixpoint ents_at (m : mem) (p : ptr) (l : list ent) : Prop :=
  match l with
  | [] => True
  | x :: l => ent_at m p x /\ ents_at m (p + esize x) l
  end.

Lemma align4_range n : n <= align4 n < n + 4.
Proof.
  unfold align4. pose proof (Z.div_mod (n + 3) 4 ltac:(lia)). pose proof (Z.mod_pos_bound (n + 3) 4 ltac:(lia)). lia.
Qed.

Lemma esize_bounds x :
  env_size <= esize x /\ match e_val x with inl s => env_size + zlen s + 1 <= esize x | inr _ => True end.
Proof.
  unfold esize, env_size. destruct (e_val x) as [s|i]; [|lia].
  pose proof (align4_range (4 + zlen s + 1)). lia.
Qed.

Lemma tsize_nonneg l : 0 <= tsize l.
Proof. induction l as [|x l IH]; simpl; [lia|]. pose proof (esize_bounds x). unfold env_size in *. lia. Qed.

Lemma tsize_app l k : tsize (l ++ k) = tsize l + tsize k.
Proof. induction l as [|x l IH]; simpl; lia. Qed.

Lemma ent_at_agree m m' p x : agree m m' p (p + esize x) -> ent_at m p x -> ent_at m' p x.
Proof.
  intros Ha [Hk Hv]. pose proof (esize_bounds x) as [Hs Hs']. unfold env_size in *. split.
  - eapply bytes_at_agree; [|done]. rewrite length_le_bytes. eapply agree_sub; [done|lia|simpl; lia].
  - destruct (e_val x); [|done]. eapply cstr_at_agree; [|done]. unfold env_size.
    eapply agree_sub; [done|lia|lia].
Qed.

Lemma ents_at_agree m m' p l : agree m m' p (p + tsize l) -> ents_at m p l -> ents_at m' p l.
Proof.
  revert p. induction l as [|x l IH]; intros p Ha H; simpl in *; [done|]. destruct H as [Hx Hl].
  pose proof (esize_bounds x). pose proof (tsize_nonneg l). unfold env_size in *. split.
  - eapply ent_at_agree; [|done]. eapply agree_sub; [done|lia|lia].
  - apply IH; [|done]. eapply agree_sub; [done|lia|lia].
Qed.

Lemma ents_at_app m p l k : ents_at m p (l ++ k) <-> ents_at m p l /\ ents_at m (p + tsize l) k.
Proof.
  revert p. induction l as [|x l IH]; intros p; simpl; [by rewrite Z.add_0_r; tauto|].
  rewrite IH. replace (p + esize x + tsize l) with (p + (esize x + tsize l)) by lia. tauto.
Qed.

Lemma ents_at_lookup m p l i x :
  ents_at m p l -> l !! i = Some x -> ent_at m (p + tsize (take i l)) x.
Proof.
  intros H Hi. rewrite <- (take_drop_middle _ _ _ Hi) in H. apply ents_at_app in H as [_ [H _]]. done.
Qed.

(** Which entries a walk over the list visits.  [env_next] compares what is left
    with the size of the entry before: the walk ends early where less is left
    than that. *)
Fixpoint zsum (zs : list Z) : Z := match zs with [] => 0 | z :: zs => z + zsum zs end.

Fixpoint nseen_from (prev : Z) (zs : list Z) : nat :=
  match zs with
  | [] => O
  | z :: zs => if prev <=? z + zsum zs then S (nseen_from z zs) else O
  end.
Definition nseen (l : list ent) : nat :=
  match esize <$> l with [] => O | z :: zs => S (nseen_from z zs) end.

(** The variables that can be found. *)
Definition seen (l : list ent) : list ent := take (nseen l) l.

Lemma tsize_zsum l : tsize l = zsum (esize <$> l).
Proof. induction l as [|x l IH]; simpl; [done|]. by rewrite IH. Qed.

Lemma nseen_from_step prev zs i :
  (i < nseen_from prev zs)%nat ->
  (exists z, zs !! i = Some z /\
   ((S i < nseen_from prev zs)%nat <-> (S i < length zs)%nat /\ z <= zsum (drop (S i) zs))).
Proof.
  revert prev i. induction zs as [|z zs IH]; intros prev i Hi; simpl in *; [lia|].
  destruct (prev <=? z + zsum zs); [|lia]. destruct i as [|i].
  - exists z. split; [done|]. destruct zs as [|y zs]; simpl; [lia|].
    destruct (Z.leb_spec z (y + zsum zs)); split; lia.
  - destruct (IH z i ltac:(lia)) as (y & Hy & H). exists y. split; [done|]. simpl.
    rewrite <- Nat.succ_lt_mono, H. simpl. split; intros [? ?]; (split; [lia|done]).
Qed.

(** When the walk goes on after entry [i]. *)
Lemma nseen_step l i x :
  (i < nseen l)%nat -> l !! i = Some x ->
  (S i < nseen l)%nat <-> (S i < length l)%nat /\ esize x <= tsize (drop (S i) l).
Proof.
  unfold nseen. intros Hi Hx. rewrite tsize_zsum, fmap_drop, <- (length_fmap esize l).
  assert ((esize <$> l) !! i = Some (esize x)) as Hz by (by rewrite list_lookup_fmap, Hx).
  destruct (esize <$> l) as [|z zs]; [simpl in Hi; lia|]. destruct i as [|i].
  - injection Hz as ->. simpl. destruct zs as [|y zs]; simpl; [lia|].
    destruct (Z.leb_spec (esize x) (y + zsum zs)); split; lia.
  - destruct (nseen_from_step z zs i ltac:(lia)) as (y & Hy & H). simpl in Hz. simplify_eq.
    simpl. rewrite <- Nat.succ_lt_mono, H. simpl. split; intros [? ?]; (split; [lia|done]).
Qed.

Lemma nseen_from_length prev zs : (nseen_from prev zs <= length zs)%nat.
Proof.
  revert prev. induction zs as [|z zs IH]; intros prev; simpl; [lia|]. case_match; [|lia].
  specialize (IH z). lia.
Qed.

Lemma nseen_length l : (nseen l <= length l)%nat.
Proof.
  unfold nseen. rewrite <- (length_fmap esize l). destruct (esize <$> l) as [|z zs]; simpl; [lia|].
  pose proof (nseen_from_length z zs). lia.
Qed.

Lemma tsize_length l : env_size * zlen l <= tsize l.
Proof. unfold env_size. induction l as [|x l IH]; simpl; [lia|]. pose proof (esize_bounds x) as [? _]. unfold env_size in *. lia. Qed.

(** What the bits of a key are: 16 of a number, and the flags above them. *)
Definition klow (x : ent) : Z := match e_val x with inl _ => esize x | inr i => i end.
Definition kref (x : ent) : bool := match e_val x with inl _ => false | inr _ => true end.
Definition kflags (x : ent) : Z := Z.b2z (e_envp x) + 2 * Z.b2z (e_svar x) + 256 * Z.b2z (kref x).

Lemma ekey_split n x :
  ent_ok n x -> 0 <= klow x < 2 ^ 16 /\ ekey x = klow x + 2 ^ 16 * kflags x.
Proof.
  intros Hok. pose proof (esize_bounds x) as [? _].
  unfold ent_ok, ekey, klow, kflags, kref, EV_ENVP, EV_SVAR, EV_REF, EV_SIZE, env_size in *.
  split; [destruct (e_val x); lia|]. destruct (e_val x), (e_envp x), (e_svar x); simpl Z.b2z; lia.
Qed.

Lemma land_split a b c d :
  0 <= a < 2 ^ 16 -> 0 <= c < 2 ^ 16 ->
  Z.land (a + 2 ^ 16 * b) (c + 2 ^ 16 * d) = Z.land a c + 2 ^ 16 * Z.land b d.
Proof.
  intros Ha Hc.
  assert (forall x y, 0 <= x < 2 ^ 16 -> x + 2 ^ 16 * y = Z.lor (Z.shiftl y 16) x) as Hlor.
  { intros x y Hx. rewrite (lor_disjoint _ _ 16); [|lia|rewrite Z.shiftl_mul_pow2 by lia; apply Z.mod_mul; lia|done].
    rewrite Z.shiftl_mul_pow2 by lia. lia. }
  assert (forall x y, 0 <= x < 2 ^ 16 -> Z.land x (Z.shiftl y 16) = 0) as H0.
  { intros x y Hx. apply Z.bits_inj'. intros i Hi. rewrite Z.land_spec, Z.bits_0.
    destruct (decide (i < 16)); [rewrite Z.shiftl_spec_low by lia; by rewrite andb_false_r|].
    rewrite <- (Z.mod_small x (2 ^ 16)) by lia. by rewrite Z.mod_pow2_bits_high by lia. }
  assert (0 <= Z.land a c < 2 ^ 16) as Hr.
  { rewrite <- (Z.mod_small c (2 ^ 16)) by lia. change (2 ^ 16) with (2 ^ 16) at 1.
    rewrite <- Z.land_ones, Z.land_assoc, Z.land_ones by lia. apply Z.mod_pos_bound. lia. }
  rewrite !Hlor by done. rewrite Z.land_lor_distr_l, !Z.land_lor_distr_r.
  rewrite (H0 a d Ha), (Z.land_comm (Z.shiftl b 16) c), (H0 c b Hc), Z.lor_0_r, Z.lor_0_l.
  by rewrite <- Z.shiftl_land.
Qed.

Lemma kflags_range x : 0 <= kflags x < 2 ^ 9.
Proof. unfold kflags. destruct (e_envp x), (e_svar x), (kref x); simpl; lia. Qed.

Lemma ekey_bits n x :
  ent_ok n x ->
  0 <= ekey x < 2 ^ 32 /\
  has (ekey x) EV_ENVP = e_envp x /\ has (ekey x) EV_SVAR = e_svar x /\
  has (ekey x) EV_REF = kref x /\ Z.land (ekey x) EV_SIZE = klow x.
Proof.
  intros Hok. destruct (ekey_split n x Hok) as [Hlow ->]. pose proof (kflags_range x). split; [lia|].
  assert (forall k, Z.land (klow x + 2 ^ 16 * kflags x) (2 ^ 16 * k) = 2 ^ 16 * Z.land (kflags x) k) as Hb.
  { intros k. pose proof (land_split (klow x) (kflags x) 0 k Hlow ltac:(lia)) as Hs.
    by rewrite Z.land_0_r, !Z.add_0_l in Hs. }
  unfold has, EV_ENVP, EV_SVAR, EV_REF, EV_SIZE.
  change (2 ^ 17) with (2 ^ 16 * 2). change (2 ^ 24) with (2 ^ 16 * 256). rewrite <- (Z.mul_1_r (2 ^ 16)) at 2.
  rewrite !Hb. unfold kflags.
  split; [by destruct (e_envp x), (e_svar x), (kref x)|].
  split; [by destruct (e_envp x), (e_svar x), (kref x)|].
  split; [by destruct (e_envp x), (e_svar x), (kref x)|].
  change 0xFFFF with (Z.ones 16 + 2 ^ 16 * 0). rewrite land_split by (done || simpl; lia).
  rewrite Z.land_0_r, Z.land_ones, Z.mod_small by lia. lia.
Qed.

(** The key without some of the flags. *)
Lemma ekey_clear n x mask x' :
  ent_ok n x -> 0 <= mask < 4 -> e_val x' = e_val x ->
  Z.land (kflags x) (2 ^ 16 - 1 - mask) = kflags x' ->
  Z.land (ekey x) (2 ^ 32 - 1 - 2 ^ 16 * mask) = ekey x'.
Proof.
  intros Hok Hm Hval Hf. destruct (ekey_split n x Hok) as [Hlow ->].
  assert (ent_ok n x') as Hok' by (unfold ent_ok, esize in *; by rewrite Hval).
  destruct (ekey_split n x' Hok') as [_ ->].
  replace (2 ^ 32 - 1 - 2 ^ 16 * mask) with (Z.ones 16 + 2 ^ 16 * (2 ^ 16 - 1 - mask)) by (change (Z.ones 16) with 65535; lia).
  rewrite land_split by (done || simpl; lia). rewrite Z.land_ones, Z.mod_small, Hf by lia.
  unfold klow, esize. by rewrite Hval.
Qed.

(** ** The kernel and the memory msh starts with *)

(** What the heap is limited to.  With 2^28 words in a command the size of [argv]
    would not fit an [int] any more. *)
Definition LIM : Z := 2 ^ 27.

(** Where the break was last. *)
Definition brk_now (t : trace mcall) : Z :=
  foldl (fun b x => match x.1 with Brk _ => u64 (ret x.2) | _ => b end) 0 t.

(** The system call [brk]: the break stays in a window of the address space, and
    it moves where it is asked to, or not up. *)
Class BrkKern (base : Z) `{!Kern mcall} : Prop := {
  brk_window : 4096 <= base /\ base + LIM < 2 ^ 47;
  brk_range t a : base <= u64 (ret (kern t (Brk a))) < base + LIM;
  brk_moves t a : base <= brk_now t ->
    u64 (ret (kern t (Brk a))) = a \/ u64 (ret (kern t (Brk a))) <= brk_now t }.

(** The calls other than the management of memory, with the replies. *)
Definition visible (t : trace mcall) : trace mcall :=
  List.filter (fun x => match x.1 with Brk _ => false | _ => true end) t.

Section layout.
Context (base : Z) (m0 : mem).

(** Not in the window of the heap. *)
Definition outside (p n : Z) : Prop := p + n <= base \/ base + LIM <= p.

(** A string, an array of pointers of the memory msh starts with. *)
Definition ostring (p : ptr) (s : list Z) : Prop :=
  0 < p < 2 ^ 64 /\ cstr_at m0 p s /\ outside p (zlen s + 1) /\ zlen s < LIM.
Definition oarray (pp : ptr) (l : list ptr) : Prop :=
  bytes_at m0 pp (l ≫= le_bytes 8) /\ outside pp (8 * zlen l).

(** The arguments and the environment msh was started with. *)
Record world := World {
  w_argv : ptr; w_args : list (ptr * list Z);
  w_env : ptr; w_vars : list (ptr * list Z) }.

Record world_ok (w : world) : Prop := {
  wo_argv : oarray (w_argv w) ((w_args w).*1 ++ [0]);
  wo_args : Forall (fun x => ostring x.1 x.2) (w_args w);
  wo_env : oarray (w_env w) ((w_vars w).*1 ++ [0]);
  wo_vars : Forall (fun x => ostring x.1 x.2) (w_vars w);
  wo_sizes : zlen (w_args w) < 2 ^ 20 /\ zlen (w_vars w) < 2 ^ 20 }.

Context (w : world).

(** What the variables that do not change say of the world. *)
Record rooted (c : sh) : Prop := {
  rt_argc : topargc c = zlen (w_args w);
  rt_argp : 0 <= topargp c <= topargc c;
  rt_argv : topargv c = w_argv w;
  rt_env : environ c = w_env w;
  rt_file : file c = 0 \/ exists s, ostring (file c) s }.

(** The heap: mapped from its start to the break, and nothing else was changed
    outside of its window. *)
Record layout (c : sh) (t : trace mcall) : Prop := {
  ly_rooted : rooted c;
  ly_order : base <= heap c <= asep c /\ asep c <= hptr c <= hend c /\ hend c < base + LIM;
  ly_brk : brk_now t = hend c;
  ly_mapped : mapped (ram c) (heap c) (hend c - heap c);
  ly_out a : ~ (base <= a < base + LIM) -> ram c !! a = m0 !! a }.

(** The list of the variables is [l]. *)
Definition vars (l : list ent) (c : sh) : Prop :=
  ents_at (ram c) (heap c) l /\ asep c = heap c + tsize l /\ Forall (ent_ok (zlen (w_vars w))) l.

(** The bytes between the variables and the free part of the heap are [a]. *)
Definition area (a : list Z) (c : sh) : Prop :=
  bytes_at (ram c) (asep c) a /\ hptr c = asep c + zlen a.

(** [c'] is [c] with a longer heap. *)
Record grew (c c' : sh) : Prop := {
  gr_eq : c' = c <| hend := hend c' |> <| ram := ram c' |>;
  gr_hend : hend c <= hend c';
  gr_ram : agree (ram c) (ram c') 0 (hend c) }.

Lemma outside_agree c t p n : layout c t -> outside p n -> agree m0 (ram c) p (p + n).
Proof. intros Hl Ho a Ha. apply (ly_out _ _ Hl). unfold outside in Ho. lia. Qed.

Lemma ostring_at c t p s : layout c t -> ostring p s -> cstr_at (ram c) p s.
Proof.
  intros Hl (Hp & Hs & Ho & _). eapply cstr_at_agree; [|done]. rewrite <- Z.add_assoc.
  by eapply outside_agree.
Qed.

Lemma bytes_at_bind8 m pp l i p :
  bytes_at m pp (l ≫= le_bytes 8) -> l !! i = Some p -> bytes_at m (pp + 8 * Z.of_nat i) (le_bytes 8 p).
Proof.
  revert pp i. induction l as [|q l IH]; intros pp i Hb Hi; [done|]. rewrite bind_cons in Hb.
  apply bytes_at_app in Hb as [Hq Hb]. rewrite length_le_bytes in Hb. destruct i as [|i]; simpl in Hi.
  - injection Hi as ->. by rewrite Z.add_0_r.
  - replace (pp + 8 * Z.of_nat (S i)) with (pp + Z.of_nat 8 + 8 * Z.of_nat i) by lia. by apply IH.
Qed.

Lemma length_bind8 (l : list ptr) : zlen (l ≫= le_bytes 8) = 8 * zlen l.
Proof.
  induction l as [|x l IH]; [done|]. rewrite bind_cons, length_app, length_le_bytes. rewrite Nat2Z.inj_add, IH. simpl length. lia.
Qed.

Lemma oarray_at c t pp l i p :
  layout c t -> oarray pp l -> l !! i = Some p -> 0 <= p < 2 ^ 64 ->
  ld64 (ram c) (pp + 8 * Z.of_nat i) = Some p.
Proof.
  intros Hl [Hb Ho] Hi Hp. pose proof (lookup_lt_Some _ _ _ Hi).
  rewrite (ld64_spec _ _ p); [f_equal; by apply uwrap_small|].
  eapply bytes_at_agree; [|by eapply bytes_at_bind8]. rewrite length_le_bytes.
  eapply (outside_agree c t); [done|]. unfold outside in *. lia.
Qed.

Lemma grew_refl c : grew c c.
Proof. split; [by destruct c|lia|by intros a Ha]. Qed.

Lemma brk_now_snoc t x : brk_now (t ++ [x]) = match x.1 with Brk _ => u64 (ret x.2) | _ => brk_now t end.
Proof. unfold brk_now. by rewrite foldl_app. Qed.

Lemma visible_app t u : visible (t ++ u) = visible t ++ visible u.
Proof. apply List.filter_app. Qed.

Lemma visible_snoc t x : visible (t ++ [x]) = visible t ++ match x.1 with Brk _ => [] | _ => [x] end.
Proof.
  unfold visible. rewrite List.filter_app. f_equal. simpl. by destruct (x.1).
Qed.

Lemma rooted_grew c c' : grew c c' -> rooted c -> rooted c'.
Proof. intros [-> _ _] []. by split. Qed.
End layout.

(** ** Operations on the heap *)

Section heap.
Context `{HK : !Kern mcall} `{HL : !Locals}.
Context (base : Z) (m0 : mem) (w : world) `{HB : !BrkKern base}.
Context {F : Prop} {E : sh -> trace mcall -> Prop}.

Abbreviation layout := (layout base m0 w).

(** The end of a run with an error message, where that is allowed. *)
Definition ends (c : sh) (t : trace mcall) (err arg : option (list Z)) (r : Z) : Prop :=
  forall f r1 r2, E c (t ++ [(Report (errfd c) f (line c) err arg r, r1); (Exit 255, r2)]).

Definition oom (c : sh) (t : trace mcall) : Prop :=
  forall c' t', errfd c' = errfd c -> line c' = line c -> visible t' = visible t ->
    ends c' t' (Some (text "cannot allocate memory")) None 0.

Lemma ostr_null m : ostr m 0 = Some None.
Proof. done. Qed.

Lemma ostr_str m p s : p <> 0 -> cstr_at m p s -> ostr m p = Some (Some s).
Proof. intros Hp Hs. unfold ostr. destruct (Z.eqb_spec p 0); [done|]. by rewrite (cstr_spec _ _ _ Hs). Qed.

(** The name of the script can be read. *)
Definition readable (c : sh) : Prop := exists f, ostr (ram c) (file c) = Some f.

Lemma layout_readable c t : layout c t -> readable c.
Proof.
  intros Hl. unfold readable. destruct (rt_file _ _ _ _ (ly_rooted _ _ _ _ _ Hl)) as [->|(s & Hs)]; [by eexists|].
  exists (Some s). apply ostr_str; [destruct Hs; lia|]. by eapply ostring_at.
Qed.

Lemma error_l_wp {A} err arg r c t (Q : A -> sh -> trace mcall -> Prop) :
  readable c -> ends c t err arg r -> xwpf F E (error_l err arg r) c t Q.
Proof.
  intros [f Hf] HE. unfold error_l, report, exit_fail. xwp_steps.
  eapply xwp_rd; [exact Hf|]. xwp_steps. rewrite <- app_assoc. apply HE.
Qed.

Lemma error_wp {A} err p arg r c t (Q : A -> sh -> trace mcall -> Prop) :
  readable c -> ostr (ram c) p = Some arg -> ends c t err arg r -> xwpf F E (error err p r) c t Q.
Proof. intros Hl Hp HE. unfold error. xwp_step. eapply xwp_rd; [exact Hp|]. by apply error_l_wp. Qed.

Lemma fatal_wp {A} err p arg c t (Q : A -> sh -> trace mcall -> Prop) :
  readable c -> ostr (ram c) p = Some arg -> ends c t (Some err) arg 0 -> xwpf F E (fatal err p) c t Q.
Proof. intros Hl Hp HE. unfold fatal. xwp_step. eapply xwp_rd; [exact Hp|]. by apply error_l_wp. Qed.

Lemma brk_error_spec e r : 0 <= e < 2 ^ 62 -> 0 <= r < 2 ^ 62 -> brk_error e r = if r <=? e then -22 else 0.
Proof.
  intros He Hr. unfold brk_error, mmap_error. rewrite !s64_small by lia.
  destruct (Z.leb_spec 0 e); [|lia]. destruct (Z.leb_spec 0 r); [|lia]. done.
Qed.

Lemma grown_layout c t a r :
  layout c t -> hend c < a < base + LIM -> u64 (ret r) = a ->
  layout (grown (hend c) a c) (t ++ [(Brk a, r)]) /\ grew c (grown (hend c) a c).
Proof.
  intros [Hr Ho Hb Hm Hx] Ha Hra. set (n := Z.to_nat (a - hend c)).
  assert (zlen (junk n) = a - hend c) as Hj by (rewrite junk_length; lia).
  split; [split|split]; unfold grown; fold n.
  - by destruct Hr; split.
  - simpl. lia.
  - by rewrite brk_now_snoc.
  - intros b Hr'. simpl in *. rewrite lookup_poke, Hj. case_decide.
    + apply zget_lt_is_Some. rewrite Hj. lia.
    + apply Hm. lia.
  - intros b Hb'. simpl. rewrite lookup_poke_out by (rewrite Hj; lia). by apply Hx.
  - done.
  - simpl. lia.
  - simpl. apply agree_poke. lia.
Qed.

(** A request for memory: either it is granted, or the run ends. *)
Lemma grow_wp c t a (Q : unit -> sh -> trace mcall -> Prop) :
  layout c t -> oom c t ->
  (a < base + LIM -> hend c < a -> forall c' t', c' = grown (hend c) a c -> layout c' t' -> grew c c' ->
     visible t' = visible t -> Q tt c' t') ->
  xwpf F E (new ← sys_brk a;
            if negb (brk_error (hend c) new =? 0) then fatal (text "cannot allocate memory") 0
            else xmodify (grown (hend c) new)) c t Q.
Proof.
  intros Hl HE HQ. unfold sys_brk. apply xwp_bind, xwp_bind, xwp_call, xwp_ret.
  pose proof (brk_range t a) as Hr. destruct (brk_window (base := base)) as [Hw1 Hw2].
  destruct (ly_order _ _ _ _ _ Hl) as (? & ? & ?). unfold LIM in *.
  rewrite brk_error_spec by lia. apply xwp_if; intros Hle; destruct (Z.leb_spec (u64 (ret (kern t (Brk a)))) (hend c)); try done.
  - eapply fatal_wp; [by eapply layout_readable|apply ostr_null|].
    intros f r1 r2. apply HE; [done..|]. by rewrite visible_snoc, app_nil_r.
  - pose proof (ly_brk _ _ _ _ _ Hl) as Hnow.
    destruct (brk_moves t a) as [Hmv|Hmv]; [lia| |lia]. rewrite Hmv in *.
    apply xwp_modify. destruct (grown_layout c t a (kern t (Brk a)) Hl ltac:(unfold LIM; lia) Hmv) as [Hl' Hg].
    apply HQ; [lia|lia|done|done|done|]. by rewrite visible_snoc, app_nil_r.
Qed.

(** [c'] is [c] but for the memory and the end of the part in use. *)
Definition same (c c' : sh) : Prop :=
  c' = c <| hptr := hptr c' |> <| hend := hend c' |> <| ram := ram c' |>.

(** The layout with its contents. *)
Record held (l : list ent) (a : list Z) (c : sh) (t : trace mcall) : Prop := {
  hd_layout : layout c t;
  hd_vars : vars w l c;
  hd_area : area a c }.

Lemma same_refl c : same c c.
Proof. by destruct c. Qed.

Lemma same_trans c c' c'' : same c c' -> same c' c'' -> same c c''.
Proof. unfold same. intros -> ->. by destruct c. Qed.

Lemma grew_same c c' : grew c c' -> same c c'.
Proof. intros [-> _ _]. by destruct c. Qed.

Lemma vars_agree l c c' :
  0 <= heap c -> heap c' = heap c -> asep c' = asep c -> agree (ram c) (ram c') 0 (asep c) ->
  vars w l c -> vars w l c'.
Proof.
  intros H0 Hh Ha Hm (He & Hs & Hok). split; [|split; [by rewrite Ha, Hh|done]]. rewrite Hh.
  eapply ents_at_agree; [|done]. eapply agree_sub; [done|lia|lia].
Qed.

Lemma held_grew l a c t c' t' : held l a c t -> grew c c' -> layout c' t' -> held l a c' t'.
Proof.
  intros [Hl Hv [Hb Hp]] Hg Hl'. pose proof (ly_order _ _ _ _ _ Hl) as (? & ? & ?).
  destruct (brk_window (base := base)) as [Hw _].
  destruct Hg as [Heq He Hr]. split; [done| |].
  - apply (vars_agree l c); [lia|by rewrite Heq|by rewrite Heq| |done]. eapply agree_sub; [done|lia|lia].
  - unfold area. replace (asep c') with (asep c) by (by rewrite Heq).
    replace (hptr c') with (hptr c) by (by rewrite Heq). split; [|done].
    eapply bytes_at_agree; [|done]. eapply agree_sub; [done|lia|lia].
Qed.

Lemma heap_extend_wp c t (Q : unit -> sh -> trace mcall -> Prop) :
  layout c t -> oom c t ->
  (forall c' t', layout c' t' -> grew c c' -> visible t' = visible t -> hend c < hend c' -> Q tt c' t') ->
  xwpf F E heap_extend c t Q.
Proof.
  intros Hl HE HQ. unfold heap_extend. xwp_steps.
  pose proof (ly_order _ _ _ _ _ Hl) as (? & ? & ?). destruct (brk_window (base := base)) as [Hw1 Hw2].
  unfold LIM in *. rewrite u64_small by (unfold PAGE; lia).
  apply grow_wp; [done|done|]. intros _ Hlt c' t' -> Hl' Hg Ht. by apply HQ.
Qed.

Lemma pagealign_spec n : 0 <= n < 2 ^ 31 -> n <= pagealign n < n + PAGE.
Proof.
  intros Hn. unfold pagealign, PAGE. rewrite u64_small by lia.
  assert (2 ^ 64 - 4096 = Z.shiftl (Z.ones 52) 12) as -> by reflexivity.
  rewrite (Z.div_mod (n + 4096 - 1) 4096) at 1 2 by lia.
  assert (forall x, 0 <= x < 2 ^ 63 -> Z.land x (Z.shiftl (Z.ones 52) 12) = 4096 * (x / 4096)) as Hland.
  { intros x Hx. apply Z.bits_inj'. intros i Hi. rewrite Z.land_spec.
    replace (4096 * (x / 4096)) with (Z.shiftl (Z.shiftr x 12) 12)
      by (rewrite Z.shiftl_mul_pow2, Z.shiftr_div_pow2 by lia; change (2 ^ 12) with 4096; lia).
    destruct (decide (i < 12)).
    - rewrite !Z.shiftl_spec_low by lia. by rewrite andb_false_r.
    - rewrite !Z.shiftl_spec, Z.shiftr_spec by lia. replace (i - 12 + 12) with i by lia.
      destruct (decide (i < 64)); [rewrite Z.ones_spec_low by lia; by rewrite andb_true_r|].
      rewrite Z.ones_spec_high by lia. rewrite andb_false_r.
      rewrite <- (Z.mod_small x (2 ^ 64)) by lia. by rewrite Z.mod_pow2_bits_high by lia. }
  rewrite <- (Z.div_mod (n + 4096 - 1) 4096) by lia. rewrite Hland by lia.
  pose proof (Z.div_mod (n + 4096 - 1) 4096 ltac:(lia)).
  pose proof (Z.mod_pos_bound (n + 4096 - 1) 4096 ltac:(lia)). lia.
Qed.

Lemma heap_alloc_wp l a c t len (Q : ptr -> sh -> trace mcall -> Prop) :
  held l a c t -> oom c t -> 0 <= len < 2 ^ 31 ->
  (forall c' t', layout c' t' -> vars w l c' -> bytes_at (ram c') (asep c') a ->
     hptr c' = hptr c + len -> same c c' -> agree (ram c) (ram c') 0 (hptr c) ->
     visible t' = visible t -> Q (hptr c) c' t') ->
  xwpf F E (heap_alloc len) c t Q.
Proof.
  intros Hd HE Hlen HQ. pose proof (hd_layout _ _ _ _ Hd) as Hl.
  pose proof (ly_order _ _ _ _ _ Hl) as (? & ? & ?). destruct (brk_window (base := base)) as [Hw1 Hw2].
  unfold LIM in *. unfold heap_alloc. do 4 xwp_step. cbv beta zeta. apply xwp_bind.
  assert (forall c' t', layout c' t' -> grew c c' -> visible t' = visible t -> hptr c + len <= hend c' ->
    xwpf F E (xmodify (fun x => x <| hptr := hptr c + len |>);; mret (hptr c)) c' t' Q) as Hgo.
  { intros c' t' Hl' Hg Ht He. xwp_steps. pose proof (ly_order _ _ _ _ _ Hl'). pose proof (held_grew _ _ _ _ _ _ Hd Hg Hl') as [_ Hv [Hb Hp]].
    assert (hptr c' = hptr c) by (by rewrite (gr_eq _ _ Hg)).
    apply HQ; [|by apply (vars_agree l c'); simpl; [lia|done..|]|done|done| | |done].
    - destruct Hl' as [[] ? ? ? ?]. split; [by split|simpl in *; lia|done|done|done].
    - destruct Hg as [-> _ _]. by destruct c.
    - eapply agree_sub; [exact (gr_ram _ _ Hg)|lia|lia]. }
  apply xwp_if; intros Hle; zbool.
  { xwp_step. apply Hgo; [done|by apply grew_refl|done|lia]. }
  pose proof (pagealign_spec (hptr c + len - hend c) ltac:(lia)). set (need := pagealign _) in *.
  unfold PAGE in *. destruct (decide (need < 2 ^ 31)).
  - rewrite s32_small by lia. rewrite u64_small by lia. apply (grow_wp c t); [done|done|].
    intros _ _ c' t' -> Hl' Hg Ht. apply Hgo; [done|done|done|simpl; lia].
  - assert (s32 need = need - 2 ^ 32) as ->.
    { unfold swrap. change (32 - 1) with 31. rewrite <- (Z.mod_add _ (-1)) by lia.
      rewrite Z.mod_small by lia. lia. }
    apply (grow_wp c t); [done|done|]. unfold LIM. intros Hlt Hgt. exfalso. revert Hlt Hgt.
    destruct (decide (0 <= hend c + (need - 2 ^ 32))); [rewrite u64_small by lia; lia|].
    unfold uwrap. rewrite <- (Z.mod_add _ 1) by lia. rewrite Z.mod_small by lia. lia.
Qed.

(** A store into the used part of the heap, and the new end of that part. *)
Lemma held_store l a b c t :
  held l a c t -> hptr c + zlen b <= hend c ->
  held l (a ++ b) (c <| ram := poke (ram c) (hptr c) b |> <| hptr := hptr c + zlen b |>) t.
Proof.
  intros [Hl Hv [Hb Hp]] Hroom. pose proof (ly_order _ _ _ _ _ Hl) as (? & ? & ?).
  destruct (brk_window (base := base)) as [Hw _]. split.
  - destruct Hl as [[] ? ? ? ?]. split; [by split|simpl in *; lia|done| |].
    + simpl. by apply mapped_poke.
    + intros x Hx. simpl. rewrite lookup_poke_out by lia. by apply ly_out0.
  - apply (vars_agree l c); simpl; [lia|done|done| |done]. apply agree_poke. lia.
  - split; simpl; [|rewrite length_app; lia]. apply bytes_at_app. split.
    + eapply bytes_at_agree; [|done]. apply agree_poke. lia.
    + rewrite <- Hp. apply bytes_at_poke.
Qed.

Lemma push_char_wp l a c t ch (Q : unit -> sh -> trace mcall -> Prop) :
  held l a c t -> 0 <= ch < 256 -> oom c t ->
  (forall c' t', held l (a ++ [ch]) c' t' -> same c c' -> visible t' = visible t -> Q tt c' t') ->
  xwpf F E (push_char ch) c t Q.
Proof.
  intros Hd Hch HE HQ. pose proof (hd_layout _ _ _ _ Hd) as Hl.
  pose proof (ly_order _ _ _ _ _ Hl) as (? & ? & ?). unfold push_char. do 4 xwp_step.
  assert (forall c' t', held l a c' t' -> same c c' -> hptr c' = hptr c -> visible t' = visible t -> hptr c < hend c' ->
    xwpf F E (wr (fun m => st8 m (hptr c) ch);; xmodify (fun x => x <| hptr := hptr c + 1 |>)) c' t' Q) as Hgo.
  { intros c' t' Hd' Hs Hp Ht Hlt. pose proof (hd_layout _ _ _ _ Hd') as Hl'.
    pose proof (ly_order _ _ _ _ _ Hl') as (? & ? & ?). xwp_step.
    eapply xwp_wr; [apply st8_mapped; apply (ly_mapped _ _ _ _ _ Hl'); lia|]. apply xwp_modify.
    rewrite u8_byte by done.
    pose proof (held_store l a [ch] c' t' Hd' ltac:(simpl; lia)) as Hd2. rewrite Hp in Hd2.
    apply HQ; [done| |done]. unfold same in *. rewrite Hs. by destruct c. }
  apply xwp_bind, xwp_when; intros Hle; zbool.
  - apply heap_extend_wp; [done|done|]. intros c' t' Hl' Hg Ht Hlt.
    apply Hgo; [by eapply held_grew|by apply grew_same|by rewrite (gr_eq _ _ Hg)|done|lia].
  - apply Hgo; [done|apply same_refl|done|done|lia].
Qed.

(** ** Walks over the variables *)

Lemma ekey_key m p n x : ent_ok n x -> ent_at m p x -> ld32 m p = Some (ekey x) /\ key_size (ekey x) = esize x.
Proof.
  intros Hok [Hk _]. destruct (ekey_bits n x Hok) as (Hr & _ & _ & Href & Hsz). split.
  - rewrite (ld32_spec _ _ _ Hk). f_equal. apply u32_small. lia.
  - unfold key_size. rewrite Href, Hsz. unfold kref, klow, esize. by destruct (e_val x).
Qed.

Lemma vars_lookup l c i x :
  vars w l c -> l !! i = Some x ->
  ent_ok (zlen (w_vars w)) x /\ ent_at (ram c) (heap c + tsize (take i l)) x /\
  tsize l = tsize (take i l) + esize x + tsize (drop (S i) l).
Proof.
  intros (He & Hs & Hok) Hi. split; [by eapply Forall_lookup_1|]. split; [by eapply ents_at_lookup|].
  rewrite <- (take_drop_middle _ _ _ Hi) at 1. rewrite tsize_app. simpl. lia.
Qed.

Lemma env_first_wp l c t (Q : ptr -> sh -> trace mcall -> Prop) :
  layout c t -> vars w l c ->
  Q (match l with [] => 0 | _ => heap c end) c t -> xwpf F E env_first c t Q.
Proof.
  intros Hl Hv HQ. pose proof Hv as (He & Hs & Hok). unfold env_first. do 4 xwp_step.
  destruct l as [|x l]; simpl tsize in Hs.
  { rewrite (proj2 (Z.ltb_lt _ _)) by (unfold env_size; lia). by xwp_step. }
  pose proof (esize_bounds x) as [Hx _]. pose proof (tsize_nonneg l).
  rewrite (proj2 (Z.ltb_ge _ _)) by lia. xwp_step.
  destruct (vars_lookup _ _ 0 x Hv eq_refl) as (Hxok & Hat & _). simpl in Hat. rewrite Z.add_0_r in Hat.
  destruct (ekey_key _ _ _ _ Hxok Hat) as [Hk Hz]. eapply xwp_rd; [exact Hk|]. cbv zeta. rewrite Hz.
  rewrite (proj2 (Z.ltb_ge _ _)) by lia. rewrite (proj2 (Z.ltb_ge _ _)) by lia. by xwp_step.
Qed.

Lemma env_next_wp l c t i x (Q : ptr -> sh -> trace mcall -> Prop) :
  layout c t -> vars w l c -> (i < nseen l)%nat -> l !! i = Some x ->
  Q (if decide (S i < nseen l)%nat then heap c + tsize (take (S i) l) else 0) c t ->
  xwpf F E (env_next (heap c + tsize (take i l))) c t Q.
Proof.
  intros Hl Hv Hi Hx HQ. pose proof Hv as (He & Hs & Hok). unfold env_next. do 4 xwp_step.
  destruct (vars_lookup _ _ i x Hv Hx) as (Hxok & Hat & Hsz).
  destruct (ekey_key _ _ _ _ Hxok Hat) as [Hk Hz]. pose proof (esize_bounds x) as [Hxs _].
  pose proof (tsize_nonneg (take i l)). pose proof (tsize_nonneg (drop (S i) l)). unfold env_size in *.
  rewrite (proj2 (Z.ltb_ge _ _)) by lia. rewrite (proj2 (Z.leb_gt _ _)) by lia. cbn [orb].
  xwp_step. eapply xwp_rd; [exact Hk|]. cbv zeta. rewrite Hz.
  assert (tsize (take (S i) l) = tsize (take i l) + esize x) as Hnext.
  { rewrite (take_S_r _ _ _ Hx), tsize_app. simpl. lia. }
  pose proof (nseen_step l i x Hi Hx) as Hst. pose proof (lookup_lt_Some _ _ _ Hx).
  assert (tsize (drop (S i) l) = 0 \/ 4 <= tsize (drop (S i) l)) as Hd.
  { pose proof (tsize_length (drop (S i) l)). unfold env_size in *. destruct (drop (S i) l); simpl in *; lia. }
  assert ((S i < length l)%nat <-> 4 <= tsize (drop (S i) l)) as Hln.
  { pose proof (tsize_length (drop (S i) l)) as Hlen. unfold env_size in *. rewrite length_drop in Hlen.
    destruct (drop (S i) l) eqn:Hdr; apply (f_equal length) in Hdr; rewrite length_drop in Hdr; simpl in *; lia. }
  destruct (decide (S i < nseen l)%nat) as [Hgo|Hno].
  - apply Hst in Hgo as [? ?]. rewrite (proj2 (Z.ltb_ge _ _)) by lia. rewrite (proj2 (Z.ltb_ge _ _)) by lia.
    xwp_step. by rewrite Hnext, Z.add_assoc in HQ.
  - apply xwp_if; intros Hc; [by xwp_step|]. apply xwp_if; intros Hc'; [by xwp_step|]. zbool.
    exfalso. apply Hno, Hst. split; [apply Hln; lia|lia].
Qed.

(** A walk: [P i l c t] after [i] entries, with the list [l] of the same sizes. *)
Lemma env_each_wp {A} (body : ptr -> M (option A)) (P : nat -> list ent -> sh -> trace mcall -> Prop)
    l c t (Q : option A -> sh -> trace mcall -> Prop) :
  P 0%nat l c t ->
  (forall i l c' t', P i l c' t' -> layout c' t' /\ vars w l c' /\ heap c' = heap c) ->
  (forall i l' x c' t', (i < nseen l)%nat -> l' !! i = Some x -> esize <$> l' = esize <$> l -> P i l' c' t' ->
     xwpf F E (body (heap c + tsize (take i l'))) c' t' (fun r c'' t'' =>
       match r with
       | Some _ => Q r c'' t''
       | None => exists l'', esize <$> l'' = esize <$> l /\ P (S i) l'' c'' t''
       end)) ->
  (forall l' c' t', esize <$> l' = esize <$> l -> P (nseen l) l' c' t' -> Q None c' t') ->
  xwpf F E (env_each body) c t Q.
Proof.
  intros HP Hinv Hbody Hend. unfold env_each. do 5 xwp_step. destruct (Hinv _ _ _ _ HP) as (Hl & Hv & _).
  eapply env_first_wp; [done|done|]. pose proof (ly_order _ _ _ _ _ Hl) as (? & ? & ?).
  destruct (brk_window (base := base)) as [Hw _].
  assert (forall n i fuel l' c' t', (i + n = nseen l)%nat -> (n < fuel)%nat -> esize <$> l' = esize <$> l ->
    P i l' c' t' -> xwpf F E (env_loop fuel body (if decide (i < nseen l)%nat then heap c + tsize (take i l') else 0)) c' t' Q) as Hloop.
  { induction n as [|n IH]; intros i fuel l' c' t' Hin Hfuel Hsz HP'.
    - rewrite decide_False by lia. replace i with (nseen l) in HP' by lia.
      destruct fuel; simpl; xwp_step; by apply (Hend l').
    - rewrite decide_True by lia. destruct fuel as [|fuel]; [lia|]. cbn [env_loop].
      pose proof (tsize_nonneg (take i l')). rewrite (proj2 (Z.eqb_neq _ _)) by lia. xwp_step.
      assert (nseen l' = nseen l) as Hn' by (unfold nseen; by rewrite Hsz).
      destruct (lookup_lt_is_Some_2 l' i) as [x Hx]; [pose proof (nseen_length l'); lia|].
      eapply xwp_mono; [apply (Hbody i l' x); [lia|done|done|done]|]. intros [y|] c'' t''; [by intros HQ; apply xwp_ret|].
      intros (l'' & Hsz' & HP''). apply xwp_bind. destruct (Hinv _ _ _ _ HP'') as (Hl'' & Hv'' & Hh).
      assert (nseen l'' = nseen l) as Hn'' by (unfold nseen; by rewrite Hsz').
      assert (tsize (take i l') = tsize (take i l'')) as -> by (by rewrite !tsize_zsum, !fmap_take, Hsz, Hsz').
      destruct (lookup_lt_is_Some_2 l'' i) as [x'' Hx'']; [pose proof (nseen_length l''); lia|].
      rewrite <- Hh. eapply (env_next_wp l''); [done|done|lia|done|]. rewrite Hh, Hn''.
      apply (IH (S i)); [lia|lia|done|done]. }
  destruct Hv as (_ & Hs & _). pose proof (nseen_length l). pose proof (tsize_length l). unfold env_size in *.
  specialize (Hloop (nseen l) 0%nat (S (Z.to_nat (asep c - heap c))) l c t eq_refl ltac:(lia) eq_refl HP).
  simpl in Hloop. destruct l as [|x l]; [done|]. rewrite decide_True in Hloop by (unfold nseen; simpl; lia).
  by rewrite Z.add_0_r in Hloop.
Qed.

(** The walk that collects, in the same way. *)
Lemma env_fold_wp {B} (body : ptr -> B -> M B) (P : nat -> B -> sh -> trace mcall -> Prop)
    l (x : B) c t (Q : B -> sh -> trace mcall -> Prop) :
  P 0%nat x c t ->
  (forall i x c' t', P i x c' t' -> layout c' t' /\ vars w l c' /\ heap c' = heap c) ->
  (forall i e x c' t', (i < nseen l)%nat -> l !! i = Some e -> P i x c' t' ->
     xwpf F E (body (heap c + tsize (take i l)) x) c' t' (P (S i))) ->
  (forall x c' t', P (nseen l) x c' t' -> Q x c' t') ->
  xwpf F E (env_fold body x) c t Q.
Proof.
  intros HP Hinv Hbody Hend. unfold env_fold. do 5 xwp_step. destruct (Hinv _ _ _ _ HP) as (Hl & Hv & _).
  eapply env_first_wp; [done|done|]. pose proof (ly_order _ _ _ _ _ Hl) as (? & ? & ?).
  destruct (brk_window (base := base)) as [Hw _].
  assert (forall n i fuel x c' t', (i + n = nseen l)%nat -> (n < fuel)%nat -> P i x c' t' ->
    xwpf F E (fold_loop fuel body (if decide (i < nseen l)%nat then heap c + tsize (take i l) else 0) x) c' t' Q) as Hloop.
  { induction n as [|n IH]; intros i fuel y c' t' Hin Hfuel HP'.
    - rewrite decide_False by lia. replace i with (nseen l) in HP' by lia.
      destruct fuel; simpl; xwp_step; by apply (Hend y).
    - rewrite decide_True by lia. destruct fuel as [|fuel]; [lia|]. cbn [fold_loop].
      pose proof (tsize_nonneg (take i l)). rewrite (proj2 (Z.eqb_neq _ _)) by lia. xwp_step.
      destruct (lookup_lt_is_Some_2 l i) as [e He]; [pose proof (nseen_length l); lia|].
      eapply xwp_mono; [apply (Hbody i e); [lia|done|done]|]. intros y' c'' t'' HP''. apply xwp_bind.
      destruct (Hinv _ _ _ _ HP'') as (Hl'' & Hv'' & Hh). rewrite <- Hh.
      eapply (env_next_wp l); [done|done|lia|done|]. rewrite Hh. apply IH; [lia|lia|done]. }
  destruct Hv as (_ & Hs & _). pose proof (nseen_length l). pose proof (tsize_length l). unfold env_size in *.
  specialize (Hloop (nseen l) 0%nat (S (Z.to_nat (asep c - heap c))) x c t eq_refl ltac:(lia) HP).
  simpl in Hloop. destruct l as [|e l]; [done|]. rewrite decide_True in Hloop by (unfold nseen; simpl; lia).
  by rewrite Z.add_0_r in Hloop.
Qed.

(** ** Words *)

(** Words one after the other, each with its terminating zero; where they start. *)
Definition flat (ss : list (list Z)) : list Z := ss ≫= fun s => s ++ [0].

Fixpoint starts (p : ptr) (ss : list (list Z)) : list ptr :=
  match ss with [] => [] | s :: ss => p :: starts (p + zlen s + 1) ss end.

Lemma flat_cons s ss : flat (s :: ss) = s ++ 0 :: flat ss.
Proof. unfold flat. rewrite bind_cons, <- app_assoc. done. Qed.

Lemma flat_snoc ss s : flat (ss ++ [s]) = flat ss ++ s ++ [0].
Proof. unfold flat. rewrite bind_app, bind_cons. simpl. by rewrite app_nil_r. Qed.

Lemma length_flat ss : (length ss <= length (flat ss))%nat.
Proof. induction ss as [|s ss IH]; [done|]. rewrite flat_cons, length_app. simpl. lia. Qed.

Lemma length_starts p ss : length (starts p ss) = length ss.
Proof. revert p. induction ss as [|s ss IH]; intros; simpl; [done|]. by rewrite IH. Qed.

Abbreviation no_nul := (Forall (fun b => b <> 0)).

Lemma advance_str m p e s :
  bytes_at m p (s ++ [0]) -> no_nul s -> p + zlen s < e -> advance m p e = Some (p + zlen s).
Proof.
  intros Hb Hs He. unfold advance.
  cut (forall fuel p, bytes_at m p (s ++ [0]) -> p + zlen s < e -> zlen s < Z.of_nat fuel ->
    advance_loop fuel m p e = Some (p + zlen s)).
  { intros H. apply H; [done|done|lia]. }
  clear p Hb He. induction Hs as [|b s Hb Hs IH]; intros fuel p Hat He Hf; (destruct fuel as [|fuel]; [simpl in *; lia|]);
    apply bytes_at_cons in Hat as [Hc Hat]; cbn [advance_loop]; simpl length in *;
    (destruct (Z.ltb_spec p e); [|lia]); unfold ld8; rewrite Hc; cbn [mbind option_bind].
  - simpl. f_equal. lia.
  - rewrite (proj2 (Z.eqb_neq _ _)) by done. rewrite IH; [f_equal; lia|done|lia|lia].
Qed.

Lemma advance_none m p s : bytes_at m p s -> no_nul s -> advance m p (p + zlen s) = Some 0.
Proof.
  intros Hb Hs. unfold advance. replace (p + zlen s - p) with (zlen s) by lia. rewrite Nat2Z.id.
  revert p Hb. induction Hs as [|b s Hn Hs IH]; intros p Hat; cbn [advance_loop length].
  { destruct (Z.ltb_spec p (p + Z.of_nat 0)); [lia|done]. }
  apply bytes_at_cons in Hat as [Hc Hat]. destruct (Z.ltb_spec p (p + Z.of_nat (S (length s)))); [|lia].
  unfold ld8. rewrite Hc. cbn [mbind option_bind]. rewrite (proj2 (Z.eqb_neq _ _)) by done.
  replace (p + Z.of_nat (S (length s))) with (p + 1 + zlen s) by lia. by apply IH.
Qed.

(** The walk over the words that [count_args] and [index_args] have in common:
    what [advance] finds at the start of a word, and where that leaves it. *)
Lemma advance_word m p s ss tail :
  0 < p -> bytes_at m p (flat (s :: ss) ++ tail) -> no_nul s ->
  advance m p (p + zlen (flat (s :: ss) ++ tail)) = Some (p + zlen s) /\ p + zlen s <> 0 /\
  bytes_at m (p + zlen s + 1) (flat ss ++ tail) /\
  p + zlen (flat (s :: ss) ++ tail) = p + zlen s + 1 + zlen (flat ss ++ tail).
Proof.
  intros Hp Hb Hs. rewrite flat_cons in *. rewrite <- app_assoc in *. cbn [app] in *.
  change (0 :: flat ss ++ tail) with ([0] ++ (flat ss ++ tail)) in *. rewrite app_assoc in Hb.
  apply bytes_at_app in Hb as [Hb1 Hb2]. rewrite (length_app s [0]) in Hb2. simpl in Hb2.
  rewrite !(length_app s). simpl length. split; [apply advance_str; [done|done|lia]|].
  split; [lia|]. split; [|lia]. replace (p + zlen s + 1) with (p + Z.of_nat (length s + 1)) by lia. done.
Qed.

Lemma count_args_spec m p ss tail :
  0 < p -> bytes_at m p (flat ss ++ tail) -> Forall no_nul ss -> no_nul tail ->
  zlen ss < 2 ^ 31 -> count_args m p (p + zlen (flat ss ++ tail)) = Some (zlen ss).
Proof.
  intros Hp Hb Hss Htail Hn. unfold count_args. replace (p + _ - p) with (zlen (flat ss ++ tail)) by lia.
  rewrite Nat2Z.id.
  cut (forall fuel p count, 0 < p -> bytes_at m p (flat ss ++ tail) -> 0 <= count -> count + zlen ss < 2 ^ 31 ->
    (length (flat ss ++ tail) <= fuel)%nat ->
    count_loop fuel m p (p + zlen (flat ss ++ tail)) count = Some (count + zlen ss)).
  { intros H. rewrite H; [done|done|done|lia|lia|lia]. }
  clear p Hp Hb Hn. induction Hss as [|s ss Hs Hss IH]; intros fuel p count Hp Hb Hc Hn Hf.
  - simpl in *. destruct fuel as [|fuel]; cbn [count_loop].
    { destruct tail; simpl in *; [|lia]. rewrite Z.add_0_r, Z.ltb_irrefl. f_equal. lia. }
    destruct (Z.ltb_spec p (p + zlen tail)); [|f_equal; lia].
    rewrite (advance_none m p tail) by done. simpl. f_equal. lia.
  - destruct (advance_word m p s ss tail Hp Hb Hs) as (Ha & Hq & Hb' & He).
    destruct fuel as [|fuel]; [rewrite flat_cons, <- app_assoc, length_app in Hf; simpl in Hf; lia|].
    cbn [count_loop]. rewrite (proj2 (Z.ltb_lt _ _)) by lia. rewrite Ha. cbn [mbind option_bind].
    rewrite (proj2 (Z.eqb_neq _ _)) by done. rewrite He. simpl length in Hn. rewrite s32_small by lia.
    rewrite IH; [f_equal; simpl length; lia|lia|done|lia|lia|].
    rewrite flat_cons, <- app_assoc, length_app in Hf. simpl in Hf. lia.
Qed.

Lemma index_args_spec m p ss tail av :
  0 < p -> bytes_at m p (flat ss ++ tail) -> Forall no_nul ss -> no_nul tail ->
  p + zlen (flat ss ++ tail) <= av -> mapped m av (8 * (zlen ss + 1)) ->
  index_args m p (p + zlen (flat ss ++ tail)) av (zlen ss) =
  Some (poke m av ((starts p ss ++ [0]) ≫= le_bytes 8)).
Proof.
  intros Hp Hb Hss Htail Hav Hm. unfold index_args. replace (p + _ - p) with (zlen (flat ss ++ tail)) by lia.
  rewrite Nat2Z.id. set (e := p + zlen (flat ss ++ tail)) in *. set (n := zlen ss).
  cut (forall fuel p m i, 0 < p -> bytes_at m p (flat ss ++ tail) -> e = p + zlen (flat ss ++ tail) ->
    0 <= i -> n = i + zlen ss -> mapped m (av + 8 * i) (8 * (zlen ss + 1)) ->
    (length (flat ss ++ tail) <= fuel)%nat ->
    index_loop fuel m p e av n i = Some (poke m (av + 8 * i) (starts p ss ≫= le_bytes 8), n)).
  { intros H. rewrite (H _ p m 0); [|done|done|done|lia|done|by rewrite Z.mul_0_r, Z.add_0_r|done].
    cbn [mbind option_bind]. unfold st64. rewrite stn_spec.
    - rewrite Z.mul_0_r, Z.add_0_r, bind_app, poke_app, length_bind8, length_starts. done.
    - apply mapped_poke. rewrite length_le_bytes. eapply mapped_sub; [done|lia|lia]. }
  clearbody e n. clear p m Hp Hb Hm. induction Hss as [|s ss Hs Hss IH]; intros fuel p m i Hp Hb He Hi Hn Hm Hf.
  - simpl in *. assert (n = i) as -> by lia. destruct fuel as [|fuel]; cbn [index_loop].
    { destruct tail; simpl in *; [|lia]. by rewrite He, Z.add_0_r, Z.ltb_irrefl. }
    destruct (Z.ltb_spec p e); [|done]. rewrite He, (advance_none m p tail) by done. done.
  - destruct (advance_word m p s ss tail Hp Hb Hs) as (Ha & Hq & Hb' & He').
    destruct fuel as [|fuel]; [rewrite flat_cons, <- app_assoc, length_app in Hf; simpl in Hf; lia|].
    assert (length (flat ss ++ tail) <= fuel)%nat as Hf'
      by (rewrite flat_cons, <- app_assoc, length_app in Hf; simpl in Hf; lia). clear Hf.
    cbn [index_loop]. rewrite (proj2 (Z.ltb_lt _ _)) by lia. rewrite He at 1. rewrite Ha. cbn [mbind option_bind].
    rewrite (proj2 (Z.eqb_neq _ _)) by done. simpl length in *. rewrite (proj2 (Z.leb_gt _ _)) by lia. cbn [orb].
    unfold st64. rewrite stn_spec by (rewrite length_le_bytes; eapply mapped_sub; [done|lia|lia]).
    cbn [mbind option_bind]. rewrite IH; [| lia | |lia|lia|lia| |].
    + f_equal. f_equal. cbn [starts]. rewrite bind_cons, poke_app, length_le_bytes. f_equal. lia.
    + apply bytes_at_poke_disjoint; [lia|done].
    + apply mapped_poke. eapply mapped_sub; [done|lia|lia].
    + done.
Qed.

(** A store into the heap. *)
Lemma layout_poke c t p b :
  layout c t -> heap c <= p -> p + zlen b <= hend c -> layout (c <| ram := poke (ram c) p b |>) t.
Proof.
  intros [[] ? ? ? Hout] Hp He. split; [by split|simpl; lia|done| |].
  - simpl. by apply mapped_poke.
  - intros x Hx. simpl. rewrite lookup_poke_out by lia. by apply Hout.
Qed.

(** What a command finds: its words, and the array of pointers to them. *)
Record ready (l : list ent) (ss : list (list Z)) (av : ptr) (c : sh) (t : trace mcall) : Prop := {
  rd_layout : layout c t;
  rd_vars : vars w l c;
  rd_str : Forall (fun s => is_str s) ss;
  rd_words : bytes_at (ram c) (asep c) (flat ss);
  rd_argv : bytes_at (ram c) av ((starts (asep c) ss ++ [0]) ≫= le_bytes 8);
  rd_below : asep c + zlen (flat ss) <= av;
  rd_above : hptr c = av + 8 * (zlen ss + 1) }.

Lemma is_str_no_nul s : is_str s -> no_nul s.
Proof. intros. eapply Forall_impl; [done|]. simpl. lia. Qed.

Lemma execute_wp `{HT : !Builtins} l ss tail c t (Q : unit -> sh -> trace mcall -> Prop) :
  held l (flat ss ++ tail) c t -> Forall (fun s => is_str s) ss -> no_nul tail -> oom c t ->
  (ss = [] -> Q tt c t) ->
  (forall av c1 t1, ss <> [] -> ready l ss av c1 t1 -> same c c1 -> visible t1 = visible t ->
     xwpf F E (command (zlen ss) av) c1 t1 (fun _ c2 t2 => Q tt (c2 <| hptr := asep c2 |>) t2)) ->
  xwpf F E execute c t Q.
Proof.
  intros Hd Hss Htail HE Hnil Hcmd. pose proof (hd_layout _ _ _ _ Hd) as Hl.
  pose proof (ly_order _ _ _ _ _ Hl) as (? & ? & ?). destruct (brk_window (base := base)) as [Hw _].
  pose proof (hd_area _ _ _ _ Hd) as [Hb Hp]. unfold LIM in *.
  assert (Forall no_nul ss) as Hss' by (eapply Forall_impl; [done|]; apply is_str_no_nul).
  pose proof (length_flat ss) as Hlen. pose proof (length_app (flat ss) tail) as Happ.
  unfold execute. do 5 xwp_step. rewrite Hp. eapply xwp_rd; [apply count_args_spec; [lia|done..|lia]|].
  cbv zeta. rewrite s32_small by lia. destruct (Z.eqb_spec (zlen ss) 0) as [Hz|Hz].
  { xwp_step. apply Hnil. destruct ss; [done|simpl in Hz; lia]. }
  apply xwp_bind. eapply heap_alloc_wp; [done|done|lia|]. intros c1 t1 Hl1 Hv1 Hb1 Hp1 Hs1 Hag1 Ht1.
  pose proof (ly_order _ _ _ _ _ Hl1) as (? & ? & ?).
  assert (asep c1 = asep c) as Hasep by (by rewrite Hs1).
  assert (heap c1 = heap c) as Hheap by (by rewrite Hs1). xwp_step. rewrite <- Hp.
  eapply xwp_wr.
  { rewrite <- Hasep in Hp |- *. rewrite Hp. apply index_args_spec; [lia|done|done|done|lia|].
    apply (mapped_sub _ (heap c1) (hend c1 - heap c1)); [by apply (ly_mapped _ _ _ _ _ Hl1)|lia|lia]. }
  xwp_step.
  remember ((starts (asep c1) ss ++ [0]) ≫= le_bytes 8) as arr eqn:Earr.
  assert (zlen arr = 8 * (zlen ss + 1)) as Harr.
  { rewrite Earr, length_bind8, length_app, length_starts. simpl. lia. }
  rewrite Hasep, <- Hp in *.
  eapply xwp_mono; [apply Hcmd|].
  - intros ->. done.
  - split.
    + apply layout_poke; [done|lia|lia].
    + apply (vars_agree l c1); simpl; [lia|done|done|apply agree_poke; lia|done].
    + done.
    + simpl. rewrite Hasep. apply bytes_at_app in Hb1 as [Hb1 _].
      eapply bytes_at_agree; [apply agree_poke; lia|done].
    + change (asep (c1 <| ram := poke (ram c1) (hptr c) arr |>)) with (asep c1).
      rewrite Hasep, <- Earr. apply bytes_at_poke.
    + simpl. lia.
    + simpl. lia.
  - unfold same in *. rewrite Hs1. by destruct c.
  - done.
  - intros [] c2 t2 HQ. by xwp_step.
Qed.
End heap.
