(* ===== verification/MshCmd.v ===== *)
(** * src/msh: the commands

    The commands of msh (msh_cmd_*.c) and the table of them.  What a child of
    [run] does is part of the run in which [fork] returns 0: the model follows
    the process that the reply of the kernel says it is.  A loop that the kernel can
    keep going for ever takes fuel; without it the run is cut off ([xexit]). *)
From stdpp Require Import strings.
From S2P Require Import Prelude Mem Str Fmt Parse Arr Sys Nlusctl Nlsock State Exits Cstr Util Msh.

Section cmds.
Context `{HK : !Kern mcall} `{HL : !Locals}.

Abbreviation M := M.

(** A call of which only the result matters. *)
Definition do (c : mcall) : M Z := r ← xcall c; mret (s32 (ret r)).

(** [if((ret = ...) < 0) error(ctx, msg, arg, ret)] and [check] *)
Definition checked (msg : option (list Z)) (arg : ptr) (c : mcall) : M unit :=
  r ← do c; check msg arg r.

(** ** Variables and environment (msh_cmd_envp.c) *)

(** [src/msh/msh_cmd_envp.c: realloc_higher] *)
Definition realloc_higher (str : ptr) : M ptr :=
  len ← rd (fun m => strlen m str); let len := s32 len in
  new ← heap_alloc (align4 (len + 1));
  wr (fun m => fst <$> memcpy m new str (len + 1));;
  mret new.

(** [src/msh/msh_cmd_envp.c: realloc_pair] *)
Definition realloc_pair (key val : ptr) : M ptr :=
  klen ← rd (fun m => strlen m key); let klen := s32 klen in
  vlen ← rd (fun m => strlen m val); let vlen := s32 vlen in
  new ← heap_alloc (align4 (klen + vlen + 2));
  wr (fun m => fst <$> memcpy m new key klen);;
  wr (fun m => st8 m (new + klen) 61);;
  wr (fun m => fst <$> memcpy m (new + klen + 1) val vlen);;
  wr (fun m => st8 m (new + klen + 1 + vlen) 0);;
  mret new.

(** [src/msh/msh_cmd_envp.c: named 74-77] *)
Fixpoint named_loop (fuel : nat) (m : mem) (v n : ptr) : option (ptr * ptr) :=
  match fuel with
  | O => None
  | S fuel =>
      x ← ld8 m n;
      if negb (x =? 0) then
        y ← ld8 m v;
        if y =? x then named_loop fuel m (v + 1) (n + 1) else Some (v, n)
      else Some (v, n)
  end.

(** [src/msh/msh_cmd_envp.c: named] *)
Definition named (var name : ptr) (m : mem) : option bool :=
  '(v, n) ← named_loop (str_fuel m) m var name;
  x ← ld8 m n;
  if negb (x =? 0) then Some false
  else y ← ld8 m v; Some (y =? 61).

(** [src/msh/msh_cmd_envp.c: check_valid_name] *)
Definition check_valid_name (name : ptr) : M unit :=
  s ← rd (fun m => cstr m name);
  if existsb (fun c => c =? 61) s then fatal (text "invalid variable name:") name else mret tt.

(** [src/msh/msh_cmd_envp.c: check_not_defined] *)
Definition check_not_defined (name : ptr) : M unit :=
  _ ← env_each (fun ev =>
    v ← env_value ev EV_SVAR;
    if v =? 0 then mret (None : option unit)
    else
      b ← rd (named v name);
      if negb b then mret None
      else fatal (text "duplicate definition") 0);
  mret tt.

(** [src/msh/msh_cmd_envp.c: clear_definition] *)
Definition clear_definition (name : ptr) : M unit :=
  _ ← env_each (fun ev =>
    v ← env_value ev EV_ENVP;
    if v =? 0 then mret (None : option unit)
    else
      b ← rd (named v name);
      if negb b then mret None
      else
        key ← rd (fun m => ld32 m ev);
        wr (fun m => st32 m ev (Z.land key (2 ^ 32 - 1 - (EV_ENVP + EV_SVAR))));;
        mret None);
  mret tt.

(** [src/msh/msh_cmd_envp.c: clear_all_entries] *)
Definition clear_all_entries (type : Z) : M unit :=
  _ ← env_each (fun ev =>
    key ← rd (fun m => ld32 m ev);
    if negb (has key type) then mret (None : option unit)
    else wr (fun m => st32 m ev (Z.land key (2 ^ 32 - 1 - type)));; mret None);
  mret tt.

(** [src/msh/msh_cmd_envp.c: append_variable] *)
Definition append_variable (v : ptr) (type : Z) : M unit :=
  vlen ← rd (fun m => strlen m v); let vlen := s32 vlen in
  ev ← xget asep;
  let size := align4 (env_size + vlen + 1) in
  xmodify (fun c => c <| asep := ev + size |>);;
  if EV_SIZE <? size then fatal (text "variable overflow") 0
  else
    wr (fun m => st32 m ev (Z.lor type size));;
    wr (fun m => fst <$> memcpy m (ev + env_size) v (vlen + 1)).

(** [src/msh/msh_cmd_envp.c: append_reference] *)
Definition append_reference (idx type : Z) : M unit :=
  ev ← xget asep;
  xmodify (fun c => c <| asep := ev + env_size |>);;
  if EV_SIZE <? idx then fatal (text "reference overflow") 0
  else wr (fun m => st32 m ev (Z.lor (Z.lor EV_REF type) idx)).

(** How many pointers come before the NULL. *)
Fixpoint count_ptrs (fuel : nat) (m : mem) (pp : ptr) : option Z :=
  match fuel with
  | O => None
  | S fuel => p ← ld64 m pp; if p =? 0 then Some 0 else n ← count_ptrs fuel m (pp + 8); Some (n + 1)
  end.

(** [src/msh/msh_cmd_envp.c: reserve_orig_envp] *)
Definition reserve_orig_envp : M unit :=
  ce ← xget customenvp;
  if 0 <=? ce then mret tt
  else
    env ← xget environ;
    n ← rd (fun m => count_ptrs (str_fuel m) m env);
    _ ← heap_alloc (s32 ((s32 n + 1) * env_size)); mret tt.

(** [src/msh/msh_cmd_envp.c: start_custom_envp 196-197] *)
Fixpoint reference_loop (fuel : nat) (env : ptr) (i : Z) : M Z :=
  match fuel with
  | O => xpure None
  | S fuel =>
      v ← rd (fun m => ld64 m (env + 8 * i));
      if v =? 0 then mret i
      else append_reference i EV_ENVP;; reference_loop fuel env (i + 1)
  end.

(** [src/msh/msh_cmd_envp.c: start_custom_envp] *)
Definition start_custom_envp : M unit :=
  ce ← xget customenvp;
  if 0 <=? ce then mret tt
  else
    env ← xget environ;
    fuel ← rd (fun m => Some (str_fuel m));
    i ← reference_loop fuel env 0;
    xmodify (fun c => c <| customenvp := i |>).

(** [src/msh/msh_cmd_envp.c: cmd_set] *)
Definition cmd_set : M unit :=
  v ← shift; val ← shift;
  no_more_arguments;;
  check_valid_name v;;
  check_not_defined v;;
  pair ← realloc_pair v val;
  append_variable pair EV_SVAR.

(** [src/msh/msh_cmd_envp.c: cmd_setenv] *)
Definition cmd_setenv : M unit :=
  v ← shift; val ← shift;
  no_more_arguments;;
  check_valid_name v;;
  reserve_orig_envp;;
  key ← realloc_higher v;
  pair ← realloc_pair v val;
  start_custom_envp;;
  clear_definition key;;
  append_variable pair EV_ENVP.

(** [src/msh/msh_cmd_envp.c: cmd_getenv 248-250] *)
Fixpoint find_env (fuel : nat) (m : mem) (env name : ptr) (i : Z) : option (option Z) :=
  match fuel with
  | O => None
  | S fuel =>
      v ← ld64 m (env + 8 * i);
      if v =? 0 then Some None
      else b ← named v name m; if (b : bool) then Some (Some i) else find_env fuel m env name (i + 1)
  end.

(** [src/msh/msh_cmd_envp.c: cmd_getenv] *)
Definition cmd_getenv : M unit :=
  name ← shift;
  no_more_arguments;;
  check_valid_name name;;
  check_not_defined name;;
  env ← xget environ;
  r ← rd (fun m => find_env (str_fuel m) m env name 0);
  match r with
  | None => fatal (text "undefined variable:") name
  | Some i => append_reference i EV_SVAR
  end.

(** [src/msh/msh_cmd_envp.c: cmd_delenv] *)
Definition cmd_delenv : M unit :=
  name ← shift;
  no_more_arguments;;
  check_valid_name name;;
  reserve_orig_envp;;
  name ← realloc_higher name;
  start_custom_envp;;
  clear_definition name.

(** [src/msh/msh_cmd_envp.c: cmd_clearenv] *)
Definition cmd_clearenv : M unit :=
  no_more_arguments;;
  ce ← xget customenvp;
  if ce <? 0 then xmodify (fun c => c <| customenvp := 0 |>)
  else clear_all_entries EV_ENVP.

(** ** Directory, messages, end (msh_cmd_base.c) *)

(** [src/msh/msh_cmd_base.c: cmd_cd] *)
Definition cmd_cd : M unit :=
  dir ← shift;
  no_more_arguments;;
  d ← rd (fun m => cstr m dir);
  checked None dir (Chdir d).

(** [src/msh/msh_cmd_base.c: cmd_exit] *)
Definition cmd_exit : M unit :=
  b ← got_more_arguments;
  code ← (if (b : bool) then shift_int else mret 0);
  no_more_arguments;;
  _ ← xcall (Exit code); xexit.

(** [src/msh/msh_cmd_base.c: print] *)
Definition print (fd : Z) : M unit :=
  msg ← shift;
  no_more_arguments;;
  len ← rd (fun m => strlen m msg); let len := s32 len in
  wr (fun m => st8 m (msg + len) 10);;
  buf ← rd (fun m => peek m msg (Z.to_nat (len + 1)));
  r ← writeall Write fd buf;
  wr (fun m => st8 m (msg + len) 0);;
  check (Some (text "write")) 0 (s32 r).

(** [src/msh/msh_cmd_base.c: cmd_echo] *)
Definition cmd_echo : M unit := print 1.
(** [src/msh/msh_cmd_base.c: cmd_warn] *)
Definition cmd_warn : M unit := print 2.
(** [src/msh/msh_cmd_base.c: cmd_die] *)
Definition cmd_die : M unit := cmd_warn;; exit_fail.

(** ** Execution (msh_cmd_exec.c) *)

(** [src/msh/msh_cmd_exec.c: prepenvp] *)
Definition prepenvp : M ptr :=
  ce ← xget customenvp;
  if ce <? 0 then xget environ
  else
    count ← env_fold (fun ev count =>
      v ← env_value ev EV_ENVP; mret (if v =? 0 then count else s32 (count + 1))) 0;
    envp ← heap_alloc (s32 ((count + 1) * 8));
    i ← env_fold (fun ev i =>
      v ← env_value ev EV_ENVP;
      if v =? 0 then mret i
      else if i <? count then wr (fun m => st64 m (envp + 8 * i) v);; mret (i + 1)
      else mret i) 0;
    wr (fun m => st64 m (envp + 8 * i) 0);;
    mret envp.

(** [lib/sigset.c: sigaddset] *)
Definition sigaddset (set sig : Z) : Z :=
  if (sig <? 1) || (63 <? sig) then set
  else u64 (Z.lor set (s32 (Z.shiftl 1 (sig - 1)))).

(** [src/msh/msh_cmd_exec.c: child] *)
Definition child (av envp : ptr) : M Z :=
  fd ← xget sigfd;
  (if fd <? 0 then mret tt else checked (Some (text "sigprocmask")) 0 (Sigprocmask 2 0));;
  path ← rd (fun m => ld64 m av);
  r ← execvpe Execve ram path av envp; let r := s32 r in
  if negb (r =? 0) then error (Some (text "exec")) path r else mret 0xFF.

(** [src/msh/msh_cmd_exec.c: describe] *)
Definition describe (status : Z) : M unit :=
  let sig := Z.land status 0x7F in
  let code := Z.shiftr (Z.land status 0xFF00) 8 in
  if negb (sig =? 0)
  then error_l (Some (text "command killed by signal")) (Some (take 20 (dec_signed sig))) 0
  else error_l (Some (text "command failed with code")) (Some (take 20 (dec_signed code))) 0.

(** [src/msh/msh_cmd_exec.c: prep_signalfd] *)
Definition prep_signalfd : M Z :=
  let mask := sigaddset (sigaddset (sigaddset (sigaddset 0 2) 1) 15) 17 in
  fd ← do (Signalfd (-1) mask (2 ^ 19));
  check (Some (text "signalfd")) 0 fd;;
  checked (Some (text "sigprocmask")) 0 (Sigprocmask 2 mask);;
  xmodify (fun c => c <| sigfd := fd |>);;
  mret fd.

(** [src/msh/msh_cmd_exec.c: close_signalfd] *)
Definition close_signalfd (fd : Z) : M unit :=
  checked (Some (text "sigprocmask")) 0 (Sigprocmask 2 0);;
  r ← do (Close fd);
  (if r <? 0 then error_l (Some (text "close")) (Some (text "signalfd")) r else mret tt);;
  xmodify (fun c => c <| sigfd := -1 |>).

(** [src/msh/msh_cmd_exec.c: wait_child] returns the status *)
Fixpoint wait_child (fuel : nat) (fd pid : Z) : M Z :=
  match fuel with
  | O => xexit
  | S fuel =>
      r ← xcall (Read fd 128);
      if s32 (ret r) <? 0
      then error_l (Some (text "read")) (Some (text "signalfd")) (s32 (ret r))
      else
        si ← xpure (filled 128 r);
        signo ← xpure (get32 si 0); let sig := s32 signo in
        if negb (sig =? 17) then _ ← xcall (Kill pid sig); wait_child fuel fd pid
        else
          w ← xcall (Waitpid pid 1); let n := s32 (ret w) in
          if 0 <? n then st ← xpure (filled 4 w); st ← xpure (get32 st 0); mret (s32 st)
          else if (n =? 0) || (n =? -10) then wait_child fuel fd pid
          else error (Some (text "waitpid")) 0 n
  end.

(** [src/msh/msh_cmd_exec.c: cmd_run] *)
Definition cmd_run (fuel : nat) : M unit :=
  need_some_arguments;;
  av ← argsleft;
  envp ← prepenvp;
  fd ← prep_signalfd;
  pid ← do Fork;
  check (Some (text "fork")) 0 pid;;
  if pid =? 0 then code ← child av envp; _ ← xcall (Exit code); xexit
  else
    status ← wait_child fuel fd pid;
    close_signalfd fd;;
    if negb (status =? 0) then describe status else mret tt.

(** [src/msh/msh_cmd_exec.c: cmd_exec] *)
Definition cmd_exec : M unit :=
  need_some_arguments;;
  av ← argsleft;
  envp ← prepenvp;
  path ← rd (fun m => ld64 m av);
  s ← rd (fun m => cstr m path);
  r ← sys_execve Execve ram s av envp;
  error (Some (text "exec")) path (s32 r).

(** [n] pointers of an array. *)
Fixpoint ptrs (m : mem) (pp : ptr) (n : nat) : option (list ptr) :=
  match n with
  | O => Some []
  | S n => p ← ld64 m pp; l ← ptrs m (pp + 8) n; Some (p :: l)
  end.

(** [src/msh/msh_cmd_exec.c: cmd_invoke] the array of the arguments is local *)
Definition cmd_invoke : M unit :=
  ac ← xget argc; ap ← xget argp; let nargs := ac - ap in
  tc ← xget topargc; tp ← xget topargp; let norig := tc - tp in
  if nargs =? 0 then error_l (Some (text "too few arguments")) None 0
  else
    envp ← prepenvp;
    av ← xget argv; tv ← xget topargv;
    args ← rd (fun m => ptrs m (av + 8 * ap) (Z.to_nat nargs));
    orig ← rd (fun m => ptrs m (tv + 8 * tp) (Z.to_nat norig));
    path ← xpure (head (args ++ orig));
    s ← rd (fun m => cstr m path);
    l ← rd (fun m => mapM (cstr m) (args ++ orig));
    ev ← rd (fun m => strs m envp);
    r ← xcall (Execve s l ev);
    error (Some (text "exec")) path (s32 (ret r)).

(** ** Files (msh_cmd_file.c) *)

(** [src/msh/msh_cmd_file.c: wflags] *)
Definition wflags (str : ptr) : M Z :=
  lead ← rd (fun m => ld8 m str);
  if lead =? 0 then mret 1
  else
    c ← rd (fun m => ld8 m (str + 1));
    if negb (c =? 0) then fatal (text "multiple options") 0
    else if lead =? 99 then mret (1 + 2 ^ 6 + 2 ^ 9)
    else if lead =? 120 then mret (1 + 2 ^ 6 + 2 ^ 7)
    else fatal (text "unexpected options") 0.

(** [src/msh/msh_cmd_file.c: open_onto_fd] *)
Definition open_onto_fd (tofd : Z) (name : ptr) (fl md : Z) : M unit :=
  s ← rd (fun m => cstr m name);
  fd ← do (Open s fl md);
  check (Some (text "open")) name fd;;
  if fd =? tofd then mret tt
  else checked None name (Dup2 fd tofd);; _ ← do (Close fd); mret tt.

(** [src/msh/msh_cmd_file.c: open_output] *)
Definition open_output (tofd : Z) : M unit :=
  opts ← dash_opts;
  flags ← (if opts =? 0 then mret 1 else wflags opts);
  name ← shift;
  no_more_arguments;;
  open_onto_fd tofd name (Z.lor flags (2 ^ 8)) 438.

(** [src/msh/msh_cmd_file.c: cmd_stdin] *)
Definition cmd_stdin : M unit := name ← shift; no_more_arguments;; open_onto_fd 0 name 0 0.

(** [src/msh/msh_cmd_file.c: save_stderr] *)
Definition save_stderr : M unit :=
  efd ← xget errfd;
  if negb (efd =? 2) then mret tt
  else
    fd ← do (Fcntl3 2 1030 0);
    if fd <? 0 then mret tt else xmodify (fun c => c <| errfd := fd |>).

(** [src/msh/msh_cmd_file.c: cmd_stdout] *)
Definition cmd_stdout : M unit := open_output 1.
(** [src/msh/msh_cmd_file.c: cmd_stderr] *)
Definition cmd_stderr : M unit := save_stderr;; open_output 2.
(** [src/msh/msh_cmd_file.c: cmd_stdtwo] *)
Definition cmd_stdtwo : M unit :=
  open_output 1;; save_stderr;; checked (Some (text "dup")) 0 (Dup2 1 2).

(** [src/msh/msh_cmd_file.c: cmd_reopen] *)
Definition cmd_reopen : M unit :=
  name ← shift;
  no_more_arguments;;
  open_onto_fd 0 name 0 0;;
  open_onto_fd 1 name 1 0;;
  checked (Some (text "dup")) 0 (Dup2 1 2).

(** [src/msh/msh_cmd_file.c: cmd_close] *)
Definition cmd_close : M unit :=
  fd ← shift_int;
  no_more_arguments;;
  checked (Some (text "close")) 0 (Close fd).

(** [src/msh/msh_cmd_file.c: cmd_write] *)
Definition cmd_write : M unit :=
  data ← shift; name ← shift;
  no_more_arguments;;
  s ← rd (fun m => cstr m name);
  fd ← do (Open s 1 0);
  check None name fd;;
  len ← rd (fun m => strlen m data); let len := s32 len in
  wr (fun m => st8 m (data + len) 10);;
  buf ← rd (fun m => peek m data (Z.to_nat (len + 1)));
  r ← do (Write fd buf);
  (if r <? 0 then error (Some (text "write")) name r
   else if r <? len then fatal (text "incomplete write") 0 else mret tt);;
  wr (fun m => st8 m (data + len) 0).

(** [src/msh/msh_cmd_file.c: cmd_unlink] *)
Definition cmd_unlink : M unit :=
  name ← shift;
  no_more_arguments;;
  s ← rd (fun m => cstr m name);
  r ← do (Unlink s);
  if 0 <=? r then mret tt
  else if r =? -2 then mret tt
  else error (Some (text "unlink")) name r.

(** [src/msh/msh_cmd_file.c: chown] *)
Definition chown (owner name : ptr) : M unit :=
  sep ← rd (fun m => strcbrk m owner 58);
  c ← rd (fun m => ld8 m sep);
  c1 ← (if c =? 0 then mret 0 else rd (fun m => ld8 m (sep + 1)));
  gid ← (if (c =? 0) || (c1 =? 0) then mret (-1)
         else
           r ← whole parseint (sep + 1);
           match r with None => fatal (text "invalid group id:") (sep + 1) | Some n => mret n end);
  wr (fun m => st8 m sep 0);;
  uid ← (if sep =? owner then mret (-1)
         else
           r ← whole parseint owner;
           match r with None => fatal (text "invalid user id:") owner | Some n => mret n end);
  s ← rd (fun m => cstr m name);
  checked (Some (text "chown")) name (Chown s uid gid).

(** [src/msh/msh_cmd_file.c: cmd_mkdir] *)
Definition cmd_mkdir : M unit :=
  name ← shift;
  b ← got_more_arguments;
  mode ← (if (b : bool) then shift_oct else mret 493);
  b ← got_more_arguments;
  owner ← (if (b : bool) then shift else mret 0);
  s ← rd (fun m => cstr m name);
  r ← do (Mkdir s mode);
  (if 0 <=? r then mret tt
   else if negb (r =? -17) then error (Some (text "mkdir")) name r else mret tt);;
  if owner =? 0 then mret tt else chown owner name.

(** ** Mounting (msh_cmd_mount.c) *)

(** [src/msh/msh_cmd_mount.c: mflags 16-32] *)
Definition mflags : list (Z * Z) :=
  [(114, 0); (115, 1); (100, 2); (120, 3); (121, 4); (101, 5); (97, 10); (65, 11);
   (98, 12); (109, 13); (105, 15); (108, 25)].

(** [src/msh/msh_cmd_mount.c: mount_flags] *)
Definition mount_flags : M Z :=
  optstr ← dash_opts;
  if optstr =? 0 then mret 0
  else
    s ← rd (fun m => cstr m optstr);
    mret (foldl (fun flags c =>
      foldl (fun flags '(opt, bit) => if opt =? c then Z.lor flags (Z.shiftl 1 bit) else flags)
        flags mflags) 0 s).

(** [src/msh/msh_cmd_mount.c: mount_rest] *)
Definition mount_rest (target source : ptr) (flags : Z) : M unit :=
  b ← got_more_arguments;
  fstype ← (if negb (Z.land flags (2 ^ 13 + 2 ^ 5) =? 0) then mret 0
            else if (b : bool) then shift else fatal (text "missing fstype") 0);
  b ← got_more_arguments;
  data ← (if (b : bool) then shift else mret 0);
  no_more_arguments;;
  src ← rd (fun m => ostr m source);
  tgt ← rd (fun m => cstr m target);
  fst ← rd (fun m => ostr m fstype);
  dat ← rd (fun m => ostr m data);
  checked (Some (text "mount")) 0 (Mount src tgt fst flags dat).

(** [src/msh/msh_cmd_mount.c: cmd_mount] *)
Definition cmd_mount : M unit :=
  flags ← mount_flags;
  b ← got_more_arguments;
  target ← (if (b : bool) then shift else fatal (text "mountpoint required") 0);
  b ← got_more_arguments;
  source ← (if negb (Z.land flags (2 ^ 5) =? 0) then mret 0
            else if (b : bool) then shift else fatal (text "need device to mount") 0);
  mount_rest target source flags.

(** ** Credentials and limits (msh_cmd_pcred.c) *)

(** [src/msh/msh_cmd_pcred.c: rlimits 17-37] *)
Definition rlimits : list (list Z * Z) :=
  [(text "as", 9); (text "core", 4); (text "cpu", 0); (text "data", 2); (text "fsize", 1);
   (text "locks", 10); (text "memlock", 8); (text "msgqueue", 12); (text "nice", 13);
   (text "nofile", 7); (text "nproc", 6); (text "rss", 5); (text "rtprio", 14);
   (text "rttime", 15); (text "sigpend", 11); (text "stack", 3)].

(** The loop over a table of names that many commands have: the value of the
    first entry for which [cmp] is zero. *)
Fixpoint lookup_name {A} (cmp : list Z -> option Z) (tbl : list (list Z * A)) : option (option A) :=
  match tbl with
  | [] => Some None
  | (name, x) :: tbl =>
      d ← cmp name;
      if d =? 0 then Some (Some x) else lookup_name cmp tbl
  end.

(** [src/msh/msh_cmd_pcred.c: cmd_rlimit] *)
Definition cmd_rlimit : M unit :=
  key ← shift;
  cur ← shift_u64;
  b ← got_more_arguments;
  max ← (if (b : bool) then shift_u64 else mret cur);
  no_more_arguments;;
  k ← rd (fun m => cstr m key);
  r ← xpure (lookup_name (fun name => strcmp_l (padded 10 name) (k ++ [0])) rlimits);
  match r with
  | None => fatal (text "unknown limit") key
  | Some res => checked (Some (text "rlimit")) key (Prlimit 0 res cur max)
  end.

(** [src/msh/msh_cmd_pcred.c: cmd_umask] *)
Definition cmd_umask : M unit :=
  mask ← shift_oct;
  no_more_arguments;;
  checked (Some (text "umask")) 0 (Umask mask).

(** [src/msh/msh_cmd_pcred.c: cmd_chroot] *)
Definition cmd_chroot : M unit :=
  dir ← shift;
  no_more_arguments;;
  d ← rd (fun m => cstr m dir);
  checked (Some (text "chroot")) 0 (Chroot d).

(** [src/msh/msh_cmd_pcred.c: parse_id] *)
Definition parse_id (str : ptr) : M Z :=
  r ← whole parseint str;
  match r with None => fatal (text "not an integer:") str | Some id => mret id end.

(** [src/msh/msh_cmd_pcred.c: cmd_setuid] *)
Definition cmd_setuid : M unit :=
  user ← shift;
  no_more_arguments;;
  uid ← parse_id user;
  checked (Some (text "setresuid")) 0 (Setresuid uid uid uid).

(** [src/msh/msh_cmd_pcred.c: cmd_setgid] *)
Definition cmd_setgid : M unit :=
  group ← shift;
  no_more_arguments;;
  gid ← parse_id group;
  checked (Some (text "setresgid")) 0 (Setresgid gid gid gid).

(** [src/msh/msh_cmd_pcred.c: cmd_groups 137-140] [gids] are those stored; the
    array has 32 elements *)
Fixpoint groups_loop (fuel : nat) (gids : list Z) : M (list Z) :=
  group ← next;
  if group =? 0 then mret gids
  else
    match fuel with
    | O => fatal (text "too many groups") 0
    | S fuel => id ← parse_id group; groups_loop fuel (gids ++ [id])
    end.

(** [src/msh/msh_cmd_pcred.c: cmd_groups] *)
Definition cmd_groups : M unit :=
  need_some_arguments;;
  gids ← groups_loop 32 [];
  checked (Some (text "setgroups")) 0 (Setgroups gids).

(** ** Capabilities (msh_cmd_pcaps.c) *)

(** [src/msh/msh_cmd_pcaps.c: caps] a name and its number; there is no entry
    that ends the table *)
Definition caps : list (list Z * Z) :=
  [(text "chown", 0); (text "dac-override", 1); (text "dac-read-search", 2); (text "fowner", 3);
   (text "fsetid", 4); (text "kill", 5); (text "setgid", 6); (text "setuid", 7);
   (text "setpcap", 8); (text "linux-immutable", 9); (text "net-bind-service", 10);
   (text "net-broadcast", 11); (text "net-admin", 12); (text "net-raw", 13);
   (text "ipc-lock", 14); (text "ipc-owner", 15); (text "sys-module", 16);
   (text "sys-rawio", 17); (text "sys-chroot", 18); (text "sys-ptrace", 19);
   (text "sys-pacct", 20); (text "sys-admin", 21); (text "sys-boot", 22); (text "sys-nice", 23);
   (text "sys-resource", 24); (text "sys-time", 25); (text "sys-tty-config", 26);
   (text "mknod", 27); (text "lease", 28); (text "audit-write", 29); (text "audit-control", 30);
   (text "setfcap", 31); (text "mac-override", 32); (text "mac-admin", 33); (text "syslog", 34);
   (text "wake-alarm", 35); (text "block-suspend", 36); (text "audit-read", 37)].

(** [src/msh/msh_cmd_pcaps.c: OPT_a 55-59] *)
Definition OPT_a : Z := 1.
Definition OPT_b : Z := 2.
Definition OPT_i : Z := 4.
Definition OPT_p : Z := 8.
Definition OPT_e : Z := 16.

(** [bits[cap / 32]] *)
Definition word_of (bits : Z * Z) (cap : Z) : Z := if cap / 32 =? 0 then bits.1 else bits.2.

(** [src/msh/msh_cmd_pcaps.c: parsecaps 68-79] both words of [bits] *)
Fixpoint caps_loop (fuel : nat) (bits : Z * Z) : M (Z * Z) :=
  arg ← next;
  if arg =? 0 then mret bits
  else
    match fuel with
    | O => xpure None
    | S fuel =>
        a ← rd (fun m => cstr m arg);
        r ← xpure (lookup_name (fun name => strcmpn_l (padded 24 name) (a ++ [0])) caps);
        match r with
        | None => fatal (text "unknown cap") arg
        | Some val =>
            let w := s32 (Z.lor (word_of bits val) (s32 (Z.shiftl 1 (Z.land val 31)))) in
            caps_loop fuel (if val / 32 =? 0 then (w, bits.2) else (bits.1, w))
        end
    end.

(** [src/msh/msh_cmd_pcaps.c: parsecaps] *)
Definition parsecaps : M (Z * Z) :=
  need_some_arguments;;
  c ← xget argc; p ← xget argp;
  caps_loop (Z.to_nat (c - p)) (0, 0).

(** [bits[idx] & (1 << bit)] is not zero *)
Definition cap_set (bits : Z * Z) (cap : Z) : bool :=
  negb (Z.land (word_of bits cap) (s32 (Z.shiftl 1 (cap mod 32))) =? 0).

(** [src/msh/msh_cmd_pcaps.c: setbcaps 90-99] the loop ends at an empty name *)
Fixpoint bcaps_loop (tbl : list (list Z * Z)) (bits : Z * Z) : M unit :=
  match tbl with
  | [] => xpure None
  | ([], _) :: _ => mret tt
  | (_, cap) :: tbl =>
      (if cap_set bits cap then mret tt
       else
         r ← do (Prctl 24 cap 0 0 0);
         if r <? 0 then error_l (Some (text "prctl")) (Some (text "PR_CAPBSET_DROP")) r else mret tt);;
      bcaps_loop tbl bits
  end.

(** [src/msh/msh_cmd_pcaps.c: setbcaps] *)
Definition setbcaps (bits : Z * Z) (opts : Z) : M unit :=
  if negb (has opts OPT_b) then mret tt else bcaps_loop caps bits.

(** [src/msh/msh_cmd_pcaps.c: pr_cap_ambient] *)
Definition pr_cap_ambient (op cap : Z) : M Z :=
  r ← do (Prctl 47 op cap 0 0);
  if r <? 0 then error_l (Some (text "prctl")) (Some (text "PR_CAP_AMBIENT")) r else mret r.

(** [src/msh/msh_cmd_pcaps.c: setacaps 131-146] *)
Fixpoint acaps_loop (tbl : list (list Z * Z)) (bits : Z * Z) : M unit :=
  match tbl with
  | [] => xpure None
  | ([], _) :: _ => mret tt
  | (_, cap) :: tbl =>
      let need := cap_set bits cap in
      r ← pr_cap_ambient 1 cap;
      (if Bool.eqb (negb (r =? 0)) need then mret tt
       else _ ← pr_cap_ambient (if need then 2 else 3) cap; mret tt);;
      acaps_loop tbl bits
  end.

(** [src/msh/msh_cmd_pcaps.c: setacaps] *)
Definition setacaps (bits : Z * Z) (opts : Z) : M unit :=
  if negb (has opts OPT_a) then mret tt
  else if (bits.1 =? 0) && (bits.2 =? 0) then _ ← pr_cap_ambient 4 0; mret tt
  else acaps_loop caps bits.

(** The two records of [struct cap_data], in a buffer of 24 bytes: field [f] of
    record [i] is at [12 * i + f]. *)
Definition effective : Z := 0.
Definition permitted : Z := 4.
Definition inheritable : Z := 8.

(** A field of both records becomes a function of its old values. *)
Definition set_field (f : Z) (v : list Z -> Z -> option Z) (cd : list Z) : option (list Z) :=
  x ← v cd 0; cd ← put32 cd f x;
  x ← v cd 1; put32 cd (12 + f) x.

Definition bit_word (bits : Z * Z) (i : Z) : Z := u32 (if i =? 0 then bits.1 else bits.2).

(** [src/msh/msh_cmd_pcaps.c: setepicaps] *)
Definition setepicaps (bits : Z * Z) (opts : Z) (cd : list Z) : M unit :=
  cd ← xpure (if has opts OPT_p then set_field permitted (fun _ i => Some (bit_word bits i)) cd
              else Some cd);
  cd ← xpure (if has opts (OPT_i + OPT_a)
              then set_field inheritable (fun _ i => Some (bit_word bits i)) cd else Some cd);
  cd ← xpure (if has opts OPT_e then set_field effective (fun _ i => Some (bit_word bits i)) cd
              else set_field effective (fun cd i =>
                     e ← get32 cd (12 * i + effective); p ← get32 cd (12 * i + permitted);
                     Some (Z.land e p)) cd);
  checked (Some (text "capset")) 0 (Capset 0x20080522 0 cd).

(** [src/msh/msh_cmd_pcaps.c: prepcaps] *)
Definition prepcaps (bits : Z * Z) (opts : Z) : M (list Z) :=
  r ← xcall (Capget 0x20080522 0);
  check (Some (text "capget")) 0 (s32 (ret r));;
  cd ← xpure (filled 24 r);
  e ← xpure (get32 cd effective); p ← xpure (get32 cd permitted);
  if e =? p then mret cd
  else
    cd ← xpure (set_field effective (fun cd i => get32 cd (12 * i + permitted)) cd);
    cd ← xpure (if has opts OPT_a
                then set_field inheritable (fun cd i =>
                       h ← get32 cd (12 * i + inheritable); Some (Z.lor h (bit_word bits i))) cd
                else Some cd);
    checked (Some (text "capset")) 0 (Capset 0x20080522 0 cd);;
    mret cd.

(** [src/msh/msh_cmd_pcaps.c: capopts 206-215] *)
Fixpoint capopts_loop (s : list Z) (opts : Z) : option Z :=
  match s with
  | [] => Some opts
  | c :: s =>
      if c =? 97 then capopts_loop s (Z.lor opts OPT_a)
      else if c =? 98 then capopts_loop s (Z.lor opts OPT_b)
      else if c =? 105 then capopts_loop s (Z.lor opts OPT_i)
      else if c =? 112 then capopts_loop s (Z.lor opts OPT_p)
      else if c =? 101 then capopts_loop s (Z.lor opts OPT_e)
      else None
  end.

(** [src/msh/msh_cmd_pcaps.c: capopts] *)
Definition capopts (arg : ptr) : M Z :=
  s ← rd (fun m => cstr m arg);
  match capopts_loop s 0 with None => fatal (text "bad mode") arg | Some opts => mret opts end.

(** [src/msh/msh_cmd_pcaps.c: cmd_setcaps] *)
Definition cmd_setcaps : M unit :=
  optstr ← dash_opts;
  opts ← (if optstr =? 0 then mret (OPT_a + OPT_b + OPT_p + OPT_i) else capopts optstr);
  bits ← parsecaps;
  dh ← prepcaps bits opts;
  setbcaps bits opts;;
  setacaps bits opts;;
  setepicaps bits opts dh.

(** ** Security bits and filters (msh_cmd_prctl.c) *)

(** [src/msh/msh_cmd_prctl.c: secbits 12-20] *)
Definition secbits : list (list Z * Z) :=
  [(text "keepcaps", 4); (text "nosetuid", 2); (text "noroot", 0); (text "noraise", 6)].

(** [src/msh/msh_cmd_prctl.c: striplock] *)
Definition striplock (str : ptr) : M bool :=
  len ← rd (fun m => strlen m str); let len := s32 len in
  if len <=? 5 then mret false
  else
    d ← rd (fun m => strncmp_k m (str + len - 5) (text "-lock" ++ [0]) 5);
    if negb (d =? 0) then mret false
    else wr (fun m => st8 m (str + len - 5) 0);; mret true.

(** [src/msh/msh_cmd_prctl.c: prctl_secbits 44-58] *)
Fixpoint secbits_loop (fuel : nat) (bits : Z) : M Z :=
  arg ← next;
  if arg =? 0 then mret bits
  else
    match fuel with
    | O => xpure None
    | S fuel =>
        lock ← striplock arg;
        a ← rd (fun m => cstr m arg);
        r ← xpure (lookup_name (fun name => strcmpn_l (padded 12 name) (a ++ [0])) secbits);
        match r with
        | None => fatal (text "unknown bit") arg
        | Some bit =>
            let bits := Z.lor bits (Z.shiftl 1 bit) in
            secbits_loop fuel (if (lock : bool) then Z.lor bits (Z.shiftl 1 (bit + 1)) else bits)
        end
    end.

(** [src/msh/msh_cmd_prctl.c: prctl_secbits] *)
Definition prctl_secbits : M unit :=
  need_some_arguments;;
  c ← xget argc; p ← xget argp;
  bits ← secbits_loop (Z.to_nat (c - p)) 0;
  checked (Some (text "prctl")) 0 (Prctl 28 bits 0 0 0).

(** [src/msh/msh_cmd_prctl.c: prctl_nonewprivs] *)
Definition prctl_nonewprivs : M unit :=
  no_more_arguments;;
  checked (Some (text "prctl")) 0 (Prctl 38 1 0 0 0).

(** [src/msh/msh_cmd_prctl.c: prctl_seccomp] *)
Definition prctl_seccomp : M unit :=
  name ← shift;
  no_more_arguments;;
  s ← rd (fun m => cstr m name);
  fd ← do (Open s (2 ^ 19) 0);
  check None name fd;;
  r ← xcall (Fstat fd);
  check (Some (text "stat")) name (s32 (ret r));;
  st ← xpure (filled 144 r);
  st_size ← xpure (get64 st 48); let st_size := s64 st_size in
  if 0x7FFFFFFF <? st_size then error None name (-7)
  else
    let size := s32 st_size in
    if (size =? 0) || negb (crem size 8 =? 0) then fatal (text "odd size:") name
    else
      r ← xcall (Mmap (u64 size) 1 2 fd); let p := u64 (ret r) in
      let e := mmap_error p in
      if negb (e =? 0) then error (Some (text "mmap")) name e
      else
        checked (Some (text "seccomp")) name (Seccomp 1 0 (u16 (cdiv size 8)) p);;
        _ ← do (Munmap p (u64 size)); mret tt.

(** [src/msh/msh_cmd_prctl.c: cmd_prctl] *)
Definition cmd_prctl : M unit :=
  arg ← shift;
  a ← rd (fun m => cstr m arg);
  if bool_decide (a = text "no-new-privs") then prctl_nonewprivs
  else if bool_decide (a = text "secbits") then prctl_secbits
  else if bool_decide (a = text "seccomp") then prctl_seccomp
  else fatal (text "unknown prctl") arg.

(** ** Scheduling (msh_cmd_sched.c, msh_cmd_sleep.c) *)

(** [src/msh/msh_cmd_sched.c: shtypes 8-19] *)
Definition shtypes : list (list Z * Z) :=
  [(text "normal", 0); (text "other", 0); (text "fifo", 1); (text "rr", 2); (text "round", 2);
   (text "batch", 3); (text "idle", 5)].

(** [src/msh/msh_cmd_sched.c: resolve_sched] *)
Definition resolve_sched (type : ptr) : M Z :=
  t ← rd (fun m => cstr m type);
  r ← xpure (lookup_name (fun name => strncmp_l (padded 8 name) (t ++ [0]) 8) shtypes);
  match r with None => fatal (text "unknown priority") type | Some idx => mret idx end.

(** [src/msh/msh_cmd_sched.c: cmd_setprio] *)
Definition cmd_setprio : M unit :=
  prio ← shift_int;
  no_more_arguments;;
  checked (Some (text "setpriority")) 0 (Setpriority 0 0 prio).

(** [lib/sys/sched.h: cpuset_set] the mask is 128 bytes *)
Definition cpuset_set (mask : list Z) (n : Z) : option (list Z) :=
  if 128 <? u32 (8 * n) then Some mask
  else
    let off := 8 * (n / 64) in
    w ← get64 mask off; put64 mask off (Z.lor w (u64 (Z.shiftl 1 (n mod 64)))).

(** [src/msh/msh_cmd_sched.c: cmd_setcpus 50-55] *)
Fixpoint setcpus_loop (fuel : nat) (mask : list Z) : M (list Z) :=
  match fuel with
  | O => xpure None
  | S fuel =>
      id ← shift_int;
      mask ← xpure (cpuset_set mask (u32 id));
      b ← got_more_arguments;
      if (b : bool) then setcpus_loop fuel mask else mret mask
  end.

(** [src/msh/msh_cmd_sched.c: cmd_setcpus] *)
Definition cmd_setcpus : M unit :=
  c ← xget argc; p ← xget argp;
  mask ← setcpus_loop (S (Z.to_nat (c - p))) (repeat 0 128);
  checked (Some (text "setaffinity")) 0 (Setaffinity 0 mask).

(** [src/msh/msh_cmd_sched.c: cmd_scheduler] *)
Definition cmd_scheduler : M unit :=
  type ← shift;
  b ← got_more_arguments;
  prio ← (if (b : bool) then shift_int else mret 0);
  no_more_arguments;;
  tidx ← resolve_sched type;
  checked (Some (text "setscheduler")) 0 (Setscheduler 0 tidx prio).

(** [src/msh/msh_cmd_sleep.c: parsetime 28-29] the weight of the first digit
    after [n] more digits *)
Fixpoint nmul_loop (n : nat) (nmul : Z) : Z :=
  match n with O => nmul | S n => nmul_loop n (nmul / 10) end.

(** [src/msh/msh_cmd_sleep.c: parsetime] NULL for what is not a time *)
Definition parsetime (m : mem) (str : ptr) : option (option (Z * Z)) :=
  c ← ld8 m str;
  if c =? 0 then Some None
  else
    '(p, sec) ← parseulong m str 0;
    if p =? 0 then Some None
    else
      c ← ld8 m p;
      if c =? 0 then Some (Some (s64 sec, 0))
      else if negb (c =? 46) then Some None
      else
        let p := p + 1 in
        '(q, nsec) ← parseulong m p 0;
        if q =? 0 then Some None
        else
          c ← ld8 m q;
          if negb (c =? 0) then Some None
          else Some (Some (s64 sec, s64 (u64 (nsec * nmul_loop (Z.to_nat (q - p)) 1000000000)))).

(** [src/msh/msh_cmd_sleep.c: cmd_sleep] *)
Definition cmd_sleep : M unit :=
  spec ← shift;
  no_more_arguments;;
  ts ← rd (fun m => parsetime m spec);
  match ts with
  | None => fatal (text "invalid time spec") spec
  | Some (sec, nsec) => checked (Some (text "sleep")) 0 (Nanosleep sec nsec)
  end.

(** ** Waiting for files (msh_cmd_wait.c) *)

(** [src/msh/msh_cmd_wait.c: nonexistant] *)
Definition nonexistant (path : list Z) : M bool :=
  r ← do (Stat path);
  if 0 <=? r then mret false
  else if negb (r =? -2) then error_l None (Some path) r
  else mret true.

(** [src/msh/msh_cmd_wait.c: watch_ino_for 49-56] the events in the buffer,
    from [p] up to [e] *)
Fixpoint match_events (fuel : nat) (buf : list Z) (p e : Z) (name : list Z) : option bool :=
  if p <? e then
    match fuel with
    | O => None
    | S fuel =>
        d ← strcmp_l (name ++ [0]) (drop (Z.to_nat (p + 16)) buf);
        if d =? 0 then Some true
        else len ← get32 buf (p + 12); match_events fuel buf (p + 16 + len) e name
    end
  else Some false.

(** [src/msh/msh_cmd_wait.c: watch_ino_for] *)
Fixpoint watch_ino_for (fuel : nat) (fd : Z) (name : list Z) (ts : Z * Z) : M unit :=
  match fuel with
  | O => xexit
  | S fuel =>
      r ← do (Ppoll fd 1 ts);
      (if r <? 0 then error_l (Some (text "ppoll")) None r
       else if r =? 0 then error_l None (Some name) (-110) else mret tt);;
      r ← xcall (Read fd 512); let n := s32 (ret r) in
      (if n <? 0 then error_l (Some (text "inotify")) None n else mret tt);;
      buf ← xpure (filled 512 r);
      b ← xpure (match_events 32 buf 0 n name);
      if (b : bool) then mret tt else watch_ino_for fuel fd name ts
  end.

(** [lib/util/basename.c: basename] as an offset into a local string *)
Fixpoint base_offset (s : list Z) (p q : Z) : Z :=
  match s with
  | [] => q
  | c :: s => base_offset s (p + 1) (if c =? 47 then p + 1 else q)
  end.

(** [src/msh/msh_cmd_wait.c: prep_dirname] the string left in [dir] *)
Definition prep_dirname (dlen : Z) (name : list Z) (base : Z) : list Z :=
  if 0 <? base then
    let len := base - 1 in
    let len := if dlen - 1 <? len then dlen - 1 else len in
    take (Z.to_nat len) name
  else [46].

(** [src/msh/msh_cmd_wait.c: waitfor] *)
Fixpoint waitfor (fuel : nat) (fd : Z) (ts : Z * Z) (name : list Z) : M Z :=
  match fuel with
  | O => xexit
  | S fuel =>
      let base := base_offset name 0 0 in
      let dir := prep_dirname (base + 3) name base in
      let got r :=
        b ← nonexistant name;
        (if (b : bool) then watch_ino_for fuel fd (drop (Z.to_nat base) name) ts else mret tt);;
        _ ← do (Inotify_rm_watch fd (s32 r));
        mret (s32 r) in
      r ← xcall (Inotify_add_watch fd dir 256); let r := s64 (ret r) in
      if 0 <=? r then got r
      else if negb (r =? -2) then error_l (Some (text "inotify")) (Some name) (s32 r)
      else if bool_decide (dir = [47]) then error_l (Some (text "inotify")) (Some name) (s32 r)
      else
        r ← waitfor fuel fd ts dir;
        if r <? 0 then mret (s32 r)
        else
          r ← xcall (Inotify_add_watch fd dir 256);
          got (s64 (ret r))
  end.

(** [src/msh/msh_cmd_wait.c: cmd_waitfor] *)
Definition cmd_waitfor (fuel : nat) : M unit :=
  name ← shift;
  b ← got_more_arguments;
  timeout ← (if (b : bool) then shift_int else mret 2);
  no_more_arguments;;
  fd ← do (Inotify_init1 (2 ^ 11));
  check (Some (text "inotify")) 0 fd;;
  s ← rd (fun m => cstr m name);
  r ← waitfor fuel fd (timeout, 0) s;
  _ ← do (Close fd);
  check (Some (text "wait")) name r.

(** ** The table *)

(** [src/msh/msh_cmd.h: CMD 5-40] *)
Definition commands (fuel : nat) : list (list Z * M unit) :=
  [(text "cd", cmd_cd); (text "chroot", cmd_chroot); (text "clearenv", cmd_clearenv);
   (text "close", cmd_close); (text "delenv", cmd_delenv); (text "die", cmd_die);
   (text "echo", cmd_echo); (text "exec", cmd_exec); (text "exit", cmd_exit);
   (text "getenv", cmd_getenv); (text "groups", cmd_groups); (text "invoke", cmd_invoke);
   (text "mkdir", cmd_mkdir); (text "mount", cmd_mount); (text "prctl", cmd_prctl);
   (text "reopen", cmd_reopen); (text "rlimit", cmd_rlimit); (text "run", cmd_run fuel);
   (text "scheduler", cmd_scheduler); (text "set", cmd_set); (text "setcaps", cmd_setcaps);
   (text "setcpus", cmd_setcpus); (text "setenv", cmd_setenv); (text "setgid", cmd_setgid);
   (text "setprio", cmd_setprio); (text "setuid", cmd_setuid); (text "sleep", cmd_sleep);
   (text "stderr", cmd_stderr); (text "stdin", cmd_stdin); (text "stdout", cmd_stdout);
   (text "stdtwo", cmd_stdtwo); (text "umask", cmd_umask); (text "unlink", cmd_unlink);
   (text "waitfor", cmd_waitfor fuel); (text "warn", cmd_warn); (text "write", cmd_write)].

(** [src/msh/msh_parser.c: builtins 37-44] *)
Definition msh_builtins (fuel : nat) : Builtins := commands fuel.
End cmds.
