(* ===== verification/MshEnv.v ===== *)
(** * src/msh: variables and the environment

    What the commands on variables and the environment do to the list of
    variables ([MshMem]), and what is found in it. *)
From stdpp Require Import strings.
From S2P Require Import Prelude Mem Str Fmt Parse Arr Sys Nlusctl Nlsock State Exits Cstr Util Msh MshMem MshCmd.

#[local] Arguments le_bytes : simpl never.

(** ** Names *)

(** The text of a variable starts with its name and an equals sign. *)
Definition defines (sn sv : list Z) : bool := bool_decide (sn ++ [61] `prefix_of` sv).

Lemma named_loop_spec fuel m v n sv sn :
  cstr_at m v sv -> cstr_at m n sn -> (length sn < fuel)%nat ->
  exists i, named_loop fuel m v n = Some (v + Z.of_nat i, n + Z.of_nat i) /\
    (i <= length sn)%nat /\ take i sv = take i sn /\ (i <= length sv)%nat /\
    ((i < length sn)%nat -> sv !! i <> sn !! i).
Proof.
  revert v n sv sn. induction fuel as [|fuel IH]; intros v n sv sn Hv Hn Hf; [lia|]. cbn [named_loop].
  destruct sn as [|y sn].
  { apply cstr_at_nil in Hn. unfold ld8. rewrite Hn. cbn. exists 0%nat. rewrite !Z.add_0_r.
    split; [done|]. split; [lia|]. split; [done|]. split; [lia|]. simpl. lia. }
  apply cstr_at_cons in Hn as (Hy & Hyr & Hn). unfold ld8. rewrite Hy. cbn [mbind option_bind].
  rewrite (proj2 (Z.eqb_neq _ _)) by lia. cbn [negb].
  assert (exists x, m !! v = Some x /\ (x = y <-> exists sv', sv = y :: sv')) as (x & Hx & Hxy).
  { destruct sv as [|x sv]; [apply cstr_at_nil in Hv; exists 0; split; [done|split; [lia|by intros []]]|].
    apply cstr_at_cons in Hv as (Hx & _ & _). exists x. split; [done|]. split; [intros ->; by eexists|by intros (? & [= -> _])]. }
  rewrite Hx. cbn [mbind option_bind]. destruct (Z.eqb_spec x y) as [Heq|Hne].
  - apply Hxy in Heq as [sv' ->]. apply cstr_at_cons in Hv as (_ & _ & Hv).
    destruct (IH _ _ _ _ Hv Hn) as (i & Hl & Hi & Ht & Hi' & Hd); [simpl in Hf; lia|].
    exists (S i). rewrite Hl. split; [do 2 f_equal; lia|]. simpl. split; [lia|]. split; [by rewrite Ht|].
    split; [lia|]. intros ?. apply Hd. lia.
  - exists 0%nat. rewrite !Z.add_0_r. split; [done|]. split; [lia|]. split; [done|]. split; [lia|].
    intros _ Hc. apply Hne, Hxy. destruct sv as [|x' sv]; [done|]. simpl in Hc. injection Hc as ->. by eexists.
Qed.

(** A byte of a string, or its end. *)
Lemma cstr_at_lookup m p s i :
  cstr_at m p s -> (i <= length s)%nat -> m !! (p + Z.of_nat i) = Some (default 0 (s !! i)).
Proof.
  intros [Hb _] Hi. rewrite bytes_at_zget in Hb. apply Hb.
  destruct (decide (i < length s)%nat) as [Hlt|Hge].
  - rewrite zget_app_l, zget_nat by lia. by destruct (lookup_lt_is_Some_2 s i Hlt) as [x ->].
  - rewrite zget_app_r by lia. rewrite (lookup_ge_None_2 s i) by lia.
    replace (Z.of_nat i - zlen s) with 0 by lia. done.
Qed.

Lemma defines_iff sn sv :
  defines sn sv = true <-> take (length sn) sv = sn /\ sv !! length sn = Some 61.
Proof.
  unfold defines. rewrite bool_decide_eq_true. split.
  - intros [k ->]. rewrite <- app_assoc. split; [by rewrite take_app_length|].
    by rewrite lookup_app_r, Nat.sub_diag by lia.
  - intros [Ht Hl]. exists (drop (S (length sn)) sv). rewrite <- app_assoc. simpl.
    rewrite <- Ht at 1. by rewrite (take_drop_middle _ _ _ Hl).
Qed.

Lemma named_spec m v n sv sn :
  cstr_at m v sv -> cstr_at m n sn -> named v n m = Some (defines sn sv).
Proof.
  intros Hv Hn. unfold named.
  destruct (named_loop_spec (str_fuel m) m v n sv sn Hv Hn) as (i & -> & Hi & Ht & Hi' & Hd).
  { apply cstr_at_size in Hn. unfold str_fuel. lia. }
  cbn [mbind option_bind]. unfold ld8. rewrite (cstr_at_lookup _ _ _ _ Hn Hi). cbn [mbind option_bind].
  destruct (decide (i < length sn)%nat) as [Hlt|Hge].
  - destruct (lookup_lt_is_Some_2 sn i Hlt) as [y Hy]. rewrite Hy. simpl.
    assert (y <> 0) by (destruct Hn as [_ Hs]; rewrite Forall_lookup in Hs; specialize (Hs _ _ Hy); lia).
    rewrite (proj2 (Z.eqb_neq _ _)) by done. simpl. f_equal. symmetry. apply not_true_is_false.
    intros [Hp _]%defines_iff. apply (Hd Hlt). rewrite <- Hp. by rewrite lookup_take_lt.
  - assert (i = length sn) as -> by lia. rewrite (lookup_ge_None_2 sn) by lia. simpl.
    rewrite (cstr_at_lookup _ _ _ _ Hv Hi'). cbn [mbind option_bind]. f_equal. rewrite firstn_all in Ht.
    destruct (defines sn sv) eqn:Hdef.
    + apply defines_iff in Hdef as [_ ->]. done.
    + apply not_true_iff_false in Hdef. destruct (sv !! length sn) as [x|] eqn:Hx; simpl; [|done].
      apply Z.eqb_neq. intros ->. by apply Hdef, defines_iff.
Qed.

Lemma s8_cases x : 0 <= x < 256 -> s8 x = if x <? 128 then x else x - 256.
Proof. revert x. apply (range_check _ 0 256). vm_compute. reflexivity. Qed.

Lemma s8_inj x y : 0 <= x < 256 -> 0 <= y < 256 -> s8 x = s8 y -> x = y.
Proof. intros Hx Hy. rewrite !s8_cases by done. zcases. Qed.

(** [strncmp] with the length of its second argument. *)
Lemma strncmp_loop_spec fuel m v n sv sn k :
  cstr_at m v sv -> cstr_at m n sn -> sn <> [] -> k = zlen sn -> (length sn < fuel)%nat ->
  exists d, strncmp_loop fuel m v n k = Some d /\ (d = 0 <-> take (length sn) sv = sn).
Proof.
  revert v n sv sn k. induction fuel as [|fuel IH]; intros v n sv sn k Hv Hn Hne -> Hf; [lia|]. cbn [strncmp_loop].
  destruct sn as [|y sn]; [done|]. pose proof Hn as (Hy & Hyr & Hn')%cstr_at_cons.
  destruct sv as [|x sv].
  { apply cstr_at_nil in Hv. unfold ld8. rewrite Hv, Hy. cbn [mbind option_bind]. simpl.
    eexists. split; [done|]. split; [|done]. intros Hd. assert (0 = y) by (apply s8_inj; [lia|lia|lia]). lia. }
  apply cstr_at_cons in Hv as (Hx & Hxr & Hv). unfold ld8. rewrite Hx. cbn [mbind option_bind].
  rewrite (proj2 (Z.eqb_neq _ _)) by lia. cbn [negb]. cbv zeta. rewrite Hy. cbn [mbind option_bind].
  simpl length. replace (Z.of_nat (S (length sn)) - 1) with (zlen sn) by lia.
  destruct (Z.eqb_spec x y) as [->|Hxy].
  - destruct sn as [|z sn].
    + simpl. eexists. split; [done|]. split; [done|lia].
    + rewrite (proj2 (Z.ltb_lt _ _)) by (simpl; lia). cbn [andb].
      destruct (IH _ _ _ _ (zlen (z :: sn)) Hv Hn' ltac:(done) eq_refl) as (d & -> & Hd); [simpl in *; lia|].
      exists d. split; [done|]. rewrite Hd. cbn [take]. split; [by intros ->|by intros [= ?]].
  - rewrite andb_false_r. eexists. split; [done|]. split; [intros Hd|intros [= ? _]; done].
    exfalso. apply Hxy, s8_inj; lia.
Qed.

Lemma strncmp_spec m v n sv sn :
  cstr_at m v sv -> cstr_at m n sn -> sn <> [] ->
  exists d, strncmp m v n (zlen sn) = Some d /\ (d = 0 <-> take (length sn) sv = sn).
Proof.
  intros Hv Hn Hne. unfold strncmp. destruct (Z.eqb_spec (zlen sn) 0) as [Hz|_].
  { destruct sn; [done|simpl in Hz; lia]. }
  apply (strncmp_loop_spec _ _ _ _ sv sn); [done..|]. apply cstr_at_size in Hn. unfold str_fuel. lia.
Qed.

Section env.
Context `{HK : !Kern mcall} `{HL : !Locals}.
Context (base : Z) (m0 : mem) (w : world) `{HB : !BrkKern base} (Hw : world_ok base m0 w).
Context {F : Prop} {E : sh -> trace mcall -> Prop}.

Abbreviation layout := (layout base m0 w).
Abbreviation vars := (vars w).

(** ** Values *)

(** The text of an entry. *)
Definition val_of (x : ent) : list Z :=
  match e_val x with inl s => s | inr i => default [] (snd <$> w_vars w !! Z.to_nat i) end.

(** The value of a variable of the script: that of the first definition that is
    found. *)
Definition var_value (l : list ent) (name : list Z) : option (list Z) :=
  x ← List.find (fun x => e_svar x && defines name (val_of x)) (seen l);
  Some (drop (S (length name)) (val_of x)).

(** The environment of the commands. *)
Definition env_strings (l : list ent) : list (list Z) := val_of <$> List.filter e_envp (seen l).

Lemma env_lookup c t i :
  layout c t -> 0 <= i < zlen (w_vars w) ->
  exists p s, w_vars w !! Z.to_nat i = Some (p, s) /\ ostring base m0 p s /\
    ld64 (ram c) (environ c + 8 * i) = Some p.
Proof.
  intros Hl Hi. destruct (lookup_lt_is_Some_2 (w_vars w) (Z.to_nat i)) as [[p s] Hx]; [lia|].
  exists p, s. split; [done|]. pose proof (Forall_lookup_1 _ _ _ _ (wo_vars _ _ _ Hw) Hx) as Ho. simpl in Ho. split; [done|].
  rewrite (rt_env _ _ _ _ (ly_rooted _ _ _ _ _ Hl)). replace i with (Z.of_nat (Z.to_nat i)) by lia.
  eapply (oarray_at base m0 w c t); [done|by apply wo_env| |destruct Ho; lia].
  rewrite lookup_app_l by (rewrite length_fmap; lia). by rewrite list_lookup_fmap, Hx.
Qed.

(** Where the text of entry [i] is. *)
Definition eptr (h : Z) (l : list ent) (i : nat) (x : ent) : ptr :=
  match e_val x with
  | inl _ => h + tsize (take i l) + env_size
  | inr j => default 0 (fst <$> w_vars w !! Z.to_nat j)
  end.

Lemma eptr_spec l c t i x :
  layout c t -> vars l c -> l !! i = Some x ->
  0 < eptr (heap c) l i x < 2 ^ 64 /\ cstr_at (ram c) (eptr (heap c) l i x) (val_of x).
Proof.
  intros Hl Hv Hx. destruct (vars_lookup w _ _ i x Hv Hx) as (Hok & Hat & Hsz). pose proof (esize_bounds x) as [Hxs _].
  pose proof (ly_order _ _ _ _ _ Hl) as (? & ? & ?). destruct (brk_window (base := base)) as [Hw1 Hw2].
  pose proof (tsize_nonneg (take i l)). pose proof (tsize_nonneg (drop (S i) l)). destruct Hv as (_ & Hs & _).
  unfold ent_ok, ent_at, val_of, eptr, env_size, LIM in *. destruct (e_val x) as [s|j].
  - split; [lia|by apply Hat].
  - destruct (env_lookup c t j Hl) as (p & s & -> & Ho & _); [lia|]. simpl. split; [by destruct Ho|by eapply ostring_at].
Qed.

Lemma env_value_eq l c t i x type (fl : bool) (Q : ptr -> sh -> trace mcall -> Prop) :
  layout c t -> vars l c -> l !! i = Some x -> has (ekey x) type = fl ->
  Q (if fl then eptr (heap c) l i x else 0) c t ->
  xwpf F E (env_value (heap c + tsize (take i l)) type) c t Q.
Proof.
  intros Hl Hv Hx Hf HQ. destruct (vars_lookup w _ _ i x Hv Hx) as (Hok & Hat & _).
  destruct (ekey_key _ _ _ _ Hok Hat) as [Hk _]. destruct (ekey_bits _ _ Hok) as (_ & _ & _ & Href & Hlow).
  unfold env_value. xwp_step. eapply xwp_rd; [exact Hk|]. rewrite Hf.
  destruct fl; cbn [negb]; [|by xwp_step]. rewrite Href. unfold ent_ok, eptr, kref, klow in *.
  destruct (e_val x) as [s|j]; cbn [negb]; [by xwp_step|].
  do 2 xwp_step. rewrite Hlow.
  destruct (env_lookup c t j Hl) as (p & s & Hp & Ho & Hld); [lia|]. eapply xwp_rd; [exact Hld|].
  by rewrite Hp in HQ.
Qed.

Lemma env_value_wp l c t i x type (fl : bool) (Q : ptr -> sh -> trace mcall -> Prop) :
  layout c t -> vars l c -> l !! i = Some x -> has (ekey x) type = fl ->
  (forall v, (if fl then 0 < v /\ cstr_at (ram c) v (val_of x) else v = 0) -> Q v c t) ->
  xwpf F E (env_value (heap c + tsize (take i l)) type) c t Q.
Proof.
  intros Hl Hv Hx Hf HQ. eapply env_value_eq; [done..|]. apply HQ. destruct fl; [|done].
  destruct (eptr_spec l c t i x Hl Hv Hx) as [[? _] ?]. done.
Qed.

(** A string that operations on the heap above the variables do not change. *)
Definition rooted_str (l : list ent) (c : sh) (v : ptr) (s : list Z) : Prop :=
  0 < v /\ zlen s < LIM /\ (v + zlen s + 1 <= asep c \/ outside base v (zlen s + 1)) /\
  forall c' t', layout c' t' -> vars l c' -> heap c' = heap c -> cstr_at (ram c') v s.

Lemma eptr_rooted l c t i x :
  layout c t -> vars l c -> l !! i = Some x -> rooted_str l c (eptr (heap c) l i x) (val_of x).
Proof.
  intros Hl Hv Hx. destruct (eptr_spec l c t i x Hl Hv Hx) as [[Hnz _] _]. split; [done|].
  destruct (vars_lookup w _ _ i x Hv Hx) as (Hok & _ & Hsz). pose proof (esize_bounds x) as [_ Hxs].
  pose proof (tsize_nonneg (drop (S i) l)). pose proof (proj1 (proj2 Hv)) as Hs.
  assert (zlen (val_of x) < LIM /\ (eptr (heap c) l i x + zlen (val_of x) + 1 <= asep c \/
    outside base (eptr (heap c) l i x) (zlen (val_of x) + 1))) as [Hlen Hplace].
  { unfold ent_ok, val_of, eptr, EV_SIZE, env_size, LIM in *. destruct (e_val x) as [s|j].
    - split; [lia|]. left. lia.
    - destruct (env_lookup c t j Hl) as (p & s & -> & Ho & _); [lia|]. simpl. destruct Ho as (_ & _ & Ho & ?).
      unfold LIM in *. split; [lia|by right]. }
  split; [done|]. split; [done|]. intros c' t' Hl' Hv' Hh. rewrite <- Hh. by eapply eptr_spec.
Qed.

Lemma rooted_str_drop l c v s k : (k <= length s)%nat -> rooted_str l c v s -> rooted_str l c (v + Z.of_nat k) (drop k s).
Proof.
  intros Hk (Hnz & Hlen & Hpl & Hc). pose proof (length_drop s k) as Hd. split; [lia|]. split; [unfold LIM in *; lia|]. split.
  - unfold outside in *. lia.
  - intros c' t' Hl Hv Hh. apply cstr_at_drop; [done|]. by eapply Hc.
Qed.

(** [valueof] finds the value of a variable. *)
Lemma valueof_wp l c t name sn (Q : ptr -> sh -> trace mcall -> Prop) :
  layout c t -> vars l c -> cstr_at (ram c) name sn -> sn <> [] -> zlen sn < 2 ^ 31 ->
  (forall v, match var_value l sn with
             | Some s => rooted_str l c v s | None => v = 0 end -> Q v c t) ->
  xwpf F E (valueof name) c t Q.
Proof.
  intros Hl Hv Hn Hne Hlen HQ. unfold valueof. xwp_step. eapply xwp_rd; [by apply strlen_spec|]. cbv zeta.
  rewrite s32_small by lia. xwp_step.
  set (hit := fun x => e_svar x && defines sn (val_of x)).
  apply (env_each_wp base m0 w _ (fun i l' c' t' => l' = l /\ c' = c /\ t' = t /\
    List.find hit (take i l) = None) l).
  - done.
  - intros i l' c' t' (-> & -> & -> & _). done.
  - intros i l' x c' t' Hi Hx _ (-> & -> & -> & Hnone).
    destruct (vars_lookup w _ _ i x Hv Hx) as (Hok & _ & _).
    destruct (ekey_bits _ _ Hok) as (_ & _ & Hsv & _).
    assert (List.find hit (take (S i) l) = if hit x then Some x else None) as Hstep.
    { rewrite (take_S_r _ _ _ Hx). clear -Hnone. induction (take i l) as [|y k IH]; simpl in *; [done|].
      destruct (hit y); [done|by apply IH]. }
    xwp_step. eapply env_value_eq; [done|done|done|exact Hsv|].
    pose proof (eptr_rooted l c t i x Hl Hv Hx) as Hroot. set (v := eptr (heap c) l i x) in *.
    pose proof Hroot as (Hnz & _ & _ & Hc). specialize (Hc c t Hl Hv eq_refl).
    destruct (e_svar x) eqn:Hs; unfold hit in Hstep at 2; rewrite Hs in Hstep; cbn [andb] in Hstep.
    + rewrite (proj2 (Z.eqb_neq _ _)) by lia. xwp_step.
      destruct (strncmp_spec (ram c) v name (val_of x) sn Hc Hn Hne) as (d & Hd & Hd0).
      eapply xwp_rd; [exact Hd|]. destruct (Z.eqb_spec d 0) as [Hz|Hz]; cbn [negb].
      * apply Hd0 in Hz. assert (length sn <= length (val_of x))%nat as Hle.
        { rewrite <- Hz, length_take. lia. }
        xwp_step. eapply xwp_rd; [by apply cstr_at_lookup|]. xwp_step.
        destruct (val_of x !! length sn) as [b|] eqn:Hb; simpl default.
        -- destruct (Z.eqb_spec b 61) as [->|Hb61]; cbn [negb].
           ++ xwp_step. assert (defines sn (val_of x) = true) as Hdef by (by apply defines_iff).
              rewrite Hdef in Hstep. simpl. apply HQ. unfold var_value, seen. fold hit.
              assert (List.find hit (take (nseen l) l) = Some x) as ->.
              { rewrite <- (take_drop (S i) (take (nseen l) l)), take_take, Nat.min_l by lia.
                clear -Hstep. induction (take (S i) l) as [|y k IH]; simpl in *; [done|].
                destruct (hit y); [done|by apply IH]. }
              simpl. replace (v + zlen sn + 1) with (v + Z.of_nat (S (length sn))) by lia.
              apply rooted_str_drop; [|done]. apply lookup_lt_Some in Hb. lia.
           ++ exists l. repeat split; [done..|]. rewrite Hstep. destruct (defines sn (val_of x)) eqn:Hdef; [|done].
              apply defines_iff in Hdef as [_ Hdef]. congruence.
        -- cbn. exists l. repeat split; [done..|]. rewrite Hstep. destruct (defines sn (val_of x)) eqn:Hdef; [|done].
           apply defines_iff in Hdef as [_ Hdef]. congruence.
      * xwp_step. exists l. repeat split; [done..|]. rewrite Hstep. destruct (defines sn (val_of x)) eqn:Hdef; [|done].
        apply defines_iff in Hdef as [Hdef _]. by apply Hd0 in Hdef.
    + cbn [Z.eqb]. xwp_step. by exists l.
  - intros l' c' t' _ (-> & -> & -> & Hnone). xwp_step. simpl. apply HQ. unfold var_value, seen. fold hit.
    by rewrite Hnone.
Qed.

(** ** Changes of the list *)

(** There is a variable of the script with that name. *)
Definition duplicate (l : list ent) (name : list Z) : bool :=
  List.existsb (fun x => e_svar x && defines name (val_of x)) (seen l).

Lemma check_not_defined_wp l c t name sn (Q : unit -> sh -> trace mcall -> Prop) :
  layout c t -> vars l c -> cstr_at (ram c) name sn ->
  (duplicate l sn = true -> @ends E c t (Some (text "duplicate definition")) None 0) ->
  (duplicate l sn = false -> Q tt c t) ->
  xwpf F E (check_not_defined name) c t Q.
Proof.
  intros Hl Hv Hn Hdup HQ. unfold check_not_defined. xwp_step.
  set (hit := fun x => e_svar x && defines sn (val_of x)).
  apply (env_each_wp base m0 w _ (fun i l' c' t' => l' = l /\ c' = c /\ t' = t /\
    List.existsb hit (take i l) = false) l).
  - done.
  - intros i l' c' t' (-> & -> & -> & _). done.
  - intros i l' x c' t' Hi Hx _ (-> & -> & -> & Hnone).
    destruct (vars_lookup w _ _ i x Hv Hx) as (Hok & _ & _).
    destruct (ekey_bits _ _ Hok) as (_ & _ & Hsv & _).
    assert (List.existsb hit (take (S i) l) = hit x) as Hstep.
    { rewrite (take_S_r _ _ _ Hx), existsb_app, Hnone. simpl. by rewrite orb_false_r. }
    xwp_step. eapply env_value_wp; [done|done|done|exact Hsv|]. intros v Hval. unfold hit in Hstep at 2.
    destruct (e_svar x) eqn:Hs; cbn [andb] in Hstep.
    + destruct Hval as [Hnz Hc]. rewrite (proj2 (Z.eqb_neq _ _)) by lia. xwp_step.
      eapply xwp_rd; [by apply named_spec|]. destruct (defines sn (val_of x)) eqn:Hdef; cbn [negb].
      * eapply fatal_wp; [by eapply layout_readable|done|]. apply Hdup. unfold duplicate, seen. fold hit.
        rewrite <- (take_drop (S i) (take (nseen l) l)), take_take, Nat.min_l by lia.
        by rewrite existsb_app, Hstep.
      * xwp_step. by exists l.
    + rewrite Hval. cbn [Z.eqb]. xwp_step. by exists l.
  - intros l' c' t' _ (-> & -> & -> & Hnone). xwp_step. by apply HQ.
Qed.

(** The list after [f] was applied to the entries that are found. *)
Definition on_seen (f : ent -> ent) (l : list ent) : list ent := (f <$> seen l) ++ drop (nseen l) l.

(** A store of a key that differs in its flags only. *)
Lemma vars_set_key l c t i x x' :
  layout c t -> vars l c -> l !! i = Some x -> e_val x' = e_val x ->
  let c' := c <| ram := poke (ram c) (heap c + tsize (take i l)) (le_bytes 4 (ekey x')) |> in
  layout c' t /\ vars (<[i := x']> l) c' /\ agree (ram c) (ram c') (asep c) (2 ^ 64) /\
  mapped (ram c) (heap c + tsize (take i l)) 4.
Proof.
  intros Hl Hv Hx Hval c'. pose proof Hv as (He & Hs & Hok).
  destruct (vars_lookup w _ _ i x Hv Hx) as (Hxok & Hat & Hsz).
  pose proof (esize_bounds x) as [Hxs _]. pose proof (tsize_nonneg (take i l)).
  pose proof (tsize_nonneg (drop (S i) l)). pose proof (ly_order _ _ _ _ _ Hl) as (? & ? & ?).
  unfold env_size in *. assert (esize x' = esize x) as Hes by (unfold esize; by rewrite Hval).
  set (p := heap c + tsize (take i l)) in *.
  assert (forall lo hi, hi <= p \/ p + 4 <= lo -> agree (ram c) (ram c') lo hi) as Hag.
  { intros lo hi Hd. apply agree_poke. rewrite length_le_bytes. lia. }
  split; [apply layout_poke; [done|lia|rewrite length_le_bytes; lia]|].
  split; [|split; [apply Hag; lia|]].
  - assert (l = take i l ++ x :: drop (S i) l) as Hspl by (symmetry; by apply take_drop_middle).
    pose proof (lookup_lt_Some _ _ _ Hx).
    assert (<[i := x']> l = take i l ++ x' :: drop (S i) l) as Hins by (by apply insert_take_drop).
    split; [|split].
    + change (ents_at (ram c') (heap c) (<[i := x']> l)). rewrite Hins. rewrite Hspl in He.
      apply ents_at_app in He as [Hpre [Hx2 Hpost]]. apply ents_at_app. fold p in Hx2, Hpost |- *. split; [|split].
      * eapply ents_at_agree; [|done]. apply Hag. unfold p. lia.
      * split; [apply bytes_at_poke|]. rewrite Hval. destruct Hx2 as [_ Hx2].
        destruct (e_val x) as [s|] eqn:Hv'; [|done].
        eapply cstr_at_agree; [|done]. apply Hag. unfold env_size. lia.
      * rewrite Hes. eapply ents_at_agree; [|done]. apply Hag. lia.
    + change (asep c = heap c + tsize (<[i := x']> l)). rewrite Hins, tsize_app, Hs, Hsz. simpl. lia.
    + apply Forall_insert; [done|]. unfold ent_ok in *. by rewrite Hes, Hval.
  - apply (mapped_sub _ (heap c) (hend c - heap c)); [by apply (ly_mapped _ _ _ _ _ Hl)|unfold p; lia|unfold p; lia].
Qed.

Lemma on_seen_step f l i x :
  (i < nseen l)%nat -> l !! i = Some x ->
  <[i := f x]> ((f <$> take i l) ++ drop i l) = (f <$> take (S i) l) ++ drop (S i) l.
Proof.
  intros Hi Hx. pose proof (lookup_lt_Some _ _ _ Hx). rewrite (take_S_r _ _ _ Hx), fmap_app, <- app_assoc.
  rewrite (drop_S _ _ _ Hx). rewrite insert_app_r_alt by (rewrite length_fmap, length_take; lia).
  rewrite length_fmap, length_take. replace (i - i `min` length l)%nat with 0%nat by lia. done.
Qed.

(** A walk that applies [f] to the entries by storing their keys anew. *)
Lemma on_seen_wp (body : ptr -> M (option unit)) f l c t (Q : option unit -> sh -> trace mcall -> Prop) :
  layout c t -> vars l c ->
  (forall x, e_val (f x) = e_val x) ->
  (forall l' i x c', layout c' t -> vars l' c' -> l' !! i = Some x -> agree (ram c) (ram c') (asep c) (2 ^ 64) ->
     asep c' = asep c ->
     let p := heap c' + tsize (take i l') in
     xwpf F E (body p) c' t (fun r c'' t'' => r = None /\ t'' = t /\
       (c'' = c' <| ram := poke (ram c') p (le_bytes 4 (ekey (f x))) |> \/ c'' = c' /\ f x = x))) ->
  (forall c', layout c' t -> vars (on_seen f l) c' -> agree (ram c) (ram c') (asep c) (2 ^ 64) ->
     c' = c <| ram := ram c' |> -> Q None c' t) ->
  xwpf F E (env_each body) c t Q.
Proof.
  intros Hl Hv Hf Hbody HQ.
  assert (forall k, esize <$> ((f <$> take k l) ++ drop k l) = esize <$> l) as Hsz.
  { intros k. rewrite fmap_app, <- list_fmap_compose. rewrite (list_fmap_ext (esize ∘ f) esize).
    - by rewrite <- fmap_app, take_drop.
    - intros _ x _. simpl. unfold esize. by rewrite Hf. }
  apply (env_each_wp base m0 w _ (fun i l' c' t' => t' = t /\ l' = (f <$> take i l) ++ drop i l /\
    layout c' t /\ vars l' c' /\ agree (ram c) (ram c') (asep c) (2 ^ 64) /\ c' = c <| ram := ram c' |>) l).
  - simpl. split; [done|]. split; [done|]. split; [done|]. split; [done|]. split; [by intros a|by destruct c].
  - intros i l' c' t' (-> & -> & Hl' & Hv' & _ & Heq). split; [done|]. split; [done|]. by rewrite Heq.
  - intros i l' x c' t' Hi Hx Hsz' (-> & -> & Hl' & Hv' & Hag & Heq).
    assert (heap c' = heap c) as Hh by (by rewrite Heq). rewrite <- Hh.
    assert (l !! i = Some x) as Hx'.
    { rewrite lookup_app_r in Hx by (rewrite length_fmap, length_take; lia).
      rewrite length_fmap, length_take, lookup_drop in Hx. rewrite <- Hx. f_equal.
      pose proof (nseen_length l). lia. }
    eapply xwp_mono; [apply (Hbody _ i x c'); [done|done|done|done|by rewrite Heq]|].
    intros r c'' t'' (-> & -> & Hor). eexists. split; [|split; [done|split; [done|]]]; [apply Hsz|].
    rewrite <- (on_seen_step f l i x Hi Hx'). destruct Hor as [->|[-> Hfx]].
    + destruct (vars_set_key _ _ _ i x (f x) Hl' Hv' Hx (Hf x)) as (Hl2 & Hv2 & Hag2 & _).
      split; [done|]. split; [done|]. split; [|rewrite Heq; by destruct c].
      eapply agree_trans; [done|]. replace (asep c) with (asep c') by (by rewrite Heq). done.
    + rewrite Hfx, list_insert_id by done. done.
  - intros l' c' t' _ (-> & -> & Hl' & Hv' & Hag & Heq). by apply HQ.
Qed.

(** What [setenv] and [delenv] do to the old definitions of a name, and
    [clearenv] to all. *)
Definition undef (name : list Z) (x : ent) : ent :=
  if e_envp x && defines name (val_of x) then Ent false false (e_val x) else x.
Definition unenv (x : ent) : ent := if e_envp x then Ent false (e_svar x) (e_val x) else x.

Lemma store_key_wp {A} (k : M A) l c t i x x' mask (Q : A -> sh -> trace mcall -> Prop) :
  layout c t -> vars l c -> l !! i = Some x -> e_val x' = e_val x -> 0 <= mask < 4 ->
  Z.land (kflags x) (2 ^ 16 - 1 - mask) = kflags x' ->
  xwpf F E k (c <| ram := poke (ram c) (heap c + tsize (take i l)) (le_bytes 4 (ekey x')) |>) t Q ->
  xwpf F E (key ← rd (fun m => ld32 m (heap c + tsize (take i l)));
            wr (fun m => st32 m (heap c + tsize (take i l)) (Z.land key (2 ^ 32 - 1 - 2 ^ 16 * mask)));; k) c t Q.
Proof.
  intros Hl Hv Hx Hval Hm Hk HQ. destruct (vars_lookup w _ _ i x Hv Hx) as (Hok & Hat & _).
  destruct (ekey_key _ _ _ _ Hok Hat) as [Hld _]. xwp_step. eapply xwp_rd; [exact Hld|].
  rewrite (ekey_clear _ x mask x') by done. xwp_step. eapply xwp_wr; [|done]. apply stn_spec. rewrite length_le_bytes.
  by eapply (vars_set_key l c t i x x').
Qed.

Lemma clear_definition_wp l c t name sn (Q : unit -> sh -> trace mcall -> Prop) :
  layout c t -> vars l c -> cstr_at (ram c) name sn -> asep c <= name -> name + zlen sn + 1 <= 2 ^ 64 ->
  (forall c', layout c' t -> vars (on_seen (undef sn) l) c' -> agree (ram c) (ram c') (asep c) (2 ^ 64) ->
     c' = c <| ram := ram c' |> -> Q tt c' t) ->
  xwpf F E (clear_definition name) c t Q.
Proof.
  intros Hl Hv Hn Hlo Hhi HQ. unfold clear_definition. xwp_step.
  apply (on_seen_wp _ (undef sn) l c t); [done|done| | |].
  - intros x. unfold undef. by case_match.
  - intros l' i x c' Hl' Hv' Hx Hag Ha p. unfold p. clear p.
    destruct (vars_lookup w _ _ i x Hv' Hx) as (Hok & _ & _). destruct (ekey_bits _ _ Hok) as (_ & Hen & _).
    xwp_step. eapply env_value_wp; [done|done|done|exact Hen|]. intros v Hval.
    unfold undef. destruct (e_envp x) eqn:Hs; cbn [andb].
    + destruct Hval as [Hnz Hc]. rewrite (proj2 (Z.eqb_neq _ _)) by lia. xwp_step.
      eapply xwp_rd.
      { apply named_spec; [done|]. eapply cstr_at_agree; [|done]. eapply agree_sub; [done|lia|lia]. }
      destruct (defines sn (val_of x)) eqn:Hdef; cbn [negb].
      * apply (store_key_wp _ l' c' t i x (Ent false false (e_val x)) 3); [done..|lia| |].
        { unfold kflags, kref. simpl. by destruct (e_envp x), (e_svar x), (e_val x). }
        xwp_step. auto.
      * xwp_step. auto.
    + rewrite Hval. cbn [Z.eqb]. xwp_step. auto.
  - intros c' Hl' Hv' Hag Heq. xwp_step. by apply HQ.
Qed.

Lemma clear_all_entries_wp l c t (Q : unit -> sh -> trace mcall -> Prop) :
  layout c t -> vars l c ->
  (forall c', layout c' t -> vars (on_seen unenv l) c' -> agree (ram c) (ram c') (asep c) (2 ^ 64) ->
     c' = c <| ram := ram c' |> -> Q tt c' t) ->
  xwpf F E (clear_all_entries EV_ENVP) c t Q.
Proof.
  intros Hl Hv HQ. unfold clear_all_entries. xwp_step.
  apply (on_seen_wp _ unenv l c t); [done|done| | |].
  - intros x. unfold unenv. by case_match.
  - intros l' i x c' Hl' Hv' Hx Hag Ha p. unfold p. clear p.
    destruct (vars_lookup w _ _ i x Hv' Hx) as (Hok & Hat & _). destruct (ekey_bits _ _ Hok) as (_ & Hen & _).
    destruct (ekey_key _ _ _ _ Hok Hat) as [Hld _]. xwp_step. eapply xwp_rd; [exact Hld|]. rewrite Hen.
    unfold unenv. destruct (e_envp x) eqn:Hs; cbn [negb]; [|xwp_step; auto].
    change (2 ^ 32 - 1 - EV_ENVP) with (2 ^ 32 - 1 - 2 ^ 16 * 1).
    rewrite (ekey_clear (zlen (w_vars w)) x 1 (Ent false (e_svar x) (e_val x))); [|done|lia|done|].
    2: { unfold kflags, kref. simpl. rewrite Hs. by destruct (e_svar x), (e_val x). }
    xwp_step. eapply xwp_wr; [|xwp_step; auto]. apply stn_spec. rewrite length_le_bytes.
    by eapply (vars_set_key l' c' t i x (Ent false (e_svar x) (e_val x))).
  - intros c' Hl' Hv' Hag Heq. xwp_step. by apply HQ.
Qed.

(** ** New entries *)

(** A store at the end of the list makes it longer.  What is stored over and what
    it is copied from are apart. *)
Lemma vars_snoc l c t x c' b :
  layout c t -> vars l c -> ent_ok (zlen (w_vars w)) x ->
  c' = c <| asep := asep c + esize x |> <| ram := poke (ram c) (asep c) b |> ->
  zlen b <= esize x -> ent_at (poke (ram c) (asep c) b) (asep c) x ->
  asep c + esize x <= hptr c ->
  layout c' t /\ vars (l ++ [x]) c' /\ agree (ram c) (ram c') (asep c + esize x) (2 ^ 64).
Proof.
  intros Hl (He & Hs & Hok) Hx -> Hb Hat Hroom. pose proof (esize_bounds x) as [Hxs _].
  pose proof (ly_order _ _ _ _ _ Hl) as (? & ? & ?). pose proof (tsize_nonneg l). unfold env_size in *. split; [|split].
  - destruct Hl as [[] ? ? ? Hout]. split; [by split|simpl; lia|done| |].
    + simpl. by apply mapped_poke.
    + intros a Ha. simpl. rewrite lookup_poke_out by lia. by apply Hout.
  - split; [|split].
    + simpl. apply ents_at_app. split; [|split; [|done]].
      * eapply ents_at_agree; [|done]. apply agree_poke. lia.
      * rewrite <- Hs. done.
    + simpl. rewrite tsize_app. simpl. lia.
    + apply Forall_app. split; [done|by constructor].
  - simpl. apply agree_poke. lia.
Qed.

(** The flags a new entry can have. *)
Definition flags_of (envp svar : bool) : Z := (if envp then EV_ENVP else 0) + (if svar then EV_SVAR else 0).

Lemma flags_lor envp svar n : 0 <= n < 2 ^ 16 -> Z.lor (flags_of envp svar) n = flags_of envp svar + n.
Proof. intros Hn. apply (lor_disjoint _ _ 16); [lia| |done]. by destruct envp, svar. Qed.

Lemma append_variable_wp l c t v s envp svar (Q : unit -> sh -> trace mcall -> Prop) :
  let x := Ent envp svar (inl s) in
  layout c t -> vars l c -> cstr_at (ram c) v s -> zlen s < 2 ^ 30 ->
  asep c + esize x <= v -> asep c + esize x <= hptr c ->
  (EV_SIZE < esize x -> forall c' t', errfd c' = errfd c -> line c' = line c -> t' = t ->
     @ends E c' t' (Some (text "variable overflow")) None 0) ->
  (esize x <= EV_SIZE -> forall c', layout c' t -> vars (l ++ [x]) c' ->
     c' = c <| asep := asep c + esize x |> <| ram := ram c' |> ->
     agree (ram c) (ram c') (asep c + esize x) (2 ^ 64) -> Q tt c' t) ->
  xwpf F E (append_variable v (flags_of envp svar)) c t Q.
Proof.
  intros x Hl Hv Hs Hlen Hap Hroom HE HQ. unfold append_variable. xwp_step.
  eapply xwp_rd; [by apply strlen_spec|]. cbv zeta. rewrite s32_small by lia. do 2 xwp_step. do 2 xwp_step.
  change (align4 (env_size + zlen s + 1)) with (esize x). pose proof (esize_bounds x) as [Hxs Hxs'].
  simpl in Hxs'. unfold env_size in *. apply xwp_if; intros Hsz; zbool.
  { eapply fatal_wp; [|done|].
    - destruct (layout_readable _ _ _ _ _ Hl) as [f Hf]. by exists f.
    - by apply HE. }
  pose proof (ly_order _ _ _ _ _ Hl) as (? & ? & ?). unfold EV_SIZE in *.
  assert (ekey x = Z.lor (flags_of envp svar) (esize x)) as Hkey by (rewrite flags_lor by lia; unfold ekey, flags_of; simpl; lia).
  assert (mapped (ram c) (asep c) (esize x)) as Hm.
  { apply (mapped_sub _ (heap c) (hend c - heap c)); [by apply (ly_mapped _ _ _ _ _ Hl)|lia|lia]. }
  unfold st32. rewrite <- Hkey. remember (le_bytes 4 (ekey x)) as kb eqn:Hkb.
  assert (zlen kb = 4) as Hkl by (by rewrite Hkb, length_le_bytes).
  xwp_step. eapply xwp_wr.
  { apply stn_spec. rewrite Hkl. simpl. eapply mapped_sub; [done|lia|lia]. }
  eapply xwp_wr.
  { apply (memcpy_spec _ _ _ (s ++ [0])).
    - rewrite length_app. simpl. lia.
    - apply Forall_app. split; [by apply str_bytes, Hs|]. constructor; [lia|done].
    - simpl. apply bytes_at_poke_disjoint; [rewrite length_app; simpl; lia|by apply Hs].
    - simpl. apply mapped_poke. eapply mapped_sub; [done|lia|lia].
    - simpl. lia. }
  simpl.
  pose proof (vars_snoc l c t x (c <| asep := asep c + esize x |> <| ram := poke (ram c) (asep c) (kb ++ s ++ [0]) |>)
    (kb ++ s ++ [0]) Hl Hv) as Hnew. rewrite poke_app, Hkl in Hnew.
  destruct Hnew as (Hl' & Hv' & Hag); [|done| | |done|].
  - split; [unfold EV_SIZE; lia|by apply Hs].
  - rewrite !length_app. simpl. lia.
  - split.
    + rewrite <- Hkb. apply bytes_at_poke_disjoint; [rewrite Hkl; lia|apply bytes_at_poke].
    + simpl. split; [apply bytes_at_poke|by apply Hs].
  - apply HQ; [lia|done|done|done|done].
Qed.

Lemma append_reference_wp l c t idx envp svar (Q : unit -> sh -> trace mcall -> Prop) :
  let x := Ent envp svar (inr idx) in
  layout c t -> vars l c -> 0 <= idx < zlen (w_vars w) -> asep c + env_size <= hptr c ->
  (EV_SIZE < idx -> forall c' t', errfd c' = errfd c -> line c' = line c -> t' = t ->
     @ends E c' t' (Some (text "reference overflow")) None 0) ->
  (idx <= EV_SIZE -> forall c', layout c' t -> vars (l ++ [x]) c' ->
     c' = c <| asep := asep c + env_size |> <| ram := ram c' |> ->
     agree (ram c) (ram c') (asep c + env_size) (2 ^ 64) -> Q tt c' t) ->
  xwpf F E (append_reference idx (flags_of envp svar)) c t Q.
Proof.
  intros x Hl Hv Hidx Hroom HE HQ. unfold append_reference. do 4 xwp_step. apply xwp_if; intros Hsz; zbool.
  { eapply fatal_wp; [|done|by apply HE]. destruct (layout_readable _ _ _ _ _ Hl) as [f Hf]. by exists f. }
  pose proof (ly_order _ _ _ _ _ Hl) as (? & ? & ?). unfold EV_SIZE, env_size in *.
  assert (ekey x = Z.lor (Z.lor EV_REF (flags_of envp svar)) idx) as Hkey.
  { assert (Z.lor EV_REF (flags_of envp svar) = EV_REF + flags_of envp svar) as -> by (by destruct envp, svar).
    rewrite (lor_disjoint _ _ 16); [|lia|by destruct envp, svar|lia]. unfold ekey, flags_of. simpl. lia. }
  unfold st32. rewrite <- Hkey. remember (le_bytes 4 (ekey x)) as kb eqn:Hkb.
  assert (zlen kb = 4) as Hkl by (by rewrite Hkb, length_le_bytes).
  eapply xwp_wr.
  { apply stn_spec. rewrite Hkl. simpl.
    apply (mapped_sub _ (heap c) (hend c - heap c)); [by apply (ly_mapped _ _ _ _ _ Hl)|lia|lia]. }
  simpl. destruct (vars_snoc l c t x (c <| asep := asep c + esize x |> <| ram := poke (ram c) (asep c) kb |>) kb
    Hl Hv) as (Hl' & Hv' & Hag).
  - unfold ent_ok. simpl. unfold EV_SIZE. lia.
  - done.
  - rewrite Hkl. unfold esize, env_size. simpl. lia.
  - rewrite Hkb. split; [apply bytes_at_poke|done].
  - unfold esize, env_size. simpl. lia.
  - by apply HQ.
Qed.

(** Memory from the heap, whatever is between the variables and its end. *)
Lemma alloc_wp l c t len (Q : ptr -> sh -> trace mcall -> Prop) :
  layout c t -> vars l c -> @oom E c t -> 0 <= len < 2 ^ 31 ->
  (forall c' t', layout c' t' -> vars l c' -> hptr c' = hptr c + len -> same c c' ->
     agree (ram c) (ram c') 0 (hptr c) -> visible t' = visible t -> Q (hptr c) c' t') ->
  xwpf F E (heap_alloc len) c t Q.
Proof.
  intros Hl Hv HE Hlen HQ. pose proof (ly_order _ _ _ _ _ Hl) as (? & ? & ?).
  destruct (peek_mapped (ram c) (asep c) (Z.to_nat (hptr c - asep c))) as [a Ha].
  { apply (mapped_sub _ (heap c) (hend c - heap c)); [by apply (ly_mapped _ _ _ _ _ Hl)|lia|lia]. }
  apply peek_Some in Ha as [Hal Ha].
  apply (heap_alloc_wp base m0 w l a); [|done|done|by intros; apply HQ]. split; [done|done|]. split; [done|lia].
Qed.

(** A store into what was taken from the heap. *)
Lemma fresh_store l c t p b :
  layout c t -> vars l c -> asep c <= p -> p + zlen b <= hptr c ->
  let c' := c <| ram := poke (ram c) p b |> in layout c' t /\ vars l c' /\ agree (ram c) (ram c') 0 p.
Proof.
  intros Hl Hv Hp He c'. pose proof (ly_order _ _ _ _ _ Hl) as (? & ? & ?).
  destruct (brk_window (base := base)) as [Hw1 _].
  split; [apply layout_poke; [done|lia|lia]|]. split; [|apply agree_poke; lia].
  apply (vars_agree w l c); [lia|done|done|apply agree_poke; lia|done].
Qed.

Lemma realloc_higher_wp l c t p s (Q : ptr -> sh -> trace mcall -> Prop) :
  layout c t -> vars l c -> @oom E c t -> cstr_at (ram c) p s -> 0 <= p -> p + zlen s < hptr c -> zlen s < 2 ^ 30 ->
  (forall c' t', layout c' t' -> vars l c' -> same c c' -> agree (ram c) (ram c') 0 (hptr c) ->
     visible t' = visible t -> cstr_at (ram c') (hptr c) s -> hptr c + zlen s + 1 <= hptr c' -> Q (hptr c) c' t') ->
  xwpf F E (realloc_higher p) c t Q.
Proof.
  intros Hl Hv HE Hs Hp Hin Hlen HQ. unfold realloc_higher. xwp_step. eapply xwp_rd; [by apply strlen_spec|].
  cbv zeta. rewrite s32_small by lia. pose proof (align4_range (zlen s + 1)).
  pose proof (ly_order _ _ _ _ _ Hl) as (? & ? & ?).
  xwp_step. eapply alloc_wp; [done..|lia|]. intros c' t' Hl' Hv' Hp' Hsm Hag Ht.
  pose proof (ly_order _ _ _ _ _ Hl') as (? & ? & ?).
  assert (asep c' = asep c /\ heap c' = heap c) as [Ha' Hh'] by (by rewrite Hsm).
  xwp_step. eapply xwp_wr.
  { apply (memcpy_spec _ _ _ (s ++ [0])).
    - rewrite length_app. simpl. lia.
    - apply Forall_app. split; [by apply str_bytes, Hs|]. constructor; [lia|done].
    - eapply bytes_at_agree; [|by apply Hs]. eapply agree_sub; [done|lia|rewrite length_app; simpl; lia].
    - apply (mapped_sub _ (heap c') (hend c' - heap c')); [by apply (ly_mapped _ _ _ _ _ Hl')|lia|lia].
    - lia. }
  assert (zlen (s ++ [0]) = zlen s + 1) as Hl0 by (rewrite length_app; simpl; lia).
  destruct (fresh_store l c' t' (hptr c) (s ++ [0]) Hl' Hv') as (Hl2 & Hv2 & Hag2); [lia|lia|].
  xwp_step. apply HQ; [done|done| | |done| |simpl; lia].
  - unfold same in *. rewrite Hsm. by destruct c.
  - by eapply agree_trans.
  - split; [apply bytes_at_poke|by apply Hs].
Qed.

Lemma realloc_pair_wp l c t p s q r (Q : ptr -> sh -> trace mcall -> Prop) :
  layout c t -> vars l c -> @oom E c t -> cstr_at (ram c) p s -> cstr_at (ram c) q r ->
  0 <= p -> p + zlen s < hptr c -> 0 <= q -> q + zlen r < hptr c -> zlen s < 2 ^ 29 -> zlen r < 2 ^ 29 ->
  (forall c' t', layout c' t' -> vars l c' -> same c c' -> agree (ram c) (ram c') 0 (hptr c) ->
     visible t' = visible t -> cstr_at (ram c') (hptr c) (s ++ 61 :: r) ->
     hptr c + zlen s + zlen r + 2 <= hptr c' -> Q (hptr c) c' t') ->
  xwpf F E (realloc_pair p q) c t Q.
Proof.
  intros Hl Hv HE Hs Hr Hp Hpin Hq Hqin Hsl Hrl HQ. unfold realloc_pair.
  xwp_step. eapply xwp_rd; [by apply strlen_spec|]. cbv zeta. rewrite s32_small by lia.
  xwp_step. eapply xwp_rd; [by apply strlen_spec|]. cbv zeta. rewrite s32_small by lia.
  pose proof (align4_range (zlen s + zlen r + 2)). pose proof (ly_order _ _ _ _ _ Hl) as (? & ? & ?).
  xwp_step. eapply alloc_wp; [done..|lia|]. intros c' t' Hl' Hv' Hp' Hsm Hag Ht.
  pose proof (ly_order _ _ _ _ _ Hl') as (? & ? & ?).
  assert (asep c' = asep c /\ heap c' = heap c) as [Ha' Hh'] by (by rewrite Hsm).
  assert (mapped (ram c') (hptr c) (zlen s + zlen r + 2)) as Hm.
  { apply (mapped_sub _ (heap c') (hend c' - heap c')); [by apply (ly_mapped _ _ _ _ _ Hl')|lia|lia]. }
  assert (bytes_at (ram c') p s) as Hsb.
  { eapply bytes_at_agree; [eapply agree_sub; [done|lia|lia]|]. by apply (bytes_at_app _ _ s [0]), Hs. }
  assert (bytes_at (ram c') q r) as Hrb.
  { eapply bytes_at_agree; [eapply agree_sub; [done|lia|lia]|]. by apply (bytes_at_app _ _ r [0]), Hr. }
  xwp_step. eapply xwp_wr.
  { apply (memcpy_spec _ _ _ s); [done|by apply str_bytes, Hs|done|eapply mapped_sub; [done|lia|lia]|lia]. }
  xwp_step. eapply xwp_wr.
  { apply st8_mapped. simpl. apply poke_is_Some, Hm. lia. }
  rewrite (u8_byte 61) by lia. xwp_step. eapply xwp_wr.
  { apply (memcpy_spec _ _ _ r); [done|by apply str_bytes, Hr| | |lia].
    - simpl. apply bytes_at_insert_apart; [lia|]. apply bytes_at_poke_disjoint; [lia|done].
    - simpl. apply mapped_insert, mapped_poke. eapply mapped_sub; [done|lia|lia]. }
  xwp_step. eapply xwp_wr.
  { apply st8_mapped. simpl. apply poke_is_Some, is_Some_insert, poke_is_Some, Hm. lia. }
  rewrite (u8_byte 0) by lia. simpl. xwp_step.
  assert (<[hptr c + zlen s + 1 + zlen r:=0]> (poke (<[hptr c + zlen s:=61]> (poke (ram c') (hptr c) s)) (hptr c + zlen s + 1) r)
    = poke (ram c') (hptr c) (s ++ [61] ++ r ++ [0])) as ->.
  { by rewrite !poke_app. }
  assert (zlen (s ++ [61] ++ r ++ [0]) = zlen s + zlen r + 2) as Hl0 by (rewrite !length_app; simpl; lia).
  destruct (fresh_store l c' t' (hptr c) (s ++ [61] ++ r ++ [0]) Hl' Hv') as (Hl2 & Hv2 & Hag2); [lia|lia|].
  apply HQ; [done|done| | |done| |simpl; lia].
  - unfold same in *. rewrite Hsm. by destruct c.
  - by eapply agree_trans.
  - split; [|apply Forall_app; split; [by apply Hs|constructor; [lia|by apply Hr]]].
    rewrite <- app_assoc. apply bytes_at_poke.
Qed.

(** ** The environment *)

Definition env_refs (i : Z) (n : nat) : list ent := (fun i => Ent true false (inr i)) <$> seqZ i (Z.of_nat n).

Lemma tsize_refs i n : tsize (env_refs i n) = env_size * Z.of_nat n.
Proof.
  revert i. induction n as [|n IH]; intros i; [done|]. unfold env_refs in *.
  rewrite Nat2Z.inj_succ, seqZ_cons by lia. rewrite fmap_cons. simpl tsize.
  replace (Z.pred (Z.succ (Z.of_nat n))) with (Z.of_nat n) by lia. rewrite IH. unfold esize, env_size. simpl. lia.
Qed.

Lemma env_end c t : layout c t -> ld64 (ram c) (environ c + 8 * zlen (w_vars w)) = Some 0.
Proof.
  intros Hl. rewrite (rt_env _ _ _ _ (ly_rooted _ _ _ _ _ Hl)).
  eapply (oarray_at base m0 w c t); [done|by apply wo_env| |lia].
  rewrite lookup_app_r by (rewrite length_fmap; lia). by rewrite length_fmap, Nat.sub_diag.
Qed.

(** The number of turns a walk over the environment has is enough. *)
Lemma env_fuel c t : layout c t -> (length (w_vars w) < str_fuel (ram c))%nat.
Proof.
  intros Hl. destruct (wo_env _ _ _ Hw) as [Hb Ho]. unfold str_fuel.
  assert (bytes_at (ram c) (w_env w) (((w_vars w).*1 ++ [0]) ≫= le_bytes 8)) as Hb'.
  { eapply bytes_at_agree; [|done]. rewrite length_bind8. by eapply outside_agree. }
  apply bytes_at_size in Hb'. pose proof (length_bind8 ((w_vars w).*1 ++ [0])) as Hlen.
  rewrite length_app, length_fmap in Hlen. simpl in Hlen. lia.
Qed.

Lemma count_ptrs_spec c t n i :
  layout c t -> (i + n = length (w_vars w))%nat -> forall fuel, (n < fuel)%nat ->
  count_ptrs fuel (ram c) (environ c + 8 * Z.of_nat i) = Some (Z.of_nat n).
Proof.
  intros Hl. revert i. induction n as [|n IH]; intros i Hin [|fuel] Hf; [lia| |lia|]; cbn [count_ptrs].
  - replace (Z.of_nat i) with (zlen (w_vars w)) by lia. rewrite (env_end c t) by done. done.
  - destruct (env_lookup c t (Z.of_nat i) Hl) as (p & s & _ & Ho & Hld); [lia|]. rewrite Hld. cbn [mbind option_bind].
    destruct Ho as [Hp _]. rewrite (proj2 (Z.eqb_neq _ _)) by lia.
    replace (environ c + 8 * Z.of_nat i + 8) with (environ c + 8 * Z.of_nat (S i)) by lia.
    rewrite IH by lia. cbn [mbind option_bind]. f_equal. lia.
Qed.

Lemma reserve_orig_envp_wp l c t (Q : unit -> sh -> trace mcall -> Prop) :
  layout c t -> vars l c -> @oom E c t ->
  (forall c' t', layout c' t' -> vars l c' -> same c c' -> agree (ram c) (ram c') 0 (hptr c) ->
     visible t' = visible t ->
     hptr c' = hptr c + (if customenvp c <? 0 then env_size * (zlen (w_vars w) + 1) else 0) -> Q tt c' t') ->
  xwpf F E reserve_orig_envp c t Q.
Proof.
  intros Hl Hv HE HQ. unfold reserve_orig_envp. do 2 xwp_step. pose proof (wo_sizes _ _ _ Hw) as [_ Hn].
  apply xwp_if; intros Hc; zbool.
  { xwp_step. apply HQ; [done|done|apply same_refl|by intros a|done|]. rewrite (proj2 (Z.ltb_ge _ _)) by lia. lia. }
  do 3 xwp_step. eapply xwp_rd.
  { pose proof (count_ptrs_spec c t (length (w_vars w)) 0 Hl ltac:(lia) _ (env_fuel c t Hl)) as H.
    by rewrite Z.mul_0_r, Z.add_0_r in H. }
  unfold env_size in *. rewrite (s32_small (zlen _)), s32_small by lia.
  xwp_step. eapply alloc_wp; [done..|lia|]. intros c' t' Hl' Hv' Hp Hsm Hag Ht. xwp_step.
  apply HQ; [done..|]. rewrite (proj2 (Z.ltb_lt _ _)) by lia. lia.
Qed.

Lemma reference_loop_wp l c t n i fuel (Q : Z -> sh -> trace mcall -> Prop) :
  layout c t -> vars l c -> (i + n = length (w_vars w))%nat -> (n < fuel)%nat ->
  asep c + env_size * Z.of_nat n <= hptr c ->
  (EV_SIZE + 1 < zlen (w_vars w) -> forall c' t', errfd c' = errfd c -> line c' = line c -> t' = t ->
     @ends E c' t' (Some (text "reference overflow")) None 0) ->
  (forall c', layout c' t -> vars (l ++ env_refs (Z.of_nat i) n) c' ->
     c' = c <| asep := asep c + env_size * Z.of_nat n |> <| ram := ram c' |> ->
     agree (ram c) (ram c') (asep c + env_size * Z.of_nat n) (2 ^ 64) -> Q (zlen (w_vars w)) c' t) ->
  xwpf F E (reference_loop fuel (environ c) (Z.of_nat i)) c t Q.
Proof.
  revert l c i fuel. induction n as [|n IH]; intros l c i [|fuel] Hl Hv Hin Hf Hroom HE HQ; [lia| |lia|]; cbn [reference_loop].
  - xwp_step. replace (Z.of_nat i) with (zlen (w_vars w)) by lia. eapply xwp_rd; [by eapply env_end|].
    cbn [Z.eqb]. xwp_step. apply HQ; [done| | |by intros a].
    + unfold env_refs. simpl. by rewrite app_nil_r.
    + rewrite Z.mul_0_r, Z.add_0_r. by destruct c.
  - destruct (env_lookup c t (Z.of_nat i) Hl) as (p & s & _ & Ho & Hld); [lia|].
    xwp_step. eapply xwp_rd; [exact Hld|]. destruct Ho as [Hp _]. rewrite (proj2 (Z.eqb_neq _ _)) by lia.
    xwp_step. change EV_ENVP with (flags_of true false). unfold env_size in *.
    eapply append_reference_wp; [done|done|lia|unfold env_size; lia| |].
    { intros Hgt. apply HE. lia. }
    intros _ c1 Hl1 Hv1 Heq Hag. replace (Z.of_nat i + 1) with (Z.of_nat (S i)) by lia.
    replace (environ c) with (environ c1) by (by rewrite Heq). unfold env_size in *.
    assert (asep c1 = asep c + 4 /\ hptr c1 = hptr c) as [Ha1 Hp1] by (by rewrite Heq).
    apply (IH (l ++ [Ent true false (inr (Z.of_nat i))])); [done|done|lia|lia|lia| |].
    { intros Hgt c' t' He' Hl' Ht'. apply HE; [done|by rewrite He', Heq|by rewrite Hl', Heq|done]. }
    intros c' Hl' Hv' Heq' Hag'. apply HQ; [done| | |].
    + unfold env_refs in *. rewrite Nat2Z.inj_succ, seqZ_cons by lia. rewrite fmap_cons.
      replace (Z.pred (Z.succ (Z.of_nat n))) with (Z.of_nat n) by lia. replace (Z.succ (Z.of_nat i)) with (Z.of_nat (S i)) by lia.
      by rewrite <- app_assoc in Hv'.
    + replace (asep c + 4 * Z.of_nat (S n)) with (asep c + 4 + 4 * Z.of_nat n) by lia. rewrite Heq', Heq. by destruct c.
    + eapply agree_trans; [eapply agree_sub; [exact Hag|lia|lia]|eapply agree_sub; [exact Hag'|lia|lia]].
Qed.

(** What [start_custom_envp] makes of the list and of [customenvp]. *)
Definition customized (ce : Z) (l : list ent) : list ent :=
  if ce <? 0 then l ++ env_refs 0 (length (w_vars w)) else l.

Lemma start_custom_envp_wp l c t (Q : unit -> sh -> trace mcall -> Prop) :
  layout c t -> vars l c ->
  let room := if customenvp c <? 0 then env_size * zlen (w_vars w) else 0 in
  asep c + room <= hptr c ->
  (customenvp c < 0 -> EV_SIZE + 1 < zlen (w_vars w) -> forall c' t', errfd c' = errfd c -> line c' = line c -> t' = t ->
     @ends E c' t' (Some (text "reference overflow")) None 0) ->
  (forall c', layout c' t -> vars (customized (customenvp c) l) c' ->
     c' = c <| asep := asep c + room |> <| ram := ram c' |>
            <| customenvp := if customenvp c <? 0 then zlen (w_vars w) else customenvp c |> ->
     agree (ram c) (ram c') (asep c + room) (2 ^ 64) -> Q tt c' t) ->
  xwpf F E start_custom_envp c t Q.
Proof.
  intros Hl Hv room Hroom HE HQ. unfold start_custom_envp, room, customized in *. clear room. do 2 xwp_step.
  destruct (Z.ltb_spec (customenvp c) 0) as [Hc|Hc].
  - rewrite (proj2 (Z.leb_gt _ _)) by lia. do 3 xwp_step. eapply xwp_rd; [done|]. xwp_step.
    apply (reference_loop_wp l c t (length (w_vars w)) 0); [done|done|lia|by eapply env_fuel|done|by intros; apply HE|].
    intros c' Hl' Hv' Heq Hag. xwp_step. apply HQ; [|done| |done].
    + by destruct Hl' as [[] ? ? ? ?].
    + rewrite Heq. by destruct c.
  - rewrite (proj2 (Z.leb_le _ _)) by lia. xwp_step. rewrite Z.add_0_r in *. apply HQ; [done|done| |by intros a].
    by destruct c.
Qed.

(** The strings at an array of pointers. *)
Definition strv_at (m : mem) (pp : ptr) (ss : list (list Z)) : Prop :=
  exists ps, bytes_at m pp ((ps ++ [0]) ≫= le_bytes 8) /\
    Forall2 (fun p s => 0 < p < 2 ^ 64 /\ cstr_at m p s) ps ss.

Lemma strs_spec m pp ss : strv_at m pp ss -> strs m pp = Some ss.
Proof.
  intros (ps & Hb & HF). unfold strs.
  assert (length ps < str_fuel m)%nat as Hf.
  { pose proof (length_bind8 (ps ++ [0])) as Hl. apply bytes_at_size in Hb. rewrite length_app in Hl. simpl in Hl.
    unfold str_fuel. lia. }
  revert pp Hb Hf. generalize (str_fuel m) as fuel. intros fuel. revert fuel.
  induction HF as [|p s ps ss [Hp Hs] HF IH]; intros [|fuel] pp Hb Hf; simpl in Hf; try lia; cbn [strv].
  - rewrite (ld64_spec m pp 0); [done|]. cbn [app] in Hb. by rewrite bind_cons, app_nil_r in Hb.
  - cbn [app] in Hb. rewrite bind_cons in Hb. apply bytes_at_app in Hb as [Hb1 Hb2].
    rewrite (ld64_spec m pp p) by done. rewrite u64_small by lia. cbn [mbind option_bind].
    rewrite (proj2 (Z.eqb_neq _ _)) by lia. rewrite (cstr_spec _ _ _ Hs). cbn [mbind option_bind].
    rewrite length_le_bytes in Hb2. rewrite IH; [done|done|lia].
Qed.

Lemma environ_strv c t : layout c t -> strv_at (ram c) (environ c) (w_vars w).*2.
Proof.
  intros Hl. exists (w_vars w).*1. rewrite (rt_env _ _ _ _ (ly_rooted _ _ _ _ _ Hl)). split.
  - destruct (wo_env _ _ _ Hw) as [Hb Ho]. eapply bytes_at_agree; [|done]. rewrite length_bind8.
    by eapply outside_agree.
  - pose proof (wo_vars _ _ _ Hw) as HF. induction HF as [|[p s] vs Ho HF IH]; [constructor|].
    constructor; [|done]. simpl in *. split; [by destruct Ho|by eapply ostring_at].
Qed.

(** The array of the environment that a command is executed with. *)
Definition exec_env (ce : Z) (l : list ent) : list (list Z) :=
  if ce <? 0 then (w_vars w).*2 else env_strings l.

(** The addresses of the strings of the environment among the first [i] entries. *)
Fixpoint env_ptrs (h : Z) (l : list ent) (i : nat) : list ptr :=
  match i with
  | O => []
  | S i => env_ptrs h l i ++
      match l !! i with Some x => if e_envp x then [eptr h l i x] else [] | None => [] end
  end.

Lemma env_ptrs_strs l c t i :
  layout c t -> vars l c -> (i <= length l)%nat ->
  Forall2 (fun p s => 0 < p < 2 ^ 64 /\ cstr_at (ram c) p s) (env_ptrs (heap c) l i)
    (val_of <$> List.filter e_envp (take i l)).
Proof.
  intros Hl Hv. induction i as [|i IH]; intros Hi; cbn [env_ptrs]; [constructor|].
  destruct (lookup_lt_is_Some_2 l i) as [x Hx]; [lia|]. rewrite Hx, (take_S_r _ _ _ Hx), List.filter_app, fmap_app.
  apply Forall2_app; [apply IH; lia|]. simpl. destruct (e_envp x); [|constructor].
  constructor; [|constructor]. by apply (eptr_spec l c t).
Qed.

Lemma length_env_ptrs h l i : (length (env_ptrs h l i) <= i)%nat.
Proof.
  induction i as [|i IH]; simpl; [lia|]. rewrite length_app. destruct (l !! i) as [x|]; [destruct (e_envp x)|]; simpl; lia.
Qed.

Lemma env_ptrs_mono h l i j : (i <= j)%nat -> (length (env_ptrs h l i) <= length (env_ptrs h l j))%nat.
Proof. induction 1 as [|j _ IH]; [done|]. simpl. rewrite length_app. lia. Qed.

Lemma prepenvp_wp l c t (Q : ptr -> sh -> trace mcall -> Prop) :
  layout c t -> vars l c -> @oom E c t ->
  (forall p c' t', layout c' t' -> vars l c' -> same c c' -> agree (ram c) (ram c') 0 (hptr c) ->
     visible t' = visible t -> strv_at (ram c') p (exec_env (customenvp c) l) -> hptr c <= hptr c' -> Q p c' t') ->
  xwpf F E prepenvp c t Q.
Proof.
  intros Hl Hv HE HQ. unfold prepenvp, exec_env in *. do 2 xwp_step. destruct (Z.ltb_spec (customenvp c) 0) as [Hc|Hc].
  { xwp_step. apply HQ; [done|done|apply same_refl|by intros a|done|by eapply environ_strv|lia]. }
  pose proof (ly_order _ _ _ _ _ Hl) as (? & ? & ?). destruct (brk_window (base := base)) as [Hw1 Hw2].
  pose proof (nseen_length l) as Hns. pose proof (tsize_length l) as Hts. pose proof (proj1 (proj2 Hv)) as Hs.
  unfold env_size, LIM in *. set (ps := env_ptrs (heap c) l) in *.
  pose proof (length_env_ptrs (heap c) l (nseen l)) as Hps.
  assert (forall i x, l !! i = Some x -> ps (S i) = ps i ++ if e_envp x then [eptr (heap c) l i x] else []) as Hstep.
  { intros i x Hx. unfold ps. cbn [env_ptrs]. by rewrite Hx. }
  assert (forall i, (i <= nseen l)%nat -> zlen (ps i) <= zlen (ps (nseen l))) as Hmono.
  { intros i Hi. pose proof (env_ptrs_mono (heap c) l i (nseen l) Hi). unfold ps. lia. }
  assert (zlen (ps (nseen l)) < 2 ^ 25) as Hcnt by (unfold ps; lia).
  assert (forall c' t', layout c' t' -> vars l c' -> heap c' = heap c ->
    Forall2 (fun p s => 0 < p < 2 ^ 64 /\ cstr_at (ram c') p s) (ps (nseen l)) (env_strings l)) as Hstrs.
  { intros c' t' Hl' Hv' Hh. unfold ps. rewrite <- Hh. by eapply env_ptrs_strs. }
  assert (ps 0%nat = []) as Hps0 by done. clearbody ps. xwp_step.
  apply (env_fold_wp base m0 w _ (fun i n c' t' => c' = c /\ t' = t /\ n = zlen (ps i)) l).
  { by rewrite Hps0. }
  { by intros ???? (-> & -> & _). }
  { intros i x n c' t' Hi Hx (-> & -> & ->). xwp_step. destruct (vars_lookup w _ _ i x Hv Hx) as (Hok & _ & _).
    eapply env_value_eq; [done..|]. destruct (ekey_bits _ _ Hok) as (_ & -> & _). xwp_step.
    split; [done|]. split; [done|]. pose proof (Hmono (S i) ltac:(lia)) as Hm. rewrite (Hstep i x Hx), length_app in *.
    destruct (eptr_spec l c t i x Hl Hv Hx) as [Hnz _]. destruct (e_envp x); simpl length in *; [|simpl; lia].
    rewrite (proj2 (Z.eqb_neq _ _)) by lia. rewrite s32_small by lia. lia. }
  intros n c' t' (-> & -> & ->). xwp_step. rewrite s32_small by lia.
  eapply alloc_wp; [done|done|done|lia|]. intros c1 t1 Hl1 Hv1 Hp1 Hsm Hag Ht1.
  assert (heap c1 = heap c /\ asep c1 = asep c) as [Hh1 Ha1] by (by rewrite Hsm).
  pose proof (ly_order _ _ _ _ _ Hl1) as (? & ? & ?).
  assert (forall i, (i <= nseen l)%nat ->
    let c2 := c1 <| ram := poke (ram c1) (hptr c) (ps i ≫= le_bytes 8) |> in
    layout c2 t1 /\ vars l c2) as Hfr.
  { intros i Hi. pose proof (Hmono i Hi). pose proof (length_bind8 (ps i)).
    edestruct (fresh_store l c1 t1 (hptr c) (ps i ≫= le_bytes 8)) as (? & ? & _); [done|done|lia|lia|done]. }
  xwp_step.
  apply (env_fold_wp base m0 w _ (fun i k c2 t2 => (i <= nseen l)%nat /\ t2 = t1 /\ k = zlen (ps i) /\
    c2 = c1 <| ram := poke (ram c1) (hptr c) (ps i ≫= le_bytes 8) |>) l).
  - rewrite Hps0. split; [lia|]. split; [done|]. split; [done|]. by destruct c1.
  - intros i k c2 t2 (Hi & -> & _ & ->). destruct (Hfr i Hi). done.
  - intros i x k c2 t2 Hi Hx (_ & -> & -> & ->). destruct (Hfr i ltac:(lia)) as [Hl2 Hv2].
    destruct (vars_lookup w _ _ i x Hv Hx) as (Hok & _ & _). destruct (ekey_bits _ _ Hok) as (_ & Hflag & _).
    xwp_step. set (c2 := c1 <| ram := poke (ram c1) (hptr c) (ps i ≫= le_bytes 8) |>) in *.
    assert (heap c2 = heap c1) as Hh2 by done. rewrite <- Hh2.
    apply (env_value_eq l c2 t1 i x _ (e_envp x)); [done|done|done|done|]. rewrite Hh2, Hh1. pose proof (Hmono (S i) ltac:(lia)) as Hm.
    destruct (eptr_spec l c t i x Hl Hv Hx) as [Hnz _].
    rewrite (Hstep i x Hx) in *. destruct (e_envp x).
    + rewrite (proj2 (Z.eqb_neq _ _)) by lia. rewrite length_app in *. simpl length in *.
      rewrite (proj2 (Z.ltb_lt _ _)) by lia. xwp_step. eapply xwp_wr.
      { apply stn_spec. rewrite length_le_bytes. simpl. apply mapped_poke.
        apply (mapped_sub _ (heap c1) (hend c1 - heap c1)); [by apply (ly_mapped _ _ _ _ _ Hl1)|lia|lia]. }
      xwp_step. split; [lia|]. split; [done|]. split; [lia|].
      by rewrite bind_app, poke_app, length_bind8, (bind_cons (le_bytes 8)), app_nil_r.
    + rewrite app_nil_r. cbn [Z.eqb]. xwp_step. split; [lia|done].
  - intros k c2 t2 (_ & -> & -> & ->). destruct (Hfr (nseen l) ltac:(lia)) as [Hl2 Hv2]. xwp_step. eapply xwp_wr.
    { apply stn_spec. rewrite length_le_bytes. simpl. apply mapped_poke.
      apply (mapped_sub _ (heap c1) (hend c1 - heap c1)); [by apply (ly_mapped _ _ _ _ _ Hl1)|lia|lia]. }
    set (m1 := poke (ram c1) (hptr c) (ps (nseen l) ≫= le_bytes 8)) in *.
    change (ram (c1 <| ram := m1 |>)) with m1. change (c1 <| ram := m1 |> <| ram := poke m1 (hptr c + 8 * zlen (ps (nseen l))) (le_bytes 8 0) |>)
      with (c1 <| ram := poke m1 (hptr c + 8 * zlen (ps (nseen l))) (le_bytes 8 0) |>). unfold m1.
    pose proof (length_bind8 (ps (nseen l))) as Hlb.
    assert (poke (poke (ram c1) (hptr c) (ps (nseen l) ≫= le_bytes 8)) (hptr c + 8 * zlen (ps (nseen l))) (le_bytes 8 0)
      = poke (ram c1) (hptr c) ((ps (nseen l) ++ [0]) ≫= le_bytes 8)) as ->.
    { rewrite bind_app, poke_app, length_bind8. by rewrite (bind_cons (le_bytes 8)), app_nil_r. }
    pose proof (length_bind8 (ps (nseen l) ++ [0])) as Hlb2. rewrite (length_app (ps _)) in Hlb2. simpl length in Hlb2.
    edestruct (fresh_store l c1 t1 (hptr c) ((ps (nseen l) ++ [0]) ≫= le_bytes 8)) as (Hl3 & Hv3 & Hag3); [done|done|lia|lia|].
    xwp_step. apply HQ; [done|done| | |done| |simpl; lia].
    + unfold same in *. rewrite Hsm. by destruct c.
    + by eapply agree_trans.
    + exists (ps (nseen l)). split; [apply bytes_at_poke|]. by apply (Hstrs _ t1).
Qed.
End env.
