(* ===== verification/MshVar.v ===== *)
(** * src/msh: the commands on variables

    What [set], [setenv], [getenv], [delenv] and [clearenv] do, as functions of
    the list of variables and of the words of the command; the commands of
    [MshCmd] implement them, in a state that is [ready]. *)
From stdpp Require Import strings.
From S2P Require Import Prelude Mem Str Fmt Parse Arr Sys Nlusctl Nlsock State Exits Cstr Util Msh MshMem MshCmd MshEnv.

#[local] Arguments le_bytes : simpl never.

(** ** The commands as functions *)

(** The variables, and whether the environment is that of the script. *)
Record vstate := Vstate { vs_list : list ent; vs_custom : bool }.

(** The new variables, or the parts of an error message. *)
Definition result : Type := vstate + (list Z * option (list Z)).

Section commands.
Context (w : world).

(** A command that has this many arguments. *)
Definition args0 (k : result) (args : list (list Z)) : result :=
  match args with [] => k | _ => inr (text "too many arguments", None) end.
Definition args1 (k : list Z -> result) (args : list (list Z)) : result :=
  match args with
  | [] => inr (text "too few arguments", None)
  | [x] => k x
  | _ => inr (text "too many arguments", None)
  end.
Definition args2 (k : list Z -> list Z -> result) (args : list (list Z)) : result :=
  match args with
  | [] | [_] => inr (text "too few arguments", None)
  | [x; y] => k x y
  | _ => inr (text "too many arguments", None)
  end.

(** A name without an equals sign. *)
Definition valid (name : list Z) (k : result) : result :=
  if existsb (fun c => c =? 61) name then inr (text "invalid variable name:", Some name) else k.

(** A new variable at the end of the list. *)
Definition appended (v : vstate) (x : ent) (k : vstate -> result) : result :=
  match e_val x with
  | inl _ => if EV_SIZE <? esize x then inr (text "variable overflow", None)
             else k (Vstate (vs_list v ++ [x]) (vs_custom v))
  | inr i => if EV_SIZE <? i then inr (text "reference overflow", None)
             else k (Vstate (vs_list v ++ [x]) (vs_custom v))
  end.

(** The script has its own environment from now on. *)
Definition own_env (v : vstate) (k : vstate -> result) : result :=
  if vs_custom v then k v
  else if EV_SIZE + 1 <? zlen (w_vars w) then inr (text "reference overflow", None)
  else k (Vstate (vs_list v ++ env_refs 0 (length (w_vars w))) true).

Definition pair_of (name val : list Z) : list Z := name ++ 61 :: val.

Definition a_set (v : vstate) : list (list Z) -> result :=
  args2 (fun name val => valid name (
    if duplicate w (vs_list v) name then inr (text "duplicate definition", None)
    else appended v (Ent false true (inl (pair_of name val))) inl)).

Definition undefine (name : list Z) (v : vstate) : vstate := Vstate (on_seen (undef w name) (vs_list v)) (vs_custom v).

Definition a_setenv (v : vstate) : list (list Z) -> result :=
  args2 (fun name val => valid name (
    own_env v (fun v => appended (undefine name v) (Ent true false (inl (pair_of name val))) inl))).

Definition a_delenv (v : vstate) : list (list Z) -> result :=
  args1 (fun name => valid name (own_env v (fun v => inl (undefine name v)))).

Definition a_clearenv (v : vstate) : list (list Z) -> result :=
  args0 (inl (if vs_custom v then Vstate (on_seen unenv (vs_list v)) true else Vstate (vs_list v) true)).

(** The number of the first definition of a name in the original environment. *)
Fixpoint env_index (name : list Z) (vs : list (list Z)) : option Z :=
  match vs with
  | [] => None
  | s :: vs => if defines name s then Some 0 else Z.succ <$> env_index name vs
  end.

Definition a_getenv (v : vstate) : list (list Z) -> result :=
  args1 (fun name => valid name (
    if duplicate w (vs_list v) name then inr (text "duplicate definition", None)
    else match env_index name (w_vars w).*2 with
         | None => inr (text "undefined variable:", Some name)
         | Some i => appended v (Ent false true (inr i)) inl
         end)).
End commands.

(** ** The arguments of a command *)

Section args.
Context `{HK : !Kern mcall} `{HL : !Locals}.
Context (base : Z) (m0 : mem) (w : world) `{HB : !BrkKern base} (Hw : world_ok base m0 w).
Context {F : Prop} {E : sh -> trace mcall -> Prop}.

Abbreviation layout := (layout base m0 w).
Abbreviation ready := (ready base m0 w).
Abbreviation vars := (vars w).

(** An error at this place of the script is allowed. *)
Definition fails (c : sh) (t : trace mcall) (err arg : option (list Z)) (r : Z) : Prop :=
  forall c' t', errfd c' = errfd c -> line c' = line c -> visible t' = visible t -> @ends E c' t' err arg r.

(** A command at its argument number [i]. *)
Record at_arg (l : list ent) (ss : list (list Z)) (av : ptr) (i : Z) (c : sh) (t : trace mcall) : Prop := {
  aa_ready : ready l ss av c t;
  aa_argc : argc c = zlen ss;
  aa_argv : argv c = av;
  aa_argp : argp c = i /\ 0 <= i }.

Lemma starts_lookup p ss i s :
  ss !! i = Some s -> starts p ss !! i = Some (p + zlen (flat (take i ss))).
Proof.
  revert p i. induction ss as [|x ss IH]; intros p i Hi; [done|]. destruct i as [|i]; simpl in Hi.
  - simpl. by rewrite Z.add_0_r.
  - cbn [starts take]. change ((p :: starts (p + zlen x + 1) ss) !! S i) with (starts (p + zlen x + 1) ss !! i).
    rewrite (IH _ _ Hi). f_equal. rewrite flat_cons, length_app. simpl length. lia.
Qed.

Lemma flat_app ss ss' : flat (ss ++ ss') = flat ss ++ flat ss'.
Proof. unfold flat. by rewrite bind_app. Qed.

(** Word number [i]. *)
Lemma ready_word l ss av c t i s :
  ready l ss av c t -> ss !! i = Some s ->
  exists p, ld64 (ram c) (av + 8 * Z.of_nat i) = Some p /\ cstr_at (ram c) p s /\
    p = asep c + zlen (flat (take i ss)) /\ asep c <= p /\ p + zlen s + 1 <= asep c + zlen (flat ss).
Proof.
  intros [Hl Hv Hs Hb Ha Hlo Hhi] Hi. exists (asep c + zlen (flat (take i ss))).
  pose proof (ly_order _ _ _ _ _ Hl) as (? & ? & ?). destruct (brk_window (base := base)) as [Hw1 Hw2]. unfold LIM in *.
  assert (flat ss = flat (take i ss) ++ s ++ 0 :: flat (drop (S i) ss)) as Hfl.
  { rewrite <- (take_drop_middle _ _ _ Hi) at 1. by rewrite flat_app, flat_cons. }
  assert (zlen (flat ss) = zlen (flat (take i ss)) + zlen s + 1 + zlen (flat (drop (S i) ss))) as Hlen.
  { rewrite Hfl, !length_app. simpl length. lia. }
  split; [|split; [|split; [done|lia]]].
  - rewrite (ld64_spec _ _ (asep c + zlen (flat (take i ss)))); [f_equal; apply u64_small; lia|].
    apply (bytes_at_bind8 _ _ (starts (asep c) ss ++ [0])); [done|].
    rewrite lookup_app_l by (rewrite length_starts; by eapply lookup_lt_Some). by eapply starts_lookup.
  - split; [|by eapply Forall_lookup_1 in Hi]. rewrite Hfl in Hb. apply bytes_at_app in Hb as [_ Hb].
    change (0 :: flat (drop (S i) ss)) with ([0] ++ flat (drop (S i) ss)) in Hb. rewrite app_assoc in Hb.
    by apply bytes_at_app in Hb as [Hb _].
Qed.

Lemma at_arg_readable l ss av i c t : at_arg l ss av i c t -> readable c.
Proof. intros [[Hl]]. by eapply layout_readable. Qed.

Lemma shift_wp l ss av i c t (Q : ptr -> sh -> trace mcall -> Prop) :
  at_arg l ss av i c t ->
  (ss !! Z.to_nat i = None -> @ends E c t (Some (text "too few arguments")) None 0) ->
  (forall p s c', ss !! Z.to_nat i = Some s -> at_arg l ss av (i + 1) c' t -> c' = c <| argp := i + 1 |> ->
     cstr_at (ram c') p s -> p = asep c' + zlen (flat (take (Z.to_nat i) ss)) ->
     asep c' <= p -> p + zlen s + 1 <= asep c' + zlen (flat ss) -> Q p c' t) ->
  xwpf F E shift c t Q.
Proof.
  intros Ha HE HQ. pose proof Ha as [Hr Hn Hav [Hi Hi0]]. unfold shift. do 4 xwp_step. rewrite Hi, Hn.
  apply xwp_if; intros Hle; zbool.
  - eapply fatal_wp; [by eapply at_arg_readable|done|]. apply HE, lookup_ge_None_2. lia.
  - destruct (lookup_lt_is_Some_2 ss (Z.to_nat i)) as [s Hs]; [lia|].
    destruct (ready_word l ss av c t _ _ Hr Hs) as (p & Hp & Hc & Heq & Hlo & Hhi).
    unfold take_arg. do 3 xwp_step. unfold arg_at. do 2 xwp_step. rewrite Hav, Hi.
    rewrite Z2Nat.id in Hp by lia. eapply xwp_rd; [exact Hp|]. do 3 xwp_step.
    apply (HQ p s); [done| |done|done|done|done|done]. split; [|done|done|simpl; lia].
    destruct Hr as [[[] ? ? ? ?] ? ? ? ? ? ?]. by split.
Qed.

Lemma no_more_wp l ss av i c t (Q : unit -> sh -> trace mcall -> Prop) :
  at_arg l ss av i c t ->
  (i < zlen ss -> @ends E c t (Some (text "too many arguments")) None 0) ->
  (zlen ss <= i -> Q tt c t) -> xwpf F E no_more_arguments c t Q.
Proof.
  intros Ha HE HQ. pose proof Ha as [Hr Hn Hav [Hi _]]. unfold no_more_arguments. do 4 xwp_step. rewrite Hi, Hn.
  apply xwp_if; intros Hle; zbool; [|by xwp_step; apply HQ].
  eapply fatal_wp; [by eapply at_arg_readable|done|by apply HE].
Qed.

Lemma check_valid_wp c t name s (Q : unit -> sh -> trace mcall -> Prop) :
  readable c -> 0 < name -> cstr_at (ram c) name s ->
  (existsb (fun c => c =? 61) s = true -> @ends E c t (Some (text "invalid variable name:")) (Some s) 0) ->
  (existsb (fun c => c =? 61) s = false -> Q tt c t) -> xwpf F E (check_valid_name name) c t Q.
Proof.
  intros Hr Hnz Hs HE HQ. unfold check_valid_name. xwp_step. eapply xwp_rd; [by apply cstr_spec|].
  apply xwp_if; intros Hb; [|by xwp_step; apply HQ]. eapply fatal_wp; [done| |by apply HE].
  by apply ostr_str; [lia|].
Qed.

Lemma args0_wp l w0 args av c t k (K : M unit) Q :
  at_arg l (w0 :: args) av 1 c t ->
  (forall e x, args0 k args = inr (e, x) -> fails c t (Some e) x 0) ->
  (args = [] -> xwpf F E K c t Q) -> xwpf F E (no_more_arguments;; K) c t Q.
Proof.
  intros Ha HE HK0. xwp_step. eapply no_more_wp; [done| |].
  - intros Hlt. destruct args; [simpl in Hlt; lia|]. by apply HE.
  - intros Hge. apply HK0. by destruct args; [|simpl in Hge; lia].
Qed.

Lemma args1_wp l w0 args av c t k (K : ptr -> M unit) Q :
  at_arg l (w0 :: args) av 1 c t ->
  (forall e x, args1 k args = inr (e, x) -> fails c t (Some e) x 0) ->
  (forall p s c', args = [s] -> at_arg l [w0; s] av 2 c' t -> c' = c <| argp := 2 |> ->
     cstr_at (ram c') p s -> asep c' <= p -> p + zlen s + 1 <= asep c' + zlen (flat [w0; s]) ->
     xwpf F E (K p) c' t Q) ->
  xwpf F E (v ← shift; no_more_arguments;; K v) c t Q.
Proof.
  intros Ha HE HK0. xwp_step. eapply shift_wp; [done| |].
  { intros Hn. destruct args; [|done]. by apply HE. }
  intros p s c1 Hs Ha1 Heq Hc Hpos Hlo Hhi. destruct args as [|s' args]; [done|]. injection Hs as ->.
  xwp_step. eapply no_more_wp; [exact Ha1| |].
  - intros Hlt. destruct args; [simpl in Hlt; lia|]. rewrite Heq. by apply HE.
  - intros Hge. destruct args; [|simpl in Hge; lia]. by apply (HK0 p s).
Qed.

Lemma args2_wp l w0 args av c t k (K : ptr -> ptr -> M unit) Q :
  at_arg l (w0 :: args) av 1 c t ->
  (forall e x, args2 k args = inr (e, x) -> fails c t (Some e) x 0) ->
  (forall p q s r c', args = [s; r] -> at_arg l [w0; s; r] av 3 c' t -> c' = c <| argp := 3 |> ->
     cstr_at (ram c') p s -> asep c' <= p -> p + zlen s + 1 <= asep c' + zlen (flat [w0; s; r]) ->
     cstr_at (ram c') q r -> asep c' <= q -> q + zlen r + 1 <= asep c' + zlen (flat [w0; s; r]) ->
     q = p + zlen s + 1 -> xwpf F E (K p q) c' t Q) ->
  xwpf F E (v ← shift; val ← shift; no_more_arguments;; K v val) c t Q.
Proof.
  intros Ha HE HK0. xwp_step. eapply shift_wp; [done| |].
  { intros Hn. destruct args; [|done]. by apply HE. }
  intros p s c1 Hs Ha1 Heq Hc Hpos Hlo Hhi. destruct args as [|s' args]; [done|]. injection Hs as ->.
  xwp_step. eapply shift_wp; [exact Ha1| |].
  { intros Hn. destruct args; [|done]. rewrite Heq. by apply HE. }
  intros q r c2 Hr Ha2 Heq2 Hc2 Hpos2 Hlo2 Hhi2. destruct args as [|r' args]; [done|]. injection Hr as ->.
  assert (c2 = c <| argp := 3 |>) as Heq3 by (by rewrite Heq2, Heq).
  xwp_step. eapply no_more_wp; [exact Ha2| |].
  - intros Hlt. destruct args; [simpl in Hlt; lia|]. rewrite Heq3. by apply HE.
  - intros Hge. destruct args; [|simpl in Hge; lia].
    apply (HK0 p q s r); [done|done|done| | | |done|done|done|].
    { by rewrite Heq2. }
    { by rewrite Heq2. }
    { rewrite Heq2. exact Hhi. }
    rewrite Hpos2, Hpos, Heq2, Heq. simpl. unfold flat. simpl. rewrite !length_app. simpl. lia.
Qed.

(** ** The commands implement the functions *)

Definition stays (c c' : sh) : Prop := errfd c' = errfd c /\ line c' = line c.

Lemma fails_stays c c' t t' e x r : stays c c' -> visible t' = visible t -> fails c t e x r -> fails c' t' e x r.
Proof. intros [H1 H2] Ht Hf c2 t2 H3 H4 H5. apply Hf; congruence. Qed.

Lemma fails_ends c t e x r : fails c t e x r -> @ends E c t e x r.
Proof. intros Hf. by apply Hf. Qed.

Lemma same_stays c c' : same c c' -> stays c c'.
Proof. unfold same. intros ->. done. Qed.

Lemma stays_trans c c' c'' : stays c c' -> stays c' c'' -> stays c c''.
Proof. intros [] []. split; congruence. Qed.

Definition implements (m : M unit) (a : vstate -> list (list Z) -> result) : Prop :=
  forall l w0 args av c t (Q : unit -> sh -> trace mcall -> Prop),
  at_arg l (w0 :: args) av 1 c t -> @oom E c t ->
  let r := a (Vstate l (0 <=? customenvp c)) args in
  (forall e x, r = inr (e, x) -> fails c t (Some e) x 0) ->
  (forall v c' t', r = inl v -> layout c' t' -> vars (vs_list v) c' -> (0 <=? customenvp c') = vs_custom v ->
     stays c c' -> visible t' = visible t -> Q tt c' t') ->
  xwpf F E m c t Q.

Lemma cmd_set_wp : implements cmd_set (a_set w).
Proof.
  intros l w0 args av c t Q Ha Hoom r HE HQ. unfold a_set in r. subst r.
  eapply args2_wp; [done|exact HE|].
  intros p q s r c1 -> Ha1 Heq Hp Hplo Hphi Hq Hqlo Hqhi _. cbn [args2 valid] in *.
  pose proof Ha1 as [[Hl Hv Hstr _ _ Hlo Hhi] _ _ _]. pose proof (ly_order _ _ _ _ _ Hl) as (? & ? & ?).
  destruct (brk_window (base := base)) as [Hw1 Hw2]. unfold LIM in *.
  assert (stays c c1) as Hst by (by rewrite Heq).
  assert (forall e x, fails c t e x 0 -> @ends E c1 t e x 0) as Hf by (intros; by eapply fails_ends, fails_stays).
  assert (customenvp c1 = customenvp c) as Hce by (by rewrite Heq). rewrite <- Hce in *. clear Heq.
  xwp_step. eapply (check_valid_wp c1); [by eapply at_arg_readable|lia|done| |].
  { intros Hx. unfold valid in HE. rewrite Hx in HE. by apply Hf, HE. }
  intros Hx. unfold valid in *. rewrite Hx in *. cbn [vs_list] in *.
  xwp_step. eapply check_not_defined_wp; [done..| |].
  { intros Hd. rewrite Hd in HE. by apply Hf, HE. }
  intros Hd. rewrite Hd in *. unfold flat in *. simpl in *. rewrite !length_app in *. simpl length in *.
  xwp_step. eapply realloc_pair_wp; [done|done|done|by apply (fails_stays c c1 t t)|exact Hp|exact Hq|lia|lia|lia|lia|lia|lia|].
  intros c2 t2 Hl2 Hv2 Hsm2 Hag2 Ht2 Hpair Hroom. fold (pair_of s r) in *.
  set (x := Ent false true (inl (pair_of s r))) in *.
  assert (asep c2 = asep c1 /\ customenvp c2 = customenvp c1) as [Has2 Hce2] by (by rewrite Hsm2).
  assert (zlen (pair_of s r) = zlen s + zlen r + 1) as Hpl by (unfold pair_of; rewrite length_app; simpl; lia).
  pose proof (align4_range (env_size + zlen (pair_of s r) + 1)) as Hal.
  assert (stays c c2) as Hst2 by (eapply stays_trans; [done|by apply same_stays]).
  unfold appended in *. cbn [x e_val] in *. change (esize x) with (align4 (env_size + zlen (pair_of s r) + 1)) in *.
  unfold env_size in *. change EV_SVAR with (flags_of false true).
  eapply append_variable_wp; [done|done|exact Hpair|lia| | | |]; fold x; unfold esize; cbn [x e_val]; unfold env_size; try lia.
  - intros Hgt c' t' He' Hli' ->. apply Z.ltb_lt in Hgt. rewrite Hgt in HE. eapply (HE _ _ eq_refl); [| |congruence].
    + rewrite He'. apply Hst2.
    + rewrite Hli'. apply Hst2.
  - intros Hle c3 Hl3 Hv3 Heq3 _. rewrite (proj2 (Z.ltb_ge _ _)) in HQ by lia.
    eapply HQ; [done|done|done| | |done].
    + rewrite Heq3. simpl. by rewrite Hce2.
    + rewrite Heq3. exact Hst2.
Qed.

(** The script gets its own environment, and the name [sn] is not defined in it any more. *)
Lemma redefine_wp l c t key sn (room := if customenvp c <? 0 then env_size * zlen (w_vars w) else 0) Q :
  layout c t -> vars l c -> cstr_at (ram c) key sn -> asep c + room <= key -> key + zlen sn + 1 <= hptr c ->
  (forall e x, own_env w (Vstate l (0 <=? customenvp c)) (fun v => inl v) = inr (e, x) -> fails c t (Some e) x 0) ->
  (forall v c', own_env w (Vstate l (0 <=? customenvp c)) (fun v => inl v) = inl v -> layout c' t ->
     vars (vs_list (undefine w sn v)) c' -> 0 <= customenvp c' -> vs_custom v = true -> stays c c' ->
     asep c' = asep c + room -> hptr c' = hptr c -> agree (ram c) (ram c') (asep c + room) (2 ^ 64) -> Q tt c' t) ->
  xwpf F E (start_custom_envp;; clear_definition key) c t Q.
Proof.
  intros Hl Hv Hn Hlo Hhi HE HQ. pose proof (ly_order _ _ _ _ _ Hl) as (? & ? & ?).
  destruct (brk_window (base := base)) as [Hw1 Hw2]. unfold LIM in *.
  xwp_step. eapply start_custom_envp_wp; [done..|fold room; lia| |].
  { intros Hc Hgt c' t' He Hli ->. unfold own_env in HE. cbn [vs_custom] in HE.
    rewrite (proj2 (Z.leb_gt _ _)), (proj2 (Z.ltb_lt _ _)) in HE by lia. by eapply (HE _ _ eq_refl). }
  fold room. intros c1 Hl1 Hv1 Heq Hag.
  assert (asep c1 = asep c + room /\ hptr c1 = hptr c) as [Ha1 Hp1] by (by rewrite Heq).
  eapply clear_definition_wp with (sn := sn); [done|done|done|done| |rewrite Ha1; exact Hlo|lia|].
  { eapply cstr_at_agree; [|done]. eapply agree_sub; [exact Hag|lia|lia]. }
  intros c2 Hl2 Hv2 Hag2 Heq2. unfold own_env in HQ. cbn [vs_custom vs_list] in HQ.
  assert (stays c c2) as Hst by (by rewrite Heq2, Heq).
  assert (customenvp c2 = if customenvp c <? 0 then zlen (w_vars w) else customenvp c) as Hc2 by (by rewrite Heq2, Heq).
  assert (asep c2 = asep c + room) as Ha2 by (rewrite Heq2; exact Ha1).
  assert (hptr c2 = hptr c) as Hp2 by (rewrite Heq2; exact Hp1).
  assert (agree (ram c) (ram c2) (asep c + room) (2 ^ 64)) as Hag'.
  { eapply agree_trans; [done|]. eapply agree_sub; [done|lia|lia]. }
  unfold customized in Hv2. destruct (Z.ltb_spec (customenvp c) 0).
  - rewrite (proj2 (Z.leb_gt _ _)), (proj2 (Z.ltb_ge _ _)) in HQ; [..|lia].
    { eapply HQ; [done|done|done|lia|done..]. }
    destruct Hv1 as (_ & _ & Hok). unfold customized, env_refs in Hok. rewrite (proj2 (Z.ltb_lt _ _)) in Hok by lia.
    apply Forall_app in Hok as [_ Hok]. destruct (decide (length (w_vars w) = 0%nat)) as [->|Hnz]; [unfold EV_SIZE; lia|].
    rewrite Forall_fmap, Forall_seqZ in Hok. specialize (Hok (zlen (w_vars w) - 1) ltac:(lia)).
    unfold ent_ok in Hok. simpl in Hok. lia.
  - rewrite (proj2 (Z.leb_le _ _)) in HQ by lia. eapply HQ; [done|done|done|lia|done..].
Qed.

(** What comes before, for [setenv] and [delenv]. *)
Lemma own_env_bind v k : own_env w v k = match own_env w v (fun v => inl v) with inl v => k v | inr e => inr e end.
Proof. unfold own_env. by destruct (vs_custom v), (EV_SIZE + 1 <? zlen (w_vars w)). Qed.

Lemma reserve_key_wp l c t p s (K : ptr -> M unit) Q :
  layout c t -> vars l c -> @oom E c t -> cstr_at (ram c) p s -> asep c <= p -> p + zlen s + 1 <= hptr c ->
  (existsb (fun c => c =? 61) s = true -> fails c t (Some (text "invalid variable name:")) (Some s) 0) ->
  (forall key c' t', existsb (fun c => c =? 61) s = false -> layout c' t' -> vars l c' -> same c c' ->
     visible t' = visible t -> agree (ram c) (ram c') 0 (hptr c) -> cstr_at (ram c') key s ->
     hptr c + (if customenvp c <? 0 then env_size * zlen (w_vars w) else 0) <= key ->
     key + zlen s + 1 <= hptr c' -> xwpf F E (K key) c' t' Q) ->
  xwpf F E (check_valid_name p;; reserve_orig_envp;; k ← realloc_higher p; K k) c t Q.
Proof.
  intros Hl Hv Hoom Hs Hp Hphi HE HQ. pose proof (ly_order _ _ _ _ _ Hl) as (? & ? & ?).
  destruct (brk_window (base := base)) as [Hw1 Hw2]. unfold LIM in *.
  xwp_step. eapply (check_valid_wp c); [by eapply layout_readable|lia|done| |].
  { intros Hx. by apply fails_ends, HE. }
  intros Hx. xwp_step. eapply reserve_orig_envp_wp; [done|done|done|done|done|].
  intros c2 t2 Hl2 Hv2 Hsm2 Hag2 Ht2 Hp2. pose proof (ly_order _ _ _ _ _ Hl2) as (? & ? & ?). unfold LIM, env_size in *.
  assert (0 <= (if customenvp c <? 0 then 4 * (zlen (w_vars w) + 1) else 0)) as Hnn by (case_match; lia).
  xwp_step. eapply realloc_higher_wp; [done|done|done|by apply (fails_stays c c2 t t2); [apply same_stays|..]| | | | |].
  { eapply cstr_at_agree; [|exact Hs]. eapply agree_sub; [exact Hag2|lia|lia]. }
  { lia. }
  { lia. }
  { lia. }
  intros c3 t3 Hl3 Hv3 Hsm3 Hag3 Ht3 Hkey Hroom.
  apply HQ; [done|done|done|by eapply same_trans|congruence| |done| |lia].
  - eapply agree_trans; [done|]. eapply agree_sub; [done|lia|lia].
  - destruct (Z.ltb_spec (customenvp c) 0); lia.
Qed.

Lemma cmd_delenv_wp : implements cmd_delenv (a_delenv w).
Proof.
  intros l w0 args av c t Q Ha Hoom r HE HQ. unfold a_delenv in r. subst r.
  eapply args1_wp; [done|exact HE|]. intros p s c1 -> Ha1 Heq Hp Hplo Hphi. cbn [args1] in *.
  pose proof Ha1 as [[Hl Hv Hstr _ _ Hlo Hhi] _ _ _]. pose proof (ly_order _ _ _ _ _ Hl) as (? & ? & ?).
  destruct (brk_window (base := base)) as [Hw1 Hw2].
  assert (stays c c1) as Hst by (by rewrite Heq).
  assert (customenvp c1 = customenvp c) as Hce by (by rewrite Heq). rewrite <- Hce in *. clear Heq.
  apply (reserve_key_wp l c1 t p s); [done|done|by apply (fails_stays c c1 t t)|done|lia|lia| |].
  { intros Hx. unfold valid in HE. rewrite Hx in HE. by apply (fails_stays c c1 t t), HE. }
  intros key c3 t3 Hx Hl3 Hv3 Hsm3 Ht3 _ Hkey Hklo Hkhi. unfold valid in *. rewrite Hx in *.
  assert (asep c3 = asep c1 /\ customenvp c3 = customenvp c1) as [Has3 Hce3] by (by rewrite Hsm3).
  assert (stays c c3) as Hst3 by (eapply stays_trans; [done|by apply same_stays]).
  apply (redefine_wp l c3 t3 key s); [done|done|done|rewrite Has3, Hce3; lia|done| |].
  - intros e x Hown. rewrite Hce3 in Hown. rewrite own_env_bind, Hown in HE.
    apply (fails_stays c c3 t t3); [done|done|]. by apply HE.
  - intros v c4 Hown Hl4 Hv4 Hc4 Hcus Hst4 _ _ _. rewrite Hce3 in Hown. rewrite own_env_bind, Hown in HQ.
    eapply HQ; [done|done|done| |by eapply stays_trans|done]. simpl. rewrite Hcus. by apply Z.leb_le.
Qed.

Lemma cmd_setenv_wp : implements cmd_setenv (a_setenv w).
Proof.
  intros l w0 args av c t Q Ha Hoom r0 HE HQ. unfold a_setenv in r0. subst r0.
  eapply args2_wp; [done|exact HE|]. intros p q s r c1 -> Ha1 Heq Hp Hplo Hphi Hq Hqlo Hqhi _. cbn [args2] in *.
  pose proof Ha1 as [[Hl Hv Hstr _ _ Hlo Hhi] _ _ _]. pose proof (ly_order _ _ _ _ _ Hl) as (? & ? & ?).
  destruct (brk_window (base := base)) as [Hw1 Hw2].
  assert (stays c c1) as Hst by (by rewrite Heq).
  assert (customenvp c1 = customenvp c) as Hce by (by rewrite Heq). rewrite <- Hce in *. clear Heq.
  apply (reserve_key_wp l c1 t p s); [done|done|by apply (fails_stays c c1 t t)|done|lia|lia| |].
  { intros Hx. unfold valid in HE. rewrite Hx in HE. by apply (fails_stays c c1 t t), HE. }
  intros key c3 t3 Hx Hl3 Hv3 Hsm3 Ht3 Hag3 Hkey Hklo Hkhi. unfold valid in *. rewrite Hx in *.
  assert (asep c3 = asep c1 /\ customenvp c3 = customenvp c1) as [Has3 Hce3] by (by rewrite Hsm3).
  assert (stays c c3) as Hst3 by (eapply stays_trans; [done|by apply same_stays]).
  pose proof (ly_order _ _ _ _ _ Hl3) as (? & ? & ?). unfold flat, LIM in *. simpl in *. rewrite !length_app in *. simpl length in *.
  assert (0 <= if customenvp c1 <? 0 then env_size * zlen (w_vars w) else 0) as Hnn by (unfold env_size; case_match; lia).
  xwp_step. eapply (realloc_pair_wp base m0 w) with (s := s) (r := r);
    [exact Hl3|exact Hv3|by apply (fails_stays c c3 t t3)|
     eapply cstr_at_agree; [|done]; eapply agree_sub; [exact Hag3|lia|lia]|
     eapply cstr_at_agree; [|done]; eapply agree_sub; [exact Hag3|lia|lia]|lia|lia|lia|lia|lia|lia|].
  intros c4 t4 Hl4 Hv4 Hsm4 Hag4 Ht4 Hpair Hroom. fold (pair_of s r) in *.
  assert (asep c4 = asep c1 /\ customenvp c4 = customenvp c1) as [Has4 Hce4] by (rewrite Hsm4; done).
  assert (stays c c4) as Hst4 by (eapply stays_trans; [done|by apply same_stays]).
  assert (visible t4 = visible t) as Htt by congruence. pose proof (ly_order _ _ _ _ _ Hl4) as (? & ? & ?). unfold LIM in *.
  assert (zlen (pair_of s r) = zlen s + zlen r + 1) as Hpl by (unfold pair_of; rewrite length_app; simpl; lia).
  apply xwp_assoc, (redefine_wp l c4 t4 key s); [done|done| | |lia| |].
  { eapply cstr_at_agree; [|exact Hkey]. eapply agree_sub; [exact Hag4|lia|lia]. }
  { rewrite Has4, Hce4. lia. }
  { intros e x Hown. rewrite Hce4 in Hown. rewrite own_env_bind, Hown in HE.
    apply (fails_stays c c4 t t4); [done|done|]. by apply HE. }
  intros v c5 Hown Hl5 Hv5 Hc5 Hcus Hst5 Has5 Hp5 Hag5. rewrite Hce4 in *. rewrite own_env_bind, Hown in HE, HQ.
  set (x := Ent true false (inl (pair_of s r))) in *. unfold appended in HE, HQ. cbn [x e_val] in HE, HQ.
  assert (esize x = align4 (env_size + zlen (pair_of s r) + 1)) as Hes by done.
  pose proof (align4_range (env_size + zlen (pair_of s r) + 1)) as Hal. rewrite <- Hes in Hal.
  assert (stays c c5) as Hstc by (by eapply stays_trans). unfold env_size in *.
  change EV_ENVP with (flags_of true false).
  eapply (append_variable_wp base m0 w (vs_list (undefine w s v)) c5 t4 (hptr c3) (pair_of s r)); fold x; [done|done| |lia|lia|lia| |].
  - eapply cstr_at_agree; [|exact Hpair]. eapply agree_sub; [exact Hag5|lia|lia].
  - intros Hgt c' t' He' Hli' ->. apply Z.ltb_lt in Hgt. rewrite Hgt in HE.
    apply (fails_stays c c' t t4); [|done|by apply HE|done..]. split; [rewrite He'|rewrite Hli']; apply Hstc.
  - intros Hle c6 Hl6 Hv6 Heq6 _. rewrite (proj2 (Z.ltb_ge _ _)) in HQ by lia.
    eapply HQ; [done|done|done| | |done].
    + rewrite Heq6. simpl. rewrite Hcus. by apply Z.leb_le.
    + rewrite Heq6. exact Hstc.
Qed.

Lemma cmd_clearenv_wp : implements cmd_clearenv (a_clearenv).
Proof.
  intros l w0 args av c t Q Ha Hoom r HE HQ. unfold a_clearenv in r. subst r.
  eapply args0_wp; [done|exact HE|]. intros ->. cbn [args0] in *. cbn [vs_custom vs_list] in *. do 2 xwp_step.
  pose proof Ha as [[Hl Hv _ _ _ _ _] _ _ _]. destruct (Z.ltb_spec (customenvp c) 0).
  - rewrite (proj2 (Z.leb_gt _ _)) in HQ by lia. xwp_step. eapply HQ; [done| |done|done|done|done].
    by destruct Hl as [[] ? ? ? ?].
  - rewrite (proj2 (Z.leb_le _ _)) in HQ by lia. eapply clear_all_entries_wp; [done..|].
    intros c' Hl' Hv' _ Heq. eapply HQ; [done|done|done| |by rewrite Heq|done]. rewrite Heq. simpl. by apply Z.leb_le.
Qed.

Lemma find_env_spec c t name sn n i :
  layout c t -> cstr_at (ram c) name sn -> (i + n = length (w_vars w))%nat -> forall fuel, (n < fuel)%nat ->
  find_env fuel (ram c) (environ c) name (Z.of_nat i) =
  Some (Z.add (Z.of_nat i) <$> env_index sn (drop i (w_vars w).*2)).
Proof.
  intros Hl Hn. revert i. induction n as [|n IH]; intros i Hin [|fuel] Hf; [lia| |lia|]; cbn [find_env].
  - replace (Z.of_nat i) with (zlen (w_vars w)) by lia. rewrite (env_end base m0 w Hw c t) by done. cbn [mbind option_bind].
    cbn [Z.eqb]. rewrite drop_ge by (rewrite length_fmap; lia). done.
  - destruct (env_lookup base m0 w Hw c t (Z.of_nat i) Hl) as (p & s & Hx & Ho & Hld); [lia|]. rewrite Hld. cbn [mbind option_bind].
    rewrite Nat2Z.id in Hx. assert ((w_vars w).*2 !! i = Some s) as Hs by (by rewrite list_lookup_fmap, Hx).
    rewrite (drop_S _ _ _ Hs). cbn [env_index]. pose proof Ho as [Hp _]. rewrite (proj2 (Z.eqb_neq _ _)) by lia.
    rewrite (named_spec _ _ _ s sn); [|by eapply ostring_at|done]. cbn [mbind option_bind].
    destruct (defines sn s); [cbn; by rewrite Z.add_0_r|].
    replace (Z.of_nat i + 1) with (Z.of_nat (S i)) by lia. rewrite IH by lia. f_equal.
    destruct (env_index sn _); simpl; [|done]. f_equal. lia.
Qed.

Lemma env_index_range sn vs i : env_index sn vs = Some i -> 0 <= i < zlen vs.
Proof.
  revert i. induction vs as [|s vs IH]; intros i; cbn [env_index]; [done|].
  destruct (defines sn s); [intros [= <-]; simpl; lia|]. destruct (env_index sn vs) as [j|]; [|done].
  intros [= <-]. specialize (IH j eq_refl). simpl length. lia.
Qed.

Lemma cmd_getenv_wp : implements cmd_getenv (a_getenv w).
Proof.
  intros l w0 args av c t Q Ha Hoom r HE HQ. unfold a_getenv in r. subst r.
  eapply args1_wp; [done|exact HE|]. intros p s c1 -> Ha1 Heq Hp Hplo Hphi. cbn [args1] in *.
  pose proof Ha1 as [[Hl Hv Hstr _ _ Hlo Hhi] _ _ _]. pose proof (ly_order _ _ _ _ _ Hl) as (? & ? & ?).
  destruct (brk_window (base := base)) as [Hw1 Hw2].
  assert (stays c c1) as Hst by (by rewrite Heq).
  assert (customenvp c1 = customenvp c) as Hce by (by rewrite Heq). rewrite <- Hce in *. clear Heq.
  xwp_step. eapply (check_valid_wp c1); [by eapply layout_readable|lia|done| |].
  { intros Hx. unfold valid in HE. rewrite Hx in HE. by eapply fails_ends, (fails_stays c c1 t t), HE. }
  intros Hx. unfold valid in *. rewrite Hx in *. cbn [vs_list] in *.
  xwp_step. eapply check_not_defined_wp; [done..| |].
  { intros Hd. rewrite Hd in HE. by eapply fails_ends, (fails_stays c c1 t t), HE. }
  intros Hd. rewrite Hd in *. do 3 xwp_step. eapply xwp_rd.
  { apply (find_env_spec c1 t p s (length (w_vars w)) 0); [done|done|done|by eapply env_fuel]. }
  rewrite drop_0. change (Z.of_nat 0) with 0. destruct (env_index s (w_vars w).*2) as [i|] eqn:Hi; cbn [fmap option_fmap option_map].
  - apply env_index_range in Hi. rewrite length_fmap in Hi. rewrite Z.add_0_l. unfold appended in *. cbn [e_val] in *.
    change EV_SVAR with (flags_of false true). unfold flat in *. simpl in *. rewrite !length_app in *. simpl length in *.
    eapply append_reference_wp; [done|done|done|unfold env_size; lia| |].
    + intros Hgt c' t' He' Hli' ->. apply Z.ltb_lt in Hgt. rewrite Hgt in HE.
      apply (fails_stays c c' t t); [|done|by apply HE|done..]. split; [rewrite He'|rewrite Hli']; apply Hst.
    + intros Hle c2 Hl2 Hv2 Heq2 _. rewrite (proj2 (Z.ltb_ge _ _)) in HQ by lia.
      eapply HQ; [done|done|done| | |done]; rewrite Heq2; [done|exact Hst].
  - eapply fatal_wp; [by eapply layout_readable|apply ostr_str; [lia|done]|].
    by eapply fails_ends, (fails_stays c c1 t t), HE.
Qed.
End args.
