(* ===== verification/MshParse.v ===== *)
(** * src/msh: the parser

    What the handlers of the parser do to the words that are being put
    together: characters, escapes and substitutions at their end. *)
From stdpp Require Import strings.
From S2P Require Import Prelude Mem Str Fmt Parse Arr Sys Nlusctl Nlsock State Exits Cstr Util Msh MshMem MshCmd MshEnv MshVar.

#[local] Arguments le_bytes : simpl never.

Section parser.
Context `{HK : !Kern mcall} `{HL : !Locals}.
Context (base : Z) (m0 : mem) (w : world) `{HB : !BrkKern base} (Hw : world_ok base m0 w).
Context {F : Prop} {E : sh -> trace mcall -> Prop}.

Abbreviation layout := (layout base m0 w).
Abbreviation held := (held base m0 w).
Abbreviation vars := (vars w).
Abbreviation oom := (@oom E).
Abbreviation fails := (@fails E).

(** ** Text at the end of the last word *)

Definition esc (ch : Z) : Z := if ch =? 116 then 9 else if ch =? 110 then 10 else ch.

Lemma push_esc_wp l a c t ch (Q : unit -> sh -> trace mcall -> Prop) :
  held l a c t -> 0 <= ch < 256 -> oom c t ->
  (forall c' t', held l (a ++ [esc ch]) c' t' -> same c c' -> visible t' = visible t -> Q tt c' t') ->
  xwpf F E (push_esc ch) c t Q.
Proof.
  intros Hd Hch HE HQ. unfold push_esc. eapply push_char_wp; [done|done| |done|done].
  repeat case_match; lia.
Qed.

(** A string that is copied from elsewhere. *)
Lemma copy_wp l a c t v s (Q : unit -> sh -> trace mcall -> Prop) :
  held l a c t -> oom c t -> rooted_str base m0 w l c v s ->
  (forall c' t', held l (a ++ s) c' t' -> same c c' -> visible t' = visible t -> Q tt c' t') ->
  xwpf F E (spc ← heap_alloc (zlen s); wr (fun m => fst <$> memcpy m spc v (zlen s))) c t Q.
Proof.
  intros Hd HE (Hnz & Hlen & Hpl & Hc) HQ. unfold LIM in *. xwp_step.
  eapply heap_alloc_wp; [done|done|done|lia|]. intros c1 t1 Hl1 Hv1 Hb1 Hp1 Hsm Hag Ht1.
  assert (heap c1 = heap c /\ asep c1 = asep c) as [Hh1 Ha1] by (by rewrite Hsm).
  pose proof (ly_order _ _ _ _ _ Hl1) as (? & ? & ?). destruct (brk_window (base := base)) as [Hw1 Hw2].
  pose proof (hd_area _ _ _ _ _ _ _ Hd) as [_ Hp]. specialize (Hc c1 t1 Hl1 Hv1 Hh1) as Hs. unfold outside, LIM in *.
  eapply xwp_wr.
  { apply (memcpy_spec _ _ _ s); [done|by apply str_bytes, Hs|by apply (bytes_at_app _ _ s [0]), Hs| |lia].
    apply (mapped_sub _ (heap c1) (hend c1 - heap c1)); [by apply (ly_mapped _ _ _ _ _ Hl1)|lia|lia]. }
  destruct (fresh_store base m0 w l c1 t1 (hptr c) s Hl1 Hv1) as (Hl2 & Hv2 & Hag2); [lia|lia|].
  apply HQ; [|unfold same in *; rewrite Hsm; by destruct c|done]. split; [done|done|]. split.
  - simpl. apply bytes_at_app. split; [|rewrite Ha1, <- Hp; apply bytes_at_poke].
    eapply bytes_at_agree; [|exact Hb1]. eapply agree_sub; [exact Hag2|lia|lia].
  - simpl. rewrite length_app. lia.
Qed.

(** The end of a reference to a variable: its name is replaced with its value. *)
Lemma subst_var_wp l a nm c t (Q : unit -> sh -> trace mcall -> Prop) :
  held l (a ++ nm) c t -> is_str nm -> nm <> [] -> var c = asep c + zlen a -> oom c t ->
  (var_value w l nm = None -> fails c t (Some (text "undefined variable")) (Some nm) 0) ->
  (forall s c' t', var_value w l nm = Some s -> is_str s -> held l (a ++ s) c' t' -> same c c' -> visible t' = visible t -> Q tt c' t') ->
  xwpf F E subst_var c t Q.
Proof.
  intros Hd Hnm Hne Hvar HE Hundef HQ. destruct (brk_window (base := base)) as [Hw1 Hw2].
  pose proof (hd_layout _ _ _ _ _ _ _ Hd) as Hl. pose proof (ly_order _ _ _ _ _ Hl) as (? & ? & ?).
  unfold subst_var. do 2 xwp_step. rewrite (proj2 (Z.eqb_neq _ _)) by lia. xwp_step. unfold push_end.
  eapply push_char_wp; [done|done|lia|done|]. intros c1 t1 [Hl1 Hv1 Ha1] Hsm Ht1.
  assert (asep c1 = asep c /\ heap c1 = heap c /\ var c1 = var c) as (Has1 & Hh1 & Hvar1) by (by rewrite Hsm).
  pose proof (ly_order _ _ _ _ _ Hl1) as (? & ? & ?). destruct Ha1 as [Hb1 Hp1]. unfold LIM in *.
  pose proof (same_stays _ _ Hsm) as Hst. rewrite !length_app in Hp1. simpl length in Hp1.
  assert (cstr_at (ram c1) (var c) nm) as Hname.
  { split; [|done]. rewrite <- app_assoc in Hb1. apply bytes_at_app in Hb1 as [_ Hb1]. by rewrite Hvar, <- Has1. }
  xwp_step. eapply valueof_wp; [done|done|done|done|done|done|lia|]. intros v Hval.
  destruct (var_value w l nm) as [s|].
  - destruct Hval as (Hnz & Hlen & Hpl & Hc). rewrite (proj2 (Z.eqb_neq _ _)) by lia. do 2 xwp_step.
    pose proof (Hc c1 t1 Hl1 Hv1 eq_refl) as Hs. xwp_step. eapply xwp_rd; [by apply strlen_spec|].
    unfold LIM in *. rewrite s32_small by lia.
    apply (copy_wp l a (c1 <| hptr := var c |>) t1 v s).
    + split; [|done|].
      * destruct Hl1 as [[] ? ? ? ?]. split; [by split|simpl; lia|done|done|done].
      * split; [|simpl; lia]. simpl. by apply bytes_at_app in Hb1 as [Hb1 _]; apply bytes_at_app in Hb1 as [Hb1 _].
    + intros c' t' He' Hn' Ht'. apply HE; [rewrite He'; apply Hst|rewrite Hn'; apply Hst|congruence].
    + done.
    + intros c2 t2 Hd2 Hsm2 Ht2. apply (HQ s); [done|by destruct Hs|done| |congruence].
      unfold same in *. rewrite Hsm2, Hsm. by destruct c.
  - rewrite Hval. cbn [Z.eqb]. eapply fatal_wp; [by eapply layout_readable|apply ostr_str; [lia|done]|].
    by eapply fails_ends, (fails_stays c c1 t t1), Hundef.
Qed.

(** ** Parameters of the script *)

Lemma arg_lookup c t i :
  layout c t -> 0 <= i < zlen (w_args w) ->
  exists p s, w_args w !! Z.to_nat i = Some (p, s) /\ ostring base m0 p s /\
    ld64 (ram c) (topargv c + 8 * i) = Some p.
Proof.
  intros Hl Hi. destruct (lookup_lt_is_Some_2 (w_args w) (Z.to_nat i)) as [[p s] Hx]; [lia|].
  exists p, s. split; [done|]. pose proof (Forall_lookup_1 _ _ _ _ (wo_args _ _ _ Hw) Hx) as Ho. simpl in Ho. split; [done|].
  rewrite (rt_argv _ _ _ _ (ly_rooted _ _ _ _ _ Hl)). replace i with (Z.of_nat (Z.to_nat i)) by lia.
  eapply (oarray_at base m0 w c t); [done|by apply wo_argv| |destruct Ho; lia].
  rewrite lookup_app_l by (rewrite length_fmap; lia). by rewrite list_lookup_fmap, Hx.
Qed.

Lemma ostring_rooted l c p s : ostring base m0 p s -> rooted_str base m0 w l c p s.
Proof.
  intros Ho. pose proof Ho as (Hp & _ & Hout & Hlen). split; [lia|]. split; [done|]. split; [by right|].
  intros c' t' Hl' _ _. by eapply ostring_at.
Qed.

(** The value of [$0] to [$9]. *)
Definition param (ch : Z) : option (list Z) := snd <$> w_args w !! Z.to_nat (ch - 48 + 1).

Lemma undefined_special_wp {A} (k : unit -> M A) c t ch (Q : A -> sh -> trace mcall -> Prop) :
  readable c -> fails c t (Some (text "undefined special variable")) (Some [36; ch]) 0 ->
  xwpf F E (undefined_special ch ≫= k) c t Q.
Proof. intros Hr Hf. xwp_step. apply error_l_wp; [done|by apply fails_ends]. Qed.

Lemma param_wp l a c t ch (Q : unit -> sh -> trace mcall -> Prop) :
  held l a c t -> oom c t -> 48 <= ch <= 57 ->
  (param ch = None -> fails c t (Some (text "undefined special variable")) (Some [36; ch]) 0) ->
  (forall s c' t', param ch = Some s -> is_str s -> held l (a ++ s) c' t' -> same c c' -> visible t' = visible t -> Q tt c' t') ->
  xwpf F E (subst_special ch) c t Q.
Proof.
  intros Hd HE Hch Hundef HQ. pose proof (hd_layout _ _ _ _ _ _ _ Hd) as Hl. unfold subst_special, param in *.
  rewrite (proj2 (Z.eqb_neq _ _)), (proj2 (Z.leb_le _ _)), (proj2 (Z.leb_le _ _)) by lia. cbn [andb]. cbv zeta.
  do 2 xwp_step. rewrite (rt_argc _ _ _ _ (ly_rooted _ _ _ _ _ Hl)).
  destruct (Z.leb_spec (zlen (w_args w)) (ch - 48 + 1)) as [Hge|Hlt].
  - unfold xwhen. apply undefined_special_wp; [by eapply layout_readable|]. apply Hundef.
    by rewrite lookup_ge_None_2 by lia.
  - do 2 xwp_step; [done|]. xwp_step. xwp_step.
    destruct (arg_lookup c t (ch - 48 + 1) Hl) as (p & s & Hx & Ho & Hld); [lia|].
    xwp_step. eapply xwp_rd; [exact Hld|]. xwp_step.
    eapply xwp_rd; [by eapply strlen_spec, ostring_at|]. cbv zeta. pose proof Ho as (_ & _ & _ & Hlen). unfold LIM in *.
    rewrite s32_small by lia. apply (copy_wp l a c t p s); [done|done|by apply ostring_rooted|].
    intros. apply (HQ s); [by rewrite Hx|by destruct Ho as (_ & [_ ?] & _)|done..].
Qed.

(** Other characters after a dollar sign: the number of the process, or an error. *)
Lemma special_wp l a c t ch (Q : unit -> sh -> trace mcall -> Prop) :
  held l a c t -> oom c t -> ~ (48 <= ch <= 57) ->
  (forall r, ch = 36 -> oom c (t ++ [(Getpid, r)])) ->
  (ch <> 36 -> fails c t (Some (text "undefined special variable")) (Some [36; ch]) 0) ->
  (forall r c' t', ch = 36 -> held l (a ++ take 32 (dec_signed (s32 (ret r)))) c' t' -> same c c' ->
     visible t' = visible (t ++ [(Getpid, r)]) -> Q tt c' t') ->
  xwpf F E (subst_special ch) c t Q.
Proof.
  intros Hd HE Hch HE' Hundef HQ. pose proof (hd_layout _ _ _ _ _ _ _ Hd) as Hl. unfold subst_special in *.
  destruct (Z.eqb_spec ch 36) as [->|Hne].
  - destruct (brk_window (base := base)) as [Hw1 Hw2]. do 2 xwp_step. set (r := kern t Getpid). cbv zeta. set (buf := take 32 _).
    assert (held l a c (t ++ [(Getpid, r)])) as Hd'.
    { destruct Hd as [[? ? Hb ? ?] Hv Ha]. split; [split; [done|done| |done|done]|done|done]. by rewrite brk_now_snoc. }
    assert (length buf <= 32)%nat as Hlen by (unfold buf; rewrite length_take; lia).
    assert (0 <= zlen buf < 2 ^ 31) as Hsz by lia. xwp_step. eapply heap_alloc_wp; [done|exact Hd'|by apply HE'|exact Hsz|]. intros c1 t1 Hl1 Hv1 Hb1 Hp1 Hsm Hag Ht1.
    assert (heap c1 = heap c /\ asep c1 = asep c) as [Hh1 Ha1] by (by rewrite Hsm).
    pose proof (ly_order _ _ _ _ _ Hl1) as (? & ? & ?). pose proof (hd_area _ _ _ _ _ _ _ Hd) as [_ Hp].
    eapply xwp_wr.
    { apply stn_spec. apply (mapped_sub _ (heap c1) (hend c1 - heap c1)); [by apply (ly_mapped _ _ _ _ _ Hl1)|lia|lia]. }
    destruct (fresh_store base m0 w l c1 t1 (hptr c) buf Hl1 Hv1) as (Hl2 & Hv2 & Hag2); [lia|lia|].
    apply (HQ r); [done| |unfold same in *; rewrite Hsm; by destruct c|done]. split; [done|done|]. split.
    + simpl. apply bytes_at_app. split; [|rewrite Ha1, <- Hp; apply bytes_at_poke].
      eapply bytes_at_agree; [|exact Hb1]. eapply agree_sub; [exact Hag2|lia|lia].
    + change (hptr c1 = asep c1 + zlen (a ++ buf)). rewrite length_app, Nat2Z.inj_add. lia.
  - assert ((48 <=? ch) && (ch <=? 57) = false) as ->.
    { destruct (Z.leb_spec 48 ch), (Z.leb_spec ch 57); simpl; lia. }
    apply error_l_wp; [by eapply layout_readable|by apply fails_ends, Hundef].
Qed.

(** ** The start *)

(** The heap is empty at first. *)
Lemma heap_init_wp c t (Q : unit -> sh -> trace mcall -> Prop) :
  rooted base m0 w c -> ram c = m0 -> fails c t (Some (text "heap init failed")) None 0 ->
  (forall c' t', held [] [] c' t' -> visible t' = visible t -> state c' = state c -> errfd c' = errfd c ->
     line c' = line c -> customenvp c' = customenvp c -> Q tt c' t') ->
  xwpf F E heap_init c t Q.
Proof.
  intros Hroot Hram Hf HQ. destruct (brk_window (base := base)) as [Hw1 Hw2]. unfold heap_init, sys_brk, LIM in *.
  do 8 xwp_step. set (r0 := kern t (Brk 0)). set (t1 := t ++ [(Brk 0, r0)]). pose proof (brk_range t 0) as Hb0. fold r0 in Hb0. unfold LIM in Hb0.
  set (b0 := u64 (ret r0)) in *. assert (u64 (b0 + 4096) = b0 + 4096) as -> by (apply u64_small; lia).
  set (r1 := kern t1 (Brk (b0 + 4096))). set (t2 := t1 ++ [(Brk (b0 + 4096), r1)]).
  pose proof (brk_range t1 (b0 + 4096)) as Hb1. fold r1 in Hb1. unfold LIM in Hb1.
  assert (brk_now t1 = b0) as Hnow by (unfold t1; by rewrite brk_now_snoc).
  pose proof (brk_moves t1 (b0 + 4096)) as Hmv. fold r1 in Hmv. rewrite Hnow in Hmv. specialize (Hmv ltac:(lia)).
  assert (visible t2 = visible t) as Hvis by (unfold t2, t1; by rewrite !visible_snoc, !app_nil_r).
  rewrite brk_error_spec by lia. destruct (Z.leb_spec (u64 (ret r1)) b0) as [Hle|Hgt]; cbn [Z.eqb negb].
  - unfold quit. do 3 xwp_step. eapply xwp_rd; [done|]. apply error_l_wp; [by exists None|]. by apply Hf.
  - destruct Hmv as [Hmv|Hmv]; [|lia]. rewrite Hmv. do 3 xwp_step. unfold grown. simpl.
    set (j := junk (Z.to_nat (b0 + 4096 - b0))). assert (zlen j = 4096) as Hj by (unfold j; rewrite junk_length; lia).
    clearbody j. apply HQ; [|done..]. split; [|split; [done|split; [simpl; lia|constructor]]|split; [done|simpl; lia]].
    split; [by destruct Hroot; split|simpl; unfold LIM; lia|simpl; unfold t2; rewrite brk_now_snoc; exact Hmv| |].
    + intros a Ha. simpl in *. rewrite lookup_poke, Hj, decide_True by lia. apply zget_lt_is_Some. lia.
    + intros a Ha. simpl. unfold LIM in Ha. rewrite lookup_poke_out by lia. by rewrite Hram.
Qed.
End parser.
