(* ===== verification/MshSafe.v ===== *)
(** * src/msh: no script makes the interpreter access memory outside of its objects

    The state a command runs in is described by what its words are: pointers
    into a part of the heap that ends with a zero.  Commands keep that true,
    whatever they are given.  Commands that work on variables write over their
    own words and are verified with the exact layout. *)
From stdpp Require Import strings.
From S2P Require Import Prelude Mem Str Fmt Parse Arr Sys Nlusctl Nlsock State Exits Cstr Util Msh MshMem MshCmd MshEnv MshVar MshParse.

(** ** Strings *)

(** In a region of bytes that ends with a zero there is a string at every place. *)
Lemma region_str m lo lim p :
  (forall a, lo <= a < lim -> exists b, m !! a = Some b /\ 0 <= b < 256) -> m !! (lim - 1) = Some 0 ->
  lo <= p < lim -> exists s, cstr_at m p s /\ p + zlen s < lim.
Proof.
  intros Hb H0 Hp. remember (Z.to_nat (lim - p)) as n eqn:Hn. revert p Hp Hn.
  induction n as [|n IH]; intros p Hp Hn; [lia|]. destruct (Hb p Hp) as (b & Hm & Hr).
  destruct (decide (b = 0)) as [->|Hnz].
  { exists []. split; [by apply cstr_at_nil|simpl; lia]. }
  assert (p <> lim - 1) by congruence. destruct (IH (p + 1)) as (s & Hs & Hl); [lia|lia|].
  exists (b :: s). split; [apply cstr_at_cons; split; [done|split; [lia|done]]|simpl length; lia].
Qed.

Lemma digits_loop_total conv base fuel m p s n :
  cstr_at m p s -> (length s < fuel)%nat ->
  exists q k, digits_loop conv base fuel m p n = Some (q, k) /\ p <= q <= p + zlen s.
Proof.
  revert p s n. induction fuel as [|fuel IH]; intros p s n Hs Hf; [lia|]. cbn [digits_loop].
  destruct s as [|c s].
  - apply cstr_at_nil in Hs. unfold ld8. rewrite Hs. cbn. eexists _, _. split; [done|lia].
  - apply cstr_at_cons in Hs as (Hc & Hr & Hs). unfold ld8. rewrite Hc. cbn [mbind option_bind].
    rewrite (proj2 (Z.eqb_neq _ _)) by lia. cbn [negb]. case_match.
    + destruct (IH (p + 1) s (conv (n * base + (s8 c - 48))) Hs) as (q & k & Hq & Hl); [simpl in Hf; lia|].
      exists q, k. split; [done|simpl length; lia].
    + eexists _, _. split; [done|simpl length; lia].
Qed.

Lemma parse_with_total conv base m p s np :
  cstr_at m p s ->
  exists q k, parse_with (digits_loop conv base (str_fuel m)) m p np = Some (q, k) /\ (q = 0 \/ p <= q <= p + zlen s).
Proof.
  intros Hs. unfold parse_with.
  destruct (digits_loop_total conv base (str_fuel m) m p s 0 Hs) as (q & k & -> & Hq).
  { apply cstr_at_size in Hs. unfold str_fuel. lia. }
  cbn [mbind option_bind]. case_match; eexists _, _; (split; [done|]); [by left|by right].
Qed.

(** Each place of a string, its end included, can be read. *)
Lemma cstr_at_read m p s q : cstr_at m p s -> p <= q <= p + zlen s -> exists c, m !! q = Some c /\ 0 <= c < 256.
Proof.
  intros Hcs Hq. pose proof Hcs as [Hb _]. rewrite bytes_at_zget in Hb.
  destruct (zget_lt_is_Some (s ++ [0]) (q - p)) as [c Hc]; [rewrite length_app; simpl; lia|].
  exists c. split; [rewrite <- (Hb _ _ Hc); f_equal; lia|].
  assert (c ∈ s ++ [0]) as Hin.
  { unfold zget in Hc. case_decide; [|done]. by eapply list_elem_of_lookup_2. }
  by apply (cstr_at_nonneg m p s).
Qed.

Lemma strcbrk_total m p s c : cstr_at m p s -> exists q, strcbrk m p c = Some q /\ p <= q <= p + zlen s.
Proof.
  intros Hs. unfold strcbrk. pose proof (cstr_at_size _ _ _ Hs) as Hf.
  assert (length s < str_fuel m)%nat as Hf' by (unfold str_fuel; lia). clear Hf.
  revert p s Hs Hf'. generalize (str_fuel m) as fuel. induction fuel as [|fuel IH]; intros p s Hs Hf; [lia|].
  cbn [strcbrk_loop]. destruct s as [|x s].
  - apply cstr_at_nil in Hs. unfold ld8. rewrite Hs. cbn. exists p. split; [done|lia].
  - apply cstr_at_cons in Hs as (Hc & Hr & Hs). unfold ld8. rewrite Hc. cbn [mbind option_bind]. case_match.
    + destruct (IH (p + 1) s Hs) as (q & Hq & Hl); [simpl in Hf; lia|]. exists q. split; [done|simpl length; lia].
    + exists p. split; [done|simpl length; lia].
Qed.

Lemma strncmp_k_total m p s key n : cstr_at m p s -> is_Some (strncmp_k m p (key ++ [0]) n).
Proof.
  revert p s n. induction key as [|y key IH]; intros p s n Hs; cbn [strncmp_k app];
    (destruct s as [|x s]; [apply cstr_at_nil in Hs; unfold ld8; rewrite Hs; cbn; by eexists|]);
    apply cstr_at_cons in Hs as (Hc & Hr & Hs); unfold ld8; rewrite Hc; cbn [mbind option_bind];
    rewrite (proj2 (Z.eqb_neq _ _)) by lia; cbn [negb]; cbv zeta.
  - destruct (Z.eqb_spec x 0); [lia|]. rewrite andb_false_r. by eexists.
  - case_match; [by eapply IH|by eexists].
Qed.

(** ** Names in tables *)

Lemma strcmp_l_total a k : 0 ∈ a -> is_str k -> is_Some (strcmp_l a (k ++ [0])).
Proof.
  intros Ha. revert k. induction a as [|x a IH]; intros k Hk; [by apply not_elem_of_nil in Ha|].
  destruct k as [|y k]; cbn [app strcmp_l].
  - destruct (Z.eqb_spec x 0) as [->|]; cbn; by eexists.
  - destruct (Z.eqb_spec x 0) as [->|Hx]; cbn [negb andb]; [by eexists|]. destruct (x =? y); [|by eexists].
    apply IH; [apply elem_of_cons in Ha as [?|?]; [lia|done]|by inversion Hk].
Qed.

Lemma strncmp_l_total a k n : n <= zlen a -> 0 < n -> is_str k -> is_Some (strncmp_l a (k ++ [0]) n).
Proof.
  revert k n. induction a as [|x a IH]; intros k n Ha Hn Hk; [simpl in Ha; lia|].
  destruct k as [|y k]; cbn [app strncmp_l].
  - destruct (Z.eqb_spec x 0) as [->|Hx]; cbn [negb]; [by eexists|]. cbv zeta.
    rewrite andb_false_r. by eexists.
  - destruct (Z.eqb_spec x 0) as [->|Hx]; cbn [negb]; [by eexists|]. cbv zeta.
    destruct (Z.ltb_spec 0 (n - 1)); cbn [andb]; [|by eexists]. destruct (x =? y); [|by eexists].
    apply IH; [simpl length in Ha; lia|lia|by inversion Hk].
Qed.

Lemma strcmpn_l_total a k : is_bytes a -> is_str k -> is_Some (strcmpn_l a (k ++ [0])).
Proof.
  intros Ha. revert k. induction a as [|x a IH]; intros k Hk; [by destruct k; cbn; eexists|].
  inversion Ha as [|?? Hx Ha']; subst. destruct k as [|y k]; cbn [app strcmpn_l]; cbv zeta.
  - destruct (Z.eqb_spec (s8 x - s8 0) 0) as [Heq|]; cbn [negb orb]; [|by eexists].
    assert (x = 0) as -> by (apply s8_inj; lia). cbn. by eexists.
  - destruct (Z.eqb_spec (s8 x - s8 y) 0); cbn [negb orb]; [|by eexists]. destruct (x =? 0); [by eexists|].
    apply IH; [done|by inversion Hk].
Qed.

Lemma lookup_name_total {A} cmp (tbl : list (list Z * A)) :
  Forall (fun x => is_Some (cmp x.1)) tbl -> exists r, lookup_name cmp tbl = Some r.
Proof.
  induction 1 as [|[name x] tbl [d Hd] _ [r Hr]]; cbn [lookup_name]; [by eexists|].
  simpl in Hd. rewrite Hd. cbn [mbind option_bind]. rewrite Hr. case_match; by eexists.
Qed.

(** ** Searching the path *)

Lemma strpend_total m p s : cstr_at m p s -> p <> 0 -> exists e, strpend m p = Some e /\ (e = 0 \/ e = p + zlen s).
Proof.
  intros Hs Hp. unfold strpend. rewrite (proj2 (Z.eqb_neq _ _)) by done.
  cut (forall fuel p s e, cstr_at m p s -> e - p <= Z.of_nat fuel -> exists q, strpend_loop fuel m p e = Some q /\ (q = 0 \/ q = p + zlen s)).
  { intros H. apply H; [done|lia]. }
  clear p s Hs Hp. induction fuel as [|fuel IH]; intros p s e Hs Hf; cbn [strpend_loop].
  - destruct (Z.ltb_spec p e); [lia|]. eexists. split; [done|by left].
  - destruct (Z.ltb_spec p e); [|eexists; split; [done|by left]]. destruct s as [|c s].
    + apply cstr_at_nil in Hs. unfold ld8. rewrite Hs. cbn. eexists. split; [done|]. right. lia.
    + apply cstr_at_cons in Hs as (Hc & Hr & Hs). unfold ld8. rewrite Hc. cbn [mbind option_bind].
      rewrite (proj2 (Z.eqb_neq _ _)) by lia. destruct (IH (p + 1) s e Hs) as (q & Hq & Hqp); [lia|].
      exists q. split; [done|]. simpl length. destruct Hqp; [by left|right; lia].
Qed.

Lemma strecbrk_total m p e k : mapped m p (e - p) -> exists q, strecbrk m p e k = Some q /\ (p <= e -> p <= q <= e).
Proof.
  unfold strecbrk. cut (forall fuel p, e - p <= Z.of_nat fuel -> mapped m p (e - p) ->
    exists q, strecbrk_loop fuel m p e k = Some q /\ (p <= e -> p <= q <= e)).
  { intros H Hm. apply H; [lia|done]. }
  clear p. induction fuel as [|fuel IH]; intros p Hf Hm; cbn [strecbrk_loop].
  - destruct (Z.ltb_spec p e); [lia|]. exists p. split; [done|lia].
  - destruct (Z.ltb_spec p e); [|exists p; split; [done|lia]].
    destruct (Hm p) as [x Hx]; [lia|]. unfold ld8. rewrite Hx. cbn [mbind option_bind].
    destruct (s8 x =? s8 k); [exists p; split; [done|lia]|]. destruct (IH (p + 1)) as (q & Hq & Hr); [lia| |].
    { apply (mapped_sub _ p (e - p)); [done|lia|lia]. }
    exists q. split; [done|]. intros _. lia.
Qed.

(** ** Commands *)

Section safe.
Context `{HK : !Kern mcall} `{HL : !Locals}.
Context (base : Z) (m0 : mem) (w : world) `{HB : !BrkKern base} (Hw : world_ok base m0 w).

Abbreviation layout := (layout base m0 w).
Abbreviation safely := (xwpf False (fun _ _ => True)).

(** The state of a command with [n] words in [[lo, lim)] and their array at [av]. *)
Record cmd (l : list ent) (lo lim av n : Z) (c : sh) (t : trace mcall) : Prop := {
  cm_layout : layout c t;
  cm_vars : vars w l c;
  cm_argc : argc c = n /\ argv c = av /\ 0 <= argp c;
  cm_place : asep c <= lo /\ lo < lim /\ lim <= av /\ av + 8 * (n + 1) <= hptr c;
  cm_args : exists ps, bytes_at (ram c) av ((ps ++ [0]) ≫= le_bytes 8) /\ zlen ps = n /\
              Forall (fun p => lo <= p < lim) ps;
  cm_bytes a : lo <= a < lim -> exists b, ram c !! a = Some b /\ 0 <= b < 256;
  cm_end : ram c !! (lim - 1) = Some 0 }.

Section cmd.
Context (l : list ent) (lo lim av n : Z).

(** [m] keeps the state of the command, with [R] of it, and its result
    satisfies [P]. *)
Definition fine (R : sh -> Prop) {A} (m : M A) (P : A -> Prop) : Prop :=
  forall c t, cmd l lo lim av n c t -> R c ->
  safely m c t (fun x c' t' => cmd l lo lim av n c' t' /\ R c' /\ P x).

Abbreviation any := (fun _ => True).

(** A pointer into the words; that or NULL. *)
Definition isarg (p : ptr) : Prop := lo <= p < lim.
Definition optarg (p : ptr) : Prop := p = 0 \/ isarg p.

Lemma cmd_str c t p : cmd l lo lim av n c t -> isarg p -> exists s, cstr_at (ram c) p s /\ p + zlen s < lim.
Proof. intros HI Hp. eapply region_str; [apply (cm_bytes _ _ _ _ _ _ _ HI)|apply (cm_end _ _ _ _ _ _ _ HI)|done]. Qed.

Lemma cmd_pos c t p : cmd l lo lim av n c t -> isarg p -> 0 < p.
Proof.
  intros HI Hp. pose proof (ly_order _ _ _ _ _ (cm_layout _ _ _ _ _ _ _ HI)). pose proof (cm_place _ _ _ _ _ _ _ HI).
  destruct (brk_window (base := base)) as [Hw1 _]. unfold isarg in *. lia.
Qed.

Lemma cmd_ostr c t p : cmd l lo lim av n c t -> optarg p -> exists s, ostr (ram c) p = Some s.
Proof.
  intros HI [->|Hp]; [by eexists|]. destruct (cmd_str c t p HI Hp) as (s & Hs & _). exists (Some s).
  apply ostr_str; [|done]. pose proof (cmd_pos c t p HI Hp). lia.
Qed.

Section rules.
Context (R : sh -> Prop).

Lemma fine_ret {A} (x : A) (P : A -> Prop) : P x -> fine R (mret x) P.
Proof. intros HP c t HI HR. by apply xwp_ret. Qed.

Lemma fine_bind {A B} (m : M A) (f : A -> M B) P Q :
  fine R m P -> (forall x, P x -> fine R (f x) Q) -> fine R (m ≫= f) Q.
Proof.
  intros Hm Hf c t HI HR. apply xwp_bind. eapply xwp_mono; [by apply Hm|]. intros x c' t' (HI' & HR' & HP). by apply Hf.
Qed.

Lemma fine_mono {A} (m : M A) (P Q : A -> Prop) : fine R m P -> (forall x, P x -> Q x) -> fine R m Q.
Proof.
  intros Hm HPQ c t HI HR. eapply xwp_mono; [by apply Hm|]. intros x c' t' (? & ? & ?). split; [done|]. split; [done|by apply HPQ].
Qed.

Lemma fine_get {A} (f : sh -> A) : fine R (xget f) any.
Proof. intros c t HI HR. by apply xwp_get. Qed.

Lemma fine_exit {A} (P : A -> Prop) : fine R xexit P.
Proof. intros c t HI HR. by apply xwp_exit. Qed.

Lemma fine_rd {A} (f : mem -> option A) (P : A -> Prop) :
  (forall c t, cmd l lo lim av n c t -> R c -> exists x, f (ram c) = Some x /\ P x) -> fine R (rd f) P.
Proof. intros Hf c t HI HR. destruct (Hf c t HI HR) as (x & Hx & HP). by eapply xwp_rd. Qed.

Lemma fine_pure {A} (o : option A) (P : A -> Prop) : (exists x, o = Some x /\ P x) -> fine R (xpure o) P.
Proof. intros (x & -> & HP) c t HI HR. apply xwp_pure; [|done]. by intros ? [= <-]. Qed.

(** A change of the variables that the layout does not depend on. *)
Lemma fine_modify f :
  (forall c, R c -> R (f c)) ->
  (forall c, exists e sf ap, f c = c <| errfd := e |> <| sigfd := sf |> <| argp := ap |> /\ (0 <= argp c -> 0 <= ap)) ->
  fine R (xmodify f) any.
Proof.
  intros Hr Hf c t [Hl Hv Ha Hp Hs Hb He] HR. apply xwp_modify. destruct (Hf c) as (e & sf & ap & Heq & Hap).
  split; [|by split; [apply Hr|]]. rewrite Heq. destruct Hl as [[] ? ? ? ?].
  split; [split; [by split|done|done|done|done]|done| |done|done|done|done]. simpl. destruct Ha as (? & ? & ?). auto.
Qed.

(** A call that does not move the break. *)
Lemma cmd_snoc c t c0 r : (forall a, c0 <> Brk a) -> cmd l lo lim av n c t -> cmd l lo lim av n c (t ++ [(c0, r)]).
Proof.
  intros Hc [Hl Hv Ha Hp Hs Hb He]. split; [|done..].
  destruct Hl as [Hr Ho Hk Hm Hx]. split; [done|done| |done|done]. rewrite brk_now_snoc. simpl.
  by destruct c0; [edestruct Hc|..].
Qed.

(** The kernel's reply can be anything that [Y] says. *)
Lemma fine_call c0 (Y : reply -> Prop) : (forall a, c0 <> Brk a) -> (forall t, Y (kern t c0)) -> fine R (xcall c0) Y.
Proof. intros Hc HY c t HI HR. apply xwp_call. split; [by apply cmd_snoc|done]. Qed.

Lemma fine_do c0 : (forall a, c0 <> Brk a) -> fine R (do c0) any.
Proof. intros Hc. eapply fine_bind; [by apply (fine_call c0 any)|]. intros x _. by apply fine_ret. Qed.

(** *** Errors *)

Lemma fine_error_l {A} err arg r (P : A -> Prop) : fine R (error_l err arg r) P.
Proof. intros c t HI HR. apply error_l_wp; [|by intros f r1 r2]. by eapply layout_readable, cm_layout. Qed.

Lemma fine_error {A} err p r (P : A -> Prop) : optarg p -> fine R (error err p r) P.
Proof.
  intros Hp c t HI HR. destruct (cmd_ostr c t p HI Hp) as [s Hs].
  eapply error_wp; [by eapply layout_readable, cm_layout|exact Hs|by intros f r1 r2].
Qed.

Lemma fine_fatal {A} err p (P : A -> Prop) : optarg p -> fine R (fatal err p) P.
Proof.
  intros Hp c t HI HR. destruct (cmd_ostr c t p HI Hp) as [s Hs].
  eapply fatal_wp; [by eapply layout_readable, cm_layout|exact Hs|by intros f r1 r2].
Qed.

Lemma fine_check msg p r : optarg p -> fine R (check msg p r) any.
Proof. intros Hp. unfold check. destruct (r <? 0); [by apply fine_error|by apply fine_ret]. Qed.

Lemma fine_checked msg p c0 : optarg p -> (forall a, c0 <> Brk a) -> fine R (checked msg p c0) any.
Proof. intros Hp Hc. eapply fine_bind; [by apply fine_do|]. intros r _. by apply fine_check. Qed.

(** *** Arguments *)

Lemma fine_take_arg_of c t (Q : ptr -> sh -> trace mcall -> Prop) :
  cmd l lo lim av n c t -> argp c < argc c ->
  (forall p, isarg p -> ld64 (ram c) (av + 8 * argp c) = Some p -> Q p c t) -> safely (arg_at (argp c)) c t Q.
Proof.
  intros HI Hlt HQ. destruct (cm_args _ _ _ _ _ _ _ HI) as (ps & Hb & Hn & Hps).
  destruct (cm_argc _ _ _ _ _ _ _ HI) as (Hac & Hav & Hap).
  destruct (lookup_lt_is_Some_2 ps (Z.to_nat (argp c))) as [p Hp]; [lia|].
  assert (ld64 (ram c) (av + 8 * argp c) = Some p) as Hld.
  { rewrite (ld64_spec _ _ p).
    - f_equal. apply u64_small. pose proof (Forall_lookup_1 _ _ _ _ Hps Hp) as Hr. simpl in Hr.
      pose proof (cmd_pos c t p HI Hr). pose proof (cm_place _ _ _ _ _ _ _ HI).
      pose proof (ly_order _ _ _ _ _ (cm_layout _ _ _ _ _ _ _ HI)). destruct (brk_window (base := base)). unfold LIM in *. lia.
    - replace (argp c) with (Z.of_nat (Z.to_nat (argp c))) by lia. apply (bytes_at_bind8 _ _ (ps ++ [0])); [done|].
      rewrite lookup_app_l by (by eapply lookup_lt_Some). done. }
  unfold arg_at. xwp_steps. rewrite Hav. eapply xwp_rd; [exact Hld|]. apply HQ; [|done]. by eapply Forall_lookup_1 in Hp.
Qed.

Lemma fine_take_arg c t :
  cmd l lo lim av n c t -> argp c < argc c ->
  safely take_arg c t (fun x c' t' => cmd l lo lim av n c' t' /\ c' = c <| argp := argp c + 1 |> /\ isarg x).
Proof.
  intros HI Hlt. unfold take_arg. do 3 xwp_step. eapply fine_take_arg_of; [done|done|]. intros p Hp _. xwp_steps.
  destruct HI as [[[] ? ? ? ?] Hv (? & ? & ?) Hpl Hs Hb He].
  split; [split; [split; [by split|done|done|done|done]|done| |done|done|done|done]|done]. simpl. split; [done|]. split; [done|lia].
Qed.

(** Nothing is claimed of the number of the argument. *)
Definition unnumbered : Prop := forall c p, R c -> R (c <| argp := p |>).

Lemma fine_shift : unnumbered -> fine R shift isarg.
Proof.
  intros HRp.
  intros c t HI HR. unfold shift. do 4 xwp_step. apply xwp_if; intros Hle; zbool.
  - apply fine_fatal; [by left|done|done].
  - eapply xwp_mono; [by apply fine_take_arg|]. intros p c' t' (? & -> & ?). split; [done|]. split; [by apply HRp|done].
Qed.

Lemma fine_next : unnumbered -> fine R next optarg.
Proof.
  intros HRp c t HI HR. unfold next. do 4 xwp_step. apply xwp_if; intros Hle; zbool.
  - xwp_step. split; [done|]. split; [done|by left].
  - eapply xwp_mono; [by apply fine_take_arg|]. intros p c' t' (? & -> & ?). split; [done|]. split; [by apply HRp|by right].
Qed.

Lemma fine_more : fine R got_more_arguments any.
Proof. intros c t HI HR. unfold got_more_arguments. by xwp_steps. Qed.

Lemma fine_no_more : fine R no_more_arguments any.
Proof.
  intros c t HI HR. unfold no_more_arguments. do 4 xwp_step. apply xwp_if; intros _; [|by xwp_step].
  apply fine_fatal; [by left|done|done].
Qed.

Lemma fine_need : fine R need_some_arguments any.
Proof.
  intros c t HI HR. unfold need_some_arguments. do 4 xwp_step. apply xwp_if; intros _; [|by xwp_step].
  apply fine_fatal; [by left|done|done].
Qed.

(** A byte of a word; the byte after one that is not zero is in the word. *)
Lemma fine_byte p : isarg p -> fine R (rd (fun m => ld8 m p)) (fun b => b <> 0 -> isarg (p + 1)).
Proof.
  intros Hp. apply fine_rd. intros c t HI HR. destruct (cm_bytes _ _ _ _ _ _ _ HI p Hp) as (b & Hb & _).
  exists b. split; [done|]. intros Hnz. unfold isarg in *. assert (p <> lim - 1); [|lia].
  intros ->. rewrite (cm_end _ _ _ _ _ _ _ HI) in Hb. congruence.
Qed.

Lemma fine_dash_opts : unnumbered -> fine R dash_opts optarg.
Proof.
  intros HRp c t HI HR. unfold dash_opts. do 4 xwp_step. apply xwp_if; intros Hle; zbool.
  { xwp_step. split; [done|]. split; [done|by left]. }
  xwp_step. eapply fine_take_arg_of; [done|done|]. intros p Hp _. xwp_step.
  destruct (cm_bytes _ _ _ _ _ _ _ HI p Hp) as (b & Hb & _).
  eapply xwp_rd; [exact Hb|]. apply xwp_if; intros Hbz; zbool.
  { xwp_step. split; [done|]. split; [done|by left]. }
  destruct (cm_argc _ _ _ _ _ _ _ HI) as (_ & _ & Hap).
  xwp_step. eapply xwp_mono; [apply (fine_modify (fun x => x <| argp := argp c + 1 |>)); [|..|done|done]|].
  { intros c'. apply HRp. }
  { intros c'. exists (errfd c'), (sigfd c'), (argp c + 1). split; [by destruct c'|lia]. }
  intros [] c' t' (HI' & HR' & _). xwp_step. split; [done|]. split; [done|]. right. unfold isarg in *.
  assert (p <> lim - 1); [|lia]. intros ->. rewrite (cm_end _ _ _ _ _ _ _ HI) in Hb. by simplify_eq.
Qed.

(** *** Strings and numbers *)

Lemma fine_cstr p : isarg p -> fine R (rd (fun m => cstr m p)) (fun s => is_str s).
Proof.
  intros Hp. apply fine_rd. intros c t HI HR. destruct (cmd_str c t p HI Hp) as (s & Hs & _).
  exists s. split; [by apply cstr_spec|by destruct Hs].
Qed.

Lemma fine_ostr p : optarg p -> fine R (rd (fun m => ostr m p)) any.
Proof. intros Hp. apply fine_rd. intros c t HI HR. destruct (cmd_ostr c t p HI Hp) as [s Hs]. by exists s. Qed.

(** A parser of numbers reads a string only. *)
Definition parses (p : mem -> ptr -> Z -> option (ptr * Z)) : Prop :=
  forall m q s k, cstr_at m q s -> exists r v, p m q k = Some (r, v) /\ (r = 0 \/ q <= r <= q + zlen s).

Lemma fine_whole p str : parses p -> isarg str -> fine R (whole p str) any.
Proof.
  intros Hpp Hs. apply fine_rd. intros c t HI HR. destruct (cmd_str c t str HI Hs) as (s & Hc & Hlim).
  destruct (Hpp _ _ _ 0 Hc) as (r & v & -> & Hr). cbn [mbind option_bind].
  destruct (Z.eqb_spec r 0); [by eexists|]. destruct (cstr_at_read _ _ _ r Hc) as (b & Hb & _); [lia|].
  unfold ld8. rewrite Hb. cbn [mbind option_bind]. by eexists.
Qed.

Lemma parses_int : parses parseint.
Proof. intros m q s k Hs. by apply (parse_with_total s32 10). Qed.
Lemma parses_u64 : parses parseu64.
Proof. intros m q s k Hs. by apply (parse_with_total u64 10). Qed.
Lemma parses_oct : parses parseoct.
Proof. intros m q s k Hs. by apply (parse_with_total s32 8). Qed.

Lemma fine_whole_or {A} p str (K : Z -> M A) err P :
  parses p -> isarg str -> (forall x, fine R (K x) P) ->
  fine R (r ← whole p str; match r with None => fatal err str | Some x => K x end) P.
Proof.
  intros Hpp Hs HK0. eapply fine_bind; [by apply fine_whole|]. intros [x|] _; [apply HK0|]. by apply fine_fatal; right.
Qed.

Lemma fine_parsed p str err : parses p -> isarg str ->
  fine R (r ← whole p str; match r with None => fatal err str | Some x => mret x end) any.
Proof. intros. apply fine_whole_or; [done|done|]. intros x. by apply fine_ret. Qed.

Lemma fine_shift_int : unnumbered -> fine R shift_int any.
Proof.
  intros HRp. eapply fine_bind; [by apply fine_shift|]. intros p Hp. by apply fine_parsed; [apply parses_int|]. Qed.

Lemma fine_shift_u64 : unnumbered -> fine R shift_u64 any.
Proof.
  intros HRp. eapply fine_bind; [by apply fine_shift|]. intros p Hp. by apply fine_parsed; [apply parses_u64|]. Qed.

Lemma fine_parse_id p : isarg p -> fine R (parse_id p) any.
Proof. intros Hp. by apply fine_parsed; [apply parses_int|]. Qed.

Lemma fine_shift_oct : unnumbered -> fine R shift_oct any.
Proof.
  intros HRp.
  eapply fine_bind; [by apply fine_shift|]. intros p Hp. eapply fine_bind; [by apply fine_byte|]. intros b _.
  destruct (negb (b =? 48)); [by apply fine_fatal; right|]. by apply fine_parsed; [apply parses_oct|].
Qed.

Lemma fine_lookup {A} cmp (tbl : list (list Z * A)) :
  Forall (fun x => is_Some (cmp x.1)) tbl -> fine R (xpure (lookup_name cmp tbl)) any.
Proof. intros Ht. apply fine_pure. destruct (lookup_name_total cmp tbl Ht) as [r Hr]. by exists r. Qed.
End rules.
End cmd.
End safe.
