(* ===== verification/MshCmdSafe.v ===== *)
(** * src/msh: the commands are safe

    Each command keeps the state it runs in ([MshSafe.cmd]), whatever its words
    and whatever the kernel replies.  [setcaps] and [setcpus], which leave their
    tables and arrays, and [waitfor], which relies on names in the events of
    inotify that may not be there, are not among them. *)
From stdpp Require Import strings.
From S2P Require Import Prelude Mem Str Fmt Parse Arr Sys Nlusctl Nlsock State Exits Cstr Util Msh MshMem MshCmd MshEnv MshVar MshParse MshSafe.

#[local] Arguments le_bytes : simpl never.

(** ** Automation *)

Ltac fine_arg := solve [assumption | exact I | by left | by right | by intros ?].

(** The class of the kernel is found when the goal is known. *)
Tactic Notation "fapply" uconstr(H) := (apply H; try typeclasses eauto).

Ltac fine_prim :=
  first
    [ fapply fine_ret; fine_arg | fapply fine_get | fapply fine_shift; fine_arg | fapply fine_next; fine_arg | fapply fine_more
    | fapply fine_no_more | fapply fine_need | fapply fine_dash_opts; fine_arg | fapply fine_shift_int; fine_arg | fapply fine_shift_u64; fine_arg
    | fapply fine_shift_oct; fine_arg | fapply fine_exit | fapply fine_error_l
    | fapply fine_parse_id; fine_arg | fapply fine_byte; fine_arg | fapply fine_cstr; fine_arg | fapply fine_ostr; fine_arg
    | fapply fine_error; fine_arg | fapply fine_fatal; fine_arg | fapply fine_check; fine_arg
    | fapply fine_checked; [fine_arg|by intros ?] | fapply fine_do; by intros ? ].

Ltac fine_step :=
  cbv zeta;
  lazymatch goal with
  | |- fine _ _ _ _ _ _ _ _ _ (mbind _ _) _ => eapply fine_bind; [fine_prim|intros ? ?]
  | |- fine _ _ _ _ _ _ _ _ _ (if ?b then _ else _) _ => destruct b
  | |- fine _ _ _ _ _ _ _ _ _ (match ?x with _ => _ end) _ => destruct x
  | |- _ => fine_prim
  end.
Ltac fine_steps := repeat fine_step.

Section cmds.
Context `{HK : !Kern mcall} `{HL : !Locals}.
Context (base : Z) (m0 : mem) (w : world) `{HB : !BrkKern base} (Hw : world_ok base m0 w).
Context (l : list ent) (lo lim av n : Z).

Abbreviation any := (fun _ => True).
Abbreviation fine := (fine base m0 w l lo lim av n any).
Abbreviation isarg := (isarg lo lim).
Abbreviation optarg := (optarg lo lim).

Lemma fine_opt {A} (b : bool) (m k : M A) (P : A -> Prop) : fine m P -> fine k P -> fine (if b then m else k) P.
Proof. by destruct b. Qed.

Lemma fine_shift_opt : fine shift optarg.
Proof. eapply fine_mono; [fapply fine_shift; fine_arg|]. intros p Hp. by right. Qed.

(** ** Directory, end, files *)

Lemma cmd_cd_fine : fine cmd_cd any.
Proof. unfold cmd_cd. fine_steps. Qed.

Lemma cmd_exit_fine : fine cmd_exit any.
Proof.
  unfold cmd_exit. fine_step. eapply fine_bind with (P := any); [fine_steps|intros ? _]. fine_step.
  eapply fine_bind; [by apply (fine_call _ _ _ _ _ _ _ _ _ _ any)|intros ? _]. fine_steps.
Qed.

Lemma cmd_stdin_fine : fine cmd_stdin any.
Proof. unfold cmd_stdin, open_onto_fd. fine_steps. Qed.

Lemma open_output_fine fd : fine (open_output fd) any.
Proof.
  unfold open_output, wflags, open_onto_fd. fine_step. eapply fine_bind with (P := any); [|intros ? _; fine_steps].
  destruct (Z.eqb_spec x 0) as [->|Hx]; [fine_steps|]. destruct H as [->|Hp]; [done|]. fine_step.
  destruct (Z.eqb_spec x0 0) as [->|Hx0]; [fine_steps|]. specialize (H Hx0). fine_steps.
Qed.

Lemma save_stderr_fine : fine save_stderr any.
Proof.
  unfold save_stderr. fine_steps. apply fine_modify; [done|]. intros c.
  exists x0, (sigfd c), (argp c). split; [by destruct c|done].
Qed.

Lemma cmd_stdout_fine : fine cmd_stdout any.
Proof. apply open_output_fine. Qed.

Lemma cmd_stderr_fine : fine cmd_stderr any.
Proof. eapply fine_bind; [apply save_stderr_fine|]. intros _ _. apply open_output_fine. Qed.

Lemma cmd_stdtwo_fine : fine cmd_stdtwo any.
Proof.
  eapply fine_bind; [apply open_output_fine|]. intros _ _. eapply fine_bind; [apply save_stderr_fine|]. intros _ _. fine_steps.
Qed.

Lemma cmd_reopen_fine : fine cmd_reopen any.
Proof.
  unfold cmd_reopen. fine_step. fine_step.
  do 2 (eapply fine_bind with (P := any); [unfold open_onto_fd; fine_steps|intros _ _]). fine_steps.
Qed.

Lemma cmd_close_fine : fine cmd_close any.
Proof. unfold cmd_close. fine_steps. Qed.

Lemma cmd_unlink_fine : fine cmd_unlink any.
Proof. unfold cmd_unlink. fine_steps. Qed.

(** ** Mounting, credentials, limits *)

Lemma cmd_mount_fine : fine cmd_mount any.
Proof.
  unfold cmd_mount, mount_flags, mount_rest. eapply fine_bind with (P := any).
  { fine_step. destruct (Z.eqb_spec x 0) as [->|Hx]; [fine_steps|]. destruct H as [->|Hp]; [done|]. fine_steps. }
  intros flags _. fine_step. eapply fine_bind with (P := isarg); [fine_steps|intros target Ht]. fine_step.
  eapply fine_bind with (P := optarg); [repeat apply fine_opt; fine_steps; apply fine_shift_opt|intros source Hs]. fine_step.
  eapply fine_bind with (P := optarg); [repeat apply fine_opt; fine_steps; apply fine_shift_opt|intros fstype Hf]. fine_step.
  eapply fine_bind with (P := optarg); [repeat apply fine_opt; fine_steps; apply fine_shift_opt|intros data Hd]. fine_steps.
Qed.

(** The names of a table, padded to [k] bytes, end in their field. *)
Definition ended {A} (k : nat) (tbl : list (list Z * A)) : bool :=
  forallb (fun x => existsb (Z.eqb 0) (padded k x.1) && (zlen (padded k x.1) =? Z.of_nat k) &&
    forallb (fun b => (0 <=? b) && (b <? 256)) (padded k x.1)) tbl.

Lemma ended_spec {A} k (tbl : list (list Z * A)) :
  ended k tbl = true ->
  Forall (fun x => 0 ∈ padded k x.1 /\ zlen (padded k x.1) = Z.of_nat k /\ is_bytes (padded k x.1)) tbl.
Proof.
  intros H. apply Forall_forall. intros x Hx. unfold ended in H. rewrite forallb_forall in H.
  specialize (H x). rewrite <- list_elem_of_In in H. specialize (H Hx).
  apply andb_true_iff in H as [H H3]. apply andb_true_iff in H as [H1 H2]. apply existsb_exists in H1 as (y & Hy & <-%Z.eqb_eq).
  rewrite <- list_elem_of_In in Hy. split; [done|]. split; [lia|]. apply Forall_forall. intros b Hb.
  rewrite forallb_forall in H3. specialize (H3 b). rewrite <- list_elem_of_In in H3. specialize (H3 Hb). apply andb_true_iff in H3 as [H3 H4]. cbv beta. lia.
Qed.

Lemma cmd_rlimit_fine : fine cmd_rlimit any.
Proof.
  unfold cmd_rlimit. fine_step. fine_step. fine_step. eapply fine_bind with (P := any); [fine_steps|intros mx _].
  fine_step. fine_step. eapply fine_bind.
  { apply fine_lookup. eapply Forall_impl; [by apply (ended_spec 10)|]. intros y (Hy & _). by apply strcmp_l_total. }
  intros r _. fine_steps.
Qed.

Lemma cmd_umask_fine : fine cmd_umask any.
Proof. unfold cmd_umask. fine_steps. Qed.
Lemma cmd_chroot_fine : fine cmd_chroot any.
Proof. unfold cmd_chroot. fine_steps. Qed.
Lemma cmd_setuid_fine : fine cmd_setuid any.
Proof. unfold cmd_setuid. fine_steps. Qed.
Lemma cmd_setgid_fine : fine cmd_setgid any.
Proof. unfold cmd_setgid. fine_steps. Qed.

Lemma groups_loop_fine fuel gids : fine (groups_loop fuel gids) any.
Proof.
  revert gids. induction fuel as [|fuel IH]; intros gids; cbn [groups_loop]; fine_step.
  - fine_steps.
  - destruct (Z.eqb_spec x 0) as [->|Hx]; [fine_steps|]. destruct H as [->|Hp]; [done|]. fine_step. apply IH.
Qed.

Lemma cmd_groups_fine : fine cmd_groups any.
Proof. unfold cmd_groups. fine_step. eapply fine_bind; [apply groups_loop_fine|]. intros gids _. fine_steps. Qed.

(** ** Scheduling *)

Lemma cmd_setprio_fine : fine cmd_setprio any.
Proof. unfold cmd_setprio. fine_steps. Qed.

Lemma cmd_scheduler_fine : fine cmd_scheduler any.
Proof.
  unfold cmd_scheduler, resolve_sched. fine_step. fine_step. eapply fine_bind with (P := any); [fine_steps|intros prio _].
  fine_step. eapply fine_bind with (P := any); [|intros t _; fine_steps]. fine_step. eapply fine_bind.
  { apply fine_lookup. eapply Forall_impl; [by apply (ended_spec 8)|]. intros y (_ & Hy & _). apply strncmp_l_total; [lia|lia|done]. }
  intros r _. fine_steps.
Qed.

Lemma parsetime_total m p s : cstr_at m p s -> is_Some (parsetime m p).
Proof.
  intros Hs. unfold parsetime. destruct (cstr_at_read _ _ _ p Hs) as (b & Hb & _); [lia|].
  assert (ld8 m p = Some b) as -> by done. cbn [mbind option_bind]. destruct (b =? 0); [by eexists|].
  destruct (parse_with_total u64 10 m p s 0 Hs) as (q & k & Hq & Hqr). assert (parseulong m p 0 = Some (q, k)) as -> by done. cbn [mbind option_bind].
  destruct (Z.eqb_spec q 0); [by eexists|]. destruct Hqr as [?|Hqr]; [done|].
  destruct (cstr_at_read _ _ _ q Hs Hqr) as (b' & Hb' & _). assert (ld8 m q = Some b') as -> by done. cbn [mbind option_bind].
  destruct (Z.eqb_spec b' 0); [by eexists|]. destruct (Z.eqb_spec b' 46) as [->|]; cbn [negb]; [|by eexists]. cbv zeta.
  assert (exists s', cstr_at m (q + 1) s') as [s' Hs'].
  { exists (drop (S (Z.to_nat (q - p))) s). replace (q + 1) with (p + Z.of_nat (S (Z.to_nat (q - p)))) by lia.
    apply cstr_at_drop; [|done]. assert (q <> p + zlen s); [|lia]. intros ->.
    pose proof (cstr_at_lookup _ _ _ (length s) Hs ltac:(lia)) as He. rewrite (lookup_ge_None_2 s) in He by lia. simpl in He. congruence. }
  destruct (parse_with_total u64 10 m (q + 1) s' 0 Hs') as (r & k' & Hr & Hrr). assert (parseulong m (q + 1) 0 = Some (r, k')) as -> by done. cbn [mbind option_bind].
  destruct (Z.eqb_spec r 0); [by eexists|]. destruct Hrr as [?|Hrr]; [done|].
  destruct (cstr_at_read _ _ _ r Hs' Hrr) as (b'' & Hb'' & _). assert (ld8 m r = Some b'') as -> by done. cbn [mbind option_bind].
  destruct (negb (b'' =? 0)); by eexists.
Qed.

Lemma cmd_sleep_fine : fine cmd_sleep any.
Proof.
  unfold cmd_sleep. fine_step. fine_step. eapply fine_bind.
  { apply (fine_rd _ _ _ _ _ _ _ _ _ _ any). intros c t HI _. destruct (cmd_str _ _ _ _ _ _ _ _ c t x HI H) as (s & Hs & _).
    destruct (parsetime_total _ _ _ Hs) as [r Hr]. by exists r. }
  intros r _. fine_steps.
Qed.

(** ** Commands that write over their words *)

Lemma cmd_bounds c t :
  cmd base m0 w l lo lim av n c t ->
  4096 <= base /\ base + LIM < 2 ^ 47 /\ base <= asep c <= lo /\ lo < lim <= av /\ 0 <= n /\
  av + 8 * (n + 1) <= hptr c <= hend c /\ hend c < base + LIM.
Proof.
  intros [Hl _ _ Hp (? & _ & <- & _) _ _]. pose proof (ly_order _ _ _ _ _ Hl). destruct (brk_window (base := base)). lia.
Qed.

(** A zero, or a byte before the last. *)
Lemma cmd_poke c t p b :
  cmd base m0 w l lo lim av n c t -> isarg p -> 0 <= b < 256 -> (b = 0 \/ p < lim - 1) ->
  cmd base m0 w l lo lim av n (c <| ram := <[p := b]> (ram c) |>) t.
Proof.
  intros [Hl Hv Ha Hp Hs Hb He] Harg Hr Hz. pose proof (ly_order _ _ _ _ _ Hl) as (? & ? & ?).
  destruct (brk_window (base := base)) as [Hw1 Hw2]. unfold isarg, LIM in *.
  assert (0 <= n) as Hn0 by (destruct Hs as (? & _ & <- & _); lia).
  change (<[p := b]> (ram c)) with (poke (ram c) p [b]).
  split; [| |done|done| | |].
  - apply layout_poke; [done|lia|simpl; lia].
  - apply (vars_agree w l c); [lia|done|done|apply agree_poke; simpl; lia|done].
  - destruct Hs as (ps & Hps & Hn & Hf). exists ps. split; [|done]. eapply bytes_at_agree; [|exact Hps].
    apply agree_poke. simpl. left. lia.
  - intros a Ha'. simpl. destruct (decide (a = p)) as [->|Hne]; [exists b; by rewrite lookup_insert_eq|].
    rewrite lookup_insert_ne by done. by apply Hb.
  - simpl. destruct (decide (lim - 1 = p)) as [<-|Hne]; [|by rewrite lookup_insert_ne].
    rewrite lookup_insert_eq. f_equal. lia.
Qed.

Lemma fine_poke p b : isarg p -> 0 <= b < 256 -> (b = 0 \/ p < lim - 1) -> fine (wr (fun m => st8 m p b)) any.
Proof.
  intros Hp Hb Hz c t HI _. destruct (cm_bytes _ _ _ _ _ _ _ _ _ _ HI p Hp) as (x & Hx & _).
  eapply xwp_wr; [by apply st8_mapped|]. rewrite u8_byte by done. split; [by apply cmd_poke|done].
Qed.

Lemma chown_fine owner name : isarg owner -> isarg name -> fine (chown owner name) any.
Proof.
  intros Ho Hn. unfold chown. eapply fine_bind with (P := isarg).
  { apply fine_rd. intros c t HI _. destruct (cmd_str _ _ _ _ _ _ _ _ c t owner HI Ho) as (s & Hs & Hlim).
    destruct (strcbrk_total _ _ _ 58 Hs) as (q & Hq & Hr). exists q. split; [done|]. unfold isarg in *. lia. }
  intros sep Hsep. fine_step. eapply fine_bind with (P := any).
  { destruct (Z.eqb_spec x 0) as [->|Hx]; [fine_steps|]. specialize (H Hx).
    eapply fine_mono; [fapply fine_byte; fine_arg|done]. }
  intros c1 _. eapply fine_bind with (P := any).
  { destruct (Z.eqb_spec x 0) as [->|Hx]; cbn [orb]; [fine_steps|]. specialize (H Hx).
    destruct (c1 =? 0); [fine_steps|]. fapply fine_parsed; [apply parses_int|done]. }
  intros gid _. eapply fine_bind; [apply fine_poke; [done|lia|by left]|]. intros _ _.
  eapply fine_bind with (P := any).
  { destruct (sep =? owner); [fine_steps|]. fapply fine_parsed; [apply parses_int|done]. }
  intros uid _. fine_steps.
Qed.

Lemma cmd_mkdir_fine : fine cmd_mkdir any.
Proof.
  unfold cmd_mkdir. fine_step. fine_step. eapply fine_bind with (P := any); [fine_steps|intros mode _]. fine_step.
  eapply fine_bind with (P := optarg); [apply fine_opt; [apply fine_shift_opt|fine_steps]|]. intros owner Ho.
  fine_step. fine_step. eapply fine_bind with (P := any); [fine_steps|intros _ _].
  destruct (Z.eqb_spec owner 0) as [->|Hne]; [fine_steps|]. destruct Ho as [->|Ho]; [done|]. by apply chown_fine.
Qed.

(** *** Messages: the zero of a word is a newline while it is written *)

Lemma writeall_wp buf fd c t (Q : Z -> sh -> trace mcall -> Prop) :
  (forall r t', (forall a, brk_now t = a -> brk_now t' = a) -> Q r c t') ->
  xwpf False (fun _ _ => True) (writeall Write fd buf) c t Q.
Proof.
  intros HQ. unfold writeall.
  cut (forall fuel buf wr t, (length buf <= fuel)%nat ->
    (forall r t', (forall a, brk_now t = a -> brk_now t' = a) -> Q r c t') ->
    xwpf False (fun _ _ => True) (writeall_loop Write fuel fd buf wr) c t Q).
  { intros H. by apply H. }
  clear buf t HQ. induction fuel as [|fuel IH]; intros buf wr t Hf HQ; cbn [writeall_loop].
  - destruct (Z.ltb_spec 0 (zlen buf)); [lia|]. xwp_step. by apply HQ.
  - destruct (Z.ltb_spec 0 (zlen buf)); [|by xwp_step; apply HQ]. do 2 xwp_step. cbv zeta.
    set (r := s64 _). destruct (Z.eqb_spec r 0) as [Hr|Hr].
    + rewrite (proj2 (Z.ltb_lt _ _)) by lia. xwp_step. apply HQ. intros a. by rewrite brk_now_snoc.
    + destruct (Z.ltb_spec r 0); [xwp_step; apply HQ; intros a; by rewrite brk_now_snoc|].
      apply IH; [rewrite length_drop; lia|]. intros r' t' Ht. apply HQ. intros a Ha. apply Ht. by rewrite brk_now_snoc.
Qed.

(** The memory is what it was when the zero is back. *)
Lemma restore_zero (m : mem) p : m !! p = Some 0 -> <[p := 0]> (<[p := 10]> m) = m.
Proof. intros H. by rewrite insert_insert_eq, insert_id. Qed.

Lemma fine_newline {A} p s (k : A -> M unit) (send : list Z -> M A) c t Q :
  cmd base m0 w l lo lim av n c t -> isarg p -> cstr_at (ram c) p s ->
  (forall c1, c1 = c <| ram := <[p + zlen s := 10]> (ram c) |> ->
     xwpf False (fun _ _ => True) (send (s ++ [10]) ≫= k) c1 t Q) ->
  xwpf False (fun _ _ => True)
    (wr (fun m => st8 m (p + zlen s) 10);; buf ← rd (fun m => peek m p (Z.to_nat (zlen s + 1))); send buf ≫= k) c t Q.
Proof.
  intros HI Hp Hs HQ. pose proof Hs as [Hb _]. apply bytes_at_app in Hb as [Hb1 Hb2]. apply bytes_at_cons in Hb2 as [H0 _].
  xwp_step. eapply xwp_wr; [by apply st8_mapped|]. rewrite (u8_byte 10) by lia. xwp_step. eapply xwp_rd.
  { apply (proj2 (peek_Some _ _ _ (s ++ [10]))). split; [rewrite length_app; simpl; lia|]. simpl.
    apply bytes_at_app. split; [|apply bytes_at_cons; split; [apply lookup_insert_eq|done]].
    apply bytes_at_insert_apart; [lia|done]. }
  by apply HQ.
Qed.

Lemma print_fine fd : fine (print fd) any.
Proof.
  unfold print. fine_step. fine_step. intros c t HI _. destruct (cmd_str _ _ _ _ _ _ _ _ c t x HI H) as (s & Hs & Hlim).
  xwp_step. eapply xwp_rd; [by apply strlen_spec|]. cbv zeta. pose proof (cmd_pos _ _ _ _ _ _ _ _ c t x HI H).
  pose proof (cmd_bounds c t HI). unfold LIM, MshSafe.isarg in *. rewrite s32_small by lia.
  eapply fine_newline; [done|done|done|]. intros c1 Hc1. xwp_step. apply writeall_wp. intros r t' Ht.
  xwp_step. eapply xwp_wr.
  { apply st8_mapped. rewrite Hc1. simpl. by rewrite lookup_insert_eq. }
  rewrite (u8_byte 0) by lia. assert (c1 <| ram := <[x + zlen s := 0]> (ram c1) |> = c) as ->.
  { rewrite Hc1. simpl. rewrite restore_zero; [by destruct c|]. pose proof Hs as [Hb _].
    apply bytes_at_app in Hb as [_ Hb]. by apply bytes_at_cons in Hb as [Hb _]. }
  assert (cmd base m0 w l lo lim av n c t') as HI'.
  { destruct HI as [[? ? Hb ? ?] ? ? ? ? ? ?]. split; [split; [done|done|by apply Ht|done|done]|done..]. }
  by apply (fine_check base m0 w l lo lim av n any); [left| |].
Qed.

Lemma cmd_echo_fine : fine cmd_echo any.
Proof. apply print_fine. Qed.
Lemma cmd_warn_fine : fine cmd_warn any.
Proof. apply print_fine. Qed.

Lemma exit_fail_fine {A} (P : A -> Prop) : fine exit_fail P.
Proof. unfold exit_fail. eapply fine_bind; [by apply (fine_call _ _ _ _ _ _ _ _ _ _ any)|]. intros _ _. fine_steps. Qed.

Lemma cmd_die_fine : fine cmd_die any.
Proof. unfold cmd_die. eapply fine_bind; [apply cmd_warn_fine|]. intros _ _. apply exit_fail_fine. Qed.

(** ** Security bits and filters *)

Lemma striplock_fine (R : sh -> Prop) p :
  (forall c m, R c -> R (c <| ram := m |>)) -> isarg p -> MshSafe.fine base m0 w l lo lim av n R (striplock p) any.
Proof.
  intros HRm Hp c t HI HR. unfold striplock. destruct (cmd_str _ _ _ _ _ _ _ _ c t p HI Hp) as (s & Hs & Hlim).
  pose proof (cmd_bounds c t HI). unfold LIM, MshSafe.isarg in *.
  xwp_step. eapply xwp_rd; [by apply strlen_spec|]. cbv zeta. rewrite s32_small by lia.
  apply xwp_if; intros Hle; zbool; [by xwp_step|].
  assert (cstr_at (ram c) (p + zlen s - 5) (drop (length s - 5) s)) as Hd.
  { replace (p + zlen s - 5) with (p + Z.of_nat (length s - 5)) by lia. apply cstr_at_drop; [lia|done]. }
  destruct (strncmp_k_total (ram c) (p + zlen s - 5) _ (text "-lock") 5 Hd) as [d Hk].
  xwp_step. eapply xwp_rd; [exact Hk|]. apply xwp_if; intros Hz; [by xwp_step|].
  assert (isarg (p + zlen s - 5)) as Hq by (unfold MshSafe.isarg; lia).
  destruct (cm_bytes _ _ _ _ _ _ _ _ _ _ HI _ Hq) as (x & Hx & _).
  xwp_step. eapply xwp_wr; [by apply st8_mapped|]. rewrite (u8_byte 0) by lia. xwp_step.
  split; [apply cmd_poke; [done|done|lia|by left]|]. split; [by apply HRm|done].
Qed.

Lemma secbits_loop_wp fuel bits c t :
  cmd base m0 w l lo lim av n c t -> n - argp c <= Z.of_nat fuel ->
  xwpf False (fun _ _ => True) (secbits_loop fuel bits) c t (fun _ c' t' => cmd base m0 w l lo lim av n c' t').
Proof.
  revert bits c t. induction fuel as [|fuel IH]; intros bits c t HI Hf; cbn [secbits_loop];
    pose proof (cm_argc _ _ _ _ _ _ _ _ _ _ HI) as (Hn & _ & Hap); unfold next; do 5 xwp_step; rewrite Hn.
  - rewrite (proj2 (Z.leb_le _ _)) by lia. xwp_step. cbn [Z.eqb]. by xwp_step.
  - apply xwp_if; intros Hle; zbool; [xwp_step; cbn [Z.eqb]; by xwp_step|].
    eapply xwp_mono; [apply (fine_take_arg base m0 w l lo lim av n); [done|lia]|]. intros p c1 t1 (HI1 & Heq & Hp).
    pose proof (cmd_pos _ _ _ _ _ _ _ _ c1 t1 p HI1 Hp). rewrite (proj2 (Z.eqb_neq _ _)) by lia. apply xwp_bind.
    eapply xwp_mono; [apply (striplock_fine (fun c' => argp c' = argp c + 1)); [done|done|done|by rewrite Heq]|].
    intros lock c2 t2 (HI2 & Hap2 & _). apply xwp_bind.
    eapply xwp_mono; [by apply (fine_cstr base m0 w l lo lim av n (fun c' => argp c' = argp c + 1) p)|].
    intros a c3 t3 (HI3 & Hap3 & Ha). apply xwp_bind.
    eapply xwp_mono; [apply (fine_lookup base m0 w l lo lim av n (fun c' => argp c' = argp c + 1)); [|done|done]|].
    { eapply Forall_impl; [by apply (ended_spec 12)|]. intros y (_ & _ & Hy). by apply strcmpn_l_total. }
    intros [bit|] c4 t4 (HI4 & Hap4 & _).
    + apply IH; [done|lia].
    + eapply xwp_mono; [by apply (fine_fatal base m0 w l lo lim av n any _ p any); [right| |]|]. by intros ??? (? & _).
Qed.

Lemma prctl_secbits_fine : fine prctl_secbits any.
Proof.
  unfold prctl_secbits. fine_step. intros c t HI _. do 4 xwp_step. apply xwp_bind. pose proof (cm_argc _ _ _ _ _ _ _ _ _ _ HI) as (Hn & _ & _).
  eapply xwp_mono; [apply secbits_loop_wp; [done|lia]|]. intros bits c' t' HI'.
  by apply (fine_checked base m0 w l lo lim av n any); [by left|..].
Qed.

Lemma prctl_nonewprivs_fine : fine prctl_nonewprivs any.
Proof. unfold prctl_nonewprivs. fine_steps. Qed.

Lemma filled_length k r : zlen (out r) <= Z.of_nat k -> exists b, filled k r = Some b /\ zlen b = Z.of_nat k.
Proof.
  intros H. unfold filled. rewrite awrite_Some by (rewrite ?junk_length; lia). eexists. split; [done|].
  rewrite !length_app, length_take, length_drop, junk_length. lia.
Qed.

Lemma get32_total b off : 0 <= off -> off + 4 <= zlen b -> is_Some (get32 b off).
Proof. intros. unfold get32. rewrite aread_Some by lia. by eexists. Qed.

Lemma get64_total b off : 0 <= off -> off + 8 <= zlen b -> is_Some (get64 b off).
Proof. intros. unfold get64. rewrite aread_Some by lia. by eexists. Qed.
End cmds.

(** What the kernel stores for a call is what it was asked for. *)
Class ReplyKern `{!Kern mcall} : Prop := {
  rk_read t fd k : 0 <= k -> let r := kern t (Read fd k) in
    is_bytes (out r) /\ zlen (out r) <= k /\ (0 < s32 (ret r) -> s32 (ret r) <= zlen (out r));
  rk_wait t pid flags : zlen (out (kern t (Waitpid pid flags))) <= 4;
  rk_stat t fd : zlen (out (kern t (Fstat fd))) <= 144 }.

Section more.
Context `{HK : !Kern mcall} `{HL : !Locals} `{HR : !ReplyKern}.
Context (base : Z) (m0 : mem) (w : world) `{HB : !BrkKern base} (Hw : world_ok base m0 w).
Context (l : list ent) (lo lim av n : Z).

Abbreviation any := (fun _ => True).
Abbreviation fine := (fine base m0 w l lo lim av n any).
Abbreviation isarg := (isarg lo lim).
Abbreviation optarg := (optarg lo lim).

Lemma prctl_seccomp_fine : fine prctl_seccomp any.
Proof.
  unfold prctl_seccomp. fine_step. fine_step. fine_step. fine_step. fine_step.
  eapply fine_bind; [apply (fine_call base m0 w l lo lim av n any _ (fun r => zlen (out r) <= 144)); [done|intros ?; apply rk_stat]|].
  intros r Hr. cbv beta in Hr. fine_step. destruct (filled_length 144 r ltac:(lia)) as (b & Hb & Hbl).
  eapply fine_bind with (P := fun b => zlen b = 144); [apply fine_pure; by exists b|]. intros b' Hb'.
  eapply fine_bind with (P := any); [apply fine_pure; destruct (get64_total b' 48) as [v Hv]; [lia|lia|by exists v]|].
  intros size _. fine_step; [fine_steps|]. fine_step; [fine_steps|].
  eapply fine_bind; [by apply (fine_call base m0 w l lo lim av n any _ any)|]. intros p _. fine_steps.
Qed.

Lemma cmd_prctl_fine : fine cmd_prctl any.
Proof.
  unfold cmd_prctl. fine_step. fine_step.
  fine_step; [by apply prctl_nonewprivs_fine|]. fine_step; [by apply prctl_secbits_fine|].
  fine_step; [by apply prctl_seccomp_fine|]. fine_steps.
Qed.

(** ** Execution *)

Lemma cmd_same c t c' t' :
  cmd base m0 w l lo lim av n c t -> layout base m0 w c' t' -> vars w l c' -> same c c' ->
  agree (ram c) (ram c') 0 (hptr c) -> hptr c <= hptr c' -> cmd base m0 w l lo lim av n c' t'.
Proof.
  intros HI Hl' Hv' Hsm Hag Hp. pose proof (cmd_bounds base m0 w l lo lim av n c t HI) as Hbd.
  destruct HI as [Hl Hv Ha Hpl Hs Hb He]. unfold same in Hsm.
  split; [done|done|by rewrite Hsm| | | |].
  - assert (asep c' = asep c) by (by rewrite Hsm). lia.
  - destruct Hs as (ps & Hps & Hn & Hf). exists ps. split; [|done]. eapply bytes_at_agree; [|exact Hps].
    pose proof (length_bind8 (ps ++ [0])) as Hlen. rewrite length_app in Hlen. simpl in Hlen.
    eapply agree_sub; [exact Hag|lia|lia].
  - intros a Ha'. rewrite (Hag a) by lia. by apply Hb.
  - by rewrite (Hag (lim - 1)) by lia.
Qed.

Lemma prepenvp_cmd c t (Q : ptr -> sh -> trace mcall -> Prop) :
  cmd base m0 w l lo lim av n c t ->
  (forall p c' t' es, cmd base m0 w l lo lim av n c' t' -> argp c' = argp c -> strv_at (ram c') p es -> Q p c' t') ->
  xwpf False (fun _ _ => True) prepenvp c t Q.
Proof.
  intros HI HQ. apply (prepenvp_wp base m0 w Hw l c t); [by eapply cm_layout|by eapply cm_vars|by intros c' t' _ _ _ f r1 r2|].
  intros p c' t' Hl' Hv' Hsm Hag _ Hes Hp. eapply HQ; [by eapply cmd_same|by rewrite Hsm|done].
Qed.

(** The arguments from number [i] on. *)
Lemma cmd_strv c t i : cmd base m0 w l lo lim av n c t -> 0 <= i <= n -> exists ss, strv_at (ram c) (av + 8 * i) ss.
Proof.
  intros HI Hi. pose proof (cmd_bounds base m0 w l lo lim av n c t HI) as Hbd.
  destruct (cm_args _ _ _ _ _ _ _ _ _ _ HI) as (ps & Hb & Hn & Hf).
  assert (exists ss, Forall2 (fun p s => 0 < p < 2 ^ 64 /\ cstr_at (ram c) p s) (drop (Z.to_nat i) ps) ss) as [ss Hss].
  { assert (Forall (fun p => lo <= p < lim) (drop (Z.to_nat i) ps)) as Hd by (by apply Forall_drop).
    induction Hd as [|p qs Hp Hd [ss IH]]; [by exists []|].
    destruct (cmd_str _ _ _ _ _ _ _ _ c t p HI Hp) as (s & Hs & _). exists (s :: ss). constructor; [|done].
    split; [|done]. unfold LIM in *. lia. }
  exists ss, (drop (Z.to_nat i) ps). split; [|done].
  rewrite <- (take_drop (Z.to_nat i) ps), <- app_assoc, bind_app in Hb. apply bytes_at_app in Hb as [_ Hb].
  rewrite length_bind8, length_take in Hb. by replace (8 * Z.of_nat (Z.to_nat i `min` length ps)) with (8 * i) in Hb by lia.
Qed.

Lemma xwp_ld {A} (f : mem -> option A) x c t (Q : A -> sh -> trace mcall -> Prop) :
  f (ram c) = Some x -> Q x c t -> xwpf False (fun _ _ => True) (ld ram f) c t Q.
Proof. intros Hf HQ. unfold xwpf, ld. by rewrite Hf. Qed.

(** Calls only add to the trace, and the break is where it was. *)
Abbreviation still t t' := (brk_now t' = brk_now t).

Lemma sys_execve_wp c t path avp envp ss es (Q : Z -> sh -> trace mcall -> Prop) :
  strv_at (ram c) avp ss -> strv_at (ram c) envp es -> (forall r t', still t t' -> Q r c t') ->
  xwpf False (fun _ _ => True) (sys_execve Execve ram path avp envp) c t Q.
Proof.
  intros Hs He HQ. unfold sys_execve. xwp_step. eapply xwp_ld; [by apply strs_spec|]. xwp_step.
  eapply xwp_ld; [by apply strs_spec|]. xwp_steps. apply HQ. by rewrite brk_now_snoc.
Qed.

(** A key that compares equal is part of the string. *)
Lemma strncmp_k_zero m p s key k :
  cstr_at m p s -> Forall (fun b => 0 < b < 128) key -> k = zlen key -> key <> [] ->
  exists d, strncmp_k m p (key ++ [0]) k = Some d /\ (d = 0 -> (length key <= length s)%nat).
Proof.
  intros Hs Hk -> Hne. revert p s Hs Hne. induction Hk as [|y key Hy Hk IH]; intros p s Hs Hne; [done|]. cbn [strncmp_k app].
  destruct s as [|x s].
  - apply cstr_at_nil in Hs. unfold ld8. rewrite Hs. cbn [mbind option_bind Z.eqb negb]. eexists. split; [done|]. intros Hd.
    assert (0 = y) by (apply s8_inj; lia). lia.
  - apply cstr_at_cons in Hs as (Hc & Hr & Hs). unfold ld8. rewrite Hc. cbn [mbind option_bind].
    rewrite (proj2 (Z.eqb_neq _ _)) by lia. cbn [negb]. cbv zeta. destruct (Z.eqb_spec x y) as [->|Hxy].
    + destruct key as [|z key].
      * simpl. eexists. split; [done|]. intros _. simpl. lia.
      * rewrite (proj2 (Z.ltb_lt _ _)) by (simpl length; lia). cbn [andb].
        replace (zlen (y :: z :: key) - 1) with (zlen (z :: key)) by (simpl length; lia).
        destruct (IH (p + 1) s Hs) as (d & Hd & Hz); [done|]. exists d. split; [done|]. simpl in *. lia.
    + rewrite andb_false_r. eexists. split; [done|]. intros Hd. exfalso. apply Hxy, s8_inj; lia.
Qed.

Lemma getenv_total c envp es key :
  strv_at (ram c) envp es -> Forall (fun b => 0 < b < 128) key -> key <> [] -> zlen key < 1024 ->
  exists p, getenv (ram c) envp key = Some p /\ (p = 0 \/ 0 < p /\ exists s, cstr_at (ram c) p s).
Proof.
  intros (ps & Hb & HF) Hk Hne Hlen. unfold getenv. rewrite (proj2 (Z.leb_gt _ _)) by lia.
  assert (length ps < str_fuel (ram c))%nat as Hf.
  { pose proof (length_bind8 (ps ++ [0])) as Hl. apply bytes_at_size in Hb. rewrite length_app in Hl. simpl in Hl.
    unfold str_fuel. lia. }
  revert envp Hb Hf. generalize (str_fuel (ram c)) as fuel. intros fuel. revert fuel.
  induction HF as [|p s ps es [Hp Hs] HF IH]; intros [|fuel] pp Hb Hf; simpl in Hf; try lia; cbn [getenv_loop].
  - rewrite (ld64_spec _ pp 0); [exists 0; split; [done|by left]|]. cbn [app] in Hb. by rewrite bind_cons, app_nil_r in Hb.
  - cbn [app] in Hb. rewrite bind_cons in Hb. apply bytes_at_app in Hb as [Hb1 Hb2].
    rewrite (ld64_spec _ pp p) by done. rewrite u64_small by lia. cbn [mbind option_bind].
    rewrite (proj2 (Z.eqb_neq _ _)) by lia. rewrite (proj2 (Z.eqb_neq (zlen key) 0)) by (destruct key; [done|simpl; lia]).
    destruct (strncmp_k_zero (ram c) p s key _ Hs Hk eq_refl Hne) as (d & Hd & Hz). rewrite Hd. cbn [mbind option_bind].
    rewrite length_le_bytes in Hb2. destruct (Z.eqb_spec d 0) as [Hd0|]; cbn [negb]; [|apply IH; [done|lia]].
    specialize (Hz Hd0). pose proof (cstr_at_lookup _ _ _ _ Hs Hz) as Hc. unfold ld8. rewrite Hc. cbn [mbind option_bind].
    destruct (Z.eqb_spec (default 0 (s !! length key)) 61) as [H61|]; [|apply IH; [done|lia]].
    eexists. split; [done|]. right. split; [lia|]. exists (drop (S (length key)) s).
    replace (p + zlen key + 1) with (p + Z.of_nat (S (length key))) by lia. apply cstr_at_drop; [|done].
    destruct (s !! length key) eqn:Hsl; simpl in H61; [|done]. apply lookup_lt_Some in Hsl. lia.
Qed.

Lemma cstr_at_mapped m p s : cstr_at m p s -> mapped m p (zlen s + 1).
Proof. intros Hs q Hq. destruct (cstr_at_read m p s q Hs) as (b & Hb & _); [lia|]. by exists b. Qed.

Lemma execvpe_wp c t file avp envp fs ss es (Q : Z -> sh -> trace mcall -> Prop) :
  0 < file -> cstr_at (ram c) file fs -> strv_at (ram c) avp ss -> strv_at (ram c) envp es ->
  (forall r t', still t t' -> Q r c t') ->
  xwpf False (fun _ _ => True) (execvpe Execve ram file avp envp) c t Q.
Proof.
  intros Hf Hfs Hs He HQ. unfold execvpe. destruct (strpend_total _ _ _ Hfs ltac:(lia)) as (fend & Hfe & Hfend).
  pose proof (cstr_at_mapped _ _ _ Hfs) as Hfm.
  xwp_step. eapply xwp_ld; [exact Hfe|]. rewrite (proj2 (Z.eqb_neq file 0)) by lia.
  apply xwp_if; intros Hz; zbool; [xwp_step; by apply HQ|]. apply xwp_if; intros Hz'; zbool; [xwp_step; by apply HQ|].
  destruct Hfend as [?|Hfend]; [done|]. destruct (strecbrk_total (ram c) file fend 47) as (q & Hq & Hqr).
  { apply (mapped_sub _ file (zlen fs + 1)); [done|lia|lia]. }
  xwp_step. eapply xwp_ld; [exact Hq|]. apply xwp_if; intros _.
  { xwp_step. eapply xwp_ld; [by apply cstr_spec|]. by eapply sys_execve_wp. }
  destruct (getenv_total c envp es (text "PATH") He) as (p & Hp & Hpr); [repeat constructor|done|done|].
  xwp_step. eapply xwp_ld; [exact Hp|]. xwp_step. destruct Hpr as [->|(Hnz & ps & Hps)].
  { eapply xwp_ld; [done|]. cbn [Z.eqb]. xwp_step. by apply HQ. }
  destruct (strpend_total _ _ _ Hps ltac:(lia)) as (e & Hpe & Hpend). eapply xwp_ld; [exact Hpe|].
  rewrite (proj2 (Z.eqb_neq p 0)) by lia. apply xwp_if; intros Hez; zbool; [xwp_step; by apply HQ|].
  destruct Hpend as [?|Hpend]; [done|]. pose proof (cstr_at_mapped _ _ _ Hps) as Hpm.
  assert (mapped (ram c) p (e - p)) as Hpm' by (apply (mapped_sub _ p (zlen ps + 1)); [done|lia|lia]).
  clear Hps Hpm Hp Hpe Hpend Hnz ps. assert (still t t) as Ht by done. revert Ht. generalize t at 1 3. intros t' Ht.
  assert (e - p <= Z.of_nat (Z.to_nat (e - p))) as Hfuel by lia. revert Hfuel. generalize (Z.to_nat (e - p)) as fuel.
  intros fuel. revert p t' Ht Hpm'. induction fuel as [|fuel IH]; intros p t' Ht Hpm Hfuel; cbn [execvpe_loop].
  - destruct (Z.ltb_spec p e); [lia|]. xwp_step. by apply HQ.
  - destruct (Z.ltb_spec p e); [|xwp_step; by apply HQ].
    destruct (strecbrk_total (ram c) p e 58 Hpm) as (r & Hr & Hrr). specialize (Hrr ltac:(lia)).
    xwp_step. eapply xwp_ld; [exact Hr|]. xwp_step. unfold execvpe_at. cbv zeta. xwp_step.
    assert (strelen p r <= e - p /\ 0 <= strelen p r) as Hsl by (unfold strelen; case_match; lia).
    assert (strelen file fend <= zlen fs /\ 0 <= strelen file fend) as Hsf by (unfold strelen; case_match; lia).
    destruct (peek_mapped (ram c) p (Z.to_nat (strelen p r))) as [d Hd]; [apply (mapped_sub _ p (e - p)); [done|lia|lia]|].
    eapply xwp_ld; [exact Hd|]. xwp_step.
    destruct (peek_mapped (ram c) file (Z.to_nat (strelen file fend))) as [f Hfp]; [apply (mapped_sub _ file (zlen fs + 1)); [done|lia|lia]|].
    eapply xwp_ld; [exact Hfp|]. eapply sys_execve_wp; [done|done|]. intros x t'' Ht'.
    apply xwp_if; intros _; [xwp_step; apply HQ; congruence|].
    apply IH; [congruence| |lia]. apply (mapped_sub _ p (e - p)); [done|lia|lia].
Qed.
End more.
