(* ===== verification/MshScript.v ===== *)
(** * src/msh: no script makes the interpreter access memory outside of its objects

    The commands that execute programs, the table, the parser and the whole
    interpreter: whatever the script and the replies of the kernel, a run goes on to
    its end or exits, and never reads or writes outside of an object. *)
From stdpp Require Import strings.
From S2P Require Import Prelude Mem Str Fmt Parse Arr Sys Nlusctl Nlsock State Exits Cstr Util Msh MshMem MshCmd MshEnv MshVar MshParse MshSafe MshCmdSafe.

#[local] Arguments le_bytes : simpl never.

Section exec.
Context `{HK : !Kern mcall} `{HL : !Locals} `{HR : !ReplyKern}.
Context (base : Z) (m0 : mem) (w : world) `{HB : !BrkKern base} (Hw : world_ok base m0 w).

Abbreviation layout := (layout base m0 w).
Abbreviation safely := (xwpf False (fun _ _ => True)).
Abbreviation any := (fun _ => True).

(** ** Commands that execute programs *)

Section words.
Context (l : list ent) (lo lim av n : Z).
Abbreviation cmd := (cmd base m0 w l lo lim av n).
Abbreviation fine := (fine base m0 w l lo lim av n).
Abbreviation isarg := (isarg lo lim).

(** An environment at [envp]. *)
Definition environ_at (envp : ptr) (c : sh) : Prop := exists es, strv_at (ram c) envp es.

(** A word of the command by its number. *)
Lemma cmd_word c t i : cmd c t -> 0 <= i < n -> exists p, ld64 (ram c) (av + 8 * i) = Some p /\ isarg p.
Proof.
  intros HI Hi. destruct (cm_args _ _ _ _ _ _ _ _ _ _ HI) as (ps & Hb & Hn & Hps).
  destruct (lookup_lt_is_Some_2 ps (Z.to_nat i)) as [p Hp]; [lia|]. exists p.
  pose proof (Forall_lookup_1 _ _ _ _ Hps Hp) as Hr. simpl in Hr. split; [|done].
  pose proof (cmd_bounds base m0 w l lo lim av n c t HI). unfold LIM in *.
  rewrite (ld64_spec _ _ p); [f_equal; apply u64_small; lia|].
  replace i with (Z.of_nat (Z.to_nat i)) by lia. apply (bytes_at_bind8 _ _ (ps ++ [0])); [done|].
  rewrite lookup_app_l by (by eapply lookup_lt_Some). done.
Qed.

Lemma cmd_still c t t' : cmd c t -> brk_now t' = brk_now t -> cmd c t'.
Proof. intros [[? ? Hb ? ?] ? ? ? ? ? ?] Ht. split; [split; [done|done|congruence|done|done]|done..]. Qed.

Lemma child_fine envp i : 0 <= i < n -> fine (environ_at envp) (child (av + 8 * i) envp) any.
Proof.
  intros Hi. unfold child. fine_step. eapply fine_bind with (P := any); [fine_steps|intros _ _].
  intros c t HI [es Hes]. destruct (cmd_word c t i HI Hi) as (p & Hp & Harg).
  xwp_step. eapply xwp_rd; [exact Hp|]. xwp_step. destruct (cmd_str _ _ _ _ _ _ _ _ c t p HI Harg) as (s & Hs & _).
  destruct (cmd_strv base m0 w l lo lim av n c t i HI ltac:(lia)) as [ss Hss].
  pose proof (cmd_pos _ _ _ _ _ _ _ _ c t p HI Harg).
  eapply execvpe_wp; [done|exact Hs|exact Hss|exact Hes|]. intros r t' Ht. cbv zeta.
  apply (cmd_still c t t') in Ht; [|done]. apply xwp_if; intros _.
  - apply (fine_error base m0 w l lo lim av n (environ_at envp)); [by right|done|by exists es].
  - xwp_step. split; [done|]. split; [by exists es|done].
Qed.

Lemma sigfd_fine (R : sh -> Prop) v : (forall c, R c -> R (c <| sigfd := v |>)) -> fine R (xmodify (fun c => c <| sigfd := v |>)) any.
Proof. intros HRs. apply fine_modify; [done|]. intros c. exists (errfd c), v, (argp c). split; [by destruct c|done]. Qed.

Lemma prep_signalfd_fine envp : fine (environ_at envp) prep_signalfd any.
Proof.
  unfold prep_signalfd. fine_step. fine_step. fine_step. eapply fine_bind; [by apply sigfd_fine|].
  intros _ _. fine_steps.
Qed.

Lemma close_signalfd_fine (fd : Z) : fine any (close_signalfd fd) any.
Proof.
  unfold close_signalfd. fine_step. fine_step. eapply fine_bind with (P := any); [fine_steps|intros _ _].
  by apply sigfd_fine.
Qed.

Lemma wait_child_fine fuel fd pid : fine any (wait_child fuel fd pid) any.
Proof.
  induction fuel as [|fuel IH]; cbn [wait_child]; [fine_steps|].
  eapply fine_bind; [apply (fine_call base m0 w l lo lim av n any _ (fun r => zlen (out r) <= 128)); [done|intros ?; by apply rk_read]|].
  intros r Hr. cbv beta in Hr. fine_step; [fine_steps|]. destruct (filled_length 128 r ltac:(lia)) as (b & Hb & Hbl).
  eapply fine_bind with (P := fun b => zlen b = 128); [apply fine_pure; by exists b|]. intros si Hsi.
  eapply fine_bind with (P := any); [apply fine_pure; destruct (get32_total si 0) as [v Hv]; [lia|lia|by exists v]|]. intros sig _.
  fine_step; [eapply fine_bind; [by apply (fine_call base m0 w l lo lim av n any _ any)|intros _ _; apply IH]|].
  eapply fine_bind; [apply (fine_call base m0 w l lo lim av n any _ (fun r => zlen (out r) <= 4)); [done|intros ?; apply rk_wait]|].
  intros r' Hr'. cbv beta in Hr'. cbv zeta. destruct (0 <? s32 (ret r')).
  - destruct (filled_length 4 r' ltac:(lia)) as (b' & Hb' & Hbl').
    eapply fine_bind with (P := fun b => zlen b = 4); [apply fine_pure; by exists b'|]. intros st Hst.
    eapply fine_bind with (P := any); [apply fine_pure; destruct (get32_total st 0) as [v Hv]; [lia|lia|by exists v]|]. intros sg _.
    fine_steps.
  - fine_step; [apply IH|fine_steps].
Qed.

(** What [run] and [exec] start with. *)
Lemma prepared_wp (K : ptr -> ptr -> M unit) c t :
  cmd c t ->
  (forall envp i c' t', cmd c' t' -> 0 <= i < n -> environ_at envp c' ->
     safely (K (av + 8 * i) envp) c' t' (fun _ c' t' => cmd c' t' /\ True /\ True)) ->
  safely (need_some_arguments;; av ← argsleft; envp ← prepenvp; K av envp) c t
    (fun _ c' t' => cmd c' t' /\ True /\ True).
Proof.
  intros HI HK0. unfold need_some_arguments. do 5 xwp_step.
  destruct (cm_argc _ _ _ _ _ _ _ _ _ _ HI) as (Hn & Hav & Hap). apply xwp_if; intros Hle; zbool.
  { eapply xwp_mono; [apply (fine_fatal base m0 w l lo lim av n any _ 0 (fun _ => False)); [by left|done|done]|]. by intros x c' t' (? & ? & ?). }
  xwp_step. unfold argsleft. do 6 xwp_step. rewrite Hav. xwp_step. apply (prepenvp_cmd base m0 w Hw l lo lim av n); [done|].
  intros envp c1 t1 es HI1 _ Hes. apply HK0; [done|lia|by exists es].
Qed.

Lemma cmd_run_fine fuel : fine any (cmd_run fuel) any.
Proof.
  intros c t HI _. unfold cmd_run. apply (prepared_wp (fun av envp => _)); [done|].
  intros envp i c1 t1 HI1 Hi He. xwp_step. eapply xwp_mono; [by apply (prep_signalfd_fine envp)|].
  intros fd c2 t2 (HI2 & He2 & _). xwp_step. eapply xwp_mono; [by apply (fine_do base m0 w l lo lim av n (environ_at envp))|].
  intros pid c3 t3 (HI3 & He3 & _). xwp_step.
  eapply xwp_mono; [by apply (fine_check base m0 w l lo lim av n (environ_at envp)); [left| |]|].
  intros _ c4 t4 (HI4 & He4 & _). destruct (pid =? 0).
  - xwp_step. eapply xwp_mono; [by apply (child_fine envp i)|]. intros code c5 t5 _. by xwp_steps.
  - eapply (fine_bind base m0 w l lo lim av n any); [apply wait_child_fine| |done|done]. intros status _.
    eapply fine_bind; [apply close_signalfd_fine|]. intros _ _. unfold describe. fine_steps.
Qed.

Lemma cmd_exec_fine : fine any cmd_exec any.
Proof.
  intros c t HI _. unfold cmd_exec. apply (prepared_wp (fun av envp => _)); [done|].
  intros envp i c1 t1 HI1 Hi [es Hes]. destruct (cmd_word c1 t1 i HI1 Hi) as (p & Hp & Harg).
  destruct (cmd_str _ _ _ _ _ _ _ _ c1 t1 p HI1 Harg) as (s & Hs & _).
  destruct (cmd_strv base m0 w l lo lim av n c1 t1 i HI1 ltac:(lia)) as [ss Hss].
  xwp_step. eapply xwp_rd; [exact Hp|]. xwp_step. eapply xwp_rd; [by apply cstr_spec|]. xwp_step.
  eapply sys_execve_wp; [exact Hss|exact Hes|]. intros r t' Ht.
  apply (fine_error base m0 w l lo lim av n any); [by right| |done]. by eapply cmd_still.
Qed.
End words.

(** ** Any command *)

(** What is left of the state when a command is done. *)
Definition settled (c : sh) (t : trace mcall) : Prop := exists l, layout c t /\ vars w l c.

Definition safe_cmd (m : M unit) : Prop :=
  forall l w0 args av c t, at_arg base m0 w l (w0 :: args) av 1 c t -> safely m c t (fun _ c' t' => settled c' t').

(** The words of a command are such a region. *)
Lemma at_arg_cmd l ss av i c t :
  at_arg base m0 w l ss av i c t -> ss <> [] ->
  cmd base m0 w l (asep c) (asep c + zlen (flat ss)) av (zlen ss) c t.
Proof.
  intros [[Hl Hv Hs Hb Ha Hlo Hhi] Hn Hav [Hp Hp0]] Hne. pose proof (ly_order _ _ _ _ _ Hl) as (? & ? & ?).
  assert (0 < zlen (flat ss)) as Hpos by (destruct ss as [|s ss]; [done|]; rewrite flat_cons, length_app; simpl; lia).
  assert (forall b, b ∈ flat ss -> 0 <= b < 256) as Hbytes.
  { intros b Hin. unfold flat in Hin. apply list_elem_of_bind in Hin as (s & Hin & Hs').
    rewrite Forall_forall in Hs. specialize (Hs s Hs'). apply elem_of_app in Hin as [Hin|Hin%list_elem_of_singleton]; [|lia].
    rewrite Forall_forall in Hs. specialize (Hs b Hin). lia. }
  rewrite bytes_at_zget in Hb. split; [done|done| | | | |].
  - split; [done|]. split; [done|lia].
  - lia.
  - exists (starts (asep c) ss). split; [done|]. split; [by rewrite length_starts|].
    apply Forall_forall. intros p Hin. apply list_elem_of_lookup in Hin as [j Hi].
    pose proof (lookup_lt_Some _ _ _ Hi) as Hlt. rewrite length_starts in Hlt.
    destruct (lookup_lt_is_Some_2 ss j Hlt) as [s Hsi]. rewrite (starts_lookup _ _ _ _ Hsi) in Hi. injection Hi as <-.
    rewrite <- (take_drop_middle _ _ _ Hsi) at 3. rewrite flat_app, flat_cons, !length_app. simpl. lia.
  - intros a Ha'. destruct (zget_lt_is_Some (flat ss) (a - asep c)) as [b Hgb]; [lia|]. exists b.
    split; [rewrite <- (Hb _ _ Hgb); f_equal; lia|]. apply Hbytes. unfold zget in Hgb. case_decide; [|done].
    by eapply list_elem_of_lookup_2.
  - destruct ss as [|s ss' _] using rev_ind; [done|]. rewrite flat_snoc in *.
    rewrite app_assoc in *. rewrite length_app in *. simpl length in *.
    replace (asep c + Z.of_nat (length (flat ss' ++ s) + 1) - 1) with (asep c + zlen (flat ss' ++ s)) by lia.
    apply Hb. rewrite zget_app_r by lia. by rewrite Z.sub_diag.
Qed.

Lemma safe_of_fine m :
  (forall l lo lim av n, fine base m0 w l lo lim av n any m any) -> safe_cmd m.
Proof.
  intros Hm l w0 args av c t Ha. eapply xwp_mono; [by apply Hm; [eapply at_arg_cmd; [exact Ha|]|]|].
  intros x c' t' (HI & _). exists l. split; [by eapply cm_layout|by eapply cm_vars].
Qed.

Lemma safe_of_impl m a : implements base m0 w (F := False) (E := fun _ _ => True) m a -> safe_cmd m.
Proof.
  intros Hm l w0 args av c t Ha. eapply Hm; [done|by intros c' t' ??? f r1 r2|by intros e x _ c' t' ??? f r1 r2|].
  intros v c' t' _ Hl Hv _ _ _. by exists (vs_list v).
Qed.

(** [write] has two words that are not the same. *)
Lemma cmd_write_safe : safe_cmd cmd_write.
Proof.
  intros l w0 args av c t Ha. unfold cmd_write.
  eapply (args2_wp base m0 w l w0 args av c t (fun _ _ => inr ([], None)) (fun data name => _)); [done|by intros e x _ c' t' ??? f r1 r2|].
  intros p q s r c1 -> Ha1 _ Hp Hplo Hphi Hq Hqlo Hqhi ->.
  pose proof (at_arg_cmd l _ av 3 c1 t Ha1 ltac:(done)) as HI. set (lim := asep c1 + zlen (flat [w0; s; r])) in *.
  pose proof (cmd_bounds base m0 w _ _ _ _ _ _ _ HI) as Hbd. unfold LIM in Hbd.
  set (R := fun c => ram c = ram c1).
  xwp_step. eapply xwp_rd; [by apply cstr_spec|]. xwp_step.
  eapply xwp_mono; [by apply (fine_do base m0 w l (asep c1) lim av (zlen [w0; s; r]) R)|].
  intros fd c2 t2 (HI2 & HR2 & _). xwp_step.
  eapply xwp_mono; [apply (fine_check base m0 w l (asep c1) lim av (zlen [w0; s; r]) R); [right; unfold isarg; lia|done|done]|].
  intros _ c3 t3 (HI3 & HR3 & _). unfold R in *. rewrite <- HR3 in Hp, Hq.
  pose proof (cm_layout _ _ _ _ _ _ _ _ _ _ HI3) as Hl3. pose proof (cmd_bounds base m0 w _ _ _ _ _ _ _ HI3).
  pose proof (ly_order _ _ _ _ _ Hl3).
  xwp_step. eapply xwp_rd; [by apply strlen_spec|]. cbv zeta. rewrite s32_small by lia.
  eapply (fine_newline base m0 w l (asep c1) lim av); [exact HI3|unfold isarg; lia|done|]. intros c4 Hc4. xwp_step.
  unfold do. do 3 xwp_step. set (t4 := t3 ++ _).
  assert (layout c4 t4) as Hl4.
  { assert (layout c4 t3) as Hl4.
    { rewrite Hc4. apply (layout_poke base m0 w c3 t3 (p + zlen s) [10]); [done|lia|simpl; lia]. }
    destruct Hl4. split; [done|done| |done|done]. by unfold t4; rewrite brk_now_snoc. }
  set (x := s32 _). xwp_step. apply xwp_if; intros Hx.
  { eapply error_wp; [by eapply layout_readable| |by intros f r1 r2]. apply (ostr_str _ _ r); [lia|].
    rewrite Hc4. eapply cstr_at_agree; [|exact Hq]. apply agree_insert. lia. }
  apply xwp_if; intros Hx'.
  { eapply fatal_wp; [by eapply layout_readable|apply ostr_null|by intros f r1 r2]. }
  xwp_step. eapply xwp_wr.
  { apply st8_mapped. rewrite Hc4. simpl. by rewrite lookup_insert_eq. }
  rewrite (u8_byte 0) by lia. assert (c4 <| ram := <[p + zlen s := 0]> (ram c4) |> = c3) as ->.
  { rewrite Hc4. simpl. rewrite restore_zero; [by destruct c3|]. pose proof Hp as [Hb _].
    apply bytes_at_app in Hb as [_ Hb]. by apply bytes_at_cons in Hb as [Hb _]. }
  exists l. split; [|by eapply cm_vars]. destruct Hl3. split; [done|done| |done|done]. unfold t4. by rewrite brk_now_snoc.
Qed.

(** [invoke] adds the arguments of the script to its own. *)
Lemma ptrs_total m pp k :
  (forall i, 0 <= i < Z.of_nat k -> exists p s, ld64 m (pp + 8 * i) = Some p /\ cstr_at m p s) ->
  exists ps ss, ptrs m pp k = Some ps /\ mapM (cstr m) ps = Some ss /\ length ps = k.
Proof.
  revert pp. induction k as [|k IH]; intros pp Hk; cbn [ptrs]; [by exists [], []|].
  destruct (Hk 0) as (p & s & Hp & Hs); [lia|]. rewrite Z.mul_0_r, Z.add_0_r in Hp. rewrite Hp. cbn [mbind option_bind].
  destruct (IH (pp + 8)) as (ps & ss & Hps & Hss & Hlen).
  { intros i Hi. destruct (Hk (i + 1)) as (q & u & Hq & Hu); [lia|]. exists q, u. split; [|done]. rewrite <- Hq. f_equal. lia. }
  rewrite Hps. cbn [mbind option_bind]. exists (p :: ps), (s :: ss). split; [done|]. split; [|simpl; lia].
  cbn [mapM]. rewrite (cstr_spec _ _ _ Hs). cbn [mbind option_bind]. by rewrite Hss.
Qed.

Lemma mapM_app {A B} (f : A -> option B) l k x y : mapM f l = Some x -> mapM f k = Some y -> mapM f (l ++ k) = Some (x ++ y).
Proof. rewrite !mapM_Some. apply Forall2_app. Qed.

Lemma cmd_invoke_safe : safe_cmd cmd_invoke.
Proof.
  intros l w0 args av c t Ha. unfold cmd_invoke. pose proof Ha as [_ Hn Hav [Hap _]].
  set (ss := w0 :: args) in *. pose proof (at_arg_cmd l ss av 1 c t Ha ltac:(done)) as HI.
  set (lim := asep c + zlen (flat ss)) in *. do 4 xwp_step. cbv zeta. do 4 xwp_step. cbv zeta. rewrite Hn, Hap.
  apply xwp_if; intros Hz; zbool.
  { apply error_l_wp; [by eapply layout_readable, cm_layout|by intros f r1 r2]. }
  xwp_step. apply (prepenvp_cmd base m0 w Hw l (asep c) lim av (zlen ss)); [done|].
  intros envp c1 t1 es HI1 Hap1 Hes. pose proof (cm_layout _ _ _ _ _ _ _ _ _ _ HI1) as Hl1.
  destruct (cm_argc _ _ _ _ _ _ _ _ _ _ HI1) as (_ & Hav1 & _). do 4 xwp_step. rewrite Hav1.
  destruct (ptrs_total (ram c1) (av + 8 * 1) (Z.to_nat (zlen ss - 1))) as (ps & us & Hps & Hus & Hpl).
  { intros i Hi. destruct (cmd_word l (asep c) lim av (zlen ss) c1 t1 (i + 1) HI1) as (p & Hp & Harg); [lia|].
    destruct (cmd_str _ _ _ _ _ _ _ _ c1 t1 p HI1 Harg) as (u & Hu & _). exists p, u. split; [|done].
    rewrite <- Hp. f_equal. lia. }
  destruct (ptrs_total (ram c1) (topargv c1 + 8 * topargp c) (Z.to_nat (topargc c - topargp c))) as (qs & vs & Hqs & Hvs & Hql).
  { pose proof (ly_rooted _ _ _ _ _ Hl1) as Hrt. pose proof (ly_rooted _ _ _ _ _ (cm_layout _ _ _ _ _ _ _ _ _ _ HI)) as Hrt0.
    intros i Hi. pose proof (rt_argc _ _ _ _ Hrt0). pose proof (rt_argp _ _ _ _ Hrt0).
    destruct (arg_lookup base m0 w Hw c1 t1 (topargp c + i) Hl1) as (p & u & _ & Ho & Hld); [lia|].
    exists p, u. split; [rewrite <- Hld; f_equal; lia|by eapply ostring_at]. }
  xwp_step. eapply xwp_rd; [exact Hps|]. xwp_step. eapply xwp_rd; [exact Hqs|].
  assert (exists p s rest us', ps ++ qs = p :: rest /\ mapM (cstr (ram c1)) (ps ++ qs) = Some us' /\ cstr (ram c1) p = Some s) as (p & s & rest & us' & Hpq & Hus' & Hs).
  { pose proof (mapM_app _ _ _ _ _ Hus Hvs) as Hboth. destruct ps as [|p ps]; [simpl in Hpl; unfold ss in *; simpl in *; lia|].
    cbn [mapM] in Hus. destruct (cstr (ram c1) p) as [s|] eqn:Hs; [|done]. exists p, s, (ps ++ qs), (us ++ vs). done. }
  xwp_step. apply xwp_pure; [|by rewrite Hpq]. rewrite Hpq in *. intros ? [= <-].
  xwp_step. eapply xwp_rd; [exact Hs|]. xwp_step. eapply xwp_rd; [exact Hus'|].
  xwp_step. eapply xwp_rd; [by apply strs_spec|]. do 2 xwp_step.
  eapply (error_wp _ _ (if p =? 0 then None else Some s)); [by eapply layout_readable| |by intros f r1 r2].
  unfold ostr. destruct (p =? 0); [done|]. by rewrite Hs.
Qed.

(** ** The table *)

(** Commands that leave their tables or buffers, see [Mshlimits]. *)
Definition excluded : list (list Z) := [text "setcaps"; text "setcpus"; text "waitfor"].

Definition allowed (x : list Z * M unit) : bool := negb (existsb (fun y => bool_decide (x.1 = y)) excluded).
Definition safe_commands (fuel : nat) : Builtins := List.filter allowed (commands fuel).

Lemma entry_ok (name : list Z) (m : M unit) tbl :
  safe_cmd m -> Forall (fun x => x.1 ∈ excluded \/ safe_cmd x.2) tbl ->
  Forall (fun x => x.1 ∈ excluded \/ safe_cmd x.2) ((name, m) :: tbl).
Proof. intros Hm Ht. constructor; [by right|done]. Qed.

Lemma entry_out (name : list Z) (m : M unit) tbl :
  name ∈ excluded -> Forall (fun x => x.1 ∈ excluded \/ safe_cmd x.2) tbl ->
  Forall (fun x => x.1 ∈ excluded \/ safe_cmd x.2) ((name, m) :: tbl).
Proof. intros Hm Ht. constructor; [by left|done]. Qed.

Lemma commands_safe fuel : Forall (fun x => x.1 ∈ excluded \/ safe_cmd x.2) (commands fuel).
Proof.
  unfold commands.
  apply entry_ok; [exact (safe_of_fine _ (cmd_cd_fine base m0 w))|].
  apply entry_ok; [exact (safe_of_fine _ (cmd_chroot_fine base m0 w))|].
  apply entry_ok; [exact (safe_of_impl _ _ (cmd_clearenv_wp base m0 w))|].
  apply entry_ok; [exact (safe_of_fine _ (cmd_close_fine base m0 w))|].
  apply entry_ok; [exact (safe_of_impl _ _ (cmd_delenv_wp base m0 w Hw))|].
  apply entry_ok; [exact (safe_of_fine _ (cmd_die_fine base m0 w))|].
  apply entry_ok; [exact (safe_of_fine _ (cmd_echo_fine base m0 w))|].
  apply entry_ok; [exact (safe_of_fine _ cmd_exec_fine)|].
  apply entry_ok; [exact (safe_of_fine _ (cmd_exit_fine base m0 w))|].
  apply entry_ok; [exact (safe_of_impl _ _ (cmd_getenv_wp base m0 w Hw))|].
  apply entry_ok; [exact (safe_of_fine _ (cmd_groups_fine base m0 w))|]. apply entry_ok; [exact cmd_invoke_safe|].
  apply entry_ok; [exact (safe_of_fine _ (cmd_mkdir_fine base m0 w))|].
  apply entry_ok; [exact (safe_of_fine _ (cmd_mount_fine base m0 w))|].
  apply entry_ok; [exact (safe_of_fine _ (cmd_prctl_fine base m0 w))|].
  apply entry_ok; [exact (safe_of_fine _ (cmd_reopen_fine base m0 w))|].
  apply entry_ok; [exact (safe_of_fine _ (cmd_rlimit_fine base m0 w))|].
  apply entry_ok; [exact (safe_of_fine _ (fun l lo lim av n => cmd_run_fine l lo lim av n fuel))|].
  apply entry_ok; [exact (safe_of_fine _ (cmd_scheduler_fine base m0 w))|].
  apply entry_ok; [exact (safe_of_impl _ _ (cmd_set_wp base m0 w Hw))|].
  do 2 (apply entry_out; [unfold excluded; rewrite !elem_of_cons; tauto|]).
  apply entry_ok; [exact (safe_of_impl _ _ (cmd_setenv_wp base m0 w Hw))|].
  apply entry_ok; [exact (safe_of_fine _ (cmd_setgid_fine base m0 w))|].
  apply entry_ok; [exact (safe_of_fine _ (cmd_setprio_fine base m0 w))|].
  apply entry_ok; [exact (safe_of_fine _ (cmd_setuid_fine base m0 w))|].
  apply entry_ok; [exact (safe_of_fine _ (cmd_sleep_fine base m0 w))|].
  apply entry_ok; [exact (safe_of_fine _ (cmd_stderr_fine base m0 w))|].
  apply entry_ok; [exact (safe_of_fine _ (cmd_stdin_fine base m0 w))|].
  apply entry_ok; [exact (safe_of_fine _ (cmd_stdout_fine base m0 w))|].
  apply entry_ok; [exact (safe_of_fine _ (cmd_stdtwo_fine base m0 w))|].
  apply entry_ok; [exact (safe_of_fine _ (cmd_umask_fine base m0 w))|].
  apply entry_ok; [exact (safe_of_fine _ (cmd_unlink_fine base m0 w))|].
  apply entry_out; [unfold excluded; rewrite !elem_of_cons; tauto|].
  apply entry_ok; [exact (safe_of_fine _ (cmd_warn_fine base m0 w))|]. apply entry_ok; [exact cmd_write_safe|].
  constructor.
Qed.

Lemma allowed_safe (T : list (list Z * M unit)) :
  Forall (fun x => x.1 ∈ excluded \/ safe_cmd x.2) T -> Forall (fun x => safe_cmd x.2) (List.filter allowed T).
Proof.
  induction 1 as [|x T Hx HT IH]; [constructor|]. simpl. unfold allowed at 1.
  destruct (existsb (fun y => bool_decide (x.1 = y)) excluded) eqn:He; [done|]. constructor; [|done].
  destruct Hx as [Hx|]; [|done]. exfalso. apply not_true_iff_false in He. apply He, existsb_exists. exists (x.1).
  split; [by apply list_elem_of_In|]. by apply bool_decide_eq_true.
Qed.

Lemma safe_commands_safe fuel : Forall (fun x => safe_cmd x.2) (safe_commands fuel).
Proof. exact (allowed_safe (commands fuel) (commands_safe fuel)). Qed.

(** ** A command, once its words are put together *)

Section table.
Context `{HT : !Builtins} (Htable : Forall (fun x => safe_cmd x.2) builtins).

Lemma builtin_loop_total (P : M unit -> Prop) tbl name :
  is_str name -> Forall (fun x => P x.2) tbl ->
  exists r, builtin_loop tbl name = Some r /\ match r with Some f => P f | None => True end.
Proof.
  intros Hn. induction 1 as [|[cc f] tbl Hf _ IH]; cbn [builtin_loop]; [by exists None|]. simpl in Hf.
  destruct (strncmp_l_total (padded 12 cc) name 12) as [d ->]; [|lia|done|].
  { unfold padded. rewrite length_take, length_app, repeat_length. lia. }
  cbn [mbind option_bind]. destruct (d =? 0); [by exists (Some f)|done].
Qed.

Lemma settled_modify (f : sh -> sh) c t :
  (forall c, exists a b d, f c = c <| argc := a |> <| argv := b |> <| argp := d |>) -> settled c t -> settled (f c) t.
Proof.
  intros Hf (l & Hl & Hv). exists l. destruct (Hf c) as (a & b & d & ->). destruct Hl as [[] ? ? ? ?]. split; [by split; [split|..]|done].
Qed.

Lemma command_safe l ss av c t :
  ss <> [] -> ready base m0 w l ss av c t -> safely (command (zlen ss) av) c t (fun _ c' t' => settled c' t').
Proof.
  intros Hne Hr. destruct ss as [|w0 args]; [done|]. unfold command. rewrite (proj2 (Z.leb_gt _ _)) by (simpl; lia).
  do 2 xwp_step. set (c1 := c <| argc := _ |> <| argp := 1 |> <| argv := av |>).
  assert (at_arg base m0 w l (w0 :: args) av 1 c1 t) as Ha.
  { split; [|done|done|done]. destruct Hr as [[[] ? ? ? ?] ? ? ? ? ? ?]. by split; [split; [split|..]|..]. }
  destruct (ready_word base m0 w l _ av c1 t 0 w0 (aa_ready _ _ _ _ _ _ _ _ _ Ha) eq_refl) as (p & Hp & Hc & _ & Hlo & _).
  rewrite Z.mul_0_r, Z.add_0_r in Hp. xwp_step. eapply xwp_rd; [exact Hp|]. unfold builtin. do 2 xwp_step.
  eapply xwp_rd; [by apply cstr_spec|].
  destruct (builtin_loop_total safe_cmd builtins w0) as (r & Hbl & Hr'); [by destruct Hc|done|].
  apply xwp_pure; [|by rewrite Hbl]. rewrite Hbl. intros ? [= <-]. destruct r as [f|].
  - xwp_step. eapply xwp_mono; [by apply (Hr' l w0 args av c1 t)|]. intros [] c2 t2 Hs. xwp_step.
    apply (settled_modify (fun c => c <| argc := 0 |> <| argv := 0 |>)); [|done]. intros c'. exists 0, 0, (argp c'). by destruct c'.
  - pose proof (ly_order _ _ _ _ _ (rd_layout _ _ _ _ _ _ _ _ (aa_ready _ _ _ _ _ _ _ _ _ Ha))). destruct (brk_window (base := base)).
    eapply fatal_wp; [by eapply layout_readable, rd_layout, aa_ready|apply ostr_str; [lia|exact Hc]|by intros g r1 r2].
Qed.

(** ** The parser *)

Abbreviation held := (held base m0 w).

(** Words, the text of the last one, and in it the name of a variable. *)
Definition pinv (st : Z) (c : sh) (t : trace mcall) : Prop :=
  exists l ss tail, held l (flat ss ++ tail) c t /\ Forall (fun s => is_str s) ss /\ is_str tail /\
    (st = VCONT \/ st = DQVCN -> exists pre nm, tail = pre ++ nm /\ nm <> [] /\ var c = asep c + zlen (flat ss ++ pre)).

(** A state without the name of a variable. *)
Definition plain (st : Z) : bool := negb (st =? VCONT) && negb (st =? DQVCN).

Lemma settled_pinv c t st : settled c t -> plain st = true -> pinv st (c <| hptr := asep c |>) t.
Proof.
  intros (l & Hl & Hv) Hst. exists l, [], []. pose proof (ly_order _ _ _ _ _ Hl) as (? & ? & ?).
  split; [|split; [constructor|split; [constructor|]]].
  - split; [|done|].
    + destruct Hl as [[] ? ? ? ?]. split; [by split|simpl; lia|done|done|done].
    + split; [done|simpl; lia].
  - intros [->| ->]; done.
Qed.

Lemma execute_safe st st' c t : pinv st c t -> plain st' = true -> safely execute c t (fun _ c' t' => pinv st' c' t').
Proof.
  intros (l & ss & tail & Hd & Hss & Htail & _) Hst. eapply execute_wp; [done|done|done|by apply is_str_no_nul|by intros c' t' ??? f r1 r2| |].
  - intros ->. exists l, [], tail. split; [done|]. split; [done|]. split; [done|]. intros [->| ->]; done.
  - intros av c1 t1 Hne Hr _ _. eapply xwp_mono; [by apply (command_safe l)|]. intros [] c2 t2 Hs. by apply settled_pinv.
Qed.

Lemma pinv_plain st st' c t : pinv st c t -> plain st' = true -> pinv st' c t.
Proof.
  intros (l & ss & tail & Hd & Hss & Htail & _) Hst. exists l, ss, tail. split; [done|]. split; [done|]. split; [done|].
  intros [->| ->]; done.
Qed.

Lemma pinv_fatal {A} st c t err (Q : A -> sh -> trace mcall -> Prop) : pinv st c t -> safely (fatal err 0) c t Q.
Proof.
  intros (l & ss & tail & Hd & _). eapply fatal_wp; [by eapply layout_readable, hd_layout|done|by intros f r1 r2].
Qed.

Lemma push_safe st st' c t ch (Q : unit -> sh -> trace mcall -> Prop) :
  pinv st c t -> 0 < ch < 256 -> (plain st' = true \/ st' = st) -> (forall c' t', pinv st' c' t' -> Q tt c' t') ->
  safely (push_char ch) c t Q.
Proof.
  intros (l & ss & tail & Hd & Hss & Htail & Hvar) Hch Hst HQ.
  eapply push_char_wp; [done|exact Hd|lia|by intros c' t' ??? f r1 r2|]. intros c' t' Hd' Hsm _. apply HQ.
  exists l, ss, (tail ++ [ch]). rewrite <- app_assoc in Hd'. split; [done|]. split; [done|].
  split; [apply Forall_app; split; [done|constructor; [lia|constructor]]|]. intros Hv.
  destruct Hst as [Hst| ->]; [by destruct Hv as [->| ->]|].
  destruct (Hvar Hv) as (pre & nm & -> & Hne & Hp). exists pre, (nm ++ [ch]). split; [by rewrite app_assoc|].
  split; [by destruct nm|]. rewrite Hsm. simpl. done.
Qed.

Lemma esc_range ch : 0 < ch < 256 -> 0 < esc ch < 256.
Proof. intros H. unfold esc. repeat case_match; lia. Qed.

Lemma push_esc_safe st st' c t ch (Q : unit -> sh -> trace mcall -> Prop) :
  pinv st c t -> 0 < ch < 256 -> plain st' = true -> (forall c' t', pinv st' c' t' -> Q tt c' t') ->
  safely (push_esc ch) c t Q.
Proof. intros HI Hch Hst HQ. apply (push_safe st st' c t (esc ch)); [done|by apply esc_range|by left|done]. Qed.

Lemma push_end_safe st st' c t (Q : unit -> sh -> trace mcall -> Prop) :
  pinv st c t -> plain st' = true -> (forall c' t', pinv st' c' t' -> Q tt c' t') -> safely push_end c t Q.
Proof.
  intros (l & ss & tail & Hd & Hss & Htail & _) Hst HQ. unfold push_end.
  eapply push_char_wp; [done|exact Hd|lia|by intros c' t' ??? f r1 r2|]. intros c' t' Hd' _ _. apply HQ.
  exists l, (ss ++ [tail]), []. rewrite flat_snoc, app_nil_r, <- app_assoc in *. split; [done|].
  split; [apply Forall_app; split; [done|by constructor]|]. split; [constructor|]. intros [->| ->]; done.
Qed.

Lemma push_var_safe st st' c t ch (Q : unit -> sh -> trace mcall -> Prop) :
  pinv st c t -> 0 < ch < 256 -> (forall c' t', pinv st' c' t' -> Q tt c' t') -> safely (push_var ch) c t Q.
Proof.
  intros (l & ss & tail & Hd & Hss & Htail & _) Hch HQ. unfold push_var. do 2 xwp_step.
  assert (held l (flat ss ++ tail) (c <| var := hptr c |>) t) as Hd1.
  { destruct Hd as [[[] ? ? ? ?] ? ?]. by split; [split; [split|..]|..]. }
  eapply push_char_wp; [done|exact Hd1|lia|by intros c' t' ??? f r1 r2|]. intros c' t' Hd' Hsm _. apply HQ.
  exists l, ss, (tail ++ [ch]). rewrite <- app_assoc in Hd'. split; [done|]. split; [done|].
  split; [apply Forall_app; split; [done|constructor; [lia|constructor]]|]. intros _. exists tail, [ch].
  split; [done|]. split; [done|]. rewrite Hsm. simpl. by apply hd_area in Hd as [_ ?].
Qed.

Lemma pinv_added l ss tail s st c t :
  held l ((flat ss ++ tail) ++ s) c t -> Forall (fun s => is_str s) ss -> is_str tail -> is_str s -> plain st = true -> pinv st c t.
Proof.
  intros Hd Hss Htail Hs Hst. rewrite <- app_assoc in Hd. exists l, ss, (tail ++ s). split; [done|]. split; [done|].
  split; [by apply Forall_app|]. intros [->| ->]; done.
Qed.

Lemma subst_var_safe st st' c t (Q : unit -> sh -> trace mcall -> Prop) :
  pinv st c t -> st = VCONT \/ st = DQVCN -> plain st' = true -> (forall c' t', pinv st' c' t' -> Q tt c' t') ->
  safely subst_var c t Q.
Proof.
  intros (l & ss & tail & Hd & Hss & Htail & Hvar) Hst Hpl HQ. destruct (Hvar Hst) as (pre & nm & -> & Hne & Hp).
  apply Forall_app in Htail as [Hpre Hnm].
  apply (subst_var_wp base m0 w Hw l (flat ss ++ pre) nm); [by rewrite <- app_assoc|done|done|done|by intros c' t' ??? f r1 r2| |].
  { by intros _ c' t' ??? f r1 r2. }
  intros s c' t' _ Hs Hd' _ _. apply HQ. by eapply pinv_added.
Qed.

Lemma dec_str n : 0 <= n -> is_str (dec n).
Proof.
  intros Hn. unfold dec. apply Forall_fmap. eapply Forall_impl; [apply digits_range; lia|].
  intros d Hd. unfold compose, dec_glyph. simpl in *. lia.
Qed.

Lemma dec_signed_str n : is_str (dec_signed n).
Proof. unfold dec_signed. destruct (Z.ltb_spec n 0); [constructor; [lia|]|]; apply dec_str; lia. Qed.

Lemma subst_special_safe st st' c t ch (Q : unit -> sh -> trace mcall -> Prop) :
  pinv st c t -> plain st' = true -> (forall c' t', pinv st' c' t' -> Q tt c' t') -> safely (subst_special ch) c t Q.
Proof.
  intros (l & ss & tail & Hd & Hss & Htail & _) Hpl HQ. destruct (decide (48 <= ch <= 57)).
  - apply (param_wp base m0 w Hw l (flat ss ++ tail)); [done|by intros c' t' ??? f r1 r2|done|by intros _ c' t' ??? f r1 r2|].
    intros s c' t' _ Hs Hd' _ _. apply HQ. by eapply pinv_added.
  - apply (special_wp base m0 w l (flat ss ++ tail)); [done|by intros c' t' ??? f r1 r2|done|by intros r _ c' t' ??? f r1 r2|by intros _ c' t' ??? f r1 r2|].
    intros r c' t' _ Hd' _ _. apply HQ. eapply pinv_added; [done..| |done]. apply Forall_take, dec_signed_str.
Qed.

Lemma to_state {A} (m : M A) st' c t :
  safely m c t (fun _ c' t' => pinv st' c' t') -> safely (m;; mret st') c t pinv.
Proof. intros Hm. apply xwp_bind. eapply xwp_mono; [exact Hm|]. intros x c' t' HI. by apply xwp_ret. Qed.

Ltac in_state :=
  match goal with
  | H : pinv ?st ?c ?t |- pinv ?st ?c ?t => exact H
  | H : pinv ?st ?c ?t |- pinv ?st' ?c ?t => apply (pinv_plain st st' c t H); reflexivity
  end.

Ltac pushed := solve [eassumption | lia | reflexivity | by left | by right | by right; right | by intros].

(** One step of a handler, from a state in which [pinv] holds. *)
Ltac parse_step :=
  lazymatch goal with
  | |- xwpf _ _ (mret _) _ _ pinv => apply xwp_ret; in_state
  | |- xwpf _ _ (fatal _ 0) _ _ _ => eapply pinv_fatal; eassumption
  | |- xwpf _ _ (if ?b then _ else _) _ _ _ => destruct b eqn:?
  | |- xwpf _ _ (mbind (fun _ => mret ?st) _) _ _ pinv => apply to_state
  | |- xwpf _ _ (push_char _) _ _ (fun _ c t => pinv ?s c t) => eapply (push_safe _ s); pushed
  | |- xwpf _ _ (push_esc _) _ _ (fun _ c t => pinv ?s c t) => eapply (push_esc_safe _ s); pushed
  | |- xwpf _ _ push_end _ _ (fun _ c t => pinv ?s c t) => eapply (push_end_safe _ s); pushed
  | |- xwpf _ _ (push_var _) _ _ (fun _ c t => pinv ?s c t) => eapply (push_var_safe _ s); pushed
  | |- xwpf _ _ (subst_special _) _ _ (fun _ c t => pinv ?s c t) => eapply (subst_special_safe _ s); pushed
  | |- xwpf _ _ execute _ _ (fun _ c t => pinv ?s c t) => eapply (execute_safe _ s); pushed
  end.

Lemma end_execute_safe st st' c t : pinv st c t -> plain st = true -> plain st' = true ->
  safely (push_end;; (execute;; mret st')) c t pinv.
Proof.
  intros HI Hst Hst'. apply xwp_bind. apply (push_end_safe st st c t); [done|done|]. intros c' t' HI'.
  apply to_state. by apply (execute_safe st).
Qed.

Lemma parse_arg_safe c t ch st : pinv st c t -> plain st = true -> 0 < ch < 256 -> safely (parse_arg ch) c t pinv.
Proof.
  intros HI Hst Hch. unfold parse_arg. repeat first [by apply (end_execute_safe st) | parse_step].
Qed.

Lemma parse_dquot_safe c t ch st : pinv st c t -> 0 < ch < 256 -> safely (parse_dquot ch) c t pinv.
Proof. intros HI Hch. unfold parse_dquot. repeat parse_step. Qed.

Lemma subst_var_then st c t (k : M Z) :
  pinv st c t -> st = VCONT \/ st = DQVCN -> (forall c' t', pinv NIL c' t' -> safely k c' t' pinv) ->
  safely (subst_var;; k) c t pinv.
Proof. intros HI Hst Hk. apply xwp_bind. by apply (subst_var_safe st NIL c t). Qed.

Lemma handlers_safe c t ch : 0 < ch < 256 ->
  Forall2 (fun st h => pinv st c t -> safely (h ch) c t pinv)
    [NIL; SEP; ARG; NIBSL; SEBSL; ARBSL; VSIGN; VCONT; COMMT; DQUOT; DQBSL; DQVSG; DQVCN; SQUOT; SQBSL; TRAIL] table.
Proof.
  intros Hch. unfold table. repeat (constructor; [intros HI|]); [..|constructor].
  - unfold parse_nil. repeat parse_step.
  - unfold parse_sep. repeat parse_step.
  - by apply (parse_arg_safe _ _ _ ARG).
  - unfold parse_nibsl. repeat parse_step.
  - unfold parse_sebsl. repeat parse_step.
  - unfold parse_arbsl. repeat parse_step.
  - unfold parse_vsign. repeat parse_step.
  - unfold parse_vcont. destruct (isalnum ch); [repeat parse_step|].
    apply (subst_var_then VCONT); [done|by left|]. intros c' t' HI'. by apply (parse_arg_safe _ _ _ NIL).
  - unfold parse_commt. destruct (ch =? 10); repeat parse_step.
  - by apply (parse_dquot_safe _ _ _ DQUOT).
  - unfold parse_dqbsl. apply to_state. repeat parse_step. apply xwp_ret. in_state.
  - unfold parse_dqvsg. repeat parse_step.
  - unfold parse_dqvcn. destruct (isalnum ch); [repeat parse_step|].
    apply (subst_var_then DQVCN); [done|by right|]. intros c' t' HI'. by apply (parse_dquot_safe _ _ _ NIL).
  - unfold parse_squot. repeat parse_step.
  - unfold parse_sqbsl. apply to_state. repeat parse_step. apply xwp_ret. in_state.
  - unfold parse_trail. repeat parse_step.
Qed.

Lemma handler_safe st h c t ch : zget table st = Some h -> pinv st c t -> 0 < ch < 256 -> safely (h ch) c t pinv.
Proof.
  intros Hh HI Hch. pose proof (handlers_safe c t ch Hch) as HF. unfold zget in Hh. case_decide as Hr; [|done].
  destruct (Forall2_lookup_r _ _ _ _ _ HF Hh) as (st' & Hst & Hs). apply Hs.
  assert (st' = st) as ->; [|done]. pose proof (lookup_lt_Some _ _ _ Hst) as Hlt. simpl in Hlt.
  assert (forall k, (k < 16)%nat -> [NIL; SEP; ARG; NIBSL; SEBSL; ARBSL; VSIGN; VCONT; COMMT; DQUOT; DQBSL; DQVSG; DQVCN; SQUOT; SQBSL; TRAIL] !! k = Some (Z.of_nat k)) as Hk.
  { intros k Hk. do 16 (destruct k as [|k]; [done|]). lia. }
  rewrite Hk in Hst by lia. injection Hst as <-. lia.
Qed.


(** *** Whole scripts *)

Definition sinv (c : sh) (t : trace mcall) : Prop := pinv (state c) c t.

Lemma pinv_field st c t s n : pinv st c t -> pinv st (c <| state := s |> <| line := n |>) t.
Proof.
  intros (l & ss & tail & Hd & Hrest). exists l, ss, tail. split; [|exact Hrest].
  destruct Hd as [[[] ? ? ? ?] ? ?]. by split; [split; [split|..]|..].
Qed.

Lemma dispatch_safe c t ch (Q : unit -> sh -> trace mcall -> Prop) :
  sinv c t -> 0 < ch < 256 -> (forall c' t', sinv c' t' -> Q tt c' t') -> safely (dispatch ch) c t Q.
Proof.
  intros HI Hch HQ. unfold dispatch. do 2 xwp_step. destruct (zget table (state c)) as [h|] eqn:Hh.
  - xwp_step. eapply xwp_mono; [by eapply handler_safe|]. intros st' c' t' HI'. xwp_step. apply HQ. unfold sinv. simpl.
    apply (pinv_field _ _ _ st' (line c')) in HI'. by destruct c'.
  - by eapply pinv_fatal.
Qed.

Lemma parse_safe buf c t (Q : unit -> sh -> trace mcall -> Prop) :
  sinv c t -> is_bytes buf -> (forall c' t', sinv c' t' -> Q tt c' t') -> safely (parse buf) c t Q.
Proof.
  intros HI Hbuf. revert c t HI. induction Hbuf as [|ch buf Hch Hbuf IH]; intros c t HI HQ; cbn [parse].
  - xwp_step. by apply HQ.
  - apply xwp_if; intros Hz; zbool; [by eapply pinv_fatal|]. xwp_step. apply dispatch_safe; [done|lia|]. intros c1 t1 HI1.
    do 2 xwp_step; [|by apply IH]. xwp_step. apply IH; [|done].
    apply (pinv_field _ _ _ (state c1) (s32 (line c1 + 1))) in HI1. unfold sinv in *. by destruct c1.
Qed.

Lemma parse_finish_safe c t (Q : unit -> sh -> trace mcall -> Prop) :
  sinv c t -> (forall c' t', Q tt c' t') -> safely parse_finish c t Q.
Proof.
  intros HI HQ. unfold parse_finish. do 6 xwp_step. apply xwp_if; intros _; [xwp_step; apply HQ|].
  apply xwp_if; intros _; [xwp_step; apply HQ|]. xwp_step.
  assert (forall c' t', pinv NIL c' t' -> safely execute c' t' Q) as Hex.
  { intros c' t' HI'. eapply xwp_mono; [by apply (execute_safe NIL NIL)|]. intros [] c2 t2 _. apply HQ. }
  repeat (apply xwp_if; intros _).
  - xwp_step. apply Hex, (pinv_plain _ _ _ _ HI). done.
  - eapply (push_end_safe _ NIL); [exact HI|done|exact Hex].
  - xwp_step. apply Hex, (pinv_plain _ _ _ _ HI). done.
  - by eapply pinv_fatal.
Qed.

(** A message without the name of the script. *)
Lemma quit_safe {A} err p arg r c t (Q : A -> sh -> trace mcall -> Prop) :
  ostr (ram c) p = Some arg -> safely (quit err p r) c t Q.
Proof.
  intros Hp. unfold quit. do 3 xwp_step. eapply xwp_rd; [exact Hp|]. apply error_l_wp; [by exists None|by intros f r1 r2].
Qed.

Lemma read_loop_safe k fd c t (Q : unit -> sh -> trace mcall -> Prop) :
  sinv c t -> (forall c' t', sinv c' t' -> Q tt c' t') -> safely (read_loop k fd) c t Q.
Proof.
  intros HI HQ. revert c t HI. induction k as [|k IH]; intros c t HI; cbn [read_loop]; [by xwp_step|].
  do 2 xwp_step. cbv zeta. destruct (rk_read t fd 2048 ltac:(done)) as (Hb & Hlen & Hret). set (r := kern t (Read fd 2048)) in *.
  assert (sinv c (t ++ [(Read fd 2048, r)])) as HI1.
  { destruct HI as (l & ss & tail & Hd & Hrest). exists l, ss, tail. split; [|exact Hrest].
    destruct Hd as [[? ? Hbrk ? ?] ? ?]. split; [split; [done|done| |done|done]|done..]. by rewrite brk_now_snoc. }
  apply xwp_if; intros Hn; zbool.
  - assert (filled 2048 r = Some (out r ++ drop (length (out r)) (junk 2048))) as Hf.
    { unfold filled. rewrite awrite_Some by (rewrite ?junk_length; lia). rewrite Z.add_0_l, Nat2Z.id. done. }
    xwp_step. apply xwp_pure; [|by rewrite Hf]. rewrite Hf. intros ? [= <-].
    assert (aread (out r ++ drop (length (out r)) (junk 2048)) 0 (s32 (ret r)) = Some (take (Z.to_nat (s32 (ret r))) (out r))) as Ha.
    { rewrite aread_app_l by (specialize (Hret Hn); lia). apply aread_Some; [lia|lia|specialize (Hret Hn); lia]. }
    xwp_step. apply xwp_pure; [|by rewrite Ha]. rewrite Ha. intros ? [= <-].
    xwp_step. apply parse_safe; [done|by apply Forall_take|]. intros c' t' HI'. by apply IH.
  - apply xwp_if; intros Hn'; [by eapply quit_safe|]. xwp_step. by apply HQ.
Qed.

Lemma parse_file_safe k name s c t :
  sinv c t -> ostring base m0 name s -> safely (parse_file k name) c t (fun _ _ _ => True).
Proof.
  intros HI Hs. pose proof HI as (l & ss & tail & Hd & Hss & Htail & Hv). pose proof (hd_layout _ _ _ _ _ _ _ Hd) as Hl.
  pose proof (ostring_at base m0 w c t _ _ Hl Hs) as Hc. unfold parse_file. xwp_step. eapply xwp_rd; [by apply cstr_spec|].
  do 2 xwp_step. cbv zeta. apply xwp_if; intros Hfd.
  { eapply quit_safe, ostr_str; [destruct Hs; lia|exact Hc]. }
  do 2 xwp_step. xwp_step. apply read_loop_safe; [|intros c' t' HI'; by apply parse_finish_safe].
  exists l, ss, tail. split; [|split; [done|split; [done|exact Hv]]].
  destruct Hd as [[[] ? Hbrk ? ?] ? ?]. split; [split; [|done| |done|done]|done..].
  - split; [done|done|done|done|]. right. by exists s.
  - by rewrite brk_now_snoc.
Qed.

Lemma parse_str_safe str s c t :
  sinv c t -> ostring base m0 str s -> safely (parse_str str) c t (fun _ _ _ => True).
Proof.
  intros HI Hs. pose proof HI as (l & ss & tail & Hd & _). pose proof (hd_layout _ _ _ _ _ _ _ Hd) as Hl.
  pose proof (ostring_at base m0 w c t _ _ Hl Hs) as Hc. unfold parse_str. xwp_step. eapply xwp_rd; [by apply cstr_spec|].
  xwp_step. apply parse_safe; [done|by apply str_bytes, Hc|]. intros c' t' HI'. by apply parse_finish_safe.
Qed.


(** [msh] was started with these arguments and this environment. *)
Definition launched (ac : Z) (av : ptr) : Prop :=
  w_argv w = av /\ w_env w = av + 8 * (ac + 1) /\ zlen (w_args w) = ac.

Lemma fatal_any {A} err p arg c t (Q : A -> sh -> trace mcall -> Prop) :
  file c = 0 -> ostr (ram c) p = Some arg -> safely (fatal err p) c t Q.
Proof. intros Hf Hp. eapply fatal_wp; [exists None; by rewrite Hf|exact Hp|by intros f r1 r2]. Qed.

Lemma options_wp ac av (Q : Z * Z -> sh -> trace mcall -> Prop) :
  launched ac av -> (forall o i, 0 < i -> Q (o, i) (blank ac av m0) []) ->
  safely (if 1 <? ac then
            a ← rd (fun m => ld64 m (av + 8));
            c ← rd (fun m => ld8 m a);
            if c =? 45 then o ← parseopts (a + 1); mret (o, 2) else mret (0, 1)
          else mret (0, 1)) (blank ac av m0) [] Q.
Proof.
  intros (<- & Henv & Hac) HQ. destruct (Z.ltb_spec 1 ac) as [Hlt|]; [|xwp_step; by apply HQ].
  destruct (lookup_lt_is_Some_2 (w_args w) 1) as [[a s] Ha]; [lia|].
  pose proof (Forall_lookup_1 _ _ _ _ (wo_args _ _ _ Hw) Ha) as (Hnz & Hs & _). cbn [fst snd] in *.
  xwp_step. apply (xwp_rd _ a).
  { change (w_argv w + 8) with (w_argv w + 8 * Z.of_nat 1). cbn [blank ram]. rewrite (ld64_spec _ _ a).
    - f_equal. apply u64_small. lia.
    - apply (bytes_at_bind8 _ _ ((w_args w).*1 ++ [0])); [apply (wo_argv _ _ _ Hw)|].
      rewrite lookup_app_l by (rewrite length_fmap; lia). by rewrite list_lookup_fmap, Ha. }
  xwp_step. destruct (cstr_at_read _ _ _ a Hs) as (b & Hb & _); [lia|]. eapply xwp_rd; [exact Hb|].
  destruct (Z.eqb_spec b 45) as [->|]; [|xwp_step; by apply HQ].
  destruct s as [|x s]; [apply cstr_at_nil in Hs; congruence|]. apply cstr_at_cons in Hs as (_ & _ & Hs).
  xwp_step. unfold parseopts. destruct (cstr_at_read _ _ _ (a + 1) Hs) as (b' & Hb' & _); [lia|].
  xwp_step. eapply xwp_rd; [exact Hb'|]. repeat (apply xwp_if; intros _).
  - do 2 xwp_step. by apply HQ.
  - do 2 xwp_step. by apply HQ.
  - eapply fatal_any; [done|]. by apply (ostr_str _ _ s); [lia|].
Qed.

Lemma main_safe k ac av : launched ac av -> safely (main k ac av) (blank ac av m0) [] (fun _ _ _ => True).
Proof.
  intros Hla. unfold main. apply xwp_bind, options_wp; [done|]. intros o i Hi. destruct Hla as (<- & Henv & Hac).
  apply xwp_if; intros Hle; zbool; [by eapply fatal_any|].
  destruct (lookup_lt_is_Some_2 (w_args w) (Z.to_nat i)) as [[a s] Ha]; [lia|].
  pose proof (Forall_lookup_1 _ _ _ _ (wo_args _ _ _ Hw) Ha) as Hs. cbn [fst snd] in Hs.
  xwp_step. apply (xwp_rd _ a).
  { replace i with (Z.of_nat (Z.to_nat i)) by lia. cbn [blank ram]. rewrite (ld64_spec _ _ a).
    - f_equal. apply u64_small. destruct Hs. lia.
    - apply (bytes_at_bind8 _ _ ((w_args w).*1 ++ [0])); [apply (wo_argv _ _ _ Hw)|].
      rewrite lookup_app_l by (rewrite length_fmap; lia). by rewrite list_lookup_fmap, Ha. }
  do 3 xwp_step. apply (heap_init_wp base m0 w).
  - split; [done|simpl; lia|done|done|by left].
  - done.
  - by intros c' t' ??? f r1 r2.
  - intros c t Hd _ Hst _ _ _.
    assert (sinv c t) as HI.
    { unfold sinv. rewrite Hst. exists [], [], []. split; [done|]. split; [done|]. split; [done|]. by intros [?|?]. }
    apply xwp_if; intros _; [by eapply parse_file_safe|by eapply parse_str_safe].
Qed.
End table.
End exec.

(** ** Safety *)

Lemma xwp_is_Some {S C A} (m : xprog S C A) s t (Q : A -> S -> trace C -> Prop) :
  xwpf False (fun _ _ => True) m s t Q -> is_Some (m s t).
Proof. unfold xwpf. destruct (m s t) as [[[[x|] s'] t']|]; [by eexists..|done]. Qed.

(** C11. A run of msh never accesses memory outside of its objects and never exceeds
    the bounds of its loops: whatever the arguments, the environment, the script and the
    replies of the kernel, it ends in a state or exits.  The commands of the table are
    those of the code without [setcaps], [setcpus] and [waitfor]. *)
Theorem msh_safe `{HK : !Kern mcall} `{HL : !Locals} `{HR : !ReplyKern} base m w `{HB : !BrkKern base} fuel ac av :
  world_ok base m w -> launched w ac av ->
  is_Some (main (HB := safe_commands fuel) fuel ac av (blank ac av m) []).
Proof.
  intros Hw Hla. exact (xwp_is_Some _ _ _ _ (main_safe base m w Hw (safe_commands_safe base m w Hw fuel) fuel ac av Hla)).
Qed.

(** *** A concrete run *)

(** A kernel that has memory, and prints. *)
Definition demo_kern : kernel mcall := fun _ c =>
  match c with
  | Brk a => Reply (if (65536 <=? a) && (a <? 65536 + LIM) then a else 65536) []
  | Write _ l => Reply (zlen l) []
  | _ => Reply (-1) []
  end.

Lemma demo_brk : @BrkKern 65536 demo_kern.
Proof.
  assert (forall a, 65536 <= u64 (ret (demo_kern [] (Brk a))) < 65536 + LIM /\
    (u64 (ret (demo_kern [] (Brk a))) = a \/ u64 (ret (demo_kern [] (Brk a))) = 65536)) as H.
  { intros a. cbn [demo_kern ret]. unfold LIM. destruct (Z.leb_spec 65536 a); cbn [andb]; [destruct (Z.ltb_spec a (65536 + 2 ^ 27))|].
    all: rewrite u64_small by lia; lia. }
  split.
  - unfold LIM. lia.
  - intros t a. apply H.
  - intros t a Hb. destruct (H a) as [_ [Ha|Ha]]; [by left|right]. by etrans; [apply Z.eq_le_incl, Ha|].
Qed.

Lemma demo_reply : @ReplyKern demo_kern.
Proof. split; [intros t fd k Hk; cbn; split; [constructor|done]|done..]. Qed.

(** [msh -c script] with a variable in the environment. *)
Definition demo_world (script : list Z) : world :=
  World 1000 [(2000, text "msh"); (2010, text "-c"); (3000, script)] 1032 [(2030, text "FOO=bar")].

Definition demo_mem (script : list Z) : mem :=
  let m := poke ∅ 2000 (text "msh" ++ [0]) in
  let m := poke m 2010 (text "-c" ++ [0]) in
  let m := poke m 2030 (text "FOO=bar" ++ [0]) in
  let m := poke m 3000 (script ++ [0]) in
  poke m 1000 ([2000; 2010; 3000; 0; 2030; 0] ≫= le_bytes 8).

(** What has to be computed of a world. *)
Definition readable_world (m : mem) (w : world) : bool :=
  let str x := bool_decide (peek m x.1 (S (length x.2)) = Some (x.2 ++ [0])) && (0 <? x.1) && (x.1 + zlen x.2 + 1 <=? 65536) &&
    forallb (fun b => (0 <? b) && (b <? 256)) x.2 in
  let arr p l := bool_decide (peek m p (length (l ≫= le_bytes 8)) = Some (l ≫= le_bytes 8)) && (p + 8 * zlen l <=? 65536) in
  forallb str (w_args w) && forallb str (w_vars w) && arr (w_argv w) ((w_args w).*1 ++ [0]) && arr (w_env w) ((w_vars w).*1 ++ [0]) &&
  (zlen (w_args w) <? 2 ^ 20) && (zlen (w_vars w) <? 2 ^ 20).

Lemma demo_ok m w : readable_world m w = true -> world_ok 65536 m w.
Proof.
  assert (forall l : list (ptr * list Z), forallb (fun x =>
    bool_decide (peek m x.1 (S (length x.2)) = Some (x.2 ++ [0])) && (0 <? x.1) && (x.1 + zlen x.2 + 1 <=? 65536) &&
    forallb (fun b => (0 <? b) && (b <? 256)) x.2) l = true -> Forall (fun x => ostring 65536 m x.1 x.2) l) as Hstr.
  { induction l as [|[p s] l IH]; intros H; [constructor|]. cbn [forallb fst snd] in H.
    apply andb_true_iff in H as [H Hl]. constructor; [|by apply IH]. clear IH Hl. cbn [fst snd].
    apply andb_true_iff in H as [H Hs]. apply andb_true_iff in H as [H Hp]. apply andb_true_iff in H as [H H0].
    apply bool_decide_eq_true in H. apply peek_Some in H as [_ H]. unfold ostring, outside, LIM. zbool.
    split; [lia|]. split; [|lia]. split; [done|]. apply Forall_forall. intros b Hb. rewrite forallb_forall in Hs.
    rewrite list_elem_of_In in Hb. specialize (Hs b Hb). apply andb_true_iff in Hs as [Hb1 Hb2]. zbool. done. }
  assert (forall p l, bool_decide (peek m p (length (l ≫= le_bytes 8)) = Some (l ≫= le_bytes 8)) && (p + 8 * zlen l <=? 65536) = true ->
    oarray 65536 m p l) as Harr.
  { intros p l H. apply andb_true_iff in H as [H Hp]. apply bool_decide_eq_true in H. apply peek_Some in H as [_ H].
    split; [done|]. unfold outside. zbool. lia. }
  unfold readable_world. intros H. apply andb_true_iff in H as [H H6]. apply andb_true_iff in H as [H H5].
  apply andb_true_iff in H as [H H4]. apply andb_true_iff in H as [H H3]. apply andb_true_iff in H as [H1 H2].
  split; [by apply Harr|by apply Hstr|by apply Harr|by apply Hstr|zbool; lia].
Qed.

Lemma msh_safe_witness :
  launched (demo_world (text "echo hello")) 3 1000 /\
  is_Some (@main demo_kern some_locals (@safe_commands demo_kern some_locals 1) 1 3 1000 (blank 3 1000 (demo_mem (text "echo hello"))) []).
Proof.
  split; [done|]. apply (@msh_safe demo_kern some_locals demo_reply 65536 _ (demo_world (text "echo hello")) demo_brk); [|done].
  apply demo_ok. vm_compute. reflexivity.
Defined.
