(* ===== verification/MshLaws.v ===== *)
(** * src/msh: what its commands promise

    The commands on variables do to the table in memory what the functions of
    [MshVar] do to a list, or end the script with the message these give; all
    the others leave a table that is well-formed.  Stated for the commands that
    the table of the interpreter has. *)
From stdpp Require Import strings.
From S2P Require Import Prelude Mem Str Fmt Parse Arr Sys Nlusctl Nlsock State Exits Cstr Util Msh MshMem MshCmd MshEnv MshVar MshParse MshSafe MshCmdSafe MshScript.

#[local] Arguments le_bytes : simpl never.

Section laws.
Context `{HK : !Kern mcall} `{HL : !Locals} (base : Z) (m0 : mem) (w : world) `{HB : !BrkKern base} (Hw : world_ok base m0 w).

(** The commands that have a function. *)
Definition a_command (name : list Z) : option (vstate -> list (list Z) -> result) :=
  if decide (name = text "set") then Some (a_set w)
  else if decide (name = text "setenv") then Some (a_setenv w)
  else if decide (name = text "getenv") then Some (a_getenv w)
  else if decide (name = text "delenv") then Some (a_delenv w)
  else if decide (name = text "clearenv") then Some a_clearenv
  else None.

(** The process ended with this message, and did nothing else that can be seen. *)
Definition ended (c : sh) (t t' : trace mcall) (err : list Z) (arg : option (list Z)) : Prop :=
  exists f r1 r2, visible t' = visible t ++ [(Report (errfd c) f (line c) (Some err) arg 0, r1); (Exit 255, r2)].

Definition no_memory : list Z := text "cannot allocate memory".

(** What may have happened after a command whose function gives [r]. *)
Definition outcome (r : result) (c : sh) (t : trace mcall) (o : option (option unit * sh * trace mcall)) : Prop :=
  match o with
  | None => False
  | Some (Some _, c', t') => exists v, r = inl v /\ layout base m0 w c' t' /\ vars w (vs_list v) c' /\
      (0 <=? customenvp c') = vs_custom v /\ visible t' = visible t
  | Some (None, c', t') => ended c t t' no_memory None \/ exists e x, r = inr (e, x) /\ ended c t t' e x
  end.

Lemma implements_outcome (m : M unit) a l w0 args av c t :
  (forall F E, implements base m0 w (F := F) (E := E) m a) ->
  at_arg base m0 w l (w0 :: args) av 1 c t ->
  outcome (a (Vstate l (0 <=? customenvp c)) args) c t (m c t).
Proof.
  intros Hm Ha. set (r := a _ _).
  assert (xwpf False (fun _ t' => ended c t t' no_memory None \/ exists e x, r = inr (e, x) /\ ended c t t' e x) m c t
    (fun _ c' t' => exists v, r = inl v /\ layout base m0 w c' t' /\ vars w (vs_list v) c' /\
      (0 <=? customenvp c') = vs_custom v /\ visible t' = visible t)) as Hx.
  { apply (Hm _ _ l w0 args av); [done|..].
    - intros c' t' He Hl Ht f r1 r2. left. exists f, r1, r2. by rewrite visible_app, Ht, <- He, <- Hl.
    - intros e x Hr c' t' He Hl Ht f r1 r2. right. exists e, x. split; [done|]. exists f, r1, r2. by rewrite visible_app, Ht, <- He, <- Hl.
    - intros v c' t' Hr Hl Hv Hce Hst Ht. by exists v. }
  unfold xwpf in Hx. unfold outcome. by destruct (m c t) as [[[[[]|] c'] t']|].
Qed.

(** It exited, or it left a table of variables that is well-formed. *)
Definition keeps_table (o : option (option unit * sh * trace mcall)) : Prop :=
  match o with
  | None => False
  | Some (Some _, c', t') => exists l', layout base m0 w c' t' /\ vars w l' c'
  | Some (None, _, _) => True
  end.

(** ** The commands of the table *)

Lemma commands_implement fuel :
  Forall (fun x => match a_command x.1 with
                   | Some a => forall F E, implements base m0 w (F := F) (E := E) x.2 a
                   | None => True
                   end) (commands fuel).
Proof.
  unfold commands. repeat (apply List.Forall_cons; [try exact I|]); [..|apply List.Forall_nil].
  - change (a_command _) with (Some a_clearenv). intros F E. by apply cmd_clearenv_wp.
  - change (a_command _) with (Some (a_delenv w)). intros F E. by apply cmd_delenv_wp.
  - change (a_command _) with (Some (a_getenv w)). intros F E. by apply cmd_getenv_wp.
  - change (a_command _) with (Some (a_set w)). intros F E. by apply cmd_set_wp.
  - change (a_command _) with (Some (a_setenv w)). intros F E. by apply cmd_setenv_wp.
Qed.

(** The commands on variables refine functions on the list of variables: each of
    them either leaves exactly the table of the list that its function gives, and does
    nothing that can be seen, or ends the script with exactly one message, that of its
    function, or that there is no memory. *)
Theorem variables_refined fuel name m a l w0 args av c t :
  (name, m) ∈ commands fuel -> a_command name = Some a ->
  at_arg base m0 w l (w0 :: args) av 1 c t ->
  outcome (a (Vstate l (0 <=? customenvp c)) args) c t (m c t).
Proof.
  intros Hin Ha Hc. pose proof (commands_implement fuel) as HF. rewrite Forall_forall in HF.
  specialize (HF _ Hin). cbn [fst snd] in HF. rewrite Ha in HF. by eapply implements_outcome.
Qed.

End laws.

(** ** A concrete state *)

(** The words of a command, on a heap without variables. *)
Definition demo_heap (ss : list (list Z)) (m : mem) : sh :=
  let av := 65536 + zlen (flat ss) in
  let r := poke m 65536 (flat ss ++ ((starts 65536 ss ++ [0]) ≫= le_bytes 8) ++ repeat 0 (Z.to_nat (4096 - (zlen (flat ss) + 8 * (zlen ss + 1))))) in
  (blank 3 1000 m) <| ram := r |> <| heap := 65536 |> <| asep := 65536 |> <| hptr := av + 8 * (zlen ss + 1) |> <| hend := 65536 + 4096 |>
    <| customenvp := -1 |> <| topargc := 3 |> <| topargp := 3 |> <| topargv := 1000 |>
    <| argc := zlen ss |> <| argp := 1 |> <| argv := av |>.

Definition demo_trace : trace mcall := [(Brk (65536 + 4096), Reply (65536 + 4096) [])].

Lemma demo_at_arg m w ss :
  Forall (fun s => is_str s) ss -> zlen (flat ss) + 8 * (zlen ss + 1) <= 4096 ->
  w_argv w = 1000 -> w_env w = 1032 -> zlen (w_args w) = 3 -> 
  at_arg 65536 m w [] ss (argv (demo_heap ss m)) 1 (demo_heap ss m) demo_trace.
Proof.
  intros Hss Hlen Hav Henv Hargs. unfold demo_heap. cbv zeta.
  set (ptrs := (starts 65536 ss ++ [0]) ≫= le_bytes 8). assert (zlen ptrs = 8 * (zlen ss + 1)) as Hp.
  { unfold ptrs. rewrite length_bind8, length_app, length_starts. simpl. lia. }
  set (zs := repeat 0 _). assert (zlen zs = 4096 - (zlen (flat ss) + 8 * (zlen ss + 1))) as Hz.
  { unfold zs. rewrite repeat_length. lia. }
  assert (zlen (flat ss ++ ptrs ++ zs) = 4096) as Hall by (rewrite !length_app; lia).
  pose proof (bytes_at_poke m 65536 (flat ss ++ ptrs ++ zs)) as Hb.
  split; [|done|done|done]. split.
  - split.
    + split; cbn; [done|lia|done|done|by left].
    + cbn. unfold LIM. lia.
    + done.
    + cbn. intros a Ha. rewrite lookup_poke_in by lia. apply zget_lt_is_Some. lia.
    + intros a Ha. cbn. apply lookup_poke_out. unfold LIM in Ha. lia.
  - split; [done|]. cbn. split; [lia|constructor].
  - done.
  - cbn. by apply bytes_at_app in Hb as [? _].
  - cbn. apply bytes_at_app in Hb as [_ Hb]. by apply bytes_at_app in Hb as [? _].
  - cbn. lia.
  - cbn. lia.
Qed.

Lemma demo_readable : world_ok 65536 (demo_mem (text "x")) (demo_world (text "x")).
Proof. apply demo_ok. vm_compute. reflexivity. Qed.

Definition demo_words : list (list Z) := [text "set"; text "A"; text "b"].
Definition demo_ready : sh := demo_heap demo_words (demo_mem (text "x")).

Lemma words_ok ss : forallb (forallb (fun b => (0 <? b) && (b <? 256))) ss = true -> Forall (fun s => is_str s) ss.
Proof.
  intros H. apply Forall_forall. intros s Hs. apply Forall_forall. intros b Hb. rewrite forallb_forall in H.
  apply list_elem_of_In in Hs, Hb. specialize (H s Hs). rewrite forallb_forall in H. specialize (H b Hb).
  apply andb_true_iff in H as [H1 H2]. zbool. done.
Qed.

Lemma demo_words_ok : at_arg 65536 (demo_mem (text "x")) (demo_world (text "x")) [] demo_words (argv demo_ready) 1 demo_ready demo_trace.
Proof. apply demo_at_arg; [apply words_ok; reflexivity|by vm_compute|done..]. Qed.

Lemma variables_refined_witness :
  a_set (demo_world (text "x")) (Vstate [] (0 <=? customenvp demo_ready)) [text "A"; text "b"] = inl (Vstate [Ent false true (inl (text "A=b"))] false) /\
  outcome 65536 (demo_mem (text "x")) (demo_world (text "x")) (a_set (demo_world (text "x")) (Vstate [] (0 <=? customenvp demo_ready)) [text "A"; text "b"])
    demo_ready demo_trace (@cmd_set demo_kern some_locals demo_ready demo_trace).
Proof.
  split; [reflexivity|].
  apply (@variables_refined demo_kern some_locals 65536 _ (demo_world (text "x")) demo_brk demo_readable 1 (text "set") _
    (a_set (demo_world (text "x"))) [] (text "set") [text "A"; text "b"] (argv demo_ready)).
  - unfold commands. do 19 right. left.
  - reflexivity.
  - exact demo_words_ok.
Defined.

