(* ===== verification/MshSpec.v ===== *)
(** * src/msh: scripts as interactions

    The language of msh without its memory: a script is a tree of system calls,
    made by an interpreter of characters whose state holds strings and lists.
    [MshRun] shows that msh follows it.  Commands that are not described here
    are the leaf [Other]. *)
From stdpp Require Import strings.
From S2P Require Import Prelude Mem Str Fmt Parse Arr Sys Nlusctl Nlsock State Exits Cstr Util Msh MshMem MshCmd MshEnv MshVar MshParse MshLaws.

(** ** Trees *)

(** A result; a call and what follows each reply; an error, on this descriptor
    and in this line; the end of the process; anything. *)
Inductive tree (A : Type) :=
  | Ret (a : A)
  | Call (c : mcall) (k : reply -> tree A)
  | Fail (fd ln : Z) (err arg : option (list Z)) (r : Z)
  | End
  | Other.
Arguments Ret {A}. Arguments Call {A}. Arguments Fail {A}. Arguments End {A}. Arguments Other {A}.

#[export] Instance tree_ret : MRet tree := @Ret.
#[export] Instance tree_bind : MBind tree := fun A B k =>
  fix go p :=
  match p with
  | Ret a => k a
  | Call c h => Call c (fun r => go (h r))
  | Fail fd ln err arg r => Fail fd ln err arg r
  | End => End
  | Other => Other
  end.

Definition out_of_memory (err : list Z) : Prop := err = no_memory \/ err = text "heap init failed".

(** A path of the tree takes the visible trace [v] to [v']; it may leave the
    tree at any point with the message that there is no memory. *)
Inductive follows {A} : tree A -> trace mcall -> trace mcall -> option A -> Prop :=
  | follows_ret a v : follows (Ret a) v v (Some a)
  | follows_call c k r v v' o : follows (k r) (v ++ [(c, r)]) v' o -> follows (Call c k) v v' o
  | follows_fail fd ln err arg r f r1 r2 v :
      follows (Fail fd ln err arg r) v (v ++ [(Report fd f ln err arg r, r1); (Exit 255, r2)]) None
  | follows_end v : follows End v v None
  | follows_oom p err fd f ln r1 r2 v :
      out_of_memory err -> follows p v (v ++ [(Report fd f ln (Some err) None 0, r1); (Exit 255, r2)]) None
  | follows_other v v' o : follows Other v v' o.

(** A tree that is described to its leaves; its calls are not error messages. *)
Inductive closed {A} : tree A -> Prop :=
  | closed_ret a : closed (Ret a)
  | closed_call c k :
      (match c with Report _ _ _ _ _ _ => False | _ => True end) -> (forall r, closed (k r)) -> closed (Call c k)
  | closed_fail fd ln err arg r : closed (Fail fd ln err arg r)
  | closed_end : closed End.

(** ** The state of a script *)

(** The state of the parser, the line, the descriptor for errors, the variables, the words of
    the command, the text of the next one, and at its end a name that is to be replaced. *)
Record script := Script {
  s_state : Z; s_line : Z; s_err : Z; s_vars : vstate;
  s_words : list (list Z); s_text : list Z; s_name : list Z }.

#[export] Instance eta_script : Eta script :=
  rd_pure Script <*> s_state <*> s_line <*> s_err <*> s_vars <*> s_words <*> s_text <*> s_name.

Section spec.
Context (w : world).

Abbreviation P := (tree script).

Definition fail {A} (x : script) (err : option (list Z)) (arg : option (list Z)) (r : Z) : tree A :=
  Fail (s_err x) (s_line x) err arg r.
Definition wrong {A} (x : script) (err : list Z) : tree A := fail x (Some err) None 0.

Definition goto (st : Z) (x : script) : P := Ret (x <| s_state := st |>).

(** *** Commands *)

(** A command on variables. *)
Definition on_vars (f : vstate -> list (list Z) -> result) (x : script) (args : list (list Z)) : P :=
  match f (s_vars x) args with
  | inl v => Ret (x <| s_vars := v |>)
  | inr (err, arg) => fail x (Some err) arg 0
  end.

(** A line of text that is written in as many pieces as the kernel takes. *)
Fixpoint write_line (n : nat) (fd : Z) (buf : list Z) (last : Z) : tree Z :=
  match buf, n with
  | [], _ => Ret last
  | _, O => Ret last
  | _, S n =>
      Call (Write fd buf) (fun r =>
        let k := s64 (ret r) in
        let k := if k =? 0 then -32 else k in
        if k <? 0 then Ret k else write_line n fd (drop (Z.to_nat k) buf) k)
  end.

(** A command with one argument. *)
Definition one (x : script) (k : list Z -> P) (args : list (list Z)) : P :=
  match args with
  | [] => wrong x (text "too few arguments")
  | [s] => k s
  | _ => wrong x (text "too many arguments")
  end.

Definition print (fd : Z) (x : script) : list (list Z) -> P := one x (fun s =>
  let buf := s ++ [10] in
  r ← write_line (length buf) fd buf 0;
  if s32 r <? 0 then fail x (Some (text "write")) None (s32 r) else Ret x).

(** A call that fails with a message. *)
Definition attempt (x : script) (msg arg : option (list Z)) (c : mcall) (k : Z -> P) : P :=
  Call c (fun r => let r := s32 (ret r) in if r <? 0 then fail x msg arg r else k r).

Definition cd (x : script) : list (list Z) -> P := one x (fun s => attempt x None (Some s) (Chdir s) (fun _ => Ret x)).
Definition chroot (x : script) : list (list Z) -> P :=
  one x (fun s => attempt x (Some (text "chroot")) None (Chroot s) (fun _ => Ret x)).

(** A file that is not there is no error. *)
Definition unlink (x : script) : list (list Z) -> P := one x (fun s =>
  Call (Unlink s) (fun r => let r := s32 (ret r) in
    if (0 <=? r) || (r =? -2) then Ret x else fail x (Some (text "unlink")) (Some s) r)).

(** The file is opened, and becomes the descriptor [tofd]. *)
Definition open_as (tofd : Z) (name : list Z) (flags mode : Z) (x : script) : P :=
  attempt x (Some (text "open")) (Some name) (Open name flags mode) (fun fd =>
    if fd =? tofd then Ret x
    else attempt x None (Some name) (Dup2 fd tofd) (fun _ => Call (Close fd) (fun _ => Ret x))).

Definition stdin (x : script) : list (list Z) -> P := one x (fun s => open_as 0 s 0 0 x).
Definition reopen (x : script) : list (list Z) -> P := one x (fun s =>
  y ← open_as 0 s 0 0 x;
  y ← open_as 1 s 1 0 y;
  attempt y (Some (text "dup")) None (Dup2 1 2) (fun _ => Ret y)).

(** The program gets all words, the first one included, and the environment of
    the script. *)
Definition exec (x : script) (args : list (list Z)) : P :=
  match args with
  | [] => wrong x (text "argument required")
  | path :: _ =>
      let env := if vs_custom (s_vars x) then env_strings w (vs_list (s_vars x)) else (w_vars w).*2 in
      Call (Execve path args env) (fun r => fail x (Some (text "exec")) (Some path) (s32 (s64 (ret r))))
  end.

Definition command_of (name : list Z) : option (script -> list (list Z) -> P) :=
  match a_command w name with
  | Some f => Some (on_vars f)
  | None =>
      if decide (name = text "echo") then Some (print 1)
      else if decide (name = text "warn") then Some (print 2)
      else if decide (name = text "die") then Some (fun x args => print 2 x args;; Call (Exit 255) (fun _ => End))
      else if decide (name = text "exec") then Some exec
      else if decide (name = text "cd") then Some cd
      else if decide (name = text "chroot") then Some chroot
      else if decide (name = text "unlink") then Some unlink
      else if decide (name = text "stdin") then Some stdin
      else if decide (name = text "reopen") then Some reopen
      else None
  end.

(** The names of the commands. *)
Definition names : list (list Z) :=
  [text "cd"; text "chroot"; text "clearenv"; text "close"; text "delenv"; text "die"; text
   "echo"; text "exec"; text "exit"; text "getenv"; text "groups"; text "invoke"; text "mkdir";
   text "mount"; text "prctl"; text "reopen"; text "rlimit"; text "run"; text "scheduler"; text
   "set"; text "setcaps"; text "setcpus"; text "setenv"; text "setgid"; text "setprio"; text
   "setuid"; text "sleep"; text "stderr"; text "stdin"; text "stdout"; text "stdtwo"; text
   "umask"; text "unlink"; text "waitfor"; text "warn"; text "write"].

(** The words that are complete become a command. *)
Definition perform (x : script) : P :=
  match s_words x with
  | [] => Ret x
  | name :: args =>
      y ← match command_of name with
          | Some f => f x args
          | None => if decide (name ∈ names) then Other else fail x (Some (text "unknown command")) (Some name) 0
          end;
      Ret (y <| s_words := [] |> <| s_text := [] |>)
  end.

(** *** Characters *)

Definition put (ch : Z) (x : script) : script := x <| s_text ::= fun s => s ++ [ch] |>.
Definition name_char (ch : Z) (x : script) : script := x <| s_name ::= fun s => s ++ [ch] |>.
Definition end_word (x : script) : script := x <| s_words ::= fun l => l ++ [s_text x] |> <| s_text := [] |>.

(** [$name] and [$c]. *)
Definition replace (x : script) : P :=
  match var_value w (vs_list (s_vars x)) (s_name x) with
  | Some s => Ret (x <| s_text := s_text x ++ s |> <| s_name := [] |>)
  | None => fail x (Some (text "undefined variable")) (Some (s_name x)) 0
  end.

Definition replace_special (ch : Z) (x : script) : P :=
  let undefined := fail x (Some (text "undefined special variable")) (Some [36; ch]) 0 in
  if ch =? 36 then
    Call Getpid (fun r => Ret (x <| s_text := s_text x ++ take 32 (dec_signed (s32 (ret r))) |>))
  else if (48 <=? ch) && (ch <=? 57) then
    match param w ch with
    | Some s => Ret (x <| s_text := s_text x ++ s |>)
    | None => undefined
    end
  else undefined.

Definition between (ch : Z) (x : script) : P :=
  if isspace ch then goto NIL x
  else if ch =? 35 then goto COMMT x
  else if ch =? 92 then goto NIBSL x
  else if (ch =? 34) || (ch =? 39) then wrong x (text "quoted command")
  else if ch =? 36 then wrong x (text "indirect command")
  else goto ARG (put ch x).

(** The end of a command: of the line, or before a comment. *)
Definition ends_command (ch : Z) : bool := (ch =? 10) || (ch =? 35).
Definition after_command (ch : Z) : Z := if ch =? 10 then NIL else COMMT.

Definition separated (ch : Z) (x : script) : P :=
  if ends_command ch then y ← perform x; goto (after_command ch) y
  else if isspace ch then goto SEP x
  else if ch =? 92 then goto SEBSL x
  else if ch =? 34 then goto DQUOT x
  else if ch =? 39 then goto SQUOT x
  else if ch =? 36 then goto VSIGN x
  else goto ARG (put ch x).

Definition in_word (ch : Z) (x : script) : P :=
  if ch =? 36 then goto VSIGN x
  else if ch =? 92 then goto ARBSL x
  else if ends_command ch then y ← perform (end_word x); goto (after_command ch) y
  else if isspace ch then goto SEP (end_word x)
  else if (ch =? 34) || (ch =? 39) then wrong x (text "misplaced quotes")
  else goto ARG (put ch x).

Definition in_quotes (ch : Z) (x : script) : P :=
  if ch =? 34 then goto TRAIL (end_word x)
  else if ch =? 36 then goto DQVSG x
  else if ch =? 92 then goto DQBSL x
  else goto DQUOT (put ch x).

Definition after_quotes (ch : Z) (x : script) : P :=
  if ends_command ch then y ← perform x; goto (after_command ch) y
  else if isspace ch then goto SEP x
  else wrong x (text "trailing characters after quote").

(** After a backslash, in the states where the end of the line is no character. *)
Definition escaped (nl st : Z) (ch : Z) (x : script) : P :=
  if ch =? 10 then goto nl x else goto st (put (esc ch) x).

(** After a dollar sign: names in state [name], otherwise back to [st]. *)
Definition dollar (name st : Z) (ch : Z) (x : script) : P :=
  if isalpha ch then goto name (name_char ch x)
  else if isspace ch then wrong x (text "missing variable name")
  else y ← replace_special ch x; goto st y.

Definition naming (name : Z) (k : Z -> script -> P) (ch : Z) (x : script) : P :=
  if isalnum ch then goto name (name_char ch x) else y ← replace x; k ch y.

Definition handlers : list (Z -> script -> P) :=
  [between; separated; in_word; escaped NIL NIL; escaped SEP ARG; fun ch x => goto ARG (put (esc ch) x);
   dollar VCONT ARG; naming VCONT in_word; fun ch => goto (if ch =? 10 then SEP else COMMT);
   in_quotes; escaped DQUOT DQUOT; dollar DQVCN DQUOT; naming DQVCN in_quotes;
   fun ch x => if ch =? 92 then goto SQBSL x else if ch =? 39 then goto TRAIL (end_word x) else goto SQUOT (put ch x);
   escaped SQUOT SQUOT; after_quotes].

(** *** Scripts *)

Fixpoint characters (buf : list Z) (x : script) : P :=
  match buf with
  | [] => Ret x
  | ch :: buf =>
      y ← if ch =? 0 then wrong x (text "stray NUL in script")
          else match zget handlers (s_state x) with
               | Some h => h ch x
               | None => wrong x (text "internal state error")
               end;
      characters buf (if ch =? 10 then y <| s_line := s32 (s_line y + 1) |> else y)
  end.

(** The rest of a command when the script ends. *)
Definition finish (x : script) : P :=
  if match s_words x, s_text x, s_name x with [], [], [] => true | _, _, _ => false end then Ret x
  else if s_state x =? NIL then Ret x
  else if s_state x =? ARG then perform (end_word x)
  else if (s_state x =? SEP) || (s_state x =? TRAIL) then perform x
  else wrong x (text "unexpected EOF").

Definition fresh : script := Script NIL 0 2 (Vstate [] false) [] [] [].

(** The commands of a text. *)
Definition a_script (buf : list Z) : tree unit := x ← characters buf fresh; _ ← finish x; Ret tt.

(** The commands of a file, which is read in pieces; the run is looked at for [n]
    of them. *)
Fixpoint pieces (n : nat) (fd : Z) (x : script) : P :=
  match n with
  | O => End
  | S n =>
      Call (Read fd 2048) (fun r =>
        let k := s32 (ret r) in
        if 0 <? k then y ← characters (take (Z.to_nat k) (out r)) x; pieces n fd y
        else if k <? 0 then fail x (Some (text "read")) None k
        else Ret x)
  end.

Definition a_file (n : nat) (name : list Z) : tree unit :=
  Call (Open name (2 ^ 19) 0) (fun r =>
    let fd := s32 (ret r) in
    if fd <? 0 then fail fresh None (Some name) fd
    else x ← pieces n fd (fresh <| s_line := 1 |>); _ ← finish x; Ret tt).
End spec.
