(* ===== verification/MshRun.v ===== *)
(** * src/msh: scripts are run as they are specified

    A simulation: the interpreter, with its strings on the heap and its table
    of variables in memory, follows the tree of [MshSpec]. *)
From stdpp Require Import strings.
From S2P Require Import Prelude Mem Str Fmt Parse Arr Sys Nlusctl Nlsock State Exits Cstr Util Msh MshMem MshCmd MshEnv MshVar MshParse MshSafe MshCmdSafe MshScript MshLaws MshSpec.

#[local] Arguments le_bytes : simpl never.

Lemma follows_bind {A B} (p : tree A) (k : A -> tree B) v v' v'' a o :
  follows p v v' (Some a) -> follows (k a) v' v'' o -> follows (p ≫= k) v v'' o.
Proof.
  remember (Some a) as r eqn:Hr. induction 1 as [x v|c h r v v' o' H IH|fd ln err arg r f r1 r2 v|v|p err fd f ln r1 r2 v He|v v' o'].
  - by injection Hr as ->.
  - intros Hk. cbn. apply follows_call with r. by apply IH.
  - done.
  - done.
  - done.
  - intros _. apply follows_other.
Qed.

Lemma follows_bind_none {A B} (p : tree A) (k : A -> tree B) v v' : follows p v v' None -> follows (p ≫= k) v v' None.
Proof.
  remember None as r eqn:Hr. induction 1; cbn; try done; try (by econstructor). econstructor. by apply IHfollows.
Qed.

Section command_line.
Context (w : world).

(** The first arguments are those of [msh -c text], or of [msh file]. *)
Definition with_commands (s : list Z) : Prop :=
  exists a0 p1 p2 rest, w_args w = a0 :: (p1, text "-c") :: (p2, s) :: rest.
Definition with_file (s : list Z) : Prop :=
  head s <> Some 45 /\ exists a0 p1 rest, w_args w = a0 :: (p1, s) :: rest.

Inductive command_line (n : nat) : tree unit -> Prop :=
  | commands_line s : with_commands s -> command_line n (a_script w s)
  | file_line s : with_file s -> command_line n (a_file w n s).
End command_line.

Section run.
Context `{HK : !Kern mcall} `{HL : !Locals} `{HR : !ReplyKern}.
Context (base : Z) (m0 : mem) (w : world) `{HB : !BrkKern base} (Hw : world_ok base m0 w) (fuel : nat).

Abbreviation held := (held base m0 w).
Abbreviation layout := (layout base m0 w).
Abbreviation safely := (xwpf False (fun _ _ => True)).

(** ** Simulation *)

(** What is run follows the tree, and the results are related. *)
Definition sim {A B} (m : M A) (c : sh) (t : trace mcall) (p : tree B) (R : A -> B -> sh -> trace mcall -> Prop) : Prop :=
  xwpf False (fun _ t' => follows p (visible t) (visible t') None) m c t
    (fun x c' t' => exists b, follows p (visible t) (visible t') (Some b) /\ R x b c' t').

Lemma sim_ret {A B} (x : A) (b : B) c t (R : A -> B -> sh -> trace mcall -> Prop) : R x b c t -> sim (mret x) c t (Ret b) R.
Proof. intros H. apply xwp_ret. exists b. split; [constructor|done]. Qed.

Lemma sim_bind {A A' B B'} (m : M A) (f : A -> M A') c t (p : tree B) (k : B -> tree B') R Q :
  sim m c t p R -> (forall x b c1 t1, R x b c1 t1 -> sim (f x) c1 t1 (k b) Q) -> sim (m ≫= f) c t (p ≫= k) Q.
Proof.
  unfold sim, xwpf. intros Hm Hf. unfold mbind at 1 2, xprog_bind. destruct (m c t) as [[[[x|] c1] t1]|]; [|by apply follows_bind_none|done].
  destruct Hm as (b & Hb & HR1). specialize (Hf x b c1 t1 HR1).
  destruct (f x c1 t1) as [[[[y|] c2] t2]|]; [|by eapply follows_bind|done].
  destruct Hf as (b' & Hb' & HQ). exists b'. split; [by eapply follows_bind|done].
Qed.

(** The first part of what is run makes no visible call. *)
Lemma sim_silent {A A' B} (m : M A) (f : A -> M A') c t (p : tree B) Q :
  xwpf False (fun _ t' => follows p (visible t) (visible t') None) m c t
    (fun x c1 t1 => visible t1 = visible t /\ sim (f x) c1 t1 p Q) ->
  sim (m ≫= f) c t p Q.
Proof.
  unfold sim, xwpf, mbind, xprog_bind. destruct (m c t) as [[[[x|] c1] t1]|]; [|done|done].
  intros [Ht H]. rewrite Ht in H. done.
Qed.

Lemma sim_mono {A B} (m : M A) c t (p : tree B) (R Q : A -> B -> sh -> trace mcall -> Prop) :
  sim m c t p R -> (forall x b c' t', R x b c' t' -> Q x b c' t') -> sim m c t p Q.
Proof. intros Hm HQ. eapply xwp_mono; [exact Hm|]. intros x c' t' (b & Hb & HRb). exists b. split; [done|by apply HQ]. Qed.

(** Errors. *)
Lemma oom_follows {B} (p : tree B) c t v : visible t = v -> @oom (fun _ t' => follows p v (visible t') None) c t.
Proof.
  intros <- c' t' _ _ Ht f r1 r2. rewrite visible_app, Ht. apply follows_oom. by left.
Qed.

Lemma fails_follows {B} c t v err arg r :
  visible t = v -> @fails (fun _ t' => follows (Fail (errfd c) (line c) err arg r : tree B) v (visible t') None) c t err arg r.
Proof. intros <- c' t' He Hl Ht f r1 r2. rewrite visible_app, Ht, He, Hl. apply follows_fail. Qed.

Lemma ends_follows {B} c t v err arg r :
  visible t = v -> @ends (fun _ t' => follows (Fail (errfd c) (line c) err arg r : tree B) v (visible t') None) c t err arg r.
Proof. intros <- f r1 r2. rewrite visible_app. apply follows_fail. Qed.

Lemma sim_other {A B} (m : M A) c t (R : A -> B -> sh -> trace mcall -> Prop) :
  safely m c t (fun x c' t' => exists b, R x b c' t') -> sim m c t Other R.
Proof.
  unfold sim, xwpf. destruct (m c t) as [[[[x|] c'] t']|]; [|intros _; constructor|done].
  intros [b Hb]. exists b. split; [constructor|done].
Qed.

(** ** The state *)

Record rel (x : script) (c : sh) (t : trace mcall) : Prop := {
  rl_held : held (vs_list (s_vars x)) (flat (s_words x) ++ s_text x ++ s_name x) c t;
  rl_words : Forall (fun s => is_str s) (s_words x);
  rl_text : is_str (s_text x);
  rl_name : is_str (s_name x);
  rl_var : s_name x <> [] -> var c = asep c + zlen (flat (s_words x) ++ s_text x);
  rl_custom : (0 <=? customenvp c) = vs_custom (s_vars x);
  rl_line : line c = s_line x;
  rl_err : errfd c = s_err x }.

(** In the states in which a name is read there is one. *)
Definition naming_state (st : Z) : bool := (st =? VCONT) || (st =? DQVCN).
Definition named_ok (x : script) : Prop := s_name x = [] <-> naming_state (s_state x) = false.

(** After a handler that returned the state [st]. *)
Definition at_state (st : Z) (x : script) (c : sh) (t : trace mcall) : Prop :=
  rel x c t /\ s_state x = st /\ named_ok x.

Lemma rel_state x c t st : rel x c t -> rel (x <| s_state := st |>) c t.
Proof. intros []. by split. Qed.

Lemma rel_readable x c t : rel x c t -> readable c.
Proof. intros []. by eapply layout_readable, hd_layout. Qed.

Lemma sim_fatal {A B} err x c t (R : A -> B -> sh -> trace mcall -> Prop) :
  rel x c t -> sim (fatal err 0) c t (wrong x err) R.
Proof.
  intros Hr. unfold wrong, fail. rewrite <- (rl_line _ _ _ Hr), <- (rl_err _ _ _ Hr).
  eapply fatal_wp; [by eapply rel_readable|done|by apply ends_follows].
Qed.

Lemma sim_goto st x c t :
  rel x c t -> s_name x = [] -> naming_state st = false -> sim (mret st) c t (goto st x) at_state.
Proof.
  intros Hr Hn Hs. apply sim_ret. split; [by apply rel_state|]. split; [done|]. by split.
Qed.

(** *** Characters *)

(** A change of the text of the words. *)
Lemma rel_same x y c t c' t' :
  rel x c t -> same c c' -> s_vars y = s_vars x -> s_line y = s_line x -> s_err y = s_err x ->
  held (vs_list (s_vars x)) (flat (s_words y) ++ s_text y ++ s_name y) c' t' ->
  Forall (fun s => is_str s) (s_words y) -> is_str (s_text y) -> is_str (s_name y) ->
  (s_name y <> [] -> var c' = asep c' + zlen (flat (s_words y) ++ s_text y)) -> rel y c' t'.
Proof.
  intros Hr Hsm Hv Hl He Hd Hws Ht Hn Hvar. pose proof Hr as [_ _ _ _ _ Hcu Hli Her].
  split; [by rewrite Hv|done..| | |]; rewrite ?Hv, ?Hl, ?He, Hsm; done.
Qed.

Lemma put_sim {B Q'} ch (K : M Q') x c t (p : tree B) Q :
  rel x c t -> s_name x = [] -> 0 < ch < 256 ->
  (forall c1 t1, rel (put ch x) c1 t1 -> sim K c1 t1 p Q) -> sim (push_char ch;; K) c t p Q.
Proof.
  intros Hr Hn Hch HK0. pose proof Hr as [Hd Hws Ht _ _ _ _ _]. rewrite Hn, app_nil_r in Hd.
  apply sim_silent. eapply push_char_wp; [done|exact Hd|lia|by apply oom_follows|].
  intros c1 t1 Hd1 Hsm Hvis. split; [done|]. apply HK0. rewrite <- app_assoc in Hd1.
  apply (rel_same x (put ch x) c t c1 t1); [done..| |done| |by cbn; rewrite Hn|by cbn; rewrite Hn].
  - cbn. by rewrite Hn, app_nil_r.
  - cbn. apply Forall_app. split; [done|]. constructor; [lia|constructor].
Qed.

Lemma end_sim {B Q'} (K : M Q') x c t (p : tree B) Q :
  rel x c t -> s_name x = [] ->
  (forall c1 t1, rel (end_word x) c1 t1 -> sim K c1 t1 p Q) -> sim (push_end;; K) c t p Q.
Proof.
  intros Hr Hn HK0. pose proof Hr as [Hd Hws Ht _ _ _ _ _]. rewrite Hn, app_nil_r in Hd.
  apply sim_silent. unfold push_end. eapply push_char_wp; [done|exact Hd|lia|by apply oom_follows|].
  intros c1 t1 Hd1 Hsm Hvis. split; [done|]. apply HK0.
  apply (rel_same x (end_word x) c t c1 t1); [done..| | |constructor|by cbn; rewrite Hn|by cbn; rewrite Hn].
  - cbn. by rewrite flat_snoc, Hn, app_nil_r, app_assoc.
  - cbn. apply Forall_app. split; [done|]. by constructor.
Qed.

(** The first character of a name, and the others. *)
Lemma name_first_sim {B Q'} ch (K : M Q') x c t (p : tree B) Q :
  rel x c t -> s_name x = [] -> 0 < ch < 256 ->
  (forall c1 t1, rel (name_char ch x) c1 t1 -> sim K c1 t1 p Q) -> sim (push_var ch;; K) c t p Q.
Proof.
  intros Hr Hn Hch HK0. pose proof Hr as [Hd Hws Ht _ _ _ _ _]. rewrite Hn, app_nil_r in Hd.
  assert (held (vs_list (s_vars x)) (flat (s_words x) ++ s_text x) (c <| var := hptr c |>) t) as Hd'.
  { destruct Hd as [[[] ? ? ? ?] ? ?]. by split; [split; [split|..]|..]. }
  apply sim_silent. unfold push_var. do 2 xwp_step. eapply push_char_wp; [done|exact Hd'|lia| |].
  { intros c' t' He Hl. by apply (oom_follows p c t). }
  intros c1 t1 Hd1 Hsm Hvis. split; [done|]. apply HK0. rewrite <- app_assoc in Hd1.
  assert (rel x (c <| var := hptr c |>) t) as Hr'.
  { destruct Hr. split; try done; by rewrite Hn, ?app_nil_r. }
  apply (rel_same x (name_char ch x) _ t c1 t1 Hr' Hsm); [done..| |done|done| |].
  - cbn. by rewrite Hn.
  - cbn. rewrite Hn. constructor; [lia|constructor].
  - intros _. rewrite Hsm. cbn. destruct Hd as [_ _ [_ Hp]]. exact Hp.
Qed.

Lemma name_more_sim {B Q'} ch (K : M Q') x c t (p : tree B) Q :
  rel x c t -> s_name x <> [] -> 0 < ch < 256 ->
  (forall c1 t1, rel (name_char ch x) c1 t1 -> sim K c1 t1 p Q) -> sim (push_char ch;; K) c t p Q.
Proof.
  intros Hr Hn Hch HK0. pose proof Hr as [Hd Hws Ht Hnm Hvar _ _ _].
  apply sim_silent. eapply push_char_wp; [done|exact Hd|lia|by apply oom_follows|].
  intros c1 t1 Hd1 Hsm Hvis. split; [done|]. apply HK0. rewrite <- !app_assoc in Hd1.
  apply (rel_same x (name_char ch x) c t c1 t1); [done..| |].
  - cbn. apply Forall_app. split; [done|]. constructor; [lia|constructor].
  - intros _. rewrite Hsm. cbn. by apply Hvar.
Qed.

Lemma replace_sim x c t :
  rel x c t -> s_name x <> [] ->
  sim subst_var c t (replace w x) (fun _ y c' t' => rel y c' t' /\ s_name y = []).
Proof.
  intros Hr Hn. pose proof Hr as [Hd Hws Ht Hnm Hvar _ Hli Her]. rewrite app_assoc in Hd. unfold replace, sim.
  eapply (subst_var_wp base m0 w Hw (vs_list (s_vars x)) _ _ c t); [exact Hd|done|done|by apply Hvar|by apply oom_follows| |].
  - intros Hv. unfold fail. rewrite Hv, <- Hli, <- Her. by apply fails_follows.
  - intros s c1 t1 Hv Hs Hd1 Hsm Hvis. rewrite Hv. eexists. rewrite Hvis. split; [constructor|]. split; [|done].
    rewrite <- app_assoc in Hd1.
    apply (rel_same x (x <| s_text := s_text x ++ s |> <| s_name := [] |>) c t c1 t1); [done..| |done| |constructor|done].
    + cbn. by rewrite app_nil_r.
    + cbn. by apply Forall_app.
Qed.

Lemma replace_special_sim ch x c t :
  rel x c t -> s_name x = [] ->
  sim (subst_special ch) c t (replace_special w ch x) (fun _ y c' t' => rel y c' t' /\ s_name y = []).
Proof.
  intros Hr Hn. pose proof Hr as [Hd Hws Ht Hnm _ _ Hli Her]. rewrite Hn, app_nil_r in Hd. unfold replace_special, sim.
  assert (forall s c1 t1, is_str s -> held (vs_list (s_vars x)) ((flat (s_words x) ++ s_text x) ++ s) c1 t1 -> same c c1 ->
    rel (x <| s_text := s_text x ++ s |>) c1 t1) as Hput.
  { intros s c1 t1 Hs Hd1 Hsm. rewrite <- app_assoc in Hd1.
    apply (rel_same x (x <| s_text := s_text x ++ s |>) c t c1 t1); [done..| |done| |done|by cbn; rewrite Hn].
    - cbn. by rewrite Hn, app_nil_r.
    - cbn. by apply Forall_app. }
  assert (forall err arg v, visible t = v -> @fails (fun _ t' => follows (fail x err arg 0 : tree script) v (visible t') None) c t err arg 0) as Hfail.
  { intros err arg v Hvis. unfold fail. rewrite <- Hli, <- Her. by apply fails_follows. }
  destruct (Z.eqb_spec ch 36) as [->|Hne].
  - eapply (special_wp base m0 w (vs_list (s_vars x)) (flat (s_words x) ++ s_text x) c t 36); [exact Hd|by apply oom_follows|lia| |done|].
    + intros r _ c' t' He Hl Hvis f r1 r2. rewrite visible_app, Hvis, visible_snoc.
      apply follows_call with r, follows_oom. by left.
    + intros r c1 t1 _ Hd1 Hsm Hvis. eexists. rewrite Hvis, visible_snoc. split; [by eapply follows_call, follows_ret|]. cbn. split; [|done].
      apply (Hput (take 32 (dec_signed (s32 (ret r))))); [apply Forall_take, dec_signed_str|done|done].
  - destruct (decide (48 <= ch <= 57)) as [Hr1|Hr1].
    + rewrite !(proj2 (Z.leb_le _ _)) by lia. cbn [andb].
      eapply (param_wp base m0 w Hw (vs_list (s_vars x)) (flat (s_words x) ++ s_text x)); [exact Hd|by apply oom_follows|done| |].
      * intros Hp. rewrite Hp. by apply Hfail.
      * intros s c1 t1 Hp Hs Hd1 Hsm Hvis. rewrite Hp. eexists. rewrite Hvis. split; [constructor|]. split; [by apply Hput|done].
    + replace ((48 <=? ch) && (ch <=? 57)) with false by (destruct (Z.leb_spec 48 ch), (Z.leb_spec ch 57); lia).
      eapply (special_wp base m0 w (vs_list (s_vars x)) (flat (s_words x) ++ s_text x) c t ch); [exact Hd|by apply oom_follows|done|by intros r ->|by intros _; apply Hfail|by intros r c1 t1 ->].
Qed.

(** *** Commands *)

(** What is left of the state when a command is done. *)
Record left (x : script) (c : sh) (t : trace mcall) : Prop := {
  lf_layout : layout c t;
  lf_vars : vars w (vs_list (s_vars x)) c;
  lf_custom : (0 <=? customenvp c) = vs_custom (s_vars x);
  lf_line : line c = s_line x;
  lf_err : errfd c = s_err x }.

(** A command at its first argument. *)
Record called (x : script) (ss : list (list Z)) (c : sh) (t : trace mcall) : Prop := {
  cd_arg : exists av, at_arg base m0 w (vs_list (s_vars x)) ss av 1 c t;
  cd_left : left x c t }.

Definition does (m : M unit) (f : script -> list (list Z) -> tree script) : Prop :=
  forall x w0 args c t, called x (w0 :: args) c t -> s_name x = [] ->
  sim m c t (f x args) (fun _ y c' t' => left y c' t' /\ s_name y = []).

Lemma does_vars m f : (forall F E, implements base m0 w (F := F) (E := E) m f) -> does m (on_vars f).
Proof.
  intros Hm x w0 args c t [[av Ha] [Hl Hv Hc Hli He]] Hn. unfold sim, on_vars. destruct (s_vars x) as [l cu] eqn:Hx. cbn in *.
  apply (Hm _ _ l w0 args av); [done|by apply oom_follows|..]; rewrite Hc.
  - intros e arg Hr. rewrite Hr. unfold fail. rewrite <- Hli, <- He. by apply fails_follows.
  - intros v c' t' Hr Hl' Hv' Hc' [He' Hli'] Hvis. rewrite Hr, Hvis. eexists. split; [constructor|]. split; [|done].
    split; [done|done|done|cbn; congruence|cbn; congruence].
Qed.

Lemma brk_visible t c r : (match c with Brk _ => False | _ => True end) -> visible (t ++ [(c, r)]) = visible t ++ [(c, r)].
Proof. rewrite visible_snoc. by destruct c. Qed.

Lemma sim_call_kern {A B} cl (f : reply -> M A) c t (k : reply -> tree B) Q :
  (match cl with Brk _ => False | _ => True end) ->
  sim (f (kern t cl)) c (t ++ [(cl, kern t cl)]) (k (kern t cl)) Q -> sim (r ← xcall cl; f r) c t (Call cl k) Q.
Proof.
  intros Hcl Hf. unfold sim, xwpf, mbind, xprog_bind, xcall in *. cbv zeta.
  rewrite (brk_visible t cl _ Hcl) in Hf. destruct (f _ c _) as [[[[x|] c'] t']|]; [|by eapply follows_call|done].
  destruct Hf as (b & Hb & HQ). exists b. split; [by eapply follows_call|done].
Qed.

Lemma sim_call {A B} cl (f : reply -> M A) c t (k : reply -> tree B) Q :
  (match cl with Brk _ => False | _ => True end) ->
  (forall r, sim (f r) c (t ++ [(cl, r)]) (k r) Q) -> sim (r ← xcall cl; f r) c t (Call cl k) Q.
Proof. intros Hcl Hf. by apply sim_call_kern. Qed.

(** A line is written. *)
Lemma write_sim buf fd c t :
  sim (writeall Write fd buf) c t (write_line (length buf) fd buf 0) (fun r b c' t' => b = r /\ c' = c /\ brk_now t' = brk_now t).
Proof.
  unfold writeall. cut (forall n buf last t, (length buf <= n)%nat ->
    sim (writeall_loop Write n fd buf last) c t (write_line n fd buf last) (fun r b c' t' => b = r /\ c' = c /\ brk_now t' = brk_now t)).
  { intros H. by apply H. }
  clear buf t. induction n as [|n IH]; intros buf last t Hn; (destruct buf as [|b buf]; [by apply sim_ret|]); [simpl in Hn; lia|].
  cbn [writeall_loop write_line]. change (0 <? zlen (b :: buf)) with true. cbv iota.
  apply sim_call; [done|]. intros r. cbv zeta. set (k := if s64 (ret r) =? 0 then -32 else s64 (ret r)).
  assert (k <> 0) as Hk0 by (unfold k; destruct (Z.eqb_spec (s64 (ret r)) 0); lia).
  destruct (Z.ltb_spec k 0) as [Hk|Hk].
  - apply sim_ret. by rewrite brk_now_snoc.
  - eapply sim_mono; [apply IH; rewrite length_drop; simpl in *; lia|]. intros x y c' t' (Hx & Hc & Ht).
    split; [done|]. split; [done|]. by rewrite Ht, brk_now_snoc.
Qed.

Lemma left_brk x c t t' : left x c t -> brk_now t' = brk_now t -> left x c t'.
Proof. intros [[? ? Hb ? ?] ? ? ? ?] Ht. split; [split; [done|done|by rewrite Ht|done|done]|done..]. Qed.

Lemma left_fatal {A B} err x c t (R : A -> B -> sh -> trace mcall -> Prop) :
  left x c t -> sim (fatal err 0) c t (wrong x err) R.
Proof.
  intros Hr. unfold wrong, fail. rewrite <- (lf_line _ _ _ Hr), <- (lf_err _ _ _ Hr).
  eapply fatal_wp; [by eapply layout_readable, lf_layout|done|by apply ends_follows].
Qed.

Lemma left_argp x c t i : left x c t -> left x (c <| argp := i |>) t.
Proof. intros [[[] ? ? ? ?] ? ? ? ?]. by split; [split; [split|..]|..]. Qed.

(** A command with one argument, where it is the word [s] at [p]. *)
Lemma does_one (K : ptr -> M unit) (k : script -> list Z -> tree script) :
  (forall x w0 av p s c t, at_arg base m0 w (vs_list (s_vars x)) [w0; s] av 2 c t -> left x c t -> s_name x = [] ->
     cstr_at (ram c) p s -> asep c <= p -> p + zlen s + 1 <= asep c + zlen (flat [w0; s]) ->
     sim (K p) c t (k x s) (fun _ y c' t' => left y c' t' /\ s_name y = [])) ->
  does (v ← shift; no_more_arguments;; K v) (fun x => one x (k x)).
Proof.
  intros HK0 x w0 args c t [[av Ha] Hlf] Hn. pose proof Hlf as [_ _ _ Hli He].
  assert (forall err, @fails (fun _ t' => follows (wrong x err : tree script) (visible t) (visible t') None) c t (Some err) None 0) as Hfail.
  { intros err. unfold wrong, fail. rewrite <- Hli, <- He. by apply fails_follows. }
  unfold sim.
  apply (args1_wp base m0 w (vs_list (s_vars x)) w0 args av c t (fun _ => inl (Vstate [] false)));
    [done|intros e y Hr; destruct args as [|? [|? ?]]; [injection Hr as <- <-; apply Hfail|done|injection Hr as <- <-; apply Hfail]|].
  intros p s c1 -> Ha1 Heq Hs Hlo Hhi. apply (HK0 x w0 av p s c1 t); [done| |done..]. rewrite Heq. by apply left_argp.
Qed.

Lemma does_print fd : does (MshCmd.print fd) (print fd).
Proof.
  apply does_one. intros x w0 av p s c1 t Ha1 Hlf1 Hn Hs Hlo Hhi.
  pose proof (lf_layout _ _ _ Hlf1) as Hl. pose proof (ly_order _ _ _ _ _ Hl) as (? & ? & ?).
  destruct (brk_window (base := base)) as [Hw1 Hw2]. unfold LIM in *. pose proof Ha1 as [[_ _ _ _ _ Hbelow Habove] _ _ _].
  apply sim_silent. eapply xwp_rd; [by apply strlen_spec|]. split; [done|]. cbv zeta. rewrite s32_small by lia.
  pose proof Hs as [Hb _]. apply bytes_at_app in Hb as [Hb1 Hb2]. apply bytes_at_cons in Hb2 as [Hz _].
  apply sim_silent. eapply xwp_wr; [by apply st8_mapped|]. rewrite (u8_byte 10) by lia. split; [done|].
  apply sim_silent. eapply xwp_rd.
  { apply (proj2 (peek_Some _ _ _ (s ++ [10]))). split; [rewrite length_app; simpl; lia|]. cbn.
    apply bytes_at_app. split; [|apply bytes_at_cons; split; [apply lookup_insert_eq|done]].
    apply bytes_at_insert_apart; [lia|done]. }
  split; [done|]. eapply sim_bind; [apply write_sim|]. intros r b c2 t2 (-> & -> & Hbrk).
  apply sim_silent. eapply xwp_wr; [apply st8_mapped; cbn; by rewrite lookup_insert_eq|]. rewrite (u8_byte 0) by lia. split; [done|].
  cbn -[text]. rewrite restore_zero by done. replace (c1 <| ram := <[p + zlen s := 10]> (ram c1) |> <| ram := ram c1 |>) with c1 by (by destruct c1).
  apply (left_brk _ _ _ t2) in Hlf1; [|done]. unfold check. destruct (s32 r <? 0).
  - unfold fail. rewrite <- (lf_line _ _ _ Hlf1), <- (lf_err _ _ _ Hlf1).
    eapply error_wp; [by eapply layout_readable, lf_layout|done|by apply ends_follows].
  - by apply sim_ret.
Qed.

Lemma sim_exit {A B} c t (R : A -> B -> sh -> trace mcall -> Prop) : sim xexit c t End R.
Proof. apply xwp_exit. constructor. Qed.

Lemma does_die : does cmd_die (fun x args => print 2 x args;; Call (Exit 255) (fun _ => End)).
Proof.
  intros x w0 args c t Hc Hn. unfold cmd_die. eapply sim_bind; [exact (does_print 2 x w0 args c t Hc Hn)|]. intros _ y c1 t1 _.
  unfold exit_fail. apply sim_call; [done|]. intros r. apply sim_exit.
Qed.

(** *** Calls that fail with a message *)

Lemma failed_sim {A B} msg p arg r x c t (R : A -> B -> sh -> trace mcall -> Prop) :
  left x c t -> ostr (ram c) p = Some arg -> sim (error msg p r) c t (fail (A := B) x msg arg r) R.
Proof.
  intros Hlf Hp. unfold fail. rewrite <- (lf_line _ _ _ Hlf), <- (lf_err _ _ _ Hlf).
  eapply error_wp; [by eapply layout_readable, lf_layout|exact Hp|by apply ends_follows].
Qed.

Lemma left_call x c t cl r : (match cl with Brk _ => False | _ => True end) -> left x c t -> left x c (t ++ [(cl, r)]).
Proof. intros Hcl Hlf. eapply left_brk; [exact Hlf|]. rewrite brk_now_snoc. by destruct cl. Qed.

(** An error ends what follows it, too. *)
Lemma failed_then {A A'} msg p arg r (K : A' -> M A) x c t (Q : A -> script -> sh -> trace mcall -> Prop) :
  left x c t -> ostr (ram c) p = Some arg -> sim (error msg p r ≫= K) c t (fail x msg arg r) Q.
Proof.
  intros Hlf Hp. change (fail (A := script) x msg arg r) with (y ← fail (A := script) x msg arg r; Ret y).
  eapply sim_bind; [by apply (failed_sim _ _ _ _ _ _ _ (fun _ _ _ _ => False))|]. by intros ???? [].
Qed.

Lemma attempt_sim {A} msg p arg cl (K : Z -> M A) (k : Z -> tree script) x c t (Q : A -> script -> sh -> trace mcall -> Prop) :
  (match cl with Brk _ => False | _ => True end) -> left x c t -> ostr (ram c) p = Some arg ->
  (forall r t', left x c t' -> sim (K r) c t' (k r) Q) ->
  sim (r ← do cl; (check msg p r;; K r)) c t (attempt x msg arg cl k) Q.
Proof.
  intros Hcl Hlf Hp HK0. unfold do, attempt.
  change (sim (r ← xcall cl; (check msg p (s32 (ret r));; K (s32 (ret r)))) c t
    (Call cl (fun r => if s32 (ret r) <? 0 then fail x msg arg (s32 (ret r)) else k (s32 (ret r)))) Q).
  apply sim_call; [done|]. intros r. pose proof (left_call _ _ _ _ r Hcl Hlf) as Hlf'. unfold check. destruct (s32 (ret r) <? 0).
  - by apply failed_then.
  - apply sim_silent. xwp_step. split; [done|]. by apply HK0.
Qed.

(** The same at the end of a command. *)
Lemma attempt_last msg p arg cl x c t :
  (match cl with Brk _ => False | _ => True end) -> left x c t -> s_name x = [] -> ostr (ram c) p = Some arg ->
  sim (checked msg p cl) c t (attempt x msg arg cl (fun _ => Ret x)) (fun _ y c' t' => left y c' t' /\ s_name y = []).
Proof.
  intros Hcl Hlf Hn Hp. unfold checked, do, attempt.
  change (sim (r ← xcall cl; check msg p (s32 (ret r))) c t
    (Call cl (fun r => if s32 (ret r) <? 0 then fail x msg arg (s32 (ret r)) else Ret x)) (fun _ y c' t' => left y c' t' /\ s_name y = [])).
  apply sim_call; [done|]. intros r. pose proof (left_call _ _ _ _ r Hcl Hlf) as Hlf'. unfold check. destruct (s32 (ret r) <? 0).
  - by apply failed_sim.
  - by apply sim_ret.
Qed.

Lemma arg_ostr x c t p s : left x c t -> asep c <= p -> cstr_at (ram c) p s -> ostr (ram c) p = Some (Some s).
Proof.
  intros Hlf Hlo Hs. pose proof (ly_order _ _ _ _ _ (lf_layout _ _ _ Hlf)) as (? & ? & ?).
  destruct (brk_window (base := base)). apply ostr_str; [lia|done].
Qed.

Lemma does_cd : does cmd_cd cd.
Proof.
  apply does_one. intros x w0 av p s c t Ha Hlf Hn Hs Hlo Hhi. eapply sim_silent, (xwp_rd _ s); [by apply cstr_spec|]. split; [done|].
  apply attempt_last; [done..|]. by eapply arg_ostr.
Qed.

Lemma does_chroot : does cmd_chroot chroot.
Proof.
  apply does_one. intros x w0 av p s c t Ha Hlf Hn Hs Hlo Hhi. eapply sim_silent, (xwp_rd _ s); [by apply cstr_spec|]. split; [done|].
  by apply attempt_last.
Qed.

Lemma does_unlink : does cmd_unlink unlink.
Proof.
  apply does_one. intros x w0 av p s c t Ha Hlf Hn Hs Hlo Hhi. eapply sim_silent, (xwp_rd _ s); [by apply cstr_spec|]. split; [done|].
  change (sim (r ← xcall (Unlink s); (if 0 <=? s32 (ret r) then mret tt else if s32 (ret r) =? -2 then mret tt
      else error (Some (text "unlink")) p (s32 (ret r)))) c t
    (Call (Unlink s) (fun r => if (0 <=? s32 (ret r)) || (s32 (ret r) =? -2) then Ret x else fail x (Some (text "unlink")) (Some s) (s32 (ret r))))
    (fun _ y c' t' => left y c' t' /\ s_name y = [])).
  apply sim_call; [done|]. intros r. pose proof (left_call _ _ _ (Unlink s) r I Hlf) as Hlf'.
  destruct (0 <=? s32 (ret r)); [by apply sim_ret|]. destruct (s32 (ret r) =? -2); [by apply sim_ret|].
  apply failed_sim; [done|]. by eapply arg_ostr.
Qed.

(** A file becomes a descriptor. *)
Lemma open_sim tofd p s fl md x c t :
  left x c t -> s_name x = [] -> cstr_at (ram c) p s -> asep c <= p ->
  sim (open_onto_fd tofd p fl md) c t (open_as tofd s fl md x) (fun _ y c' t' => left y c' t' /\ s_name y = [] /\ y = x /\ c' = c).
Proof.
  intros Hlf Hn Hs Hlo. assert (ostr (ram c) p = Some (Some s)) as Ho by (by eapply arg_ostr).
  unfold open_onto_fd, open_as. eapply sim_silent, (xwp_rd _ s); [by apply cstr_spec|]. split; [done|].
  apply attempt_sim; [done..|]. intros fd t1 Hlf1. destruct (fd =? tofd); [by apply sim_ret|].
  change (sim (r ← do (Dup2 fd tofd); (check None p r;; (_ ← do (Close fd); mret tt))) c t1
    (attempt x None (Some s) (Dup2 fd tofd) (fun _ => Call (Close fd) (fun _ => Ret x)))
    (fun _ y c' t' => left y c' t' /\ s_name y = [] /\ y = x /\ c' = c)).
  apply attempt_sim; [done..|]. intros r t2 Hlf2.
  change (sim (_ ← xcall (Close fd); mret tt) c t2 (Call (Close fd) (fun _ => Ret x))
    (fun _ y c' t' => left y c' t' /\ s_name y = [] /\ y = x /\ c' = c)).
  apply sim_call; [done|]. intros r'. apply sim_ret. split; [by apply left_call|done].
Qed.

Lemma does_stdin : does cmd_stdin stdin.
Proof.
  apply does_one. intros x w0 av p s c t Ha Hlf Hn Hs Hlo Hhi. eapply sim_mono; [by eapply open_sim|].
  by intros _ y c' t' (Hy & Hny & _).
Qed.

Lemma does_reopen : does cmd_reopen reopen.
Proof.
  apply does_one. intros x w0 av p s c t Ha Hlf Hn Hs Hlo Hhi.
  eapply sim_bind; [by eapply open_sim|]. intros _ y c1 t1 (Hy & Hny & -> & ->).
  eapply sim_bind; [by eapply open_sim|]. intros _ y c2 t2 (Hy2 & Hny2 & -> & ->). by apply attempt_last.
Qed.

(** The words from number [i] on, as an array of strings. *)
Lemma ready_strv l ss av c t i m :
  ready base m0 w l ss av c t -> agree (ram c) m 0 (hptr c) -> (i <= length ss)%nat ->
  strv_at m (av + 8 * Z.of_nat i) (drop i ss).
Proof.
  intros Hr Hag Hi. pose proof Hr as [Hl Hv Hs Hb Ha Hlo Hhi]. pose proof (ly_order _ _ _ _ _ Hl) as (? & ? & ?).
  destruct (brk_window (base := base)) as [Hw1 Hw2]. unfold LIM in *.
  exists (drop i (starts (asep c) ss)). split.
  - assert (bytes_at m av ((starts (asep c) ss ++ [0]) ≫= le_bytes 8)) as Ha'.
    { eapply bytes_at_agree; [|exact Ha]. eapply agree_sub; [exact Hag|lia|].
      rewrite length_bind8, length_app, length_starts. simpl. lia. }
    rewrite <- (take_drop i (starts (asep c) ss)), <- app_assoc, bind_app in Ha'. apply bytes_at_app in Ha' as [_ Ha'].
    rewrite length_bind8, length_take, length_starts in Ha'.
    by replace (8 * Z.of_nat (i `min` length ss)) with (8 * Z.of_nat i) in Ha' by lia.
  - apply Forall2_same_length_lookup_2; [by rewrite !length_drop, length_starts|].
    intros j p s Hp Hsj. rewrite lookup_drop in Hp. rewrite lookup_drop in Hsj.
    destruct (ready_word base m0 w l ss av c t (i + j) s Hr Hsj) as (q & Hq & Hc & Hpos & Hlo' & Hhi').
    rewrite (starts_lookup _ _ _ _ Hsj) in Hp. injection Hp as <-. rewrite <- Hpos. split; [lia|].
    eapply cstr_at_agree; [|exact Hc]. eapply agree_sub; [exact Hag|lia|lia].
Qed.

Lemma sim_ld {A A' B} (f : mem -> option A) x (K : A -> M A') c t (p : tree B) Q :
  f (ram c) = Some x -> sim (K x) c t p Q -> sim (ld ram f ≫= K) c t p Q.
Proof. unfold sim, xwpf, ld, mbind, xprog_bind. intros Hf. rewrite Hf. done. Qed.

Lemma execve_sim path av envp args env c t :
  strs (ram c) av = Some args -> strs (ram c) envp = Some env ->
  sim (sys_execve Execve ram path av envp) c t (Call (Execve path args env) Ret) (fun z r c' _ => z = s64 (ret r) /\ c' = c).
Proof.
  intros Ha He. unfold sys_execve. eapply sim_ld; [exact Ha|]. eapply sim_ld; [exact He|].
  apply sim_call; [done|]. intros r. by apply sim_ret.
Qed.

Lemma does_exec : does cmd_exec (exec w).
Proof.
  intros x w0 args c t [[av Ha] Hlf] Hn. pose proof Ha as [Hr Hac Hav [Hap _]]. unfold cmd_exec.
  apply sim_silent. unfold need_some_arguments. do 4 xwp_step. rewrite Hac, Hap. apply xwp_if; intros Hle; zbool.
  { destruct args as [|a args]; [|simpl in Hle; lia]. by apply (xwp_mono _ _ _ _ _ (left_fatal _ x c t (fun _ _ _ _ => False) Hlf)); intros ??? (?&?&?). }
  destruct args as [|path args]; [simpl in Hle; lia|]. xwp_step. split; [done|].
  apply sim_silent. unfold argsleft. do 5 xwp_step. split; [done|]. rewrite Hap, Hav.
  pose proof Hlf as [Hl Hv Hc Hli He].
  apply sim_silent. eapply (prepenvp_wp base m0 w Hw); [done|done|by apply oom_follows|].
  intros envp c1 t1 Hl1 Hv1 Hsm Hag Hvis Henv _. split; [done|].
  pose proof (ready_strv _ _ _ _ _ 1 (ram c1) Hr Hag ltac:(simpl; lia)) as Hargs. cbn [drop] in Hargs.
  pose proof (strs_spec _ _ _ Hargs) as Hstrs. destruct Hargs as (ps & Hps & Hss).
  apply Forall2_cons_inv_r in Hss as (p & ps' & [Hp Hstr] & Hrest & ->).
  apply sim_silent. apply (xwp_rd _ p).
  { change (av + 8 * 1) with (av + 8 * Z.of_nat 1). rewrite (ld64_spec _ _ p); [f_equal; apply u64_small; lia|].
    cbn [app] in Hps. rewrite bind_cons in Hps. by apply bytes_at_app in Hps as [Hps _]. }
  split; [done|]. apply sim_silent. apply (xwp_rd _ path); [by apply cstr_spec|]. split; [done|].
  change (exec w x (path :: args)) with (r ← Call (Execve path (path :: args)
      (if vs_custom (s_vars x) then env_strings w (vs_list (s_vars x)) else (w_vars w).*2)) Ret;
    fail (A := script) x (Some (text "exec")) (Some path) (s32 (s64 (ret r)))).
  eapply sim_bind.
  { apply (execve_sim path _ _ (path :: args)); [done|]. apply strs_spec in Henv. rewrite Henv. unfold exec_env. rewrite <- Hc.
    destruct (Z.ltb_spec (customenvp c) 0); [by rewrite (proj2 (Z.leb_gt _ _)) by lia|by rewrite (proj2 (Z.leb_le _ _)) by lia]. }
  intros z r c2 t2 [-> ->]. unfold fail.
  assert (line c1 = s_line x /\ errfd c1 = s_err x) as [<- <-] by (by rewrite Hsm).
  eapply error_wp; [by eapply layout_readable|apply ostr_str; [lia|exact Hstr]|by apply ends_follows].
Qed.

(** *** The table *)

Lemma strncmp_l_name cc name rest n :
  is_str cc -> is_str name -> zlen cc < n ->
  exists d, strncmp_l (cc ++ 0 :: rest) (name ++ [0]) n = Some d /\ (d = 0 <-> cc = name).
Proof.
  intros Hcc. revert name n. induction Hcc as [|x cc Hx Hcc IH]; intros name n Hname Hn.
  - destruct Hname as [|y name Hy Hname]; cbn; (eexists; split; [done|]); split; [done|done| |done].
    intros Hd. assert (0 = y) by (apply s8_inj; lia). lia.
  - cbn [app strncmp_l]. destruct Hname as [|y name Hy Hname]; cbn [app]; rewrite (proj2 (Z.eqb_neq x 0)) by lia; cbn [negb]; cbv zeta.
    + rewrite andb_false_r. eexists. split; [done|]. split; [|done].
      intros Hd. assert (x = 0) by (apply s8_inj; lia). lia.
    + simpl length in Hn. rewrite (proj2 (Z.ltb_lt 0 (n - 1))) by lia. cbn [andb]. destruct (Z.eqb_spec x y) as [->|Hxy].
      * destruct (IH name (n - 1) Hname) as (d & Hd & Hz); [lia|]. exists d. split; [done|]. rewrite Hz. split; congruence.
      * eexists. split; [done|]. split; [|congruence]. intros Hd. destruct Hxy. apply s8_inj; lia.
Qed.

(** The names fit in the array of the table. *)
Definition short (name : list Z) : Prop := is_str name /\ zlen name < 12.

Lemma take_repeat {A} (x : A) n k : (n <= k)%nat -> take n (repeat x k) = repeat x n.
Proof. revert k. induction n as [|n IH]; intros [|k] Hk; cbn; [done..|lia|]. by rewrite IH by lia. Qed.

Lemma builtin_find tbl name :
  is_str name -> Forall (fun x => short x.1) tbl ->
  builtin_loop tbl name = Some (snd <$> List.find (fun x => bool_decide (x.1 = name)) tbl).
Proof.
  intros Hname. induction 1 as [|[cc f] tbl [Hcc Hlen] Htbl IH]; [done|]. cbn [builtin_loop List.find fst] in *.
  assert (padded 12 cc = cc ++ 0 :: repeat 0 (11 - length cc)) as ->.
  { unfold padded. rewrite take_app, take_ge, take_repeat by lia. by replace (12 - length cc)%nat with (S (11 - length cc)) by lia. }
  destruct (strncmp_l_name cc name (repeat 0 (11 - length cc)) 12 Hcc Hname) as (d & Hd & Hz); [lia|].
  rewrite Hd. cbn [mbind option_bind]. case_bool_decide as Hb.
  - by rewrite (proj2 (Z.eqb_eq d 0) (proj2 Hz Hb)).
  - rewrite (proj2 (Z.eqb_neq d 0)); [done|]. intros Hd0. by apply Hb, Hz.
Qed.

Lemma sim_modify {A B} (m : M A) (f : sh -> sh) c t (p : tree B) (R : A -> B -> sh -> trace mcall -> Prop) (Q : unit -> B -> sh -> trace mcall -> Prop) :
  sim m c t p R -> (forall x b c' t', R x b c' t' -> Q tt b (f c') t') -> sim (m;; xmodify f) c t p Q.
Proof.
  intros Hm HQ. unfold sim, xwpf, mbind, xprog_bind, xmodify in *. destruct (m c t) as [[[[x|] c'] t']|]; [|done|done].
  destruct Hm as (b & Hb & HR1). exists b. split; [done|by eapply HQ].
Qed.

Lemma left_args x c t n i a : left x c t -> left x (c <| argc := n |> <| argp := i |> <| argv := a |>) t.
Proof. intros [[[] ? ? ? ?] ? ? ? ?]. by split; [split; [split|..]|..]. Qed.

(** The variables that another command may have left. *)
Lemma settled_left c t : settled base m0 w c t -> exists y, left y c t /\ s_name y = [].
Proof.
  intros (l & Hl & Hv). exists (Script NIL (line c) (errfd c) (Vstate l (0 <=? customenvp c)) [] [] []). by split; [split|].
Qed.

Definition found (tbl : list (list Z * M unit)) (name : list Z) : option (list Z * M unit) :=
  List.find (fun x => bool_decide (x.1 = name)) tbl.

(** *** The table of msh *)

Lemma short_ok name : forallb (fun b => (0 <? b) && (b <? 256)) name && (zlen name <? 12) = true -> short name.
Proof.
  intros [H Hl]%andb_true_iff. split; [|by zbool]. apply Forall_forall. intros b Hb. rewrite forallb_forall in H.
  apply list_elem_of_In in Hb. specialize (H b Hb). apply andb_true_iff in H as [H1 H2]. zbool. done.
Qed.

Lemma commands_names : (commands fuel).*1 = names.
Proof. unfold commands, names. cbn [fmap list_fmap fst]. reflexivity. Qed.

Lemma names_short : Forall short (names).
Proof.
  apply Forall_forall. intros name Hin. apply short_ok.
  assert (forallb (fun name => forallb (fun b => (0 <? b) && (b <? 256)) name && (zlen name <? 12)) (names) = true) as H by reflexivity.
  rewrite forallb_forall in H. by apply H, list_elem_of_In.
Qed.

Lemma allowed_listed (T : list (list Z * M unit)) x : x ∈ List.filter allowed T <-> x ∈ T /\ allowed x = true.
Proof. by rewrite !list_elem_of_In, List.filter_In. Qed.

Lemma safe_commands_listed x : x ∈ (safe_commands fuel : list (list Z * M unit)) -> x ∈ commands fuel.
Proof. unfold safe_commands. by intros [Hin _]%allowed_listed. Qed.

Lemma safe_commands_names x : x ∈ (safe_commands fuel : list (list Z * M unit)) -> x.1 ∈ names.
Proof. intros Hin%safe_commands_listed. rewrite <- commands_names. by apply (list_elem_of_fmap_2 fst). Qed.

(** The commands that are described. *)
Definition described : list (list Z) :=
  [text "set"; text "setenv"; text "getenv"; text "delenv"; text "clearenv"; text "echo"; text "warn"; text "die"; text "exec";
   text "cd"; text "chroot"; text "unlink"; text "stdin"; text "reopen"].

Lemma command_described name f : command_of w name = Some f -> name ∈ described.
Proof.
  unfold command_of, a_command, described. intros Hf. rewrite !elem_of_cons. repeat case_decide; try discriminate Hf; tauto.
Qed.

Lemma described_listed name : name ∈ described -> exists m, (name, m) ∈ (safe_commands fuel : list (list Z * M unit)).
Proof.
  intros Hin. assert (forallb (fun n => existsb (fun y => bool_decide (n = y)) (names) && negb (existsb (fun y => bool_decide (n = y)) excluded)) described = true) as H.
  { vm_compute. reflexivity. }
  rewrite forallb_forall in H. specialize (H name). apply list_elem_of_In in Hin. apply H, andb_true_iff in Hin as [Hn He]. clear H.
  apply existsb_exists in Hn as (y & Hy & ->%bool_decide_eq_true).
  rewrite <- commands_names in Hy. apply list_elem_of_In, list_elem_of_fmap in Hy as ([n m] & -> & Hm).
  exists m. unfold safe_commands. apply allowed_listed. split; [done|exact He].
Qed.

Lemma commands_do : Forall (fun x => match command_of w x.1 with Some f => does x.2 f | None => True end) (commands fuel).
Proof.
  unfold commands. repeat (apply List.Forall_cons; [try exact I|]); [..|apply List.Forall_nil].
  - change (command_of w _) with (Some cd). apply does_cd.
  - change (command_of w _) with (Some chroot). apply does_chroot.
  - change (command_of w _) with (Some (on_vars a_clearenv)). apply does_vars. intros F E. by apply cmd_clearenv_wp.
  - change (command_of w _) with (Some (on_vars (a_delenv w))). apply does_vars. intros F E. by apply cmd_delenv_wp.
  - change (command_of w _) with (Some (fun x args => print 2 x args;; Call (Exit 255) (fun _ => @End script))). apply does_die.
  - change (command_of w _) with (Some (print 1)). apply does_print.
  - change (command_of w _) with (Some (exec w)). apply does_exec.
  - change (command_of w _) with (Some (on_vars (a_getenv w))). apply does_vars. intros F E. by apply cmd_getenv_wp.
  - change (command_of w _) with (Some reopen). apply does_reopen.
  - change (command_of w _) with (Some (on_vars (a_set w))). apply does_vars. intros F E. by apply cmd_set_wp.
  - change (command_of w _) with (Some (on_vars (a_setenv w))). apply does_vars. intros F E. by apply cmd_setenv_wp.
  - change (command_of w _) with (Some stdin). apply does_stdin.
  - change (command_of w _) with (Some unlink). apply does_unlink.
  - change (command_of w _) with (Some (print 2)). apply does_print.
Qed.

Lemma find_listed {A} (l : list (list Z * A)) name :
  (exists m, (name, m) ∈ l) -> exists m, List.find (fun x => bool_decide (x.1 = name)) l = Some (name, m).
Proof.
  intros [m Hm]. destruct (List.find _ l) as [[n m']|] eqn:Hf.
  - apply List.find_some in Hf as [_ Hn]. apply bool_decide_eq_true in Hn. simpl in Hn. subst. by exists m'.
  - apply list_elem_of_In in Hm. apply (List.find_none _ _ Hf) in Hm. by rewrite bool_decide_true in Hm.
Qed.

Lemma table_known name f :
  command_of w name = Some f -> exists m, snd <$> found (safe_commands fuel) name = Some m /\ does m f.
Proof.
  intros Hf. destruct (find_listed _ _ (described_listed name (command_described name f Hf))) as [m Hm].
  exists m. unfold found. rewrite Hm. split; [done|]. apply List.find_some in Hm as [Hin _].
  apply list_elem_of_In, safe_commands_listed in Hin.
  pose proof (proj1 (Forall_forall _ _) commands_do _ Hin) as H. cbn [fst snd] in H. by rewrite Hf in H.
Qed.

Section table.
Context (T : list (list Z * M unit)).
#[local] Instance the_table : Builtins := T.
Context (Hsafe : Forall (fun x => safe_cmd base m0 w x.2) T) (Hshort : Forall (fun x => short x.1) T).

Context (Hnames : forall name, is_Some (found T name) -> name ∈ names).
Context (Hknown : forall name f, command_of w name = Some f -> exists m, snd <$> found T name = Some m /\ does m f).

Lemma command_sim x name args av c t :
  ready base m0 w (vs_list (s_vars x)) (name :: args) av c t -> left x c t -> s_name x = [] ->
  sim (command (zlen (name :: args)) av) c t
    (match command_of w name with
     | Some f => f x args
     | None => if decide (name ∈ names) then Other else fail x (Some (text "unknown command")) (Some name) 0
     end) (fun _ y c' t' => left y c' t' /\ s_name y = []).
Proof.
  intros Hr Hlf Hn. unfold command. rewrite (proj2 (Z.leb_gt _ _)) by (simpl; lia).
  apply sim_silent. xwp_step. split; [done|]. set (c1 := c <| argc := _ |> <| argp := 1 |> <| argv := av |>).
  assert (left x c1 t) as Hlf1 by (by apply left_args).
  assert (at_arg base m0 w (vs_list (s_vars x)) (name :: args) av 1 c1 t) as Ha.
  { split; [|done|done|done]. destruct Hr as [[[] ? ? ? ?] ? ? ? ? ? ?]. by split; [split; [split|..]|..]. }
  destruct (ready_word base m0 w _ _ av c1 t 0 name (aa_ready _ _ _ _ _ _ _ _ _ Ha) eq_refl) as (p & Hp & Hc & _ & Hlo & _).
  rewrite Z.mul_0_r, Z.add_0_r in Hp. apply sim_silent. eapply xwp_rd; [exact Hp|]. split; [done|].
  apply sim_silent. unfold builtin. xwp_step. eapply xwp_rd; [by apply cstr_spec|].
  change (builtin_loop builtins name) with (builtin_loop T name). rewrite (builtin_find T name) by (done || by destruct Hc). change (List.find _ T) with (found T name).
  apply xwp_pure; [|done]. intros ? [= <-]. split; [done|].
  destruct (command_of w name) as [f|] eqn:Hf.
  - destruct (Hknown name f Hf) as (m & Hm & Hdoes). rewrite Hm.
    eapply sim_modify; [apply (Hdoes x name args c1 t); [by split; [exists av|]|done]|].
    intros _ y c' t' [Hy Hny]. split; [|done]. replace (c' <| argc := 0 |> <| argv := 0 |>) with (c' <| argc := 0 |> <| argp := argp c' |> <| argv := 0 |>) by (by destruct c').
    by apply left_args.
  - destruct (found T name) as [[cc m]|] eqn:Hfd; cbn [fmap option_fmap option_map snd].
    + rewrite decide_True by (apply Hnames; by rewrite Hfd). apply sim_other. xwp_step.
      assert (safe_cmd base m0 w m) as Hs.
      { apply List.find_some in Hfd as [Hin _]. rewrite Forall_forall in Hsafe. apply (Hsafe (cc, m)). by apply list_elem_of_In. }
      eapply xwp_mono; [by apply (Hs _ _ _ av c1 t Ha)|]. intros [] c2 t2 Hst. xwp_step.
      apply settled_left in Hst as (y & Hy & Hny). exists y. split; [|done].
      replace (c2 <| argc := 0 |> <| argv := 0 |>) with (c2 <| argc := 0 |> <| argp := argp c2 |> <| argv := 0 |>) by (by destruct c2).
      by apply left_args.
    + pose proof (ly_order _ _ _ _ _ (lf_layout _ _ _ Hlf1)). destruct (brk_window (base := base)).
      case_decide; [apply sim_other|unfold fail; rewrite <- (lf_line _ _ _ Hlf1), <- (lf_err _ _ _ Hlf1)];
        (eapply fatal_wp; [by eapply layout_readable, lf_layout|apply ostr_str; [lia|exact Hc]|]); [by intros g r1 r2|by apply ends_follows].
Qed.

Lemma execute_sim x c t :
  rel x c t -> s_name x = [] ->
  sim execute c t (perform w x) (fun _ y c' t' => rel y c' t' /\ s_name y = []).
Proof.
  intros Hr Hn. pose proof Hr as [Hd Hws Ht _ _ Hcu Hli He]. rewrite Hn, app_nil_r in Hd. unfold sim.
  eapply execute_wp; [done|exact Hd|done|by apply is_str_no_nul|by apply oom_follows| |].
  - intros Hnil. exists x. unfold perform. rewrite Hnil. split; [constructor|done].
  - intros av c1 t1 Hne Hrd Hsm Hvis. unfold perform. destruct (s_words x) as [|name args] eqn:Hwds; [done|]. rewrite <- Hvis.
    assert (left x c1 t1) as Hlf.
    { destruct Hrd as [Hl Hv _ _ _ _ _]. split; [done|done|by rewrite Hsm|by rewrite Hsm|by rewrite Hsm]. }
    pose proof (command_sim x name args av c1 t1 Hrd Hlf Hn) as Hs. unfold sim, xwpf in *.
    destruct (command _ av c1 t1) as [[[[[]|] c2] t2]|]; [|by apply follows_bind_none|done].
    destruct Hs as (y & Hy & Hlf2 & Hny). eexists. split; [eapply follows_bind; [exact Hy|constructor]|]. split; [|done].
    destruct Hlf2 as [Hl2 Hv2 Hcu2 Hli2 He2]. pose proof (ly_order _ _ _ _ _ Hl2) as (? & ? & ?). split; try done; cbn.
    + rewrite Hny. split; [|done|split; [done|simpl; lia]]. destruct Hl2 as [[] ? ? ? ?]. split; [by split|simpl; lia|done|done|done].
    + by rewrite Hny.
Qed.

(** *** Characters *)

Lemma put_then st ch x c t :
  rel x c t -> s_name x = [] -> 0 < ch < 256 -> naming_state st = false ->
  sim (push_char ch;; mret st) c t (goto st (put ch x)) at_state.
Proof. intros Hr Hn Hch Hst. eapply put_sim; [done..|]. intros c1 t1 Hr1. by apply sim_goto. Qed.

Lemma esc_then st ch x c t :
  rel x c t -> s_name x = [] -> 0 < ch < 256 -> naming_state st = false ->
  sim (push_esc ch;; mret st) c t (goto st (put (esc ch) x)) at_state.
Proof. intros Hr Hn Hch Hst. by apply (put_then st (esc ch)); [| |apply esc_range|]. Qed.

Lemma end_then st x c t :
  rel x c t -> s_name x = [] -> naming_state st = false -> sim (push_end;; mret st) c t (goto st (end_word x)) at_state.
Proof. intros Hr Hn Hst. eapply end_sim; [done..|]. intros c1 t1 Hr1. by apply sim_goto. Qed.

Lemma exec_then st x c t :
  rel x c t -> s_name x = [] -> naming_state st = false ->
  sim (execute;; mret st) c t (y ← perform w x; goto st y) at_state.
Proof. intros Hr Hn Hst. eapply sim_bind; [by apply execute_sim|]. intros [] y c1 t1 [Hr1 Hn1]. by apply sim_goto. Qed.

Lemma end_exec_then st x c t :
  rel x c t -> s_name x = [] -> naming_state st = false ->
  sim (push_end;; (execute;; mret st)) c t (y ← perform w (end_word x); goto st y) at_state.
Proof. intros Hr Hn Hst. eapply end_sim; [done..|]. intros c1 t1 Hr1. by apply exec_then. Qed.

Ltac same_char := repeat match goal with
  | |- context [?x =? ?y] => destruct (Z.eqb_spec x y); subst; cbn [Z.eqb Pos.eqb isspace orb andb negb]; try lia
  | |- context [if isspace ?x then _ else _] => destruct (isspace x) eqn:?
  end.
Ltac char_step :=
  lazymatch goal with
  | |- sim (mret _) _ _ _ _ => apply sim_goto; [done|done|reflexivity]
  | |- sim (fatal _ _) _ _ _ _ => apply sim_fatal; done
  | |- sim (mbind _ (push_char _)) _ _ _ _ => apply put_then; [done|done|lia|reflexivity]
  | |- sim (mbind _ (push_esc _)) _ _ _ _ => apply esc_then; [done|done|lia|reflexivity]
  | |- sim (mbind _ execute) _ _ _ _ => apply exec_then; [done|done|reflexivity]
  | |- sim (mbind (fun _ => mret _) push_end) _ _ _ _ => apply end_then; [done|done|reflexivity]
  | |- sim (mbind _ push_end) _ _ _ _ => apply end_exec_then; [done|done|reflexivity]
  end.

Lemma parse_nil_sim x c t ch :
  rel x c t -> s_name x = [] -> 0 < ch < 256 -> sim (parse_nil ch) c t (between ch x) at_state.
Proof. intros Hr Hn Hch. unfold parse_nil, between. same_char. all: char_step. Qed.

Lemma parse_arg_sim x c t ch :
  rel x c t -> s_name x = [] -> 0 < ch < 256 -> sim (parse_arg ch) c t (in_word w ch x) at_state.
Proof. intros Hr Hn Hch. unfold parse_arg, in_word, ends_command, after_command. same_char. all: char_step. Qed.

Lemma parse_dquot_sim x c t ch :
  rel x c t -> s_name x = [] -> 0 < ch < 256 -> sim (parse_dquot ch) c t (in_quotes ch x) at_state.
Proof. intros Hr Hn Hch. unfold parse_dquot, in_quotes. same_char. all: char_step. Qed.

(** After a dollar sign. *)
Lemma dollar_sim name st x c t ch :
  rel x c t -> s_name x = [] -> 0 < ch < 256 -> naming_state name = true -> naming_state st = false ->
  sim (if isalpha ch then push_var ch;; mret name else if negb (isspace ch) then subst_special ch;; mret st
       else fatal (text "missing variable name") 0) c t (dollar w name st ch x) at_state.
Proof.
  intros Hr Hn Hch Hname Hst. unfold dollar. destruct (isalpha ch).
  - eapply name_first_sim; [done..|]. intros c1 t1 Hr1. apply sim_ret. split; [by apply rel_state|]. split; [done|].
    unfold named_ok. cbn. rewrite Hn, Hname. done.
  - destruct (isspace ch); cbn [negb]; [by apply sim_fatal|].
    eapply sim_bind; [by apply replace_special_sim|]. intros _ y c1 t1 [Hr1 Hn1]. by apply sim_goto.
Qed.

Lemma naming_sim name (k : Z -> M Z) (h : Z -> script -> tree script) x c t ch :
  rel x c t -> s_name x <> [] -> 0 < ch < 256 -> naming_state name = true ->
  (forall y c1 t1, rel y c1 t1 -> s_name y = [] -> sim (k ch) c1 t1 (h ch y) at_state) ->
  sim (if isalnum ch then push_char ch;; mret name else subst_var;; k ch) c t (naming w name h ch x) at_state.
Proof.
  intros Hr Hn Hch Hname Hk. unfold naming. destruct (isalnum ch).
  - eapply name_more_sim; [done..|]. intros c1 t1 Hr1. apply sim_ret. split; [by apply rel_state|]. split; [done|].
    unfold named_ok. cbn. rewrite Hname. split; [by destruct (s_name x)|done].
  - eapply sim_bind; [by apply replace_sim|]. intros _ y c1 t1 [Hr1 Hn1]. by apply Hk.
Qed.

Lemma escaped_sim st x c t ch :
  rel x c t -> s_name x = [] -> 0 < ch < 256 -> naming_state st = false ->
  sim ((if ch =? 10 then mret tt else push_esc ch);; mret st) c t (escaped st st ch x) at_state.
Proof.
  intros Hr Hn Hch Hst. unfold escaped. destruct (ch =? 10).
  - apply sim_silent. xwp_step. split; [done|]. by apply sim_goto.
  - by apply esc_then.
Qed.

Definition handles (x : script) (c : sh) (t : trace mcall) (ch st : Z) (m : Z -> M Z) (h : Z -> script -> tree script) : Prop :=
  rel x c t -> (s_name x = [] <-> naming_state st = false) -> sim (m ch) c t (h ch x) at_state.

Lemma handlers_sim x c t ch : 0 < ch < 256 ->
  Forall3 (handles x c t ch)
    [NIL; SEP; ARG; NIBSL; SEBSL; ARBSL; VSIGN; VCONT; COMMT; DQUOT; DQBSL; DQVSG; DQVCN; SQUOT; SQBSL; TRAIL]
    table (handlers w).
Proof.
  intros Hch. unfold table, handlers. repeat (constructor; [intros Hr Hn|]); [..|constructor];
    try (assert (s_name x = []) as Hno by (by apply Hn); clear Hn).
  - by apply parse_nil_sim.
  - unfold parse_sep, separated, ends_command, after_command. same_char. all: char_step.
  - by apply parse_arg_sim.
  - unfold parse_nibsl, escaped. same_char. all: char_step.
  - unfold parse_sebsl, escaped. same_char. all: char_step.
  - unfold parse_arbsl. char_step.
  - by apply dollar_sim.
  - apply naming_sim; [done|by intros Hx; apply Hn in Hx|done|done|]. intros y c1 t1 Hr1 Hn1. by apply parse_arg_sim.
  - unfold parse_commt. destruct (ch =? 10); char_step.
  - by apply parse_dquot_sim.
  - by apply escaped_sim.
  - by apply dollar_sim.
  - apply naming_sim; [done|by intros Hx; apply Hn in Hx|done|done|]. intros y c1 t1 Hr1 Hn1. by apply parse_dquot_sim.
  - unfold parse_squot. same_char. all: char_step.
  - by apply escaped_sim.
  - unfold parse_trail, after_quotes, ends_command, after_command. same_char. all: char_step.
Qed.

Lemma Forall3_at {A B D} (P : A -> B -> D -> Prop) l k j i y :
  Forall3 P l k j -> k !! i = Some y -> exists x z, l !! i = Some x /\ j !! i = Some z /\ P x y z.
Proof.
  intros HF. revert i. induction HF as [|a b d l k j Hp HF IH]; intros [|i] Hy; try done.
  - injection Hy as <-. by exists a, d.
  - by apply IH.
Qed.

Lemma handler_sim st h x c t ch :
  zget table st = Some h -> rel x c t -> (s_name x = [] <-> naming_state st = false) -> 0 < ch < 256 ->
  exists a, zget (handlers w) st = Some a /\ sim (h ch) c t (a ch x) at_state.
Proof.
  intros Hh Hr Hn Hch. pose proof (handlers_sim x c t ch Hch) as HF. unfold zget in *. case_decide as Hst; [|done].
  destruct (Forall3_at _ _ _ _ _ _ HF Hh) as (st' & a & Hs & Ha & Hsim). exists a. split; [done|]. apply Hsim; [done|].
  assert (st' = st) as ->; [|done]. pose proof (lookup_lt_Some _ _ _ Hs) as Hlt. simpl in Hlt.
  assert (forall k, (k < 16)%nat -> [NIL; SEP; ARG; NIBSL; SEBSL; ARBSL; VSIGN; VCONT; COMMT; DQUOT; DQBSL; DQVSG; DQVCN; SQUOT; SQBSL; TRAIL] !! k = Some (Z.of_nat k)) as Hk.
  { intros k Hk. do 16 (destruct k as [|k]; [done|]). lia. }
  rewrite Hk in Hs by lia. injection Hs as <-. lia.
Qed.

Definition running (x : script) (c : sh) (t : trace mcall) : Prop := rel x c t /\ s_state x = state c /\ named_ok x.

Lemma rel_at x c t st : rel x c t -> rel x (c <| state := st |>) t.
Proof. intros [[[[] ? ? ? ?] ? ?] ? ? ? ? ? ? ?]. by split; [split; [split; [split|..]|..]|..]. Qed.

Lemma rel_line x c t n : rel x c t -> rel (x <| s_line := n |>) (c <| line := n |>) t.
Proof. intros [[[[] ? ? ? ?] ? ?] ? ? ? ? ? ? ?]. by split; [split; [split; [split|..]|..]|..]. Qed.

Lemma dispatch_sim x c t ch :
  running x c t -> 0 < ch < 256 ->
  sim (dispatch ch) c t
    (match zget (handlers w) (s_state x) with Some h => h ch x | None => wrong x (text "internal state error") end)
    (fun _ => running).
Proof.
  intros (Hr & Hst & Hn) Hch. unfold named_ok in Hn. rewrite Hst in *. unfold dispatch. apply sim_silent. xwp_step. split; [done|].
  destruct (zget table (state c)) as [h|] eqn:Hh.
  - destruct (handler_sim _ _ x c t ch Hh Hr Hn Hch) as (a & -> & Hs).
    unfold sim, xwpf, mbind, xprog_bind, xmodify in *. destruct (h ch c t) as [[[[st|] c'] t']|]; [|done|done].
    destruct Hs as (y & Hy & Hr' & Hst' & Hn'). exists y. split; [done|]. split; [by apply rel_at|done].
  - destruct (zget (handlers w) (state c)) as [a|] eqn:Ha; [|by apply sim_fatal].
    unfold zget in *. case_decide; [|done]. apply lookup_lt_Some in Ha. apply lookup_ge_None in Hh. simpl in *. lia.
Qed.

Lemma characters_sim buf x c t :
  running x c t -> is_bytes buf ->
  sim (parse buf) c t (characters w buf x) (fun _ => running).
Proof.
  intros Hr Hbuf. revert x c t Hr. induction Hbuf as [|ch buf Hch Hbuf IH]; intros x c t Hr; cbn [parse characters]; [by apply sim_ret|].
  destruct (Z.eqb_spec ch 0) as [->|Hnz].
  { change (sim (fatal (A := unit) (text "stray NUL in script") 0) c t (@wrong script x (text "stray NUL in script")) (fun _ => running)).
    destruct Hr as [Hr _]. by apply sim_fatal. }
  eapply sim_bind; [apply dispatch_sim; [done|lia]|]. intros [] y c1 t1 Hy. apply sim_silent. xwp_step.
  - split; [done|]. rewrite H. apply IH. destruct Hy as (Hr1 & Hst1 & Hn1). split; [|done].
    rewrite <- (rl_line _ _ _ Hr1). by apply rel_line.
  - split; [done|]. rewrite H. by apply IH.
Qed.

Lemma finish_sim x c t : running x c t -> sim parse_finish c t (finish w x) (fun _ _ _ _ => True).
Proof.
  intros (Hr & Hst & Hn). pose proof Hr as [Hd _ _ _ _ _ _ _]. destruct Hd as [_ _ [_ Hp]].
  unfold parse_finish, finish. rewrite Hst. apply sim_silent. xwp_step. split; [done|]. apply sim_silent. xwp_step. split; [done|].
  apply sim_silent. xwp_step. split; [done|].
  assert ((asep c =? hptr c) = match s_words x, s_text x, s_name x with [], [], [] => true | _, _, _ => false end) as ->.
  { rewrite Hp, !length_app. pose proof (length_flat (s_words x)).
    destruct (s_words x), (s_text x), (s_name x); simpl in *; [apply Z.eqb_eq|apply Z.eqb_neq..]; lia. }
  destruct (match s_words x with [] => _ | _ => _ end); [by apply sim_ret|].
  unfold named_ok in Hn. rewrite Hst in Hn.
  destruct (Z.eqb_spec (state c) NIL) as [Hz|_]; [by apply sim_ret|].
  assert (naming_state (state c) = false -> s_name x = []) as Hname by (apply Hn).
  assert (forall y c1 t1, rel y c1 t1 -> s_name y = [] -> sim execute c1 t1 (perform w y) (fun _ _ _ _ => True)) as Hex.
  { intros y c1 t1 Hr1 Hn1. eapply sim_mono; [by apply execute_sim|done]. }
  destruct (Z.eqb_spec (state c) SEP) as [Hz|_]; [rewrite Hz in *|].
  { cbn [Z.eqb orb]. apply sim_silent. xwp_step. split; [done|]. by apply Hex; [|apply Hname]. }
  destruct (Z.eqb_spec (state c) ARG) as [Hz|_]; [rewrite Hz in *|].
  { eapply end_sim; [done|by apply Hname|]. intros c1 t1 Hr1. apply Hex; [done|]. by apply Hname. }
  destruct (Z.eqb_spec (state c) TRAIL) as [Hz|_]; [rewrite Hz in *|].
  { cbn [Z.eqb orb]. apply sim_silent. xwp_step. split; [done|]. by apply Hex; [|apply Hname]. }
  cbn [orb]. apply sim_silent. eapply xwp_mono; [by apply (sim_fatal (B := script) (text "unexpected EOF") x c t (fun _ _ _ _ => False))|].
  by intros ??? (? & _ & []).
Qed.

(** *** Whole scripts *)

Lemma sim_end {A B} (m : M A) c t (p : tree B) (R : A -> B -> sh -> trace mcall -> Prop) :
  sim m c t p R -> sim m c t (_ ← p; Ret tt) (fun _ _ _ _ => True).
Proof.
  unfold sim, xwpf. destruct (m c t) as [[[[x|] c'] t']|]; [|by apply follows_bind_none|done].
  intros (b & Hb & _). exists tt. split; [|done]. eapply follows_bind; [exact Hb|constructor].
Qed.

Lemma parse_str_sim x c t p s :
  running x c t -> ostring base m0 p s ->
  sim (parse_str p) c t (x ← characters w s x; _ ← finish w x; Ret tt) (fun _ _ _ _ => True).
Proof.
  intros Hr Hs. pose proof (ostring_at base m0 w c t _ _ (hd_layout _ _ _ _ _ _ _ (rl_held _ _ _ (proj1 Hr))) Hs) as Hc.
  unfold parse_str. apply sim_silent. eapply xwp_rd; [by apply cstr_spec|]. split; [done|].
  eapply sim_bind; [apply characters_sim; [exact Hr|by apply str_bytes, Hc]|].
  intros [] y c1 t1 Hy. eapply sim_end. by apply finish_sim.
Qed.

Lemma arg_value ac av i p s :
  launched w ac av -> w_args w !! i = Some (p, s) -> ld64 m0 (av + 8 * Z.of_nat i) = Some p /\ ostring base m0 p s.
Proof.
  intros (<- & _ & _) Hi. pose proof (Forall_lookup_1 _ _ _ _ (wo_args _ _ _ Hw) Hi) as Ho. split; [|done].
  rewrite (ld64_spec _ _ p); [f_equal; apply u64_small; destruct Ho; simpl in *; lia|].
  apply (bytes_at_bind8 _ _ ((w_args w).*1 ++ [0])); [apply (wo_argv _ _ _ Hw)|].
  rewrite lookup_app_l by (rewrite length_fmap; by eapply lookup_lt_Some). by rewrite list_lookup_fmap, Hi.
Qed.

(** The start, up to the script. *)
Lemma start_sim {A B} ac av i (K : M A) (p : tree B) (Q : A -> B -> sh -> trace mcall -> Prop) :
  launched w ac av -> 0 < i < ac ->
  (forall c t, running fresh c t -> sim K c t p Q) ->
  sim (heap_init;; K) ((blank ac av m0) <| topargc := ac |> <| topargp := i + 1 |> <| topargv := av |> <| customenvp := -1 |>) [] p Q.
Proof.
  intros Hla Hi HK0. apply sim_silent, (heap_init_wp base m0 w).
  - destruct Hla as (? & ? & ?). split; [done|simpl; lia|done|done|by left].
  - done.
  - intros c' t' He Hl Ht f r1 r2. rewrite visible_app, Ht. apply follows_oom. by right.
  - intros c t Hd Hvis Hst Her Hli Hcu. split; [done|]. apply HK0. split; [|split; [by rewrite Hst|done]].
    split; [exact Hd|constructor|constructor|constructor|done|by rewrite Hcu|by rewrite Hli|by rewrite Her].
Qed.

Lemma commands_sim k ac av s :
  launched w ac av -> with_commands w s -> sim (main (HB := T) k ac av) (blank ac av m0) [] (a_script w s) (fun _ _ _ _ => True).
Proof.
  intros Hla (a0 & p1 & p2 & rest & Hargs). pose proof Hla as (_ & _ & Hac). rewrite Hargs in Hac. simpl length in Hac.
  destruct (arg_value ac av 1 p1 (text "-c") Hla) as [Hld1 Ho1]; [by rewrite Hargs|].
  destruct (arg_value ac av 2 p2 s Hla) as [Hld2 Ho2]; [by rewrite Hargs|].
  destruct Ho1 as (Hnz & Hs1 & _). apply cstr_at_cons in Hs1 as (Hc1 & _ & Hs1). apply cstr_at_cons in Hs1 as (Hc2 & _ & _).
  unfold main. rewrite (proj2 (Z.ltb_lt 1 ac)) by lia. apply sim_silent.
  xwp_step. apply (xwp_rd _ p1); [exact Hld1|]. xwp_step. apply (xwp_rd _ 45).
  { cbn [blank ram]. unfold ld8. rewrite Hc1. reflexivity. }
  cbn [Z.eqb Pos.eqb]. xwp_step. unfold parseopts. xwp_step. apply (xwp_rd _ 99).
  { cbn [blank ram]. unfold ld8. rewrite Hc2. reflexivity. }
  cbn [Z.eqb Pos.eqb]. do 2 xwp_step. split; [done|]. rewrite (proj2 (Z.leb_gt ac 2)) by lia.
  apply sim_silent, (xwp_rd _ p2); [exact Hld2|]. split; [done|].
  apply sim_silent. xwp_step. split; [done|]. apply start_sim; [done|lia|]. intros c t Hr. by apply (parse_str_sim fresh).
Qed.

(** *** Scripts in a file *)

Lemma running_call x c t cl r : (match cl with Brk _ => False | _ => True end) -> running x c t -> running x c (t ++ [(cl, r)]).
Proof.
  intros Hcl (Hr & Hrest). split; [|exact Hrest]. destruct Hr as [[[? ? Hb ? ?] ? ?] ? ? ? ? ? ? ?].
  split; [split; [split; [done|done| |done|done]|done|done]|done..]. rewrite brk_now_snoc. by destruct cl.
Qed.

Lemma quit_sim {A B} err p arg r x c t (R : A -> B -> sh -> trace mcall -> Prop) :
  running x c t -> ostr (ram c) p = Some arg -> sim (quit err p r) c t (fail (A := B) x err arg r) R.
Proof.
  intros (Hr & _) Hp. unfold quit, fail, sim. do 2 xwp_step. eapply xwp_bind, xwp_rd; [exact Hp|].
  apply error_l_wp; [by exists None|]. rewrite <- (rl_line _ _ _ Hr), <- (rl_err _ _ _ Hr). intros f r1 r2. rewrite visible_app. apply follows_fail.
Qed.

Lemma read_sim n fd x c t :
  running x c t -> sim (read_loop n fd) c t (pieces w n fd x) (fun _ => running).
Proof.
  revert x c t. induction n as [|n IH]; intros x c t Hr; cbn [read_loop pieces]; [apply sim_exit|].
  apply sim_call_kern; [done|]. destruct (rk_read t fd 2048 ltac:(done)) as (Hb & Hlen & Hret). set (r := kern t (Read fd 2048)) in *.
  assert (running x c (t ++ [(Read fd 2048, r)])) as Hr1 by (by apply running_call). cbv zeta.
  destruct (Z.ltb_spec 0 (s32 (ret r))) as [Hn|Hn].
  - assert (filled 2048 r = Some (out r ++ drop (length (out r)) (junk 2048))) as Hf.
    { unfold filled. rewrite awrite_Some by (rewrite ?junk_length; lia). rewrite Z.add_0_l, Nat2Z.id. done. }
    assert (aread (out r ++ drop (length (out r)) (junk 2048)) 0 (s32 (ret r)) = Some (take (Z.to_nat (s32 (ret r))) (out r))) as Ha.
    { rewrite aread_app_l by (specialize (Hret Hn); lia). apply aread_Some; [lia|lia|specialize (Hret Hn); lia]. }
    apply sim_silent, xwp_pure; [|by rewrite Hf]. rewrite Hf. intros ? [= <-]. split; [done|].
    apply sim_silent, xwp_pure; [|by rewrite Ha]. rewrite Ha. intros ? [= <-]. split; [done|].
    eapply sim_bind; [apply characters_sim; [done|by apply Forall_take]|]. intros [] y c1 t1 Hy. by apply IH.
  - destruct (s32 (ret r) <? 0); [by apply quit_sim|]. by apply sim_ret.
Qed.

Lemma parse_file_sim n p s c t :
  running fresh c t -> ostring base m0 p s ->
  sim (parse_file n p) c t (a_file w n s) (fun _ _ _ _ => True).
Proof.
  intros Hr Hs. pose proof (ostring_at base m0 w c t _ _ (hd_layout _ _ _ _ _ _ _ (rl_held _ _ _ (proj1 Hr))) Hs) as Hc.
  unfold parse_file, a_file. apply sim_silent, (xwp_rd _ s); [by apply cstr_spec|]. split; [done|].
  apply sim_call; [done|]. intros r. cbv zeta. assert (running fresh c (t ++ [(Open s (2 ^ 19) 0, r)])) as Hr1 by (by apply running_call).
  destruct (s32 (ret r) <? 0).
  - apply quit_sim; [done|]. apply ostr_str; [destruct Hs; lia|done].
  - apply sim_silent. xwp_step. split; [done|]. eapply sim_bind.
    + apply read_sim. destruct Hr1 as (Hr1 & Hst & Hn). split; [|split; [exact Hst|done]].
      destruct Hr1 as [[[[] ? ? ? ?] ? ?] ? ? ? ? ? ? ?]. split; [split; [split; [split|..]|..]|..]; try done. right. by exists s.
    + intros [] y c1 t1 Hy. eapply sim_end. by apply finish_sim.
Qed.

Lemma file_sim k ac av s :
  launched w ac av -> with_file w s -> sim (main (HB := T) k ac av) (blank ac av m0) [] (a_file w k s) (fun _ _ _ _ => True).
Proof.
  intros Hla (Hhead & a0 & p1 & rest & Hargs). pose proof Hla as (_ & _ & Hac). rewrite Hargs in Hac. simpl length in Hac.
  destruct (arg_value ac av 1 p1 s Hla) as [Hld1 Ho1]; [by rewrite Hargs|]. pose proof Ho1 as (Hnz & Hs1 & _).
  assert (exists b, ld8 m0 p1 = Some b /\ b <> 45) as (b & Hb & Hb45).
  { unfold ld8. destruct s as [|b s]; [exists 0; apply cstr_at_nil in Hs1; by rewrite Hs1|].
    apply cstr_at_cons in Hs1 as (Hb & _ & _). exists b. split; [done|]. intros ->. by apply Hhead. }
  unfold main. rewrite (proj2 (Z.ltb_lt 1 ac)) by lia. apply sim_silent.
  xwp_step. apply (xwp_rd _ p1); [exact Hld1|]. xwp_step. apply (xwp_rd _ b); [exact Hb|]. rewrite (proj2 (Z.eqb_neq b 45)) by done.
  xwp_step. split; [done|]. rewrite (proj2 (Z.leb_gt ac 1)) by lia.
  apply sim_silent, (xwp_rd _ p1); [exact Hld1|]. split; [done|].
  apply sim_silent. xwp_step. split; [done|]. apply start_sim; [done|lia|]. intros c t Hr. by apply parse_file_sim.
Qed.

Lemma main_sim k ac av p :
  launched w ac av -> command_line w k p -> sim (main (HB := T) k ac av) (blank ac av m0) [] p (fun _ _ _ _ => True).
Proof. intros Hla [s Hs|s Hs]; [by apply commands_sim|by apply file_sim]. Qed.
End table.
End run.

Lemma sim_outcome `{HK : !Kern mcall} {A B} (m : M A) c t (p : tree B) :
  sim m c t p (fun _ _ _ _ => True) -> exists o o' c' t', m c t = Some (o, c', t') /\ follows p (visible t) (visible t') o' /\ (o = None <-> o' = None).
Proof.
  unfold sim, xwpf. destruct (m c t) as [[[[x|] c'] t']|]; [|by exists None, None, c', t'|done].
  intros (b & Hf & _). by exists (Some x), (Some b), c', t'.
Qed.

Section safe_table.
Context `{HK : !Kern mcall} `{HL : !Locals} (fuel : nat).

Lemma safe_commands_short : Forall (fun x => short x.1) (safe_commands fuel : list (list Z * M unit)).
Proof. apply Forall_forall. intros x Hx%safe_commands_names. by apply (proj1 (Forall_forall _ _) names_short). Qed.

Lemma found_listed {A} (T : list (list Z * A)) (P : list Z -> Prop) :
  (forall x, x ∈ T -> P x.1) -> forall name, is_Some (List.find (fun x => bool_decide (x.1 = name)) T) -> P name.
Proof.
  intros HP name [[n f] Hf]. apply List.find_some in Hf as [Hin Hn]. apply bool_decide_eq_true in Hn. simpl in Hn. subst n.
  apply list_elem_of_In in Hin. by apply (HP (name, f)).
Qed.

Lemma safe_commands_found : forall name, is_Some (found (safe_commands fuel) name) -> name ∈ names.
Proof. exact (found_listed (safe_commands fuel) (fun name => name ∈ names) (safe_commands_names fuel)). Qed.
End safe_table.

Lemma script_follows `{HK : !Kern mcall} `{HL : !Locals} `{HR : !ReplyKern} base m w `{HB : !BrkKern base} fuel ac av p :
  world_ok base m w -> launched w ac av -> command_line w fuel p ->
  exists o c' t', main (HB := safe_commands fuel) fuel ac av (blank ac av m) [] = Some (o, c', t') /\
    follows p [] (visible t') o.
Proof.
  intros Hw Hla Hs.
  destruct (sim_outcome _ _ _ _ (main_sim base m w Hw (safe_commands fuel) (safe_commands_safe base m w Hw fuel)
    (safe_commands_short fuel) (safe_commands_found fuel) (table_known base m w Hw fuel) fuel ac av p Hla Hs))
    as (o & o' & c' & t' & Hm & Hf & Ho). exists o, c', t'. split; [exact Hm|].
  destruct o as [[]|], o' as [[]|]; [exact Hf| | |exact Hf]; exfalso.
  - by discriminate (proj2 Ho eq_refl).
  - by discriminate (proj1 Ho eq_refl).
Qed.


Lemma follows_report {A} (p : tree A) v v' o :
  follows p v v' o -> closed p ->
  (forall i fd f ln err arg r x, v !! i <> Some (Report fd f ln err arg r, x)) ->
  forall i fd f ln err arg r x, v' !! i = Some (Report fd f ln err arg r, x) ->
  o = None /\ length v' = (i + 2)%nat /\ exists y, v' !! S i = Some (Exit 255, y).
Proof.
  assert (forall (v : trace mcall) fd0 f0 ln0 err0 arg0 q x1 x2,
    (forall i fd f ln err arg r x, v !! i <> Some (Report fd f ln err arg r, x)) ->
    forall i fd f ln err arg r x, (v ++ [(Report fd0 f0 ln0 err0 arg0 q, x1); (Exit 255, x2)]) !! i = Some (Report fd f ln err arg r, x) ->
    length (v ++ [(Report fd0 f0 ln0 err0 arg0 q, x1); (Exit 255, x2)]) = (i + 2)%nat /\
    exists y, (v ++ [(Report fd0 f0 ln0 err0 arg0 q, x1); (Exit 255, x2)]) !! S i = Some (Exit 255, y)) as Hlast.
  { intros v1 fd0 f0 ln0 err0 arg0 q x1 x2 Hv i fd f ln err arg r x Hi. apply lookup_app_Some in Hi as [Hi|[Hi Hx]]; [by apply Hv in Hi|].
    destruct (i - length v1)%nat as [|[|k]] eqn:Hk; [|done..]. assert (i = length v1) as -> by lia.
    rewrite length_app, lookup_app_r, Nat.sub_succ_l, Nat.sub_diag by lia. split; [done|by exists x2]. }
  induction 1 as [a v|c k q v v' o Hf IH|fd0 ln0 err0 arg0 q f0 x1 x2 v|v|p err0 fd0 f0 ln0 x1 x2 v He|v v' o]; intros Hc Hv.
  - intros i fd f ln err arg r x Hi. by apply Hv in Hi.
  - inversion Hc as [|c' k' Hnr Hk| |]; subst. apply IH; [done|]. intros i fd f ln err arg r x Hi.
    apply lookup_app_Some in Hi as [Hi|[_ Hi]]; [by apply Hv in Hi|]. destruct (i - length v)%nat; [|done]. by injection Hi as ->.
  - intros i fd f ln err arg r x Hi. split; [done|]. by eapply Hlast.
  - intros i fd f ln err arg r x Hi. by apply Hv in Hi.
  - intros i fd f ln err arg r x Hi. split; [done|]. by eapply Hlast.
  - by inversion Hc.
Qed.

(** C13. An error ends a script of the commands that are described: the message is written
    once, after everything that was done before and before nothing but the exit with
    status 255, so that no command after the one that failed is run. *)
Theorem script_error_ends `{HK : !Kern mcall} `{HL : !Locals} `{HR : !ReplyKern} base m w `{HB : !BrkKern base} fuel ac av p :
  world_ok base m w -> launched w ac av -> command_line w fuel p -> closed p ->
  exists o c' t', main (HB := safe_commands fuel) fuel ac av (blank ac av m) [] = Some (o, c', t') /\
    forall i fd f ln err arg r x, visible t' !! i = Some (Report fd f ln err arg r, x) ->
    o = None /\ length (visible t') = (i + 2)%nat /\ exists y, visible t' !! S i = Some (Exit 255, y).
Proof.
  intros Hw Hla Hs Hc. destruct (script_follows base m w fuel ac av p Hw Hla Hs) as (o & c' & t' & Hm & Hf).
  exists o, c', t'. split; [exact Hm|]. by apply (follows_report _ _ _ _ Hf Hc).
Qed.

(** *** A concrete script *)

Definition demo_script : list Z := text "set x y" ++ [10] ++ text "echo $x" ++ [10] ++ text "echo $z" ++ [10].
Definition demo_failing : list Z := text "set x y" ++ [10] ++ text "echo $z" ++ [10].

(** Its tree writes the value of the variable first. *)
Example demo_script_tree :
  match a_script (demo_world demo_script) demo_script with Call c _ => Some c | _ => None end = Some (Write 1 (text "y" ++ [10])).
Proof. vm_compute. reflexivity. Qed.

Lemma demo_commands s : with_commands (demo_world s) s.
Proof. by exists (2000, text "msh"), 2010, 3000, []. Qed.


Lemma script_error_ends_witness :
  exists o c' t', @main demo_kern some_locals (@safe_commands demo_kern some_locals 1) 1 3 1000 (blank 3 1000 (demo_mem demo_failing)) [] = Some (o, c', t') /\
    forall i fd f ln err arg r x, visible t' !! i = Some (Report fd f ln err arg r, x) ->
    o = None /\ length (visible t') = (i + 2)%nat /\ exists y, visible t' !! S i = Some (Exit 255, y).
Proof.
  apply (@script_error_ends demo_kern some_locals demo_reply 65536 _ (demo_world demo_failing) demo_brk) with (p := a_script (demo_world demo_failing) demo_failing);
    [|done|apply commands_line, demo_commands|vm_compute; constructor].
  apply demo_ok. vm_compute. reflexivity.
Defined.
