(* ===== verification/Mshlimits.v ===== *)
(** * src/msh: where the interpreter deviates from its intent

    Concrete runs of [main] with [msh -c script], under a kernel that gives
    memory and otherwise replies as the run needs. *)
From stdpp Require Import strings.
From S2P Require Import Prelude Mem Str Fmt Parse Arr Sys Nlusctl Nlsock State Exits Cstr Util Msh MshMem MshCmd MshEnv MshVar MshParse MshSafe MshCmdSafe MshScript.

(** An inotify event without a name, as the kernel sends after the watch of a
    removed directory is gone. *)
Definition nameless : list Z := le_bytes 4 1 ++ le_bytes 4 32768 ++ le_bytes 8 0.

Definition limits_kern : kernel mcall := fun _ c =>
  match c with
  | Brk a => Reply (if a =? 0 then 65536 else a) []
  | Write _ l => Reply (zlen l) []
  | Capget _ _ => Reply 0 (repeat 0 24)
  | Prctl _ _ _ _ _ | Setaffinity _ _ => Reply 0 []
  | Inotify_init1 _ => Reply 3 []
  | Inotify_add_watch _ _ _ | Ppoll _ _ _ => Reply 1 []
  | Stat _ => Reply (-2) []
  | Read _ _ => Reply 512 (concat (repeat nameless 32))
  | _ => Reply (-1) []
  end.

(** What a script does: nothing, if it faults, or its calls. *)
Definition runs (script : list Z) : option (list mcall) :=
  '(_, _, t) ← @main limits_kern some_locals (msh_builtins (HK := limits_kern) (HL := some_locals) 10) 10 3 1000
    (blank 3 1000 (demo_mem script)) []; Some (visible t).*1.

Definition nl (s : list Z) : list Z := s ++ [10].
Definition quoted (s : list Z) : list Z := 34 :: s ++ [34].

(** [env_next] adds the size of the entry it comes from once more before it
    compares with the end: a variable that is shorter than the one before and the last is not found. *)
Lemma short_variable_hidden :
  runs (nl (text "set x y") ++ nl (text "echo $x")) = Some [Write 1 (nl (text "y"))] /\
  runs (nl (text "set LONG value") ++ nl (text "set x y") ++ nl (text "echo $x")) =
    Some [Report 2 None 2 (Some (text "undefined variable")) (Some (text "x")) 0; Exit 255].
Proof. split; vm_compute; reflexivity. Qed.

(** The table of the capabilities has no entry with an empty name, which the
    loops of [setbcaps] and [setacaps] look for. *)
Lemma setcaps_overread : runs (nl (text "setcaps -b chown")) = None.
Proof. vm_compute. reflexivity. Qed.

(** [cpuset_set] compares eight times the number with the size in bytes: 17 of
    1024 processors can be named, and the product wraps. *)
Lemma setcpus_range :
  runs (nl (text "setcpus 17")) = Some [Setaffinity 0 (repeat 0 128)] /\
  runs (nl (text "setcpus 536870912")) = None.
Proof. split; vm_compute; reflexivity. Qed.

(** [match_event] reads the name of an event that has none. *)
Lemma waitfor_overread : runs (nl (text "waitfor foo")) = None.
Proof. vm_compute. reflexivity. Qed.

(** [prep_dirname] gives an empty name for the root directory. *)
Lemma waitfor_root :
  @main (fun t c => match c with Ppoll _ _ _ => Reply (-4) [] | _ => limits_kern t c end) some_locals
    (msh_builtins (HK := fun t c => match c with Ppoll _ _ _ => Reply (-4) [] | _ => limits_kern t c end) (HL := some_locals) 10)
    10 3 1000 (blank 3 1000 (demo_mem (text "waitfor /foo"))) [] ≫= (fun x => (visible (x.2)).*1 !! 1%nat) =
  Some (Inotify_add_watch 3 [] 256).
Proof. vm_compute. reflexivity. Qed.

(** [parse_nibsl] stores a character and stays outside of a word. *)
Lemma escape_starts_no_word : runs (nl (text "\e cho hi")) = Some [Write 1 (nl (text "hi"))].
Proof. vm_compute. reflexivity. Qed.

(** After the line of a comment a quoted command is accepted. *)
Lemma quoted_command_after_comment :
  runs (nl (quoted (text "echo") ++ text " hi")) = Some [Report 2 None 0 (Some (text "quoted command")) None 0; Exit 255] /\
  runs (nl (text "# x") ++ nl (quoted (text "echo") ++ text " hi")) = Some [Write 1 (nl (text "hi"))].
Proof. split; vm_compute; reflexivity. Qed.

(** With [-c], [$1] is the text of the commands. *)
Lemma first_parameter_is_script : runs (text "echo $1") = Some [Write 1 (nl (text "echo $1"))].
Proof. vm_compute. reflexivity. Qed.
