(* ===== verification/Scrypt.v ===== *)
(** * lib/crypto/scrypt.c: the code

    The working memory of a hash is one array of 32-bit words, split by the
    code into the blocks, two blocks and a bit for mixing, and the table; an
    offset into it is in words.  The password hash fills and reads the blocks
    as bytes. *)
From S2P Require Import Prelude Arr Sha.

Section scrypt.
Context `{HL : !Locals}.

(** The words of an array of bytes, and back: [uint32_t] on a little-endian
    machine, on which [itohl] and [htoil] change nothing. *)
Definition to_bytes (ws : list Z) : list Z := ws ≫= le_bytes 4.
Fixpoint of_bytes (n : nat) (bs : list Z) : list Z :=
  match n with O => [] | S n => le_value (take 4 bs) :: of_bytes n (drop 4 bs) end.

(** [dst[i] = f(dst[i], src[i])]; the source is read by [rd], which is given the
    array of the destination: they may be the same. *)
Fixpoint blk (f : Z -> Z -> Z) (rd : list Z -> Z -> option Z) (D : list Z) (dst i : Z) (n : nat) : option (list Z) :=
  match n with
  | O => Some D
  | S n =>
      x ← rd D i;
      y ← zget D (dst + i);
      D ← zput D (dst + i) (f y x);
      blk f rd D dst (i + 1) n
  end.

(** A source in the array, or in another. *)
Definition inside (src : Z) (D : list Z) (i : Z) : option Z := zget D (src + i).
Definition from (A : list Z) (src : Z) (D : list Z) (i : Z) : option Z := zget A (src + i).

(** [lib/crypto/scrypt.c: blkcpy] *)
Definition blkcpy (D : list Z) (dst : Z) (src : list Z -> Z -> option Z) (n : Z) : option (list Z) :=
  blk (fun _ x => x) src D dst 0 (Z.to_nat n).
(** [lib/crypto/scrypt.c: blkxor] *)
Definition blkxor (D : list Z) (dst : Z) (src : list Z -> Z -> option Z) (n : Z) : option (list Z) :=
  blk Z.lxor src D dst 0 (Z.to_nat n).
(** [lib/crypto/scrypt.c: blkadd] *)
Definition blkadd (D : list Z) (dst : Z) (src : list Z -> Z -> option Z) (n : Z) : option (list Z) :=
  blk (fun y x => u32 (y + x)) src D dst 0 (Z.to_nat n).

(** [lib/crypto/scrypt.c: rotl] *)
Definition rotl (x n : Z) : Z := Z.lor (u32 (Z.shiftl x n)) (Z.shiftr x (32 - n)).

(** [lib/crypto/scrypt.c: sx] *)
Definition sx (x : list Z) (k i j n : Z) : option (list Z) :=
  a ← zget x i; b ← zget x j; c ← zget x k;
  zput x k (Z.lxor c (rotl (u32 (a + b)) n)).

(** [lib/crypto/scrypt.c: salsa20_8 74-81] *)
Definition columns (x : list Z) : option (list Z) :=
  x ← sx x 4 0 12 7;   x ← sx x 8 4 0 9;
  x ← sx x 12 8 4 13;  x ← sx x 0 12 8 18;
  x ← sx x 9 5 1 7;    x ← sx x 13 9 5 9;
  x ← sx x 1 13 9 13;  x ← sx x 5 1 13 18;
  x ← sx x 14 10 6 7;  x ← sx x 2 14 10 9;
  x ← sx x 6 2 14 13;  x ← sx x 10 6 2 18;
  x ← sx x 3 15 11 7;  x ← sx x 7 3 15 9;
  x ← sx x 11 7 3 13;  sx x 15 11 7 18.

(** [lib/crypto/scrypt.c: salsa20_8 83-90] *)
Definition rows (x : list Z) : option (list Z) :=
  x ← sx x 1 0 3 7;     x ← sx x 2 1 0 9;
  x ← sx x 3 2 1 13;    x ← sx x 0 3 2 18;
  x ← sx x 6 5 4 7;     x ← sx x 7 6 5 9;
  x ← sx x 4 7 6 13;    x ← sx x 5 4 7 18;
  x ← sx x 11 10 9 7;   x ← sx x 8 11 10 9;
  x ← sx x 9 8 11 13;   x ← sx x 10 9 8 18;
  x ← sx x 12 15 14 7;  x ← sx x 13 12 15 9;
  x ← sx x 14 13 12 13; sx x 15 14 13 18.

(** [lib/crypto/scrypt.c: salsa20_8 73-91] *)
Fixpoint double_rounds (n : nat) (x : list Z) : option (list Z) :=
  match n with O => Some x | S n => x ← columns x; x ← rows x; double_rounds n x end.

(** [lib/crypto/scrypt.c: salsa20_8] on the words at [B] *)
Definition salsa20_8 (T : list Z) (B : Z) : option (list Z) :=
  x ← blkcpy (junk 16) 0 (from T B) 16;
  x ← double_rounds 4 x;
  blkadd T B (from x 0) 16.

(** [lib/crypto/scrypt.c: blockmix 102-109] [n] more turns *)
Fixpoint blockmix_loop (n : nat) (T : list Z) (Bin Bout X r i : Z) : option (list Z) :=
  match n with
  | O => Some T
  | S n =>
      T ← blkxor T X (inside (Bin + i * 16)) 16;
      T ← salsa20_8 T X;
      T ← blkcpy T (Bout + i * 8) (inside X) 16;
      T ← blkxor T X (inside (Bin + i * 16 + 16)) 16;
      T ← salsa20_8 T X;
      T ← blkcpy T (Bout + i * 8 + r * 16) (inside X) 16;
      blockmix_loop n T Bin Bout X r (i + 2)
  end.

(** [lib/crypto/scrypt.c: blockmix] *)
Definition blockmix (T : list Z) (Bin Bout X r : Z) : option (list Z) :=
  T ← blkcpy T X (inside (Bin + (2 * r - 1) * 16)) 16;
  blockmix_loop (Z.to_nat r) T Bin Bout X r 0.

(** [lib/crypto/scrypt.c: integerify] *)
Definition integerify (T : list Z) (B r : Z) : option Z :=
  let i := (2 * r - 1) * 16 in
  rh ← zget T (B + i + 1);
  rl ← zget T (B + i + 0);
  Some (Z.lor (u64 (Z.shiftl rh 32)) rl).

(** The offset of a row of the table, an [int]. *)
Definition row (i r : Z) : Z := s32 (i * s32 (32 * r)).

(** [lib/crypto/scrypt.c: salsamix 134-139] [n] more turns *)
Fixpoint fill_loop (n : nat) (T : list Z) (X Y Z0 V r i : Z) : option (list Z) :=
  match n with
  | O => Some T
  | S n =>
      T ← blkcpy T (V + row i r) (inside X) (32 * r);
      T ← blockmix T X Y Z0 r;
      T ← blkcpy T (V + row (i + 1) r) (inside Y) (32 * r);
      T ← blockmix T Y X Z0 r;
      fill_loop n T X Y Z0 V r (i + 2)
  end.

(** [lib/crypto/scrypt.c: salsamix 141-148] [n] more turns *)
Fixpoint mix_loop (n : nat) (T : list Z) (X Y Z0 V r N : Z) : option (list Z) :=
  match n with
  | O => Some T
  | S n =>
      k ← integerify T X r;
      let j := s32 (Z.land k (u64 (N - 1))) in
      T ← blkxor T X (inside (V + row j r)) (32 * r);
      T ← blockmix T X Y Z0 r;
      k ← integerify T Y r;
      let j := s32 (Z.land k (u64 (N - 1))) in
      T ← blkxor T Y (inside (V + row j r)) (32 * r);
      T ← blockmix T Y X Z0 r;
      mix_loop n T X Y Z0 V r N
  end.

(** [lib/crypto/scrypt.c: salsamix] *)
Definition salsamix (T : list Z) (B r N V XY : Z) : option (list Z) :=
  let X := XY in
  let Y := XY + 128 * r / 4 in
  let Z0 := XY + 256 * r / 4 in
  let turns := Z.to_nat ((N + 1) / 2) in
  T ← blkcpy T X (inside B) (32 * r);
  T ← fill_loop turns T X Y Z0 V r 0;
  T ← mix_loop turns T X Y Z0 V r N;
  blkcpy T B (inside X) (32 * r).

(** [lib/crypto/scrypt.h: scrypt] *)
Record scrypt := Scrypt {
  sc_pass : list Z; sc_passlen : Z;
  sc_salt : list Z; sc_saltlen : Z;
  sc_temp : list Z; sc_templen : Z;
  sc_n : Z; sc_p : Z; sc_r : Z }.

(** [lib/crypto/scrypt.c: spbkdf] *)
Definition spbkdf (sc : scrypt) (salt : list Z) (slen : Z) (dk : list Z) (dklen : Z) : option (list Z) :=
  pbkdf2_sha256 dk dklen (sc_pass sc) (s32 (sc_passlen sc)) salt slen 1.

(** [lib/crypto/scrypt.c: scrypt_init] the products are of 32 bits *)
Definition scrypt_init (n r p : Z) : scrypt * Z :=
  let B0size := u32 (128 * r * p) in
  let XYsize := u32 (256 * r + 64) in
  let V0size := u32 (128 * r * n) in
  let need := B0size + XYsize + V0size in
  (Scrypt [] 0 [] 0 [] (u32 need) n p r, need).

(** [lib/crypto/scrypt.c: scrypt_temp] *)
Definition scrypt_temp (sc : scrypt) (buf : list Z) (len : Z) : scrypt * Z :=
  let sc := Scrypt (sc_pass sc) (sc_passlen sc) (sc_salt sc) (sc_saltlen sc) buf (sc_templen sc) (sc_n sc) (sc_p sc) (sc_r sc) in
  if len <? sc_templen sc then (sc, -105)
  else (Scrypt (sc_pass sc) (sc_passlen sc) (sc_salt sc) (sc_saltlen sc) buf (u32 len) (sc_n sc) (sc_p sc) (sc_r sc), 0).

(** [lib/crypto/scrypt.c: scrypt_data] *)
Definition scrypt_data (sc : scrypt) (P : list Z) (plen : Z) (S : list Z) (slen : Z) : scrypt :=
  Scrypt P plen S slen (sc_temp sc) (sc_templen sc) (sc_n sc) (sc_p sc) (sc_r sc).

(** [lib/crypto/scrypt.c: scrypt_hash 217-218] [n] more blocks *)
Fixpoint blocks_loop (n : nat) (T : list Z) (i r N V XY : Z) : option (list Z) :=
  match n with
  | O => Some T
  | S n => T ← salsamix T (s32 (s32 (i * 32) * r)) r N V XY; blocks_loop n T (i + 1) r N V XY
  end.

(** [lib/crypto/scrypt.c: scrypt_hash] *)
Definition scrypt_hash (sc : scrypt) (dk : list Z) (dklen : Z) : option (list Z) :=
  let r := s32 (sc_r sc) in
  let p := s32 (sc_p sc) in
  let n := s32 (sc_n sc) in
  let B0size := s32 (128 * r * p) in
  let XYsize := s32 (256 * r + 64) in
  let XY := B0size / 4 in
  let V := (B0size + XYsize) / 4 in
  let len := s32 (4 * p * 32 * r) in
  let T := sc_temp sc in
  b ← spbkdf sc (sc_salt sc) (s32 (sc_saltlen sc)) (to_bytes T) len;
  T ← blocks_loop (Z.to_nat p) (of_bytes (length T) b) 0 r n V XY;
  spbkdf sc (to_bytes T) len dk (s32 dklen).
End scrypt.
