(* ===== verification/ScryptSpec.v ===== *)
(** * scrypt: RFC 7914, and that the code computes it

    The standard is on blocks of 64 bytes, here lists of 16 words; a sequence of
    [2 r] blocks is the list of its words.  The code has all of it in one array,
    and its theorems are about parts of the array: what is at an offset ([at_]),
    and which cells an operation leaves alone ([same]). *)
From S2P Require Import Prelude Arr Sha ShaSpec Md Scrypt.

(** ** Salsa20/8 (Bernstein, The Salsa20 family of stream ciphers) *)

Definition quarterround (y0 y1 y2 y3 : Z) : Z * Z * Z * Z :=
  let z1 := Z.lxor y1 (ROTL 7 (add32 y0 y3)) in
  let z2 := Z.lxor y2 (ROTL 9 (add32 z1 y0)) in
  let z3 := Z.lxor y3 (ROTL 13 (add32 z2 z1)) in
  let z0 := Z.lxor y0 (ROTL 18 (add32 z3 z2)) in
  (z0, z1, z2, z3).

Definition rowround (y : list Z) : list Z :=
  match y with
  | [y0; y1; y2; y3; y4; y5; y6; y7; y8; y9; y10; y11; y12; y13; y14; y15] =>
      let '(z0, z1, z2, z3) := quarterround y0 y1 y2 y3 in
      let '(z5, z6, z7, z4) := quarterround y5 y6 y7 y4 in
      let '(z10, z11, z8, z9) := quarterround y10 y11 y8 y9 in
      let '(z15, z12, z13, z14) := quarterround y15 y12 y13 y14 in
      [z0; z1; z2; z3; z4; z5; z6; z7; z8; z9; z10; z11; z12; z13; z14; z15]
  | _ => []
  end.

(** The words as a square, and its columns as rows. *)
Definition transpose (x : list Z) : list Z :=
  match x with
  | [x0; x1; x2; x3; x4; x5; x6; x7; x8; x9; x10; x11; x12; x13; x14; x15] =>
      [x0; x4; x8; x12; x1; x5; x9; x13; x2; x6; x10; x14; x3; x7; x11; x15]
  | _ => []
  end.
Definition columnround (x : list Z) : list Z := transpose (rowround (transpose x)).
Definition doubleround (x : list Z) : list Z := rowround (columnround x).

Definition salsa (x : list Z) : list Z := zip_with add32 x (Nat.iter 4 doubleround x).

(** ** BlockMix and ROMix (RFC 7914, sections 4 and 5) *)

(** [n] blocks of a sequence of words. *)
Fixpoint blocks (n : nat) (B : list Z) : list (list Z) :=
  match n with O => [] | S n => take 16 B :: blocks n (drop 16 B) end.

(** [Y_i = Salsa(Y_(i-1) xor B_i)] *)
Fixpoint chain (X : list Z) (Bs : list (list Z)) : list (list Z) :=
  match Bs with
  | [] => []
  | B :: Bs => let Y := salsa (zip_with Z.lxor X B) in Y :: chain Y Bs
  end.

Fixpoint evens {A} (l : list A) : list A :=
  match l with [] => [] | [x] => [x] | x :: _ :: l => x :: evens l end.
Fixpoint odds {A} (l : list A) : list A :=
  match l with [] => [] | [x] => [] | _ :: y :: l => y :: odds l end.

Definition BlockMix (r : nat) (B : list Z) : list Z :=
  let Y := chain (drop (16 * (2 * r - 1)) B) (blocks (2 * r) B) in
  concat (evens Y) ++ concat (odds Y).

(** The last block, all of it, as a little-endian number. *)
Definition integer (r : nat) (X : list Z) : Z :=
  foldr (fun w a => w + 2 ^ 32 * a) 0 (drop (16 * (2 * r - 1)) X).

(** The table [V_0 ... V_(N-1)], and the state after it. *)
Definition filled (r N : nat) (B : list Z) : list (list Z) :=
  (fun i => Nat.iter i (BlockMix r) B) <$> seq 0 N.
Definition mix_step (r : nat) (V : list (list Z)) (X : list Z) : list Z :=
  let j := Z.to_nat (integer r X mod zlen V) in
  BlockMix r (zip_with Z.lxor X (nth j V [])).
Definition ROMix (r N : nat) (B : list Z) : list Z :=
  Nat.iter N (mix_step r (filled r N B)) (Nat.iter N (BlockMix r) B).

(** ** scrypt (RFC 7914, section 6) *)

Definition words_of (B : list Z) : list Z := of_bytes (length B / 4) B.

(** [p] sequences of blocks, mixed each for itself. *)
Fixpoint mix_all (p : nat) (r N : nat) (B : list Z) : list Z :=
  match p with
  | O => []
  | S p => ROMix r N (take (32 * r) B) ++ mix_all p r N (drop (32 * r) B)
  end.

Definition scrypt_rfc (P S : list Z) (N r p dkLen : nat) : list Z :=
  let B := pbkdf2_sha256_rfc P S 1 (p * 128 * r) in
  pbkdf2_sha256_rfc P (to_bytes (mix_all p r N (words_of B))) 1 dkLen.

(** The test vector of section 8 of the RFC. *)
Example salsa_rfc :
  salsa [0x219a877e; 0x86c93e4f; 0xe640a97c; 0x268f7141; 0x5b55eeba; 0xb5c1618c; 0x1146f80d; 0x1d3bcd6d;
         0x19f324ee; 0x853d9bdf; 0x4b1e1214; 0x32aac55a; 0x291d0276; 0x2948c709; 0x8dc6ebed; 0x5ec2b8b8] =
  [0x9c851fa4; 0x99cc0866; 0xcbca813b; 0x05ef0c02; 0x81214b04; 0x7d33fda2; 0x631c7bfd; 0x292f6896;
   0x683139b4; 0xbce6c9e3; 0xb7c56bfe; 0xba966da0; 0x10cc24e4; 0x5c74912c; 0x3d67ad24; 0x818f61c7].
Proof. by vm_compute. Qed.

(** ** Parts of an array *)

(** The words [s] are at [off]. *)
Definition at_ (T : list Z) (off : Z) (s : list Z) : Prop :=
  0 <= off /\ off + zlen s <= zlen T /\ forall i, 0 <= i < zlen s -> zget T (off + i) = zget s i.

(** Only cells in [P] differ. *)
Definition same (P : Z -> Prop) (T T' : list Z) : Prop :=
  zlen T' = zlen T /\ forall i, ~ P i -> zget T' i = zget T i.

Lemma same_at P T T' off s :
  same P T T' -> at_ T off s -> (forall i, off <= i < off + zlen s -> ~ P i) -> at_ T' off s.
Proof.
  intros [Hl HP] (H0 & H1 & H2) Hd. split; [done|split; [lia|]]. intros i Hi.
  rewrite HP by (apply Hd; lia). by apply H2.
Qed.

Lemma cells_refl P T : same P T T.
Proof. by split. Qed.

Lemma cells_trans (P : Z -> Prop) T T' T'' : same P T T' -> same P T' T'' -> same P T T''.
Proof. intros [L H] [L' H']. split; [lia|]. intros i Hi. by rewrite H', H. Qed.

Lemma cells_weaken (P Q : Z -> Prop) T T' : (forall i, P i -> Q i) -> same P T T' -> same Q T T'.
Proof. intros HPQ [L H]. split; [done|]. intros i Hi. apply H. auto. Qed.

Lemma at_app T off s s' : at_ T off (s ++ s') <-> at_ T off s /\ at_ T (off + zlen s) s'.
Proof.
  unfold at_. rewrite length_app. split.
  - intros (H0 & H1 & H2). repeat split; try lia.
    + intros i Hi. rewrite H2 by lia. by rewrite zget_app_l by lia.
    + intros i Hi. rewrite <- Z.add_assoc, H2 by lia. rewrite zget_app_r by lia. f_equal. lia.
  - intros [(H0 & H1 & H2) (H0' & H1' & H2')]. repeat split; try lia. intros i Hi.
    destruct (decide (i < zlen s)).
    + rewrite H2 by lia. by rewrite zget_app_l by lia.
    + rewrite zget_app_r by lia. rewrite <- H2' by lia. f_equal. lia.
Qed.

Lemma at_take_drop T off s n : at_ T off s -> (n <= length s)%nat ->
  at_ T off (take n s) /\ at_ T (off + Z.of_nat n) (drop n s).
Proof.
  intros H Hn. rewrite <- (take_drop n s) in H. apply at_app in H as [H1 H2]. split; [done|].
  rewrite length_take in H2. by replace (Z.of_nat (n `min` length s)) with (Z.of_nat n) in H2 by lia.
Qed.

(** ** The loops over blocks *)

(** What [blk] computes, when its source is [s] for as long as only the
    destination changes. *)
Lemma blk_spec f rd s : forall n D dst i d,
  length s = n -> length d = n -> at_ D (dst + i) d ->
  (forall D' j, same (fun k => dst + i <= k < dst + i + Z.of_nat n) D D' -> 0 <= j < Z.of_nat n ->
     rd D' (i + j) = zget s j) ->
  exists D', blk f rd D dst i n = Some D' /\ at_ D' (dst + i) (zip_with f d s) /\
    same (fun k => dst + i <= k < dst + i + Z.of_nat n) D D'.
Proof.
  induction s as [|x s IH]; intros [|n] D dst i [|y d] Hs Hd Hat Hrd; try done.
  - exists D. split; [done|]. split; [done|apply cells_refl].
  - injection Hs as Hs. injection Hd as Hd. destruct Hat as (H0 & H1 & H2). simpl length in *.
    pose proof (Hrd D 0 (cells_refl _ _) ltac:(lia)) as Hx. rewrite Z.add_0_r in Hx.
    pose proof (H2 0 ltac:(lia)) as Hy. rewrite Z.add_0_r in Hy.
    change (zget (x :: s) 0) with (Some x) in Hx. change (zget (y :: d) 0) with (Some y) in Hy.
    cbn [blk]. rewrite Hx, Some_bind, Hy, Some_bind.
    destruct (zput D (dst + i) (f y x)) as [D1|] eqn:HD1; [|by rewrite zput_Some in HD1 by lia].
    rewrite Some_bind. pose proof (zput_length _ _ _ _ HD1) as HL.
    assert (same (fun k => dst + i <= k < dst + i + Z.of_nat (S n)) D D1) as HS1.
    { split; [lia|]. intros k Hk. rewrite (zput_get _ _ _ _ _ HD1), decide_False by lia. done. }
    destruct (IH n D1 dst (i + 1) d) as (D' & HD' & Hat' & HS'); try done.
    + split; [lia|split; [lia|]]. intros k Hk. rewrite (zput_get _ _ _ _ _ HD1), decide_False by lia.
      replace (dst + (i + 1) + k) with (dst + i + (k + 1)) by lia. rewrite H2 by lia.
      rewrite zget_cons_pos by lia. f_equal. lia.
    + intros D2 j HS2 Hj. replace (i + 1 + j) with (i + (j + 1)) by lia. rewrite Hrd; [|..|lia].
      * rewrite zget_cons_pos by lia. f_equal. lia.
      * eapply cells_trans; [done|]. eapply cells_weaken; [|done]. simpl. lia.
    + exists D'. split; [done|]. split.
      * change (at_ D' (dst + i) ([f y x] ++ zip_with f d s)). apply at_app. split.
        -- destruct Hat' as (G0 & G1 & G2). split; [lia|]. split; [simpl; lia|]. intros k Hk.
           simpl in Hk. replace k with 0 by lia. rewrite Z.add_0_r.
           rewrite (proj2 HS') by lia. by rewrite (zput_get _ _ _ _ _ HD1), decide_True by lia.
        -- by replace (dst + i + zlen [f y x]) with (dst + (i + 1)) by (simpl; lia).
      * eapply cells_trans; [done|]. eapply cells_weaken; [|done]. simpl. lia.
Qed.

Abbreviation within off n := (fun i => off <= i < off + n).

Lemma at_exists T off n : 0 <= off -> 0 <= n -> off + n <= zlen T ->
  exists d, at_ T off d /\ zlen d = n.
Proof.
  intros H0 Hn H1. exists (take (Z.to_nat n) (drop (Z.to_nat off) T)).
  assert (zlen (take (Z.to_nat n) (drop (Z.to_nat off) T)) = n) as HL by (rewrite length_take, length_drop; lia).
  split; [|done]. split; [done|]. rewrite HL. split; [done|]. intros i Hi.
  rewrite zget_take, zget_drop by lia. f_equal. lia.
Qed.

Lemma zip_with_snd {A B} (d : list A) (s : list B) :
  length d = length s -> zip_with (fun _ x => x) d s = s.
Proof. revert s. induction d; intros [|y s] H; try done. simpl. f_equal. auto. Qed.

Lemma length_zip {A B C} (f : A -> B -> C) d s : length d = length s -> length (zip_with f d s) = length d.
Proof. intros. rewrite length_zip_with. lia. Qed.

(** A part of the array combined with another part. *)
Lemma blk_inside f T dst src d s n :
  zlen d = n -> zlen s = n -> at_ T dst d -> at_ T src s -> dst + n <= src \/ src + n <= dst ->
  exists T', blk f (inside src) T dst 0 (Z.to_nat n) = Some T' /\ at_ T' dst (zip_with f d s) /\
    same (within dst n) T T'.
Proof.
  intros Hd Hs Hat Hsrc Hdis.
  destruct (blk_spec f (inside src) s (Z.to_nat n) T dst 0 d) as (T' & HT & Hat' & HS);
    rewrite ?Z.add_0_r in *; try done; try lia.
  - intros D' j HS Hj. unfold inside. destruct (same_at _ _ _ _ _ HS Hsrc) as (_ & _ & G); [simpl; lia|].
    rewrite Z.add_0_l. apply G. lia.
  - exists T'. split; [done|]. split; [done|]. eapply cells_weaken; [|done]. simpl. lia.
Qed.

Lemma blkcpy_at T dst src s n :
  zlen s = n -> 0 <= dst -> dst + n <= zlen T -> at_ T src s -> dst + n <= src \/ src + n <= dst ->
  exists T', blkcpy T dst (inside src) n = Some T' /\ at_ T' dst s /\ same (within dst n) T T'.
Proof.
  intros Hs H0 H1 Hat Hdis. destruct (at_exists T dst n) as (d & Hd & HL); [lia..|].
  destruct (blk_inside (fun _ x => x) T dst src d s n) as (T' & HT & Hat' & HS); try done.
  rewrite zip_with_snd in Hat' by lia. eauto.
Qed.

Lemma blkxor_at T dst src d s n :
  zlen d = n -> zlen s = n -> at_ T dst d -> at_ T src s -> dst + n <= src \/ src + n <= dst ->
  exists T', blkxor T dst (inside src) n = Some T' /\ at_ T' dst (zip_with Z.lxor d s) /\
    same (within dst n) T T'.
Proof. apply blk_inside. Qed.

Lemma length_concat_same {A} (n : nat) (l : list (list A)) :
  Forall (fun b => length b = n) l -> length (concat l) = (n * length l)%nat.
Proof. induction 1; simpl; [lia|]. rewrite length_app. lia. Qed.

(** ** Salsa20/8 *)

Lemma columns_spec x : length x = 16%nat -> columns x = Some (columnround x).
Proof.
  intros H. do 16 (destruct x as [|? x]; [done|]). destruct x; [|done].
  cbv -[Z.lxor Z.lor Z.shiftl Z.shiftr u32 Z.add]. reflexivity.
Qed.

Lemma rows_spec x : length x = 16%nat -> rows x = Some (rowround x).
Proof.
  intros H. do 16 (destruct x as [|? x]; [done|]). destruct x; [|done].
  cbv -[Z.lxor Z.lor Z.shiftl Z.shiftr u32 Z.add]. reflexivity.
Qed.

Lemma length_rowround x : length x = 16%nat -> length (rowround x) = 16%nat.
Proof. intros H. do 16 (destruct x as [|? x]; [done|]). by destruct x. Qed.

Lemma length_doubleround x : length x = 16%nat -> length (doubleround x) = 16%nat.
Proof.
  intros H. apply length_rowround. unfold columnround.
  assert (forall y, length y = 16%nat -> length (transpose y) = 16%nat) as Ht.
  { intros y Hy. do 16 (destruct y as [|? y]; [done|]). by destruct y. }
  auto using length_rowround.
Qed.

Lemma length_rounds n x : length x = 16%nat -> length (Nat.iter n doubleround x) = 16%nat.
Proof. intros H. induction n; [done|]. by apply length_doubleround. Qed.

Lemma length_salsa x : length x = 16%nat -> length (salsa x) = 16%nat.
Proof. intros H. unfold salsa. rewrite length_zip; [done|]. by rewrite length_rounds. Qed.

Lemma double_rounds_spec n x : length x = 16%nat -> double_rounds n x = Some (Nat.iter n doubleround x).
Proof.
  revert x. induction n as [|n IH]; intros x H; [done|]. cbn [double_rounds].
  rewrite columns_spec, Some_bind by done.
  assert (length (columnround x) = 16%nat) as Hc.
  { do 16 (destruct x as [|? x]; [done|]). by destruct x. }
  rewrite rows_spec, Some_bind by done. rewrite IH by (by apply length_rowround).
  change (rowround (columnround x)) with (doubleround x). by rewrite Nat.iter_succ_r.
Qed.

Section code.
Context `{HL : !Locals}.

Lemma salsa20_8_at T B x :
  at_ T B x -> length x = 16%nat ->
  exists T', salsa20_8 T B = Some T' /\ at_ T' B (salsa x) /\ same (within B 16) T T'.
Proof.
  intros Hat Hx. unfold salsa20_8.
  destruct (blk_spec (fun _ x => x) (from T B) x 16 (junk 16) 0 0 (junk 16)) as (X & HX & HatX & HSX);
    [done|by rewrite junk_length| |..].
  { split; [done|]. split; [lia|]. done. }
  { intros D' j _ Hj. apply Hat. lia. }
  rewrite zip_with_snd in HatX by (by rewrite junk_length).
  unfold blkcpy. change (Z.to_nat 16) with 16%nat. rewrite HX, Some_bind.
  assert (X = x) as ->.
  { destruct HatX as (_ & H1 & H2), HSX as [HLX _]. rewrite junk_length in HLX. apply list_eq_zget. intros i.
    destruct (decide (0 <= i < 16)); [apply (H2 i); lia|].
    destruct (decide (i < 0)); [by rewrite !zget_neg by lia|by rewrite !zget_ge by lia]. }
  rewrite double_rounds_spec, Some_bind by done. unfold blkadd. change (Z.to_nat 16) with 16%nat.
  destruct (blk_spec (fun y x => u32 (y + x)) (from (Nat.iter 4 doubleround x) 0) (Nat.iter 4 doubleround x)
    16 T B 0 x) as (T' & HT & HatT & HST); try done.
  - by rewrite length_rounds.
  - by rewrite Z.add_0_r.
  - rewrite Z.add_0_r in HatT. exists T'. split; [done|]. split; [done|]. eapply cells_weaken; [|done]. simpl. lia.
Qed.

Lemma length_chain X Bs : length (chain X Bs) = length Bs.
Proof. revert X. induction Bs; intros X; [done|]. simpl. f_equal. auto. Qed.

(** One block of a turn: mixed at [X], and copied to [dst]. *)
Lemma half_turn T X src dst x b :
  at_ T X x -> at_ T src b -> length x = 16%nat -> length b = 16%nat ->
  X + 16 <= src \/ src + 16 <= X -> X + 16 <= dst \/ dst + 16 <= X -> 0 <= dst -> dst + 16 <= zlen T ->
  exists T1 T2 T', blkxor T X (inside src) 16 = Some T1 /\ salsa20_8 T1 X = Some T2 /\
    blkcpy T2 dst (inside X) 16 = Some T' /\
    at_ T' X (salsa (zip_with Z.lxor x b)) /\ at_ T' dst (salsa (zip_with Z.lxor x b)) /\
    same (fun i => X <= i < X + 16 \/ dst <= i < dst + 16) T T'.
Proof.
  intros Hx Hb Lx Lb Hd D2 D3 D4.
  destruct (blkxor_at T X src x b 16) as (T1 & H1 & A1 & S1); try done; try lia.
  assert (length (zip_with Z.lxor x b) = 16%nat) as Lz by (rewrite length_zip; lia).
  destruct (salsa20_8_at T1 X _ A1 Lz) as (T2 & H2 & A2 & S2).
  pose proof (length_salsa _ Lz) as Ls. pose proof (proj1 S1). pose proof (proj1 S2).
  destruct (blkcpy_at T2 dst X (salsa (zip_with Z.lxor x b)) 16) as (T3 & H3 & A3 & S3); try done; try lia.
  exists T1, T2, T3. split; [done|]. split; [done|]. split; [done|].
  split; [eapply same_at; [done..|simpl; lia]|]. split; [done|]. split; [pose proof (proj1 S3); lia|].
  intros i Hi. rewrite (proj2 S3), (proj2 S2), (proj2 S1) by lia. done.
Qed.

Lemma blockmix_loop_at r : forall n k T Bin Bout X Bs x,
  length Bs = (2 * n)%nat -> Forall (fun b => length b = 16%nat) Bs ->
  0 <= k -> k + Z.of_nat n = r ->
  at_ T (Bin + 32 * k) (concat Bs) -> at_ T X x -> length x = 16%nat ->
  0 <= Bout -> Bout + 32 * r <= zlen T -> 0 <= Bin ->
  X + 16 <= Bin \/ Bin + 32 * r <= X -> X + 16 <= Bout \/ Bout + 32 * r <= X ->
  Bin + 32 * r <= Bout \/ Bout + 32 * r <= Bin -> 
  exists T', blockmix_loop n T Bin Bout X r (2 * k) = Some T' /\
    at_ T' (Bout + 16 * k) (concat (evens (chain x Bs))) /\
    at_ T' (Bout + 16 * r + 16 * k) (concat (odds (chain x Bs))) /\
    same (fun i => X <= i < X + 16 \/ Bout + 16 * k <= i < Bout + 16 * r \/
                   Bout + 16 * r + 16 * k <= i < Bout + 32 * r) T T'.
Proof.
  induction n as [|n IH]; intros k T Bin Bout X Bs x HBs HF Hk Hr Hin HX Lx H0 H1 H2 D1 D2 D3.
  - destruct Bs; [|done]. exists T. simpl. split; [done|]. repeat split; simpl; try lia; done.
  - destruct Bs as [|b0 [|b1 Bs]]; simpl in HBs; try lia.
    apply Forall_cons in HF as [L0 [L1 HF]%Forall_cons]. cbn [concat] in Hin.
    apply at_app in Hin as [Hb0 [Hb1 Hin]%at_app]. rewrite L0 in Hb1, Hin. rewrite L1 in Hin.
    cbn [blockmix_loop].
    destruct (half_turn T X (Bin + 2 * k * 16) (Bout + 2 * k * 8) x b0)
      as (T1 & T2 & T3 & -> & E2 & E3 & A3 & C3 & S3); try done; try lia.
    { by replace (Bin + 2 * k * 16) with (Bin + 32 * k) by lia. }
    rewrite Some_bind, E2, Some_bind, E3, Some_bind. set (y0 := salsa _) in *.
    assert (length y0 = 16%nat) as Ly0 by (apply length_salsa; rewrite length_zip; lia).
    pose proof (proj1 S3) as Z3.
    destruct (half_turn T3 X (Bin + 2 * k * 16 + 16) (Bout + 2 * k * 8 + r * 16) y0 b1)
      as (T4 & T5 & T6 & -> & E5 & E6 & A6 & C6 & S6); try done; try lia.
    { eapply same_at; [done| |simpl; lia].
      by replace (Bin + 2 * k * 16 + 16) with (Bin + 32 * k + Z.of_nat 16) by lia. }
    rewrite Some_bind, E5, Some_bind, E6, Some_bind. set (y1 := salsa (zip_with _ y0 _)) in *.
    assert (length y1 = 16%nat) as Ly1 by (apply length_salsa; rewrite length_zip; lia).
    pose proof (proj1 S6) as Z6.
    assert (zlen (concat Bs) = 32 * Z.of_nat n) as HLC.
    { rewrite (length_concat_same 16) by done. lia. }
    destruct (IH (k + 1) T6 Bin Bout X Bs y1) as (T' & E' & A' & C' & S'); try done; try lia.
    { eapply same_at; [done| |simpl; lia]. eapply same_at; [done| |simpl; lia].
      by replace (Bin + 32 * (k + 1)) with (Bin + 32 * k + Z.of_nat 16 + Z.of_nat 16) by lia. }
    replace (2 * k + 2) with (2 * (k + 1)) by lia. exists T'. split; [done|].
    cbn [chain evens odds concat]. fold y0. fold y1. rewrite !at_app, Ly0, Ly1.
    replace (Bout + 16 * k + Z.of_nat 16) with (Bout + 16 * (k + 1)) by lia.
    replace (Bout + 16 * r + 16 * k + Z.of_nat 16) with (Bout + 16 * r + 16 * (k + 1)) by lia.
    split; [split; [|done]|split; [split; [|done]|]].
    + eapply same_at; [done| |simpl; lia]. eapply same_at; [done| |simpl; lia].
      by replace (Bout + 16 * k) with (Bout + 2 * k * 8) by lia.
    + eapply same_at; [done| |simpl; lia].
      by replace (Bout + 16 * r + 16 * k) with (Bout + 2 * k * 8 + r * 16) by lia.
    + pose proof (proj1 S'). split; [lia|]. intros i Hi.
      rewrite (proj2 S'), (proj2 S6), (proj2 S3) by lia. done.
Qed.

(** ** BlockMix *)

Lemma blocks_spec n B : length B = (16 * n)%nat ->
  concat (blocks n B) = B /\ length (blocks n B) = n /\ Forall (fun b => length b = 16%nat) (blocks n B).
Proof.
  revert B. induction n as [|n IH]; intros B H; [by destruct B|].
  destruct (IH (drop 16 B)) as (I1 & I2 & I3); [rewrite length_drop; lia|].
  cbn [blocks concat length]. rewrite I1, I2, take_drop. split; [done|]. split; [done|].
  constructor; [rewrite length_take; lia|done].
Qed.

Lemma length_chains X Bs :
  length X = 16%nat -> Forall (fun b => length b = 16%nat) Bs -> Forall (fun b => length b = 16%nat) (chain X Bs).
Proof.
  intros HX HF. revert X HX. induction HF as [|b Bs Hb HF IH]; intros X HX; [constructor|].
  assert (length (salsa (zip_with Z.lxor X b)) = 16%nat) by (apply length_salsa; rewrite length_zip; lia).
  simpl. constructor; auto.
Qed.

Lemma halves {A} n (l : list (list A)) : Forall (fun b => length b = 16%nat) l -> length l = (2 * n)%nat ->
  length (concat (evens l)) = (16 * n)%nat /\ length (concat (odds l)) = (16 * n)%nat.
Proof.
  revert l. induction n as [|n IH]; intros l HF Hl; [by destruct l|].
  destruct l as [|x [|y l]]; simpl in Hl; try lia. apply Forall_cons in HF as [Hx [Hy HF]%Forall_cons].
  destruct (IH l) as [I1 I2]; [done|lia|]. simpl. rewrite !length_app. lia.
Qed.

Lemma blockmix_chain r B : (1 <= r)%nat -> length B = (32 * r)%nat ->
  let Y := chain (drop (16 * (2 * r - 1)) B) (blocks (2 * r) B) in
  length (concat (evens Y)) = (16 * r)%nat /\ length (concat (odds Y)) = (16 * r)%nat.
Proof.
  intros Hr HB Y. destruct (blocks_spec (2 * r) B) as (_ & I2 & I3); [lia|]. apply halves.
  - apply length_chains; [rewrite length_drop; lia|done].
  - unfold Y. by rewrite length_chain.
Qed.

Lemma length_BlockMix r B : (1 <= r)%nat -> length B = (32 * r)%nat -> length (BlockMix r B) = (32 * r)%nat.
Proof.
  intros Hr HB. destruct (blockmix_chain r B Hr HB) as [H1 H2]. unfold BlockMix. rewrite length_app. lia.
Qed.

Lemma blockmix_at T Bin Bout X r s :
  (1 <= r)%nat -> length s = (32 * r)%nat -> at_ T Bin s -> 0 <= X -> X + 16 <= zlen T ->
  0 <= Bout -> Bout + 32 * Z.of_nat r <= zlen T ->
  X + 16 <= Bin \/ Bin + 32 * Z.of_nat r <= X -> X + 16 <= Bout \/ Bout + 32 * Z.of_nat r <= X ->
  Bin + 32 * Z.of_nat r <= Bout \/ Bout + 32 * Z.of_nat r <= Bin ->
  exists T', blockmix T Bin Bout X (Z.of_nat r) = Some T' /\ at_ T' Bout (BlockMix r s) /\
    same (fun i => X <= i < X + 16 \/ Bout <= i < Bout + 32 * Z.of_nat r) T T'.
Proof.
  intros Hr Ls Hin HX0 HX1 H0 H1 D1 D2 D3. pose proof Hin as (G0 & _ & _). unfold blockmix.
  destruct (at_take_drop T Bin s (16 * (2 * r - 1)) Hin) as [_ Hlast]; [lia|].
  assert (length (drop (16 * (2 * r - 1)) s) = 16%nat) as Ld by (rewrite length_drop; lia).
  destruct (blkcpy_at T X (Bin + (2 * Z.of_nat r - 1) * 16) (drop (16 * (2 * r - 1)) s) 16)
    as (T1 & -> & A1 & S1); try done; try lia.
  { by replace (Bin + (2 * Z.of_nat r - 1) * 16) with (Bin + Z.of_nat (16 * (2 * r - 1))) by lia. }
  rewrite Some_bind, Nat2Z.id. pose proof (proj1 S1) as Z1.
  destruct (blocks_spec (2 * r) s) as (I1 & I2 & I3); [lia|].
  destruct (blockmix_loop_at (Z.of_nat r) r 0 T1 Bin Bout X (blocks (2 * r) s) (drop (16 * (2 * r - 1)) s))
    as (T' & E & A & C & S); try done; try lia.
  { rewrite I1, Z.add_0_r. eapply same_at; [done..|simpl; lia]. }
  exists T'. split; [done|]. destruct (blockmix_chain r s Hr Ls) as [L1 L2]. unfold BlockMix. split.
  - apply at_app. rewrite L1. split; [by replace Bout with (Bout + 16 * 0) by lia|].
    by replace (Bout + Z.of_nat (16 * r)) with (Bout + 16 * Z.of_nat r + 16 * 0) by lia.
  - split; [pose proof (proj1 S); lia|]. intros i Hi. rewrite (proj2 S), (proj2 S1) by lia. done.
Qed.

(** ** ROMix *)

Lemma integerify_at T B r s m :
  (1 <= r)%nat -> length s = (32 * r)%nat -> at_ T B s -> 0 <= m < 32 ->
  exists k, integerify T B (Z.of_nat r) = Some k /\
    s32 (Z.land k (u64 (2 ^ m - 1))) = integer r s mod 2 ^ m.
Proof.
  intros Hr Ls Hat Hm. destruct (at_take_drop T B s (16 * (2 * r - 1)) Hat) as [_ Hlast]; [lia|].
  unfold integerify, integer. set (d := drop _ s) in *.
  assert (length d = 16%nat) as Ld by (unfold d; rewrite length_drop; lia).
  destruct d as [|w0 [|w1 d]]; try done. destruct Hlast as (_ & _ & Hg).
  replace (B + (2 * Z.of_nat r - 1) * 16) with (B + Z.of_nat (16 * (2 * r - 1))) by lia.
  rewrite (Hg 1) by (simpl; lia). rewrite (Hg 0) by (simpl; lia).
  change (zget (w0 :: w1 :: d) 1) with (Some w1). change (zget (w0 :: w1 :: d) 0) with (Some w0).
  eexists. split; [done|]. cbn [foldr]. set (rest := w1 + _).
  assert (0 < 2 ^ m <= 2 ^ 31) as Hpow.
  { split; [apply Z.pow_pos_nonneg; lia|]. apply Z.pow_le_mono_r; lia. }
  rewrite (u64_small (2 ^ m - 1)) by lia. rewrite Z.sub_1_r, <- Z.ones_equiv, Z.land_ones by lia.
  assert (forall w x, Z.lor (u64 (Z.shiftl w 32)) x mod 2 ^ m = x mod 2 ^ m) as Hlow.
  { intros w x. apply Z.bits_inj'. intros i Hi. destruct (decide (i < m)).
    - rewrite !Z.mod_pow2_bits_low, Z.lor_spec by lia. unfold u64.
      change 18446744073709551616 with (2 ^ 64). rewrite Z.mod_pow2_bits_low, Z.shiftl_spec_low by lia. done.
    - rewrite !Z.mod_pow2_bits_high by lia. done. }
  rewrite Hlow. pose proof (Z.mod_pos_bound w0 (2 ^ m)). rewrite s32_small by lia.
  replace (2 ^ 32 * rest) with ((2 ^ (32 - m) * rest) * 2 ^ m).
  - by rewrite Z.mod_add by lia.
  - replace (2 ^ 32) with (2 ^ (32 - m) * 2 ^ m); [lia|]. rewrite <- Z.pow_add_r by lia. f_equal. lia.
Qed.

(** The rows that [n] steps put into the table. *)
Fixpoint rows_of (r n : nat) (x : list Z) : list (list Z) :=
  match n with O => [] | S n => x :: rows_of r n (BlockMix r x) end.

Lemma rows_filled r n x : rows_of r n x = filled r n x.
Proof.
  unfold filled. revert x. induction n as [|n IH]; intros x; [done|]. cbn [rows_of seq fmap list_fmap].
  rewrite IH, <- fmap_S_seq, <- list_fmap_compose. f_equal. apply list_fmap_ext. intros i j _. simpl.
  by rewrite <- Nat.iter_succ_r.
Qed.

Lemma length_iter_BlockMix r n x :
  (1 <= r)%nat -> length x = (32 * r)%nat -> length (Nat.iter n (BlockMix r) x) = (32 * r)%nat.
Proof. intros Hr Hx. induction n; [done|]. by apply length_BlockMix. Qed.

Lemma filled_lengths r n x : (1 <= r)%nat -> length x = (32 * r)%nat ->
  Forall (fun v => length v = (32 * r)%nat) (filled r n x).
Proof.
  intros Hr Hx. apply Forall_forall. intros v (i & -> & _)%list_elem_of_fmap.
  by apply length_iter_BlockMix.
Qed.

Lemma at_concat T off l (n j : nat) v :
  at_ T off (concat l) -> Forall (fun v => length v = n) l -> l !! j = Some v ->
  at_ T (off + Z.of_nat (j * n)) v.
Proof.
  revert off j. induction l as [|w l IH]; intros off j Hat HF Hj; [done|].
  apply Forall_cons in HF as [Hw HF]. cbn [concat] in Hat. apply at_app in Hat as [H1 H2].
  destruct j as [|j].
  - injection Hj as ->. by rewrite Z.add_0_r.
  - replace (off + Z.of_nat (S j * n)) with (off + zlen w + Z.of_nat (j * n)) by lia. eauto.
Qed.

(** The two states at [X] and [Y], the block for mixing after them, and the
    table at [V]. *)
Section romix.
Context (r : nat) (XY V N : Z).
Hypothesis Hr : (1 <= r)%nat.
Hypothesis HXY : 0 <= XY.
Hypothesis HV : 0 <= V.
Hypothesis Hdis : XY + 64 * Z.of_nat r + 16 <= V \/ V + 32 * Z.of_nat r * N <= XY.
Hypothesis Hint : 32 * Z.of_nat r * N < 2 ^ 31.

Abbreviation R := (32 * Z.of_nat r).
Abbreviation Zb := (XY + 64 * Z.of_nat r).
Abbreviation room T := (XY + 64 * Z.of_nat r + 16 <= zlen T /\ V + R * N <= zlen T).
Abbreviation mixed := (fun i => XY <= i < XY + 64 * Z.of_nat r + 16).

(** Two places for states. *)
Abbreviation places A B := (XY <= A /\ A + R <= Zb /\ XY <= B /\ B + R <= Zb /\ (A + R <= B \/ B + R <= A)).

Lemma row_at i : 0 <= i < N -> row i (Z.of_nat r) = R * i /\ R * i + R <= R * N.
Proof.
  intros Hi. assert (R * i + R <= R * N) by nia. split; [|done]. unfold row.
  rewrite (s32_small (32 * _)) by nia. rewrite s32_small by nia. lia.
Qed.

Lemma fill_half T A B i x :
  places A B -> room T -> 0 <= i < N -> at_ T A x -> length x = (32 * r)%nat ->
  exists T1 T2, blkcpy T (V + row i (Z.of_nat r)) (inside A) R = Some T1 /\
    blockmix T1 A B Zb (Z.of_nat r) = Some T2 /\
    at_ T2 (V + R * i) x /\ at_ T2 B (BlockMix r x) /\
    same (fun k => mixed k \/ V + R * i <= k < V + R * (i + 1)) T T2.
Proof.
  intros HAB HT Hi Hx Lx. destruct (row_at i Hi) as [-> Hb].
  destruct (blkcpy_at T (V + R * i) A x R) as (T1 & E1 & A1 & S1); try done; try lia.
  pose proof (proj1 S1) as Z1.
  destruct (blockmix_at T1 A B Zb r x) as (T2 & E2 & A2 & S2); try done; try lia.
  { eapply same_at; [done..|simpl; lia]. }
  exists T1, T2. split; [done|]. split; [done|]. split; [eapply same_at; [done..|simpl; lia]|].
  split; [done|]. split; [pose proof (proj1 S2); lia|]. intros k Hk.
  rewrite (proj2 S2), (proj2 S1) by lia. done.
Qed.

Lemma fill_loop_at n : forall k T x,
  0 <= k -> k + 2 * Z.of_nat n = N -> room T -> at_ T XY x -> length x = (32 * r)%nat ->
  exists T', fill_loop n T XY (XY + R) Zb V (Z.of_nat r) k = Some T' /\
    at_ T' (V + R * k) (concat (rows_of r (2 * n) x)) /\
    at_ T' XY (Nat.iter (2 * n) (BlockMix r) x) /\
    same (fun i => mixed i \/ V + R * k <= i < V + R * N) T T'.
Proof.
  induction n as [|n IH]; intros k T x Hk Hn HT Hx Lx.
  - exists T. simpl. split; [done|]. split; [|split; [done|apply cells_refl]].
    split; [lia|]. split; [simpl; nia|]. simpl. lia.
  - cbn [fill_loop].
    destruct (fill_half T XY (XY + R) k x) as (T1 & T2 & -> & E2 & A2 & B2 & S2); try done; try lia.
    rewrite Some_bind, E2, Some_bind. pose proof (proj1 S2) as Z2.
    pose proof (length_BlockMix r x Hr Lx) as Ly. set (y := BlockMix r x) in *.
    destruct (fill_half T2 (XY + R) XY (k + 1) y) as (T3 & T4 & -> & E4 & A4 & B4 & S4); try done; try lia.
    rewrite Some_bind, E4, Some_bind. pose proof (proj1 S4) as Z4.
    pose proof (length_BlockMix r y Hr Ly) as Lz. set (z := BlockMix r y) in *.
    destruct (IH (k + 2) T4 z) as (T' & E' & A' & B' & S'); try done; try lia.
    exists T'. split; [done|].
    replace (2 * S n)%nat with (S (S (2 * n))) by lia. cbn [rows_of concat]. fold y. fold z.
    rewrite !Nat.iter_succ_r. fold y. fold z. rewrite !at_app.
    assert (R * k + R * 2 <= R * N) by nia.
    split; [split; [|split]|split; [done|]].
    + eapply same_at; [done| |simpl; lia]. eapply same_at; [done..|simpl; lia].
    + eapply same_at; [done| |simpl; lia].
      by replace (V + R * k + zlen x) with (V + R * (k + 1)) by lia.
    + by replace (V + R * k + zlen x + zlen y) with (V + R * (k + 2)) by lia.
    + split; [pose proof (proj1 S'); lia|]. intros i Hi.
      rewrite (proj2 S'), (proj2 S4), (proj2 S2) by lia. done.
Qed.

Context (l : list (list Z)).
Hypothesis HN : N = zlen l.
Hypothesis Hl : Forall (fun v => length v = (32 * r)%nat) l.
Context (m : Z).
Hypothesis Hm : 0 <= m < 31.
Hypothesis HNm : N = 2 ^ m.

Lemma mix_half T A B x :
  places A B -> room T -> at_ T V (concat l) -> at_ T A x -> length x = (32 * r)%nat ->
  exists k T1 T2, integerify T A (Z.of_nat r) = Some k /\
    blkxor T A (inside (V + row (s32 (Z.land k (u64 (N - 1)))) (Z.of_nat r))) R = Some T1 /\
    blockmix T1 A B Zb (Z.of_nat r) = Some T2 /\
    at_ T2 B (mix_step r l x) /\ length (mix_step r l x) = (32 * r)%nat /\ same mixed T T2.
Proof.
  intros HAB HT HVl Hx Lx.
  destruct (integerify_at T A r x m) as (k & Ek & Hk); try done; try lia. exists k.
  rewrite HNm, Hk. rewrite <- HNm. unfold mix_step. rewrite <- HN.
  assert (0 < N) as HN0 by (rewrite HNm; apply Z.pow_pos_nonneg; lia).
  pose proof (Z.mod_pos_bound (integer r x) N HN0) as Hj. set (j := integer r x mod N) in *.
  destruct (lookup_lt_is_Some_2 l (Z.to_nat j)) as [v Hv]; [lia|].
  rewrite (nth_lookup_Some _ _ _ _ Hv).
  destruct (row_at j Hj) as [-> Hb].
  pose proof (Forall_lookup_1 _ _ _ _ Hl Hv) as Lv. simpl in Lv.
  pose proof (at_concat T V l (32 * r) (Z.to_nat j) v HVl Hl Hv) as Hat.
  replace (V + Z.of_nat (Z.to_nat j * (32 * r))) with (V + R * j) in Hat by lia.
  destruct (blkxor_at T A (V + R * j) x v R) as (T1 & E1 & A1 & S1); try done; try lia.
  pose proof (proj1 S1) as Z1.
  assert (length (zip_with Z.lxor x v) = (32 * r)%nat) as Lz by (rewrite length_zip; lia).
  destruct (blockmix_at T1 A B Zb r _ Hr Lz A1) as (T2 & E2 & A2 & S2); try lia.
  exists T1, T2. split; [done|]. split; [done|]. split; [done|]. split; [done|].
  split; [by apply length_BlockMix|]. split; [pose proof (proj1 S2); lia|]. intros i Hi.
  rewrite (proj2 S2), (proj2 S1) by lia. done.
Qed.

Lemma mix_loop_at n : forall T x,
  room T -> at_ T V (concat l) -> at_ T XY x -> length x = (32 * r)%nat ->
  exists T', mix_loop n T XY (XY + R) Zb V (Z.of_nat r) N = Some T' /\
    at_ T' XY (Nat.iter (2 * n) (mix_step r l) x) /\
    length (Nat.iter (2 * n) (mix_step r l) x) = (32 * r)%nat /\ same mixed T T'.
Proof.
  assert (zlen (concat l) = R * N) as HLC.
  { rewrite (length_concat_same (32 * r)) by done. lia. }
  induction n as [|n IH]; intros T x HT HVl Hx Lx.
  - exists T. simpl. split; [done|]. split; [done|]. split; [done|apply cells_refl].
  - cbn [mix_loop].
    destruct (mix_half T XY (XY + R) x) as (k & T1 & T2 & -> & E1 & E2 & A2 & L2 & S2); try done; try lia.
    rewrite Some_bind, E1, Some_bind, E2, Some_bind. pose proof (proj1 S2) as Z2.
    assert (at_ T2 V (concat l)) as HV2 by (eapply same_at; [done..|simpl; lia]).
    destruct (mix_half T2 (XY + R) XY (mix_step r l x)) as (k' & T3 & T4 & -> & E3 & E4 & A4 & L4 & S4);
      try done; try lia.
    rewrite Some_bind, E3, Some_bind, E4, Some_bind. pose proof (proj1 S4) as Z4.
    assert (at_ T4 V (concat l)) as HV4 by (eapply same_at; [done..|simpl; lia]).
    destruct (IH T4 (mix_step r l (mix_step r l x))) as (T' & E' & A' & L' & S'); try done; try lia.
    exists T'. replace (2 * S n)%nat with (S (S (2 * n))) by lia. rewrite !Nat.iter_succ_r.
    split; [done|]. split; [done|]. split; [done|].
    eapply cells_trans; [done|]. by eapply cells_trans.
Qed.
End romix.

(** ** The whole *)

Section layout.
Context (r p : nat) (m : Z).
Hypothesis Hr : (1 <= r)%nat.
Hypothesis Hm : 1 <= m < 31.

Abbreviation N := (2 ^ m).
Abbreviation XY := (32 * Z.of_nat r * Z.of_nat p).
Abbreviation V := (XY + 64 * Z.of_nat r + 16).
Abbreviation top := (V + 32 * Z.of_nat r * N).
Hypothesis Hsize : 4 * top < 2 ^ 31.

Lemma N_even : exists h : nat, N = 2 * Z.of_nat h /\ Z.to_nat ((N + 1) / 2) = h /\ Z.to_nat N = (2 * h)%nat.
Proof.
  assert (N = 2 * 2 ^ (m - 1)) as HN by (rewrite <- Z.pow_succ_r by lia; f_equal; lia).
  assert (0 < 2 ^ (m - 1)) by (apply Z.pow_pos_nonneg; lia).
  exists (Z.to_nat (2 ^ (m - 1))). split; [lia|]. split; [|lia]. f_equal.
  symmetry. apply (Z.div_unique _ _ _ 1); lia.
Qed.

Lemma salsamix_at T B b :
  at_ T B b -> length b = (32 * r)%nat -> B + 32 * Z.of_nat r <= XY -> top <= zlen T ->
  exists T', salsamix T B (Z.of_nat r) N V XY = Some T' /\
    at_ T' B (ROMix r (Z.to_nat N) b) /\ length (ROMix r (Z.to_nat N) b) = (32 * r)%nat /\
    same (fun i => B <= i < B + 32 * Z.of_nat r \/ XY <= i < top) T T'.
Proof.
  intros Hb Lb HB HT. destruct N_even as (h & HN & Hh & HNn). pose proof (proj1 Hb).
  unfold salsamix. rewrite Hh.
  assert (128 * Z.of_nat r / 4 = 32 * Z.of_nat r) as -> by (symmetry; apply (Z.div_unique _ _ _ 0); lia).
  assert (256 * Z.of_nat r / 4 = 64 * Z.of_nat r) as -> by (symmetry; apply (Z.div_unique _ _ _ 0); lia).
  assert (0 < N) as HN0 by (apply Z.pow_pos_nonneg; lia).
  assert (0 <= 32 * Z.of_nat r * N) by lia.
  destruct (blkcpy_at T XY B b (32 * Z.of_nat r)) as (T1 & E1 & A1 & S1); try done; try lia.
  rewrite E1, Some_bind. pose proof (proj1 S1) as Z1.
  destruct (fill_loop_at r XY V N Hr) with (n := h) (k := 0) (T := T1) (x := b)
    as (T2 & E2 & A2 & B2 & S2); try done; try lia.
  rewrite E2, Some_bind. pose proof (proj1 S2) as Z2. rewrite Z.mul_0_r, Z.add_0_r, rows_filled in A2.
  destruct (mix_loop_at r XY V N Hr) with (l := filled r (2 * h) b) (m := m) (n := h) (T := T2)
    (x := Nat.iter (2 * h) (BlockMix r) b) as (T3 & E3 & A3 & L3 & S3); try done; try lia.
  { unfold filled. rewrite length_fmap, length_seq. lia. }
  { by apply filled_lengths. }
  { by apply length_iter_BlockMix. }
  rewrite E3, Some_bind. pose proof (proj1 S3) as Z3. rewrite HNn. unfold ROMix.
  set (res := Nat.iter _ _ (Nat.iter _ _ b)) in *.
  destruct (blkcpy_at T3 B XY res (32 * Z.of_nat r)) as (T4 & E4 & A4 & S4); try done; try lia.
  rewrite E4. exists T4. split; [done|]. split; [done|]. split; [done|].
  split; [pose proof (proj1 S4); lia|]. intros i Hi.
  rewrite (proj2 S4), (proj2 S3), (proj2 S2), (proj2 S1) by lia. done.
Qed.

Lemma blocks_loop_at n : forall T (i : nat) b,
  (i + n = p)%nat -> at_ T (32 * Z.of_nat r * Z.of_nat i) b -> length b = (32 * r * n)%nat -> top <= zlen T ->
  exists T', blocks_loop n T (Z.of_nat i) (Z.of_nat r) N V XY = Some T' /\
    at_ T' (32 * Z.of_nat r * Z.of_nat i) (mix_all n r (Z.to_nat N) b) /\
    length (mix_all n r (Z.to_nat N) b) = (32 * r * n)%nat /\ zlen T' = zlen T /\
    forall k, k < 32 * Z.of_nat r * Z.of_nat i -> zget T' k = zget T k.
Proof.
  induction n as [|n IH]; intros T i b Hn Hb Lb HT.
  - exists T. split; [done|]. split; [|split; [simpl; lia|done]]. destruct b; [done|simpl in Lb; lia].
  - assert (0 < N) as HN0 by (apply Z.pow_pos_nonneg; lia).
    assert (32 * Z.of_nat r * Z.of_nat i + 32 * Z.of_nat r <= XY) by nia.
    assert (0 <= 32 * Z.of_nat r * N) by nia. cbn [blocks_loop].
    assert (s32 (s32 (Z.of_nat i * 32) * Z.of_nat r) = 32 * Z.of_nat r * Z.of_nat i) as ->.
    { rewrite (s32_small (_ * 32)) by nia. rewrite s32_small by nia. lia. }
    destruct (at_take_drop _ _ _ (32 * r) Hb) as [H1 H2]; [lia|].
    destruct (salsamix_at T _ _ H1) as (T1 & -> & A1 & L1 & S1); try lia; [rewrite length_take; lia|].
    rewrite Some_bind. pose proof (proj1 S1) as Z1.
    replace (Z.of_nat i + 1) with (Z.of_nat (S i)) by lia.
    assert (32 * Z.of_nat r * Z.of_nat (S i) = 32 * Z.of_nat r * Z.of_nat i + Z.of_nat (32 * r)) as HS by lia.
    assert (length (drop (32 * r) b) = (32 * r * n)%nat) as Ld by (rewrite length_drop; lia).
    destruct (IH T1 (S i) (drop (32 * r) b)) as (T' & E' & A' & L' & Z' & S'); try lia; try done.
    { rewrite HS. eapply same_at; [done..|]. intros k Hk [?|?]; [lia|].
      assert (32 * Z.of_nat r * Z.of_nat i + 32 * Z.of_nat r * Z.of_nat (S n) = XY) by nia. nia. }
    exists T'. split; [done|]. cbn [mix_all]. rewrite at_app, L1, length_app.
    rewrite <- HS.
    split; [split; [|done]|split; [lia|split; [lia|]]].
    + destruct A1 as (G0 & G1 & G2). split; [done|]. split; [lia|]. intros k Hk.
      rewrite S' by lia. by apply G2.
    + intros k Hk. rewrite S' by lia. apply (proj2 S1). lia.
Qed.
End layout.

Lemma to_bytes_cons w T : to_bytes (w :: T) = le_bytes 4 w ++ to_bytes T.
Proof. done. Qed.

Lemma length_to_bytes T : length (to_bytes T) = (4 * length T)%nat.
Proof. induction T; [done|]. rewrite to_bytes_cons, length_app, length_le_bytes, IHT. simpl. lia. Qed.

Lemma bytes_to_bytes T : bytes (to_bytes T).
Proof.
  induction T as [|w T IH]; [constructor|]. rewrite to_bytes_cons.
  apply Forall_app. split; [apply bytes_le_bytes|done].
Qed.

Lemma take_to_bytes n T : take (4 * n) (to_bytes T) = to_bytes (take n T).
Proof.
  revert n. induction T as [|w T IH]; intros [|n]; try done.
  rewrite firstn_cons, !to_bytes_cons. rewrite take_app, length_le_bytes, take_ge by (rewrite length_le_bytes; lia).
  replace (4 * S n - 4)%nat with (4 * n)%nat by lia. by rewrite IH.
Qed.

Lemma length_of_bytes n bs : length (of_bytes n bs) = n.
Proof. revert bs. induction n; intros bs; [done|]. simpl. by rewrite IHn. Qed.

Lemma of_bytes_app a b bs cs : length bs = (4 * a)%nat ->
  of_bytes (a + b) (bs ++ cs) = of_bytes a bs ++ of_bytes b cs.
Proof.
  revert bs. induction a as [|a IH]; intros bs H; [by destruct bs|].
  cbn [Nat.add of_bytes app]. rewrite take_app_le, drop_app_le by lia.
  rewrite IH by (rewrite length_drop; lia). done.
Qed.

Lemma at_prefix T s : at_ T 0 s -> take (length s) T = s.
Proof.
  intros (_ & H1 & H2). apply list_eq_zget. intros i.
  destruct (decide (0 <= i < zlen s)) as [Hi|Hi]; [by rewrite zget_take, <- H2 by lia|].
  destruct (decide (i < 0)); [by rewrite !zget_neg by lia|].
  rewrite !zget_ge; [done|lia|rewrite length_take; lia].
Qed.

Lemma at_start s rest : at_ (s ++ rest) 0 s.
Proof.
  split; [done|]. split; [rewrite length_app; lia|]. intros i Hi. by rewrite zget_app_l by lia.
Qed.

Lemma length_pbkdf2_sha256 pass salt Pn Sn c len :
  length (pbkdf2_sha256_rfc (take (Z.to_nat (key_len Pn)) pass) (take (Z.to_nat Sn) salt) c len) = len.
Proof.
  unfold pbkdf2_sha256_rfc, pbkdf2_key. rewrite length_take. set (T := fun i : nat => _).
  assert (length (concat (T <$> seq 1 (len / 32 + 1))) = 32 * (len / 32 + 1))%nat as ->.
  { rewrite (length_concat_same 32).
    - by rewrite length_fmap, length_seq.
    - apply Forall_forall. intros v (i & -> & _)%list_elem_of_fmap.
      unfold T. by rewrite (length_pbkdf2_T (HC := sha256_core_spec)). }
  pose proof (Nat.div_mod_eq len 32). pose proof (Nat.mod_upper_bound len 32). lia.
Qed.

(** PBKDF2 as [spbkdf] calls it. *)
Lemma spbkdf_spec sc salt slen dk dklen :
  let passlen := sc_passlen sc in
  bytes (sc_pass sc) -> 0 <= passlen <= zlen (sc_pass sc) -> passlen < 2 ^ 31 -> bytes salt ->
  0 <= slen <= zlen salt -> slen + 4 < 2 ^ 31 -> 0 <= dklen <= zlen dk -> dklen + 32 < 2 ^ 31 ->
  spbkdf sc salt slen dk dklen =
    Some (pbkdf2_sha256_rfc (take (Z.to_nat (key_len passlen)) (sc_pass sc)) (take (Z.to_nat slen) salt) 1
            (Z.to_nat dklen) ++ drop (Z.to_nat dklen) dk).
Proof.
  intros passlen ? ? ? ? ? ? ? ?. unfold spbkdf. fold passlen. rewrite s32_small by lia.
  apply (pbkdf2_spec (HC := sha256_core_spec)); try done; unfold key_len, HS; simpl; lia.
Qed.

(** The hash over a buffer of any contents that is large enough. *)
Lemma scrypt_hash_spec sc r p m dk dklen :
  let top := 32 * Z.of_nat r * Z.of_nat p + 64 * Z.of_nat r + 16 + 32 * Z.of_nat r * 2 ^ m in
  sc_n sc = 2 ^ m -> sc_r sc = Z.of_nat r -> sc_p sc = Z.of_nat p ->
  (1 <= r)%nat -> 1 <= m < 31 -> 4 * top + 36 < 2 ^ 31 -> top <= zlen (sc_temp sc) ->
  bytes (sc_pass sc) -> 0 <= sc_passlen sc <= zlen (sc_pass sc) -> sc_passlen sc < 2 ^ 31 ->
  bytes (sc_salt sc) -> 0 <= sc_saltlen sc <= zlen (sc_salt sc) -> sc_saltlen sc + 4 < 2 ^ 31 ->
  0 <= dklen <= zlen dk -> dklen + 32 < 2 ^ 31 ->
  scrypt_hash sc dk dklen =
    Some (scrypt_rfc (take (Z.to_nat (key_len (sc_passlen sc))) (sc_pass sc))
      (take (Z.to_nat (sc_saltlen sc)) (sc_salt sc)) (Z.to_nat (2 ^ m)) r p (Z.to_nat dklen)
      ++ drop (Z.to_nat dklen) dk).
Proof.
  intros top Hn Hr Hp Hr1 Hm Htop HT HP Hpl Hp31 HSb Hsl Hs31 Hdk Hd31. unfold scrypt_hash.
  assert (0 < 2 ^ m <= 2 ^ 30) as Hpow.
  { split; [apply Z.pow_pos_nonneg; lia|]. apply Z.pow_le_mono_r; lia. }
  rewrite Hn, Hr, Hp.
  set (rz := Z.of_nat r) in *. set (pz := Z.of_nat p) in *.
  assert (0 <= 32 * rz * pz /\ 0 <= 32 * rz * 2 ^ m) as [Q1 Q2] by (split; nia).
  assert (pz <= 32 * rz * pz) as Q3 by nia.
  rewrite (s32_small rz), (s32_small pz), (s32_small (2 ^ m)) by lia.
  rewrite (s32_small (128 * rz * pz)), (s32_small (256 * rz + 64)), (s32_small (4 * pz * 32 * rz)),
    (s32_small dklen), (s32_small (sc_saltlen sc)) by lia.
  set (n := (32 * r * p)%nat).
  assert (4 * pz * 32 * rz = Z.of_nat (4 * n)) as Hlen by lia. rewrite Hlen.
  rewrite spbkdf_spec; [|done|lia|done|done|lia|lia|rewrite length_to_bytes; lia|lia].
  rewrite Some_bind, Nat2Z.id. set (P := take _ (sc_pass sc)). set (S := take _ (sc_salt sc)).
  assert (length (pbkdf2_sha256_rfc P S 1 (4 * n)) = (4 * n)%nat) as HB by apply length_pbkdf2_sha256.
  set (B := pbkdf2_sha256_rfc P S 1 (4 * n)) in *.
  replace (length (sc_temp sc)) with (n + (length (sc_temp sc) - n))%nat by lia.
  rewrite of_bytes_app by done. set (rest := of_bytes _ (drop _ _)).
  assert (zlen (of_bytes n B ++ rest) = zlen (sc_temp sc)) as Hzl.
  { unfold rest. rewrite length_app, !length_of_bytes. lia. }
  assert (128 * rz * pz / 4 = 32 * rz * pz) as -> by (symmetry; apply (Z.div_unique _ _ _ 0); lia).
  assert ((128 * rz * pz + (256 * rz + 64)) / 4 = 32 * rz * pz + 64 * rz + 16) as ->
    by (symmetry; apply (Z.div_unique _ _ _ 0); lia).
  destruct (blocks_loop_at r p m Hr1 ltac:(lia) ltac:(unfold top in *; lia) p (of_bytes n B ++ rest) 0 (of_bytes n B))
    as (T' & E & A & L & Z & _).
  { done. }
  { rewrite Z.mul_0_r. apply at_start. }
  { by rewrite length_of_bytes. }
  { unfold top in *. lia. }
  unfold pz at 1. rewrite Nat2Z.id. change (Z.of_nat 0) with 0 in E, A. unfold pz, rz. rewrite E, Some_bind.
  rewrite Z.mul_0_r in A. apply at_prefix in A. rewrite L in A.
  rewrite spbkdf_spec; [|done|lia|done|apply bytes_to_bytes|rewrite length_to_bytes; lia|lia|lia|lia].
  rewrite Nat2Z.id. change (4 * n)%nat with (4 * (32 * r * p))%nat. rewrite take_to_bytes, A.
  unfold scrypt_rfc. replace (p * 128 * r)%nat with (4 * n)%nat by lia. fold B.
  unfold words_of. rewrite HB. replace (4 * n / 4)%nat with n; [done|].
  rewrite Nat.mul_comm, Nat.div_mul; lia.
Qed.


(** ** Theorem *)

(** C19. [scrypt_hash] computes scrypt of RFC 7914, for every cost that is a power of
    two, every block size and parallelism for which the sizes are below 2^31,
    and passwords of up to 64 bytes: the memory [scrypt_init] asks for is accepted by
    [scrypt_temp] and suffices, whatever is in it, and a smaller one is refused; the first
    [dklen] bytes at [dk] become the key and no other changes. *)
Theorem scrypt_correct n r p m buf pass passlen salt saltlen dk dklen :
  n = 2 ^ m -> 1 <= m -> 1 <= r -> 1 <= p -> 128 * r * (p + n + 2) + 100 < 2 ^ 31 ->
  bytes pass -> 0 <= passlen <= zlen pass -> passlen <= 64 ->
  bytes salt -> 0 <= saltlen <= zlen salt -> saltlen + 4 < 2 ^ 31 ->
  0 <= dklen <= zlen dk -> dklen + 32 < 2 ^ 31 ->
  let '(sc, need) := scrypt_init n r p in
  let '(sc, ret) := scrypt_temp sc buf (4 * zlen buf) in
  need = 128 * r * (p + n + 2) + 64 /\
  ret = (if 4 * zlen buf <? need then -105 else 0) /\
  (ret = 0 ->
   scrypt_hash (scrypt_data sc pass passlen salt saltlen) dk dklen =
     Some (scrypt_rfc (take (Z.to_nat passlen) pass) (take (Z.to_nat saltlen) salt)
             (Z.to_nat n) (Z.to_nat r) (Z.to_nat p) (Z.to_nat dklen) ++ drop (Z.to_nat dklen) dk)).
Proof.
  intros -> Hm Hr Hp Hsz HPb Hpl Hp64 HSb Hsl Hs31 Hdk Hd31.
  assert (m < 31).
  { destruct (decide (m < 31)); [done|]. assert (2 ^ 31 <= 2 ^ m) by (apply Z.pow_le_mono_r; lia). nia. }
  assert (0 < 2 ^ m) by (apply Z.pow_pos_nonneg; lia).
  assert (0 <= r * p /\ 0 <= r * 2 ^ m) as [Q1 Q2] by (split; nia).
  unfold scrypt_init. rewrite (u32_small (128 * r * p)), (u32_small (256 * r + 64)), (u32_small (128 * r * 2 ^ m)) by lia.
  cbv zeta. rewrite u32_small by lia. unfold scrypt_temp. cbn [sc_templen sc_pass sc_passlen sc_salt sc_saltlen sc_n sc_p sc_r].
  destruct (Z.ltb_spec (4 * zlen buf) (128 * r * p + (256 * r + 64) + 128 * r * 2 ^ m)) as [Hlt|Hge].
  - split; [lia|]. split; [|done]. zcases. done.
  - split; [lia|]. split; [zcases; done|]. intros _. unfold scrypt_data.
    rewrite (scrypt_hash_spec _ (Z.to_nat r) (Z.to_nat p) m); cbn; try done; try lia.
    unfold key_len. by replace (Z.min 64 (Z.max 0 passlen)) with passlen by lia.
Qed.
End code.

(** The first test vector of section 12 of the RFC: no password, no salt, [N = 16], [r = p = 1]. *)
Lemma scrypt_correct_witness :
  let '(sc, need) := scrypt_init 16 1 1 in
  let '(sc, ret) := scrypt_temp sc (repeat 7 625) (4 * zlen (repeat 7 625)) in
  need = 2496 /\ ret = 0 /\
  scrypt_hash (HL := some_locals) (scrypt_data sc [] 0 [] 0) (repeat 9 65) 64 =
    Some [0x77; 0xd6; 0x57; 0x62; 0x38; 0x65; 0x7b; 0x20; 0x3b; 0x19; 0xca; 0x42; 0xc1; 0x8a; 0x04; 0x97;
          0xf1; 0x6b; 0x48; 0x44; 0xe3; 0x07; 0x4a; 0xe8; 0xdf; 0xdf; 0xfa; 0x3f; 0xed; 0xe2; 0x14; 0x42;
          0xfc; 0xd0; 0x06; 0x9d; 0xed; 0x09; 0x48; 0xf8; 0x32; 0x6a; 0x75; 0x3a; 0x0f; 0xc8; 0x1f; 0x17;
          0xe8; 0xd3; 0xe0; 0xfb; 0x2e; 0x0d; 0x36; 0x28; 0xcf; 0x35; 0xe2; 0x0c; 0x38; 0xd1; 0x89; 0x06; 9].
Proof.
  pose proof (scrypt_correct (HL := some_locals) 16 1 1 4 (repeat 7 625) [] 0 [] 0 (repeat 9 65) 64
    eq_refl ltac:(lia) ltac:(lia) ltac:(lia) ltac:(lia) ltac:(constructor) ltac:(simpl; lia) ltac:(lia)
    ltac:(constructor) ltac:(simpl; lia) ltac:(lia) ltac:(simpl; lia) ltac:(lia)) as H. revert H.
  destruct (scrypt_init 16 1 1) as [sc need]. destruct (scrypt_temp _ _ _) as [sc' ret].
  intros (-> & -> & H). split; [done|]. split; [done|]. rewrite H by done. by vm_compute.
Defined.

(** ** Deviations *)

(** The memory that [scrypt_init] asks for, and the hash of nothing over it. *)
Definition hash_in_need (n r p : Z) : Z * Z * option (list Z) :=
  let '(sc, need) := scrypt_init n r p in
  let '(sc, ret) := scrypt_temp sc (repeat 0 (Z.to_nat (need / 4))) need in
  (need, ret, scrypt_hash (HL := some_locals) (scrypt_data sc [] 0 [] 0) (repeat 0 16) 16).

(** The sizes are products of 32 bits: for a table of 4 GB the memory asked for
    is that of no table, it is accepted, and the hash leaves it. *)
Lemma scrypt_init_wraps : hash_in_need (2 ^ 22) 8 1 = (3136, 0, None).
Proof. by vm_compute. Qed.

(** Two rows are filled at a time: a cost of 1, which the RFC excludes, is not
    refused, and leaves the memory. *)
Lemma scrypt_cost_1 : hash_in_need 1 1 1 = (576, 0, None).
Proof. by vm_compute. Qed.
